(* ===== verification/_CoqProject ===== *)
-Q . S2P
Prelude.v
Float64.v
GoText.v
Params.v
Emission.v
OrderFee.v
Retarget.v
Json.v
GoNum.v
Ledger.v
Address.v
GoSort.v
Transfers.v
Lane.v
SupLedger.v
HmsLedger.v
EscrowSplit.v
FuzzEscrow.v
EscrowInv.v
EscrowUndo.v
Orders.v
OrdersInv.v
OrderProps.v
Block.v
PohPayload.v
Consensus.v
Chain.v
ChainFrame.v
ChainInv.v
ChainLedger.v
ChainViews.v
ChainSupply.v
ChainToy.v
ChainProps.v
ChainNonce.v
ChainReplay.v
WorkerSettle.v
WorkerStore.v
WorkerExport.v
WorkerRun.v
WorkerSafe.v
WorkerProps.v
PoolCfg.v
PoolBase.v
PoolOutbox.v
PoolVerify.v
PoolQueue.v
PoolClaim.v
PoolSubmit.v
PoolFair.v
PoolSteps.v
PoolPaths.v
PoolOps.v
PoolToy.v
PoolDrain.v
PoolLease.v
PoolProps.v
CoordShares.v
CoordBase.v
CoordWork.v
CoordSubmit.v
CoordPay.v
CoordSafe.v
CoordProps.v
HmsSeal.v
HmsBase.v
HmsLane.v
HmsStore.v
HmsPay.v
HmsRules.v
HmsSteps.v
HmsProps.v
HmsFiles.v
HmsToy.v
