(* ===== verification/Prelude.v ===== *)
(** * HackMe node: a model of the ledger, the block path and the campaign money

    HackMe is a Go program: a node keeps a proof-of-hash chain with a SQLite ledger (three assets:
    HMC, SUP, HMS), sells compute as orders and fuzzing campaigns, and pays workers from escrow; a
    pool hands out the work of the campaigns and queues what is owed; a coordinator leases ranges of
    proof-of-hash nonces to workers and accrues their rewards; a settler pays the accrued rewards; a
    second lane (HMS) has workers store customers' chunks, challenges them, and seals an epoch at a time.
    This library translates the core logic of the five from src/internal and src/cmd/coordinator and
    proves what makes it correct.  Every definition carries the name of the Go function it translates where Rocq allows
    it; PROJECT.json maps each one to its lines.

    ** How code is modelled

    - A [BeginTx ... Commit] body is a value of [tx DB A] (Prelude): a function from the database to
      a result and the next database.  An error carries no database: that is the deferred rollback.
      Two transactions of one node never interleave (the service's mutex), so an operation is one
      step; operations that commit several times are written with [run] and [outcome].
    - [DB] (Ledger) is one record of the tables: accounts, wallet, meta, pools and histories of the
      three assets, key bindings, campaign escrows, settle marks, orders, found nonces, blocks.
      [uint64] columns are stored through [sql_u64], which refuses values of 2^63 and more, as the
      driver does; [u64] and [i64] write out wrap-around.
    - Code that commits statement by statement is a value of [act] (Prelude): result and state
      both survive an error.  The settler's turn (WorkerRun) is written the same way over both its
      stores and the payer's node.
    - An operation of the HMS lane takes one reading of the clock, in seconds, and one environment; both,
      and the files, may change between operations.  URL parsing, the resolver and the driver's view of
      nil are the class [Net]; disk and worker endpoints answer through a [World].  Rows read without an
      ORDER BY come as [map_to_list] or in the order of insertion.  HTTP requests are modelled one at a
      time: those the code does not serialise (only ticks hold the mutex throughout) are not interleaved.
      [AssignChunk] is written as its check and its insert, and [assign_race] (HmsToy) shows what a tick
      between the two does to the manifest.
    - Answers of HTTP calls, and the runs of modules and harnesses, are arguments: functions of the
      state the call sees, or of the request ([Runs], [Relay], the node of WorkerRun).  What a pool
      client needs of a settler is the class [SettlerLaw] (PoolPaths), which the relay settler is
      proved to obey.  The requests of one settler turn are answered by the node at moments of their
      own ([turn_true] of WorkerSafe), while it includes and rejects transfers in between.
    - The settings of the coordinator are [WorkCfg]; what it refreshes from the node or retargets at
      run time, the price per attempt among it, is [TipView].
    - float64 is [f64] (Float64): exact rounding to nearest even of normal numbers; the amounts and
      rates of the program stay in that range, which the lemmas bound.
    - Strings are byte strings ([string]); [trim_space], [to_lower], hex, base64, decimal formats and
      the JSON encoder and decoder are written out (GoText, GoNum, Json, Block, PohPayload).
    - Clock readings, random ids, the environment, the WASM verdict on a nonce and the decoded
      manifest of an order are arguments.  SHA-256 and Ed25519 are the parameters of the class
      [Crypto] (the digest has 32 bytes), BLAKE3 of [PoHHash]; nothing else is assumed of them.
      [toy_crypto] and [toy_hash] instantiate them for the examples.

    ** Files

    - Prelude: results, transactions and their notation, sums over maps, tactics ([inv_tx], [b2p]).
    - Float64, GoText, GoNum, GoSort, Json: the parts of Go's standard library the code uses.
    - Params, Emission, OrderFee, Retarget: policy constants and pure rules: activation heights
      (economics_v2.go, asert.go, retarget.go), reward schedules (economics.go), order fees
      (order_fee_v2.go), difficulty and work (retarget.go, asert.go, poh_blake3.go).
    - Ledger: tables, meta counters, [econTotalsUnits], [checkEconomicInvariants] (service.go).
    - Address: address formats and key binding (address_format.go, pubkey_binding.go).
    - Transfers: HMC transfers (transfers.go): signing bytes, validation, pool, batch.
    - Lane, SupLedger, HmsLedger: the SUP and HMS ledgers (sup_ledger.go, sup_fee.go, hms_ledger.go);
      their transfer code is the same up to columns and is one parametric [Lane].
    - EscrowSplit: payout arithmetic of internal/fuzzescrow.
    - FuzzEscrow, EscrowInv, EscrowUndo: campaign escrow (fuzz_escrow.go, fuzz_settle_once.go,
      fuzz_settle_applied.go), its invariant, and what undoes what.
    - Orders, OrdersInv, OrderProps: paid orders (order_tasks.go).
    - Block, PohPayload: headers, hashes, signatures, and the mined payload with the JSON decoders
      that read it (internal/block, import.go, economics_runtime.go).
    - Consensus: pins of height, announce time, authority key and network id, and the v2 header rules
      (consensus_v2.go, economics_v2.go).
    - Chain: genesis, mining a block, importing one, the pool's solves, difficulty of the next block
      (service.go, import.go, asert_chain.go, poh_order_solve.go).
    - ChainFrame, ChainInv, ChainLedger, ChainSupply, ChainViews: frames, the chain invariant, money
      across a block, genesis, reads.  ChainToy is a concrete node.  ChainProps and ChainReplay hold
      the theorems of the block path.  ChainNonce walks through every transaction of the node: none
      takes a nonce back, so that a transfer is applied once.
    - WorkerSettle, WorkerStore, WorkerExport: the settler's amounts and ledgers with their outboxes,
      migration and export (internal/workersettle: delta.go, store.go, store_sup.go).  WorkerRun: the
      resolver of stranded intents and one turn of each asset (resolve_pending.go, settler.go,
      sup_settle.go).  WorkerSafe, WorkerProps: that a worker is paid once, and the other theorems.
    - PoolCfg, PoolBase: campaign configuration and the rules read from it (config.go,
      marketplace_filter.go, hunt_engine.go, pool_exec.go); the pool's tables and its monad.
    - PoolOutbox: settle intents, fair batches, acknowledgement, the relay settler (settle_outbox.go,
      settler.go, relay_settler.go).
    - PoolVerify: which verdict a submitted unit gets (replay_policy.go, clean_floor.go,
      hygiene_prove.go, canary.go, hunt_shard.go, [evalSubmitCheck]).
    - PoolQueue, PoolClaim, PoolSubmit: progress, lifecycle, sweeps, escrow closing; leases and the
      tick; submits and the queue of Hunt replays (service.go, lease_churn.go, deferred_bounty.go,
      settle_replay.go, hunt_replay_async.go, guided.go).
    - PoolSteps: the pool as a relation of single committed steps, its invariant and what each step
      may change.  PoolPaths, PoolOps: every operation is a path of such steps.  PoolToy: concrete
      histories.  PoolFair, PoolDrain, PoolLease, PoolProps: the theorems.
    - CoordShares: the pure rules of the work coordinator: shares, prices, ceilings, the budget of a
      day, the found-rate audit, SUP, hash rates (cmd/coordinator: shares.go, share_price.go,
      pool_budget.go, abuse_guard.go, found_audit.go, sup_accrual.go).
    - CoordBase, CoordWork: the manager's state, payout locks, bans and rates; claims and the claim
      handler (work.go, work_dedup.go, abuse_guard.go).
    - CoordSubmit, CoordPay: a submit, cut where it gives up the mutex around a relay, with a [Ticket]
      for what it holds meanwhile; what it pays (work.go, orders_pool.go).
    - CoordSafe: the coordinator as a relation of critical sections, with the submits that are out at
      a relay; the weight of a nonce over open, relaying and paid ranges.  CoordProps: the theorems.
    - HmsSeal: the pure rules of the HMS lane: seal hashes and targets, manifests, proofs of storage,
      identifiers, seal rewards, rate limits (internal/hms: seal.go, manifest.go, challenge.go, ids.go,
      rewards.go, hexutil.go, abuse.go).  HmsBase: configuration, tables, signed messages, files
      (config.go, db.go, sign.go, ssrf.go, market_replication.go).
    - HmsLane: epochs, registration, challenges, seals, settlement, warm work, the Stratum registry
      (coordinator.go, settlement.go, warm.go, stratum_registry.go).  HmsStore: the storage market
      (pricing.go, capacity.go, market.go, market_replication.go, market_health.go, remote_push.go,
      upload_token.go, payment_proof.go).
    - HmsSteps: the ways an operation may change the history of the lane, and that every operation is
      a path of them.  HmsPay, HmsRules, HmsProps, HmsFiles: the theorems; HmsToy: concrete runs.

    ** Theorem groups

    - Chain: validity of every reachable chain, agreement of mining and importing, conservation of
      HMC across a block, finality of the pins, pages served to a syncing follower.
    - Money: conservation by transfer batches, escrow operations and orders; caps of SUP and HMS;
      exactly-once settlement; open followed by rollback restores every balance; exact effect of
      each payout, transfer, order and expiry.
    - Authorisation: no replay of a transfer in any later state, no mint or burn applied twice, signed bytes determine
      what is signed, a bound key excludes others.
    - Settler: a worker is paid once, one intent at a time, ledger operations refine a promise of
      watermarks, a turn stays within what is owed and within the reserve, stranded intents.
    - Pool: one run row per work item over every history, final results, leases respected, issue of
      work, the gate before an escrow closes, verdicts that the coordinator reproduced, order and
      fairness of settle batches, termination of the replay drain.
    - Coordinator: no nonce and no share is paid twice under any interleaving, share lists are
      reduced exactly, a payout stays within its ceiling and the budget of the day.
    - HMS lane: a manifest root stands for exactly the chunks of its epoch and no history is rewritten,
      under any sequence of requests, ticks and connections served in turn; roots bind their leaves; the lines of a
      sealed epoch add up to its budget; what was uploaded can be downloaded.
    - Defects shown by a concrete or general run: see the error theorems of WorkerProps, PoolProps,
      PoolFair, PohPayload, CoordProps, HmsProps, HmsRules and HmsFiles.
    - Arithmetic: bounds of retargets, ASERT monotone and halving as specified, fee splits exact,
      schedules equal to their reference, payload round trip.

    Fuel: the JSON decoder takes one unit per value or separator; twice the input length plus one
    is enough ([json_fuel]).  The rounds of a fair batch take limit + 1 passes, each of which fills a
    place ([fair_rounds_fuel]).  [DrainHuntReplayQueue] takes one pass per open job and one more
    ([DrainHuntReplayQueue_terminates]).  The settler's retry loops run on the attempts the code
    counts.  No result depends on fuel beyond these bounds.

    ** Not modelled

    HTTP handlers and their rendering (main.go, the *_api.go files, fuzz_pool.go of the coordinator),
    GPU and CPU kernels, WASM execution and sandboxing, mutation engines and build tools for fuzz
    targets, p2p transport, command-line clients: I/O around the operations above, or state of other
    processes.  Of the coordinator, the durable copy of accruals, its statistics and the retargets of
    its difficulty (arguments of a submit) are left out; its restart is a new start at a random
    nonce.  Of the pool, the rows of
    coverage and corpus, read-only statistics, and the campaign summary apart from [runs_done] are
    left out: no queue or payment column depends on them.  Of the HMS lane, the lines of a Stratum
    connection, statistics, snapshots and lists are left out.  The stored JSON of a block is the block
    itself: header strings are valid UTF-8. *)
From Stdlib Require Export ZArith Lia Ascii String List.
From stdpp Require Export base gmap strings list fin_maps numbers.

#[global] Set Default Proof Using "Type".

(** * Results: a Go [(T, error)] pair

    The error value is identified by its sentinel or format string. *)

Inductive result (A : Type) : Type :=
  | Ok (a : A)
  | Err (e : string).
Arguments Ok {A} a.
Arguments Err {A} e%_string.

Definition rbind {A B} (m : result A) (f : A → result B) : result B :=
  match m with Ok a => f a | Err e => Err e end.

Lemma ok_inj {A} (a b : A) : Ok a = Ok b → a = b.
Proof. congruence. Qed.

Lemma rbind_ok {A B} (m : result A) (f : A → result B) b : rbind m f = Ok b ↔ ∃ a, m = Ok a ∧ f a = Ok b.
Proof. destruct m as [a|]; cbn; split; [eauto|by intros (x & <-%ok_inj & ?)|done|by intros (x & ? & ?)]. Qed.

Definition is_ok {A} (m : result A) : bool :=
  match m with Ok _ => true | Err _ => false end.

(** * Transactions: a state that is kept on success and dropped on error

    [tx S A] is the body of a [BeginTx ... Commit] block: an [Err] carries no state,
    which is the deferred [Rollback]. *)

Definition tx (S A : Type) : Type := S → result (A * S).

Definition ret {S A} (a : A) : tx S A := λ s, Ok (a, s).
Definition fail {S A} (e : string) : tx S A := λ _, Err e.
Definition bind {S A B} (m : tx S A) (f : A → tx S B) : tx S B :=
  λ s, match m s with Ok (a, s') => f a s' | Err e => Err e end.
Definition get {S} : tx S S := λ s, Ok (s, s).
Definition put {S} (s : S) : tx S unit := λ _, Ok (tt, s).
Definition modify {S} (f : S → S) : tx S unit := λ s, Ok (tt, f s).
Definition lift {S A} (r : result A) : tx S A :=
  λ s, match r with Ok a => Ok (a, s) | Err e => Err e end.
Definition guard {S} (b : bool) (e : string) : tx S unit :=
  if b then ret tt else fail e.

(** Run [m] and go on whether or not it failed. *)
Definition attempt {S A} (m : tx S A) : tx S unit :=
  λ s, match m s with Ok (_, s') => Ok (tt, s') | Err _ => Ok (tt, s) end.

Declare Scope tx_scope.
Delimit Scope tx_scope with tx.
Notation "'let*' x := m 'in' k" := (bind m (fun x => k))
  (at level 10, x pattern, m at level 100, k at level 200) : tx_scope.
Notation "m ;;; k" := (bind m (fun _ => k))
  (at level 199, right associativity) : tx_scope.
#[global] Open Scope tx_scope.
#[global] Open Scope Z_scope.

(** Run a transaction as the caller sees it: the state after [Commit] or after [Rollback]. *)
Definition run {S A} (m : tx S A) (s : S) : S :=
  match m s with Ok (_, s') => s' | Err _ => s end.
Definition outcome {S A} (m : tx S A) (s : S) : result A :=
  match m s with Ok (a, _) => Ok a | Err e => Err e end.

Section tx_lemmas.
Context {S : Type}.

Lemma bind_ok {A B} (m : tx S A) (f : A → tx S B) s b s' :
  bind m f s = Ok (b, s') ↔ ∃ a s1, m s = Ok (a, s1) ∧ f a s1 = Ok (b, s').
Proof.
  unfold bind. split.
  - destruct (m s) as [[a s1]|] eqn:E; [eauto|done].
  - intros (a & s1 & -> & ?); done.
Qed.

Lemma bind_run {A B} (m : tx S A) (f : A → tx S B) s a s' :
  m s = Ok (a, s') → bind m f s = f a s'.
Proof. unfold bind. by intros ->. Qed.

Lemma guard_true e (s : S) : guard true e s = Ok (tt, s).
Proof. done. Qed.

Lemma ret_ok {A} (a b : A) (s s' : S) : ret a s = Ok (b, s') ↔ a = b ∧ s = s'.
Proof. unfold ret. split; [by intros [=]|by intros [-> ->]]. Qed.

Lemma get_ok (s a s' : S) : get s = Ok (a, s') ↔ a = s ∧ s' = s.
Proof. unfold get. split; [by intros [=]|by intros [-> ->]]. Qed.

Lemma put_ok (s0 s : S) u s' : put s0 s = Ok (u, s') ↔ s' = s0.
Proof. unfold put. destruct u. split; [by intros [=]|by intros ->]. Qed.

Lemma modify_ok (f : S → S) s u s' : modify f s = Ok (u, s') ↔ s' = f s.
Proof. unfold modify. destruct u. split; [by intros [=]|by intros ->]. Qed.

Lemma lift_ok {A} (r : result A) (s : S) a s' :
  lift r s = Ok (a, s') ↔ r = Ok a ∧ s' = s.
Proof.
  unfold lift. destruct r; split; try done.
  - by intros [= -> ->].
  - by intros [[= ->] ->].
  - by intros [? _].
Qed.

Lemma guard_ok b e (s : S) u s' : guard b e s = Ok (u, s') ↔ b = true ∧ s' = s.
Proof.
  unfold guard, ret, fail. destruct b, u; split; try done.
  - by intros [= ->].
  - by intros [_ ->].
  - by intros [? _].
Qed.

Lemma fail_ok {A} e (s : S) (a : A) s' : fail e s = Ok (a, s') ↔ False.
Proof. done. Qed.

Lemma run_ok {A} (m : tx S A) s a s' : m s = Ok (a, s') → run m s = s'.
Proof. unfold run. by intros ->. Qed.

Lemma run_err {A} (m : tx S A) s e : m s = Err e → run m s = s.
Proof. unfold run. by intros ->. Qed.

(** A predicate kept by every successful run is kept by the committed-or-rolled-back state. *)
Lemma run_inv {A} (P : S → Prop) (m : tx S A) s :
  P s → (∀ a s', m s = Ok (a, s') → P s') → P (run m s).
Proof. intros HP H. unfold run. destruct (m s) as [[a s']|]; eauto. Qed.
End tx_lemmas.

(** A [for] loop whose body may fail: the first error ends it. *)
Fixpoint iter_tx {S A} (f : A → tx S unit) (l : list A) : tx S unit :=
  match l with
  | [] => ret tt
  | x :: l' => f x ;;; iter_tx f l'
  end.

Lemma iter_tx_inv {S A} (P : S → Prop) (f : A → tx S unit) l s u s' :
  (∀ x s s' u, x ∈ l → P s → f x s = Ok (u, s') → P s') →
  P s → iter_tx f l s = Ok (u, s') → P s'.
Proof.
  revert s. induction l as [|x l IH]; intros s Hf HP; cbn [iter_tx].
  - by intros [_ ->]%ret_ok.
  - intros (a & s1 & H1 & H2)%bind_ok. eapply IH; [| |exact H2].
    + intros y t t' v Hy. apply Hf. by right.
    + eapply Hf; [|exact HP|exact H1]. left.
Qed.

(** Components add their own primitive steps to [inv_tx] here. *)
Ltac inv_tx_hook H := fail.

(** [inv_tx H]: symbolic execution of a successful run, one step per hypothesis. *)
Ltac inv_tx_step H :=
  lazymatch type of H with
  | bind _ _ _ = Ok (_, _) =>
      let a := fresh "a" in let s1 := fresh "s" in
      let H1 := fresh H "_1" in let H2 := fresh H "_2" in
      apply bind_ok in H; destruct H as (a & s1 & H1 & H2);
      cbv beta in H2; inv_tx_step H1; inv_tx_step H2
  | ret _ _ = Ok (_, _) => apply ret_ok in H; destruct H as [? ?]
  | get _ = Ok (_, _) => apply get_ok in H; destruct H as [? ?]
  | put _ _ = Ok (_, _) => apply put_ok in H
  | modify _ _ = Ok (_, _) => apply modify_ok in H
  | lift _ _ = Ok (_, _) => apply lift_ok in H; destruct H as [? ?]
  | guard _ _ _ = Ok (_, _) => apply guard_ok in H; destruct H as [? ?]
  | fail _ _ = Ok (_, _) => exfalso; exact (proj1 (fail_ok _ _ _ _) H)
  | (if ?b then _ else _) _ = Ok (_, _) => destruct b eqn:?; inv_tx_step H
  | (let '_ := ?x in _) _ = Ok (_, _) => destruct x eqn:?; inv_tx_step H
  | match ?x with _ => _ end _ = Ok (_, _) => destruct x eqn:?; inv_tx_step H
  | _ => tryif inv_tx_hook H then inv_tx_step H else idtac
  end.
Ltac inv_tx H := inv_tx_step H; subst.

(** * Machine integers *)

Definition two64 : Z := 18446744073709551616.
Definition two63 : Z := 9223372036854775808.
Definition u64 (z : Z) : Z := z mod two64.
Definition is_u64 (z : Z) : bool := (0 <=? z) && (z <? two64).
(** Two's-complement [int64] wrap-around. *)
Definition i64 (z : Z) : Z := (z + two63) mod two64 - two63.

Lemma u64_small z : 0 ≤ z < two64 → u64 z = z.
Proof. intros. unfold u64. by apply Z.mod_small. Qed.

Lemma u64_range z : 0 ≤ u64 z < two64.
Proof. unfold u64. apply Z.mod_pos_bound. done. Qed.

Lemma i64_small z : - two63 ≤ z < two63 → i64 z = z.
Proof. intros. unfold i64. rewrite Z.mod_small; unfold two63, two64 in *; lia. Qed.

Create HintDb u64db.
#[export] Hint Resolve u64_small u64_range i64_small : u64db.

(** Boolean tests of the code to propositions, and back. *)
Ltac b2p :=
  repeat match goal with
  | H : (_ && _)%bool = true |- _ => apply andb_true_iff in H; destruct H
  | H : (_ || _)%bool = false |- _ => apply orb_false_iff in H; destruct H
  | H : negb _ = true |- _ => apply negb_true_iff in H
  | H : negb _ = false |- _ => apply negb_false_iff in H
  | H : (_ <? _) = true |- _ => apply Z.ltb_lt in H
  | H : (_ <? _) = false |- _ => apply Z.ltb_ge in H
  | H : (_ <=? _) = true |- _ => apply Z.leb_le in H
  | H : (_ <=? _) = false |- _ => apply Z.leb_gt in H
  | H : (_ =? _) = true |- _ => apply Z.eqb_eq in H
  | H : (_ =? _) = false |- _ => apply Z.eqb_neq in H
  | H : bool_decide _ = true |- _ => apply bool_decide_eq_true in H
  | H : bool_decide _ = false |- _ => apply bool_decide_eq_false in H
  end.

(** * Sums over finite maps *)

Section msum.
Context {K : Type} `{Countable K} {V : Type}.

Definition msum (f : V → Z) (m : gmap K V) : Z := map_fold (λ _ v acc, f v + acc) 0 m.

Lemma msum_empty f : msum f ∅ = 0.
Proof. apply map_fold_empty. Qed.

Lemma msum_insert_new f m k v : m !! k = None → msum f (<[k := v]> m) = f v + msum f m.
Proof. intros Hk. unfold msum. rewrite (map_fold_insert_L (λ _ v acc, f v + acc) 0 k v m); [done| |done].
  intros. lia. Qed.

Lemma msum_delete f m k v : m !! k = Some v → msum f m = f v + msum f (delete k m).
Proof. intros Hk. unfold msum. rewrite (map_fold_delete_L (λ _ v acc, f v + acc) 0 k v m); [done| |done].
  intros. lia. Qed.

Definition mval (f : V → Z) (m : gmap K V) (k : K) : Z :=
  match m !! k with Some v => f v | None => 0 end.

Lemma msum_delete_val f m k : msum f (delete k m) = msum f m - mval f m k.
Proof.
  unfold mval. destruct (m !! k) as [v|] eqn:E.
  - rewrite (msum_delete f m k v) by done. lia.
  - rewrite delete_id by done. lia.
Qed.

Lemma msum_insert f m k v : msum f (<[k := v]> m) = msum f m + f v - mval f m k.
Proof.
  rewrite <- insert_delete_eq, msum_insert_new by apply lookup_delete_eq.
  rewrite msum_delete_val. lia.
Qed.

Lemma msum_nonneg f m : map_Forall (λ _ v, 0 ≤ f v) m → 0 ≤ msum f m.
Proof.
  induction m as [|k v m Hk IH] using map_ind; intros Hf; [by rewrite msum_empty|].
  rewrite msum_insert_new by done. apply map_Forall_insert in Hf as [H0 Hf]; [|done].
  specialize (IH Hf). lia.
Qed.

Lemma msum_lookup_le f m k v : map_Forall (λ _ v, 0 ≤ f v) m → m !! k = Some v → f v ≤ msum f m.
Proof.
  intros Hf Hk. rewrite (msum_delete f m k v) by done.
  assert (0 ≤ msum f (delete k m)); [|lia]. apply msum_nonneg. by apply map_Forall_delete.
Qed.

Lemma msum_ext f g m : (∀ k v, m !! k = Some v → f v = g v) → msum f m = msum g m.
Proof.
  induction m as [|k v m Hk IH] using map_ind; intros Hf; [done|].
  rewrite !msum_insert_new by done. rewrite (Hf k v) by apply lookup_insert_eq.
  rewrite IH; [done|]. intros k' v' Hk'. apply (Hf k'). rewrite lookup_insert_ne; [done|congruence].
Qed.

Lemma msum_fmap f (g : V → V) m : msum f (g <$> m) = msum (λ v, f (g v)) m.
Proof.
  induction m as [|k v m Hk IH] using map_ind; [done|].
  rewrite fmap_insert, !msum_insert_new; [by rewrite IH|done|by rewrite lookup_fmap, Hk].
Qed.

Lemma msum_plus f g m : msum (λ v, f v + g v) m = msum f m + msum g m.
Proof.
  induction m as [|k v m Hk IH] using map_ind; [done|]. rewrite !msum_insert_new by done. lia.
Qed.

Lemma msum_list f m : msum f m = foldr (λ v acc, f v + acc) 0 (map_to_list m).*2.
Proof.
  unfold msum. rewrite map_fold_foldr. induction (map_to_list m) as [|[k v] l IH]; [done|]. cbn in *. by rewrite IH.
Qed.

(** The members selected by [P], in the order of [map_to_list]. *)
Lemma msum_filter f (P : K * V → Prop) `{∀ x, Decision (P x)} m :
  foldr (λ x acc, f x.2 + acc) 0 (filter P (map_to_list m))
  = foldr (λ x acc, (if decide (P x) then f x.2 else 0) + acc) 0 (map_to_list m).
Proof.
  induction (map_to_list m) as [|x l IH]; [done|]. rewrite filter_cons. cbn.
  destruct (decide (P x)); cbn; by rewrite IH.
Qed.
End msum.

(** * Operations that commit step by step *)

Definition act (S A : Type) : Type := S → result A * S.

Definition aret {S A} (a : A) : act S A := λ s, (Ok a, s).
Definition afail {S A} (e : string) : act S A := λ s, (Err e, s).
Definition abind {S A B} (m : act S A) (f : A → act S B) : act S B :=
  λ s, match m s with (Ok a, s') => f a s' | (Err e, s') => (Err e, s') end.
Definition aget {S} : act S S := λ s, (Ok s, s).
Definition amod {S} (f : S → S) : act S unit := λ s, (Ok tt, f s).
Definition aguard {S} (b : bool) (e : string) : act S unit := if b then aret tt else afail e.
Definition alift {S A} (r : result A) : act S A := λ s, (r, s).
(** [_, _ = f()]: go on after an error. *)
Definition atry {S A} (m : act S A) : act S unit := λ s, (Ok tt, (m s).2).
(** [fmt.Errorf("...: %w", err)] *)
Definition awrap {S A} (pre : string) (m : act S A) : act S A :=
  λ s, match m s with (Err e, s') => (Err (pre +:+ e), s') | r => r end.

Declare Scope act_scope.
Delimit Scope act_scope with act.
Notation "'let!' x := m 'in' k" := (abind m (fun x => k))
  (at level 10, x pattern, m at level 100, k at level 200) : act_scope.
Notation "m ;!; k" := (abind m (fun _ => k)) (at level 199, right associativity) : act_scope.
#[global] Open Scope act_scope.

(** The state after an operation, and its result. *)
Definition after {S A} (m : act S A) (s : S) : S := (m s).2.
Definition answer {S A} (m : act S A) (s : S) : result A := (m s).1.

Fixpoint afor {S A} (f : A → act S unit) (l : list A) : act S unit :=
  match l with [] => aret tt | x :: l' => f x ;!; afor f l' end.
(** The same with a counter of the passes that count. *)
Fixpoint acount {S A} (f : A → act S Z) (n : Z) (l : list A) : act S Z :=
  match l with [] => aret n | x :: l' => let! k := f x in acount f (n + k) l' end.

Lemma after_bind {S A B} (m : act S A) (f : A → act S B) p a : answer m p = Ok a → after (abind m f) p = after (f a) (after m p).
Proof. unfold after, answer, abind. destruct (m p) as [r p']; cbn. by intros ->. Qed.
Lemma answer_bind {S A B} (m : act S A) (f : A → act S B) p a : answer m p = Ok a → answer (abind m f) p = answer (f a) (after m p).
Proof. unfold after, answer, abind. destruct (m p) as [r p']; cbn. by intros ->. Qed.

Lemma abind_ok {S A B} (a : act S A) (f : A → act S B) m y m2 :
  abind a f m = (Ok y, m2) → ∃ x m1, a m = (Ok x, m1) ∧ f x m1 = (Ok y, m2).
Proof. unfold abind. destruct (a m) as [[x|e] m1]; intros E; [by exists x, m1|done]. Qed.
Lemma aguard_ok {S} b e (m : S) x m' : aguard b e m = (Ok x, m') → b = true ∧ m' = m.
Proof. destruct b; cbn; intros E; [by injection E|done]. Qed.
(** Run a bind that answered. *)
Ltac run_ok :=
  repeat match goal with
         | H : abind _ _ _ = (Ok _, _) |- _ => let x := fresh "x" in let m := fresh "m" in let E := fresh "E" in
             apply abind_ok in H as (x & m & E & H)
         | H : aguard _ _ _ = (Ok _, _) |- _ => apply aguard_ok in H as [H ->]
         | H : aget _ = (Ok _, _) |- _ => injection H as <- <-
         | H : amod _ _ = (Ok _, _) |- _ => injection H as <- <-
         | H : aret _ _ = (Ok _, _) |- _ => injection H as <- <-
         | H : alift _ _ = (Ok _, _) |- _ => injection H as H <-
         | H : afail _ _ = (Ok _, _) |- _ => discriminate H
         end.

(** A relation between the states before and after an operation, whatever it answers. *)
Section along.
Context {S : Type} (R : S → S → Prop) `{!PreOrder R}.
Definition along {A} (m : act S A) : Prop := ∀ s, R s (after m s).

Lemma along_ret {A} (x : A) : along (aret x).
Proof using All. by intros s. Qed.
Lemma along_fail {A} e : along (A := A) (afail e).
Proof using All. by intros s. Qed.
Lemma along_get : along aget.
Proof using All. by intros s. Qed.
Lemma along_guard b e : along (aguard b e).
Proof using All. by destruct b; intros s. Qed.
Lemma along_lift {A} (r : result A) : along (alift r).
Proof using All. by intros s. Qed.
Lemma along_mod f : (∀ s, R s (f s)) → along (amod f).
Proof using All. intros Hf s. apply Hf. Qed.
Lemma along_try {A} (m : act S A) : along m → along (atry m).
Proof using All. intros Hm s. apply Hm. Qed.
Lemma along_bind {A B} (m : act S A) (f : A → act S B) : along m → (∀ x, along (f x)) → along (abind m f).
Proof using All.
  intros Hm Hf s. specialize (Hm s). unfold after, abind in *. destruct (m s) as [[x|e] s']; [|done].
  etrans; [exact Hm|apply Hf].
Qed.
Lemma along_for_in {A} (f : A → act S unit) l : (∀ x, x ∈ l → along (f x)) → along (afor f l).
Proof using All.
  induction l as [|x l IH]; intros Hf; cbn; [apply along_ret|]. apply along_bind; [apply Hf; left|].
  intros _. apply IH. intros y Hy. apply Hf. by right.
Qed.
Lemma along_for {A} (f : A → act S unit) l : (∀ x, along (f x)) → along (afor f l).
Proof using All. intros Hf. apply along_for_in. auto. Qed.
Lemma along_count {A} (f : A → act S Z) n l : (∀ x, along (f x)) → along (acount f n l).
Proof using All. intros Hf. revert n. induction l as [|x l IH]; intros n; cbn; [apply along_ret|]. by apply along_bind. Qed.
Lemma along_at {A} (m : act S A) s r s' : along m → m s = (r, s') → R s s'.
Proof using All. intros Hm E. specialize (Hm s). unfold after in Hm. by rewrite E in Hm. Qed.
Lemma along_foldl {A} (f : S → A → S) l s : (∀ s x, R s (f s x)) → R s (foldl f s l).
Proof using All. intros Hf. revert s. induction l as [|x l IH]; intros s; cbn; [done|]. etrans; [apply Hf|apply IH]. Qed.
End along.

(** Split an operation into its parts; [tac] closes the changes of state and what has a lemma. *)
Ltac along_with tac :=
  repeat lazymatch goal with
    | |- along _ (aret _) => apply along_ret; apply _
    | |- along _ (afail _) => apply along_fail; apply _
    | |- along _ aget => apply along_get; apply _
    | |- along _ (aguard _ _) => apply along_guard; apply _
    | |- along _ (alift _) => apply along_lift; apply _
    | |- along _ (amod _) => apply along_mod; [apply _|intros; solve [tac]]
    | |- along _ (atry _) => apply along_try; [apply _|]
    | |- along _ (afor _ _) => apply along_for; [apply _|intros]
    | |- along _ (acount _ _ _) => apply along_count; [apply _|intros]
    | |- along _ (abind _ _) => apply along_bind; [apply _| |intros]
    | |- along _ (match ?x with _ => _ end) => destruct x
    | |- along _ _ => solve [tac]
    end.
