(* ===== verification/Float64.v ===== *)
(** Go [float64] arithmetic on finite values.

    A value is [mant * 2^expo]; each operation rounds its exact result to 53 significant
    bits, to nearest, ties to even (IEEE 754 binary64).  The exponent is unbounded: infinities,
    NaN and subnormal numbers are not represented, and the magnitudes the ledger handles
    (between [2^-1000] and [2^120]) never reach them. *)
From S2P Require Import Prelude.
From Stdlib Require Import QArith Qpower Qround Lqa.
#[local] Open Scope Z_scope.

Record f64 := F64 { mant : Z; expo : Z }.

(** Integer division [n / d] rounded to nearest, ties to even. *)
Definition rne (n d : Z) : Z :=
  let q := n / d in
  let r := n mod d in
  if 2 * r <? d then q
  else if d <? 2 * r then q + 1
  else if Z.even q then q else q + 1.

(** Round the exact value [m * 2^e] to 53 significant bits. *)
Definition round53 (m e : Z) : f64 :=
  let k := Z.log2 (Z.abs m) - 52 in
  if k <=? 0 then F64 m e
  else F64 (Z.sgn m * rne (Z.abs m) (2 ^ k)) (e + k).

Definition f_of_Z (z : Z) : f64 := round53 z 0.
Definition f_neg (a : f64) : f64 := F64 (- mant a) (expo a).
Definition f_mul (a b : f64) : f64 := round53 (mant a * mant b) (expo a + expo b).

(** The two mantissas at the smaller exponent. *)
Definition align (a b : f64) : Z * Z * Z :=
  let e := Z.min (expo a) (expo b) in
  (mant a * 2 ^ (expo a - e), mant b * 2 ^ (expo b - e), e).

Definition f_add (a b : f64) : f64 :=
  let '(x, y, e) := align a b in round53 (x + y) e.
Definition f_sub (a b : f64) : f64 := f_add a (f_neg b).
Definition f_ltb (a b : f64) : bool := let '(x, y, _) := align a b in x <? y.
Definition f_leb (a b : f64) : bool := let '(x, y, _) := align a b in x <=? y.
Definition f_eqb (a b : f64) : bool := let '(x, y, _) := align a b in x =? y.

(** Quotient of the exact integers [n * 2^en] and [d * 2^ed]: 55 quotient bits and a sticky bit
    are enough for a correct rounding. *)
Definition div_exact (n en d ed : Z) : f64 :=
  let k := Z.max 0 (55 + Z.log2 (Z.abs d) - Z.log2 (Z.abs n)) in
  let num := Z.abs n * 2 ^ k in
  let q := num / Z.abs d in
  let sticky := if num mod Z.abs d =? 0 then 0 else 1 in
  round53 (Z.sgn n * Z.sgn d * (2 * q + sticky)) (en - ed - k - 1).
Definition f_div (a b : f64) : f64 := div_exact (mant a) (expo a) (mant b) (expo b).

(** The [float64] nearest to the decimal (rational) literal [n/d]. *)
Definition lit (n d : Z) : f64 := div_exact n 0 d 0.

(** Conversion to an integer type: truncation toward zero. *)
Definition f_trunc (a : f64) : Z :=
  if 0 <=? expo a then mant a * 2 ^ expo a else Z.quot (mant a) (2 ^ (- expo a)).

(** [math.Round]: nearest integer, halves away from zero. *)
Definition f_round (a : f64) : Z :=
  if 0 <=? expo a then mant a * 2 ^ expo a
  else let d := 2 ^ (- expo a) in
       Z.sgn (mant a) * ((2 * Z.abs (mant a) + d) / (2 * d)).

(** Exact division by [2^n] ([x / math.Pow(2, n)]). *)
Definition f_div_pow2 (a : f64) (n : Z) : f64 := F64 (mant a) (expo a - n).

(** * Rounding bounds *)

Lemma rne_bounds n d : 0 ≤ n → 0 < d →
  2 * n - d ≤ 2 * (d * rne n d) ≤ 2 * n + d.
Proof.
  intros Hn Hd. unfold rne.
  pose proof (Z.div_mod n d ltac:(lia)) as E.
  pose proof (Z.mod_pos_bound n d Hd).
  destruct (Z.ltb_spec (2 * (n mod d)) d); [nia|].
  destruct (Z.ltb_spec d (2 * (n mod d))); [nia|].
  destruct (Z.even (n / d)); nia.
Qed.

Lemma rne_nonneg n d : 0 ≤ n → 0 < d → 0 ≤ rne n d.
Proof.
  intros Hn Hd. unfold rne. pose proof (Z.div_pos n d Hn Hd).
  repeat case_match; lia.
Qed.

Lemma rne_exact q d : 0 < d → rne (q * d) d = q.
Proof.
  intros Hd. unfold rne. rewrite Z.div_mul, Z.mod_mul by lia.
  destruct (Z.ltb_spec (2 * 0) d); [done|lia].
Qed.

(** Rounding is monotone. *)
Lemma rne_mono n m d : 0 < d → n ≤ m → rne n d ≤ rne m d.
Proof.
  intros Hd Hnm. unfold rne.
  pose proof (Z.div_mod n d ltac:(lia)) as En.
  pose proof (Z.div_mod m d ltac:(lia)) as Em.
  pose proof (Z.mod_pos_bound n d Hd). pose proof (Z.mod_pos_bound m d Hd).
  pose proof (Z.div_le_mono n m d Hd Hnm) as Hq.
  destruct (Z.eq_dec (n / d) (m / d)) as [Heq|Hne].
  - rewrite Heq in *. assert (n mod d ≤ m mod d) by lia.
    repeat case_match; b2p; try lia; congruence.
  - assert (n / d + 1 ≤ m / d) by lia. repeat case_match; lia.
Qed.

(** [round53] with its value as a fraction: for [e <= 0] and a non-negative mantissa the result
    [m' * 2^e'] satisfies [|m' * 2^(e'-e) - m| <= m / 2^53]. *)
Lemma round53_bounds m e : 0 ≤ m →
  let r := round53 m e in
  0 ≤ mant r ∧ e ≤ expo r ∧
  (2 ^ 53 - 1) * m ≤ 2 ^ 53 * (mant r * 2 ^ (expo r - e)) ≤ (2 ^ 53 + 1) * m.
Proof.
  intros Hm r. subst r. unfold round53.
  rewrite Z.abs_eq by done.
  set (k := Z.log2 m - 52).
  destruct (Z.leb_spec k 0) as [Hk|Hk]; cbn [mant expo].
  - replace (e - e) with 0 by lia. lia.
  - assert (Hpos : 0 < m).
    { destruct (Z.eq_dec m 0) as [->|]; [|lia]. by unfold k in Hk; cbn in Hk; lia. }
    rewrite Z.sgn_pos by lia. rewrite Z.mul_1_l.
    assert (0 < 2 ^ k) by (apply Z.pow_pos_nonneg; lia).
    pose proof (rne_bounds m (2 ^ k) Hm ltac:(lia)) as Hb.
    pose proof (rne_nonneg m (2 ^ k) Hm ltac:(lia)).
    pose proof (Z.log2_spec m Hpos) as [Hlo _].
    assert (2 ^ 52 * 2 ^ k ≤ m) as Hk52.
    { rewrite <- Z.pow_add_r by lia. by replace (52 + k) with (Z.log2 m) by (unfold k; lia). }
    replace (e + k - e) with k by lia.
    replace (2 ^ 53) with (2 * 2 ^ 52) by done.
    repeat split; [lia|lia| |]; nia.
Qed.

Lemma round53_small m e : Z.abs m < 2 ^ 53 → round53 m e = F64 m e.
Proof.
  intros Hm. unfold round53.
  destruct (Z.leb_spec (Z.log2 (Z.abs m) - 52) 0) as [|Hk]; [done|].
  exfalso. destruct (Z.eq_dec (Z.abs m) 0) as [E|]; [rewrite E in Hk; cbn in Hk; lia|].
  assert (2 ^ 53 ≤ 2 ^ Z.log2 (Z.abs m)) by (apply Z.pow_le_mono_r; lia).
  pose proof (Z.log2_spec (Z.abs m) ltac:(lia)). lia.
Qed.

Lemma f_of_Z_small z : Z.abs z < 2 ^ 53 → f_of_Z z = F64 z 0.
Proof. apply round53_small. Qed.

(** * Values as rationals *)

#[local] Open Scope Q_scope.

Definition toQ (a : f64) : Q := inject_Z (mant a) * Qpower 2 (expo a).
(** Half a unit in the last place, relative: [2^-53]. *)
Definition ulp : Q := 1 # 9007199254740992.

Lemma pow2_pos e : 0 < Qpower 2 e.
Proof. apply Qpower_0_lt. reflexivity. Qed.

Lemma pow2_add a b : Qpower 2 (a + b) == Qpower 2 a * Qpower 2 b.
Proof. apply Qpower_plus. discriminate. Qed.

Lemma pow2_Z k : (0 <= k)%Z → Qpower 2 k == inject_Z (2 ^ k).
Proof. intros. change 2 with (inject_Z 2). symmetry. by apply Zpower_Qpower. Qed.

Lemma pow2_shift e e' : (e <= e')%Z → Qpower 2 e' == inject_Z (2 ^ (e' - e)) * Qpower 2 e.
Proof.
  intros. rewrite <- pow2_Z by lia. rewrite <- pow2_add. by replace (e' - e + e)%Z with e' by lia.
Qed.

Lemma toQ_align a e : (e <= expo a)%Z →
  toQ a == inject_Z (mant a * 2 ^ (expo a - e)) * Qpower 2 e.
Proof.
  intros H. unfold toQ. rewrite (pow2_shift e (expo a)) by done.
  rewrite inject_Z_mult. ring.
Qed.

Lemma toQ_nonneg a : (0 <= mant a)%Z → 0 <= toQ a.
Proof.
  intros H. unfold toQ. apply Qmult_le_0_compat.
  - change 0 with (inject_Z 0). by rewrite <- Zle_Qle.
  - apply Qlt_le_weak, pow2_pos.
Qed.

Lemma toQ_round53 m e : (0 <= m)%Z →
  (1 - ulp) * (inject_Z m * Qpower 2 e) <= toQ (round53 m e) <=
  (1 + ulp) * (inject_Z m * Qpower 2 e).
Proof.
  intros Hm. pose proof (round53_bounds m e Hm) as (H0 & He & Hl & Hu).
  rewrite (toQ_align _ e He).
  set (x := (mant (round53 m e) * 2 ^ (expo (round53 m e) - e))%Z) in *.
  pose proof (pow2_pos e) as Hp.
  assert (Hl' : inject_Z (2 ^ 53 - 1) * inject_Z m <= inject_Z (2 ^ 53) * inject_Z x)
    by (rewrite <- !inject_Z_mult, <- Zle_Qle; lia).
  assert (Hu' : inject_Z (2 ^ 53) * inject_Z x <= inject_Z (2 ^ 53 + 1) * inject_Z m)
    by (rewrite <- !inject_Z_mult, <- Zle_Qle; lia).
  change (inject_Z (2 ^ 53)) with (9007199254740992 # 1) in *.
  change (inject_Z (2 ^ 53 - 1)) with (9007199254740991 # 1) in *.
  change (inject_Z (2 ^ 53 + 1)) with (9007199254740993 # 1) in *.
  assert ((1 - ulp) * inject_Z m <= inject_Z x <= (1 + ulp) * inject_Z m) as [? ?]
    by (unfold ulp; split; lra).
  rewrite !Qmult_assoc.
  split; apply Qmult_le_compat_r; try done; by apply Qlt_le_weak.
Qed.

Lemma mant_round53 m e : (0 <= m)%Z → (0 <= mant (round53 m e))%Z.
Proof. intros H. apply (round53_bounds m e H). Qed.

Lemma toQ_of_Z z : (0 <= z)%Z →
  (1 - ulp) * inject_Z z <= toQ (f_of_Z z) <= (1 + ulp) * inject_Z z.
Proof.
  intros H. pose proof (toQ_round53 z 0 H) as Hb.
  change (Qpower 2 0) with 1 in Hb. rewrite Qmult_1_r in Hb. exact Hb.
Qed.

Lemma toQ_of_Z_exact z : (Z.abs z < 2 ^ 53)%Z → toQ (f_of_Z z) == inject_Z z.
Proof. intros H. rewrite f_of_Z_small by done. unfold toQ. cbn [mant expo]. change (Qpower 2 0) with 1. ring. Qed.

Lemma mant_of_Z z : (0 <= z)%Z → (0 <= mant (f_of_Z z))%Z.
Proof. apply mant_round53. Qed.

Lemma mant_of_Z_pos z : (0 < z)%Z → (0 < mant (f_of_Z z))%Z.
Proof.
  intros H. pose proof (toQ_of_Z z ltac:(lia)) as [L _]. pose proof (mant_of_Z z ltac:(lia)).
  destruct (Z.eq_dec (mant (f_of_Z z)) 0) as [E|]; [|lia]. exfalso.
  unfold toQ in L. rewrite E in L. change (inject_Z 0) with 0 in L. rewrite Qmult_0_l in L.
  assert (1 <= inject_Z z) by (change 1 with (inject_Z 1); rewrite <- Zle_Qle; lia).
  unfold ulp in L. lra.
Qed.

Lemma mant_mul a b : (0 <= mant a)%Z → (0 <= mant b)%Z → (0 <= mant (f_mul a b))%Z.
Proof. intros. apply mant_round53. nia. Qed.

Lemma toQ_mul a b : (0 <= mant a)%Z → (0 <= mant b)%Z →
  (1 - ulp) * (toQ a * toQ b) <= toQ (f_mul a b) <= (1 + ulp) * (toQ a * toQ b).
Proof.
  intros Ha Hb.
  pose proof (toQ_round53 (mant a * mant b) (expo a + expo b) ltac:(nia)) as H.
  assert (inject_Z (mant a * mant b) * Qpower 2 (expo a + expo b) == toQ a * toQ b) as E.
  { unfold toQ. rewrite inject_Z_mult, pow2_add. ring. }
  by rewrite E in H.
Qed.

Lemma toQ_add a b : (0 <= mant a)%Z → (0 <= mant b)%Z →
  (1 - ulp) * (toQ a + toQ b) <= toQ (f_add a b) <= (1 + ulp) * (toQ a + toQ b).
Proof.
  intros Ha Hb. unfold f_add, align.
  set (e := Z.min (expo a) (expo b)).
  pose proof (Z.pow_nonneg 2 (expo a - e) ltac:(lia)).
  pose proof (Z.pow_nonneg 2 (expo b - e) ltac:(lia)).
  pose proof (toQ_round53 (mant a * 2 ^ (expo a - e) + mant b * 2 ^ (expo b - e)) e ltac:(nia)) as Hr.
  assert (inject_Z (mant a * 2 ^ (expo a - e) + mant b * 2 ^ (expo b - e)) * Qpower 2 e
          == toQ a + toQ b) as E.
  { rewrite (toQ_align a e), (toQ_align b e) by lia. rewrite inject_Z_plus. ring. }
  by rewrite E in Hr.
Qed.

Lemma mant_add a b : (0 <= mant a)%Z → (0 <= mant b)%Z → (0 <= mant (f_add a b))%Z.
Proof.
  intros Ha Hb. unfold f_add, align. apply mant_round53.
  pose proof (Z.pow_nonneg 2 (expo a - Z.min (expo a) (expo b)) ltac:(lia)).
  pose proof (Z.pow_nonneg 2 (expo b - Z.min (expo a) (expo b)) ltac:(lia)). nia.
Qed.

Lemma f_trunc_nonneg a : (0 <= mant a)%Z → (0 <= f_trunc a)%Z.
Proof.
  intros H. unfold f_trunc. case_match.
  - apply Z.mul_nonneg_nonneg; [done|]. apply Z.pow_nonneg. lia.
  - apply Z.quot_pos; [done|]. apply Z.pow_pos_nonneg; b2p; lia.
Qed.

Lemma f_trunc_spec a : (0 <= mant a)%Z →
  inject_Z (f_trunc a) <= toQ a /\ toQ a < inject_Z (f_trunc a) + 1.
Proof.
  intros H. unfold f_trunc.
  destruct (Z.leb_spec 0 (expo a)) as [He|He].
  - unfold toQ. rewrite pow2_Z by done. rewrite inject_Z_mult. split; lra.
  - set (d := (2 ^ (- expo a))%Z).
    assert (Hd : (0 < d)%Z) by (apply Z.pow_pos_nonneg; lia).
    rewrite Z.quot_div_nonneg by lia.
    pose proof (Z.div_mod (mant a) d ltac:(lia)). pose proof (Z.mod_pos_bound (mant a) d Hd).
    set (q := (mant a / d)%Z) in *.
    assert (Hm : inject_Z (mant a) == toQ a * inject_Z d).
    { unfold toQ, d. rewrite <- pow2_Z by lia. rewrite <- Qmult_assoc, <- pow2_add.
      replace (expo a + - expo a)%Z with 0%Z by lia. change (Qpower 2 0) with 1. ring. }
    assert (inject_Z (q * d) <= inject_Z (mant a)) by (rewrite <- Zle_Qle; nia).
    assert (inject_Z (mant a) < inject_Z ((q + 1) * d)) by (rewrite <- Zlt_Qlt; nia).
    rewrite Hm in *. rewrite inject_Z_mult in *. rewrite inject_Z_plus in *.
    change (inject_Z 1) with 1 in *.
    assert (0 < inject_Z d) by (change 0 with (inject_Z 0); by rewrite <- Zlt_Qlt).
    split.
    + by apply (Qmult_le_r _ _ (inject_Z d)).
    + by apply (Qmult_lt_r _ _ (inject_Z d)).
Qed.

(** An upper (lower) bound on the value bounds the truncation. *)
Lemma f_trunc_le a z : (0 <= mant a)%Z → toQ a < inject_Z z + 1 → (f_trunc a <= z)%Z.
Proof.
  intros H Hb. pose proof (proj1 (f_trunc_spec a H)).
  assert (inject_Z (f_trunc a) < inject_Z (z + 1)).
  { rewrite inject_Z_plus. change (inject_Z 1) with 1. lra. }
  rewrite <- Zlt_Qlt in *. lia.
Qed.

Lemma f_trunc_ge a z : (0 <= mant a)%Z → inject_Z z <= toQ a → (z <= f_trunc a)%Z.
Proof.
  intros H Hb. pose proof (proj2 (f_trunc_spec a H)).
  assert (inject_Z z < inject_Z (f_trunc a + 1)).
  { rewrite inject_Z_plus. change (inject_Z 1) with 1. lra. }
  rewrite <- Zlt_Qlt in *. lia.
Qed.

Section comparisons.
Variables a b : f64.
Let e := Z.min (expo a) (expo b).

Lemma f_ltb_spec : f_ltb a b = true ↔ toQ a < toQ b.
Proof.
  unfold f_ltb, align. fold e. rewrite Z.ltb_lt.
  rewrite (toQ_align a e), (toQ_align b e) by lia.
  rewrite Qmult_lt_r by apply pow2_pos. by rewrite <- Zlt_Qlt.
Qed.

Lemma f_leb_spec : f_leb a b = true ↔ toQ a <= toQ b.
Proof.
  unfold f_leb, align. fold e. rewrite Z.leb_le.
  rewrite (toQ_align a e), (toQ_align b e) by lia.
  rewrite Qmult_le_r by apply pow2_pos. by rewrite <- Zle_Qle.
Qed.
End comparisons.

Lemma f_ltb_false a b : f_ltb a b = false ↔ toQ b <= toQ a.
Proof.
  split.
  - intros H. apply Qnot_lt_le. intros C. apply f_ltb_spec in C. congruence.
  - intros H. destruct (f_ltb a b) eqn:E; [|done]. apply f_ltb_spec in E. exfalso. lra.
Qed.

Lemma f_leb_false a b : f_leb a b = false ↔ toQ b < toQ a.
Proof.
  split.
  - intros H. apply Qnot_le_lt. intros C. apply f_leb_spec in C. congruence.
  - intros H. destruct (f_leb a b) eqn:E; [|done]. apply f_leb_spec in E. exfalso. lra.
Qed.

(** * Division *)

Definition ulp2 : Q := 1 # 4503599627370496.

Lemma log2_mul_pow2 n k : (0 < n)%Z → (0 <= k)%Z → (2 ^ (Z.log2 n + k) <= n * 2 ^ k)%Z.
Proof.
  intros Hn Hk. pose proof (Z.log2_spec n Hn) as [Hl _]. pose proof (Z.log2_nonneg n).
  rewrite Z.pow_add_r by lia. apply Z.mul_le_mono_nonneg_r; [|done]. apply Z.pow_nonneg. lia.
Qed.

(** The scaled quotient has at least 55 bits. *)
Lemma div_quotient_large n d : (0 < n)%Z → (0 < d)%Z →
  let k := Z.max 0 (55 + Z.log2 d - Z.log2 n) in (2 ^ 54 <= n * 2 ^ k / d)%Z.
Proof.
  intros Hn Hd k. pose proof (Z.log2_nonneg n). pose proof (Z.log2_nonneg d).
  pose proof (log2_mul_pow2 n k Hn ltac:(lia)) as H1.
  pose proof (Z.log2_spec d Hd) as [_ H2].
  apply Z.div_le_lower_bound; [done|].
  assert (2 ^ (55 + Z.log2 d) <= 2 ^ (Z.log2 n + k))%Z as H3 by (apply Z.pow_le_mono_r; lia).
  replace (55 + Z.log2 d)%Z with (54 + Z.succ (Z.log2 d))%Z in H3 by lia.
  rewrite (Z.pow_add_r 2 54) in H3 by lia.
  assert (2 ^ 54 * d <= 2 ^ 54 * 2 ^ Z.succ (Z.log2 d))%Z by (apply Z.mul_le_mono_nonneg_l; lia).
  lia.
Qed.

Lemma toQ_div_exact n en d ed : (0 < n)%Z → (0 < d)%Z →
  let v := inject_Z n * Qpower 2 en / (inject_Z d * Qpower 2 ed) in
  (0 <= mant (div_exact n en d ed))%Z ∧
  (1 - ulp2) * v <= toQ (div_exact n en d ed) <= (1 + ulp2) * v.
Proof.
  intros Hn Hd v. unfold div_exact. rewrite !Z.abs_eq, !Z.sgn_pos by lia.
  rewrite !Z.mul_1_l.
  set (k := Z.max 0 (55 + Z.log2 d - Z.log2 n)).
  set (num := (n * 2 ^ k)%Z). set (q := (num / d)%Z).
  assert (2 ^ 54 <= q)%Z as Hq by apply (div_quotient_large n d Hn Hd).
  set (s := (if (num mod d =? 0)%Z then 0 else 1)%Z).
  assert (0 <= s <= 1)%Z by (unfold s; case_match; lia).
  set (m := (2 * q + s)%Z). split; [apply mant_round53; lia|].
  pose proof (toQ_round53 m (en - ed - k - 1) ltac:(lia)) as Hr.
  set (w := inject_Z m * Qpower 2 (en - ed - k - 1)) in *.
  assert (0 < inject_Z d) as HdQ by (change 0 with (inject_Z 0); by rewrite <- Zlt_Qlt).
  (* [m] against the exact quotient [2 * num / d] *)
  assert (inject_Z m - 1 <= 2 * inject_Z num / inject_Z d <= inject_Z m + 1) as [Hm1 Hm2].
  { pose proof (Z.div_mod num d ltac:(lia)) as E0. pose proof (Z.mod_pos_bound num d Hd) as E1.
    fold q in E0.
    assert ((m - 1) * d <= 2 * num <= (m + 1) * d)%Z as [B1 B2].
    { unfold m, s. destruct (Z.eqb_spec (num mod d) 0); nia. }
    rewrite Zle_Qle, !inject_Z_mult in B1, B2.
    unfold Z.sub in B1. rewrite inject_Z_plus in B1, B2.
    change (inject_Z 2) with 2 in *. change (inject_Z 1) with 1 in *.
    change (inject_Z (-(1))) with (-(1)) in *.
    split; [by apply Qle_shift_div_l|by apply Qle_shift_div_r]. }
  assert (v == 2 * inject_Z num / inject_Z d * Qpower 2 (en - ed - k - 1)) as Ev.
  { unfold v, num. rewrite inject_Z_mult.
    rewrite <- (pow2_Z k) by lia.
    assert (Qpower 2 en == Qpower 2 k * 2 * Qpower 2 (en - ed - k - 1) * Qpower 2 ed) as ->.
    { replace en with (k + 1 + (en - ed - k - 1) + ed)%Z at 1 by lia. by rewrite !pow2_add. }
    field. split; [intros E; by rewrite E in HdQ|].
    intros E. pose proof (pow2_pos ed) as P. by rewrite E in P. }
  pose proof (pow2_pos (en - ed - k - 1)) as Hp.
  set (P := Qpower 2 (en - ed - k - 1)) in *. set (x := 2 * inject_Z num / inject_Z d) in *.
  assert (18014398509481984 # 1 <= inject_Z m) as Hbig.
  { change (18014398509481984 # 1) with (inject_Z (2 ^ 54)). rewrite <- Zle_Qle. lia. }
  assert ((1 - ulp2) * x <= (1 - ulp) * inject_Z m /\ (1 + ulp) * inject_Z m <= (1 + ulp2) * x)
    as [H1 H2] by (unfold ulp, ulp2; split; lra).
  rewrite Ev. unfold w in Hr. rewrite !Qmult_assoc in *.
  assert ((1 - ulp2) * x * P <= (1 - ulp) * inject_Z m * P)
    by (apply Qmult_le_compat_r; [done|by apply Qlt_le_weak]).
  assert ((1 + ulp) * inject_Z m * P <= (1 + ulp2) * x * P)
    by (apply Qmult_le_compat_r; [done|by apply Qlt_le_weak]).
  split; lra.
Qed.

Lemma toQ_div a b : (0 < mant a)%Z → (0 < mant b)%Z →
  (1 - ulp2) * (toQ a / toQ b) <= toQ (f_div a b) <= (1 + ulp2) * (toQ a / toQ b).
Proof. intros Ha Hb. by apply (toQ_div_exact (mant a) (expo a) (mant b) (expo b)). Qed.

Lemma mant_div a b : (0 < mant a)%Z → (0 < mant b)%Z → (0 <= mant (f_div a b))%Z.
Proof. intros Ha Hb. by apply (toQ_div_exact (mant a) (expo a) (mant b) (expo b)). Qed.

(** Scaling an unsigned integer by a factor below one stays below the integer. *)
Lemma trunc_scale_le z c : (0 <= z)%Z → (0 <= mant c)%Z → toQ c <= 999 # 1000 →
  (0 <= f_trunc (f_mul (f_of_Z z) c) <= z)%Z.
Proof.
  intros Hz Hc Hle.
  pose proof (mant_of_Z z Hz) as Hm. pose proof (mant_mul _ _ Hm Hc) as Hmm.
  split; [by apply f_trunc_nonneg|]. apply f_trunc_le; [done|].
  pose proof (toQ_mul _ _ Hm Hc) as [_ Hu]. pose proof (toQ_of_Z z Hz) as [_ Hu'].
  assert (0 <= inject_Z z) by (change 0 with (inject_Z 0); by rewrite <- Zle_Qle).
  pose proof (toQ_nonneg _ Hc). pose proof (toQ_nonneg _ Hm).
  assert (toQ (f_of_Z z) * toQ c <= (1 + ulp) * inject_Z z * (999 # 1000)).
  { apply Qle_trans with ((1 + ulp) * inject_Z z * toQ c).
    - by apply Qmult_le_compat_r.
    - rewrite !(Qmult_comm _ (toQ c)), !(Qmult_comm _ (999 # 1000)).
      apply Qmult_le_compat_r; [done|]. unfold ulp. lra. }
  unfold ulp in *. lra.
Qed.

#[local] Close Scope Q_scope.

(** * Agreement with the IEEE 754 reference of the standard library on sample values

    [SpecFloat] is the executable specification of binary64 that comes with Rocq. *)
From Stdlib Require Import SpecFloat.

Definition sf_of (a : f64) : spec_float := binary_normalize 53 1024 (mant a) (expo a) false.
Definition agrees2 (fm : f64 → f64 → f64) (fs : spec_float → spec_float → spec_float)
    (a b : f64) : bool :=
  match sf_of (fm a b), fs (sf_of a) (sf_of b) with
  | S754_finite s m e, S754_finite s' m' e' =>
      Bool.eqb s s' && Pos.eqb m m' && Z.eqb e e'
  | S754_zero _, S754_zero _ => true
  | _, _ => false
  end.
Definition samples : list f64 :=
  [lit 3 10; lit 1 20; lit 1 100; lit 20 27; f_of_Z 100000000; f_of_Z 9007199254740993;
   f_of_Z 18446744073709551615; lit 1 2; f_of_Z 17500000; lit 150 7; f_of_Z 10000000000000;
   lit 2 1000; f_of_Z 1; lit 1 3].
Definition agree_all : bool :=
  forallb (λ a, forallb (λ b,
     agrees2 f_mul (SFmul 53 1024) a b && agrees2 f_add (SFadd 53 1024) a b &&
     agrees2 f_sub (SFsub 53 1024) a b && agrees2 f_div (SFdiv 53 1024) a b) samples) samples.

Example f64_agrees_with_SpecFloat : agree_all = true.
Proof. vm_compute. reflexivity. Qed.
