(* ===== verification/GoText.v ===== *)
(** Go strings as byte strings, with the parts of [strings], [strconv] and [encoding/hex] the
    chain code calls.

    [TrimSpace] strips every Unicode white-space code point (by its UTF-8 encoding).  [ToLower]
    and [ToUpper] map the ASCII letters and the four non-ASCII runes whose case
    image is an ASCII letter; other non-ASCII runes keep their bytes, which never changes a
    comparison with an ASCII constant. *)
From S2P Require Import Prelude.

Definition byte1 (n : nat) : string := String (ascii_of_nat n) EmptyString.
Definition bytes_of (l : list nat) : string := foldr (λ n s, String (ascii_of_nat n) s) EmptyString l.

Definition white_space : list string :=
  map bytes_of
    ([[9]; [10]; [11]; [12]; [13]; [32]; [194; 133]; [194; 160]; [225; 154; 128];
      [226; 128; 168]; [226; 128; 169]; [226; 128; 175]; [226; 129; 159]; [227; 128; 128]]
     ++ map (λ k, [226; 128; 128 + k]) (seq 0 11))%nat.

Fixpoint strip_prefix (p s : string) : option string :=
  match p, s with
  | EmptyString, _ => Some s
  | String a p', String b s' => if Ascii.eqb a b then strip_prefix p' s' else None
  | _, _ => None
  end.

Fixpoint strip_any (ps : list string) (s : string) : option string :=
  match ps with
  | [] => None
  | p :: ps' => match strip_prefix p s with Some s' => Some s' | None => strip_any ps' s end
  end.

Fixpoint strip_while (fuel : nat) (ps : list string) (s : string) : string :=
  match fuel with
  | O => s
  | S f => match strip_any ps s with Some s' => strip_while f ps s' | None => s end
  end.

Fixpoint rev_string (s acc : string) : string :=
  match s with EmptyString => acc | String a s' => rev_string s' (String a acc) end.
Definition srev (s : string) : string := rev_string s EmptyString.

Definition trim_left (s : string) : string := strip_while (String.length s) white_space s.
Definition trim_right (s : string) : string :=
  srev (strip_while (String.length s) (map srev white_space) (srev s)).
Definition trim_space (s : string) : string := trim_right (trim_left s).

Definition has_prefix (s p : string) : bool :=
  match strip_prefix p s with Some _ => true | None => false end.
Definition trim_prefix (s p : string) : string :=
  match strip_prefix p s with Some s' => s' | None => s end.
Definition str_len (s : string) : Z := Z.of_nat (String.length s).
(** [strings.Contains], [strings.HasSuffix] *)
Fixpoint str_contains (s sub : string) : bool :=
  has_prefix s sub || match s with String _ r => str_contains r sub | EmptyString => false end.
Definition has_suffix (s suf : string) : bool := has_prefix (srev s) (srev suf).

Definition lower_ascii (a : ascii) : ascii :=
  let n := nat_of_ascii a in
  if ((65 <=? n) && (n <=? 90))%nat then ascii_of_nat (n + 32)%nat else a.
Definition upper_ascii (a : ascii) : ascii :=
  let n := nat_of_ascii a in
  if ((97 <=? n) && (n <=? 122))%nat then ascii_of_nat (n - 32)%nat else a.

(** U+212A (Kelvin sign) lowers to [k], U+0130 to [i]; U+017F raises to [S], U+0131 to [I]. *)
Definition bytes2 (a b : ascii) (x y : nat) : bool :=
  Nat.eqb (nat_of_ascii a) x && Nat.eqb (nat_of_ascii b) y.

Fixpoint to_lower (s : string) : string :=
  match s with
  | EmptyString => EmptyString
  | String a r =>
      match r with
      | String b r2 =>
          if bytes2 a b 196 176 then String (ascii_of_nat 105) (to_lower r2)
          else if bytes2 a b 226 132 then
            match r2 with
            | String c r3 =>
                if Nat.eqb (nat_of_ascii c) 170 then String (ascii_of_nat 107) (to_lower r3)
                else String (lower_ascii a) (to_lower r)
            | EmptyString => String (lower_ascii a) (to_lower r)
            end
          else String (lower_ascii a) (to_lower r)
      | EmptyString => String (lower_ascii a) (to_lower r)
      end
  end.

Fixpoint to_upper (s : string) : string :=
  match s with
  | EmptyString => EmptyString
  | String a r =>
      match r with
      | String b r2 =>
          if bytes2 a b 197 191 then String (ascii_of_nat 83) (to_upper r2)
          else if bytes2 a b 196 177 then String (ascii_of_nat 73) (to_upper r2)
          else String (upper_ascii a) (to_upper r)
      | EmptyString => String (upper_ascii a) (to_upper r)
      end
  end.

(** Simple case folding: [strings.EqualFold] identifies K, k and U+212A, and S, s and U+017F,
    but not U+0130 or U+0131 with i. *)
Fixpoint fold_case (s : string) : string :=
  match s with
  | EmptyString => EmptyString
  | String a r =>
      match r with
      | String b r2 =>
          if bytes2 a b 197 191 then String (ascii_of_nat 115) (fold_case r2)
          else if bytes2 a b 226 132 then
            match r2 with
            | String c r3 =>
                if Nat.eqb (nat_of_ascii c) 170 then String (ascii_of_nat 107) (fold_case r3)
                else String (lower_ascii a) (fold_case r)
            | EmptyString => String (lower_ascii a) (fold_case r)
            end
          else String (lower_ascii a) (fold_case r)
      | EmptyString => String (lower_ascii a) (fold_case r)
      end
  end.

Definition equal_fold (a b : string) : bool := String.eqb (fold_case a) (fold_case b).

Fixpoint all_chars (P : ascii → bool) (s : string) : bool :=
  match s with EmptyString => true | String a s' => P a && all_chars P s' end.
Fixpoint any_char (P : ascii → bool) (s : string) : bool :=
  match s with EmptyString => false | String a s' => P a || any_char P s' end.

(** * [encoding/hex] *)

Definition hex_val (a : ascii) : option nat :=
  let n := nat_of_ascii a in
  if ((48 <=? n) && (n <=? 57))%nat then Some (n - 48)%nat
  else if ((97 <=? n) && (n <=? 102))%nat then Some (n - 87)%nat
  else if ((65 <=? n) && (n <=? 70))%nat then Some (n - 55)%nat
  else None.

Fixpoint hex_decode (s : string) : option string :=
  match s with
  | EmptyString => Some EmptyString
  | String a (String b r) =>
      match hex_val a, hex_val b, hex_decode r with
      | Some x, Some y, Some t => Some (String (ascii_of_nat (16 * x + y)) t)
      | _, _, _ => None
      end
  | String _ EmptyString => None
  end.

Definition hex_digit (n : nat) : ascii := ascii_of_nat (if (n <? 10)%nat then 48 + n else 87 + n)%nat.
Fixpoint hex_encode (s : string) : string :=
  match s with
  | EmptyString => EmptyString
  | String a r =>
      let n := nat_of_ascii a in
      String (hex_digit (n / 16)) (String (hex_digit (n mod 16)) (hex_encode r))
  end.

(** * [strconv.ParseUint(s, 10, 64)] *)

Fixpoint parse_digits (s : string) (acc : Z) : option Z :=
  match s with
  | EmptyString => Some acc
  | String a r =>
      let n := Z.of_nat (nat_of_ascii a) in
      if (48 <=? n) && (n <=? 57) then parse_digits r (10 * acc + (n - 48)) else None
  end.
Definition parse_uint (s : string) : option Z :=
  match s with
  | EmptyString => None
  | _ => match parse_digits s 0 with
         | Some z => if z <? two64 then Some z else None
         | None => None
         end
  end.

(** * Facts *)

Lemma strip_prefix_spec p s r : strip_prefix p s = Some r ↔ s = (p +:+ r)%string.
Proof.
  revert s. induction p as [|a p IH]; intros s; cbn.
  - split; [by intros [=]|by intros ->].
  - destruct s as [|b s]; [done|].
    destruct (Ascii.eqb_spec a b) as [->|Hab].
    + rewrite IH. split; [by intros ->|by intros [=]].
    + split; [done|]. by intros [=].
Qed.

Lemma has_prefix_spec s p : has_prefix s p = true ↔ ∃ r, s = (p +:+ r)%string.
Proof.
  unfold has_prefix. destruct (strip_prefix p s) as [r|] eqn:E.
  - split; [|done]. intros _. exists r. by apply strip_prefix_spec.
  - split; [done|]. intros [r Hr]. apply strip_prefix_spec in Hr. congruence.
Qed.

Lemma hex_digit_val n : (n < 16)%nat → hex_val (hex_digit n) = Some n.
Proof. intros H. do 16 (destruct n as [|n]; [done|]). lia. Qed.

Lemma hex_decode_encode s : hex_decode (hex_encode s) = Some s.
Proof.
  induction s as [|a s IH]; [done|]. cbn [hex_encode hex_decode].
  pose proof (nat_ascii_bounded a) as Hb.
  rewrite !hex_digit_val, IH.
  - do 2 f_equal. rewrite <- (Nat.div_mod_eq (nat_of_ascii a) 16). apply ascii_nat_embedding.
  - by apply Nat.mod_upper_bound.
  - by apply Nat.Div0.div_lt_upper_bound.
Qed.

Lemma hex_encode_inj : Inj (=) (=) hex_encode.
Proof. intros a b H. apply (f_equal hex_decode) in H. rewrite !hex_decode_encode in H. congruence. Qed.

Lemma hex_encode_length s : String.length (hex_encode s) = (2 * String.length s)%nat.
Proof. induction s as [|a s IH]; cbn in *; lia. Qed.

Lemma all_chars_app P a b : all_chars P (a +:+ b) = all_chars P a && all_chars P b.
Proof.
  induction a as [|c a IH]; [done|].
  change (String c a +:+ b) with (String c (a +:+ b)). cbn. by rewrite IH, andb_assoc.
Qed.

Lemma string_length_app a b : String.length (a +:+ b) = (String.length a + String.length b)%nat.
Proof.
  induction a as [|c a IH]; [done|].
  change (String c a +:+ b) with (String c (a +:+ b)). cbn. by rewrite IH.
Qed.

(** * Text without white space *)

(** Printable ASCII other than the space. *)
Definition plain (c : ascii) : bool := ((33 <=? nat_of_ascii c) && (nat_of_ascii c <=? 126))%nat.

Lemma strip_any_plain c s : plain c = true →
  strip_any white_space (String c s) = None ∧ strip_any (map srev white_space) (String c s) = None.
Proof.
  destruct c as [[] [] [] [] [] [] [] []]; intros H; try discriminate H; split; reflexivity.
Qed.

Lemma strip_while_plain n s : all_chars plain s = true →
  strip_while n white_space s = s ∧ strip_while n (map srev white_space) s = s.
Proof.
  destruct n as [|n]; [done|]. destruct s as [|c s].
  - intros _. split; reflexivity.
  - intros H. cbn [all_chars] in H. b2p. destruct (strip_any_plain c s) as [E1 E2]; [done|].
    cbn [strip_while]. by rewrite E1, E2.
Qed.

Lemma rev_string_app s acc : rev_string s acc = rev_string s "" +:+ acc.
Proof.
  revert acc. induction s as [|c s IH]; intros acc; [done|]. cbn [rev_string].
  rewrite (IH (String c acc)), (IH (String c "")).
  assert (∀ a b, (a +:+ String c "") +:+ b = a +:+ String c b) as E.
  { intros a b. induction a as [|x a IHa]; [done|].
    change (String x ((a +:+ String c "") +:+ b) = String x (a +:+ String c b)). by rewrite IHa. }
  by rewrite E.
Qed.

Lemma rev_string_inv s t acc : rev_string (rev_string s t) acc = rev_string t (s +:+ acc).
Proof.
  revert t acc. induction s as [|c s IH]; intros t acc; [done|].
  cbn [rev_string]. rewrite IH. done.
Qed.

Lemma sapp_empty_r s : s +:+ "" = s.
Proof. induction s as [|c s IH]; [done|]. change (String c (s +:+ "") = String c s). by rewrite IH. Qed.

Lemma srev_srev s : srev (srev s) = s.
Proof. unfold srev. rewrite rev_string_inv. apply sapp_empty_r. Qed.

Lemma srev_all P s : all_chars P (srev s) = all_chars P s.
Proof.
  unfold srev. induction s as [|c s IH]; [done|]. cbn [rev_string all_chars].
  rewrite rev_string_app, all_chars_app, IH. cbn. destruct (P c), (all_chars P s); done.
Qed.

Lemma scons_app x (a b : string) : String x a +:+ b = String x (a +:+ b).
Proof. done. Qed.

Lemma sapp_assoc (a b c : string) : (a +:+ b) +:+ c = a +:+ (b +:+ c).
Proof. induction a as [|x a IH]; [done|]. by rewrite !scons_app, IH. Qed.

(** ** Trimming is idempotent *)

Lemma strip_any_none_app ps s r : strip_any ps (s +:+ r) = None → strip_any ps s = None.
Proof.
  induction ps as [|p ps IH]; [done|]. cbn [strip_any].
  destruct (strip_prefix p s) as [q|] eqn:E.
  - apply strip_prefix_spec in E as ->.
    destruct (strip_prefix p ((p +:+ q) +:+ r)) as [q'|] eqn:E'; [done|].
    exfalso. assert (strip_prefix p ((p +:+ q) +:+ r) = Some (q +:+ r)) as C; [|congruence].
    apply strip_prefix_spec, sapp_assoc.
  - destruct (strip_prefix p (s +:+ r)); done.
Qed.

Lemma strip_any_suffix ps s s' : Forall (λ p, p ≠ "") ps → strip_any ps s = Some s' →
  ∃ p, s = p +:+ s' ∧ (String.length s' < String.length s)%nat.
Proof.
  induction 1 as [|p ps Hp Hps IH]; [done|]. cbn [strip_any].
  destruct (strip_prefix p s) as [q|] eqn:E; [|done]. intros [= ->].
  apply strip_prefix_spec in E as ->. exists p. split; [done|].
  rewrite string_length_app. destruct p; [done|]. cbn. lia.
Qed.

Lemma strip_while_spec ps n s : Forall (λ p, p ≠ "") ps → (String.length s ≤ n)%nat →
  strip_any ps (strip_while n ps s) = None ∧ ∃ p, s = p +:+ strip_while n ps s.
Proof.
  intros Hps. revert s. induction n as [|n IH]; intros s Hn.
  - destruct s; [|cbn in Hn; lia]. cbn [strip_while]. split; [|by exists ""].
    destruct (strip_any ps "") eqn:E; [|done].
    apply strip_any_suffix in E as (p & _ & C); [cbn in C; lia|done].
  - cbn [strip_while]. destruct (strip_any ps s) as [s1|] eqn:E; [|split; [done|by exists ""]].
    apply strip_any_suffix in E as (p & -> & C); [|done].
    destruct (IH s1) as [A [q Hq]]; [lia|]. split; [done|]. exists (p +:+ q).
    rewrite Hq at 1. by rewrite sapp_assoc.
Qed.

Lemma strip_while_none ps n s : strip_any ps s = None → strip_while n ps s = s.
Proof. intros H. destruct n; [done|]. cbn [strip_while]. by rewrite H. Qed.

Lemma srev_app a b : srev (a +:+ b) = srev b +:+ srev a.
Proof.
  unfold srev. induction a as [|c a IH]; [by rewrite sapp_empty_r|].
  change (String c a +:+ b) with (String c (a +:+ b)). cbn [rev_string].
  rewrite rev_string_app, IH, (rev_string_app a (String c "")). apply sapp_assoc.
Qed.

Lemma white_space_nonempty : Forall (λ p, p ≠ "") white_space ∧ Forall (λ p, p ≠ "") (map srev white_space).
Proof. split; repeat constructor; discriminate. Qed.

(** What is left neither starts nor ends with white space. *)
Lemma trim_space_ends s :
  strip_any white_space (trim_space s) = None ∧
  strip_any (map srev white_space) (srev (trim_space s)) = None.
Proof.
  unfold trim_space. destruct white_space_nonempty as [W1 W2].
  destruct (strip_while_spec white_space (String.length s) s W1) as [A _]; [lia|].
  fold (trim_left s) in A. set (x := trim_left s) in *. unfold trim_right.
  assert (Hl : (String.length (srev x) ≤ String.length x)%nat).
  { clear. unfold srev. enough (∀ a b, String.length (rev_string a b) = String.length a + String.length b)%nat
      as -> by (cbn; lia). induction a as [|c a IH]; intros b; [done|]. cbn. rewrite IH. cbn. lia. }
  destruct (strip_while_spec (map srev white_space) (String.length x) (srev x) W2 Hl) as [B [p Hp]].
  split; [|by rewrite srev_srev].
  apply (strip_any_none_app _ _ (srev p)). rewrite <- srev_app, <- Hp. by rewrite srev_srev.
Qed.

Lemma trim_space_idem s : trim_space (trim_space s) = trim_space s.
Proof.
  destruct (trim_space_ends s) as [A B]. unfold trim_space at 1, trim_left, trim_right.
  rewrite (strip_while_none _ _ _ A), (strip_while_none _ _ _ B). apply srev_srev.
Qed.

Lemma trim_space_plain s : all_chars plain s = true → trim_space s = s.
Proof.
  intros H. unfold trim_space, trim_left, trim_right.
  destruct (strip_while_plain (String.length s) s H) as [-> _].
  destruct (strip_while_plain (String.length s) (srev s)) as [_ E]; [by rewrite srev_all|].
  rewrite E. apply srev_srev.
Qed.

(** On ASCII text lowering is character-wise and idempotent. *)
Definition low7 (c : ascii) : bool := (nat_of_ascii c <? 128)%nat.

(** A boolean fact about all 256 bytes, by computation. *)
Lemma ascii_forall (P : ascii → bool) :
  forallb P (map ascii_of_nat (seq 0 256)) = true → ∀ c, P c = true.
Proof.
  intros H c. rewrite forallb_forall in H. apply H. apply in_map_iff.
  exists (nat_of_ascii c). split; [apply ascii_nat_embedding|]. apply in_seq.
  pose proof (nat_ascii_bounded c). lia.
Qed.

Lemma ascii_forall_imp (P Q : ascii → bool) :
  forallb (λ c, negb (P c) || Q c) (map ascii_of_nat (seq 0 256)) = true → ∀ c, P c = true → Q c = true.
Proof. intros H c Hc. pose proof (ascii_forall _ H c) as E. cbn in E. by rewrite Hc in E. Qed.

Lemma to_lower_cons c s : low7 c = true → to_lower (String c s) = String (lower_ascii c) (to_lower s).
Proof.
  intros H. destruct s as [|b s]; [done|]. cbn [to_lower].
  unfold low7 in H. apply Nat.ltb_lt in H. unfold bytes2.
  destruct (Nat.eqb_spec (nat_of_ascii c) 196); [lia|].
  destruct (Nat.eqb_spec (nat_of_ascii c) 226); [lia|]. done.
Qed.

Lemma lower_ascii_idem c : lower_ascii (lower_ascii c) = lower_ascii c.
Proof. apply Ascii.eqb_eq. revert c. apply ascii_forall. vm_compute. reflexivity. Qed.

Lemma lower_ascii_low7 c : low7 c = true → low7 (lower_ascii c) = true.
Proof. revert c. apply (ascii_forall_imp low7 (λ c, low7 (lower_ascii c))). vm_compute. reflexivity. Qed.

Lemma lower_ascii_plain c : plain c = true → plain (lower_ascii c) = true.
Proof. revert c. apply (ascii_forall_imp plain (λ c, plain (lower_ascii c))). vm_compute. reflexivity. Qed.

Lemma plain_low7 c : plain c = true → low7 c = true.
Proof. revert c. apply ascii_forall_imp. vm_compute. reflexivity. Qed.

Lemma to_lower_plain s : all_chars plain s = true →
  all_chars plain (to_lower s) = true ∧ to_lower (to_lower s) = to_lower s.
Proof.
  induction s as [|c s IH]; [done|]. cbn [all_chars]. intros H. b2p.
  rewrite to_lower_cons by (by apply plain_low7). destruct (IH H0) as [I1 I2]. split.
  - cbn [all_chars]. by rewrite lower_ascii_plain, I1.
  - rewrite to_lower_cons by (by apply lower_ascii_low7, plain_low7). by rewrite lower_ascii_idem, I2.
Qed.

Lemma hex_decode_plain s raw : hex_decode s = Some raw → all_chars plain s = true.
Proof.
  revert raw. induction s as [s IH] using (induction_ltof1 _ String.length). intros raw H.
  destruct s as [|a [|b s]]; [done|done|]. cbn [hex_decode] in H.
  destruct (hex_val a) eqn:Ea, (hex_val b) eqn:Eb; try done.
  destruct (hex_decode s) eqn:Es; [|done]. cbn [all_chars].
  assert (∀ c n, hex_val c = Some n → plain c = true) as Hp.
  { intros c k Hc. revert c Hc. intros c Hc.
    apply (ascii_forall_imp (λ c, match hex_val c with Some _ => true | None => false end) plain);
      [vm_compute; reflexivity|by rewrite Hc]. }
  rewrite (Hp a _ Ea), (Hp b _ Eb). cbn. eapply IH; [|exact Es]. unfold ltof. cbn. lia.
Qed.

Lemma norm_hex_idem s raw : hex_decode (trim_space s) = Some raw →
  to_lower (trim_space (to_lower (trim_space s))) = to_lower (trim_space s).
Proof.
  intros H%hex_decode_plain. destruct (to_lower_plain _ H) as [P E].
  by rewrite (trim_space_plain (to_lower (trim_space s))), E by done.
Qed.

Lemma to_lower_plain_length s : all_chars plain s = true → String.length (to_lower s) = String.length s.
Proof.
  induction s as [|c s IH]; [done|]. cbn [all_chars]. intros H. b2p.
  rewrite to_lower_cons by (by apply plain_low7). cbn. by rewrite IH.
Qed.

Lemma hex_decode_length s raw : hex_decode s = Some raw →
  String.length s = (2 * String.length raw)%nat.
Proof.
  revert raw. induction s as [s IH] using (induction_ltof1 _ String.length). intros raw H.
  destruct s as [|a [|b s]]; [by injection H as <-|done|]. cbn [hex_decode] in H.
  destruct (hex_val a), (hex_val b); try done. destruct (hex_decode s) as [t|] eqn:Es; [|done].
  injection H as <-. cbn [String.length]. rewrite (IH s) with (raw := t); [lia| |done].
  unfold ltof. cbn. lia.
Qed.

Lemma all_chars_imp (P Q : ascii → bool) s :
  (∀ c, P c = true → Q c = true) → all_chars P s = true → all_chars Q s = true.
Proof.
  intros H. induction s as [|c s IH]; [done|]. cbn [all_chars]. intros Hs. b2p.
  by rewrite (H c), IH.
Qed.
