(* ===== verification/Params.v ===== *)
(** Process configuration: the environment switches that select the consensus schedule, the
    resolution of the three activation heights, and the unit conversions.

    Sources: internal/chain/economics_v2.go, asert.go, retarget.go, consensus_v2.go (resolution),
    transfers.go (units). *)
From S2P Require Import Prelude Float64 GoText.
From Stdlib Require Import QArith Lqa.
#[local] Open Scope Z_scope.

(** * Environment *)

Record Env := {
  HACKME_ECONOMICS_V2_ACTIVATION_HEIGHT : string;
  HACKME_ECONOMICS_V2_ACTIVATION_CONFIRM : string;
  HACKME_ECONOMICS_V2_MIN_LEAD_BLOCKS : string;
  HACKME_POH_ASERT_ACTIVATION_HEIGHT : string;
  HACKME_POH_V3_ACTIVATION_HEIGHT : string;
  HACKME_V2_CHAIN_ID : string;
  HACKME_CHAIN_AUTHORITY_PUBKEY : string;
  HACKME_HUNT_ENGINE_FLOOR_PAY_BPS : string;
  HACKME_ECONOMICS_V2_ANNOUNCE_UNIX : string;
  HACKME_P2P_IMPORT_ORDER_ESCROW : string;
  v2CompiledDefaultsOff : bool;
  v2ActivationGuardOff : bool;
}.

Definition empty_env : Env :=
  {| HACKME_ECONOMICS_V2_ACTIVATION_HEIGHT := ""; HACKME_ECONOMICS_V2_ACTIVATION_CONFIRM := "";
     HACKME_ECONOMICS_V2_MIN_LEAD_BLOCKS := ""; HACKME_POH_ASERT_ACTIVATION_HEIGHT := "";
     HACKME_POH_V3_ACTIVATION_HEIGHT := ""; HACKME_V2_CHAIN_ID := "";
     HACKME_CHAIN_AUTHORITY_PUBKEY := ""; HACKME_HUNT_ENGINE_FLOOR_PAY_BPS := "";
     HACKME_ECONOMICS_V2_ANNOUNCE_UNIX := ""; HACKME_P2P_IMPORT_ORDER_ESCROW := "";
     v2CompiledDefaultsOff := false; v2ActivationGuardOff := false |}.

(** An env height counts when it parses as an unsigned integer that is at least [lo]. *)
Definition env_height (raw : string) (lo default : Z) : Z :=
  match parse_uint (trim_space raw) with
  | Some n => if lo <=? n then n else default
  | None => default
  end.

Definition DefaultEconomicsV2ActivationHeight : Z := 550000.
Definition defaultPoHASERTActivationHeight : Z := 495400.
Definition defaultPoHFormulaV3ActivationHeight : Z := 485000.
Definition defaultV2MinLeadBlocks : Z := 7 * 2880.
Definition V2ChainID : string := "hackme-mainnet-1".
Definition DefaultAuthorityPubKey : string :=
  "9b02a948b238b4b993bc19cbe4f6f7571682b2024d496f4f293f26cb67ef1683".

(** [meta] is the locked chain-meta height cached in [econV2MetaOverride] (0 when unset). *)
Definition EconomicsV2ActivationHeight (e : Env) (meta : Z) : Z :=
  if 1 <=? meta then meta
  else env_height (HACKME_ECONOMICS_V2_ACTIVATION_HEIGHT e) 1
         (if v2CompiledDefaultsOff e then 0 else DefaultEconomicsV2ActivationHeight).

Definition PoHASERTActivationHeight (e : Env) : Z :=
  env_height (HACKME_POH_ASERT_ACTIVATION_HEIGHT e) 1 defaultPoHASERTActivationHeight.

Definition PoHFormulaV3ActivationHeight (e : Env) : Z :=
  env_height (HACKME_POH_V3_ACTIVATION_HEIGHT e) 0 defaultPoHFormulaV3ActivationHeight.

Definition ResolvedV2ChainID (e : Env) : string :=
  let v := trim_space (HACKME_V2_CHAIN_ID e) in
  if String.eqb v "" then V2ChainID else v.

Definition v2MinLeadBlocks (e : Env) : Z :=
  env_height (HACKME_ECONOMICS_V2_MIN_LEAD_BLOCKS e) 0 defaultV2MinLeadBlocks.

Definition authorityPubKeyFromEnv (e : Env) : string :=
  let v := to_lower (trim_space (HACKME_CHAIN_AUTHORITY_PUBKEY e)) in
  if negb (String.eqb v "") then v
  else if v2CompiledDefaultsOff e then ""
  else to_lower (trim_space DefaultAuthorityPubKey).

(** The heights every consensus rule reads, resolved once. *)
Class ChainParams := {
  v2_height : Z;
  asert_height : Z;
  v3_height : Z;
  v2_chain_id : string;
}.

Definition params_of (e : Env) (meta : Z) : ChainParams :=
  {| v2_height := EconomicsV2ActivationHeight e meta;
     asert_height := PoHASERTActivationHeight e;
     v3_height := PoHFormulaV3ActivationHeight e;
     v2_chain_id := ResolvedV2ChainID e |}.

Definition EconomicsV2ActiveForIndex `{ChainParams} (index : Z) : bool :=
  (1 <=? v2_height) && (1 <=? index) && (v2_height <=? index).

Definition ASERTActiveForIndex `{ChainParams} (index : Z) : bool :=
  (1 <=? index) && (asert_height <=? index).

(** * Units *)

Definition UnitsPerHMC : Z := 100000000.

Definition HMCToUnits (v : f64) : Z :=
  if f_leb v (f_of_Z 0) then 0
  else f_trunc (f_add (f_mul v (f_of_Z UnitsPerHMC)) (lit 1 2)).

Definition UnitsToHMC (v : Z) : f64 := f_div (f_of_Z v) (f_of_Z UnitsPerHMC).

Definition SUPToUnits := HMCToUnits.
Definition UnitsToSUP := UnitsToHMC.
Definition HMSToUnits := HMCToUnits.

(** * Facts *)

Lemma env_height_ge raw lo default : lo ≤ default → lo ≤ env_height raw lo default.
Proof. intros H. unfold env_height. repeat case_match; b2p; lia. Qed.

Lemma EconomicsV2ActiveForIndex_mono `{ChainParams} i j :
  i ≤ j → EconomicsV2ActiveForIndex i = true → EconomicsV2ActiveForIndex j = true.
Proof. unfold EconomicsV2ActiveForIndex. intros Hij Hi. b2p. rewrite !andb_true_iff, !Z.leb_le. lia. Qed.

Lemma f_half_value : toQ (lit 1 2) == 1 # 2.
Proof. vm_compute. reflexivity. Qed.

Lemma half_nonneg : (0 <= mant (lit 1 2))%Z.
Proof. vm_compute. discriminate. Qed.

Lemma units_nonneg : (0 <= mant (f_of_Z UnitsPerHMC))%Z.
Proof. vm_compute. discriminate. Qed.

Lemma units_value : toQ (f_of_Z UnitsPerHMC) == 100000000 # 1.
Proof. vm_compute. reflexivity. Qed.

Lemma HMCToUnits_nonneg v : (0 <= mant v)%Z → (0 <= HMCToUnits v)%Z.
Proof.
  intros H. unfold HMCToUnits. case_match; [lia|].
  apply f_trunc_nonneg, mant_add; [|exact half_nonneg].
  by apply (mant_mul _ _ H units_nonneg).
Qed.

Lemma pos_mant x : f_leb x (f_of_Z 0) = false → (0 < mant x)%Z.
Proof.
  rewrite f_leb_false. intros E. destruct (Z.lt_ge_cases 0 (mant x)) as [|Hm]; [done|]. exfalso.
  assert (toQ (f_of_Z 0) == 0)%Q as Z0 by (vm_compute; reflexivity). rewrite Z0 in E. unfold toQ in E.
  pose proof (pow2_pos (expo x)). rewrite Zle_Qle in Hm. change (inject_Z 0) with 0%Q in Hm. nra.
Qed.

Lemma HMCToUnits_ge0 v : (0 <= HMCToUnits v)%Z.
Proof.
  destruct (f_leb v (f_of_Z 0)) eqn:E; [unfold HMCToUnits; by rewrite E|].
  apply HMCToUnits_nonneg. apply pos_mant in E. lia.
Qed.

(** ** Round trip

    An unsigned amount below [2^50] units (about 5.6 million HMC) survives
    [UnitsToHMC]/[HMCToUnits] exactly. *)
Lemma round_trip_error (x v p a : Q) :
  (1 <= x <= 562949953421312 # 1 →
   (1 - ulp2) * (x * (1 # 100000000)) <= v <= (1 + ulp2) * (x * (1 # 100000000)) →
   (1 - ulp) * (v * (100000000 # 1)) <= p <= (1 + ulp) * (v * (100000000 # 1)) →
   (1 - ulp) * (p + (1 # 2)) <= a <= (1 + ulp) * (p + (1 # 2)) →
   0 < v /\ x <= a /\ a < x + 1)%Q.
Proof.
  unfold ulp, ulp2. intros [X1 X2] [V1 V2] [P1 P2] [A1 A2].
  split; [clear A1 A2 P1 P2 V2; lra|].
  split; [clear A2 P2 V2; lra|clear A1 P1 V1; lra].
Qed.

Lemma HMCToUnits_UnitsToHMC u : (0 <= u <= 2 ^ 49)%Z → HMCToUnits (UnitsToHMC u) = u.
Proof.
  intros [H0 H1]. destruct (Z.eq_dec u 0) as [->|Hne]; [by vm_compute|].
  assert (Hu : (0 < mant (f_of_Z u))%Z).
  { rewrite f_of_Z_small by lia. cbn. lia. }
  pose proof (toQ_div (f_of_Z u) (f_of_Z UnitsPerHMC) Hu ltac:(done)) as Hd.
  pose proof (mant_div (f_of_Z u) (f_of_Z UnitsPerHMC) Hu ltac:(done)) as Hm.
  fold (UnitsToHMC u) in Hd, Hm. set (v := UnitsToHMC u) in *.
  rewrite units_value, toQ_of_Z_exact in Hd by lia.
  assert (1 <= inject_Z u)%Q as H by (change 1%Q with (inject_Z 1); rewrite <- Zle_Qle; lia).
  assert (inject_Z u <= 562949953421312 # 1)%Q as H2.
  { change (562949953421312 # 1)%Q with (inject_Z (2 ^ 49)). rewrite <- Zle_Qle. lia. }
  assert (inject_Z u / (100000000 # 1) == inject_Z u * (1 # 100000000))%Q as E by (field).
  rewrite E in Hd.
  pose proof (toQ_mul v (f_of_Z UnitsPerHMC) Hm units_nonneg) as Hp. rewrite units_value in Hp.
  pose proof (mant_mul v (f_of_Z UnitsPerHMC) Hm units_nonneg) as Hmp.
  pose proof (toQ_add _ (lit 1 2) Hmp half_nonneg) as Ha. rewrite f_half_value in Ha.
  pose proof (mant_add _ (lit 1 2) Hmp half_nonneg) as Hma.
  destruct (round_trip_error _ _ _ _ (conj H H2) Hd Hp Ha) as (Hv & Hlo & Hhi).
  unfold HMCToUnits. destruct (f_leb v (f_of_Z 0)) eqn:Ez.
  - apply f_leb_spec in Ez. change (toQ (f_of_Z 0)) with 0%Q in Ez.
    exfalso. by apply (Qlt_not_le 0 (toQ v)).
  - apply Z.le_antisymm; [by apply f_trunc_le|by apply f_trunc_ge].
Qed.
