(* ===== verification/Emission.v ===== *)
(** Emission schedule and order-fee rates (internal/chain/economics.go, economics_v2.go). *)
From S2P Require Import Prelude Float64 GoText Params.
From Stdlib Require Import QArith Lqa.
#[local] Open Scope Z_scope.

(** * Constants *)

Definition MaxSupplyHMC : f64 := f_of_Z 100000000.
Definition InitialBaseRewardHMC : f64 := lit 1 100.
Definition RewardHalvingIntervalBlocks : Z := 2102400.
Definition OrderBurnRate : f64 := lit 1 10.
Definition OrderPlatformFeeRate : f64 := lit 1 20.
Definition NetworkFeeBurnShare : f64 := lit 3 10.
Definition NetworkFeeDevShare : f64 := lit 7 10.
Definition DevFeeAddress : string := "HMC-719006d93916ad52".
Definition RewardPerDifficultyUnit : f64 := lit 5 10000.
Definition MinDifficultyScore : Z := 1.
Definition MaxDifficultyScore : Z := 100.
Definition MinOrderPrepaidHMC : f64 := lit 5 100.
Definition RewardTailFloorHMC : f64 := lit 2 1000.

Definition V2InitialBaseRewardHMC : f64 := lit 1 10.
Definition V2RewardHalvingIntervalBlocks : Z := 4204800.
Definition V2OrderBurnRate : f64 := lit 5 100.
Definition V2OrderPlatformFeeRate : f64 := lit 5 100.
Definition V2SUPInitialReward : f64 := lit 2 1000.
Definition V2SUPMaxSupply : f64 := f_of_Z 21000.
Definition V2OrderBurnFreezeEpoch : Z := 2.
Definition MaxSupplySUP : f64 := f_of_Z 21000000.
Definition GenesisRewardHMC : f64 := f_of_Z 50000.

Definition validateLockedPolicy : result unit :=
  if String.eqb DevFeeAddress "" then Err "chain policy invalid: empty DevFeeAddress"
  else if f_ltb NetworkFeeBurnShare (f_of_Z 0) || f_ltb NetworkFeeDevShare (f_of_Z 0)
  then Err "chain policy invalid: negative network fee shares"
  else if f_ltb OrderBurnRate (f_of_Z 0) || f_ltb OrderPlatformFeeRate (f_of_Z 0)
  then Err "chain policy invalid: negative order rates"
  else if negb (has_prefix DevFeeAddress "HMC-") || negb (str_len DevFeeAddress =? 20)
  then Err "chain policy invalid: dev fee address must be HMC- + 16 hex"
  else match hex_decode (trim_prefix DevFeeAddress "HMC-") with
  | None => Err "chain policy invalid: dev fee address hex malformed"
  | Some _ =>
    (* a Go constant sum: exact, then rounded once *)
    let sum := lit (3 + 7) 10 in
    if f_ltb sum (lit 999999 1000000) || f_ltb (lit 1000001 1000000) sum
    then Err "chain policy invalid: network fee shares must sum to 1"
    else if f_leb MaxSupplyHMC (f_of_Z 0)
    then Err "chain policy invalid: max supply must be positive"
    else if f_ltb RewardTailFloorHMC (f_of_Z 0) || f_ltb InitialBaseRewardHMC (f_of_Z 0)
    then Err "chain policy invalid: negative reward configuration"
    else if (MinDifficultyScore <=? 0) || (MaxDifficultyScore <? MinDifficultyScore)
    then Err "chain policy invalid: invalid difficulty bounds"
    else Ok tt
  end.

(** * Block reward *)

Definition halving_reward (initial : f64) (interval index : Z) : f64 :=
  f_div_pow2 initial (u64 (index - 1) / interval).

Definition baseRewardV1 (index : Z) : f64 :=
  if RewardHalvingIntervalBlocks =? 0 then InitialBaseRewardHMC
  else let reward := halving_reward InitialBaseRewardHMC RewardHalvingIntervalBlocks index in
       if f_ltb reward RewardTailFloorHMC then RewardTailFloorHMC else reward.

Definition baseRewardV2 (index : Z) : f64 :=
  if V2RewardHalvingIntervalBlocks =? 0 then V2InitialBaseRewardHMC
  else let reward := halving_reward V2InitialBaseRewardHMC V2RewardHalvingIntervalBlocks index in
       if f_ltb reward RewardTailFloorHMC then RewardTailFloorHMC else reward.

Definition BaseRewardForBlockIndex `{ChainParams} (index : Z) : f64 :=
  if index =? 0 then f_of_Z 0
  else if EconomicsV2ActiveForIndex index then baseRewardV2 index
  else baseRewardV1 index.

Definition NextHalvingBlock `{ChainParams} (currentTipHeight : Z) : Z :=
  let interval := if EconomicsV2ActiveForIndex (u64 (currentTipHeight + 1))
                  then V2RewardHalvingIntervalBlocks else RewardHalvingIntervalBlocks in
  if interval =? 0 then 0
  else if currentTipHeight =? 0 then interval + 1
  else let nextEpoch := (currentTipHeight - 1) / interval + 1 in
       u64 (u64 (nextEpoch * interval) + 1).

Definition SUPRewardForBlockIndex `{ChainParams} (index : Z) : f64 :=
  if negb (EconomicsV2ActiveForIndex index) || (index =? 0) then f_of_Z 0
  else if V2RewardHalvingIntervalBlocks =? 0 then V2SUPInitialReward
  else let reward := halving_reward V2SUPInitialReward V2RewardHalvingIntervalBlocks index in
       if f_ltb reward (lit 1 100000000) then f_of_Z 0 else reward.

(** * Order rates *)

Definition v2RewardEpoch (index : Z) : Z :=
  if (index =? 0) || (V2RewardHalvingIntervalBlocks =? 0) then 0
  else u64 (index - 1) / V2RewardHalvingIntervalBlocks.

Definition v2BurnFreezeEpoch : Z := V2OrderBurnFreezeEpoch.

Definition OrderBurnRateAt `{ChainParams} (tipHeight : Z) : f64 :=
  let idx := u64 (tipHeight + 1) in
  if negb (EconomicsV2ActiveForIndex idx) then OrderBurnRate
  else
    let epoch := v2RewardEpoch idx in
    let epoch := if v2BurnFreezeEpoch <? epoch then v2BurnFreezeEpoch else epoch in
    let rate := f_div_pow2 V2OrderBurnRate epoch in
    if f_ltb rate (lit 1 1000000000000) then f_of_Z 0 else rate.

Definition OrderPlatformFeeRateAt `{ChainParams} (tipHeight : Z) : f64 :=
  if EconomicsV2ActiveForIndex (u64 (tipHeight + 1)) then V2OrderPlatformFeeRate
  else OrderPlatformFeeRate.

(** * Lemmas *)

(** The schedule in integer units: what [HMCToUnits] credits in epoch [e]. *)
Definition v2_units (e : Z) : Z :=
  if e <=? 5 then 10000000 / 2 ^ e else 200000.

Lemma toQ_div_pow2 a n : toQ (f_div_pow2 a n) == toQ a * Qpower 2 (- n).
Proof. unfold toQ, f_div_pow2. cbn [mant expo]. unfold Z.sub. rewrite pow2_add. ring. Qed.

Lemma div_pow2_lt a c n m : (m <= n)%Z → (0 <= mant a)%Z →
  f_ltb (f_div_pow2 a m) c = true → f_ltb (f_div_pow2 a n) c = true.
Proof.
  intros Hmn Ha H. apply f_ltb_spec in H. apply f_ltb_spec.
  rewrite toQ_div_pow2 in *.
  replace (- n)%Z with (- m + - (n - m))%Z by lia. rewrite pow2_add.
  assert (Qpower 2 (- (n - m)) <= 1)%Q as Hp.
  { assert (Qpower 2 (n - m) * Qpower 2 (- (n - m)) == 1)%Q as E
      by (rewrite <- pow2_add; by replace (n - m + - (n - m))%Z with 0%Z by lia).
    assert (1 <= Qpower 2 (n - m))%Q.
    { rewrite pow2_Z by lia. change 1%Q with (inject_Z 1). rewrite <- Zle_Qle.
      pose proof (Z.pow_pos_nonneg 2 (n - m)). lia. }
    pose proof (pow2_pos (- (n - m))). nra. }
  pose proof (pow2_pos (- m)). pose proof (toQ_nonneg a Ha).
  assert (0 <= toQ a * Qpower 2 (- m))%Q by (apply Qmult_le_0_compat; lra).
  rewrite Qmult_assoc.
  assert (toQ a * Qpower 2 (- m) * Qpower 2 (- (n - m)) <= toQ a * Qpower 2 (- m) * 1)%Q.
  { rewrite !(Qmult_comm (toQ a * Qpower 2 (- m))). by apply Qmult_le_compat_r. }
  lra.
Qed.

Lemma epoch_v2 index : 1 ≤ index < two64 →
  u64 (index - 1) / V2RewardHalvingIntervalBlocks = (index - 1) / V2RewardHalvingIntervalBlocks.
Proof. intros. by rewrite u64_small by lia. Qed.

Lemma v2_reward_units index : 1 ≤ index < two64 →
  HMCToUnits (baseRewardV2 index) = v2_units ((index - 1) / V2RewardHalvingIntervalBlocks).
Proof.
  intros H. unfold baseRewardV2, halving_reward. rewrite epoch_v2 by done.
  pose proof (Z.div_pos (index - 1) V2RewardHalvingIntervalBlocks ltac:(lia) ltac:(done)).
  set (e := (index - 1) / V2RewardHalvingIntervalBlocks) in *.
  change (V2RewardHalvingIntervalBlocks =? 0) with false. cbv iota zeta.
  unfold v2_units. destruct (Z.leb_spec e 5) as [He|He].
  - assert (e = 0 ∨ e = 1 ∨ e = 2 ∨ e = 3 ∨ e = 4 ∨ e = 5)
      as [->|[->|[->|[->|[->| ->]]]]] by lia; vm_compute; reflexivity.
  - rewrite (div_pow2_lt _ _ e 6) by (try lia; vm_compute; (discriminate || reflexivity)).
    vm_compute. reflexivity.
Qed.

Lemma v2_units_nonincreasing e e' : 0 ≤ e ≤ e' → v2_units e' ≤ v2_units e.
Proof.
  intros [H0 H1]. unfold v2_units.
  destruct (Z.leb_spec e 5), (Z.leb_spec e' 5); try lia.
  - apply Z.div_le_compat_l; [done|]. split; [by apply Z.pow_pos_nonneg|].
    by apply Z.pow_le_mono_r.
  - assert (e = 0 ∨ e = 1 ∨ e = 2 ∨ e = 3 ∨ e = 4 ∨ e = 5)
      as [->|[->|[->|[->|[->| ->]]]]] by lia; vm_compute; discriminate.
Qed.

(** SUP units of an empty block in epoch [e]. *)
Definition sup_units (e : Z) : Z :=
  match e with
  | 0 => 200000 | 1 => 100000 | 2 => 50000 | 3 => 25000 | 4 => 12500 | 5 => 6250 | 6 => 3125
  | 7 => 1563 | 8 => 781 | 9 => 391 | 10 => 195 | 11 => 98 | 12 => 49 | 13 => 24 | 14 => 12
  | 15 => 6 | 16 => 3 | 17 => 2 | _ => 0
  end.

Lemma small_cases (P : Z → Prop) (n : nat) :
  (∀ k, (k < n)%nat → P (Z.of_nat k)) → ∀ e, 0 ≤ e < Z.of_nat n → P e.
Proof. intros H e He. rewrite <- (Z2Nat.id e) by lia. apply H. lia. Qed.

Lemma sup_reward_units `{ChainParams} index : 1 ≤ index < two64 →
  EconomicsV2ActiveForIndex index = true →
  SUPToUnits (SUPRewardForBlockIndex index)
  = sup_units ((index - 1) / V2RewardHalvingIntervalBlocks).
Proof.
  intros Hr Ha. unfold SUPRewardForBlockIndex, halving_reward. rewrite Ha, epoch_v2 by done.
  destruct (Z.eqb_spec index 0); [lia|].
  pose proof (Z.div_pos (index - 1) V2RewardHalvingIntervalBlocks ltac:(lia) ltac:(done)).
  set (e := (index - 1) / V2RewardHalvingIntervalBlocks) in *.
  change (V2RewardHalvingIntervalBlocks =? 0) with false. cbv iota zeta. cbn [negb orb].
  destruct (Z.lt_ge_cases e 18) as [He|He].
  - revert e H0 He. intros e H0 He.
    apply (small_cases (λ e, SUPToUnits (if f_ltb (f_div_pow2 V2SUPInitialReward e)
      (lit 1 100000000) then f_of_Z 0 else f_div_pow2 V2SUPInitialReward e) = sup_units e) 18);
      [|lia].
    intros k Hk. do 18 (destruct k as [|k]; [vm_compute; reflexivity|]). lia.
  - rewrite (div_pow2_lt _ _ e 18) by (try lia; vm_compute; (discriminate || reflexivity)).
    transitivity 0; [vm_compute; reflexivity|].
    unfold sup_units. repeat (case_match; try lia; try done).
Qed.

(** Units still to be emitted by the epochs from [e] on (at most 18 epochs emit). *)
Definition sup_remaining (e : Z) : Z :=
  foldr (λ k acc, (if Z.of_nat k <? e then 0 else V2RewardHalvingIntervalBlocks * sup_units (Z.of_nat k)) + acc)
    0 (seq 0 18).

(** SUP units emitted by the blocks [1..n] if every block is empty. *)
Fixpoint sup_emitted `{ChainParams} (n : nat) : Z :=
  match n with
  | O => 0
  | S m => sup_emitted m + SUPToUnits (SUPRewardForBlockIndex (Z.of_nat n))
  end.

Lemma sup_units_nonneg e : 0 ≤ sup_units e.
Proof. unfold sup_units. repeat (case_match; try lia). Qed.

Lemma sup_units_zero e : 18 ≤ e → sup_units e = 0.
Proof. intros H. unfold sup_units. repeat (case_match; try lia; try done). Qed.

Lemma sup_remaining_past e : 18 ≤ e → sup_remaining e = 0.
Proof.
  intros He. unfold sup_remaining.
  assert (∀ l, Forall (λ k, (k < 18)%nat) l → foldr (λ k acc, (if Z.of_nat k <? e then 0
    else V2RewardHalvingIntervalBlocks * sup_units (Z.of_nat k)) + acc) 0 l = 0) as H.
  { induction 1 as [|k l Hk _ IH]; cbn [foldr]; [done|].
    rewrite IH. destruct (Z.ltb_spec (Z.of_nat k) e); lia. }
  apply H, Forall_seq. lia.
Qed.

Lemma sup_remaining_step e : 0 ≤ e →
  sup_remaining e = V2RewardHalvingIntervalBlocks * sup_units e + sup_remaining (e + 1).
Proof.
  intros He. destruct (Z.lt_ge_cases e 18) as [H|H].
  - apply (small_cases (λ e, sup_remaining e =
      V2RewardHalvingIntervalBlocks * sup_units e + sup_remaining (e + 1)) 18); [|lia].
    intros k Hk. do 18 (destruct k as [|k]; [vm_compute; reflexivity|]). lia.
  - rewrite sup_units_zero, !sup_remaining_past by lia. done.
Qed.

Lemma sup_remaining_nonneg e : 0 ≤ sup_remaining e.
Proof.
  unfold sup_remaining. induction (seq 0 18) as [|k l IH]; cbn [foldr]; [done|].
  pose proof (sup_units_nonneg (Z.of_nat k)).
  assert (0 ≤ V2RewardHalvingIntervalBlocks * sup_units (Z.of_nat k)) by (unfold V2RewardHalvingIntervalBlocks; lia).
  case_match; lia.
Qed.

(** The emission after [n] blocks, by position in the current epoch. *)
Lemma sup_emitted_bound `{ChainParams} n : Z.of_nat n < two64 →
  let e := Z.of_nat n / V2RewardHalvingIntervalBlocks in
  sup_emitted n ≤ sup_remaining 0 - sup_remaining e
                  + (Z.of_nat n - e * V2RewardHalvingIntervalBlocks) * sup_units e.
Proof.
  induction n as [|n IH]; [intros _; vm_compute; discriminate|]. intros Hn e.
  specialize (IH ltac:(lia)). cbv zeta in IH.
  cbn [sup_emitted]. set (e0 := Z.of_nat n / V2RewardHalvingIntervalBlocks) in *.
  assert (Hstep : SUPToUnits (SUPRewardForBlockIndex (Z.of_nat (S n))) ≤ sup_units e0).
  { destruct (EconomicsV2ActiveForIndex (Z.of_nat (S n))) eqn:Ea.
    - rewrite sup_reward_units by (try done; lia).
      replace (Z.of_nat (S n) - 1) with (Z.of_nat n) by lia. fold e0. lia.
    - unfold SUPRewardForBlockIndex. rewrite Ea. cbn [negb orb].
      change (SUPToUnits (f_of_Z 0)) with 0. apply sup_units_nonneg. }
  assert (0 ≤ e0) by (unfold e0; apply Z.div_pos; [lia|done]).
  pose proof (Z.div_mod (Z.of_nat n) V2RewardHalvingIntervalBlocks ltac:(done)) as D0.
  pose proof (Z.mod_pos_bound (Z.of_nat n) V2RewardHalvingIntervalBlocks ltac:(done)) as M0.
  fold e0 in D0. set (r := Z.of_nat n mod V2RewardHalvingIntervalBlocks) in *.
  destruct (Z.eq_dec (r + 1) V2RewardHalvingIntervalBlocks) as [Hw|Hw].
  - assert (e = e0 + 1) as ->.
    { unfold e. symmetry. apply (Z.div_unique _ _ _ 0); [left; split; [lia|done]|]. lia. }
    pose proof (sup_remaining_step e0 ltac:(lia)). nia.
  - assert (e = e0) as ->.
    { unfold e. symmetry. apply (Z.div_unique _ _ _ (r + 1)); [left; lia|]. lia. }
    nia.
Qed.

(** * Properties *)

(** C36: From activation on the empty-block subsidy in units is the integer halving schedule
    [10_000_000 / 2^epoch] floored at [200_000] (0.1 HMC, 4,204,800-block epochs, 0.002 HMC tail):
    the float64 computation of [BaseRewardForBlockIndex] introduces no rounding error, the
    subsidy never increases with the block index and never leaves [0.002, 0.1] HMC. *)
Theorem v2_emission_schedule `{ChainParams} i j :
  1 ≤ i → i ≤ j < two64 → EconomicsV2ActiveForIndex i = true →
  let units k := HMCToUnits (BaseRewardForBlockIndex k) in
  units i = v2_units ((i - 1) / V2RewardHalvingIntervalBlocks) ∧
  units j ≤ units i ∧ 200000 ≤ units j ∧ units i ≤ 10000000.
Proof.
  intros Hi Hj Ha units. pose proof (EconomicsV2ActiveForIndex_mono i j (proj1 Hj) Ha) as Hb.
  assert (Hu : ∀ k, 1 ≤ k < two64 → EconomicsV2ActiveForIndex k = true →
    units k = v2_units ((k - 1) / V2RewardHalvingIntervalBlocks)).
  { intros k Hk Hak. unfold units, BaseRewardForBlockIndex. rewrite Hak.
    destruct (Z.eqb_spec k 0); [lia|]. by apply v2_reward_units. }
  rewrite !Hu by (done || lia).
  pose proof (Z.div_pos (i - 1) V2RewardHalvingIntervalBlocks ltac:(lia) ltac:(done)).
  pose proof (Z.div_le_mono (i - 1) (j - 1) V2RewardHalvingIntervalBlocks ltac:(done) ltac:(lia)).
  split; [done|]. split; [apply v2_units_nonincreasing; lia|]. split.
  - pose proof (v2_units_nonincreasing ((j - 1) / V2RewardHalvingIntervalBlocks)
      (6 + (j - 1) / V2RewardHalvingIntervalBlocks) ltac:(lia)) as Hl.
    unfold v2_units at 1 in Hl. destruct (Z.leb_spec (6 + (j - 1) / V2RewardHalvingIntervalBlocks) 5); lia.
  - apply (v2_units_nonincreasing 0). lia.
Qed.

Lemma v2_emission_schedule_witness :
  let P := params_of empty_env 0 in
  HMCToUnits (BaseRewardForBlockIndex 550000) = 10000000 ∧
  HMCToUnits (BaseRewardForBlockIndex 9000000) ≤ HMCToUnits (BaseRewardForBlockIndex 550000).
Proof.
  pose proof (v2_emission_schedule (H := params_of empty_env 0) 550000 9000000
    ltac:(lia) ltac:(unfold two64; lia) ltac:(vm_compute; reflexivity)) as (E & L & _).
  split; [exact E|exact L].
Defined.

(** However many blocks are mined (64-bit indices), the SUP minted by empty blocks, summed
    over all of them, stays strictly below the published cap of 21,000 SUP: the schedule alone
    can emit at most 16,819.16 SUP, so the cap clamp of the mint never binds for it. *)
Theorem sup_emission_below_cap `{ChainParams} n :
  Z.of_nat n < two64 →
  sup_emitted n ≤ 1681915795200 < SUPToUnits V2SUPMaxSupply.
Proof.
  intros Hn. split; [|by vm_compute].
  pose proof (sup_emitted_bound n Hn) as Hb. cbv zeta in Hb.
  set (e := Z.of_nat n / V2RewardHalvingIntervalBlocks) in *.
  assert (0 ≤ e) by (unfold e; apply Z.div_pos; [lia|done]).
  pose proof (Z.div_mod (Z.of_nat n) V2RewardHalvingIntervalBlocks ltac:(done)).
  pose proof (Z.mod_pos_bound (Z.of_nat n) V2RewardHalvingIntervalBlocks ltac:(done)).
  fold e in H1. pose proof (sup_remaining_step e ltac:(lia)). pose proof (sup_remaining_nonneg (e + 1)).
  pose proof (sup_units_nonneg e).
  assert (sup_remaining 0 ≤ 1681915795200) by (vm_compute; discriminate).
  nia.
Qed.

Lemma sup_emission_below_cap_witness :
  let P := params_of empty_env 0 in sup_emitted 3 ≤ 1681915795200.
Proof. apply (sup_emission_below_cap (H := params_of empty_env 0) 3). vm_compute. reflexivity. Defined.

(** [NextHalvingBlock tip] is the first block of the next emission epoch: it lies above the
    tip, at most one interval past it, and it is the least block whose epoch is greater than that
    of the blocks from the tip on - in particular it is [tip + 1] when the tip closes an epoch. *)
Theorem NextHalvingBlock_first `{ChainParams} tip :
  0 ≤ tip → tip + V2RewardHalvingIntervalBlocks + RewardHalvingIntervalBlocks + 1 < two64 →
  let interval := if EconomicsV2ActiveForIndex (tip + 1)
                  then V2RewardHalvingIntervalBlocks else RewardHalvingIntervalBlocks in
  let epoch k := (k - 1) / interval in
  let N := NextHalvingBlock tip in
  tip < N ≤ tip + interval + 1 ∧
  (∀ k, N ≤ k → epoch N ≤ epoch k) ∧
  (∀ k, 1 ≤ k → tip ≤ k < N → epoch k + 1 = epoch N).
Proof.
  intros Ht Hb interval epoch N.
  assert (Hi : interval = V2RewardHalvingIntervalBlocks ∨ interval = RewardHalvingIntervalBlocks)
    by (unfold interval; case_match; auto).
  assert (Hpos : 0 < interval) by (destruct Hi as [-> | ->]; done).
  assert (Hle : tip + interval + 1 < two64)
    by (destruct Hi as [-> | ->]; unfold V2RewardHalvingIntervalBlocks, RewardHalvingIntervalBlocks in *; lia).
  assert (HN : N = (if tip =? 0 then 1 else (tip - 1) / interval + 1) * interval + 1).
  { unfold N, NextHalvingBlock. rewrite (u64_small (tip + 1)) by lia. fold interval. cbv zeta.
    destruct (Z.eqb_spec interval 0); [lia|]. destruct (Z.eqb_spec tip 0); [lia|].
    pose proof (Z.div_mod (tip - 1) interval ltac:(lia)).
    pose proof (Z.mod_pos_bound (tip - 1) interval Hpos).
    assert (0 ≤ (tip - 1) / interval) by (apply Z.div_pos; lia).
    rewrite (u64_small (_ * _)) by nia. apply u64_small. nia. }
  clearbody N interval. subst epoch. cbn beta. subst N.
  set (q := if tip =? 0 then 1 else (tip - 1) / interval + 1).
  assert (Hq : (q - 1) * interval ≤ Z.max 0 (tip - 1) < q * interval).
  { unfold q. destruct (Z.eqb_spec tip 0); [nia|].
    pose proof (Z.div_mod (tip - 1) interval ltac:(lia)).
    pose proof (Z.mod_pos_bound (tip - 1) interval Hpos). nia. }
  clearbody q. rewrite Z.add_simpl_r, Z.div_mul by lia.
  split; [split; nia|]. split.
  - intros k Hk. apply Z.div_le_lower_bound; lia.
  - intros k Hk1 Hk2. rewrite <- (Z.div_unique (k - 1) interval (q - 1) (k - 1 - (q - 1) * interval)); [lia|left; nia|lia].
Qed.

Lemma NextHalvingBlock_first_witness :
  let P := params_of empty_env 0 in
  4204800 < NextHalvingBlock 4204800 ≤ 4204800 + V2RewardHalvingIntervalBlocks + 1.
Proof.
  pose proof (NextHalvingBlock_first (H := params_of empty_env 0) 4204800
    ltac:(lia) ltac:(vm_compute; reflexivity)) as [E _]. exact E.
Defined.
