(* ===== verification/OrderFee.v ===== *)
(** Order fees: the split of a customer price into burn, platform fee and miner escrow.

    Source: internal/chain/order_fee_v2.go (arithmetic; the ledger side of the fee is in
    FuzzEscrow.v). *)
From S2P Require Import Prelude Float64 GoText Params Emission.

Definition FeeAssetHMC : string := "HMC".
Definition FeeAssetSUP : string := "SUP".
Definition SUPFeeRateToHMCFee : Z := 1.

Record OrderFeeV2 := {
  Asset : string;
  BurnUnits : Z;
  PlatformUnits : Z;
  SUPUnits : Z;
}.

Definition HMCUnits (f : OrderFeeV2) : Z :=
  if String.eqb (Asset f) FeeAssetSUP then 0 else u64 (BurnUnits f + PlatformUnits f).

Definition NormalizeFeeAsset (v : string) : result string :=
  let k := to_upper (trim_space v) in
  if String.eqb k "" || String.eqb k FeeAssetHMC then Ok FeeAssetHMC
  else if String.eqb k FeeAssetSUP then Ok FeeAssetSUP
  else Err "chain: fee_asset must be HMC or SUP".

Definition ratePPM (rate : f64) : Z :=
  if f_leb rate (f_of_Z 0) then 0
  else f_round (f_mul rate (f_of_Z 1000000)).

(** [bits.Mul64] and [bits.Div64]; the division panics when the quotient does not fit. *)
Definition Mul64 (x y : Z) : Z * Z := (x * y / two64, x * y mod two64).
Definition Div64 (hi lo y : Z) : result (Z * Z) :=
  if y =? 0 then Err "panic: runtime error: integer divide by zero"
  else if y <=? hi then Err "panic: runtime error: integer overflow"
  else Ok ((hi * two64 + lo) / y, (hi * two64 + lo) mod y).

Definition mulDivPPM (v ppm : Z) : result Z :=
  let '(hi, lo) := Mul64 v ppm in
  rbind (Div64 hi lo 1000000) (λ '(q, _), Ok q).

Definition orderFeeV2Rates `{ChainParams} (tipHeight : Z) : Z * Z :=
  (ratePPM (OrderBurnRateAt tipHeight), ratePPM (OrderPlatformFeeRateAt tipHeight)).

Definition newOrderFeeV2 (asset : string) (burn platform : Z) : OrderFeeV2 :=
  {| Asset := asset; BurnUnits := burn; PlatformUnits := platform;
     SUPUnits := if String.eqb asset FeeAssetSUP
                 then u64 (u64 (burn + platform) * SUPFeeRateToHMCFee) else 0 |}.

Definition OrderFeeV2FromPrice `{ChainParams} (tipHeight priceUnits : Z) (asset : string)
    : result (OrderFeeV2 * Z) :=
  let '(bp, pp) := orderFeeV2Rates tipHeight in
  rbind (mulDivPPM priceUnits bp) (λ burn,
  rbind (mulDivPPM priceUnits pp) (λ platform,
  Ok (newOrderFeeV2 asset burn platform, u64 (u64 (priceUnits - burn) - platform)))).

Definition OrderFeeV2ForEscrow `{ChainParams} (tipHeight escrowUnits : Z) (asset : string)
    : result OrderFeeV2 :=
  let '(bp, pp) := orderFeeV2Rates tipHeight in
  if (u64 (bp + pp) =? 0) || (1000000 <=? u64 (bp + pp)) then Ok (newOrderFeeV2 asset 0 0)
  else
    let '(hi, lo) := Mul64 escrowUnits 1000000 in
    rbind (Div64 hi lo (u64 (u64 (1000000 - bp) - pp))) (λ '(price, _),
    rbind (mulDivPPM price bp) (λ burn,
    rbind (mulDivPPM price pp) (λ platform,
    Ok (newOrderFeeV2 asset burn platform)))).

(** [checkFeeAssetAllowed]: [signer] is the node signer's public key, if it has one. *)
Definition checkFeeAssetAllowed (e : Env) (signer : option string) (asset : string) : result unit :=
  match signer with
  | None => Ok tt
  | Some pub =>
      if negb (String.eqb asset FeeAssetSUP) then Ok tt
      else
        let auth := authorityPubKeyFromEnv e in
        if negb (String.eqb auth "") && equal_fold (trim_space pub) auth
        then Err "chain: fee_asset must be HMC or SUP: SUP order fees are not accepted on the pool hub — pay in HMC"
        else Ok tt
  end.

(** * Facts *)

Lemma mulDivPPM_ok v ppm : 0 ≤ v < two64 → 0 ≤ ppm ≤ 1000000 → ppm < 1000000 →
  mulDivPPM v ppm = Ok (v * ppm / 1000000).
Proof.
  intros Hv Hp Hp'. unfold mulDivPPM, Mul64, Div64. cbn [rbind].
  assert (v * ppm / two64 < 1000000) by (apply Z.div_lt_upper_bound; unfold two64 in *; nia).
  destruct (Z.eqb_spec 1000000 0); [lia|]. destruct (Z.leb_spec 1000000 (v * ppm / two64)); [lia|].
  cbn [rbind]. do 2 f_equal. rewrite (Z.mul_comm _ two64), <- Z_div_mod_eq_full. done.
Qed.

(** Parts per million of the burn leg by reward epoch: frozen from epoch 2 on. *)
Definition burn_ppm (epoch : Z) : Z :=
  if epoch =? 0 then 50000 else if epoch =? 1 then 25000 else 12500.

Lemma orderFeeV2Rates_v2 `{ChainParams} tip :
  0 ≤ tip → tip + 1 < two64 → EconomicsV2ActiveForIndex (tip + 1) = true →
  orderFeeV2Rates tip
  = (burn_ppm (tip / V2RewardHalvingIntervalBlocks), 50000).
Proof.
  intros Ht Hb Ha. unfold orderFeeV2Rates, OrderBurnRateAt, OrderPlatformFeeRateAt, v2RewardEpoch.
  rewrite (u64_small (tip + 1)), Ha by lia. cbn [negb]. cbv zeta.
  replace (u64 (tip + 1 - 1)) with tip by (rewrite u64_small; lia).
  destruct (Z.eqb_spec (tip + 1) 0); [lia|].
  change (V2RewardHalvingIntervalBlocks =? 0) with false. cbn [orb].
  pose proof (Z.div_pos tip V2RewardHalvingIntervalBlocks ltac:(lia) ltac:(done)).
  set (e := tip / V2RewardHalvingIntervalBlocks) in *.
  replace (if v2BurnFreezeEpoch <? e then v2BurnFreezeEpoch else e)
    with (Z.min e V2OrderBurnFreezeEpoch)
    by (unfold v2BurnFreezeEpoch; destruct (Z.ltb_spec V2OrderBurnFreezeEpoch e); lia).
  unfold V2OrderBurnFreezeEpoch, burn_ppm. destruct (Z.eqb_spec e 0) as [-> |]; [vm_compute; reflexivity|].
  destruct (Z.eqb_spec e 1) as [-> |]; [vm_compute; reflexivity|].
  replace (Z.min e 2) with 2 by lia. vm_compute. reflexivity.
Qed.

Lemma orderFeeV2Rates_v1 `{ChainParams} tip :
  0 ≤ tip → tip + 1 < two64 → EconomicsV2ActiveForIndex (tip + 1) = false →
  orderFeeV2Rates tip = (100000, 50000).
Proof.
  intros Ht Hb Ha. unfold orderFeeV2Rates, OrderBurnRateAt, OrderPlatformFeeRateAt.
  rewrite (u64_small (tip + 1)), Ha by lia. vm_compute. reflexivity.
Qed.

Lemma burn_ppm_range e : 12500 ≤ burn_ppm e ≤ 50000.
Proof. unfold burn_ppm. repeat case_match; lia. Qed.

(** The two rates of every era sum to at most 15%. *)
Lemma orderFeeV2Rates_range `{ChainParams} tip :
  0 ≤ tip → tip + 1 < two64 →
  let '(bp, pp) := orderFeeV2Rates tip in 12500 ≤ bp ≤ 100000 ∧ pp = 50000.
Proof.
  intros Ht Hb. destruct (EconomicsV2ActiveForIndex (tip + 1)) eqn:Ha.
  - rewrite orderFeeV2Rates_v2 by done.
    pose proof (burn_ppm_range (tip / V2RewardHalvingIntervalBlocks)). lia.
  - rewrite orderFeeV2Rates_v1 by done. lia.
Qed.

(** What a price splits into, with the rates of the tip. *)
Lemma OrderFeeV2FromPrice_eq `{ChainParams} tip price asset :
  0 ≤ tip → tip + 1 < two64 → 0 ≤ price < two64 →
  let '(bp, pp) := orderFeeV2Rates tip in
  OrderFeeV2FromPrice tip price asset
  = Ok (newOrderFeeV2 asset (price * bp / 1000000) (price * pp / 1000000),
        price - price * bp / 1000000 - price * pp / 1000000).
Proof.
  intros Ht Hb Hp. unfold OrderFeeV2FromPrice.
  pose proof (orderFeeV2Rates_range tip Ht Hb) as Hr.
  destruct (orderFeeV2Rates tip) as [bp pp].
  rewrite !mulDivPPM_ok by lia. cbn [rbind]. do 2 f_equal.
  assert (0 ≤ price * bp / 1000000) by (apply Z.div_pos; nia).
  assert (0 ≤ price * pp / 1000000) by (apply Z.div_pos; nia).
  assert (price * bp / 1000000 + price * pp / 1000000 ≤ price) by (Z.to_euclidean_division_equations; nia).
  rewrite (u64_small (price - _)) by lia. rewrite u64_small; lia.
Qed.

(** What pricing a fixed escrow charges: no panic, and the legs of the quoted price. *)
Lemma OrderFeeV2ForEscrow_eq `{ChainParams} tip escrow asset :
  0 ≤ tip → tip + 1 < two64 → 0 ≤ escrow < two63 →
  let '(bp, pp) := orderFeeV2Rates tip in
  let price := escrow * 1000000 / (1000000 - bp - pp) in
  OrderFeeV2ForEscrow tip escrow asset
  = Ok (newOrderFeeV2 asset (price * bp / 1000000) (price * pp / 1000000)) ∧ 0 ≤ price < two64.
Proof.
  intros Ht Hb He. pose proof (orderFeeV2Rates_range tip Ht Hb) as Hr.
  unfold OrderFeeV2ForEscrow. destruct (orderFeeV2Rates tip) as [bp pp]. cbv zeta. destruct Hr as [Hbp ->].
  set (price := escrow * 1000000 / (1000000 - bp - 50000)).
  assert (Hp : 0 ≤ price < two64).
  { unfold price. split; [apply Z.div_pos; lia|]. apply Z.div_lt_upper_bound; unfold two63, two64 in *; nia. }
  split; [|exact Hp].
  rewrite (u64_small (bp + 50000)), (u64_small (u64 (1000000 - bp) - 50000)), (u64_small (1000000 - bp))
    by (rewrite ?(u64_small (1000000 - bp)); unfold two64; lia).
  destruct (Z.eqb_spec (bp + 50000) 0); [lia|].
  destruct (Z.leb_spec 1000000 (bp + 50000)); [lia|]. cbn [orb].
  unfold Mul64, Div64.
  assert (escrow * 1000000 / two64 < 1000000 - bp - 50000)
    by (apply Z.div_lt_upper_bound; unfold two63, two64 in *; nia).
  destruct (Z.eqb_spec (1000000 - bp - 50000) 0); [lia|].
  destruct (Z.leb_spec (1000000 - bp - 50000) (escrow * 1000000 / two64)); [lia|].
  cbn [rbind]. rewrite (Z.mul_comm _ two64), <- Z_div_mod_eq_full. fold price.
  by rewrite !mulDivPPM_ok by lia.
Qed.

(** * Properties *)

(** Splitting any 64-bit customer price never panics in [bits.Div64] and loses nothing:
    burn, platform and escrow sum to the price; each leg is the floor of the price times its
    rate, the two legs together are at most 15% of the price; what the payer is debited in HMC
    (escrow plus the HMC fee) is the whole price when the fee is paid in HMC and the escrow
    alone when it is paid in SUP, whose fee is the sum of the two legs. *)
Theorem order_fee_split_exact `{ChainParams} tip price asset :
  0 ≤ tip → tip + 1 < two64 → 0 ≤ price < two64 →
  asset = FeeAssetHMC ∨ asset = FeeAssetSUP →
  let '(bp, pp) := orderFeeV2Rates tip in
  ∃ f escrow, OrderFeeV2FromPrice tip price asset = Ok (f, escrow) ∧
    Asset f = asset ∧
    BurnUnits f = price * bp / 1000000 ∧ PlatformUnits f = price * pp / 1000000 ∧
    BurnUnits f + PlatformUnits f + escrow = price ∧ 0 ≤ escrow ∧
    20 * (BurnUnits f + PlatformUnits f) ≤ 3 * price ∧
    (asset = FeeAssetHMC → escrow + HMCUnits f = price ∧ SUPUnits f = 0) ∧
    (asset = FeeAssetSUP → HMCUnits f = 0 ∧ SUPUnits f = price - escrow).
Proof.
  intros Ht Hb Hp Has. pose proof (OrderFeeV2FromPrice_eq tip price asset Ht Hb Hp) as E.
  pose proof (orderFeeV2Rates_range tip Ht Hb) as Hr.
  destruct (orderFeeV2Rates tip) as [bp pp]. eexists _, _. split; [exact E|]. clear E.
  unfold newOrderFeeV2, HMCUnits. cbn [Asset BurnUnits PlatformUnits SUPUnits].
  set (b := price * bp / 1000000). set (p := price * pp / 1000000).
  assert (0 ≤ b) by (apply Z.div_pos; nia). assert (0 ≤ p) by (apply Z.div_pos; nia).
  assert (20 * (b + p) ≤ 3 * price)
    by (subst b p; Z.to_euclidean_division_equations; nia).
  unfold SUPFeeRateToHMCFee. rewrite Z.mul_1_r, !u64_small by (try apply u64_range; lia).
  repeat split; try lia; subst asset; try done; cbn; lia.
Qed.

Lemma order_fee_split_exact_witness :
  let P := params_of empty_env 0 in
  ∃ f escrow, OrderFeeV2FromPrice 600000 1234567 FeeAssetHMC = Ok (f, escrow) ∧
    BurnUnits f + PlatformUnits f + escrow = 1234567.
Proof.
  pose proof (order_fee_split_exact (H := params_of empty_env 0) 600000 1234567 FeeAssetHMC
    ltac:(lia) ltac:(unfold two64; lia) ltac:(unfold two64; lia) ltac:(auto)) as E.
  destruct (@orderFeeV2Rates (params_of empty_env 0) 600000).
  destruct E as (f & escrow & E & _ & _ & _ & Es & _). exists f, escrow. split; [exact E|exact Es].
Defined.

(** Pricing a fixed escrow is the inverse of splitting a price: the quote never panics for
    escrows below 2^63 units, both routes charge the same fee legs for the quoted price, and
    opening an order at that price funds the requested escrow, with at most one unit of
    rounding over and never under. *)
Theorem order_fee_escrow_roundtrip `{ChainParams} tip escrow asset :
  0 ≤ tip → tip + 1 < two64 → 0 ≤ escrow < two63 →
  let '(bp, pp) := orderFeeV2Rates tip in
  let price := escrow * 1000000 / (1000000 - bp - pp) in
  ∃ f escrow', OrderFeeV2ForEscrow tip escrow asset = Ok f ∧
    OrderFeeV2FromPrice tip price asset = Ok (f, escrow') ∧
    escrow ≤ escrow' ≤ escrow + 1.
Proof.
  intros Ht Hb He. pose proof (orderFeeV2Rates_range tip Ht Hb) as Hr.
  pose proof (OrderFeeV2ForEscrow_eq tip escrow asset Ht Hb He) as F.
  pose proof (OrderFeeV2FromPrice_eq tip) as E.
  destruct (orderFeeV2Rates tip) as [bp pp]. destruct Hr as [Hbp ->]. destruct F as [F Hp]. cbv zeta.
  eexists _, _. split; [exact F|]. split; [by apply E|].
  clear -Hbp He. Z.to_euclidean_division_equations; nia.
Qed.

Lemma order_fee_escrow_roundtrip_witness :
  let P := params_of empty_env 0 in
  ∃ f, OrderFeeV2ForEscrow 600000 1234567 FeeAssetHMC = Ok f.
Proof.
  pose proof (order_fee_escrow_roundtrip (H := params_of empty_env 0) 600000 1234567 FeeAssetHMC
    ltac:(lia) ltac:(unfold two64; lia) ltac:(unfold two63; lia)) as E.
  destruct (@orderFeeV2Rates (params_of empty_env 0) 600000).
  destruct E as (f & escrow & E & _). exists f. exact E.
Defined.
