(* ===== verification/Retarget.v ===== *)
(** Difficulty: the PoH modulus [M], its legacy retarget rules, the ASERT schedule, and the
    work values a nonce is judged by.

    Sources: internal/chain/retarget.go, asert.go, poh_blake3.go, taskprovider.go (task kinds). *)
From S2P Require Import Prelude Float64 GoText Params.
From Stdlib Require Import QArith Lqa.
#[local] Open Scope Z_scope.

(** * Constants *)

Definition DefaultPoHTargetMod : Z := 1000000.
Definition PoHRetargetTargetSec : Z := 30.
Definition PoHRetargetWindowBlocks : Z := 5.
Definition PoHTargetMinMod : Z := 251.
Definition PoHTargetMaxMod : Z := 10000000000000.
Definition poHRetargetMaxStepUp : f64 := f_of_Z 4.
Definition poHRetargetMaxStepDown : f64 := lit 1 4.
Definition poHRetargetMicroMaxStepUp : f64 := lit 135 100.
Definition poHRetargetMicroMaxStepDown : f64 := lit 100 135.
Definition PoHFormulaV2ActivationHeight : Z := 2102400.

(** * Work profiles *)

Inductive TaskKind := TaskKindSyntheticPoH | TaskKindSyntheticPoHV2 | TaskKindSyntheticPoHV3.

Definition ActivePoHTaskKindForIndex `{ChainParams} (index : Z) : TaskKind :=
  if v3_height <=? index then TaskKindSyntheticPoHV3
  else if PoHFormulaV2ActivationHeight <=? index then TaskKindSyntheticPoHV2
  else TaskKindSyntheticPoH.

Definition PoHFormulaVersionForIndex `{ChainParams} (index : Z) : Z :=
  match ActivePoHTaskKindForIndex index with
  | TaskKindSyntheticPoHV3 => 3 | TaskKindSyntheticPoHV2 => 2 | TaskKindSyntheticPoH => 1
  end.

Definition PoHFormulaLabelForKind (kind : TaskKind) : string :=
  match kind with
  | TaskKindSyntheticPoHV3 => "blake3_v3(prev||miner||nonce_le)%M==0"
  | TaskKindSyntheticPoHV2 => "eval_v2(n)=mix64(11n+17)"
  | TaskKindSyntheticPoH => "eval_v1(n)=n*7+13"
  end.

Definition PohEval (n : Z) : Z := u64 (u64 (n * 7) + 13).

Definition PohEvalV2 (n : Z) : Z :=
  let x := u64 (u64 (n * 11) + 17) in
  let x := Z.lxor x (Z.shiftr x 23) in
  let x := u64 (x * 11400714785074694791) in
  let x := Z.lxor x (Z.shiftr x 29) in
  u64 (x + 2135587861).

Definition PohEvalByKind (kind : TaskKind) (n : Z) : Z :=
  match kind with
  | TaskKindSyntheticPoHV2 => PohEvalV2 n
  | TaskKindSyntheticPoHV3 => 0
  | TaskKindSyntheticPoH => PohEval n
  end.

Definition PohEvalForIndex `{ChainParams} (index n : Z) : Z :=
  PohEvalByKind (ActivePoHTaskKindForIndex index) n.

(** ** Blake3 work (the hash is a third-party module: a parameter, with its digest length) *)
Class PoHHash := {
  blake3_sum256 : string → string;
  blake3_sum256_length : ∀ m, String.length (blake3_sum256 m) = 32%nat;
}.

(** Little-endian bytes of an unsigned integer, and back. *)
Fixpoint le_bytes (n : nat) (z : Z) : string :=
  match n with
  | O => EmptyString
  | S n' => String (ascii_of_nat (Z.to_nat (z mod 256))) (le_bytes n' (z / 256))
  end.
Fixpoint le_value (n : nat) (s : string) : Z :=
  match n, s with
  | S n', String c s' => Z.of_nat (nat_of_ascii c) + 256 * le_value n' s'
  | _, _ => 0
  end.

Definition pohBlake3Message (prevHashHex minerAddress : string) (nonce : Z) : string :=
  to_lower (trim_space prevHashHex) +:+ trim_space minerAddress +:+ le_bytes 8 nonce.

Definition PohWorkBlake3 `{PoHHash} (prevHashHex minerAddress : string) (nonce : Z) : Z :=
  le_value 8 (blake3_sum256 (pohBlake3Message prevHashHex minerAddress nonce)).

Definition PohWorkForIndex `{ChainParams} `{PoHHash} (index nonce : Z) (prevHashHex minerAddress : string) : Z :=
  match ActivePoHTaskKindForIndex index with
  | TaskKindSyntheticPoHV3 => PohWorkBlake3 prevHashHex minerAddress nonce
  | _ => PohEvalForIndex index nonce
  end.

(** * Bounds *)

Definition ClampPoHTargetModBounds (p : Z) : Z :=
  if p <? PoHTargetMinMod then PoHTargetMinMod
  else if PoHTargetMaxMod <? p then PoHTargetMaxMod
  else p.

Definition IsPoHTargetModAtCap (m : Z) : bool := PoHTargetMaxMod <=? ClampPoHTargetModBounds m.

Definition sanitizePoHTargetMod7n13 (m : Z) : Z :=
  if negb (m mod 7 =? 0) then m
  else if m <? PoHTargetMaxMod then m + 1
  else if PoHTargetMinMod <? m then m - 1
  else PoHTargetMinMod.

Definition ClampPoHTargetMod (p : Z) : Z :=
  sanitizePoHTargetMod7n13 (ClampPoHTargetModBounds p).

(** * Legacy retarget (float64; every operand is finite and at least 1, so the source's NaN and
    infinity tests are false) *)

Definition retarget_by (up down : f64) (prevMod actualSec idealSec : Z) : Z :=
  let prevMod := if prevMod <? PoHTargetMinMod then PoHTargetMinMod else prevMod in
  let prevMod := if PoHTargetMaxMod <? prevMod then PoHTargetMaxMod else prevMod in
  let idealSec := if idealSec <? 1 then 1 else idealSec in
  let act := if actualSec <? 1 then f_of_Z 1 else f_of_Z actualSec in
  let ratio := f_div (f_of_Z idealSec) act in
  let ratio := if f_ltb up ratio then up else ratio in
  let ratio := if f_ltb ratio down then down else ratio in
  let nextF := f_mul (f_of_Z prevMod) ratio in
  if f_leb (f_of_Z PoHTargetMaxMod) nextF then PoHTargetMaxMod
  else if f_leb nextF (f_of_Z PoHTargetMinMod) then PoHTargetMinMod
  else f_trunc (f_add nextF (lit 1 2)).

Definition RetargetWindow : Z → Z → Z → Z :=
  retarget_by poHRetargetMaxStepUp poHRetargetMaxStepDown.
Definition RetargetMicroStep : Z → Z → Z → Z :=
  retarget_by poHRetargetMicroMaxStepUp poHRetargetMicroMaxStepDown.

(** * ASERT *)

Definition PoHASERTTargetSec : Z := 30.
Definition PoHASERTHalfLifeSec : Z := 3600.
Definition PoHASERTAnchorMod : Z := 17500000.
Definition PoHASERTMaxFutureSec : Z := 120.
Definition asertRadixBits : Z := 16.
Definition asertRadix : Z := Z.shiftl 1 asertRadixBits.

Definition floorDiv (a b : Z) : Z :=
  let q := Z.quot a b in
  if negb (Z.rem a b =? 0) && negb (Bool.eqb (a <? 0) (b <? 0)) then i64 (q - 1) else q.

Definition asertPow2Frac (f : Z) : Z :=
  let f2 := f * f in
  let f3 := f2 * f in
  let acc := 195766423245049 * f + 971821376 * f2 + 5127 * f3 + Z.shiftl 1 47 in
  Z.shiftr acc 48 + asertRadix.

Definition ASERTTargetMod (anchorMod anchorHeight anchorTime parentHeight parentTime : Z) : Z :=
  let anchorMod := if anchorMod =? 0 then PoHASERTAnchorMod else anchorMod in
  let parentHeight := if parentHeight <? anchorHeight then anchorHeight else parentHeight in
  let dh := i64 (parentHeight - anchorHeight) in
  let dt := i64 (parentTime - anchorTime) in
  let num := i64 (i64 (PoHASERTTargetSec * dh) - dt) in
  let exp := floorDiv (i64 (num * asertRadix)) PoHASERTHalfLifeSec in
  let shifts := Z.shiftr exp asertRadixBits in
  let frac := Z.land exp (asertRadix - 1) in
  if 80 <? shifts then ClampPoHTargetMod PoHTargetMaxMod
  else if shifts <? -80 then ClampPoHTargetMod PoHTargetMinMod
  else
    let m := anchorMod * asertPow2Frac frac in
    let m := if 0 <=? shifts then Z.shiftl m shifts else Z.shiftr m (- shifts) in
    let m := Z.shiftr m asertRadixBits in
    if negb (is_u64 m) || (PoHTargetMaxMod <? m) then ClampPoHTargetMod PoHTargetMaxMod
    else ClampPoHTargetMod m.

(** * Facts *)

Lemma ClampPoHTargetModBounds_range p :
  PoHTargetMinMod ≤ ClampPoHTargetModBounds p ≤ PoHTargetMaxMod.
Proof. unfold ClampPoHTargetModBounds, PoHTargetMinMod, PoHTargetMaxMod. repeat case_match; b2p; lia. Qed.

Lemma ClampPoHTargetModBounds_mono p q :
  p ≤ q → ClampPoHTargetModBounds p ≤ ClampPoHTargetModBounds q.
Proof. unfold ClampPoHTargetModBounds, PoHTargetMinMod, PoHTargetMaxMod. repeat case_match; b2p; lia. Qed.

(** Within the bounds the 7n+13 nudge is "one up when divisible by 7": the cap is not. *)
Lemma sanitize_eq m : PoHTargetMinMod ≤ m ≤ PoHTargetMaxMod →
  sanitizePoHTargetMod7n13 m = (if m mod 7 =? 0 then m + 1 else m).
Proof.
  intros H. unfold sanitizePoHTargetMod7n13. destruct (Z.eqb_spec (m mod 7) 0) as [E|]; cbn [negb]; [|done].
  destruct (Z.ltb_spec m PoHTargetMaxMod); [done|].
  assert (m = PoHTargetMaxMod) as -> by lia. discriminate E.
Qed.

Lemma sanitize_range m : PoHTargetMinMod ≤ m ≤ PoHTargetMaxMod →
  let r := sanitizePoHTargetMod7n13 m in
  PoHTargetMinMod ≤ r ≤ PoHTargetMaxMod ∧ r mod 7 ≠ 0 ∧ m ≤ r ≤ m + 1.
Proof.
  intros H. cbv zeta. rewrite sanitize_eq by done. destruct (Z.eqb_spec (m mod 7) 0) as [E|]; [|lia].
  assert (m ≠ PoHTargetMaxMod) by (intros ->; discriminate E).
  split; [lia|]. split; [|lia]. rewrite <- Zplus_mod_idemp_l, E. done.
Qed.

Lemma ClampPoHTargetMod_range p :
  PoHTargetMinMod ≤ ClampPoHTargetMod p ≤ PoHTargetMaxMod ∧ ClampPoHTargetMod p mod 7 ≠ 0.
Proof.
  unfold ClampPoHTargetMod. pose proof (sanitize_range _ (ClampPoHTargetModBounds_range p)) as H.
  cbv zeta in H. tauto.
Qed.

Lemma ClampPoHTargetMod_mono p q : p ≤ q → ClampPoHTargetMod p ≤ ClampPoHTargetMod q.
Proof.
  intros Hpq. unfold ClampPoHTargetMod. pose proof (ClampPoHTargetModBounds_mono p q Hpq) as Hm.
  pose proof (ClampPoHTargetModBounds_range p) as Hp. pose proof (ClampPoHTargetModBounds_range q) as Hq.
  rewrite !sanitize_eq by done.
  set (a := ClampPoHTargetModBounds p) in *. set (b := ClampPoHTargetModBounds q) in *. clearbody a b.
  destruct (Z.eqb_spec (a mod 7) 0) as [E|], (Z.eqb_spec (b mod 7) 0); try lia.
  assert (a ≠ b) by congruence. lia.
Qed.

Lemma ClampPoHTargetMod_id p : PoHTargetMinMod ≤ p ≤ PoHTargetMaxMod →
  p ≤ ClampPoHTargetMod p ≤ p + 1.
Proof.
  intros H. unfold ClampPoHTargetMod.
  assert (ClampPoHTargetModBounds p = p) as ->
    by (unfold ClampPoHTargetModBounds; repeat case_match; b2p; lia).
  pose proof (sanitize_range p H). cbv zeta in *. lia.
Qed.

Lemma floorDiv_div a b : - two63 < a < two63 → 0 < b → floorDiv a b = a / b.
Proof.
  intros Ha Hb. unfold floorDiv.
  destruct (Z.ltb_spec b 0); [lia|].
  pose proof (Z.quot_rem' a b) as Q. pose proof (Z.rem_bound_abs a b ltac:(lia)) as R.
  destruct (Z.ltb_spec a 0), (Z.eqb_spec (Z.rem a b) 0) as [E|E]; cbn [negb andb Bool.eqb].
  - rewrite E in Q. apply (Z.div_unique _ _ _ 0); lia.
  - pose proof (Z.rem_nonpos a b ltac:(lia) ltac:(lia)).
    rewrite i64_small; [apply (Z.div_unique _ _ _ (Z.rem a b + b)); lia|].
    unfold two63 in *. nia.
  - rewrite E in Q. apply (Z.div_unique _ _ _ 0); lia.
  - pose proof (Z.rem_nonneg a b ltac:(lia) ltac:(lia)).
    apply (Z.div_unique _ _ _ (Z.rem a b)); lia.
Qed.

Lemma asertPow2Frac_mono f g : 0 ≤ f ≤ g → asertPow2Frac f ≤ asertPow2Frac g.
Proof.
  intros H. unfold asertPow2Frac. rewrite !Z.shiftr_div_pow2 by done.
  apply Z.add_le_mono_r, Z.div_le_mono; [done|].
  assert (f * f ≤ g * g) by nia. assert (0 ≤ f * f) by nia.
  assert (f * f * f ≤ g * g * g) by nia. lia.
Qed.

Lemma asertPow2Frac_range f : 0 ≤ f < 65536 → 65536 ≤ asertPow2Frac f ≤ 131071.
Proof.
  intros H. pose proof (asertPow2Frac_mono 0 f ltac:(lia)) as L.
  pose proof (asertPow2Frac_mono f 65535 ltac:(lia)) as U.
  change (asertPow2Frac 0) with 65536 in L.
  assert (asertPow2Frac 65535 = 131071) as E by (vm_compute; reflexivity). lia.
Qed.

(** ** The schedule as one rational factor

    [asert_factor e / 2^96] is the fixed-point [2^(e / 65536)], for exponents of at least -80. *)
Definition asert_factor (e : Z) : Z := asertPow2Frac (e mod 65536) * 2 ^ (e / 65536 + 80).

(** The exponent the source computes, without the machine wrap-around. *)
Definition asert_exp (anchorHeight anchorTime parentHeight parentTime : Z) : Z :=
  (30 * (parentHeight - anchorHeight) - (parentTime - anchorTime)) * 65536 / 3600.

(** [M] as a function of the exponent. *)
Definition asert_at (anchorMod e : Z) : Z :=
  if 80 <? e / 65536 then ClampPoHTargetMod PoHTargetMaxMod
  else if e / 65536 <? -80 then ClampPoHTargetMod PoHTargetMinMod
  else ClampPoHTargetMod (anchorMod * asert_factor e / 2 ^ 96).

(** Inputs for which no [int64] of the computation wraps. *)
Definition asert_in_range (anchorHeight anchorTime parentHeight parentTime : Z) : Prop :=
  0 ≤ anchorHeight ≤ parentHeight ∧ 30 * (parentHeight - anchorHeight) < 2 ^ 46 ∧
  - 2 ^ 46 < parentTime - anchorTime < 2 ^ 46.

Lemma ClampPoHTargetMod_over m : PoHTargetMaxMod < m →
  ClampPoHTargetMod m = ClampPoHTargetMod PoHTargetMaxMod.
Proof.
  intros H. unfold ClampPoHTargetMod, ClampPoHTargetModBounds.
  destruct (Z.ltb_spec m PoHTargetMinMod); [unfold PoHTargetMinMod, PoHTargetMaxMod in *; lia|].
  destruct (Z.ltb_spec PoHTargetMaxMod m); [done|lia].
Qed.

Lemma asert_shift m s : 0 ≤ m → -80 ≤ s ≤ 80 →
  Z.shiftr (if 0 <=? s then Z.shiftl m s else Z.shiftr m (- s)) 16 = m * 2 ^ (s + 80) / 2 ^ 96.
Proof.
  intros Hm Hs. destruct (Z.leb_spec 0 s).
  - rewrite Z.shiftl_mul_pow2, Z.shiftr_div_pow2 by lia.
    rewrite (Z.pow_add_r 2 s 80) by lia. change (2 ^ 96) with (2 ^ 16 * 2 ^ 80).
    rewrite Z.mul_assoc, Z.div_mul_cancel_r; done.
  - rewrite !Z.shiftr_div_pow2 by lia. rewrite Z.div_div by (first [lia|apply Z.pow_nonzero; lia]).
    replace (2 ^ 96) with (2 ^ (- s) * 2 ^ 16 * 2 ^ (s + 80))
      by (rewrite <- !Z.pow_add_r by lia; f_equal; lia).
    pose proof (Z.pow_pos_nonneg 2 (- s) ltac:(done) ltac:(lia)).
    pose proof (Z.pow_pos_nonneg 2 (s + 80) ltac:(done) ltac:(lia)).
    rewrite Z.div_mul_cancel_r; [done|lia|lia].
Qed.

Lemma ASERTTargetMod_at a ah at_ ph pt : 0 < a → asert_in_range ah at_ ph pt →
  ASERTTargetMod a ah at_ ph pt = asert_at a (asert_exp ah at_ ph pt).
Proof.
  intros Ha (Hh & Hd & Ht). unfold ASERTTargetMod.
  destruct (Z.eqb_spec a 0); [lia|]. destruct (Z.ltb_spec ph ah); [lia|].
  unfold PoHASERTTargetSec, PoHASERTHalfLifeSec.
  rewrite (i64_small (ph - ah)), (i64_small (pt - at_)), (i64_small (30 * (ph - ah)))
    by (unfold two63 in *; lia).
  rewrite (i64_small (30 * (ph - ah) - (pt - at_))) by (unfold two63 in *; lia).
  change asertRadix with 65536. change asertRadixBits with 16.
  rewrite i64_small by (unfold two63 in *; lia).
  rewrite floorDiv_div by (unfold two63 in *; lia). fold (asert_exp ah at_ ph pt).
  generalize (asert_exp ah at_ ph pt). intros e. cbv zeta.
  rewrite Z.shiftr_div_pow2 by done. change (65536 - 1) with (Z.ones 16).
  rewrite Z.land_ones by done. change (2 ^ 16) with 65536.
  unfold asert_at, asert_factor. destruct (Z.ltb_spec 80 (e / 65536)); [done|].
  destruct (Z.ltb_spec (e / 65536) (-80)); [done|].
  pose proof (asertPow2Frac_range (e mod 65536) ltac:(apply Z.mod_pos_bound; done)).
  rewrite asert_shift, Z.mul_assoc by nia.
  set (m := a * asertPow2Frac (e mod 65536) * 2 ^ (e / 65536 + 80) / 2 ^ 96).
  assert (0 ≤ m) by (unfold m; apply Z.div_pos; [|done];
    pose proof (Z.pow_pos_nonneg 2 (e / 65536 + 80)); nia).
  destruct (Z.ltb_spec PoHTargetMaxMod m).
  - rewrite orb_true_r. symmetry. by apply ClampPoHTargetMod_over.
  - unfold is_u64. destruct (Z.leb_spec 0 m); [|lia].
    destruct (Z.ltb_spec m two64); [done|]. unfold two64, PoHTargetMaxMod in *. lia.
Qed.

Lemma asert_factor_mono e e' : -80 ≤ e / 65536 → e ≤ e' → asert_factor e ≤ asert_factor e'.
Proof.
  intros Hs He. unfold asert_factor.
  pose proof (Z.div_le_mono e e' 65536 ltac:(done) He) as Hq.
  pose proof (Z.mod_pos_bound e 65536 ltac:(done)). pose proof (Z.mod_pos_bound e' 65536 ltac:(done)).
  pose proof (Z.div_mod e 65536 ltac:(done)). pose proof (Z.div_mod e' 65536 ltac:(done)).
  pose proof (Z.pow_pos_nonneg 2 (e / 65536 + 80) ltac:(done) ltac:(lia)).
  destruct (Z.eq_dec (e / 65536) (e' / 65536)) as [E|E].
  - rewrite <- E. apply Z.mul_le_mono_nonneg_r; [lia|]. apply asertPow2Frac_mono. lia.
  - replace (e' / 65536 + 80) with (e / 65536 + 80 + 1 + (e' / 65536 - e / 65536 - 1)) by lia.
    rewrite (Z.pow_add_r 2 (e / 65536 + 80 + 1)), (Z.pow_add_r 2 (e / 65536 + 80) 1) by lia.
    pose proof (Z.pow_pos_nonneg 2 (e' / 65536 - e / 65536 - 1) ltac:(done) ltac:(lia)).
    pose proof (asertPow2Frac_range (e mod 65536) ltac:(done)).
    pose proof (asertPow2Frac_range (e' mod 65536) ltac:(done)).
    change (2 ^ 1) with 2. transitivity (65536 * (2 ^ (e / 65536 + 80) * 2 * 1)); [nia|].
    apply Z.mul_le_mono_nonneg; [lia|lia|lia|]. apply Z.mul_le_mono_nonneg_l; lia.
Qed.

Lemma asert_at_mono a e e' : 0 < a → e ≤ e' → asert_at a e ≤ asert_at a e'.
Proof.
  intros Ha He. pose proof (Z.div_le_mono e e' 65536 ltac:(done) He) as Hq. unfold asert_at.
  assert (Hmax : ∀ m, ClampPoHTargetMod m ≤ ClampPoHTargetMod PoHTargetMaxMod).
  { intros m. change (ClampPoHTargetMod PoHTargetMaxMod) with PoHTargetMaxMod.
    apply ClampPoHTargetMod_range. }
  assert (Hmin : ∀ m, ClampPoHTargetMod PoHTargetMinMod ≤ ClampPoHTargetMod m).
  { intros m. change (ClampPoHTargetMod PoHTargetMinMod) with PoHTargetMinMod.
    apply ClampPoHTargetMod_range. }
  repeat (case_match; b2p); try lia; auto.
  apply ClampPoHTargetMod_mono, Z.div_le_mono; [done|].
  apply Z.mul_le_mono_nonneg_l; [lia|]. apply asert_factor_mono; lia.
Qed.

Lemma asert_exp_halflife ah at_ ph pt :
  asert_exp ah at_ ph (pt - PoHASERTHalfLifeSec) = asert_exp ah at_ ph pt + 65536.
Proof.
  unfold asert_exp, PoHASERTHalfLifeSec. rewrite <- Z.div_add by done. f_equal. lia.
Qed.

Lemma asert_factor_double e : -80 ≤ e / 65536 → asert_factor (e + 65536) = 2 * asert_factor e.
Proof.
  intros H. unfold asert_factor. change (e + 65536) with (e + 1 * 65536).
  rewrite Z_mod_plus_full, Z.div_add by done.
  replace (e / 65536 + 1 + 80) with (e / 65536 + 80 + 1) by lia.
  rewrite Z.pow_add_r by lia. lia.
Qed.

Lemma asert_at_range a e :
  PoHTargetMinMod ≤ asert_at a e ≤ PoHTargetMaxMod ∧ asert_at a e mod 7 ≠ 0.
Proof. unfold asert_at. repeat case_match; apply ClampPoHTargetMod_range. Qed.

(** * Properties *)

(** C32: ASERT difficulty is well formed and follows the schedule lead. For every chain whose
    times fit the 64-bit arithmetic, the next modulus lies in [251, 10^13], is never a multiple
    of 7 (so algebraic PoH stays solvable), and a parent that is further ahead of schedule
    - earlier in time or higher - never gets an easier target; on schedule it is the anchor
    modulus up to the 7n+13 nudge. *)
Theorem asert_monotone a ah at_ ph pt ph' pt' :
  0 < a → asert_in_range ah at_ ph pt → asert_in_range ah at_ ph' pt' →
  let M := ASERTTargetMod a ah at_ ph pt in
  let M' := ASERTTargetMod a ah at_ ph' pt' in
  (PoHTargetMinMod ≤ M ≤ PoHTargetMaxMod ∧ M mod 7 ≠ 0) ∧
  (30 * (ph - ah) - pt ≤ 30 * (ph' - ah) - pt' → M ≤ M') ∧
  (pt = at_ + PoHASERTTargetSec * (ph - ah) → M = ClampPoHTargetMod a).
Proof.
  intros Ha H H' M M'. unfold M, M'. rewrite !ASERTTargetMod_at by done.
  split; [apply asert_at_range|]. split.
  - intros Hl. apply asert_at_mono; [done|]. unfold asert_exp. apply Z.div_le_mono; lia.
  - intros ->. unfold asert_exp, PoHASERTTargetSec.
    replace ((30 * (ph - ah) - (at_ + 30 * (ph - ah) - at_)) * 65536 / 3600) with 0
      by (apply (Z.div_unique _ _ _ 0); lia).
    unfold asert_at. cbn -[Z.pow ClampPoHTargetMod Z.div asert_factor].
    change (asert_factor 0) with (2 ^ 96). rewrite Z.div_mul by done. done.
Qed.

Lemma asert_monotone_witness :
  ASERTTargetMod PoHASERTAnchorMod 495399 1000 495400 1030 = 17500001 ∧
  ASERTTargetMod PoHASERTAnchorMod 495399 1000 495400 1030
    ≤ ASERTTargetMod PoHASERTAnchorMod 495399 1000 495401 1040.
Proof.
  pose proof (asert_monotone PoHASERTAnchorMod 495399 1000 495400 1030 495401 1040
    ltac:(vm_compute; reflexivity) ltac:(unfold asert_in_range; lia)
    ltac:(unfold asert_in_range; lia)) as (_ & L & E).
  split; [exact (E ltac:(vm_compute; reflexivity))|exact (L ltac:(lia))].
Defined.

(** Half-life: a parent one half-life (3600 s) earlier doubles the modulus, exactly up to
    the integer truncation and the two 7n+13 nudges (at most 2 units), wherever the bounds do
    not bind. *)
Theorem asert_half_life a ah at_ ph pt :
  0 < a → asert_in_range ah at_ ph pt →
  asert_in_range ah at_ ph (pt - PoHASERTHalfLifeSec) →
  let M := ASERTTargetMod a ah at_ ph pt in
  let M' := ASERTTargetMod a ah at_ ph (pt - PoHASERTHalfLifeSec) in
  PoHTargetMinMod < M → M' < PoHTargetMaxMod →
  2 * M - 2 ≤ M' ≤ 2 * M + 2.
Proof.
  intros Ha H H' M M'. unfold M, M'. rewrite !ASERTTargetMod_at by done.
  rewrite asert_exp_halflife. generalize (asert_exp ah at_ ph pt). intros e. clear M M' H H'.
  unfold asert_at. change (e + 65536) with (e + 1 * 65536). rewrite Z.div_add by done.
  destruct (Z.ltb_spec 80 (e / 65536 + 1)); [intros _ ?; exfalso; revert H0; vm_compute; discriminate|].
  destruct (Z.ltb_spec (e / 65536) (-80)).
  { destruct (Z.ltb_spec 80 (e / 65536)); [lia|]. intros Hc. exfalso. revert Hc. vm_compute. discriminate. }
  destruct (Z.ltb_spec 80 (e / 65536)); [lia|]. destruct (Z.ltb_spec (e / 65536 + 1) (-80)); [lia|].
  change (1 * 65536) with 65536. rewrite asert_factor_double by lia.
  replace (a * (2 * asert_factor e)) with (2 * (a * asert_factor e)) by lia.
  set (x := a * asert_factor e). clearbody x.
  assert (D : 2 * (x / 2 ^ 96) ≤ 2 * x / 2 ^ 96 ≤ 2 * (x / 2 ^ 96) + 1)
    by (Z.to_euclidean_division_equations; lia).
  set (v := x / 2 ^ 96) in *. set (v' := 2 * x / 2 ^ 96) in *. clearbody v v'. intros Hm Hm'.
  assert (v' ≤ PoHTargetMaxMod).
  { destruct (Z.le_gt_cases v' PoHTargetMaxMod); [done|].
    rewrite ClampPoHTargetMod_over in Hm' by lia. by vm_compute in Hm'. }
  assert (PoHTargetMinMod ≤ v).
  { destruct (Z.le_gt_cases PoHTargetMinMod v); [done|].
    unfold ClampPoHTargetMod, ClampPoHTargetModBounds in Hm.
    rewrite (proj2 (Z.ltb_lt v _)) in Hm by done. by vm_compute in Hm. }
  pose proof (ClampPoHTargetMod_id v ltac:(unfold PoHTargetMinMod in *; lia)).
  pose proof (ClampPoHTargetMod_id v' ltac:(unfold PoHTargetMinMod in *; lia)). lia.
Qed.

Lemma asert_half_life_witness :
  2 * 17547265 - 2 ≤ ASERTTargetMod PoHASERTAnchorMod 496999 1793200000 497000 (1793200016 - 3600).
Proof.
  pose proof (asert_half_life PoHASERTAnchorMod 496999 1793200000 497000 1793200016
    ltac:(vm_compute; reflexivity) ltac:(unfold asert_in_range; lia)
    ltac:(unfold asert_in_range, PoHASERTHalfLifeSec; lia)
    ltac:(vm_compute; reflexivity) ltac:(vm_compute; reflexivity)) as [L _]. exact L.
Defined.

(** The consensus vectors of the source's own test suite. *)
Example asert_consensus_vectors :
  map (λ '(h, t), ASERTTargetMod PoHASERTAnchorMod 496999 1793200000 h t)
    [(496999, 1793200000); (497000, 1793200016); (497100, 1793202000);
     (499879, 1793290000); (497001, 1793209999)]
  = [17500001; 17547265; 21338539; 8750001; 2582035].
Proof. vm_compute. reflexivity. Qed.

(** ** The legacy step *)

Section retarget_by.
Context (up down : f64).
Context (up_pos : 0 ≤ mant up) (down_pos : 0 ≤ mant down).
Context (up_range : (1 <= toQ up <= 4)%Q) (down_range : (0 <= toQ down <= 1)%Q).

(** The clamped ratio [ideal/actual] lies between the two step limits. *)
Lemma ratio_clamp r : 0 ≤ mant r →
  let r1 := if f_ltb up r then up else r in
  let r2 := if f_ltb r1 down then down else r1 in
  0 ≤ mant r2 ∧ (toQ down <= toQ r2 <= toQ up)%Q.
Proof using All.
  intros Hr r1 r2.
  assert (H1 : 0 ≤ mant r1 ∧ (toQ r1 <= toQ up)%Q).
  { unfold r1. destruct (f_ltb up r) eqn:E; [split; [done|lra]|].
    apply f_ltb_false in E. done. }
  unfold r2. destruct (f_ltb r1 down) eqn:E.
  - split; [done|]. lra.
  - apply f_ltb_false in E. destruct H1. split; [done|]. lra.
Qed.

Lemma retarget_by_step m act ideal : PoHTargetMinMod ≤ m ≤ PoHTargetMaxMod →
  let r := retarget_by up down m act ideal in
  PoHTargetMinMod ≤ r ≤ PoHTargetMaxMod ∧
  (toQ down * inject_Z m - (51 # 100) <= inject_Z r <= toQ up * inject_Z m + (51 # 100))%Q.
Proof using All.
  intros Hm. unfold retarget_by.
  destruct (Z.ltb_spec m PoHTargetMinMod); [lia|]. destruct (Z.ltb_spec PoHTargetMaxMod m); [lia|].
  set (i := if ideal <? 1 then 1 else ideal).
  set (a := if act <? 1 then f_of_Z 1 else f_of_Z act).
  assert (Hi : 0 < mant (f_of_Z i)).
  { unfold i. case_match; b2p; [done|]. apply mant_of_Z_pos. lia. }
  assert (Ha : 0 < mant a).
  { unfold a. case_match; b2p; [done|]. apply mant_of_Z_pos. lia. }
  pose proof (ratio_clamp _ (mant_div _ _ Hi Ha)) as Hr. cbv zeta in Hr |- *.
  revert Hr. generalize (if f_ltb (if f_ltb up (f_div (f_of_Z i) a) then up else f_div (f_of_Z i) a) down
    then down else if f_ltb up (f_div (f_of_Z i) a) then up else f_div (f_of_Z i) a).
  intros ratio [Hr0 Hr]. unfold PoHTargetMinMod, PoHTargetMaxMod in *.
  pose proof (mant_of_Z m ltac:(lia)) as Hm0.
  pose proof (toQ_mul _ _ Hm0 Hr0) as Hn. pose proof (mant_mul _ _ Hm0 Hr0) as Hn0.
  rewrite !(toQ_of_Z_exact m) in Hn by lia.
  set (n := f_mul (f_of_Z m) ratio) in *. clearbody n.
  assert (HmQ : (251 <= inject_Z m <= 10000000000000)%Q).
  { change 251%Q with (inject_Z 251). change 10000000000000%Q with (inject_Z 10000000000000).
    rewrite <- !Zle_Qle. lia. }
  set (mq := inject_Z m) in *. clearbody mq.
  assert (L1 : (toQ down * mq <= mq * toQ ratio)%Q) by nra.
  assert (L2 : (mq * toQ ratio <= toQ up * mq)%Q) by nra.
  assert (L3 : (0 <= mq * toQ ratio <= 40000000000000)%Q) by nra.
  set (x := (mq * toQ ratio)%Q) in *. clearbody x. unfold ulp in Hn.
  assert (N : (x - (5 # 1000) <= toQ n <= x + (5 # 1000))%Q) by lra.
  assert (U : (mq <= toQ up * mq)%Q) by nra. assert (D : (toQ down * mq <= mq)%Q) by nra.
  destruct (f_leb (f_of_Z 10000000000000) n) eqn:E1.
  { apply f_leb_spec in E1. rewrite toQ_of_Z_exact in E1 by lia.
    split; [lia|]. change (inject_Z 10000000000000) with 10000000000000%Q in *. lra. }
  destruct (f_leb n (f_of_Z 251)) eqn:E2.
  { apply f_leb_spec in E2. rewrite toQ_of_Z_exact in E2 by lia.
    split; [lia|]. change (inject_Z 251) with 251%Q in *. lra. }
  apply f_leb_false in E1, E2. rewrite toQ_of_Z_exact in E1, E2 by lia.
  change (inject_Z 10000000000000) with 10000000000000%Q in *. change (inject_Z 251) with 251%Q in *.
  pose proof (toQ_add n (lit 1 2) Hn0 half_nonneg) as S. rewrite !f_half_value in S. unfold ulp in S.
  pose proof (mant_add n (lit 1 2) Hn0 half_nonneg) as S0.
  pose proof (f_trunc_spec _ S0) as [T1 T2]. split.
  - split; [apply f_trunc_ge|apply f_trunc_le]; try done;
      change (inject_Z 10000000000000) with 10000000000000%Q; change (inject_Z 251) with 251%Q; lra.
  - lra.
Qed.
End retarget_by.

Lemma Qlt_Zle a b : (inject_Z a < inject_Z b + 1)%Q → a ≤ b.
Proof.
  intros H. change 1%Q with (inject_Z 1) in H. rewrite <- inject_Z_plus, <- Zlt_Qlt in H. lia.
Qed.

Lemma micro_up_value : (0 <= mant poHRetargetMicroMaxStepUp)%Z ∧
  (toQ poHRetargetMicroMaxStepUp <= 1350000000000001 # 1000000000000000)%Q ∧ (1 <= toQ poHRetargetMicroMaxStepUp)%Q.
Proof. by vm_compute. Qed.
Lemma micro_down_value : (0 <= mant poHRetargetMicroMaxStepDown)%Z ∧
  (toQ poHRetargetMicroMaxStepDown <= 1)%Q ∧ (740740740740740 # 1000000000000000 <= toQ poHRetargetMicroMaxStepDown)%Q.
Proof. by vm_compute. Qed.

(** The legacy retarget rules never leave the difficulty bounds and never move the modulus by
    more than their published limits, whatever the (adversarial) block times are: a window
    changes [M] by at most a factor of 4 either way, a micro step by at most +-35%; the float64
    rounding costs at most two units. *)
Theorem retarget_step_bounds m actualSec idealSec :
  PoHTargetMinMod ≤ m ≤ PoHTargetMaxMod →
  let w := RetargetWindow m actualSec idealSec in
  let s := RetargetMicroStep m actualSec idealSec in
  PoHTargetMinMod ≤ w ≤ PoHTargetMaxMod ∧ m - 2 ≤ 4 * w ∧ w ≤ 4 * m ∧
  PoHTargetMinMod ≤ s ≤ PoHTargetMaxMod ∧
  1000 * m ≤ 1350 * s + 700 ∧ 1000 * s ≤ 1350 * m + 520.
Proof.
  intros Hm w s.
  pose proof (retarget_by_step poHRetargetMaxStepUp poHRetargetMaxStepDown
    ltac:(by vm_compute) ltac:(by vm_compute) ltac:(by vm_compute) ltac:(by vm_compute)
    m actualSec idealSec Hm) as [Hw [Lw Uw]].
  destruct micro_up_value as (Pu & Uu & Lu), micro_down_value as (Pd & Ud & Ld).
  pose proof (retarget_by_step poHRetargetMicroMaxStepUp poHRetargetMicroMaxStepDown
    Pu Pd ltac:(split; [done|lra]) ltac:(split; [lra|done]) m actualSec idealSec Hm) as [Hs [Ls Us]].
  fold (RetargetWindow m actualSec idealSec) in Hw, Lw, Uw. fold w in Hw, Lw, Uw.
  fold (RetargetMicroStep m actualSec idealSec) in Hs, Ls, Us. fold s in Hs, Ls, Us.
  assert (toQ poHRetargetMaxStepUp == 4)%Q as E1 by (by vm_compute).
  assert (toQ poHRetargetMaxStepDown == 1 # 4)%Q as E2 by (by vm_compute).
  rewrite E1 in Uw. rewrite E2 in Lw. clear E1 E2.
  assert (HmQ : (251 <= inject_Z m <= 10000000000000)%Q).
  { unfold PoHTargetMinMod, PoHTargetMaxMod in Hm.
    change 251%Q with (inject_Z 251). change 10000000000000%Q with (inject_Z 10000000000000).
    rewrite <- !Zle_Qle. lia. }
  assert (Up : (toQ poHRetargetMicroMaxStepUp * inject_Z m <= (1350000000000001 # 1000000000000000) * inject_Z m)%Q) by nra.
  assert (Dn : ((740740740740740 # 1000000000000000) * inject_Z m <= toQ poHRetargetMicroMaxStepDown * inject_Z m)%Q) by nra.
  clearbody w s. clear - Hw Hs Lw Uw Ls Us HmQ Up Dn. revert Up Dn Ls Us.
  generalize (toQ poHRetargetMicroMaxStepUp * inject_Z m)%Q, (toQ poHRetargetMicroMaxStepDown * inject_Z m)%Q.
  intros u d Up Dn Ls Us.
  split; [done|]. split; [|split; [|split; [done|split]]]; apply Qlt_Zle;
    rewrite ?inject_Z_plus, ?inject_Z_mult; unfold Z.sub; rewrite ?inject_Z_plus, ?inject_Z_mult;
    change (inject_Z (- (2))) with (- (2))%Q; change (inject_Z 4) with 4%Q;
    change (inject_Z 1000) with 1000%Q; change (inject_Z 1350) with 1350%Q;
    change (inject_Z 700) with 700%Q; change (inject_Z 520) with 520%Q; lra.
Qed.

Lemma retarget_step_bounds_witness :
  RetargetWindow 1000000 1 150 ≤ 4 * 1000000.
Proof.
  pose proof (retarget_step_bounds 1000000 1 150
    ltac:(unfold PoHTargetMinMod, PoHTargetMaxMod; lia)) as (_ & _ & L & _). exact L.
Defined.

(** ** Solvability of the algebraic profile *)

Lemma PohEval_small n : 0 ≤ n < 2 ^ 61 → PohEval n = 7 * n + 13.
Proof. intros H. unfold PohEval. rewrite (u64_small (n * 7)), u64_small; unfold two64; lia. Qed.

(** The 7n+13 nudge is what keeps algebraic PoH minable. Every clamped modulus has a
    solution among its first [M] nonces, while a modulus in bounds that is a multiple of 7 has
    none at all among the nonces whose product does not wrap. *)
Theorem v1_solvable p :
  (∃ n, 0 ≤ n < ClampPoHTargetMod p ∧ PohEval n mod ClampPoHTargetMod p = 0) ∧
  (∀ m n, 0 < m → m mod 7 = 0 → 0 ≤ n < 2 ^ 61 → PohEval n mod m ≠ 0).
Proof.
  split.
  - pose proof (ClampPoHTargetMod_range p) as [Hr H7]. set (M := ClampPoHTargetMod p) in *. clearbody M.
    unfold PoHTargetMinMod, PoHTargetMaxMod in Hr.
    assert (∃ u v, u * 7 + v * M = 1) as (u & v & Huv).
    { pose proof (Z.div_mod M 7 ltac:(done)). pose proof (Z.mod_pos_bound M 7 ltac:(done)).
      set (q := M / 7) in *.
      assert (M mod 7 = 1 ∨ M mod 7 = 2 ∨ M mod 7 = 3 ∨ M mod 7 = 4 ∨ M mod 7 = 5 ∨ M mod 7 = 6)
        as [E|[E|[E|[E|[E|E]]]]] by lia.
      - exists (- q), 1. lia.
      - exists (- (4 * q + 1)), 4. lia.
      - exists (- (5 * q + 2)), 5. lia.
      - exists (- (2 * q + 1)), 2. lia.
      - exists (- (3 * q + 2)), 3. lia.
      - exists (- (6 * q + 5)), 6. lia. }
    (* 7 u ≡ 1, so n = -13 u solves 7 n + 13 ≡ 0 *)
    exists ((- 13 * u) mod M). pose proof (Z.mod_pos_bound (- 13 * u) M ltac:(lia)).
    split; [lia|]. rewrite PohEval_small by lia.
    rewrite <- Zplus_mod_idemp_l, Zmult_mod_idemp_r, Zplus_mod_idemp_l.
    replace (7 * (- 13 * u) + 13) with (13 * v * M) by lia. apply Z_mod_mult.
  - intros m n Hm H7 Hn Hc. rewrite PohEval_small in Hc by lia.
    apply Z.mod_divide in Hc; [|lia]. apply Z.mod_divide in H7; [|lia].
    destruct Hc as [q Hq], H7 as [k Hk]. subst m. lia.
Qed.

(** ** The Blake3 message *)

Lemma le_value_bytes n z : 0 ≤ z < 2 ^ (8 * Z.of_nat n) → le_value n (le_bytes n z) = z.
Proof.
  revert z. induction n as [|n IH]; intros z Hz; cbn [le_bytes le_value].
  - change (2 ^ (8 * Z.of_nat 0)) with 1 in Hz. lia.
  - pose proof (Z.mod_pos_bound z 256 ltac:(done)).
    rewrite nat_ascii_embedding, Z2Nat.id by lia.
    rewrite IH; [pose proof (Z.div_mod z 256 ltac:(done)); lia|].
    replace (8 * Z.of_nat (S n)) with (8 + 8 * Z.of_nat n) in Hz by lia.
    rewrite Z.pow_add_r in Hz by lia. change (2 ^ 8) with 256 in Hz.
    split; [apply Z.div_pos; lia|]. apply Z.div_lt_upper_bound; lia.
Qed.

Lemma le_bytes_length n z : String.length (le_bytes n z) = n.
Proof. revert z. induction n as [|n IH]; intros z; cbn; [done|]. by rewrite IH. Qed.

Lemma string_app_inj s1 s2 t1 t2 : String.length s1 = String.length s2 →
  s1 +:+ t1 = s2 +:+ t2 → s1 = s2 ∧ t1 = t2.
Proof.
  revert s2. induction s1 as [|c s1 IH]; intros [|d s2] Hl H; try done.
  change (String c (s1 +:+ t1) = String d (s2 +:+ t2)) in H. injection H as -> H.
  destruct (IH s2 ltac:(by injection Hl) H) as [-> ->]. done.
Qed.

(** A Blake3 work proof is bound to its tip, its miner and its nonce: for tip hashes of one
    length, two different (tip, miner, nonce) triples never feed the hash the same bytes, so the
    undelimited concatenation lets no share be re-attributed to another miner or tip. *)
Theorem pohBlake3Message_inj prev prev' addr addr' n n' :
  String.length (to_lower (trim_space prev)) = String.length (to_lower (trim_space prev')) →
  0 ≤ n < two64 → 0 ≤ n' < two64 →
  pohBlake3Message prev addr n = pohBlake3Message prev' addr' n' →
  to_lower (trim_space prev) = to_lower (trim_space prev') ∧
  trim_space addr = trim_space addr' ∧ n = n'.
Proof.
  intros Hl Hn Hn' E. unfold pohBlake3Message in E.
  apply string_app_inj in E as [-> E]; [|done].
  assert (String.length (trim_space addr) = String.length (trim_space addr')) as Ha.
  { apply (f_equal String.length) in E. rewrite !string_length_app, !le_bytes_length in E. lia. }
  apply string_app_inj in E as [-> E]; [|done]. split; [done|]. split; [done|].
  apply (f_equal (le_value 8)) in E. rewrite !le_value_bytes in E by exact Hn || exact Hn'. done.
Qed.

Lemma pohBlake3Message_inj_witness :
  pohBlake3Message "AB" "HMC-1" 7 = pohBlake3Message " ab" "HMC-1 " 7 ∧ trim_space "HMC-1" = trim_space "HMC-1 ".
Proof.
  split; [vm_compute; reflexivity|].
  exact (proj1 (proj2 (pohBlake3Message_inj "AB" " ab" "HMC-1" "HMC-1 " 7 7
    ltac:(vm_compute; reflexivity) ltac:(unfold two64; lia) ltac:(unfold two64; lia)
    ltac:(vm_compute; reflexivity)))).
Defined.
