(* ===== verification/Json.v ===== *)
(** The part of [encoding/json] and [strconv] that signed payloads go through: string literals
    with Go's HTML-safe escaping, decimal integers, and objects with omitted empty fields.

    The signed bytes of a transfer are such an object, so what a signature binds depends on
    this encoding being injective. *)
From S2P Require Import Prelude GoText.

(** * Decimal integers *)

Definition digit (n : Z) : ascii := ascii_of_nat (Z.to_nat (48 + n)).

Fixpoint digits (fuel : nat) (n : Z) (acc : string) : string :=
  match fuel with
  | O => acc
  | S f =>
      let acc := String (digit (n mod 10)) acc in
      if n <? 10 then acc else digits f (n / 10) acc
  end.

(** [strconv.FormatUint(n, 10)]: 20 digits are enough for 64 bits. *)
Definition fmt_uint (n : Z) : string := digits 20 n EmptyString.
Definition fmt_int (n : Z) : string :=
  if n <? 0 then String "-"%char (fmt_uint (- n)) else fmt_uint n.

(** * String literals *)

Definition hex4 (n : nat) : string :=
  String (ascii_of_nat 92) (String "u"%char (String "0"%char (String "0"%char
    (String (hex_digit (n / 16)) (String (hex_digit (n mod 16)) EmptyString))))).
Definition esc2 (c : ascii) : string := String (ascii_of_nat 92) (String c EmptyString).

(** One ASCII byte inside a literal. *)
Definition json_ascii (a : ascii) : string :=
  let n := nat_of_ascii a in
  if (Nat.eqb n 92 || Nat.eqb n 34)%bool then esc2 a
  else if Nat.eqb n 8 then esc2 "b"
  else if Nat.eqb n 12 then esc2 "f"
  else if Nat.eqb n 10 then esc2 "n"
  else if Nat.eqb n 13 then esc2 "r"
  else if Nat.eqb n 9 then esc2 "t"
  else if ((n <? 32)%nat || Nat.eqb n 60 || Nat.eqb n 62 || Nat.eqb n 38)%bool then hex4 n
  else String a EmptyString.

Definition in_range (lo hi : nat) (a : ascii) : bool :=
  ((lo <=? nat_of_ascii a) && (nat_of_ascii a <=? hi))%nat.
Definition cont : ascii → bool := in_range 128 191.

(** Length of the valid UTF-8 sequence at the head of the string, 0 when there is none. *)
Definition utf8_len (s : string) : nat :=
  match s with
  | String a (String b r) =>
      if in_range 194 223 a && cont b then 2
      else match r with
      | String c r2 =>
          if ((in_range 224 224 a && in_range 160 191 b)
              || ((in_range 225 236 a || in_range 238 239 a) && cont b)
              || (in_range 237 237 a && in_range 128 159 b)) && cont c then 3
          else match r2 with
          | String d _ =>
              if ((in_range 240 240 a && in_range 144 191 b)
                  || (in_range 241 243 a && cont b)
                  || (in_range 244 244 a && in_range 128 143 b)) && cont c && cont d then 4 else 0
          | EmptyString => 0
          end
      | EmptyString => 0
      end
  | _ => 0
  end%nat.

Definition is_ascii (a : ascii) : bool := (nat_of_ascii a <? 128)%nat.

Fixpoint str_take (n : nat) (s : string) : string :=
  match n, s with S n', String a s' => String a (str_take n' s') | _, _ => EmptyString end.

(** The body of a literal; [skip] counts the continuation bytes already written. *)
Fixpoint json_body (skip : nat) (s : string) : string :=
  match s with
  | EmptyString => EmptyString
  | String a r =>
      match skip with
      | S k => json_body k r
      | O =>
          if is_ascii a then json_ascii a +:+ json_body 0 r
          else match utf8_len s with
               | O => "\ufffd" +:+ json_body 0 r
               | n =>
                   (if String.eqb (str_take 3 s) (bytes_of [226; 128; 168]%nat) then "\u2028"
                    else if String.eqb (str_take 3 s) (bytes_of [226; 128; 169]%nat) then "\u2029"
                    else str_take n s) +:+ json_body (n - 1) r
               end
      end
  end.

Definition quote : string := String (ascii_of_nat 34) EmptyString.
Definition json_string (s : string) : string := quote +:+ json_body 0 s +:+ quote.

(** * Objects *)

Inductive jfield :=
  | JStr (name : string) (v : string)
  | JStrOmit (name : string) (v : string)   (** [omitempty] *)
  | JUint (name : string) (v : Z)
  | JInt (name : string) (v : Z).

Definition json_field (f : jfield) : option string :=
  match f with
  | JStr k v => Some (json_string k +:+ ":" +:+ json_string v)
  | JStrOmit k v => if String.eqb v "" then None else Some (json_string k +:+ ":" +:+ json_string v)
  | JUint k v => Some (json_string k +:+ ":" +:+ fmt_uint v)
  | JInt k v => Some (json_string k +:+ ":" +:+ fmt_int v)
  end.

Fixpoint json_members (first : bool) (fs : list jfield) : string :=
  match fs with
  | [] => "}"
  | f :: fs' =>
      match json_field f with
      | None => json_members first fs'
      | Some m => (if first then "" else ",") +:+ m +:+ json_members false fs'
      end
  end.
Definition json_object (fs : list jfield) : string := "{" +:+ json_members true fs.

(** An object member, and an object of the members present. *)
Definition jmember (k v : string) : string := json_string k +:+ ":" +:+ v.
Definition jomit (k v : string) : list string := if String.eqb v "" then [] else [jmember k (json_string v)].
Definition jobject (ms : list string) : string := "{" +:+ String.concat "," ms +:+ "}".

(** * Facts *)

Lemma sapp_inj_l (a b c : string) : a +:+ b = a +:+ c → b = c.
Proof.
  induction a as [|x a IH]; [done|]. rewrite !scons_app. intros [= E]. by apply IH.
Qed.

(** ** Integers *)

Definition is_digit (a : ascii) : bool := in_range 48 57 a.
Definition dec_value : Z → string → Z :=
  fix go v s := match s with
    | EmptyString => v
    | String a s' => go (10 * v + (Z.of_nat (nat_of_ascii a) - 48)) s'
    end.

Lemma digit_value n : 0 ≤ n < 10 → Z.of_nat (nat_of_ascii (digit n)) = 48 + n ∧ is_digit (digit n) = true.
Proof.
  intros H. assert (n = 0 ∨ n = 1 ∨ n = 2 ∨ n = 3 ∨ n = 4 ∨ n = 5 ∨ n = 6 ∨ n = 7 ∨ n = 8 ∨ n = 9)
    as [->|[->|[->|[->|[->|[->|[->|[->|[->| ->]]]]]]]]] by lia; by vm_compute.
Qed.

Lemma dec_value_digits fuel n acc : 0 ≤ n < 10 ^ Z.of_nat fuel → (0 < fuel)%nat →
  dec_value 0 (digits fuel n acc) = dec_value n acc.
Proof.
  revert n acc. induction fuel as [|f IH]; intros n acc Hn Hf; [lia|]. cbn [digits].
  pose proof (Z.div_mod n 10 ltac:(done)) as D.
  pose proof (Z.mod_pos_bound n 10 ltac:(done)) as M.
  pose proof (digit_value (n mod 10) M) as [V _].
  destruct (Z.ltb_spec n 10).
  - cbn [dec_value]. rewrite V. f_equal. rewrite Z.mod_small by lia. lia.
  - destruct f as [|f']; [change (10 ^ Z.of_nat 1) with 10 in Hn; lia|].
    rewrite IH; [| |lia].
    + cbn [dec_value]. rewrite V. f_equal. lia.
    + rewrite Nat2Z.inj_succ, Z.pow_succ_r in Hn by lia.
      split; [apply Z.div_pos; lia|apply Z.div_lt_upper_bound; lia].
Qed.

Lemma digits_digits fuel n acc : all_chars is_digit acc = true → 0 ≤ n →
  all_chars is_digit (digits fuel n acc) = true.
Proof.
  revert n acc. induction fuel as [|f IH]; intros n acc Ha Hn; cbn [digits]; [done|].
  pose proof (digit_value (n mod 10) (Z.mod_pos_bound n 10 ltac:(done))) as [_ V].
  destruct (Z.ltb_spec n 10); cbn [all_chars]; [by rewrite V|].
  apply IH; [by cbn [all_chars]; rewrite V|apply Z.div_pos; lia].
Qed.

Lemma fmt_uint_value n : 0 ≤ n < two64 → dec_value 0 (fmt_uint n) = n.
Proof. intros H. unfold fmt_uint. rewrite dec_value_digits; [done|unfold two64 in *; lia|lia]. Qed.

Lemma fmt_uint_digits n : 0 ≤ n → all_chars is_digit (fmt_uint n) = true.
Proof. intros. by apply digits_digits. Qed.

Lemma fmt_uint_inj n m : 0 ≤ n < two64 → 0 ≤ m < two64 → fmt_uint n = fmt_uint m → n = m.
Proof. intros Hn Hm E. rewrite <- (fmt_uint_value n), <- (fmt_uint_value m) by done. by rewrite E. Qed.

(** A remainder that does not go on with a digit. *)
Definition ends_number (r : string) : bool :=
  match r with EmptyString => true | String c _ => negb (is_digit c) end.

Lemma digits_split a b r r' :
  all_chars is_digit a = true → all_chars is_digit b = true →
  ends_number r = true → ends_number r' = true →
  a +:+ r = b +:+ r' → a = b ∧ r = r'.
Proof.
  revert b. induction a as [|x a IH]; intros [|y b] Ha Hb Hr Hr' E; [done| | |].
  - change (r = String y (b +:+ r')) in E. subst r. cbn in Hb, Hr. apply andb_true_iff in Hb as [Hy _].
    by rewrite Hy in Hr.
  - change (String x (a +:+ r) = r') in E. subst r'. cbn in Ha, Hr'. apply andb_true_iff in Ha as [Hy _].
    by rewrite Hy in Hr'.
  - rewrite !scons_app in E. injection E as -> E. cbn in Ha, Hb. b2p.
    destruct (IH b) as [-> ->]; done.
Qed.

Lemma fmt_uint_split n m r r' : 0 ≤ n < two64 → 0 ≤ m < two64 →
  ends_number r = true → ends_number r' = true →
  fmt_uint n +:+ r = fmt_uint m +:+ r' → n = m ∧ r = r'.
Proof.
  intros Hn Hm Hr Hr' E. apply digits_split in E as [E ->]; try done;
    try (apply fmt_uint_digits; lia). split; [by apply fmt_uint_inj|done].
Qed.

Lemma fmt_uint_nonempty n : ∃ c s, fmt_uint n = String c s ∧ (0 ≤ n → is_digit c = true).
Proof.
  assert (H : ∀ f m acc, (∃ c s, acc = String c s ∧ is_digit c = true) → 0 ≤ m →
    ∃ c s, digits f m acc = String c s ∧ is_digit c = true).
  { induction f as [|f IH]; intros m acc Ha Hm; cbn [digits]; [done|].
    pose proof (digit_value (m mod 10) (Z.mod_pos_bound m 10 ltac:(done))) as [_ V].
    case_match; [eauto|]. apply IH; [eauto|apply Z.div_pos; lia]. }
  unfold fmt_uint. change 20%nat with (S 19). cbn [digits].
  destruct (Z.lt_ge_cases n 0).
  { destruct (Z.ltb_spec n 10); [|lia]. eexists _, _. split; [done|]. lia. }
  pose proof (digit_value (n mod 10) (Z.mod_pos_bound n 10 ltac:(done))) as [_ V].
  case_match; [eexists _, _; split; [done|]; done|].
  destruct (H 19%nat (n / 10) (String (digit (n mod 10)) "")) as (c & s & E & D).
  - eauto.
  - apply Z.div_pos; lia.
  - eauto.
Qed.

Lemma fmt_int_split n m r r' : - two63 ≤ n < two63 → - two63 ≤ m < two63 →
  ends_number r = true → ends_number r' = true →
  fmt_int n +:+ r = fmt_int m +:+ r' → n = m ∧ r = r'.
Proof.
  intros Hn Hm Hr Hr'. unfold fmt_int, two63, two64 in *.
  destruct (Z.ltb_spec n 0), (Z.ltb_spec m 0); rewrite ?scons_app; intros E.
  - injection E as E. apply fmt_uint_split in E as [E ->]; try done; unfold two64; try lia. split; [lia|done].
  - destruct (fmt_uint_nonempty m) as (c & s & Em & D). rewrite Em, scons_app in E.
    injection E as <- _. specialize (D ltac:(lia)). done.
  - destruct (fmt_uint_nonempty n) as (c & s & Em & D). rewrite Em, scons_app in E.
    injection E as -> _. specialize (D ltac:(lia)). done.
  - apply fmt_uint_split in E as [E ->]; try done; unfold two64; lia.
Qed.

(** ** String literals: the escaping of ASCII bytes is a prefix code that avoids the quote *)

Definition ascii_str (s : string) : bool := all_chars is_ascii s.
Definition dquote : ascii := ascii_of_nat 34.

(** No code is a prefix of another one, nor starts with the quote. *)
Definition code_ok (a b : ascii) : bool :=
  (Ascii.eqb a b || negb (has_prefix (json_ascii a) (json_ascii b)))
  && negb (has_prefix (json_ascii a) quote).
Definition ascii_list : list ascii := map ascii_of_nat (seq 0 128).

Lemma all_codes_ok : forallb (λ a, forallb (code_ok a) ascii_list) ascii_list = true.
Proof. vm_compute. reflexivity. Qed.

Lemma is_ascii_in a : is_ascii a = true → a ∈ ascii_list.
Proof.
  intros H. unfold is_ascii in H. apply Nat.ltb_lt in H.
  rewrite <- (ascii_nat_embedding a). apply list_elem_of_fmap.
  exists (nat_of_ascii a). split; [done|]. apply elem_of_seq. lia.
Qed.

Lemma code_ok_ascii a b : is_ascii a = true → is_ascii b = true → code_ok a b = true.
Proof.
  intros Ha Hb. pose proof all_codes_ok as H.
  rewrite forallb_forall in H. specialize (H a). rewrite <- list_elem_of_In in H.
  specialize (H (is_ascii_in a Ha)). rewrite forallb_forall in H. apply H.
  apply list_elem_of_In. by apply is_ascii_in.
Qed.

Lemma has_prefix_of_app p a b r : a +:+ r = b → (String.length p ≤ String.length a)%nat →
  has_prefix b p = true → has_prefix a p = true.
Proof.
  intros <-. revert a. induction p as [|x p IH]; intros [|y a] Hl; try done.
  - cbn in Hl. lia.
  - rewrite scons_app. unfold has_prefix. cbn [strip_prefix].
    destruct (Ascii.eqb x y); [|done]. intros H. apply IH; [cbn in Hl; lia|done].
Qed.

Lemma app_has_prefix a r : has_prefix (a +:+ r) a = true.
Proof.
  induction a as [|x a IH]; [done|]. rewrite scons_app. unfold has_prefix. cbn [strip_prefix].
  by rewrite Ascii.eqb_refl.
Qed.

Lemma code_split a b r r' : is_ascii a = true → is_ascii b = true →
  json_ascii a +:+ r = json_ascii b +:+ r' → a = b ∧ r = r'.
Proof.
  intros Ha Hb E. destruct (Ascii.eqb_spec a b) as [->|Hab].
  { split; [done|]. by apply sapp_inj_l in E. }
  exfalso. pose proof (code_ok_ascii a b Ha Hb) as H1. pose proof (code_ok_ascii b a Hb Ha) as H2.
  unfold code_ok in H1, H2. rewrite (proj2 (Ascii.eqb_neq _ _)) in H1 by done.
  rewrite (proj2 (Ascii.eqb_neq _ _)) in H2 by congruence. cbn [orb] in *.
  apply andb_true_iff in H1 as [H1 _], H2 as [H2 _]. apply negb_true_iff in H1, H2.
  destruct (Nat.le_ge_cases (String.length (json_ascii b)) (String.length (json_ascii a))) as [L|L].
  - rewrite (has_prefix_of_app (json_ascii b) (json_ascii a) _ r eq_refl) in H1; [done|lia|].
    rewrite E. apply app_has_prefix.
  - rewrite (has_prefix_of_app (json_ascii a) (json_ascii b) _ r' eq_refl) in H2; [done|lia|].
    rewrite <- E. apply app_has_prefix.
Qed.

Lemma code_not_quote a r r' : is_ascii a = true → json_ascii a +:+ r ≠ quote +:+ r'.
Proof.
  intros Ha E. pose proof (code_ok_ascii a a Ha Ha) as H. unfold code_ok in H. apply andb_true_iff in H as [_ H]. apply negb_true_iff in H.
  destruct (json_ascii a) as [|x s] eqn:Ej.
  - unfold json_ascii, esc2, hex4 in Ej. repeat case_match; done.
  - assert (x = dquote) as -> by (unfold quote in E; rewrite !scons_app in E; by injection E).
    by vm_compute in H.
Qed.

Lemma json_body_split s t r r' : ascii_str s = true → ascii_str t = true →
  json_body 0 s +:+ quote +:+ r = json_body 0 t +:+ quote +:+ r' → s = t ∧ r = r'.
Proof.
  revert t. induction s as [|a s IH]; intros [|b t] Hs Ht E.
  - change (quote +:+ r = quote +:+ r') in E. by apply sapp_inj_l in E.
  - apply andb_true_iff in Ht as [Hb Ht]. cbn [json_body] in E. rewrite Hb, sapp_assoc in E. symmetry in E.
    change ("" +:+ quote +:+ r) with (quote +:+ r) in E. by apply code_not_quote in E.
  - apply andb_true_iff in Hs as [Ha Hs]. cbn [json_body] in E. rewrite Ha, sapp_assoc in E.
    change ("" +:+ quote +:+ r') with (quote +:+ r') in E. by apply code_not_quote in E.
  - apply andb_true_iff in Hs as [Ha Hs], Ht as [Hb Ht]. cbn [json_body] in E. rewrite Ha, Hb, !sapp_assoc in E.
    apply code_split in E as [-> E]; [|done..]. destruct (IH t) as [-> ->]; done.
Qed.

Lemma json_string_split s t r r' : ascii_str s = true → ascii_str t = true →
  json_string s +:+ r = json_string t +:+ r' → s = t ∧ r = r'.
Proof.
  intros Hs Ht E. unfold json_string in E. rewrite !sapp_assoc in E. apply sapp_inj_l in E.
  by apply json_body_split in E.
Qed.

(** ** Objects *)

Definition field_name (f : jfield) : string :=
  match f with JStr k _ | JStrOmit k _ | JUint k _ | JInt k _ => k end.
Definition field_kind (f : jfield) : nat :=
  match f with JStr _ _ => 0 | JStrOmit _ _ => 1 | JUint _ _ => 2 | JInt _ _ => 3 end%nat.
Definition field_shape (f : jfield) : nat * string := (field_kind f, field_name f).

(** Values the encoding is injective on: ASCII text and machine integers. *)
Definition field_ok (f : jfield) : bool :=
  ascii_str (field_name f) &&
  match f with
  | JStr _ v | JStrOmit _ v => ascii_str v
  | JUint _ n => (0 <=? n) && (n <? two64)
  | JInt _ n => (- two63 <=? n) && (n <? two63)
  end.

Definition sep (first : bool) : string := if first then "" else ",".

(** A member list is closed, or starts with the name of one of its fields. *)
Lemma json_members_head first fs :
  json_members first fs = "}" ∨
  ∃ k r, k ∈ map field_name fs ∧ json_members first fs = sep first +:+ json_string k +:+ r.
Proof.
  induction fs as [|f fs IH]; [by left|]. cbn [json_members].
  destruct (json_field f) as [m|] eqn:E.
  - right. exists (field_name f).
    destruct f as [k v|k v|k v|k v]; cbn [json_field] in E; [| case_match; [done|] | |];
      injection E as <-; cbn [field_name]; rewrite !sapp_assoc; eexists;
      (split; [left|reflexivity]).
  - destruct IH as [IH|(k & r & Hk & IH)]; [by left|right].
    exists k, r. split; [by right|done].
Qed.

Lemma json_members_ends fs : ends_number (json_members false fs) = true.
Proof. by destruct (json_members_head false fs) as [-> |(k & r & _ & ->)]. Qed.

Lemma json_field_split f g m m' r r' :
  field_shape f = field_shape g → field_ok f = true → field_ok g = true →
  ends_number r = true → ends_number r' = true →
  json_field f = Some m → json_field g = Some m' → m +:+ r = m' +:+ r' → f = g ∧ r = r'.
Proof.
  intros Hs Hf Hg Hr Hr' Em Em' E.
  destruct f as [k v|k v|k v|k v], g as [k' v'|k' v'|k' v'|k' v']; try done;
    injection Hs as ->; cbn [json_field] in Em, Em'; cbn [field_ok field_name] in Hf, Hg;
    apply andb_true_iff in Hf as [Hk Hf], Hg as [_ Hg]; repeat case_match; try done;
    injection Em as <-; injection Em' as <-; rewrite !sapp_assoc in E;
    apply sapp_inj_l, sapp_inj_l in E.
  - by apply json_string_split in E as [-> ->].
  - by apply json_string_split in E as [-> ->].
  - b2p. by apply fmt_uint_split in E as [-> ->].
  - b2p. by apply fmt_int_split in E as [-> ->].
Qed.

(** The encoding of an object determines its fields: the names are fixed and distinct, so an
    omitted field cannot be confused with a present one. *)
Lemma json_members_inj first fs gs :
  map field_shape fs = map field_shape gs → NoDup (map field_name fs) →
  forallb field_ok fs = true → forallb field_ok gs = true →
  json_members first fs = json_members first gs → fs = gs.
Proof.
  revert first gs. induction fs as [|f fs IH]; intros first [|g gs] Hs Hn Hf Hg E; try done.
  cbn [map] in Hs, Hn. assert (Hs1 : field_shape f = field_shape g) by (injection Hs; congruence).
  apply (f_equal tail) in Hs. cbn [tail] in Hs. apply list.NoDup_cons in Hn as [Hnin Hn].
  cbn [forallb] in Hf, Hg. apply andb_true_iff in Hf as [Hf1 Hf], Hg as [Hg1 Hg].
  assert (Hnames : map field_name fs = map field_name gs).
  { apply (f_equal (map snd)) in Hs. rewrite !map_map in Hs. exact Hs. }
  assert (Hname : field_name f = field_name g) by (by injection Hs1).
  assert (Hout : ∀ f0 m fs0 gs0, field_name f0 ∉ map field_name gs0 → field_ok f0 = true →
      forallb (λ x, ascii_str (field_name x)) gs0 = true → json_field f0 = Some m →
      sep first +:+ m +:+ json_members false fs0 ≠ json_members first gs0).
  { intros f0 m fs0 gs0 Hnot H0 Hall Em Ec.
    assert (∃ r, m = json_string (field_name f0) +:+ r) as [r ->].
    { destruct f0; cbn [json_field] in Em; [|case_match; [done|]| |]; injection Em as <-; by eexists. }
    rewrite sapp_assoc in Ec.
    destruct (json_members_head first gs0) as [Eh|(k & r' & Hk & Eh)]; rewrite Eh in Ec.
    - by destruct first.
    - apply sapp_inj_l, json_string_split in Ec as [Ek _].
      + by rewrite Ek in Hnot.
      + unfold field_ok in H0. by apply andb_true_iff in H0 as [H0 _].
      + apply list_elem_of_fmap in Hk as (x & -> & Hx). rewrite forallb_forall in Hall.
        apply Hall. by apply list_elem_of_In. }
  assert (Hasc : ∀ l, forallb field_ok l = true → forallb (λ x, ascii_str (field_name x)) l = true).
  { intros l. rewrite !forallb_forall. intros H x Hx. specialize (H x Hx).
    unfold field_ok in H. by apply andb_true_iff in H as [H _]. }
  cbn [json_members] in E.
  destruct (json_field f) as [m|] eqn:Em, (json_field g) as [m'|] eqn:Em'.
  - fold (sep first) in E. apply sapp_inj_l in E.
    apply (json_field_split f g) in E as [-> E]; try done; try apply json_members_ends.
    f_equal. by apply (IH false).
  - exfalso. eapply Hout; [| | |exact Em|exact E]; [by rewrite <- Hnames|done|by apply Hasc].
  - exfalso. eapply Hout; [| | |exact Em'|symmetry; exact E]; [by rewrite <- Hname|done|by apply Hasc].
  - assert (f = g) as ->; [|f_equal; by apply (IH first)].
    destruct f as [| k v| |], g as [|k' v'| |]; cbn [json_field] in Em, Em'; try done.
    repeat case_match; try done. injection Hs1 as ->.
    repeat match goal with H : String.eqb _ _ = true |- _ => apply String.eqb_eq in H end. by subst.
Qed.

Lemma json_object_inj fs gs :
  map field_shape fs = map field_shape gs → NoDup (map field_name fs) →
  forallb field_ok fs = true → forallb field_ok gs = true →
  json_object fs = json_object gs → fs = gs.
Proof. intros Hs Hn Hf Hg E. apply sapp_inj_l in E. by apply (json_members_inj true). Qed.
