(* ===== verification/GoNum.v ===== *)
(** Numbers in settings and in text: [strconv.Atoi], [strconv.ParseFloat] on decimal literals, the conversion of
    a float to [int64], and [utf8.RuneCountInString]. *)
From S2P Require Import Prelude Float64 GoText Json.

(** [strconv.Atoi] *)
Definition atoi (s : string) : option Z :=
  match s with
  | String a r =>
      let neg := (nat_of_ascii a =? 45)%nat in
      let digits := if (neg || (nat_of_ascii a =? 43)%nat) then r else s in
      match digits with
      | EmptyString => None
      | _ => match parse_digits digits 0 with
             | Some z => let z := if neg then - z else z in
                         if (- two63 <=? z) && (z <? two63) then Some z else None
             | None => None
             end
      end
  | EmptyString => None
  end.

(** [strconv.ParseFloat(s, 64)] on decimal literals, digits grouped by single underscores; the
    hexadecimal, infinite and NaN spellings are not modelled. *)
Fixpoint scan_digits (s : string) (acc n : Z) (sep : bool) : Z * Z * bool * string :=
  match s with
  | String a r =>
      let v := Z.of_nat (nat_of_ascii a) in
      if (48 <=? v) && (v <=? 57) then scan_digits r (10 * acc + (v - 48)) (n + 1) false
      else if (v =? 95) && negb sep && (0 <? n) then scan_digits r acc n true
      else (acc, n, sep, s)
  | EmptyString => (acc, n, sep, s)
  end.

Definition head_is (c : nat) (s : string) : option string :=
  match s with String a r => if Nat.eqb (nat_of_ascii a) c then Some r else None | EmptyString => None end.

Definition scan_exp (s : string) : option Z :=
  match s with
  | EmptyString => Some 0
  | String a r =>
      if Nat.eqb (nat_of_ascii (lower_ascii a)) 101 then
        let '(neg, r) := match head_is 45 r with
                         | Some r' => (true, r')
                         | None => (false, default r (head_is 43 r)) end in
        let '(v, n, sep, rest) := scan_digits r 0 0 false in
        if (0 <? n) && negb sep && String.eqb rest "" then Some (if neg then - v else v) else None
      else None
  end.

Definition parse_float (s : string) : option f64 :=
  let '(neg, s) := match head_is 45 s with
                   | Some r => (true, r) | None => (false, default s (head_is 43 s)) end in
  let '(ip, n1, sep1, r1) := scan_digits s 0 0 false in
  let '(m, n2, sep2, r2) := match head_is 46 r1 with
                            | Some r => scan_digits r ip 0 false
                            | None => (ip, 0, false, r1) end in
  if (n1 + n2 =? 0) || sep1 || sep2 then None
  else match scan_exp r2 with
  | None => None
  | Some ex =>
      let e := ex - n2 in
      let x := if m =? 0 then f_of_Z 0
               else if 0 <=? e then lit (m * 10 ^ e) 1 else lit m (10 ^ (- e)) in
      if f_leb (F64 1 1024) x then None else Some (if neg then f_neg x else x)
  end.

(** Conversion to [int64] on amd64: out-of-range values give the most negative integer. *)
Definition f_to_int64 (x : f64) : Z :=
  let t := f_trunc x in if (- two63 <=? t) && (t <? two63) then t else - two63.

(** [utf8.RuneCountInString]: an invalid byte counts for one. *)
Fixpoint rune_count (skip : nat) (s : string) : Z :=
  match s with
  | EmptyString => 0
  | String a r => match skip with
                  | S k => rune_count k r
                  | O => 1 + rune_count (Nat.pred (utf8_len s)) r
                  end
  end.

Definition float_setting (raw : string) (ok : f64 → bool) (dflt : f64) : f64 :=
  match parse_float (trim_space raw) with Some x => if ok x then x else dflt | None => dflt end.
Definition int_setting (raw : string) (lo dflt : Z) : Z :=
  match atoi (trim_space raw) with Some x => if lo <=? x then x else dflt | None => dflt end.

