(* ===== verification/Ledger.v ===== *)
(** The node database: the SQLite tables the chain code reads and writes, as one record, with
    the accessors shared by every component.

    Sources: internal/store/sqlite.go (schema), internal/block/types.go, internal/chain/service.go (meta helpers, totals,
    invariants), transfers.go / sup_ledger.go / hms_ledger.go / fuzz_escrow.go (row types).
    Columns that only feed displays (updated_at, wallet.balance_hmc, raw JSON copies) are left
    out; [wallet.balance_hmc] is always rewritten as balance_units / 10^8. *)
From S2P Require Import Prelude Float64 GoText Params Emission OrderFee.

(** * Rows *)

Record Account := mkAccount {
  balance_units : Z; next_nonce : Z;
  balance_sup_units : Z; sup_next_nonce : Z;
  balance_hms_units : Z; hms_next_nonce : Z;
}.
Definition empty_account : Account := mkAccount 0 0 0 0 0 0.

Definition set_hmc (v : Z) (a : Account) : Account :=
  mkAccount v (next_nonce a) (balance_sup_units a) (sup_next_nonce a) (balance_hms_units a) (hms_next_nonce a).
Definition set_nonce (v : Z) (a : Account) : Account :=
  mkAccount (balance_units a) v (balance_sup_units a) (sup_next_nonce a) (balance_hms_units a) (hms_next_nonce a).
Definition set_sup (v : Z) (a : Account) : Account :=
  mkAccount (balance_units a) (next_nonce a) v (sup_next_nonce a) (balance_hms_units a) (hms_next_nonce a).
Definition set_sup_nonce (v : Z) (a : Account) : Account :=
  mkAccount (balance_units a) (next_nonce a) (balance_sup_units a) v (balance_hms_units a) (hms_next_nonce a).
Definition set_hms (v : Z) (a : Account) : Account :=
  mkAccount (balance_units a) (next_nonce a) (balance_sup_units a) (sup_next_nonce a) v (hms_next_nonce a).
Definition set_hms_nonce (v : Z) (a : Account) : Account :=
  mkAccount (balance_units a) (next_nonce a) (balance_sup_units a) (sup_next_nonce a) (balance_hms_units a) v.

Record Wallet := mkWallet { w_address : string; w_units : Z }.

(** A signed transfer; the HMC, SUP and HMS lanes use the same fields. *)
Record TransferTx := mkTransferTx {
  TxType : string; SigAlg : string; From : string; To : string;
  AmountUnits : Z; FeeUnits : Z; Nonce : Z; TimestampUnix : Z; Memo : string;
  PubKeyEd25519 : string; SigEd25519 : string; ChainID : string;
}.

Record PoolRow := mkPoolRow {
  p_hash : string; p_tx : TransferTx; p_received_at : Z; p_status : string; p_reject : string;
}.

(** A history row; [h_from = ""] or [h_to = ""] for mints and burns. *)
Record HistRow := mkHistRow {
  h_from : string; h_to : string; h_nonce : Z; h_fee : Z; h_amount : Z; h_status : string;
  h_block : Z; h_block_hash : string; h_applied_at : Z; h_reject : string; h_memo : string;
}.

Record KeyRow := mkKeyRow { k_pubkey : string; k_index : Z; k_source : string }.

Record EscrowRow := mkEscrowRow {
  budgetUnits : Z; runsPoolUnits : Z; bountyPoolUnits : Z; runsPaidUnits : Z; bountyPaidUnits : Z;
  crashBonusPaidUnits : Z; runsDone : Z; budgetRuns : Z; perRunUnits : Z; findingWinner : string;
  status : string; refundedBountyUnits : Z; createdAt : Z; escrowSplit : string;
  e_fee : OrderFeeV2;
}.

Record SettleRow := mkSettleRow { s_campaign : string; s_kind : string; s_applied_at : Z }.

Record TaskRow := mkTaskRow {
  artifact_hash : string; reward : f64; t_status : string; created_at : Z; t_kind : string;
  target_solves : Z; progress_count : Z; payer_ref : string; prepaid_hmc : f64; expires_at : Z;
  cancelled_at : Z; cancel_reason : string; refunded_hmc : f64; manifest_json : string;
  t_fee : OrderFeeV2;
}.

(** Meta values: the keys holding unsigned integers, floats and text are disjoint. *)
Inductive metaval := MUint (n : Z) | MFloat (x : f64) | MStr (s : string).

Record Task := mkTask { T_ID : string; T_Kind : string; T_Payload : string; T_TargetHint : string }.

Record Block := mkBlock {
  b_Index : Z; b_Timestamp : Z; b_PrevHash : string; b_Hash : string;
  b_MinerSigAlg : string; b_MinerPubKey : string; b_MinerSig : string;
  b_Nonce : Z; b_MinerAddress : string; b_Task : Task;
  b_ChainID : string; b_RewardTo : string;
}.

(** A row of [blocks]; the json column is the block it decodes to. *)
Record BlockRow := mkBlockRow { row_hash : string; row_prev : string; row_block : Block }.

Record DB := mkDB {
  accounts : gmap string Account;
  wallet : option Wallet;
  meta : gmap string metaval;
  tx_pool : list PoolRow; tx_history : gmap string HistRow;
  sup_tx_pool : list PoolRow; sup_tx_history : gmap string HistRow;
  hms_tx_pool : list PoolRow; hms_tx_history : gmap string HistRow;
  address_pubkeys : gmap string KeyRow;
  escrows : gmap string EscrowRow;
  settle_applied : gmap string SettleRow;
  tasks : gmap string TaskRow;
  found_nonces : gset (string * Z);
  blocks : gmap Z BlockRow;
}.

Definition empty_db : DB := mkDB ∅ None ∅ [] ∅ [] ∅ [] ∅ ∅ ∅ ∅ ∅ ∅ ∅.

Definition set_accounts v d := mkDB v (wallet d) (meta d) (tx_pool d) (tx_history d) (sup_tx_pool d) (sup_tx_history d) (hms_tx_pool d) (hms_tx_history d) (address_pubkeys d) (escrows d) (settle_applied d) (tasks d) (found_nonces d) (blocks d).
Definition set_wallet v d := mkDB (accounts d) v (meta d) (tx_pool d) (tx_history d) (sup_tx_pool d) (sup_tx_history d) (hms_tx_pool d) (hms_tx_history d) (address_pubkeys d) (escrows d) (settle_applied d) (tasks d) (found_nonces d) (blocks d).
Definition set_meta v d := mkDB (accounts d) (wallet d) v (tx_pool d) (tx_history d) (sup_tx_pool d) (sup_tx_history d) (hms_tx_pool d) (hms_tx_history d) (address_pubkeys d) (escrows d) (settle_applied d) (tasks d) (found_nonces d) (blocks d).
Definition set_tx_pool v d := mkDB (accounts d) (wallet d) (meta d) v (tx_history d) (sup_tx_pool d) (sup_tx_history d) (hms_tx_pool d) (hms_tx_history d) (address_pubkeys d) (escrows d) (settle_applied d) (tasks d) (found_nonces d) (blocks d).
Definition set_tx_history v d := mkDB (accounts d) (wallet d) (meta d) (tx_pool d) v (sup_tx_pool d) (sup_tx_history d) (hms_tx_pool d) (hms_tx_history d) (address_pubkeys d) (escrows d) (settle_applied d) (tasks d) (found_nonces d) (blocks d).
Definition set_sup_pool v d := mkDB (accounts d) (wallet d) (meta d) (tx_pool d) (tx_history d) v (sup_tx_history d) (hms_tx_pool d) (hms_tx_history d) (address_pubkeys d) (escrows d) (settle_applied d) (tasks d) (found_nonces d) (blocks d).
Definition set_sup_history v d := mkDB (accounts d) (wallet d) (meta d) (tx_pool d) (tx_history d) (sup_tx_pool d) v (hms_tx_pool d) (hms_tx_history d) (address_pubkeys d) (escrows d) (settle_applied d) (tasks d) (found_nonces d) (blocks d).
Definition set_hms_pool v d := mkDB (accounts d) (wallet d) (meta d) (tx_pool d) (tx_history d) (sup_tx_pool d) (sup_tx_history d) v (hms_tx_history d) (address_pubkeys d) (escrows d) (settle_applied d) (tasks d) (found_nonces d) (blocks d).
Definition set_hms_history v d := mkDB (accounts d) (wallet d) (meta d) (tx_pool d) (tx_history d) (sup_tx_pool d) (sup_tx_history d) (hms_tx_pool d) v (address_pubkeys d) (escrows d) (settle_applied d) (tasks d) (found_nonces d) (blocks d).
Definition set_pubkeys v d := mkDB (accounts d) (wallet d) (meta d) (tx_pool d) (tx_history d) (sup_tx_pool d) (sup_tx_history d) (hms_tx_pool d) (hms_tx_history d) v (escrows d) (settle_applied d) (tasks d) (found_nonces d) (blocks d).
Definition set_escrows v d := mkDB (accounts d) (wallet d) (meta d) (tx_pool d) (tx_history d) (sup_tx_pool d) (sup_tx_history d) (hms_tx_pool d) (hms_tx_history d) (address_pubkeys d) v (settle_applied d) (tasks d) (found_nonces d) (blocks d).
Definition set_settle v d := mkDB (accounts d) (wallet d) (meta d) (tx_pool d) (tx_history d) (sup_tx_pool d) (sup_tx_history d) (hms_tx_pool d) (hms_tx_history d) (address_pubkeys d) (escrows d) v (tasks d) (found_nonces d) (blocks d).
Definition set_tasks v d := mkDB (accounts d) (wallet d) (meta d) (tx_pool d) (tx_history d) (sup_tx_pool d) (sup_tx_history d) (hms_tx_pool d) (hms_tx_history d) (address_pubkeys d) (escrows d) (settle_applied d) v (found_nonces d) (blocks d).
Definition set_found v d := mkDB (accounts d) (wallet d) (meta d) (tx_pool d) (tx_history d) (sup_tx_pool d) (sup_tx_history d) (hms_tx_pool d) (hms_tx_history d) (address_pubkeys d) (escrows d) (settle_applied d) (tasks d) v (blocks d).
Definition set_blocks v d := mkDB (accounts d) (wallet d) (meta d) (tx_pool d) (tx_history d) (sup_tx_pool d) (sup_tx_history d) (hms_tx_pool d) (hms_tx_history d) (address_pubkeys d) (escrows d) (settle_applied d) (tasks d) (found_nonces d) v.

(** * SQL primitives *)

(** A [uint64] bound as a query parameter: the driver refuses values with the high bit set. *)
Definition sql_u64 (v : Z) : tx DB unit :=
  guard ((0 <=? v) && (v <? two63)) "sql: converting argument: uint64 values with high bit set are not supported".

(** [UPDATE accounts SET ... WHERE address = ?] *)
Definition upd_account (f : Account → Account) (a : string) (d : DB) : DB :=
  match accounts d !! a with
  | Some x => set_accounts (<[a := f x]> (accounts d)) d
  | None => d
  end.
Definition update_account (f : Account → Account) (a : string) : tx DB unit :=
  modify (upd_account f a).

(** [INSERT INTO accounts ... ON CONFLICT(address) DO UPDATE SET ...] *)
Definition ups_account (ins : Account) (f : Account → Account) (a : string) (d : DB) : DB :=
  set_accounts (<[a := match accounts d !! a with Some x => f x | None => ins end]> (accounts d)) d.
Definition upsert_account (ins : Account) (f : Account → Account) (a : string) : tx DB unit :=
  modify (ups_account ins f a).

(** [UPDATE wallet SET balance_units = ... WHERE id = 1] *)
Definition upd_wallet (f : Z → Z) (d : DB) : DB :=
  match wallet d with
  | Some w => set_wallet (Some (mkWallet (w_address w) (f (w_units w)))) d
  | None => d
  end.
Definition update_wallet (f : Z → Z) : tx DB unit := modify (upd_wallet f).

Definition ErrNoRows : string := "sql: no rows in result set".

Definition wallet_row (missing : string) : tx DB Wallet :=
  let* d := get in match wallet d with Some w => ret w | None => fail missing end.

(** A balance column, 0 for an absent account. *)
Definition hmc (d : DB) (a : string) : Z := mval balance_units (accounts d) a.
Definition sup (d : DB) (a : string) : Z := mval balance_sup_units (accounts d) a.
Definition hms (d : DB) (a : string) : Z := mval balance_hms_units (accounts d) a.

(** * Meta *)

Definition metaTotalMintedHMC : string := "econ_total_minted_hmc".
Definition metaTotalBurnedHMC : string := "econ_total_burned_hmc".
Definition metaTotalMintedUnits : string := "econ_total_minted_units".
Definition metaTotalBurnedUnits : string := "econ_total_burned_units".
Definition metaOrderEscrowUnits : string := "econ_order_escrow_units".
Definition metaEconomicsV2ActivationHeight : string := "economics_v2_activation_height".
Definition metaSUPTotalBurnedUnits : string := "sup_total_burned_units".

Definition metaUint (d : DB) (key : string) (fallback : Z) : Z :=
  match meta d !! key with Some (MUint n) => n | _ => fallback end.
Definition metaFloat (d : DB) (key : string) (fallback : f64) : f64 :=
  match meta d !! key with Some (MFloat x) => x | _ => fallback end.
Definition metaText (d : DB) (key : string) : option string :=
  match meta d !! key with Some (MStr s) => Some s | _ => None end.

Definition ups_meta (key : string) (v : metaval) (d : DB) : DB := set_meta (<[key := v]> (meta d)) d.
Definition upsert_meta_val (key : string) (v : metaval) : tx DB unit := modify (ups_meta key v).
Definition upsertMetaUint (key : string) (v : Z) : tx DB unit := upsert_meta_val key (MUint v).
Definition upsertMetaFloat (key : string) (v : f64) : tx DB unit := upsert_meta_val key (MFloat v).
Definition upsertMeta (key : string) (v : string) : tx DB unit := upsert_meta_val key (MStr v).

(** Totals in units; a zero falls back to the legacy float keys. *)
Definition econTotalsUnits (d : DB) : Z * Z :=
  let minted := metaUint d metaTotalMintedUnits (HMCToUnits GenesisRewardHMC) in
  let burned := metaUint d metaTotalBurnedUnits 0 in
  let minted := if minted =? 0 then HMCToUnits (metaFloat d metaTotalMintedHMC GenesisRewardHMC) else minted in
  let burned := if burned =? 0 then HMCToUnits (metaFloat d metaTotalBurnedHMC (f_of_Z 0)) else burned in
  (minted, burned).

(** The write sequence every burn uses: the counter, and the two float mirrors. *)
Definition book_burn (burned' minted : Z) : tx DB unit :=
  upsertMetaUint metaTotalBurnedUnits burned' ;;;
  upsertMetaFloat metaTotalBurnedHMC (UnitsToHMC burned') ;;;
  upsertMetaFloat metaTotalMintedHMC (UnitsToHMC minted).

(** * Chain height *)

(** [SELECT MAX(block_index) FROM blocks] *)
Definition max_block_index (d : DB) : option Z :=
  map_fold (λ i _ acc, match acc with Some j => Some (Z.max i j) | None => Some i end) None (blocks d).
Definition tip_height (d : DB) : Z :=
  match max_block_index d with Some i => if 0 <=? i then i else 0 | None => 0 end.
Definition nextBlockIndexQ (d : DB) : Z :=
  match max_block_index d with Some i => if i <? 0 then 1 else u64 (i + 1) | None => 1 end.

(** * Economic invariants checked inside every booking transaction *)

Definition TaskStatusOpen : string := "open".
Definition TaskStatusCompleted : string := "completed".
Definition TaskStatusCancelled : string := "cancelled".
Definition ErrEconomicInvariant : string := "economic invariant violation".

(** Remaining liability of one open order, or the overflow error. *)
Definition order_need (t : TaskRow) : result Z :=
  let target := if target_solves t <? 0 then 0 else target_solves t in
  let progress := if progress_count t <? 0 then 0 else progress_count t in
  let remaining := if target - progress <? 0 then 0 else target - progress in
  if (remaining =? 0) || f_leb (reward t) (f_of_Z 0) then Ok 0
  else
    let need := HMCToUnits (reward t) in
    if 1 <? remaining then
      if (two64 - 1) / remaining <? need then Err "chain: open order liability overflow"
      else Ok (need * remaining)
    else Ok need.

Definition openOrderLiabilityUnits (d : DB) : result Z :=
  foldr (λ t acc, rbind acc (λ total, rbind (order_need t) (λ need,
      if two64 - 1 - total <? need then Err "chain: open order liability overflow"
      else Ok (total + need))))
    (Ok 0)
    (filter (λ t, t_status t = TaskStatusOpen) (map_to_list (tasks d)).*2).

Definition economicsV2ActivationHeightQ `{ChainParams} (d : DB) : Z :=
  let m := metaUint d metaEconomicsV2ActivationHeight 0 in
  if 1 <=? m then m else v2_height.

(** [strict]: HACKME_ECON_STRICT_DUAL_LEDGER.  The two "below -1e-12" tests of the source cannot
    fire: unit totals are unsigned. *)
Definition checkEconomicInvariants `{ChainParams} (strict : bool) (d : DB) : result unit :=
  match validateLockedPolicy with
  | Err e => Err ErrEconomicInvariant
  | Ok _ =>
      let '(minted, burned) := econTotalsUnits d in
      let v2 := economicsV2ActivationHeightQ d in
      let v2Active := (1 <=? v2) && (v2 <=? u64 (tip_height d + 1)) in
      if negb v2Active && f_ltb (f_add MaxSupplyHMC (lit 1 1000000000)) (UnitsToHMC minted)
      then Err ErrEconomicInvariant
      else if minted <? burned then Err ErrEconomicInvariant
      else
        rbind (openOrderLiabilityUnits d) (λ needed,
        if metaUint d metaOrderEscrowUnits 0 <? needed then Err ErrEconomicInvariant
        else if strict then
          match wallet d with
          | Some w =>
              match accounts d !! w_address w with
              | Some a => if w_units w =? balance_units a then Ok tt else Err ErrEconomicInvariant
              | None => Ok tt
              end
          | None => Ok tt
          end
        else Ok tt)
  end.

(** * Facts *)

Ltac inv_tx_hook H ::=
  lazymatch type of H with
  | sql_u64 _ _ = Ok _ => unfold sql_u64 in H
  | update_account _ _ _ = Ok _ => unfold update_account in H
  | upsert_account _ _ _ _ = Ok _ => unfold upsert_account in H
  | update_wallet _ _ = Ok _ => unfold update_wallet in H
  | wallet_row _ _ = Ok _ => unfold wallet_row in H
  | upsert_meta_val _ _ _ = Ok _ => unfold upsert_meta_val in H
  | upsertMetaUint _ _ _ = Ok _ => unfold upsertMetaUint in H
  | upsertMetaFloat _ _ _ = Ok _ => unfold upsertMetaFloat in H
  | upsertMeta _ _ _ = Ok _ => unfold upsertMeta in H
  | book_burn _ _ _ = Ok _ => unfold book_burn in H
  end.

Lemma sql_u64_ok v d : 0 ≤ v < two63 → sql_u64 v d = Ok (tt, d).
Proof.
  intros [H1 H2]. unfold sql_u64. apply Z.leb_le in H1. apply Z.ltb_lt in H2. by rewrite H1, H2.
Qed.

(** Run the next step of a transaction whose primitive cannot fail. *)
Ltac run_u64 tac := rewrite (bind_run (sql_u64 _) _ _ tt _) by (apply sql_u64_ok; tac).

(** Total of one balance column over all accounts. *)
Definition acct_sum (g : Account → Z) (d : DB) : Z := msum g (accounts d).
Abbreviation hmc_sum := (acct_sum balance_units).
Abbreviation sup_sum := (acct_sum balance_sup_units).
Abbreviation hms_sum := (acct_sum balance_hms_units).

Lemma accounts_upd f a d : accounts (upd_account f a d) = alter f a (accounts d).
Proof. unfold upd_account. rewrite alter_alt. by case_match. Qed.

Lemma accounts_ups ins f a d :
  accounts (ups_account ins f a d)
  = <[a := match accounts d !! a with Some x => f x | None => ins end]> (accounts d).
Proof. done. Qed.

(** What a single write changes, and what it leaves alone. *)
Create Rewrite HintDb db_frame.
Ltac db_frame := autorewrite with db_frame in *.

Lemma wallet_upd f a d : wallet (upd_account f a d) = wallet d.
Proof. unfold upd_account. by case_match. Qed.
Lemma meta_upd f a d : meta (upd_account f a d) = meta d.
Proof. unfold upd_account. by case_match. Qed.
Lemma escrows_upd f a d : escrows (upd_account f a d) = escrows d.
Proof. unfold upd_account. by case_match. Qed.
Lemma tasks_upd f a d : tasks (upd_account f a d) = tasks d.
Proof. unfold upd_account. by case_match. Qed.
Lemma blocks_upd f a d : blocks (upd_account f a d) = blocks d.
Proof. unfold upd_account. by case_match. Qed.
Lemma settle_upd f a d : settle_applied (upd_account f a d) = settle_applied d.
Proof. unfold upd_account. by case_match. Qed.
Lemma accounts_updw f d : accounts (upd_wallet f d) = accounts d.
Proof. unfold upd_wallet. by case_match. Qed.
Lemma meta_updw f d : meta (upd_wallet f d) = meta d.
Proof. unfold upd_wallet. by case_match. Qed.
Lemma escrows_updw f d : escrows (upd_wallet f d) = escrows d.
Proof. unfold upd_wallet. by case_match. Qed.
Lemma tasks_updw f d : tasks (upd_wallet f d) = tasks d.
Proof. unfold upd_wallet. by case_match. Qed.
Lemma blocks_updw f d : blocks (upd_wallet f d) = blocks d.
Proof. unfold upd_wallet. by case_match. Qed.
Lemma settle_updw f d : settle_applied (upd_wallet f d) = settle_applied d.
Proof. unfold upd_wallet. by case_match. Qed.
Lemma wallet_updw f d : wallet (upd_wallet f d)
  = (λ w, mkWallet (w_address w) (f (w_units w))) <$> wallet d.
Proof. unfold upd_wallet. destruct (wallet d) eqn:E; [done|]. by rewrite E. Qed.
#[export] Hint Rewrite wallet_upd meta_upd escrows_upd tasks_upd blocks_upd settle_upd accounts_updw
  meta_updw escrows_updw tasks_updw blocks_updw settle_updw : db_frame.

Lemma acct_sum_upd g f a d : acct_sum g (upd_account f a d)
  = acct_sum g d + match accounts d !! a with Some x => g (f x) - g x | None => 0 end.
Proof.
  unfold acct_sum, upd_account. destruct (accounts d !! a) as [x|] eqn:E; [|lia].
  cbn. rewrite msum_insert. unfold mval. rewrite E. lia.
Qed.

Lemma acct_sum_ups g ins f a d : acct_sum g (ups_account ins f a d)
  = acct_sum g d + match accounts d !! a with Some x => g (f x) - g x | None => g ins end.
Proof.
  unfold acct_sum. cbn. rewrite msum_insert. unfold mval. destruct (accounts d !! a); lia.
Qed.

Lemma acct_sum_accounts g d d' : accounts d' = accounts d → acct_sum g d' = acct_sum g d.
Proof. unfold acct_sum. by intros ->. Qed.

Lemma mval_upd g f a b d : mval g (accounts (upd_account f a d)) b
  = if bool_decide (a = b)
    then match accounts d !! a with Some x => g (f x) | None => 0 end
    else mval g (accounts d) b.
Proof.
  unfold mval. rewrite accounts_upd. case_bool_decide as E.
  - subst. rewrite lookup_alter_eq. by destruct (accounts d !! b).
  - by rewrite lookup_alter_ne.
Qed.

Lemma mval_ups g ins f a b d : mval g (accounts (ups_account ins f a d)) b
  = if bool_decide (a = b)
    then match accounts d !! a with Some x => g (f x) | None => g ins end
    else mval g (accounts d) b.
Proof.
  unfold mval. rewrite accounts_ups. case_bool_decide as E.
  - subst. rewrite lookup_insert_eq. by destruct (accounts d !! b).
  - by rewrite lookup_insert_ne.
Qed.

(** ** Well-formed balances

    Every column of every account is a non-negative 63-bit value. *)
Definition account_ok (a : Account) : Prop :=
  0 ≤ balance_units a < two63 ∧ 0 ≤ next_nonce a < two63 ∧
  0 ≤ balance_sup_units a < two63 ∧ 0 ≤ sup_next_nonce a < two63 ∧
  0 ≤ balance_hms_units a < two63 ∧ 0 ≤ hms_next_nonce a < two63.
Definition accounts_ok (d : DB) : Prop := map_Forall (λ _ a, account_ok a) (accounts d).

(** The primary wallet row mirrors the account of its address. *)
Definition mirrored (d : DB) : Prop :=
  match wallet d with Some w => w_units w = hmc d (w_address w) | None => True end.

Lemma empty_account_ok : account_ok empty_account.
Proof. unfold account_ok. cbn. unfold two63. lia. Qed.

Lemma sum_nonneg g d : (∀ a, account_ok a → 0 ≤ g a) → accounts_ok d → 0 ≤ acct_sum g d.
Proof. intros Hg Hd. apply msum_nonneg. intros k a Hk. apply Hg. by apply (Hd k). Qed.

Lemma balance_le_sum g d a x : (∀ a, account_ok a → 0 ≤ g a) → accounts_ok d →
  accounts d !! a = Some x → g x ≤ acct_sum g d.
Proof.
  intros Hg Hd Hx. unfold acct_sum. apply (msum_lookup_le g _ a x); [|done].
  intros k y Hy. apply Hg. by apply (Hd k).
Qed.

Lemma hmc_nonneg d a : accounts_ok d → 0 ≤ hmc d a.
Proof.
  intros Hd. unfold hmc, mval. destruct (accounts d !! a) as [x|] eqn:E; [|lia].
  specialize (Hd a x E). apply Hd.
Qed.

Lemma hmc_le_sum d a : accounts_ok d → hmc d a ≤ hmc_sum d.
Proof.
  intros Hd. unfold hmc, mval. destruct (accounts d !! a) as [x|] eqn:E.
  - apply (balance_le_sum balance_units d a x); [intros y Hy; apply Hy|exact Hd|exact E].
  - apply sum_nonneg; [intros y Hy; apply Hy|exact Hd].
Qed.

Lemma accounts_ok_upd f a d : accounts_ok d →
  (∀ x, accounts d !! a = Some x → account_ok x → account_ok (f x)) →
  accounts_ok (upd_account f a d).
Proof.
  intros Hd Hf b y. rewrite accounts_upd, lookup_alter. case_decide as E.
  - subst. destruct (accounts d !! b) as [x|] eqn:Ex; cbn; [|intros [=]]. intros [= <-].
    apply Hf; [done|]. by apply (Hd b).
  - apply Hd.
Qed.

Lemma accounts_ok_ups ins f a d : accounts_ok d →
  (accounts d !! a = None → account_ok ins) →
  (∀ x, accounts d !! a = Some x → account_ok x → account_ok (f x)) →
  accounts_ok (ups_account ins f a d).
Proof.
  intros Hd Hi Hf b y. rewrite accounts_ups, lookup_insert. case_decide as E.
  - subst. intros [= <-]. destruct (accounts d !! b) as [x|] eqn:Ex; [|by apply Hi].
    apply Hf; [done|]. by apply (Hd b).
  - apply Hd.
Qed.

(** ** Effects on the HMC columns

    [hmc_effect d d' δ ν s]: balances change by [δ], transfer nonces by [ν], the balance total by
    [s], and the SUP and HMS totals not at all. *)
Definition nonce (d : DB) (a : string) : Z := mval next_nonce (accounts d) a.

Record hmc_effect (d d' : DB) (δ ν : string → Z) (s : Z) : Prop := {
  he_bal : ∀ b, hmc d' b = hmc d b + δ b;
  he_nonce : ∀ b, nonce d' b = nonce d b + ν b;
  he_sum : hmc_sum d' = hmc_sum d + s;
  he_sup : sup_sum d' = sup_sum d;
  he_hms : hms_sum d' = hms_sum d;
}.

(** [v] at [a], 0 elsewhere. *)
Definition at_addr (a : string) (v : Z) (b : string) : Z := if bool_decide (a = b) then v else 0.

Lemma at_addr_eq a v : at_addr a v a = v.
Proof. unfold at_addr. by rewrite bool_decide_true. Qed.
Lemma at_addr_ne a v b : a ≠ b → at_addr a v b = 0.
Proof. intros. unfold at_addr. by rewrite bool_decide_false. Qed.

Lemma hmc_effect_none d d' : accounts d' = accounts d → hmc_effect d d' (λ _, 0) (λ _, 0) 0.
Proof. intros E. split; unfold hmc, nonce, acct_sum; rewrite E; intros; lia. Qed.

Lemma hmc_effect_trans d d1 d2 δ1 δ2 ν1 ν2 s1 s2 :
  hmc_effect d d1 δ1 ν1 s1 → hmc_effect d1 d2 δ2 ν2 s2 →
  hmc_effect d d2 (λ b, δ1 b + δ2 b) (λ b, ν1 b + ν2 b) (s1 + s2).
Proof.
  intros [A1 B1 C1 D1 E1] [A2 B2 C2 D2 E2].
  split; intros; rewrite ?A2, ?A1, ?B2, ?B1; try lia.
Qed.

Lemma hmc_effect_ext d d' δ δ' ν ν' s s' :
  hmc_effect d d' δ ν s → (∀ b, δ b = δ' b) → (∀ b, ν b = ν' b) → s = s' → hmc_effect d d' δ' ν' s'.
Proof. intros [A B C D E] H1 H2 ->. split; try done; intros b; rewrite <- ?H1, <- ?H2; auto. Qed.

(** Changing the HMC balance and nonce of an existing account. *)
Lemma hmc_effect_upd a f d x vb vn : accounts d !! a = Some x →
  balance_units (f x) = balance_units x + vb → next_nonce (f x) = next_nonce x + vn →
  balance_sup_units (f x) = balance_sup_units x → balance_hms_units (f x) = balance_hms_units x →
  hmc_effect d (upd_account f a d) (at_addr a vb) (at_addr a vn) vb.
Proof.
  intros Ex H1 H2 H3 H4. split; intros; unfold hmc, nonce.
  - rewrite mval_upd, Ex. unfold at_addr. case_bool_decide; [subst; unfold mval; rewrite Ex|]; lia.
  - rewrite mval_upd, Ex. unfold at_addr. case_bool_decide; [subst; unfold mval; rewrite Ex|]; lia.
  - rewrite acct_sum_upd, Ex. lia.
  - rewrite acct_sum_upd, Ex. lia.
  - rewrite acct_sum_upd, Ex. lia.
Qed.

(** Crediting [v] to an account that may not exist yet. *)
Lemma hmc_effect_ups a ins f d v :
  (accounts d !! a = None → balance_units ins = v ∧ next_nonce ins = 0 ∧
     balance_sup_units ins = 0 ∧ balance_hms_units ins = 0) →
  (∀ x, accounts d !! a = Some x → balance_units (f x) = balance_units x + v ∧
     next_nonce (f x) = next_nonce x ∧ balance_sup_units (f x) = balance_sup_units x ∧
     balance_hms_units (f x) = balance_hms_units x) →
  hmc_effect d (ups_account ins f a d) (at_addr a v) (λ _, 0) v.
Proof.
  intros Hi Hf. split; intros; unfold hmc, nonce;
    rewrite ?mval_ups, ?acct_sum_ups; unfold at_addr; try case_bool_decide; subst; unfold mval;
    destruct (accounts d !! _) as [x|]; try destruct (Hf x eq_refl) as (?&?&?&?);
    try destruct (Hi eq_refl) as (?&?&?&?); lia.
Qed.

Lemma accounts_ok_credit a v d : accounts_ok d → 0 ≤ v → hmc_sum d + v < two63 →
  accounts_ok (ups_account (mkAccount v 0 0 0 0 0) (λ x, set_hmc (balance_units x + v) x) a d).
Proof.
  intros Hd Hv Hs. assert (0 ≤ hmc_sum d) by (apply sum_nonneg; [intros y Hy; apply Hy|exact Hd]).
  apply accounts_ok_ups; [done| |].
  - intros _. unfold account_ok. cbn. unfold two63 in *. lia.
  - intros x Ex Hx. pose proof (balance_le_sum balance_units d a x (λ y Hy, proj1 (proj1 Hy)) Hd Ex).
    unfold account_ok in *. cbn. lia.
Qed.

(** ** The burn counter *)
Definition burned_units (d : DB) : Z := snd (econTotalsUnits d).

Lemma burned_units_meta d d' : meta d' = meta d → burned_units d' = burned_units d.
Proof. unfold burned_units, econTotalsUnits, metaUint, metaFloat. by intros ->. Qed.

Lemma book_burn_spec b m d u d' : 0 < b → book_burn b m d = Ok (u, d') →
  burned_units d' = b ∧ accounts d' = accounts d ∧ wallet d' = wallet d ∧ escrows d' = escrows d ∧
  tasks d' = tasks d ∧ blocks d' = blocks d ∧ address_pubkeys d' = address_pubkeys d ∧
  settle_applied d' = settle_applied d.
Proof.
  intros Hb H. inv_tx H. split; [|done].
  unfold burned_units, econTotalsUnits. cbn [snd].
  assert (metaUint (ups_meta metaTotalMintedHMC (MFloat (UnitsToHMC m))
    (ups_meta metaTotalBurnedHMC (MFloat (UnitsToHMC b))
    (ups_meta metaTotalBurnedUnits (MUint b) d))) metaTotalBurnedUnits 0 = b) as ->.
  { unfold metaUint. cbn [meta ups_meta set_meta].
    rewrite !lookup_insert_ne by discriminate. by rewrite lookup_insert_eq. }
  destruct (Z.eqb_spec b 0); [lia|done].
Qed.
