(* ===== verification/Address.v ===== *)
(** Addresses, the address/key binding, and the height-dependent rules of a spend.

    Sources: internal/chain/address_format.go, pubkey_binding.go, consensus_v2.go (checkTxChainID),
    transfers.go (addressFromPubKeyHex), service.go (isLowerHex).
    The hash and the signature scheme are parameters ([Crypto]). *)
From S2P Require Import Prelude Float64 GoText Params Ledger.

(** SHA-256 and Ed25519: what the code relies on is the digest length. *)
Class Crypto := {
  sha256 : string → string;
  ed25519_verify : string → string → string → bool;
  sha256_length : ∀ m, String.length (sha256 m) = 32%nat;
}.

(** * Formats *)

Definition addressPrefix : string := "HMC-".
Definition legacyAddressHexLen : Z := 16.
Definition longAddressHexLen : Z := 64.
Definition legacyAddressFullLen : Z := str_len addressPrefix + legacyAddressHexLen.
Definition longAddressFullLen : Z := str_len addressPrefix + longAddressHexLen.

Definition lower_hex_char (c : ascii) : bool :=
  let n := nat_of_ascii c in
  ((48 <=? n) && (n <=? 57) || (97 <=? n) && (n <=? 102))%nat.
Definition isLowerHex (s : string) : bool :=
  negb (String.eqb s "") && all_chars lower_hex_char s.

Definition IsLegacyAddress (a : string) : bool :=
  (str_len a =? legacyAddressFullLen) && has_prefix a addressPrefix
  && isLowerHex (trim_prefix a addressPrefix).
Definition IsLongAddress (a : string) : bool :=
  (str_len a =? longAddressFullLen) && has_prefix a addressPrefix
  && isLowerHex (trim_prefix a addressPrefix).
Definition IsValidAddress (a : string) : bool := IsLegacyAddress a || IsLongAddress a.

Section address.
Context `{ChainParams} `{Crypto}.

Definition LongAddressesActiveForIndex (idx : Z) : bool := EconomicsV2ActiveForIndex idx.

(** [hex.DecodeString(strings.TrimSpace(pubHex))] with the key-size check. *)
Definition decode_hex_len (n : nat) (s : string) : option string :=
  match hex_decode (trim_space s) with
  | Some raw => if Nat.eqb (String.length raw) n then Some raw else None
  | None => None
  end.

Fixpoint str_prefix (n : nat) (s : string) : string :=
  match n, s with S n', String a s' => String a (str_prefix n' s') | _, _ => EmptyString end.

Definition addressFromPubKeyHex (pubHex : string) : option string :=
  match decode_hex_len 32 pubHex with
  | Some raw => Some (addressPrefix +:+ str_prefix 16 (hex_encode (sha256 raw)))
  | None => None
  end.
Definition LongAddressFromPubKeyHex (pubHex : string) : option string :=
  match decode_hex_len 32 pubHex with
  | Some raw => Some (addressPrefix +:+ hex_encode (sha256 raw))
  | None => None
  end.

Definition pubKeyOwnsAddress (pubHex addr : string) : bool :=
  match addressFromPubKeyHex pubHex with
  | Some l => if String.eqb l addr then true
              else match LongAddressFromPubKeyHex pubHex with
                   | Some l => String.eqb l addr | None => false end
  | None => match LongAddressFromPubKeyHex pubHex with
            | Some l => String.eqb l addr | None => false end
  end.

(** Rule checks return the reject code, [""] when the spend passes. *)
Definition checkAddressRulesForIndex (idx : Z) (from to : string) : string :=
  if negb (LongAddressesActiveForIndex idx) then
    if IsLongAddress from || IsLongAddress to then "address_format_not_active" else ""
  else if negb (IsValidAddress from) then "invalid_address"
  else if negb (String.eqb to "") && negb (IsValidAddress to) then "invalid_address"
  else "".

(** * Binding *)

Definition PubKeyBindSourceHMC : string := "spend_hmc".
Definition PubKeyBindSourceSUP : string := "spend_sup".
Definition PubKeyBindSourceHMS : string := "spend_hms".
Definition PubKeyBindSourceBurn : string := "burn_sup".
Definition PubKeyBindSourceProof : string := "bind_proof".

Definition normPubKeyHex (v : string) : string := to_lower (trim_space v).
Definition AddressBindMessage (address pubKeyHex : string) : string :=
  "hackme-address-bind-v1|" +:+ trim_space address +:+ "|" +:+ normPubKeyHex pubKeyHex.
Definition PubKeyBindingEnforcedForIndex (idx : Z) : bool := EconomicsV2ActiveForIndex idx.

Definition boundPubKeyQ (d : DB) (address : string) : string :=
  match address_pubkeys d !! trim_space address with
  | Some r => normPubKeyHex (k_pubkey r)
  | None => ""
  end.

Definition checkPubKeyBindingQ (d : DB) (idx : Z) (from pubKeyHex : string) : string :=
  if negb (PubKeyBindingEnforcedForIndex idx) then ""
  else
    let bound := boundPubKeyQ d from in
    if negb (String.eqb bound "") && negb (String.eqb bound (normPubKeyHex pubKeyHex))
    then "pubkey_binding_mismatch" else "".

Definition checkSpendRulesQ (d : DB) (idx : Z) (from to pubKeyHex : string) : string :=
  let code := checkAddressRulesForIndex idx from to in
  if negb (String.eqb code "") then code else checkPubKeyBindingQ d idx from pubKeyHex.

Definition checkTxChainID (idx : Z) (chainID : string) : string :=
  let chainID := trim_space chainID in
  if EconomicsV2ActiveForIndex idx then
    if String.eqb chainID v2_chain_id then "" else "chain_id_mismatch"
  else if String.eqb chainID "" then "" else "chain_id_mismatch".

(** [INSERT ... ON CONFLICT(address) DO NOTHING] *)
Definition bind_row (address : string) (r : KeyRow) (d : DB) : DB :=
  match address_pubkeys d !! address with
  | Some _ => d
  | None => set_pubkeys (<[address := r]> (address_pubkeys d)) d
  end.
Definition bindPubKeyQ (address pubKeyHex : string) (idx : Z) (source : string) : tx DB unit :=
  let pub := normPubKeyHex pubKeyHex in
  if negb (str_len pub =? 64) then ret tt
  else sql_u64 idx ;;; modify (bind_row (trim_space address) (mkKeyRow pub idx source)).

(** Returns the outcome code; every other outcome leaves the database unchanged. *)
Definition BindAddressPubKey (address pubKeyHex sigHex : string) : tx DB string :=
  let address := trim_space address in
  if IsLongAddress address then fail "not_needed"
  else if negb (IsLegacyAddress address) then fail "invalid_address"
  else match decode_hex_len 32 pubKeyHex, decode_hex_len 64 sigHex with
  | None, _ | _, None => fail "invalid_signature"
  | Some pub, Some sig =>
      if negb (bool_decide (addressFromPubKeyHex pubKeyHex = Some address))
      then fail "address_pubkey_mismatch"
      else if negb (ed25519_verify pub (AddressBindMessage address pubKeyHex) sig)
      then fail "invalid_signature"
      else
        let* d := get in
        match accounts d !! address with
        | None => fail "unknown_address"
        | Some _ =>
            let idx := nextBlockIndexQ d in
            let bound := boundPubKeyQ d address in
            if negb (String.eqb bound "") then
              if negb (String.eqb bound (normPubKeyHex pubKeyHex))
              then fail "pubkey_binding_mismatch" else ret "already_bound"
            else bindPubKeyQ address pubKeyHex idx PubKeyBindSourceProof ;;; ret "bound"
        end
  end.
End address.

Ltac inv_tx_hook H ::=
  lazymatch type of H with
  | sql_u64 _ _ = Ok _ => unfold sql_u64 in H
  | update_account _ _ _ = Ok _ => unfold update_account in H
  | upsert_account _ _ _ _ = Ok _ => unfold upsert_account in H
  | update_wallet _ _ = Ok _ => unfold update_wallet in H
  | wallet_row _ _ = Ok _ => unfold wallet_row in H
  | upsert_meta_val _ _ _ = Ok _ => unfold upsert_meta_val in H
  | upsertMetaUint _ _ _ = Ok _ => unfold upsertMetaUint in H
  | upsertMetaFloat _ _ _ = Ok _ => unfold upsertMetaFloat in H
  | upsertMeta _ _ _ = Ok _ => unfold upsertMeta in H
  | book_burn _ _ _ = Ok _ => unfold book_burn in H
  | bindPubKeyQ _ _ _ _ _ = Ok _ => unfold bindPubKeyQ in H
  end.

(** * Facts *)

Lemma hex_encode_lower s : all_chars lower_hex_char (hex_encode s) = true.
Proof.
  induction s as [|c s IH]; [done|]. cbn [hex_encode all_chars]. rewrite IH.
  destruct c as [[] [] [] [] [] [] [] []]; vm_compute; reflexivity.
Qed.

Lemma str_prefix_all n P s : all_chars P s = true → all_chars P (str_prefix n s) = true.
Proof.
  revert s. induction n as [|n IH]; intros [|c s] Hs; try done.
  cbn [str_prefix all_chars] in *. b2p. by rewrite H, IH.
Qed.

Lemma str_prefix_length n s : String.length (str_prefix n s) = Nat.min n (String.length s).
Proof. revert s. induction n as [|n IH]; intros [|c s]; cbn; [done..|]. by rewrite IH. Qed.

Lemma prefixed_address p s : s ≠ "" → all_chars lower_hex_char s = true →
  has_prefix (p +:+ s) p = true ∧ isLowerHex (trim_prefix (p +:+ s) p) = true.
Proof.
  intros Hs Ha. assert (strip_prefix p (p +:+ s) = Some s) as E.
  { apply strip_prefix_spec. done. }
  unfold has_prefix, trim_prefix. rewrite E. split; [done|].
  unfold isLowerHex. by rewrite (proj2 (String.eqb_neq _ _)), Ha by done.
Qed.

Section facts.
Context `{ChainParams} `{Crypto}.

Lemma decode_hex_len_some n s raw : decode_hex_len n s = Some raw → String.length raw = n.
Proof.
  unfold decode_hex_len. destruct (hex_decode (trim_space s)) as [r|]; [|done].
  destruct (Nat.eqb_spec (String.length r) n) as [E|]; [|done]. by intros [= <-].
Qed.

Lemma legacy_address pub a : addressFromPubKeyHex pub = Some a → IsLegacyAddress a = true.
Proof.
  unfold addressFromPubKeyHex. destruct (decode_hex_len 32 pub) as [raw|]; [|done].
  intros E0%(inj Some). subst a. set (s := str_prefix 16 (hex_encode (sha256 raw))).
  assert (Hl : String.length s = 16%nat).
  { unfold s. by rewrite str_prefix_length, hex_encode_length, sha256_length. }
  destruct (prefixed_address addressPrefix s) as [P1 P2].
  { intros E. by rewrite E in Hl. }
  { apply str_prefix_all, hex_encode_lower. }
  unfold IsLegacyAddress. rewrite P1, P2. unfold str_len. rewrite string_length_app, Hl. done.
Qed.

Lemma long_address pub a : LongAddressFromPubKeyHex pub = Some a → IsLongAddress a = true.
Proof.
  unfold LongAddressFromPubKeyHex. destruct (decode_hex_len 32 pub) as [raw|]; [|done].
  intros E0%(inj Some). subst a. set (s := hex_encode (sha256 raw)).
  assert (Hl : String.length s = 64%nat).
  { unfold s. by rewrite hex_encode_length, sha256_length. }
  destruct (prefixed_address addressPrefix s) as [P1 P2].
  { intros E. by rewrite E in Hl. }
  { apply hex_encode_lower. }
  unfold IsLongAddress. rewrite P1, P2. unfold str_len. rewrite string_length_app, Hl. done.
Qed.

Lemma owned_valid pub a : pubKeyOwnsAddress pub a = true → IsValidAddress a = true.
Proof.
  unfold pubKeyOwnsAddress, IsValidAddress. intros H1.
  destruct (addressFromPubKeyHex pub) as [l|] eqn:E1.
  - destruct (String.eqb_spec l a) as [->|_].
    + by rewrite (legacy_address pub a).
    + destruct (LongAddressFromPubKeyHex pub) as [l'|] eqn:E2; [|done].
      apply String.eqb_eq in H1 as ->. rewrite (long_address pub a) by done. apply orb_true_r.
  - destruct (LongAddressFromPubKeyHex pub) as [l'|] eqn:E2; [|done].
    apply String.eqb_eq in H1 as ->. rewrite (long_address pub a) by done. apply orb_true_r.
Qed.

Lemma valid_address_plain a : IsValidAddress a = true → all_chars plain a = true.
Proof.
  intros H1. assert (has_prefix a addressPrefix = true ∧ isLowerHex (trim_prefix a addressPrefix) = true)
    as [P1 P2].
  { unfold IsValidAddress, IsLegacyAddress, IsLongAddress in H1.
    apply orb_true_iff in H1 as [H1|H1]; b2p; done. }
  apply has_prefix_spec in P1 as [r ->]. unfold trim_prefix in P2.
  rewrite (proj2 (strip_prefix_spec addressPrefix (addressPrefix +:+ r) r) eq_refl) in P2.
  unfold isLowerHex in P2. apply andb_true_iff in P2 as [_ P2]. rewrite all_chars_app.
  apply andb_true_iff. split; [done|]. revert P2. apply all_chars_imp.
  apply ascii_forall_imp. vm_compute. reflexivity.
Qed.

Lemma valid_address_trim a : IsValidAddress a = true → trim_space a = a.
Proof. intros. by apply trim_space_plain, valid_address_plain. Qed.

Lemma decoded_key_norm pub raw : decode_hex_len 32 pub = Some raw →
  str_len (normPubKeyHex pub) = 64 ∧ normPubKeyHex (normPubKeyHex pub) = normPubKeyHex pub.
Proof.
  intros Hd. pose proof (decode_hex_len_some _ _ _ Hd) as Hl. unfold decode_hex_len in Hd.
  destruct (hex_decode (trim_space pub)) as [r|] eqn:E; [|done].
  destruct (Nat.eqb_spec (String.length r) 32) as [Er|]; [|done].
  unfold str_len, normPubKeyHex. split.
  - rewrite to_lower_plain_length by (by eapply hex_decode_plain).
    rewrite (hex_decode_length _ _ E), Er. done.
  - by apply (norm_hex_idem _ r).
Qed.

Lemma bind_row_keeps address r d a row : address_pubkeys d !! a = Some row →
  address_pubkeys (bind_row address r d) !! a = Some row.
Proof.
  intros Ha. unfold bind_row. destruct (address_pubkeys d !! address) as [x|] eqn:E; [done|].
  cbn. rewrite lookup_insert_ne; [done|congruence].
Qed.

Lemma accounts_bind_row address r d : accounts (bind_row address r d) = accounts d.
Proof. unfold bind_row. by case_match. Qed.
Lemma wallet_bind_row address r d : wallet (bind_row address r d) = wallet d.
Proof. unfold bind_row. by case_match. Qed.
Lemma meta_bind_row address r d : meta (bind_row address r d) = meta d.
Proof. unfold bind_row. by case_match. Qed.
End facts.
#[export] Hint Rewrite @accounts_bind_row @wallet_bind_row @meta_bind_row : db_frame.

(** * A concrete instance, for the examples *)

Fixpoint zeros (n : nat) : string :=
  match n with O => EmptyString | S k => String (ascii_of_nat 0) (zeros k) end.
Definition toy_sha256 (m : string) : string := str_prefix 32 (m +:+ zeros 32).
Lemma toy_sha256_length m : String.length (toy_sha256 m) = 32%nat.
Proof.
  unfold toy_sha256. rewrite str_prefix_length, string_length_app.
  change (String.length (zeros 32)) with 32%nat. lia.
Qed.
(** A signature is the key, twice. *)
Definition toy_crypto : Crypto :=
  {| sha256 := toy_sha256; ed25519_verify := λ pub _ sig, String.eqb sig (pub +:+ pub);
     sha256_length := toy_sha256_length |}.

(** 64 hex digits of one kind: a toy key in its hex form. *)
Fixpoint repeat_char (n : nat) (c : ascii) : string :=
  match n with O => EmptyString | S k => String c (repeat_char k c) end.
Definition pubkeys_ok (d : DB) : Prop :=
  map_Forall (λ _ r, normPubKeyHex (k_pubkey r) ≠ "") (address_pubkeys d).

Definition toy_key (c : ascii) : string := repeat_char 64 c.
Definition toy_sig (c : ascii) : string := repeat_char 128 c.
Definition toy_addr (c : ascii) : string := addressPrefix +:+ repeat_char 16 c.

Example toy_addr_owned : @pubKeyOwnsAddress toy_crypto (toy_key "a") (toy_addr "a") = true.
Proof. vm_compute. reflexivity. Qed.

(** * Properties *)

(** Key binding is first-writer-wins and enforced. Once a key is bound to an address, no later
    bind (of any address, key, height or source) changes it; and from the Economics v2 height a
    spend from that address passes the spend rules exactly when both addresses are canonical and
    its key, up to hex case and surrounding space, is the bound one. *)
Theorem key_binding_exclusive `{ChainParams} `{Crypto} d d' a k addr pub idx src idx2 to pub2 :
  boundPubKeyQ d a = k → k ≠ "" →
  bindPubKeyQ addr pub idx src d = Ok (tt, d') →
  PubKeyBindingEnforcedForIndex idx2 = true →
  boundPubKeyQ d' a = k ∧
  (checkSpendRulesQ d' idx2 a to pub2 = "" ↔
   IsValidAddress a = true ∧ (to = "" ∨ IsValidAddress to = true) ∧ normPubKeyHex pub2 = k).
Proof.
  intros Hk Hne Hb Hv2.
  assert (Hk' : boundPubKeyQ d' a = k).
  { unfold boundPubKeyQ in Hk |- *. destruct (address_pubkeys d !! trim_space a) as [r|] eqn:E; [|by subst].
    inv_tx Hb; [by rewrite E|]. by rewrite (bind_row_keeps _ _ _ _ r). }
  split; [done|]. unfold checkSpendRulesQ, checkAddressRulesForIndex, checkPubKeyBindingQ.
  unfold LongAddressesActiveForIndex. unfold PubKeyBindingEnforcedForIndex in *.
  rewrite Hv2, Hk'. cbn [negb].
  destruct (String.eqb_spec k ""); [done|].
  destruct (IsValidAddress a); cbn [negb]; [|split; [done|by intros [? _]]].
  destruct (String.eqb_spec to "") as [->|Hto]; cbn [negb andb].
  - cbn. destruct (String.eqb_spec k (normPubKeyHex pub2)) as [->|]; cbn; [by intuition|].
    split; [done|]. intros (_ & _ & E). congruence.
  - destruct (IsValidAddress to); cbn.
    + destruct (String.eqb_spec k (normPubKeyHex pub2)) as [->|]; cbn; [by intuition|].
      split; [done|]. intros (_ & _ & E). congruence.
    + split; [done|]. intros (_ & [?|?] & _); congruence.
Qed.

Lemma key_binding_exclusive_witness :
  let P := params_of empty_env 0 in let C := toy_crypto in
  let d := bind_row (toy_addr "a") (mkKeyRow (toy_key "a") 600000 PubKeyBindSourceProof) empty_db in
  boundPubKeyQ (run (bindPubKeyQ (toy_addr "a") (toy_key "b") 600001 PubKeyBindSourceHMC) d)
    (toy_addr "a") = toy_key "a".
Proof.
  pose proof (key_binding_exclusive (H := params_of empty_env 0) (H0 := toy_crypto)
    (bind_row (toy_addr "a") (mkKeyRow (toy_key "a") 600000 PubKeyBindSourceProof) empty_db)
    (run (bindPubKeyQ (toy_addr "a") (toy_key "b") 600001 PubKeyBindSourceHMC)
       (bind_row (toy_addr "a") (mkKeyRow (toy_key "a") 600000 PubKeyBindSourceProof) empty_db))
    (toy_addr "a") (toy_key "a") (toy_addr "a") (toy_key "b") 600001 PubKeyBindSourceHMC 600002
    (toy_addr "b") (toy_key "a")
    ltac:(vm_compute; reflexivity) ltac:(discriminate) ltac:(vm_compute; reflexivity)
    ltac:(vm_compute; reflexivity)) as [E _]. exact E.
Defined.

(** A successful bind proof binds exactly the proven key. [BindAddressPubKey] answers "bound"
    only for a funded legacy address that is the hash of the key, with a signature of that key on
    the bind message, and only when no key was bound; afterwards the address is bound to that key,
    balances are untouched, and repeating the request answers "already_bound" without effect.
    (Stored keys are never blank: [bindPubKeyQ] only inserts 64-character keys.) *)
Theorem BindAddressPubKey_sound `{Crypto} d d' address pub sig :
  pubkeys_ok d →
  BindAddressPubKey address pub sig d = Ok ("bound"%string, d') →
  let a := trim_space address in
  IsLegacyAddress a = true ∧ addressFromPubKeyHex pub = Some a ∧
  (∃ raw s, decode_hex_len 32 pub = Some raw ∧ decode_hex_len 64 sig = Some s ∧
            ed25519_verify raw (AddressBindMessage a pub) s = true) ∧
  is_Some (accounts d !! a) ∧ boundPubKeyQ d a = "" ∧
  boundPubKeyQ d' a = normPubKeyHex pub ∧ accounts d' = accounts d ∧ wallet d' = wallet d ∧
  BindAddressPubKey address pub sig d' = Ok ("already_bound"%string, d').
Proof.
  intros Hok Hb a. unfold BindAddressPubKey in Hb |- *. fold a in Hb |- *.
  destruct (IsLongAddress a) eqn:E1; [done|]. destruct (IsLegacyAddress a) eqn:E2; [|done].
  cbn [negb] in *. destruct (decode_hex_len 32 pub) as [raw|] eqn:E3; [|done].
  destruct (decode_hex_len 64 sig) as [s|] eqn:E4; [|done].
  destruct (bool_decide (addressFromPubKeyHex pub = Some a)) eqn:E5; [|done].
  destruct (ed25519_verify raw (AddressBindMessage a pub) s) eqn:E6; [|done].
  cbn [negb] in *. apply bool_decide_eq_true in E5.
  assert (Ht : trim_space a = a) by (apply valid_address_trim; unfold IsValidAddress; by rewrite E2).
  destruct (decoded_key_norm pub raw E3) as [Hlen Hidem].
  unfold bind, get at 1 in Hb. destruct (accounts d !! a) as [acc|] eqn:E7; [|done].
  destruct (String.eqb_spec (boundPubKeyQ d a) "") as [E8|E8]; cbn [negb] in Hb.
  2: { destruct (String.eqb _ _); cbn in Hb; [|done]. by injection Hb. }
  unfold bindPubKeyQ in Hb. rewrite Hlen in Hb. cbn [Z.eqb negb Pos.eqb] in Hb.
  destruct (sql_u64 (nextBlockIndexQ d) d) as [[[] d1]|] eqn:E9; [|unfold bind in Hb; by rewrite E9 in Hb].
  unfold bind in Hb. rewrite E9 in Hb. unfold sql_u64 in E9. apply guard_ok in E9 as [_ ->].
  cbn in Hb. injection Hb as <-. rewrite Ht.
  assert (Hbound : boundPubKeyQ (bind_row a (mkKeyRow (normPubKeyHex pub) (nextBlockIndexQ d)
      PubKeyBindSourceProof) d) a = normPubKeyHex pub).
  { unfold boundPubKeyQ in *. rewrite Ht in *. unfold bind_row.
    destruct (address_pubkeys d !! a) as [r|] eqn:Er.
    - by destruct (Hok a r Er).
    - cbn. rewrite lookup_insert_eq. cbn. done. }
  unfold bind, get. rewrite accounts_bind_row, E7, Hbound.
  destruct (String.eqb_spec (normPubKeyHex pub) "") as [E0|_]; [by rewrite E0 in Hlen|].
  cbn [negb]. rewrite String.eqb_refl. db_frame.
  repeat split; try done; eauto.
Qed.

Lemma BindAddressPubKey_sound_witness :
  let P := params_of empty_env 0 in let C := toy_crypto in
  let d := ups_account empty_account (λ x, x) (toy_addr "a") empty_db in
  boundPubKeyQ (run (BindAddressPubKey (toy_addr "a") (toy_key "a") (toy_sig "a")) d) (toy_addr "a")
  = toy_key "a".
Proof.
  pose proof (BindAddressPubKey_sound (H := toy_crypto)
    (ups_account empty_account (λ x, x) (toy_addr "a") empty_db)
    (@run _ _ (@BindAddressPubKey toy_crypto (toy_addr "a") (toy_key "a") (toy_sig "a"))
       (ups_account empty_account (λ x, x) (toy_addr "a") empty_db))
    (toy_addr "a") (toy_key "a") (toy_sig "a") (map_Forall_empty _)
    ltac:(vm_compute; reflexivity)) as (_ & _ & _ & _ & _ & E & _). exact E.
Defined.
