(* ===== verification/GoSort.v ===== *)
(** [sort.SliceStable] and SQL [ORDER BY]: stable insertion sort with the caller's [less].

    Up to 20 elements this is Go's algorithm step by step; beyond that Go merges sorted blocks,
    which gives the same list for every [less] that is a strict weak order. *)
From Stdlib Require Import Sorting.Sorted.
From S2P Require Import Prelude.

Section sort.
Context {A : Type} (less : A → A → bool).

(** Insert [x] after a sorted prefix, given in reverse: move left while [less x y]. *)
Fixpoint ins_rev (x : A) (rl : list A) : list A :=
  match rl with
  | [] => [x]
  | y :: r => if less x y then y :: ins_rev x r else x :: y :: r
  end.

Fixpoint sort_rev (acc l : list A) : list A :=
  match l with [] => acc | x :: l' => sort_rev (ins_rev x acc) l' end.

Definition sort_stable (l : list A) : list A := rev (sort_rev [] l).

Lemma ins_rev_perm x rl : Permutation (ins_rev x rl) (x :: rl).
Proof.
  induction rl as [|y r IH]; cbn [ins_rev]; [done|]. destruct (less x y); [|done].
  rewrite IH. apply Permutation_swap.
Qed.

Lemma sort_rev_perm acc l : Permutation (sort_rev acc l) (acc ++ l).
Proof.
  revert acc. induction l as [|x l IH]; intros acc; cbn [sort_rev]; [by rewrite app_nil_r|].
  rewrite IH, ins_rev_perm. by rewrite <- Permutation_middle.
Qed.

Lemma sort_stable_perm l : Permutation (sort_stable l) l.
Proof. unfold sort_stable. rewrite <- Permutation_rev. apply (sort_rev_perm []). Qed.

(** [y] may stand before [x]: it is not the case that [x] must come first. *)
Definition ok_before (y x : A) : Prop := less x y = false.

(** The comparison need only be a strict weak order on the elements at hand ([P]). *)
Context (P : A → Prop).
Context (less_irrefl : ∀ x, P x → less x x = false).
Context (less_trans : ∀ x y z, P x → P y → P z → less x y = false → less y z = false → less x z = false).
Context (less_asym : ∀ x y, P x → P y → less x y = true → less y x = false).

Lemma ins_rev_sorted x rl : P x → Forall P rl →
  StronglySorted (λ a b, less a b = false) rl →
  StronglySorted (λ a b, less a b = false) (ins_rev x rl).
Proof using P less less_asym less_trans.
  intros Hx HP Hs. induction Hs as [|y r Hs IH Hy]; cbn [ins_rev].
  - repeat constructor.
  - apply list.Forall_cons in HP as [Py Pr]. destruct (less x y) eqn:E.
    + constructor; [by apply IH|]. apply list.Forall_forall. intros z Hz.
      rewrite (ins_rev_perm x r) in Hz. apply elem_of_cons in Hz as [->|Hz].
      * by apply less_asym.
      * by apply (proj1 (list.Forall_forall _ _) Hy).
    + constructor; [by constructor|]. constructor; [done|].
      apply list.Forall_forall. intros z Hz. apply (less_trans x y z); try done.
      * by apply (proj1 (list.Forall_forall _ _) Pr).
      * by apply (proj1 (list.Forall_forall _ _) Hy).
Qed.

Lemma sort_rev_sorted acc l : Forall P acc → Forall P l →
  StronglySorted (λ a b, less a b = false) acc →
  StronglySorted (λ a b, less a b = false) (sort_rev acc l).
Proof using P less less_asym less_trans.
  revert acc. induction l as [|x l IH]; intros acc Ha Hl Hs; cbn [sort_rev]; [done|].
  apply list.Forall_cons in Hl as [Hx Hl]. apply IH; [|done|by apply ins_rev_sorted].
  rewrite (ins_rev_perm x acc). by constructor.
Qed.

Lemma StronglySorted_rev (R : A → A → Prop) l :
  StronglySorted R l → StronglySorted (λ a b, R b a) (rev l).
Proof.
  induction 1 as [|x l Hs IH Hx]; cbn [rev]; [constructor|].
  assert (∀ l1 l2, StronglySorted (λ a b, R b a) l1 → StronglySorted (λ a b, R b a) l2 →
    (∀ a b, a ∈ l1 → b ∈ l2 → R b a) → StronglySorted (λ a b, R b a) (l1 ++ l2)) as Happ.
  { induction l1 as [|a l1 IH1]; intros l2 H1 H2 H12; [done|]. cbn.
    apply StronglySorted_inv in H1 as [H1 Ha]. constructor.
    - apply IH1; try done. intros. apply H12; [by right|done].
    - apply list.Forall_app. split; [done|]. apply list.Forall_forall. intros b Hb. apply H12; [left|done]. }
  apply Happ; [done|repeat constructor|].
  intros a b Ha Hb. apply list_elem_of_singleton in Hb as ->.
  rewrite <- Permutation_rev in Ha. by apply (proj1 (list.Forall_forall _ _) Hx).
Qed.

Lemma sort_stable_sorted l : Forall P l → StronglySorted ok_before (sort_stable l).
Proof using P less less_asym less_trans.
  intros Hl. unfold sort_stable.
  apply (StronglySorted_rev (λ a b, less a b = false)), sort_rev_sorted; [constructor|done|constructor].
Qed.
End sort.

Lemma StronglySorted_weaken {A} (R R' : A → A → Prop) l : StronglySorted R l →
  (∀ x y, x ∈ l → y ∈ l → R x y → R' x y) → StronglySorted R' l.
Proof.
  induction 1 as [|x l Hs IH Hx]; intros H; [constructor|]. constructor.
  - apply IH. intros a b Ha Hb. apply H; by right.
  - apply list.Forall_forall. intros y Hy. apply H; [left|by right|].
    by apply (proj1 (list.Forall_forall _ _) Hx).
Qed.

Lemma StronglySorted_split {A} (R : A → A → Prop) l1 l2 : StronglySorted R (l1 ++ l2) →
  ∀ x y, x ∈ l1 → y ∈ l2 → R x y.
Proof.
  induction l1 as [|a l1 IH]; cbn; intros Hs x y Hx Hy; [by apply elem_of_nil in Hx|].
  apply StronglySorted_inv in Hs as [Hs Ha]. apply elem_of_cons in Hx as [->|Hx]; [|by apply IH].
  apply (proj1 (list.Forall_forall _ _) Ha). apply elem_of_app. by right.
Qed.
