(* ===== verification/Transfers.v ===== *)
(** The HMC transfer lane: signed bytes, validation, the pending pool, and the application of a
    batch when a block is appended or imported.

    Source: internal/chain/transfers.go.  [now] is [time.Now().Unix()].  Validation returns the
    reject code, [""] on acceptance.  The pool keeps the decoded transaction; its stored JSON is
    what [SubmitTransferTx] marshalled from it. *)
From S2P Require Import Prelude Float64 GoText Params Emission OrderFee Json Ledger Address GoSort.

Definition DefaultTransferMinFee : Z := 1000.
Definition DefaultTransferMaxBatch : Z := 256.
Definition TransferSigAlgEd25519 : string := "ed25519".

(** * Signed payload *)

Definition canonical_fields (t : TransferTx) : list jfield :=
  [ JStr "tx_type" (TxType t);
    JStrOmit "sig_alg" (trim_space (to_lower (SigAlg t)));
    JStr "from" (trim_space (From t));
    JStr "to" (trim_space (To t));
    JUint "amount_units" (AmountUnits t);
    JUint "fee_units" (FeeUnits t);
    JUint "nonce" (Nonce t);
    JInt "timestamp_unix" (TimestampUnix t);
    JStrOmit "memo" (Memo t);
    JStr "pubkey_ed25519" (trim_space (PubKeyEd25519 t));
    JStrOmit "chain_id" (trim_space (ChainID t)) ].
Definition canonicalBytes (t : TransferTx) : string := json_object (canonical_fields t).

Definition HashHex `{Crypto} (t : TransferTx) : string := hex_encode (sha256 (canonicalBytes t)).

(** * Validation *)

Definition ValidateTransferShape (now : Z) (t : TransferTx) : string :=
  if negb (String.eqb (TxType t) "transfer_v1") then "invalid_tx_type"
  else
    let from := trim_space (From t) in
    let to := trim_space (To t) in
    if String.eqb from "" || String.eqb to "" || String.eqb from to then "invalid_address"
    else if negb (String.eqb (From t) from) || negb (String.eqb (To t) to) then "invalid_address"
    else if AmountUnits t =? 0 then "invalid_amount"
    else if FeeUnits t <? DefaultTransferMinFee then "invalid_fee"
    else if 256 <? str_len (Memo t) then "invalid_memo"
    else if TimestampUnix t <=? 0 then "invalid_timestamp"
    else if TimestampUnix t <? now - 86400 then "tx_too_old"
    else if now + 3600 <? TimestampUnix t then "tx_too_far_in_future"
    else "".

(** The signature part, common to the three lanes; [msg] is the signed payload. *)
Definition checkSignature `{Crypto} (t : TransferTx) (msg : string) : string :=
  let alg := trim_space (to_lower (SigAlg t)) in
  let alg := if String.eqb alg "" then TransferSigAlgEd25519 else alg in
  if negb (String.eqb alg TransferSigAlgEd25519) then "unsupported_sig_alg"
  else match decode_hex_len 32 (PubKeyEd25519 t) with
  | None => "invalid_signature"
  | Some pub =>
      match decode_hex_len 64 (SigEd25519 t) with
      | None => "invalid_signature"
      | Some sig =>
          if negb (ed25519_verify pub msg sig) then "invalid_signature"
          else if negb (pubKeyOwnsAddress (PubKeyEd25519 t) (From t)) then "address_pubkey_mismatch"
          else ""
      end
  end.

Definition validateTransferTx `{Crypto} (now : Z) (t : TransferTx) (d : DB) : string :=
  let code := ValidateTransferShape now t in
  if negb (String.eqb code "") then code
  else
    let code := checkSignature t (canonicalBytes t) in
    if negb (String.eqb code "") then code
    else match accounts d !! From t with
    | None => "insufficient_balance"
    | Some a =>
        if negb (next_nonce a =? Nonce t) then "invalid_nonce"
        else
          let total := u64 (AmountUnits t + FeeUnits t) in
          if (total <? AmountUnits t) || (balance_units a <? total) then "insufficient_balance"
          else ""
    end.

(** Validation as the block pipeline runs it: transaction, network, then spend rules. *)
Definition transferCode `{ChainParams} `{Crypto} (now idx : Z) (t : TransferTx) (d : DB) : string :=
  let code := validateTransferTx now t d in
  if negb (String.eqb code "") then code
  else
    let code := checkTxChainID idx (ChainID t) in
    if negb (String.eqb code "") then code
    else checkSpendRulesQ d idx (From t) (To t) (PubKeyEd25519 t).

(** * The pool *)

Definition pending_of (from : string) (nonce : Z) (p : PoolRow) : bool :=
  String.eqb (From (p_tx p)) from && (Nonce (p_tx p) =? nonce) && String.eqb (p_status p) "pending".

(** On success the transaction hash, with the row appended; an error leaves the pool as it was. *)
Definition SubmitTransferTx `{ChainParams} `{Crypto} (now : Z) (t : TransferTx) : tx DB string :=
  let* d := get in
  let code := transferCode now (nextBlockIndexQ d) t d in
  if negb (String.eqb code "") then fail code
  else
    let txHash := HashHex t in
    match tx_history d !! txHash with
    | Some _ => fail "duplicate_or_replay"
    | None =>
        match List.find (pending_of (From t) (Nonce t)) (tx_pool d) with
        | Some p => if String.eqb (trim_space (p_hash p)) txHash then fail "duplicate_or_replay"
                    else fail "pending_nonce_conflict"
        | None =>
            sql_u64 (Nonce t) ;;; sql_u64 (FeeUnits t) ;;; sql_u64 (AmountUnits t) ;;;
            (if existsb (λ p, String.eqb (p_hash p) txHash) (tx_pool d) then fail "duplicate_or_replay"
             else ret tt) ;;;
            put (set_tx_pool (tx_pool d ++ [mkPoolRow txHash t now "pending" ""]) d) ;;;
            ret txHash
        end
    end.

Definition RejectStaleLocalPending (from : string) (authoritativeNonce : Z) : tx DB Z :=
  let from := trim_space from in
  if String.eqb from "" then ret 0
  else
    sql_u64 authoritativeNonce ;;;
    let* d := get in
    let stale p := String.eqb (From (p_tx p)) from && String.eqb (p_status p) "pending"
                   && negb (Nonce (p_tx p) =? authoritativeNonce) in
    put (set_tx_pool (map (λ p, if stale p
           then mkPoolRow (p_hash p) (p_tx p) (p_received_at p) "rejected" "stale_local_fork"
           else p) (tx_pool d)) d) ;;;
    ret (Z.of_nat (length (List.filter stale (tx_pool d)))).

(** [ORDER BY fee_units DESC, received_at ASC]: does [p] come strictly before [q]? *)
Definition fee_less (p q : PoolRow) : bool :=
  if FeeUnits (p_tx p) =? FeeUnits (p_tx q) then p_received_at p <? p_received_at q
  else FeeUnits (p_tx q) <? FeeUnits (p_tx p).

(** The [less] of [loadPendingTransfers]. *)
Definition pending_less (p q : PoolRow) : bool :=
  if String.eqb (From (p_tx p)) (From (p_tx q)) && negb (Nonce (p_tx p) =? Nonce (p_tx q))
  then Nonce (p_tx p) <? Nonce (p_tx q)
  else fee_less p q.

Definition pending_rows (pool : list PoolRow) : list PoolRow :=
  List.filter (λ p, String.eqb (p_status p) "pending") pool.

Definition loadPendingTransfers (limit : Z) (d : DB) : list PoolRow :=
  let limit := if limit <=? 0 then DefaultTransferMaxBatch else limit in
  sort_stable pending_less
    (take (Z.to_nat limit) (sort_stable fee_less (pending_rows (tx_pool d)))).

(** * Applying a batch *)

Definition delete_pool (hash : string) (d : DB) : DB :=
  set_tx_pool (List.filter (λ p, negb (String.eqb (p_hash p) hash)) (tx_pool d)) d.

(** [INSERT ... ON CONFLICT(tx_hash) DO NOTHING] *)
Definition hist_insert (hash : string) (r : HistRow) (h : gmap string HistRow) : gmap string HistRow :=
  match h !! hash with Some _ => h | None => <[hash := r]> h end.
(** [INSERT ... ON CONFLICT(tx_hash) DO UPDATE SET status='included', ...] *)
Definition hist_include (hash : string) (r : HistRow) (h : gmap string HistRow) : gmap string HistRow :=
  <[hash := match h !! hash with
            | Some o => mkHistRow (h_from o) (h_to o) (h_nonce o) (h_fee o) (h_amount o) "included"
                          (h_block r) (h_block_hash r) (h_applied_at r) "" (h_memo o)
            | None => r
            end]> h.

Definition hist_row (t : TransferTx) (status : string) (idx : Z) (bhash : string) (now : Z) (code : string)
    : HistRow :=
  mkHistRow (From t) (To t) (Nonce t) (FeeUnits t) (AmountUnits t) status idx bhash now code (Memo t).

Definition reject_transfer (now : Z) (item : PoolRow) (code : string) : tx DB unit :=
  modify (λ d, set_tx_history
    (hist_insert (p_hash item) (hist_row (p_tx item) "rejected" (-1) "" now code) (tx_history d)) d) ;;;
  modify (delete_pool (p_hash item)).

Definition fee_burn (fee : Z) (share : f64) : Z := f_trunc (f_mul (f_of_Z fee) share).

(** The fee share credited to the developer address, mirrored when that is the primary wallet. *)
Definition pay_dev_fee (walletAddr : string) (devFeeUnits : Z) : tx DB unit :=
  if 0 <? devFeeUnits then
    sql_u64 devFeeUnits ;;;
    upsert_account (mkAccount devFeeUnits 0 0 0 0 0)
      (λ a, set_hmc (balance_units a + devFeeUnits) a) DevFeeAddress ;;;
    (if String.eqb DevFeeAddress walletAddr then update_wallet (λ u, u + devFeeUnits) else ret tt)
  else ret tt.

Definition burn_fee (burnFeeUnits : Z) : tx DB unit :=
  if 0 <? burnFeeUnits then
    let* d := get in
    let '(minted, burned) := econTotalsUnits d in
    book_burn (u64 (burned + burnFeeUnits)) minted
  else ret tt.

(** The wallet row follows the account when this transfer touched it. *)
Definition mirror_wallet (touched : bool) (walletAddr : string) : tx DB unit :=
  if touched then
    let* d := get in
    match accounts d !! walletAddr with
    | None => fail ErrNoRows
    | Some a => update_wallet (λ _, balance_units a)
    end
  else ret tt.

(** Sender and recipient rows: both are read before either is written. *)
Definition debit_credit (t : TransferTx) : tx DB unit :=
  let* d := get in
  match accounts d !! From t with
  | None => fail ErrNoRows
  | Some fa =>
      let '(toBal, toNonce) := match accounts d !! To t with
                               | Some ta => (balance_units ta, next_nonce ta) | None => (0, 0) end in
      let total := u64 (AmountUnits t + FeeUnits t) in
      let fromBal := u64 (balance_units fa - total) in
      let fromNonce := u64 (next_nonce fa + 1) in
      let toBal := u64 (toBal + AmountUnits t) in
      sql_u64 fromBal ;;; sql_u64 fromNonce ;;;
      update_account (λ a, set_nonce fromNonce (set_hmc fromBal a)) (From t) ;;;
      sql_u64 toBal ;;; sql_u64 toNonce ;;;
      upsert_account (mkAccount toBal toNonce 0 0 0 0) (set_hmc toBal) (To t)
  end.

(** The money movements of one accepted transfer. *)
Definition move_hmc (walletAddr : string) (t : TransferTx) : tx DB unit :=
  let burnFeeUnits := fee_burn (FeeUnits t) NetworkFeeBurnShare in
  let devFeeUnits := u64 (FeeUnits t - burnFeeUnits) in
  debit_credit t ;;;
  pay_dev_fee walletAddr devFeeUnits ;;;
  burn_fee burnFeeUnits ;;;
  mirror_wallet (String.eqb (From t) walletAddr || String.eqb (To t) walletAddr
                 || ((0 <? devFeeUnits) && String.eqb DevFeeAddress walletAddr)) walletAddr.

Definition apply_transfer `{ChainParams} `{Crypto} (now idx : Z) (blockHash walletAddr : string)
    (item : PoolRow) : tx DB unit :=
  let* d := get in
  let t := p_tx item in
  let code := transferCode now idx t d in
  if String.eqb code "internal_error" then ret tt
  else if negb (String.eqb code "") then reject_transfer now item code
  else
    move_hmc walletAddr t ;;;
    sql_u64 idx ;;;
    modify (λ d, set_tx_history
      (hist_include (p_hash item) (hist_row t "included" idx blockHash now "") (tx_history d)) d) ;;;
    bindPubKeyQ (From t) (PubKeyEd25519 t) idx PubKeyBindSourceHMC ;;;
    modify (delete_pool (p_hash item)).

Definition applyPendingTransfers `{ChainParams} `{Crypto} (now idx : Z) (blockHash : string) : tx DB unit :=
  let* d := get in
  let pool := loadPendingTransfers DefaultTransferMaxBatch d in
  let* w := wallet_row ErrNoRows in
  iter_tx (apply_transfer now idx blockHash (w_address w)) pool.

(** * Facts *)

(** Field ranges given by the Go types. *)
Definition tx_typed (t : TransferTx) : Prop :=
  0 ≤ AmountUnits t < two64 ∧ 0 ≤ FeeUnits t < two64 ∧ 0 ≤ Nonce t < two64 ∧
  - two63 ≤ TimestampUnix t < two63.

Lemma fee_burn_range fee : 0 ≤ fee → 0 ≤ fee_burn fee NetworkFeeBurnShare ≤ fee.
Proof.
  intros H. unfold fee_burn. apply trunc_scale_le; [done| |]; vm_compute; discriminate.
Qed.

Lemma code_neq {A} (c : string) (x y : A) : (if negb (String.eqb c "") then x else y)
  = (if String.eqb c "" then y else x).
Proof. by destruct (String.eqb c ""). Qed.

(** What acceptance means. *)
Record accepted `{Crypto} (now : Z) (t : TransferTx) (d : DB) (a : Account) : Prop := {
  acc_type : TxType t = "transfer_v1";
  acc_distinct : From t ≠ To t;
  acc_from_trim : trim_space (From t) = From t;
  acc_to_trim : trim_space (To t) = To t;
  acc_to : To t ≠ "";
  acc_amount : AmountUnits t ≠ 0;
  acc_fee : DefaultTransferMinFee ≤ FeeUnits t;
  acc_time : now - 86400 ≤ TimestampUnix t ≤ now + 3600;
  acc_owner : pubKeyOwnsAddress (PubKeyEd25519 t) (From t) = true;
  acc_sig : ∃ pub sig, decode_hex_len 32 (PubKeyEd25519 t) = Some pub ∧
    decode_hex_len 64 (SigEd25519 t) = Some sig ∧ ed25519_verify pub (canonicalBytes t) sig = true;
  acc_account : accounts d !! From t = Some a;
  acc_nonce : next_nonce a = Nonce t;
  acc_nowrap : AmountUnits t + FeeUnits t < two64;
  acc_funds : AmountUnits t + FeeUnits t ≤ balance_units a;
}.

Lemma checkSignature_ok `{Crypto} t msg : checkSignature t msg = "" →
  pubKeyOwnsAddress (PubKeyEd25519 t) (From t) = true ∧
  ∃ pub sig, decode_hex_len 32 (PubKeyEd25519 t) = Some pub ∧
    decode_hex_len 64 (SigEd25519 t) = Some sig ∧ ed25519_verify pub msg sig = true.
Proof.
  unfold checkSignature. cbv zeta. destruct (negb _); [done|].
  destruct (decode_hex_len 32 (PubKeyEd25519 t)) as [pub|]; [|done].
  destruct (decode_hex_len 64 (SigEd25519 t)) as [sig|]; [|done].
  destruct (ed25519_verify pub msg sig) eqn:Ev; cbn [negb]; [|done].
  destruct (pubKeyOwnsAddress (PubKeyEd25519 t) (From t)); cbn [negb]; [|done].
  intros _. split; [done|]. by exists pub, sig.
Qed.

Lemma u64_sum_check a f : 0 ≤ a < two64 → 0 ≤ f < two64 →
  (u64 (a + f) <? a) = false → a + f < two64 ∧ u64 (a + f) = a + f.
Proof.
  intros Ha Hf H. b2p. unfold u64 in *. destruct (Z.lt_ge_cases (a + f) two64).
  - split; [done|]. apply Z.mod_small. lia.
  - exfalso. replace (a + f) with (a + f - two64 + 1 * two64) in H by lia.
    rewrite Z_mod_plus_full, Z.mod_small in H; unfold two64 in *; lia.
Qed.

Lemma validateTransferTx_ok `{Crypto} now t d : tx_typed t → validateTransferTx now t d = "" →
  ∃ a, accepted now t d a.
Proof.
  intros (Ta & Tf & _) H0. unfold validateTransferTx in H0. rewrite !code_neq in H0.
  destruct (String.eqb_spec (ValidateTransferShape now t) "") as [Hs|Hs]; [|by rewrite H0 in Hs].
  destruct (String.eqb_spec (checkSignature t (canonicalBytes t)) "") as [Hg|Hg]; [|by rewrite H0 in Hg].
  apply checkSignature_ok in Hg as [Ho Hg].
  destruct (accounts d !! From t) as [a|] eqn:Ea; [|done].
  destruct (Z.eqb_spec (next_nonce a) (Nonce t)); cbn [negb] in H0; [|done].
  destruct ((u64 (AmountUnits t + FeeUnits t) <? AmountUnits t)
    || (balance_units a <? u64 (AmountUnits t + FeeUnits t))) eqn:E; [done|].
  apply orb_false_iff in E as [E1 E2]. destruct (u64_sum_check _ _ Ta Tf E1) as [W1 W2].
  rewrite W2 in E2. unfold ValidateTransferShape in Hs. cbv zeta in Hs.
  repeat (case_match; try done). b2p.
  repeat match goal with
  | H : String.eqb _ _ = true |- _ => apply String.eqb_eq in H
  | H : String.eqb _ _ = false |- _ => apply String.eqb_neq in H
  end.
  exists a. split; try done; try congruence; lia.
Qed.

(** ** The money steps *)

Lemma sup_hms_frame f d : accounts (upd_wallet f d) = accounts d.
Proof. apply accounts_updw. Qed.

Create HintDb db_rest.
(** Everything a transfer leaves alone besides accounts, wallet and meta. *)
Definition same_rest (d d' : DB) : Prop :=
  address_pubkeys d' = address_pubkeys d ∧ tx_pool d' = tx_pool d ∧ tx_history d' = tx_history d ∧
  escrows d' = escrows d ∧ tasks d' = tasks d ∧ blocks d' = blocks d ∧
  (w_address <$> wallet d') = (w_address <$> wallet d).

Lemma same_rest_refl d : same_rest d d.
Proof. by repeat split. Qed.
Lemma same_rest_trans d1 d2 d3 : same_rest d1 d2 → same_rest d2 d3 → same_rest d1 d3.
Proof. unfold same_rest. intros (?&?&?&?&?&?&?) (?&?&?&?&?&?&?). repeat split; congruence. Qed.
Lemma same_rest_upd f a d : same_rest d (upd_account f a d).
Proof. unfold upd_account. case_match; by repeat split. Qed.
Lemma same_rest_ups i f a d : same_rest d (ups_account i f a d).
Proof. by repeat split. Qed.
Lemma same_rest_updw f d : same_rest d (upd_wallet f d).
Proof.
  unfold upd_wallet. destruct (wallet d) as [w|] eqn:E; [|apply same_rest_refl].
  repeat split. by rewrite E.
Qed.
#[export] Hint Resolve same_rest_refl same_rest_upd same_rest_ups same_rest_updw : db_rest.

Lemma debit_credit_spec t d d' a :
  accounts d !! From t = Some a → From t ≠ To t → tx_typed t → accounts_ok d →
  AmountUnits t + FeeUnits t < two64 → AmountUnits t + FeeUnits t ≤ balance_units a →
  hmc_sum d < two63 → next_nonce a + 1 < two63 →
  debit_credit t d = Ok (tt, d') →
  hmc_effect d d' (λ b, at_addr (From t) (- (AmountUnits t + FeeUnits t)) b + at_addr (To t) (AmountUnits t) b)
    (at_addr (From t) 1) (- FeeUnits t) ∧
  accounts_ok d' ∧ wallet d' = wallet d ∧ meta d' = meta d ∧ same_rest d d'.
Proof.
  intros Ha Hne (Ta & Tf & _) Hok Hw Hb Hs Hn H.
  pose proof (Hok _ _ Ha) as Hoka. destruct Hoka as (Ka1 & Ka2 & Ka3 & Ka4 & Ka5 & Ka6).
  set (a0 := AmountUnits t) in *. set (f0 := FeeUnits t) in *.
  unfold debit_credit in H. unfold bind at 1, get at 1 in H. rewrite Ha in H.
  fold a0 f0 in H. rewrite (u64_small (a0 + f0)), (u64_small (balance_units a - _)),
    (u64_small (next_nonce a + 1)) in H by (unfold two63, two64 in *; lia).
  set (d1 := upd_account (λ x, set_nonce (next_nonce a + 1) (set_hmc (balance_units a - (a0 + f0)) x)) (From t) d).
  assert (E1 : hmc_effect d d1 (at_addr (From t) (- (a0 + f0))) (at_addr (From t) 1) (- (a0 + f0))).
  { eapply hmc_effect_upd; [exact Ha|cbn; lia..]. }
  assert (Hok1 : accounts_ok d1).
  { apply accounts_ok_upd; [done|]. intros x Ex Hx. rewrite Ha in Ex. injection Ex as <-.
    unfold account_ok in *. cbn. lia. }
  assert (Hto : accounts d1 !! To t = accounts d !! To t).
  { unfold d1. rewrite accounts_upd, lookup_alter_ne; done. }
  assert (R1 : same_rest d d1) by apply same_rest_upd.
  assert (∃ v n, match accounts d !! To t with
      | Some ta => (balance_units ta, next_nonce ta) | None => (0, 0) end = (v, n) ∧
      v - hmc d (To t) = 0 ∧ 0 ≤ n < two63 ∧
      (accounts d !! To t = None → n = 0)) as (v & n & Ev & Hv & Hnr & Hn0).
  { unfold hmc, mval. destruct (accounts d !! To t) as [ta|] eqn:Et; eexists _, _; (split; [done|]).
    - pose proof (Hok _ _ Et) as (_ & Kn & _). split; [lia|]. by split.
    - unfold two63. split; [lia|]. split; [lia|done]. }
  rewrite Ev in H.
  assert (Hv63 : 0 ≤ v ∧ v + a0 < two63).
  { pose proof (hmc_nonneg d (To t) Hok). split; [lia|].
    pose proof (hmc_le_sum d1 (To t) Hok1) as L. rewrite (he_sum _ _ _ _ _ E1) in L.
    unfold hmc in *. unfold mval in *. rewrite Hto in L. lia. }
  rewrite (u64_small (v + a0)) in H by (unfold two63, two64 in *; lia).
  inv_tx H. fold d1.
  set (d2 := ups_account (mkAccount (v + a0) n 0 0 0 0) (set_hmc (v + a0)) (To t) d1).
  assert (E2 : hmc_effect d1 d2 (at_addr (To t) a0) (λ _, 0) a0).
  { unfold hmc, mval in Hv. apply hmc_effect_ups; rewrite Hto.
    - intros Et. rewrite Et in Hv. rewrite (Hn0 Et). cbn. lia.
    - intros x Et. rewrite Et in Hv. cbn. lia. }
  split; [|split; [|split; [|split]]].
  - eapply hmc_effect_ext; [exact (hmc_effect_trans _ _ _ _ _ _ _ _ _ E1 E2)|done|intros b; cbn; lia|lia].
  - apply accounts_ok_ups; [done| |].
    + intros Et. unfold account_ok. cbn. unfold two63 in *. lia.
    + intros x _ Hx. unfold account_ok in *. cbn. lia.
  - cbn. unfold d1. by rewrite wallet_upd.
  - cbn. unfold d1. by rewrite meta_upd.
  - eapply same_rest_trans; [exact R1|apply same_rest_ups].
Qed.

Lemma pay_dev_fee_spec w v d d' : 0 ≤ v → accounts_ok d → hmc_sum d + v < two63 →
  pay_dev_fee w v d = Ok (tt, d') →
  hmc_effect d d' (at_addr DevFeeAddress v) (λ _, 0) v ∧ accounts_ok d' ∧ meta d' = meta d ∧
  same_rest d d' ∧ (¬ (0 < v ∧ DevFeeAddress = w) → wallet d' = wallet d).
Proof.
  intros Hv Hok Hs H. unfold pay_dev_fee in H. destruct (Z.ltb_spec 0 v).
  - set (d1 := ups_account (mkAccount v 0 0 0 0 0) (λ a, set_hmc (balance_units a + v) a) DevFeeAddress d).
    assert (E : hmc_effect d d1 (at_addr DevFeeAddress v) (λ _, 0) v)
      by (apply hmc_effect_ups; cbn; intros; lia).
    assert (K : accounts_ok d1) by (by apply accounts_ok_credit).
    destruct (String.eqb_spec DevFeeAddress w); inv_tx H; fold d1.
    + split_and!; [|by unfold accounts_ok; rewrite accounts_updw|by rewrite meta_updw| |intros C; exfalso; tauto].
      * eapply hmc_effect_ext; [exact (hmc_effect_trans _ _ _ _ _ _ _ _ _ E
          (hmc_effect_none _ _ (accounts_updw _ _)))|intros b; cbn; lia..|lia].
      * eapply same_rest_trans; [apply same_rest_ups|apply same_rest_updw].
    + split_and!; done.
  - assert (v = 0) as -> by lia. inv_tx H. split_and!; try done.
    eapply hmc_effect_ext; [by apply hmc_effect_none|..]; try done.
    intros b. unfold at_addr. by case_bool_decide.
Qed.

Lemma burn_fee_spec v d d' : 0 ≤ v → 0 ≤ burned_units d → burned_units d + v < two64 →
  burn_fee v d = Ok (tt, d') →
  accounts d' = accounts d ∧ wallet d' = wallet d ∧ burned_units d' = burned_units d + v ∧ same_rest d d'.
Proof.
  intros Hv Hb Hs H. unfold burn_fee in H. destruct (Z.ltb_spec 0 v).
  - unfold bind, get in H. destruct (econTotalsUnits d) as [m b] eqn:Ee.
    assert (burned_units d = b) as Eb by (unfold burned_units; by rewrite Ee).
    rewrite u64_small in H by lia. pose proof H as H'.
    apply book_burn_spec in H as (R1 & R2 & R3 & R4 & R5 & R6 & R7 & R8); [|lia].
    split_and!; [done|done|lia|]. inv_tx H'. repeat split.
  - assert (v = 0) as -> by lia. inv_tx H. split_and!; try done. lia.
Qed.

(** After the mirror step the wallet row equals its account, if it did before or was touched. *)
Lemma mirror_wallet_spec touched w d d' :
  mirror_wallet touched w d = Ok (tt, d') →
  accounts d' = accounts d ∧ meta d' = meta d ∧ same_rest d d' ∧
  (touched = true → (w_address <$> wallet d) = Some w → mirrored d') ∧
  (touched = false → wallet d' = wallet d).
Proof.
  intros H. unfold mirror_wallet in H. destruct touched; [|by inv_tx H].
  unfold bind, get in H. destruct (accounts d !! w) as [a|] eqn:Ea; [|done]. inv_tx H.
  split_and!; [apply accounts_updw|apply meta_updw|apply same_rest_updw| |done].
  intros _ Hw. unfold mirrored. rewrite wallet_updw. destruct (wallet d) as [x|]; [|done].
  injection Hw as Hw. cbn. unfold hmc, mval. by rewrite accounts_updw, Hw, Ea.
Qed.

(** The exact effect of one accepted transfer. *)
Definition transfer_delta (t : TransferTx) (b : string) : Z :=
  at_addr (From t) (- (AmountUnits t + FeeUnits t)) b + at_addr (To t) (AmountUnits t) b
  + at_addr DevFeeAddress (FeeUnits t - fee_burn (FeeUnits t) NetworkFeeBurnShare) b.

(** Supply bound that keeps every 64-bit addition exact: circulating plus burned units. *)
Definition supply_ok (d : DB) : Prop := 0 ≤ burned_units d ∧ hmc_sum d + burned_units d < two63.

Lemma move_hmc_spec w t d d' a :
  accounts d !! From t = Some a → From t ≠ To t → tx_typed t → accounts_ok d → supply_ok d →
  AmountUnits t + FeeUnits t < two64 → AmountUnits t + FeeUnits t ≤ balance_units a →
  next_nonce a + 1 < two63 →
  (w_address <$> wallet d) = Some w → mirrored d →
  move_hmc w t d = Ok (tt, d') →
  let burn := fee_burn (FeeUnits t) NetworkFeeBurnShare in
  hmc_effect d d' (transfer_delta t) (at_addr (From t) 1) (- burn) ∧
  burned_units d' = burned_units d + burn ∧ accounts_ok d' ∧ mirrored d' ∧ same_rest d d'.
Proof.
  intros Ha Hne Ht Hok [Hb0 Hs] Hw1 Hw2 Hn Hwal Hmir H. cbv zeta.
  unfold move_hmc in H. pose proof Ht as (Ta & Tf & _).
  pose proof (fee_burn_range (FeeUnits t) (proj1 Tf)) as Hb.
  set (burn := fee_burn (FeeUnits t) NetworkFeeBurnShare) in *.
  rewrite (u64_small (FeeUnits t - burn)) in H by lia.
  set (dev := FeeUnits t - burn) in *. assert (Hdev : dev = FeeUnits t - burn) by done.
  apply bind_ok in H as ([] & d1 & H1 & H). apply bind_ok in H as ([] & d2 & H2 & H).
  apply bind_ok in H as ([] & d3 & H3 & H4).
  assert (Hsum : 0 ≤ hmc_sum d) by (apply sum_nonneg; [intros y Hy; apply Hy|done]).
  pose proof (balance_le_sum balance_units d (From t) a (λ y Hy, proj1 (proj1 Hy)) Hok Ha) as Hle.
  pose proof (debit_credit_spec t d d1 a Ha Hne Ht Hok Hw1 Hw2 ltac:(lia) Hn H1)
    as (E1 & K1 & W1 & M1 & R1).
  pose proof (he_sum _ _ _ _ _ E1) as S1.
  pose proof (pay_dev_fee_spec w dev d1 d2 ltac:(lia) K1 ltac:(lia) H2) as (E2 & K2 & M2 & R2 & W2).
  assert (B2 : burned_units d2 = burned_units d) by (apply burned_units_meta; congruence).
  pose proof (burn_fee_spec burn d2 d3 ltac:(lia) ltac:(lia)
    ltac:(assert (two63 < two64) by done; lia) H3)
    as (A3 & W3 & B3 & R3).
  pose proof (mirror_wallet_spec _ _ _ _ H4) as (A4 & M4 & R4 & T4 & F4).
  assert (E : hmc_effect d d' (transfer_delta t) (at_addr (From t) 1) (- burn)).
  { eapply hmc_effect_ext; [exact (hmc_effect_trans _ _ _ _ _ _ _ _ _
      (hmc_effect_trans _ _ _ _ _ _ _ _ _ E1 E2) (hmc_effect_none _ _ (eq_trans A4 A3)))|..].
    - intros b. cbn. unfold transfer_delta. fold burn. fold dev. lia.
    - intros b. cbn. lia.
    - lia. }
  split; [exact E|]. split; [rewrite (burned_units_meta d3 d'), B3, B2 by done; lia|].
  split; [unfold accounts_ok; by rewrite A4, A3|].
  assert (RR : same_rest d d').
  { eapply same_rest_trans; [exact R1|]. eapply same_rest_trans; [exact R2|].
    eapply same_rest_trans; [exact R3|exact R4]. }
  split; [|exact RR].
  assert (Hwd3 : w_address <$> wallet d3 = Some w).
  { rewrite <- Hwal. rewrite W3. destruct R1 as (_&_&_&_&_&_&R1), R2 as (_&_&_&_&_&_&R2). congruence. }
  match type of H4 with mirror_wallet ?b _ _ = _ => destruct b eqn:Et end; [by apply T4|].
  apply orb_false_iff in Et as [Et Et3]. apply orb_false_iff in Et as [Et1 Et2].
  apply String.eqb_neq in Et1, Et2.
  assert (Hnd : ¬ (0 < dev ∧ DevFeeAddress = w)).
  { intros [C Cw]. rewrite (proj2 (Z.ltb_lt _ _) C), (proj2 (String.eqb_eq _ _) Cw) in Et3. done. }
  assert (wallet d' = wallet d) as Hweq by (rewrite F4, W3, W2; done).
  unfold mirrored in *. rewrite Hweq. destruct (wallet d) as [x|]; [|done].
  injection Hwal as Hx. rewrite (he_bal _ _ _ _ _ E), Hmir, Hx. unfold transfer_delta.
  rewrite !at_addr_ne by congruence. fold burn. fold dev.
  unfold at_addr. case_bool_decide as C; [|lia].
  assert (¬ 0 < dev); [|lia]. intros Hd. by apply Hnd.
Qed.

(** ** No accepted transfer can abort its block *)

Lemma debit_credit_total t d a :
  accounts d !! From t = Some a → From t ≠ To t → tx_typed t → accounts_ok d →
  AmountUnits t + FeeUnits t < two64 → AmountUnits t + FeeUnits t ≤ balance_units a →
  hmc_sum d < two63 → next_nonce a + 1 < two63 →
  ∃ d', debit_credit t d = Ok (tt, d').
Proof.
  intros Ha Hne (Ta & Tf & _) Hok Hw Hb Hs Hn. pose proof (Hok _ _ Ha) as (Ka & Kn & _).
  unfold debit_credit. rewrite (bind_run get _ d d d) by done. rewrite Ha.
  rewrite (u64_small (AmountUnits t + FeeUnits t)), (u64_small (balance_units a - _)),
    (u64_small (next_nonce a + 1)) by (unfold two63, two64 in *; lia).
  pose proof (balance_le_sum balance_units d (From t) a (λ y Hy, proj1 (proj1 Hy)) Hok Ha).
  assert (0 ≤ hmc d (To t) ∧ hmc d (To t) + AmountUnits t < two63) as [T1 T2].
  { split; [by apply hmc_nonneg|]. unfold hmc, mval.
    destruct (accounts d !! To t) as [ta|] eqn:Et; [|lia].
    assert (balance_units a + balance_units ta ≤ hmc_sum d); [|lia].
    unfold acct_sum. rewrite (msum_delete _ _ _ _ Ha).
    assert (balance_units ta ≤ msum balance_units (delete (From t) (accounts d))); [|lia].
    apply (msum_lookup_le _ _ (To t)); [|by rewrite lookup_delete_ne].
    intros k y Hy. apply lookup_delete_Some in Hy as [_ Hy]. by apply (Hok k). }
  assert (∃ v n, match accounts d !! To t with
      | Some ta => (balance_units ta, next_nonce ta) | None => (0, 0) end = (v, n) ∧
      v = hmc d (To t) ∧ 0 ≤ n < two63) as (v & n & Ev & Hv & Hnr).
  { unfold hmc, mval. destruct (accounts d !! To t) as [ta|] eqn:Et; eexists _, _; (split; [done|]).
    - pose proof (Hok _ _ Et) as (_ & K & _). done.
    - by unfold two63. }
  rewrite Ev. cbv zeta. rewrite (u64_small (v + AmountUnits t)) by (unfold two63, two64 in *; lia).
  run_u64 lia. run_u64 lia.
  rewrite (bind_run (update_account _ _) _ _ tt _) by done.
  run_u64 lia. run_u64 lia. by eexists.
Qed.

Lemma pay_dev_fee_total w v d : 0 ≤ v < two63 → ∃ d', pay_dev_fee w v d = Ok (tt, d').
Proof.
  intros Hv. unfold pay_dev_fee. destruct (0 <? v); [|by eexists].
  run_u64 lia. rewrite (bind_run (upsert_account _ _ _) _ _ tt _) by done.
  case_match; by eexists.
Qed.

Lemma burn_fee_total v d : ∃ d', burn_fee v d = Ok (tt, d').
Proof.
  unfold burn_fee. destruct (0 <? v); [|by eexists].
  rewrite (bind_run get _ d d d) by done. destruct (econTotalsUnits d). by eexists.
Qed.

(** The accounts a transfer names exist afterwards. *)
Lemma debit_credit_dom t d d' b : debit_credit t d = Ok (tt, d') →
  b = From t ∨ b = To t ∨ is_Some (accounts d !! b) → is_Some (accounts d' !! b).
Proof.
  intros H Hb. unfold debit_credit in H. rewrite (bind_run get _ d d d) in H by done.
  destruct (accounts d !! From t) as [a|] eqn:Ea; [|done].
  destruct (match accounts d !! To t with Some ta => _ | None => _ end) as [v n]. inv_tx H.
  rewrite accounts_ups, lookup_insert, accounts_upd, lookup_alter.
  case_decide; [by eexists|]. rewrite lookup_alter.
  case_decide; [subst; rewrite Ea; by eexists|].
  destruct Hb as [->|[->|Hb]]; [congruence|congruence|done].
Qed.

Lemma pay_dev_fee_dom w v d d' b : pay_dev_fee w v d = Ok (tt, d') →
  (0 < v ∧ b = DevFeeAddress) ∨ is_Some (accounts d !! b) → is_Some (accounts d' !! b).
Proof.
  intros H Hb. unfold pay_dev_fee in H. destruct (Z.ltb_spec 0 v).
  - assert (accounts d' = accounts (ups_account (mkAccount v 0 0 0 0 0)
      (λ a, set_hmc (balance_units a + v) a) DevFeeAddress d)) as ->.
    { destruct (String.eqb DevFeeAddress w); inv_tx H; [apply accounts_updw|done]. }
    rewrite accounts_ups, lookup_insert. case_decide; [by eexists|].
    destruct Hb as [[_ ->]|Hb]; [congruence|done].
  - inv_tx H. destruct Hb as [[? _]|Hb]; [lia|done].
Qed.

Lemma move_hmc_total w t d a :
  accounts d !! From t = Some a → From t ≠ To t → tx_typed t → accounts_ok d → supply_ok d →
  AmountUnits t + FeeUnits t < two64 → AmountUnits t + FeeUnits t ≤ balance_units a →
  next_nonce a + 1 < two63 → ∃ d', move_hmc w t d = Ok (tt, d').
Proof.
  intros Ha Hne Ht Hok [Hb0 Hs] Hw1 Hw2 Hn. unfold move_hmc. pose proof Ht as (Ta & Tf & _).
  pose proof (fee_burn_range (FeeUnits t) (proj1 Tf)) as Hb.
  set (burn := fee_burn (FeeUnits t) NetworkFeeBurnShare) in *.
  rewrite (u64_small (FeeUnits t - burn)) by lia.
  pose proof (balance_le_sum balance_units d (From t) a (λ y Hy, proj1 (proj1 Hy)) Hok Ha) as Hle.
  destruct (debit_credit_total t d a Ha Hne Ht Hok Hw1 Hw2 ltac:(lia) Hn) as [d1 H1].
  rewrite (bind_run _ _ _ _ _ H1).
  destruct (pay_dev_fee_total w (FeeUnits t - burn) d1 ltac:(lia)) as [d2 H2].
  rewrite (bind_run _ _ _ _ _ H2).
  destruct (burn_fee_total burn d2) as [d3 H3]. rewrite (bind_run _ _ _ _ _ H3).
  match goal with |- ∃ d', mirror_wallet ?b w d3 = _ => destruct b eqn:Et end; [|by eexists].
  unfold mirror_wallet. rewrite (bind_run get _ d3 d3 d3) by done.
  assert (is_Some (accounts d3 !! w)) as [x ->]; [|by eexists].
  assert (accounts d3 = accounts d2) as ->.
  { unfold burn_fee in H3. destruct (0 <? burn); [|by inv_tx H3].
    rewrite (bind_run get _ d2 d2 d2) in H3 by done. destruct (econTotalsUnits d2). by inv_tx H3. }
  apply (pay_dev_fee_dom _ _ _ _ w H2).
  apply orb_true_iff in Et as [Et|Et].
  - right. apply (debit_credit_dom _ _ _ w H1).
    apply orb_true_iff in Et as [Et|Et]; apply String.eqb_eq in Et; auto.
  - b2p. apply String.eqb_eq in H0. by left.
Qed.

(** ** One pool item, and the batch *)

(** What the batch needs of the database, and keeps. *)
Record batch_wf (w : string) (d : DB) : Prop := {
  bw_ok : accounts_ok d;
  bw_supply : supply_ok d;
  bw_mirror : mirrored d;
  bw_wallet : w_address <$> wallet d = Some w;
}.

(** Relation kept by every pool item: units only move between accounts and the burn counter. *)
Record batch_step (d d' : DB) : Prop := {
  bs_supply : hmc_sum d' + burned_units d' = hmc_sum d + burned_units d;
  bs_sup : sup_sum d' = sup_sum d;
  bs_hms : hms_sum d' = hms_sum d;
  bs_nonce : ∀ b, nonce d b ≤ nonce d' b ≤ nonce d b + 1;
  bs_burn : burned_units d ≤ burned_units d';
}.

Lemma transferCode_ok `{ChainParams} `{Crypto} now idx t d : tx_typed t → transferCode now idx t d = "" →
  (∃ a, accepted now t d a) ∧ checkTxChainID idx (ChainID t) = "" ∧
  checkSpendRulesQ d idx (From t) (To t) (PubKeyEd25519 t) = "".
Proof.
  intros Ht H1. unfold transferCode in H1. rewrite !code_neq in H1.
  destruct (String.eqb_spec (validateTransferTx now t d) "") as [E|E]; [|by rewrite H1 in E].
  destruct (String.eqb_spec (checkTxChainID idx (ChainID t)) "") as [E'|E']; [|by rewrite H1 in E'].
  split; [by apply validateTransferTx_ok|done].
Qed.

Lemma bindPubKeyQ_total `{ChainParams} `{Crypto} a p idx src d : 0 ≤ idx < two63 →
  ∃ d', bindPubKeyQ a p idx src d = Ok (tt, d') ∧ accounts d' = accounts d ∧ wallet d' = wallet d ∧
    meta d' = meta d ∧ tx_pool d' = tx_pool d ∧ tx_history d' = tx_history d ∧ escrows d' = escrows d ∧
    tasks d' = tasks d ∧ blocks d' = blocks d.
Proof.
  intros Hi. unfold bindPubKeyQ. destruct (negb _); [by eexists|]. run_u64 lia.
  eexists. split; [done|]. unfold bind_row. by case_match.
Qed.

Section apply.
Context `{ChainParams} `{Crypto}.
Context (now idx : Z) (bhash w : string) (Hidx : 0 ≤ idx < two63).

(** An accepted item: the exact money movement, the history row, the key binding, and the
    removal from the pool; a refused item only moves from the pool to the history. *)
Lemma apply_transfer_spec item d : tx_typed (p_tx item) → batch_wf w d →
  (∀ b, nonce d b + 1 < two63) →
  ∃ d', apply_transfer now idx bhash w item d = Ok (tt, d') ∧ batch_wf w d' ∧ batch_step d d' ∧
    (transferCode now idx (p_tx item) d = "" →
       hmc_effect d d' (transfer_delta (p_tx item)) (at_addr (From (p_tx item)) 1)
         (- fee_burn (FeeUnits (p_tx item)) NetworkFeeBurnShare) ∧
       (h_status <$> tx_history d' !! p_hash item) = Some "included"%string) ∧
    (transferCode now idx (p_tx item) d ≠ "" → accounts d' = accounts d ∧ meta d' = meta d ∧
       wallet d' = wallet d ∧ address_pubkeys d' = address_pubkeys d) ∧
    (transferCode now idx (p_tx item) d ≠ "internal_error" →
       tx_pool d' = List.filter (λ p, negb (String.eqb (p_hash p) (p_hash item))) (tx_pool d)).
Proof using Hidx.
  intros Ht [Hok Hsup Hmir Hwal] Hn. set (t := p_tx item) in *.
  unfold apply_transfer. rewrite (bind_run get _ d d d) by done. cbv zeta. fold t.
  destruct (String.eqb_spec (transferCode now idx t d) "internal_error") as [Ei|Ei].
  { exists d. split; [done|]. split; [by constructor|]. split; [split; try done; intros; lia|].
    rewrite Ei. by repeat split. }
  rewrite code_neq. destruct (String.eqb_spec (transferCode now idx t d) "") as [Ec|Ec].
  - destruct (transferCode_ok now idx t d Ht Ec) as ([a Ha] & _ & _). destruct Ha.
    assert (Hn1 : next_nonce a + 1 < two63).
    { specialize (Hn (From t)). unfold nonce, mval in Hn. by rewrite acc_account0 in Hn. }
    destruct (move_hmc_total w t d a) as [d1 H1]; try done.
    rewrite (bind_run _ _ _ _ _ H1).
    pose proof (move_hmc_spec w t d d1 a) as M. cbv zeta in M.
    destruct M as (E & B & K & Mi & R); try done.
    set (burn := fee_burn (FeeUnits t) NetworkFeeBurnShare) in *.
    run_u64 lia. rewrite (bind_run (modify _) _ _ tt _) by done.
    set (d2 := set_tx_history _ d1).
    destruct (bindPubKeyQ_total (From t) (PubKeyEd25519 t) idx PubKeyBindSourceHMC d2 Hidx)
      as (d3 & H3 & A3 & W3 & M3 & P3 & T3 & _).
    rewrite (bind_run _ _ _ _ _ H3). eexists. split; [done|].
    assert (E' : hmc_effect d (delete_pool (p_hash item) d3) (transfer_delta t) (at_addr (From t) 1) (- burn)).
    { eapply hmc_effect_ext; [exact (hmc_effect_trans _ _ _ _ _ _ _ _ _ E (hmc_effect_none d1 (delete_pool (p_hash item) d3) A3))|..];
        [intros b; cbn; lia..|lia]. }
    assert (B' : burned_units (delete_pool (p_hash item) d3) = burned_units d + burn)
      by (rewrite <- B; by apply burned_units_meta).
    pose proof (fee_burn_range (FeeUnits t) ltac:(apply Ht)) as Hb. fold burn in Hb.
    destruct R as (R1 & R2 & R3 & R4 & R5 & R6 & R7).
    split; [split|split; [split|split; [|split]]].
    + unfold accounts_ok. cbn. by rewrite A3.
    + destruct Hsup. split; rewrite B'; [lia|]. rewrite (he_sum _ _ _ _ _ E'). lia.
    + unfold mirrored. cbn. rewrite W3. unfold hmc. cbn. by rewrite A3.
    + cbn. rewrite W3. cbn. by rewrite R7.
    + rewrite B', (he_sum _ _ _ _ _ E'). lia.
    + apply (he_sup _ _ _ _ _ E').
    + apply (he_hms _ _ _ _ _ E').
    + intros b. rewrite (he_nonce _ _ _ _ _ E'). unfold at_addr. case_bool_decide; lia.
    + lia.
    + intros _. split; [exact E'|]. cbn. rewrite T3. cbn. rewrite R3. unfold hist_include.
      rewrite lookup_insert_eq. cbn. by destruct (tx_history d !! p_hash item).
    + done.
    + intros _. cbn. rewrite P3. cbn. by rewrite R2.
  - eexists. split; [done|].
    split; [by constructor|]. split; [split; try done; intros; cbn; unfold nonce; cbn; lia|].
    by repeat split.
Qed.

Lemma batch_spec l d : Forall (λ p, tx_typed (p_tx p)) l → batch_wf w d →
  (∀ b, nonce d b + Z.of_nat (length l) < two63) →
  ∃ d', iter_tx (apply_transfer now idx bhash w) l d = Ok (tt, d') ∧ batch_wf w d' ∧
    hmc_sum d' + burned_units d' = hmc_sum d + burned_units d ∧ sup_sum d' = sup_sum d ∧
    hms_sum d' = hms_sum d ∧ (∀ b, nonce d b ≤ nonce d' b) ∧ burned_units d ≤ burned_units d'.
Proof using Hidx.
  revert d. induction l as [|x l IH]; intros d Ht Hwf Hn; cbn [iter_tx].
  - exists d. split; [done|]. split; [done|]. repeat split; lia.
  - apply list.Forall_cons in Ht as [Hx Ht]. cbn [length] in Hn.
    destruct (apply_transfer_spec x d Hx Hwf) as (d1 & H1 & Hwf1 & [S1 S2 S3 S4 S5] & _).
    { intros b. specialize (Hn b). lia. }
    rewrite (bind_run _ _ _ _ _ H1).
    destruct (IH d1 Ht Hwf1) as (d' & H2 & Hwf' & C1 & C2 & C3 & C4 & C5).
    { intros b. specialize (Hn b). specialize (S4 b). lia. }
    exists d'. split; [done|]. split; [done|]. split; [lia|]. split; [lia|]. split; [lia|].
    split; [|lia]. intros b. specialize (S4 b). specialize (C4 b). lia.
Qed.
End apply.

(** ** The pool order *)

Lemma sort_stable_elem {A} (less : A → A → bool) l x : x ∈ sort_stable less l ↔ x ∈ l.
Proof. by rewrite (sort_stable_perm less l). Qed.

Lemma pending_rows_elem p l : p ∈ pending_rows l ↔ p ∈ l ∧ p_status p = "pending".
Proof.
  unfold pending_rows. rewrite !list_elem_of_In, filter_In, String.eqb_eq. done.
Qed.

Lemma elem_of_take_l {A} n (l : list A) x : x ∈ take n l → x ∈ l.
Proof. intros H. rewrite <- (take_drop n l). apply elem_of_app. by left. Qed.

Lemma load_elem limit d p : p ∈ loadPendingTransfers limit d → p ∈ tx_pool d ∧ p_status p = "pending".
Proof.
  unfold loadPendingTransfers. cbv zeta. rewrite sort_stable_elem.
  intros H%elem_of_take_l. rewrite sort_stable_elem in H. by apply pending_rows_elem.
Qed.

Lemma load_length limit d : 0 < limit → Z.of_nat (length (loadPendingTransfers limit d)) ≤ limit.
Proof.
  intros Hl. unfold loadPendingTransfers. destruct (Z.leb_spec limit 0); [lia|]. cbv zeta.
  rewrite (Permutation_length (sort_stable_perm _ _)), length_take. lia.
Qed.

Lemma fee_less_trans p q r : fee_less p q = false → fee_less q r = false → fee_less p r = false.
Proof. unfold fee_less. repeat case_match; b2p; lia. Qed.
Lemma fee_less_asym p q : fee_less p q = true → fee_less q p = false.
Proof. unfold fee_less. repeat case_match; b2p; lia. Qed.

(** At most one pending transfer per sender, as the submit rules keep it. *)
Definition one_pending (l : list PoolRow) : Prop :=
  ∀ p q, p ∈ l → q ∈ l → p_status p = "pending" → p_status q = "pending" →
    From (p_tx p) = From (p_tx q) → Nonce (p_tx p) = Nonce (p_tx q).

Lemma pending_less_fee p q : (From (p_tx p) = From (p_tx q) → Nonce (p_tx p) = Nonce (p_tx q)) →
  pending_less p q = fee_less p q.
Proof.
  intros H. unfold pending_less. destruct (String.eqb_spec (From (p_tx p)) (From (p_tx q))) as [E|]; [|done].
  rewrite (H E), Z.eqb_refl. done.
Qed.

(** * Properties *)

(** A database ready for a batch. *)
Definition batch_ready (d : DB) : Prop :=
  accounts_ok d ∧ supply_ok d ∧ mirrored d ∧ is_Some (wallet d) ∧
  (∀ p, p ∈ tx_pool d → tx_typed (p_tx p)) ∧ (∀ b, nonce d b + DefaultTransferMaxBatch < two63).

(** The batch runs to its end. *)
Lemma applyPendingTransfers_run `{ChainParams} `{Crypto} now idx bhash d :
  batch_ready d → 0 ≤ idx < two63 →
  ∃ w d', wallet d = Some w ∧ applyPendingTransfers now idx bhash d = Ok (tt, d') ∧ batch_wf (w_address w) d' ∧
    hmc_sum d' + burned_units d' = hmc_sum d + burned_units d ∧ sup_sum d' = sup_sum d ∧
    hms_sum d' = hms_sum d ∧ burned_units d ≤ burned_units d'.
Proof.
  intros (Hok & Hs & Hm & [w Hw] & Hty & Hn) Hi.
  unfold applyPendingTransfers. rewrite (bind_run get _ d d d) by done. cbv zeta.
  unfold wallet_row. rewrite (bind_run _ _ d w d) by (unfold bind, get; by rewrite Hw).
  set (l := loadPendingTransfers DefaultTransferMaxBatch d).
  destruct (batch_spec now idx bhash (w_address w) Hi l d) as (d' & E & W & R1 & R2 & R3 & R4 & R5).
  - apply list.Forall_forall. intros p Hp. apply Hty. by apply (load_elem DefaultTransferMaxBatch d).
  - split; try done. by rewrite Hw.
  - intros b. pose proof (load_length DefaultTransferMaxBatch d ltac:(done)) as L. fold l in L. specialize (Hn b). lia.
  - by exists w, d'.
Qed.

(** C10: Applying the pending pool to a block can neither fail nor create or lose a unit. From any
    well-formed ledger the batch always commits - whatever the pool holds, no transfer can abort
    block production - and circulating plus burned HMC is unchanged to the unit, the burn counter
    never decreases, the SUP and HMS totals are untouched, no balance leaves [0, 2^63), and the
    primary wallet row still equals its account. *)
Theorem applyPendingTransfers_conserves `{ChainParams} `{Crypto} now idx bhash d :
  batch_ready d → 0 ≤ idx < two63 →
  ∃ d', applyPendingTransfers now idx bhash d = Ok (tt, d') ∧
    hmc_sum d' + burned_units d' = hmc_sum d + burned_units d ∧
    burned_units d ≤ burned_units d' ∧
    sup_sum d' = sup_sum d ∧ hms_sum d' = hms_sum d ∧
    accounts_ok d' ∧ mirrored d'.
Proof.
  intros R Hi. destruct (applyPendingTransfers_run now idx bhash d R Hi) as (w & d' & _ & E & [A B C D] & R1 & R2 & R3 & R5).
  exists d'. by split_and!.
Qed.

(** C31: One accepted transfer does exactly what it says, on every account: the sender pays amount
    plus fee, the recipient gets the amount, the developer address gets the fee less its burned
    30%, nobody else changes; the sender's nonce advances by one and no other nonce moves; the
    transfer is recorded as included and leaves the pool. A refused one leaves every balance, the
    wallet, the counters and the key bindings as they were. *)
Theorem transfer_exact `{ChainParams} `{Crypto} now idx bhash w item d :
  tx_typed (p_tx item) → batch_wf w d → (∀ b, nonce d b + 1 < two63) → 0 ≤ idx < two63 →
  transferCode now idx (p_tx item) d ≠ "internal_error" →
  let t := p_tx item in
  let burn := fee_burn (FeeUnits t) NetworkFeeBurnShare in
  ∃ d', apply_transfer now idx bhash w item d = Ok (tt, d') ∧
    (∀ p, p ∈ tx_pool d' → p_hash p ≠ p_hash item) ∧
    (transferCode now idx t d = "" →
       0 ≤ burn ≤ FeeUnits t ∧
       (∀ b, hmc d' b = hmc d b + at_addr (From t) (- (AmountUnits t + FeeUnits t)) b
                        + at_addr (To t) (AmountUnits t) b + at_addr DevFeeAddress (FeeUnits t - burn) b) ∧
       (∀ b, nonce d' b = nonce d b + at_addr (From t) 1 b) ∧
       (h_status <$> tx_history d' !! p_hash item) = Some "included"%string) ∧
    (transferCode now idx t d ≠ "" →
       accounts d' = accounts d ∧ meta d' = meta d ∧ wallet d' = wallet d ∧
       address_pubkeys d' = address_pubkeys d).
Proof.
  intros Ht Hwf Hn Hi Hc t burn.
  destruct (apply_transfer_spec now idx bhash w Hi item d Ht Hwf Hn) as (d' & E & _ & _ & A & B & P).
  exists d'. split; [exact E|]. split; [|split; [|exact B]].
  - intros p Hp. rewrite (P Hc) in Hp. apply list_elem_of_In, filter_In in Hp as [_ Hp]. b2p.
    by apply String.eqb_neq.
  - intros Hok. destruct (A Hok) as [[H1 H2 _ _ _] H3]. split; [apply fee_burn_range, Ht|].
    split; [|split; [exact H2|exact H3]]. intros b. rewrite H1. unfold transfer_delta. fold t burn. lia.
Qed.

(** ** A concrete ledger: address [a] holds 10 HMC and has one signed transfer to [b] pending *)

Definition ex_tx (nonce : Z) : TransferTx :=
  mkTransferTx "transfer_v1" "" (toy_addr "a") (toy_addr "b") 100000000 1000 nonce 1000000 ""
    (toy_key "a") (toy_sig "a") "".
(** The toy digest is one byte repeated, so the toy key's addresses are its own digits. *)
Definition ex_item : PoolRow := mkPoolRow "h0" (ex_tx 0) 1000000 "pending" "".
Definition ex_db : DB :=
  set_tx_pool [ex_item]
   (set_meta {[ metaTotalBurnedUnits := MUint 5 ]}
    (set_wallet (Some (mkWallet (toy_addr "a") 1000000000))
     (ups_account (mkAccount 1000000000 0 0 0 0 0) (λ x, x) (toy_addr "a") empty_db))).

Lemma nonce_single a x b n : nonce (ups_account x (λ x, x) a empty_db) b + n < two63 ↔
  (if bool_decide (a = b) then next_nonce x else 0) + n < two63.
Proof.
  unfold nonce. rewrite mval_ups. unfold mval. cbn [accounts empty_db]. rewrite !lookup_empty. done.
Qed.

Lemma ex_nonce b n : 0 ≤ n < 1000 → nonce ex_db b + n < two63.
Proof.
  intros H. unfold ex_db, nonce. cbn [accounts set_tx_pool set_meta set_wallet].
  apply nonce_single. unfold two63. case_bool_decide; cbn; lia.
Qed.

Lemma ex_ok : accounts_ok ex_db.
Proof.
  unfold accounts_ok, ex_db. cbn [accounts set_tx_pool set_meta set_wallet].
  apply (accounts_ok_ups _ _ _ empty_db); [apply map_Forall_empty| |done].
  intros _. unfold account_ok, two63. cbn. lia.
Qed.

Lemma ex_ready : batch_ready ex_db.
Proof.
  split; [exact ex_ok|]. split; [split; vm_compute; (discriminate || reflexivity)|].
  split; [vm_compute; reflexivity|]. split; [by eexists|]. split.
  - intros p Hp. apply list_elem_of_singleton in Hp as ->. unfold tx_typed, two63, two64. cbn. lia.
  - intros b. apply ex_nonce. unfold DefaultTransferMaxBatch. lia.
Qed.

Lemma ex_wf : batch_wf (toy_addr "a") ex_db.
Proof.
  destruct ex_ready as (A & B & C & _). split; [exact A|exact B|exact C|vm_compute; reflexivity].
Qed.

Lemma applyPendingTransfers_conserves_witness :
  let P := params_of empty_env 0 in let C := toy_crypto in
  ∃ d', applyPendingTransfers 1000000 10 "b" ex_db = Ok (tt, d') ∧
    hmc_sum d' + burned_units d' = hmc_sum ex_db + burned_units ex_db.
Proof.
  pose proof (applyPendingTransfers_conserves (H := params_of empty_env 0) (H0 := toy_crypto)
    1000000 10 "b" ex_db ex_ready ltac:(unfold two63; lia)) as (d' & E & S & _).
  exists d'. split; [exact E|exact S].
Defined.

Lemma transfer_exact_witness :
  let P := params_of empty_env 0 in let C := toy_crypto in
  transferCode 1000000 10 (ex_tx 0) ex_db = "" ∧
  ∃ d', apply_transfer 1000000 10 "b" (toy_addr "a") ex_item ex_db = Ok (tt, d') ∧
    hmc d' (toy_addr "b") = 100000000 ∧ hmc d' (toy_addr "a") = 899999000 ∧ hmc d' DevFeeAddress = 700.
Proof.
  assert (HC : @transferCode (params_of empty_env 0) toy_crypto 1000000 10 (ex_tx 0) ex_db = "")
    by (vm_compute; reflexivity).
  split; [exact HC|].
  pose proof (transfer_exact (H := params_of empty_env 0) (H0 := toy_crypto)
    1000000 10 "b" (toy_addr "a") ex_item ex_db
    ltac:(unfold tx_typed, two63, two64; cbn; lia)
    ex_wf
    ltac:(intros b; apply ex_nonce; lia) ltac:(unfold two63; lia)
    ltac:(cbn [p_tx ex_item]; rewrite HC; discriminate)) as (d' & E & _ & A & _).
  exists d'. split; [exact E|]. destruct (A HC) as (_ & B & _).
  rewrite !B. vm_compute. split; [|split]; reflexivity.
Defined.

(** C34: A signature (and the transaction hash) binds every field. For ASCII field text and values
    of the Go types, two transfers with the same signed bytes have the same type, algorithm,
    addresses, amount, fee, nonce, timestamp, memo, key and chain id, up to the surrounding
    white space (and the case of the algorithm) that signing normalises away. *)
Theorem canonicalBytes_inj t t' :
  tx_typed t → tx_typed t' →
  forallb field_ok (canonical_fields t) = true → forallb field_ok (canonical_fields t') = true →
  canonicalBytes t = canonicalBytes t' →
  TxType t = TxType t' ∧ trim_space (to_lower (SigAlg t)) = trim_space (to_lower (SigAlg t')) ∧
  trim_space (From t) = trim_space (From t') ∧ trim_space (To t) = trim_space (To t') ∧
  AmountUnits t = AmountUnits t' ∧ FeeUnits t = FeeUnits t' ∧ Nonce t = Nonce t' ∧
  TimestampUnix t = TimestampUnix t' ∧ Memo t = Memo t' ∧
  trim_space (PubKeyEd25519 t) = trim_space (PubKeyEd25519 t') ∧
  trim_space (ChainID t) = trim_space (ChainID t').
Proof.
  intros _ _ Hf Hf' E. apply json_object_inj in E; [|reflexivity| |done|done].
  - injection E as -> -> -> -> -> -> -> -> -> -> ->. by repeat split.
  - apply NoDup_ListNoDup. cbn. repeat constructor; cbn; intuition discriminate.
Qed.

Lemma canonicalBytes_inj_witness : Nonce (ex_tx 3) = 3.
Proof.
  pose proof (canonicalBytes_inj (ex_tx 3) (ex_tx 3)
    ltac:(unfold tx_typed, two63, two64; cbn; lia) ltac:(unfold tx_typed, two63, two64; cbn; lia)
    ltac:(vm_compute; reflexivity) ltac:(vm_compute; reflexivity) eq_refl)
    as (_ & _ & _ & _ & _ & _ & E & _). exact E.
Defined.

(** Block inclusion is by fee. With at most one pending transfer per sender, the batch is a
    selection of pending rows (at most [limit]) listed by fee, highest first, and by arrival
    within a fee; and no pending row left out beats one that was taken. *)
Theorem loadPendingTransfers_by_fee limit d :
  0 < limit → one_pending (tx_pool d) →
  let l := loadPendingTransfers limit d in
  Z.of_nat (length l) ≤ limit ∧
  Sorted.StronglySorted (λ p q, fee_less q p = false) l ∧
  (∀ p, p ∈ l → p ∈ tx_pool d ∧ p_status p = "pending") ∧
  (∀ p, p ∈ tx_pool d → p_status p = "pending" → p ∉ l → ∀ q, q ∈ l → fee_less p q = false).
Proof.
  intros Hl Hone l. split; [by apply load_length|].
  unfold l, loadPendingTransfers. destruct (Z.leb_spec limit 0); [lia|]. cbv zeta.
  set (s := sort_stable fee_less (pending_rows (tx_pool d))).
  assert (Hs : Sorted.StronglySorted (λ p q, fee_less q p = false) s).
  { apply (sort_stable_sorted fee_less (λ _, True)); [|by intros; apply fee_less_asym|by apply list.Forall_forall].
    intros x y z _ _ _. apply fee_less_trans. }
  assert (Hmem : ∀ p, p ∈ s ↔ p ∈ tx_pool d ∧ p_status p = "pending").
  { intros p. unfold s. by rewrite sort_stable_elem, pending_rows_elem. }
  set (k := take (Z.to_nat limit) s).
  assert (Hk : ∀ p, p ∈ k → p ∈ s) by (intros p; apply elem_of_take_l).
  assert (Hless : ∀ p q, p ∈ k → q ∈ k → pending_less p q = fee_less p q).
  { intros p q Hp Hq. apply pending_less_fee. intros E.
    apply Hk, Hmem in Hp as [P1 P2]. apply Hk, Hmem in Hq as [Q1 Q2]. by apply Hone. }
  split; [|split].
  - eapply StronglySorted_weaken.
    + apply (sort_stable_sorted pending_less (λ p, p ∈ k)); [| |by apply list.Forall_forall].
      * intros x y z Hx Hy Hz. rewrite !Hless by done. apply fee_less_trans.
      * intros x y Hx Hy. rewrite !Hless by done. apply fee_less_asym.
    + intros x y. rewrite !sort_stable_elem. unfold ok_before. intros Hx Hy. by rewrite Hless.
  - intros p. rewrite sort_stable_elem. intros Hp. by apply Hmem, Hk.
  - intros p Hp1 Hp2 Hp3 q. rewrite sort_stable_elem in Hp3 |- *. intros Hq.
    rewrite <- (take_drop (Z.to_nat limit) s) in Hs. fold k in Hs.
    apply (StronglySorted_split _ _ _ Hs q p Hq).
    assert (Hp : p ∈ s) by (by apply Hmem). rewrite <- (take_drop (Z.to_nat limit) s) in Hp.
    apply elem_of_app in Hp as [Hp|Hp]; [done|exact Hp].
Qed.

Lemma loadPendingTransfers_by_fee_witness :
  let mk h n fee := mkPoolRow h (mkTransferTx "transfer_v1" "" h "x" 5 fee n 0 "" "" "" "") 0 "pending" "" in
  let d := set_tx_pool [mk "p" 0 1000; mk "q" 0 3000; mk "r" 0 2000] empty_db in
  map p_hash (loadPendingTransfers 2 d) = ["q"; "r"] ∧
  Z.of_nat (length (loadPendingTransfers 2 d)) ≤ 2.
Proof.
  cbv zeta. split; [vm_compute; reflexivity|].
  refine (proj1 (loadPendingTransfers_by_fee 2 _ ltac:(lia) _)).
  intros p q Hp Hq _ _ _. cbn in Hp, Hq.
  repeat match goal with
  | H : _ ∈ _ :: _ |- _ => apply elem_of_cons in H as [->|H]
  | H : _ ∈ [] |- _ => by apply elem_of_nil in H
  end; reflexivity.
Defined.

(** ** Submission *)

(** Hashes are unique, and every pending transfer is the sender's next one. *)
Definition pool_inv (d : DB) : Prop :=
  NoDup (map p_hash (tx_pool d)) ∧
  (∀ p, p ∈ tx_pool d → p_status p = "pending" → Nonce (p_tx p) = nonce d (From (p_tx p))) ∧
  NoDup (map (λ p, From (p_tx p)) (pending_rows (tx_pool d))).

(** C33: Submission admits only what a block could include now, once. If [SubmitTransferTx] returns
    a hash, it is the transaction's hash, unseen in history and pool; the transaction passes every
    check of the next block - signature of the owning key, funds, nonce, network, address rules and
    key binding; exactly one pending row is appended and nothing else changes; and the pool keeps
    unique hashes and at most one pending transfer per sender, the one with its next nonce. *)
Theorem SubmitTransferTx_sound `{ChainParams} `{Crypto} now t d h d' :
  tx_typed t → pool_inv d → SubmitTransferTx now t d = Ok (h, d') →
  h = HashHex t ∧ tx_history d !! h = None ∧
  (∃ a, accepted now t d a) ∧ checkTxChainID (nextBlockIndexQ d) (ChainID t) = "" ∧
  checkSpendRulesQ d (nextBlockIndexQ d) (From t) (To t) (PubKeyEd25519 t) = "" ∧
  d' = set_tx_pool (tx_pool d ++ [mkPoolRow h t now "pending" ""]) d ∧
  pool_inv d' ∧ one_pending (tx_pool d').
Proof.
  intros Ht (I1 & I2 & I3) Hs. unfold SubmitTransferTx in Hs.
  rewrite (bind_run get _ d d d) in Hs by done. cbv zeta in Hs. rewrite code_neq in Hs.
  destruct (String.eqb_spec (transferCode now (nextBlockIndexQ d) t d) "") as [Ec|]; [|done].
  destruct (tx_history d !! HashHex t) eqn:Eh; [done|].
  destruct (List.find (pending_of (From t) (Nonce t)) (tx_pool d)) as [p|] eqn:Ef.
  { destruct (String.eqb _ _); done. }
  do 3 apply bind_ok in Hs as (? & ? & [_ ->]%guard_ok & Hs).
  destruct (existsb (λ p, String.eqb (p_hash p) (HashHex t)) (tx_pool d)) eqn:Ex; [done|].
  rewrite (bind_run (ret tt) _ d tt d), (bind_run (put _) _ d tt _) in Hs by done.
  apply ret_ok in Hs as [<- <-].
  destruct (transferCode_ok _ _ _ _ Ht Ec) as ([acc Ha] & C1 & C2).
  assert (Hnon : Nonce t = nonce d (From t)).
  { unfold nonce, mval. rewrite (acc_account _ _ _ _ Ha). symmetry. apply (acc_nonce _ _ _ _ Ha). }
  assert (Hnew : ∀ p, p ∈ tx_pool d → p_status p = "pending" → From (p_tx p) ≠ From t).
  { intros p Hp Hst E. pose proof (List.find_none _ _ Ef p (proj1 (list_elem_of_In _ _) Hp)) as F.
    unfold pending_of in F. rewrite E, String.eqb_refl, Hst, (I2 p Hp Hst), E, <- Hnon, Z.eqb_refl in F. done. }
  assert (Inv : pool_inv (set_tx_pool (tx_pool d ++ [mkPoolRow (HashHex t) t now "pending" ""]) d)).
  { split; [|split].
    - cbn. rewrite map_app. apply list.NoDup_app. split; [done|]. split; [|apply list.NoDup_singleton].
      intros y Hx Hx'. apply list_elem_of_singleton in Hx' as ->.
      apply list_elem_of_fmap in Hx as (p & Hp & Hin).
      assert (existsb (λ p, String.eqb (p_hash p) (HashHex t)) (tx_pool d) = true); [|congruence].
      apply existsb_exists. exists p. split; [by apply list_elem_of_In|]. by rewrite <- Hp, String.eqb_refl.
    - cbn. intros p [Hp|Hp]%elem_of_app Hst; [by apply I2|].
      apply list_elem_of_singleton in Hp as ->. exact Hnon.
    - cbn [tx_pool set_tx_pool]. unfold pending_rows. rewrite List.filter_app, map_app. apply list.NoDup_app.
      split; [done|]. split; [|apply list.NoDup_singleton].
      intros y Hx Hx'. cbn in Hx'. apply list_elem_of_singleton in Hx' as ->.
      apply list_elem_of_fmap in Hx as (p & Hp & Hin).
      apply list_elem_of_In, filter_In in Hin as [Hin Hst]. apply String.eqb_eq in Hst.
      apply list_elem_of_In in Hin. by apply (Hnew p). }
  repeat (split; [done|]). split; [by exists acc|]. repeat (split; [done|]).
  intros p q Hp Hq Sp Sq E. destruct Inv as (_ & J & _). rewrite (J p), (J q) by done. by rewrite E.
Qed.

Lemma SubmitTransferTx_sound_witness :
  let P := params_of empty_env 0 in let C := toy_crypto in
  is_Some (tx_pool (run (SubmitTransferTx 1000000 (ex_tx 0)) (set_tx_pool [] ex_db)) !! 0%nat) ∧
  one_pending (tx_pool (run (SubmitTransferTx 1000000 (ex_tx 0)) (set_tx_pool [] ex_db))).
Proof.
  assert (E : @SubmitTransferTx (params_of empty_env 0) toy_crypto 1000000 (ex_tx 0) (set_tx_pool [] ex_db)
    = Ok (@HashHex toy_crypto (ex_tx 0), set_tx_pool [mkPoolRow (@HashHex toy_crypto (ex_tx 0)) (ex_tx 0) 1000000 "pending" ""] ex_db))
    by (vm_compute; reflexivity).
  cbv zeta. rewrite (run_ok _ _ _ _ E). split; [by eexists|].
  refine (proj2 (proj2 (proj2 (proj2 (proj2 (proj2 (proj2 (SubmitTransferTx_sound (H := params_of empty_env 0) (H0 := toy_crypto)
    1000000 (ex_tx 0) (set_tx_pool [] ex_db) _ _ _ _ E)))))))).
  - unfold tx_typed, two63, two64; cbn; lia.
  - split; [constructor|]. split; [|constructor]. intros p Hp. apply elem_of_nil in Hp. destruct Hp.
Defined.
