(* ===== verification/Lane.v ===== *)
(** The side ledgers: what the SUP and HMS transfer lanes have in common.

    Sources: internal/chain/sup_ledger.go and hms_ledger.go, whose transfer code is the same text
    up to the columns, tables, error codes and fee destination.  A [Lane] record holds what differs; [LaneLaws] is what the proofs rely on, and SupLedger.v and HmsLedger.v discharge it. *)
From S2P Require Import Prelude Float64 GoText Params Emission Json Ledger Address GoSort Transfers.

(** * The interface *)

Record Lane := mkLane {
  l_bal : Account → Z; l_set_bal : Z → Account → Account;
  l_nonce : Account → Z; l_set_nonce : Z → Account → Account;
  l_pool : DB → list PoolRow; l_set_pool : list PoolRow → DB → DB;
  l_hist : DB → gmap string HistRow; l_set_hist : gmap string HistRow → DB → DB;
  l_shape : TransferTx → string;
  l_insufficient : string;
  l_source : string;
  l_burn : Z → tx DB unit;
  l_burned : DB → Z;
  l_tracks : bool;
  l_burn_key : string;
}.

(** [l_shape] is the lane's shape check, [l_burn] its booking of a burned fee, [l_burned] its burn
    counter and [l_tracks] whether a burned fee is added to that counter,
    which is the [meta] row [l_burn_key].

    [lane_free L g]: the column [g] is not one of the lane's two columns. *)
Definition lane_free (L : Lane) (g : Account → Z) : Prop :=
  ∀ v a, g (l_set_bal L v a) = g a ∧ g (l_set_nonce L v a) = g a.

(** What a lane may not touch when it moves pool and history rows. *)
Definition ledger_same (d d' : DB) : Prop :=
  accounts d' = accounts d ∧ wallet d' = wallet d ∧ meta d' = meta d ∧
  address_pubkeys d' = address_pubkeys d ∧ escrows d' = escrows d ∧ tasks d' = tasks d ∧
  blocks d' = blocks d.

Class LaneLaws (L : Lane) := {
  bal_set_bal : ∀ v a, l_bal L (l_set_bal L v a) = v;
  bal_set_nonce : ∀ v a, l_bal L (l_set_nonce L v a) = l_bal L a;
  nonce_set_bal : ∀ v a, l_nonce L (l_set_bal L v a) = l_nonce L a;
  nonce_set_nonce : ∀ v a, l_nonce L (l_set_nonce L v a) = v;
  ok_bal : ∀ a, account_ok a → 0 ≤ l_bal L a < two63;
  ok_nonce : ∀ a, account_ok a → 0 ≤ l_nonce L a < two63;
  ok_set_bal : ∀ v a, account_ok a → 0 ≤ v < two63 → account_ok (l_set_bal L v a);
  ok_set_nonce : ∀ v a, account_ok a → 0 ≤ v < two63 → account_ok (l_set_nonce L v a);
  empty_bal : l_bal L empty_account = 0;
  empty_nonce : l_nonce L empty_account = 0;
  set_pool_same : ∀ v d, ledger_same d (l_set_pool L v d);
  set_hist_same : ∀ v d, ledger_same d (l_set_hist L v d);
  hist_set_hist : ∀ v d, l_hist L (l_set_hist L v d) = v;
  hist_ups_meta : ∀ k v d, l_hist L (ups_meta k v d) = l_hist L d;
  burn_total : ∀ v d, ∃ d', l_burn L v d = Ok (tt, d');
  burn_accounts : ∀ v d d', l_burn L v d = Ok (tt, d') → accounts d' = accounts d;
  burn_counts : ∀ v d d', 0 ≤ v → 0 ≤ l_burned L d → l_burned L d + v < two64 →
    l_burn L v d = Ok (tt, d') → l_burned L d' = l_burned L d + (if l_tracks L then v else 0);
  burn_meta : ∀ v d d', l_burn L v d = Ok (tt, d') →
    ∀ k, k ≠ l_burn_key L → meta d' !! k = meta d !! k;
  burned_meta : ∀ d d', meta d' = meta d → l_burned L d' = l_burned L d;
  shape_ok : ∀ t, l_shape L t = "" →
    From t ≠ To t ∧ AmountUnits t ≠ 0 ∧ DefaultTransferMinFee ≤ FeeUnits t;
}.

(** * Transfers *)

(** The signed payload of both lanes: the HMC payload with the memo trimmed. *)
Definition side_canonicalBytes (t : TransferTx) : string :=
  json_object
    [ JStr "tx_type" (TxType t);
      JStrOmit "sig_alg" (trim_space (to_lower (SigAlg t)));
      JStr "from" (trim_space (From t));
      JStr "to" (trim_space (To t));
      JUint "amount_units" (AmountUnits t);
      JUint "fee_units" (FeeUnits t);
      JUint "nonce" (Nonce t);
      JInt "timestamp_unix" (TimestampUnix t);
      JStrOmit "memo" (trim_space (Memo t));
      JStr "pubkey_ed25519" (trim_space (PubKeyEd25519 t));
      JStrOmit "chain_id" (trim_space (ChainID t)) ].

Definition side_HashHex `{Crypto} (t : TransferTx) : string :=
  hex_encode (sha256 (side_canonicalBytes t)).

Definition lane_validate `{Crypto} (L : Lane) (now : Z) (t : TransferTx) (d : DB) : string :=
  let code := l_shape L t in
  if negb (String.eqb code "") then code
  else
    let code := checkSignature t (side_canonicalBytes t) in
    if negb (String.eqb code "") then code
    else if TimestampUnix t <=? 0 then "invalid_timestamp"
    else if TimestampUnix t <? now - 86400 then "tx_too_old"
    else if now + 3600 <? TimestampUnix t then "tx_too_far_in_future"
    else match accounts d !! From t with
    | None => "unknown_from"
    | Some a =>
        if negb (l_nonce L a =? Nonce t) then "invalid_nonce"
        else
          let total := u64 (AmountUnits t + FeeUnits t) in
          if (total <? AmountUnits t) || (l_bal L a <? total) then l_insufficient L
          else ""
    end.

Definition lane_code `{ChainParams} `{Crypto} (L : Lane) (now idx : Z) (t : TransferTx) (d : DB) : string :=
  let code := lane_validate L now t d in
  if negb (String.eqb code "") then code
  else
    let code := checkTxChainID idx (ChainID t) in
    if negb (String.eqb code "") then code
    else checkSpendRulesQ d idx (From t) (To t) (PubKeyEd25519 t).

Definition lane_submit `{ChainParams} `{Crypto} (L : Lane) (now : Z) (t : TransferTx) : tx DB string :=
  let* d := get in
  let code := lane_code L now (nextBlockIndexQ d) t d in
  if negb (String.eqb code "") then fail code
  else
    let txHash := side_HashHex t in
    match l_hist L d !! txHash with
    | Some _ => fail "duplicate_or_replay"
    | None =>
        match List.find (pending_of (From t) (Nonce t)) (l_pool L d) with
        | Some p => if String.eqb (trim_space (p_hash p)) txHash then fail "duplicate_or_replay"
                    else fail "pending_nonce_conflict"
        | None =>
            sql_u64 (Nonce t) ;;; sql_u64 (FeeUnits t) ;;; sql_u64 (AmountUnits t) ;;;
            (if existsb (λ p, String.eqb (p_hash p) txHash) (l_pool L d) then fail "duplicate_or_replay"
             else ret tt) ;;;
            put (l_set_pool L (l_pool L d ++ [mkPoolRow txHash t now "pending" ""]) d) ;;;
            ret txHash
        end
    end.

(** [INSERT ... ON CONFLICT(address) DO UPDATE SET balance = accounts.balance + excluded.balance] *)
Definition lane_credit (L : Lane) (a : string) (v : Z) : tx DB unit :=
  sql_u64 v ;;;
  upsert_account (l_set_bal L v empty_account) (λ x, l_set_bal L (l_bal L x + v) x) a.

Definition lane_delete_pool (L : Lane) (hash : string) (d : DB) : DB :=
  l_set_pool L (List.filter (λ p, negb (String.eqb (p_hash p) hash)) (l_pool L d)) d.

(** [UPDATE pool], [INSERT history DO NOTHING] and [DELETE pool] of a refused item. *)
Definition lane_reject (L : Lane) (now : Z) (item : PoolRow) (code : string) : tx DB unit :=
  modify (λ d, l_set_hist L
    (hist_insert (p_hash item) (hist_row (p_tx item) "rejected" (-1) "" now code) (l_hist L d)) d) ;;;
  modify (lane_delete_pool L (p_hash item)).

(** The balance movements of one accepted transfer; [fa] is the sender row read before. *)
Definition lane_move (L : Lane) (feeAddr : string) (t : TransferTx) (fa : Account) : tx DB unit :=
  let total := u64 (AmountUnits t + FeeUnits t) in
  let fromBal := u64 (l_bal L fa - total) in
  let fromNonce := u64 (l_nonce L fa + 1) in
  let burnFee := fee_burn (FeeUnits t) NetworkFeeBurnShare in
  let devFee := u64 (FeeUnits t - burnFee) in
  sql_u64 fromBal ;;; sql_u64 fromNonce ;;;
  update_account (λ a, l_set_nonce L fromNonce (l_set_bal L fromBal a)) (From t) ;;;
  (if negb (String.eqb (From t) (To t)) then lane_credit L (To t) (AmountUnits t) else ret tt) ;;;
  (if 0 <? devFee then lane_credit L feeAddr devFee else ret tt) ;;;
  l_burn L burnFee.

Definition lane_apply `{ChainParams} `{Crypto} (L : Lane) (now idx : Z) (blockHash feeAddr : string)
    (item : PoolRow) : tx DB unit :=
  let* d := get in
  let t := p_tx item in
  let code := lane_code L now idx t d in
  if String.eqb code "internal_error" then ret tt
  else if negb (String.eqb code "") then lane_reject L now item code
  else match accounts d !! From t with
  | None => fail ErrNoRows
  | Some fa =>
      lane_move L feeAddr t fa ;;;
      sql_u64 idx ;;;
      modify (λ d, l_set_hist L
        (hist_include (p_hash item) (hist_row t "included" idx blockHash now "") (l_hist L d)) d) ;;;
      bindPubKeyQ (From t) (PubKeyEd25519 t) idx (l_source L) ;;;
      modify (lane_delete_pool L (p_hash item))
  end.

(** The pending rows of one block: [ORDER BY fee_units DESC, received_at ASC LIMIT limit]. *)
Definition lane_load (L : Lane) (limit : Z) (d : DB) : list PoolRow :=
  take (Z.to_nat limit) (sort_stable fee_less (pending_rows (l_pool L d))).

Definition lane_apply_pending `{ChainParams} `{Crypto} (L : Lane) (limit now idx : Z)
    (blockHash feeAddr : string) : tx DB unit :=
  let* d := get in
  iter_tx (lane_apply L now idx blockHash feeAddr) (lane_load L limit d).

(** * Facts *)

(** What a run does to one account column: [δ] per address, [s] in total. *)
Record col_effect (g : Account → Z) (d d' : DB) (δ : string → Z) (s : Z) : Prop := {
  ce_at : ∀ b, mval g (accounts d') b = mval g (accounts d) b + δ b;
  ce_sum : acct_sum g d' = acct_sum g d + s;
}.

Lemma col_effect_none g d d' : accounts d' = accounts d → col_effect g d d' (λ _, 0) 0.
Proof. intros E. split; unfold acct_sum; rewrite E; intros; lia. Qed.

Lemma col_effect_trans g d d1 d2 δ1 δ2 s1 s2 :
  col_effect g d d1 δ1 s1 → col_effect g d1 d2 δ2 s2 →
  col_effect g d d2 (λ b, δ1 b + δ2 b) (s1 + s2).
Proof. intros [A1 C1] [A2 C2]. split; intros; rewrite ?A2, ?A1; lia. Qed.

Lemma col_effect_ext g d d' δ δ' s s' :
  col_effect g d d' δ s → (∀ b, δ b = δ' b) → s = s' → col_effect g d d' δ' s'.
Proof. intros [A C] H1 <-. split; [|done]. intros b. by rewrite <- H1. Qed.

Lemma col_effect_upd g a f d x v : accounts d !! a = Some x → g (f x) = g x + v →
  col_effect g d (upd_account f a d) (at_addr a v) v.
Proof.
  intros Ex Hv. split; intros.
  - rewrite mval_upd, Ex. unfold at_addr. case_bool_decide; [subst; unfold mval; rewrite Ex|]; lia.
  - rewrite acct_sum_upd, Ex. lia.
Qed.

Lemma col_effect_ups g a ins f d v :
  (accounts d !! a = None → g ins = v) → (∀ x, accounts d !! a = Some x → g (f x) = g x + v) →
  col_effect g d (ups_account ins f a d) (at_addr a v) v.
Proof.
  intros Hi Hf. split; intros; rewrite ?mval_ups, ?acct_sum_ups; unfold at_addr;
    try case_bool_decide; subst; unfold mval; destruct (accounts d !! _) as [x|];
    try (specialize (Hf x eq_refl)); try (specialize (Hi eq_refl)); lia.
Qed.

Lemma at_addr_0 a b : at_addr a 0 b = 0.
Proof. unfold at_addr. by case_bool_decide. Qed.

Section lane_facts.
Context (L : Lane) `{!LaneLaws L}.

Lemma free_effect_upd g a f d x : accounts d !! a = Some x → g (f x) = g x →
  col_effect g d (upd_account f a d) (λ _, 0) 0.
Proof using.
  intros Ex Hg. eapply col_effect_ext; [apply (col_effect_upd g a f d x 0 Ex); lia| |done].
  intros b. apply at_addr_0.
Qed.

(** A credit adds [v] to one balance of the lane and moves no other column. *)
Lemma lane_credit_spec a v d d' : 0 ≤ v → accounts_ok d → acct_sum (l_bal L) d + v < two63 →
  lane_credit L a v d = Ok (tt, d') →
  col_effect (l_bal L) d d' (at_addr a v) v ∧
  (∀ g, lane_free L g → g empty_account = 0 → col_effect g d d' (λ _, 0) 0) ∧
  col_effect (l_nonce L) d d' (λ _, 0) 0 ∧ accounts_ok d' ∧ meta d' = meta d ∧ wallet d' = wallet d.
Proof using All.
  intros Hv Hok Hs H. unfold lane_credit in H. inv_tx H.
  assert (Hfree : ∀ g, g (l_set_bal L v empty_account) = 0 → (∀ x v, g (l_set_bal L v x) = g x) →
    col_effect g d (ups_account (l_set_bal L v empty_account) (λ x, l_set_bal L (l_bal L x + v) x) a d)
      (λ _, 0) 0).
  { intros g H0 Hg. eapply col_effect_ext; [apply (col_effect_ups g a _ _ d 0)| |done].
    - done.
    - intros x _. rewrite Hg. lia.
    - intros b. apply at_addr_0. }
  split; [|split; [|split; [|split; [|done]]]].
  - apply col_effect_ups; intros; by rewrite bal_set_bal.
  - intros g Hg H0. apply Hfree; [rewrite (proj1 (Hg _ _)); done|intros; apply Hg].
  - apply Hfree; [rewrite nonce_set_bal; apply empty_nonce|intros; apply nonce_set_bal].
  - apply accounts_ok_ups; [done| |].
    + intros _. apply ok_set_bal; [apply empty_account_ok|].
      assert (0 ≤ acct_sum (l_bal L) d) by (apply sum_nonneg; [apply ok_bal|done]). lia.
    + intros x Ex Hx. apply ok_set_bal; [done|].
      pose proof (balance_le_sum (l_bal L) d a x (λ y Hy, proj1 (ok_bal y Hy)) Hok Ex).
      pose proof (ok_bal x Hx). lia.
Qed.

Lemma lane_credit_total a v d : 0 ≤ v < two63 → ∃ d', lane_credit L a v d = Ok (tt, d').
Proof using. intros Hv. unfold lane_credit. run_u64 lia. by eexists. Qed.

(** The exact effect of one accepted transfer on the lane's balances. *)
Definition lane_delta (feeAddr : string) (t : TransferTx) (b : string) : Z :=
  at_addr (From t) (- (AmountUnits t + FeeUnits t)) b + at_addr (To t) (AmountUnits t) b
  + at_addr feeAddr (FeeUnits t - fee_burn (FeeUnits t) NetworkFeeBurnShare) b.

(** Every column outside the lane is left alone. *)
Definition others_kept (d d' : DB) : Prop :=
  ∀ g, lane_free L g → g empty_account = 0 → col_effect g d d' (λ _, 0) 0.

Lemma others_kept_none d d' : accounts d' = accounts d → others_kept d d'.
Proof using. intros E g _ _. by apply col_effect_none. Qed.

Lemma others_kept_trans d1 d2 d3 : others_kept d1 d2 → others_kept d2 d3 → others_kept d1 d3.
Proof using.
  intros H1 H2 g Hg H0.
  exact (col_effect_trans _ _ _ _ _ _ _ _ (H1 g Hg H0) (H2 g Hg H0)).
Qed.

Lemma others_kept_at d d' g b : others_kept d d' → lane_free L g → g empty_account = 0 →
  mval g (accounts d') b = mval g (accounts d) b ∧ acct_sum g d' = acct_sum g d.
Proof using. intros O Hg H0. destruct (O g Hg H0) as [A S]. specialize (A b). cbn in A. lia. Qed.

Definition lane_supply (d : DB) : Prop := 0 ≤ l_burned L d ∧ acct_sum (l_bal L) d + l_burned L d < two63.

(** The sender's debit. *)
Lemma lane_debit_spec t fa d : accounts d !! From t = Some fa → accounts_ok d →
  0 ≤ AmountUnits t + FeeUnits t ≤ l_bal L fa → l_nonce L fa + 1 < two63 →
  let f := λ a, l_set_nonce L (l_nonce L fa + 1) (l_set_bal L (l_bal L fa - (AmountUnits t + FeeUnits t)) a) in
  let d1 := upd_account f (From t) d in
  col_effect (l_bal L) d d1 (at_addr (From t) (- (AmountUnits t + FeeUnits t))) (- (AmountUnits t + FeeUnits t)) ∧
  col_effect (l_nonce L) d d1 (at_addr (From t) 1) 1 ∧ others_kept d d1 ∧ accounts_ok d1.
Proof using All.
  intros Ha Hok Hb Hn f d1. pose proof (Hok _ _ Ha) as Hoka.
  split; [|split; [|split]].
  - apply (col_effect_upd _ _ _ _ fa); [done|]. unfold f. rewrite bal_set_nonce, bal_set_bal. lia.
  - apply (col_effect_upd _ _ _ _ fa); [done|]. unfold f. rewrite nonce_set_nonce. lia.
  - intros g Hg _. apply (free_effect_upd g _ _ _ fa); [done|]. unfold f.
    by rewrite (proj2 (Hg _ _)), (proj1 (Hg _ _)).
  - apply accounts_ok_upd; [done|]. intros x Ex Hx. pose proof (ok_nonce fa Hoka).
    pose proof (ok_bal fa Hoka). apply ok_set_nonce; [|lia]. apply ok_set_bal; [done|lia].
Qed.

Lemma credit_if_spec (c : bool) a v d : 0 ≤ v → (c = false → v = 0) → accounts_ok d →
  acct_sum (l_bal L) d + v < two63 →
  ∃ d', (if c then lane_credit L a v else ret tt) d = Ok (tt, d') ∧
    col_effect (l_bal L) d d' (at_addr a v) v ∧ col_effect (l_nonce L) d d' (λ _, 0) 0 ∧
    others_kept d d' ∧ accounts_ok d' ∧ meta d' = meta d.
Proof using All.
  intros Hv Hc Hok Hs. destruct c.
  - assert (0 ≤ acct_sum (l_bal L) d) by (apply sum_nonneg; [apply ok_bal|done]).
    destruct (lane_credit_total a v d ltac:(lia)) as [d' Hc']. exists d'. split; [done|].
    destruct (lane_credit_spec a v d d' Hv Hok Hs Hc') as (E & O & N & K & M & _).
    by split_and!.
  - exists d. split; [done|]. rewrite (Hc eq_refl).
    split; [|split; [by apply col_effect_none|split; [by apply others_kept_none|done]]].
    eapply col_effect_ext; [by apply (col_effect_none _ d d)|intros b; by rewrite at_addr_0|done].
Qed.

(** An accepted transfer always commits, and moves exactly its amount and fee. *)
Lemma lane_move_spec feeAddr t fa d : accounts d !! From t = Some fa → From t ≠ To t → tx_typed t →
  accounts_ok d → lane_supply d → AmountUnits t + FeeUnits t ≤ l_bal L fa → l_nonce L fa + 1 < two63 →
  let burn := fee_burn (FeeUnits t) NetworkFeeBurnShare in
  ∃ d', lane_move L feeAddr t fa d = Ok (tt, d') ∧
    col_effect (l_bal L) d d' (lane_delta feeAddr t) (- burn) ∧
    col_effect (l_nonce L) d d' (at_addr (From t) 1) 1 ∧ others_kept d d' ∧ accounts_ok d' ∧
    l_burned L d' = l_burned L d + (if l_tracks L then burn else 0) ∧
    (∀ k, k ≠ l_burn_key L → meta d' !! k = meta d !! k).
Proof using All.
  intros Ha Hne (Ta & Tf & _) Hok [Hb0 Hs] Hb Hn burn. pose proof (Hok _ _ Ha) as Hoka.
  pose proof (ok_bal fa Hoka) as Rb. pose proof (ok_nonce fa Hoka) as Rn.
  pose proof (fee_burn_range (FeeUnits t) (proj1 Tf)) as Hburn. fold burn in Hburn.
  unfold lane_move. cbv zeta. fold burn. set (total := AmountUnits t + FeeUnits t) in *.
  rewrite (u64_small total), (u64_small (l_bal L fa - total)), (u64_small (l_nonce L fa + 1)),
    (u64_small (FeeUnits t - burn)) by (unfold two63, two64, total in *; lia).
  run_u64 lia. run_u64 lia.
  rewrite (bind_run (update_account _ _) _ _ tt _) by done.
  destruct (lane_debit_spec t fa d Ha Hok ltac:(unfold total in *; lia) Hn) as (E1 & N1 & O1 & K1).
  fold total in E1, N1, O1, K1. set (d1 := upd_account _ _ d) in *.
  pose proof (ce_sum _ _ _ _ _ E1) as S1.
  pose proof (balance_le_sum (l_bal L) d (From t) fa (λ y Hy, proj1 (ok_bal y Hy)) Hok Ha) as Hle.
  assert (M1 : meta d1 = meta d) by apply meta_upd.
  destruct (credit_if_spec (negb (String.eqb (From t) (To t))) (To t) (AmountUnits t) d1) as
    (d2 & H2 & E2 & N2 & O2 & K2 & M2); [lia| |done|unfold total in *; lia|].
  { intros C. apply negb_false_iff, String.eqb_eq in C. done. }
  rewrite (bind_run _ _ _ _ _ H2). pose proof (ce_sum _ _ _ _ _ E2) as S2.
  destruct (credit_if_spec (0 <? FeeUnits t - burn) feeAddr (FeeUnits t - burn) d2) as
    (d3 & H3 & E3 & N3 & O3 & K3 & M3); [lia| |done|unfold total in *; lia|].
  { intros C. b2p. lia. }
  rewrite (bind_run _ _ _ _ _ H3). pose proof (ce_sum _ _ _ _ _ E3) as S3.
  destruct (burn_total burn d3) as [d' H4]. exists d'. split; [done|].
  pose proof (burn_accounts _ _ _ H4) as A4.
  assert (B3 : l_burned L d3 = l_burned L d) by (apply burned_meta; congruence).
  split; [|split; [|split; [|split; [|split]]]].
  - eapply col_effect_ext; [exact (col_effect_trans _ _ _ _ _ _ _ _ (col_effect_trans _ _ _ _ _ _ _ _
      (col_effect_trans _ _ _ _ _ _ _ _ E1 E2) E3) (col_effect_none _ _ _ A4))| |unfold total; lia].
    intros b. cbn. unfold lane_delta. fold burn total. lia.
  - eapply col_effect_ext; [exact (col_effect_trans _ _ _ _ _ _ _ _ (col_effect_trans _ _ _ _ _ _ _ _
      (col_effect_trans _ _ _ _ _ _ _ _ N1 N2) N3) (col_effect_none _ _ _ A4))|intros b; cbn; lia|lia].
  - eapply others_kept_trans; [|exact (others_kept_none _ _ A4)].
    eapply others_kept_trans; [|exact O3]. eapply others_kept_trans; [exact O1|exact O2].
  - unfold accounts_ok. by rewrite A4.
  - rewrite (burn_counts burn d3 d'), B3; [done|lia|lia| |done].
    rewrite B3. unfold two63, two64, total in *. lia.
  - intros k Hk. rewrite (burn_meta _ _ _ H4 k Hk). by rewrite M3, M2, M1.
Qed.
End lane_facts.

(** ** One pool item, and the batch *)

(** What acceptance by a lane means. *)
Record lane_accepted `{Crypto} (L : Lane) (now : Z) (t : TransferTx) (d : DB) (a : Account) : Prop := {
  la_shape : l_shape L t = "";
  la_time : now - 86400 ≤ TimestampUnix t ≤ now + 3600;
  la_owner : pubKeyOwnsAddress (PubKeyEd25519 t) (From t) = true;
  la_sig : ∃ pub sig, decode_hex_len 32 (PubKeyEd25519 t) = Some pub ∧
    decode_hex_len 64 (SigEd25519 t) = Some sig ∧ ed25519_verify pub (side_canonicalBytes t) sig = true;
  la_account : accounts d !! From t = Some a;
  la_nonce : l_nonce L a = Nonce t;
  la_nowrap : AmountUnits t + FeeUnits t < two64;
  la_funds : AmountUnits t + FeeUnits t ≤ l_bal L a;
}.

Section lane_batch.
Context `{ChainParams} `{Crypto} (L : Lane) `{!LaneLaws L}.

Lemma lane_validate_ok now t d : tx_typed t → lane_validate L now t d = "" →
  l_insufficient L ≠ "" → ∃ a, lane_accepted L now t d a.
Proof using.
  intros (Ta & Tf & _) H1 Hi. unfold lane_validate in H1. rewrite !code_neq in H1.
  destruct (String.eqb_spec (l_shape L t) "") as [Hs|Hs]; [|by rewrite H1 in Hs].
  destruct (String.eqb_spec (checkSignature t (side_canonicalBytes t)) "") as [Hg|Hg]; [|by rewrite H1 in Hg].
  apply checkSignature_ok in Hg as [Ho Hg].
  destruct (TimestampUnix t <=? 0); [done|].
  destruct (TimestampUnix t <? now - 86400) eqn:E1; [done|].
  destruct (now + 3600 <? TimestampUnix t) eqn:E2; [done|].
  destruct (accounts d !! From t) as [a|] eqn:Ea; [|done].
  destruct (Z.eqb_spec (l_nonce L a) (Nonce t)); cbn [negb] in H1; [|done].
  destruct ((u64 (AmountUnits t + FeeUnits t) <? AmountUnits t)
    || (l_bal L a <? u64 (AmountUnits t + FeeUnits t))) eqn:E; [done|].
  apply orb_false_iff in E as [E3 E4]. destruct (u64_sum_check _ _ Ta Tf E3) as [W1 W2].
  rewrite W2 in E4. b2p. exists a. split; try done; lia.
Qed.

Lemma lane_code_ok now idx t d : tx_typed t → l_insufficient L ≠ "" → lane_code L now idx t d = "" →
  (∃ a, lane_accepted L now t d a) ∧ checkTxChainID idx (ChainID t) = "" ∧
  checkSpendRulesQ d idx (From t) (To t) (PubKeyEd25519 t) = "".
Proof using.
  intros Ht Hi H1. unfold lane_code in H1. rewrite !code_neq in H1.
  destruct (String.eqb_spec (lane_validate L now t d) "") as [E|E]; [|by rewrite H1 in E].
  destruct (String.eqb_spec (checkTxChainID idx (ChainID t)) "") as [E'|E']; [|by rewrite H1 in E'].
  split; [by apply lane_validate_ok|done].
Qed.

(** The state a lane's batch runs in, and what one item does to it. *)
Record lane_step (d d' : DB) (B : Z) : Prop := {
  ls_burn : 0 ≤ B;
  ls_sum : acct_sum (l_bal L) d' = acct_sum (l_bal L) d - B;
  ls_burned : l_burned L d' = l_burned L d + (if l_tracks L then B else 0);
  ls_others : others_kept L d d';
  ls_nonce : ∀ b, mval (l_nonce L) (accounts d) b ≤ mval (l_nonce L) (accounts d') b;
  ls_ok : accounts_ok d';
  ls_meta : ∀ k, k ≠ l_burn_key L → meta d' !! k = meta d !! k;
}.

Lemma lane_step_same d d' : accounts_ok d → accounts d' = accounts d → meta d' = meta d → lane_step d d' 0.
Proof using All.
  intros Hok A M. split; [lia| | | | | |].
  - unfold acct_sum. rewrite A. lia.
  - rewrite (burned_meta d d' M). case_match; lia.
  - by apply others_kept_none.
  - intros b. by rewrite A.
  - unfold accounts_ok. by rewrite A.
  - intros k _. by rewrite M.
Qed.

Lemma lane_step_trans d1 d2 d3 B1 B2 : lane_step d1 d2 B1 → lane_step d2 d3 B2 → lane_step d1 d3 (B1 + B2).
Proof using All.
  intros [A1 A2 A3 A4 A5 A6 A7] [C1 C2 C3 C4 C5 C6 C7]. split; [lia|lia| | | |done|].
  - rewrite C3, A3. case_match; lia.
  - eapply others_kept_trans; [exact A4|exact C4].
  - intros b. specialize (A5 b). specialize (C5 b). lia.
  - intros k Hk. by rewrite C7, A7.
Qed.

Lemma lane_delete_same hash d : ledger_same d (lane_delete_pool L hash d).
Proof using All. apply set_pool_same. Qed.

Context (now idx : Z) (bhash feeAddr : string) (Hidx : 0 ≤ idx < two63) (Hins : l_insufficient L ≠ "").

(** An item is applied or refused; either way the batch goes on. *)
Lemma lane_apply_spec item d : tx_typed (p_tx item) → accounts_ok d → lane_supply L d →
  (∀ b, mval (l_nonce L) (accounts d) b + 1 < two63) →
  ∃ d' B, lane_apply L now idx bhash feeAddr item d = Ok (tt, d') ∧ lane_step d d' B ∧
    (∀ b, mval (l_nonce L) (accounts d') b ≤ mval (l_nonce L) (accounts d) b + 1) ∧
    (lane_code L now idx (p_tx item) d = "" →
       col_effect (l_bal L) d d' (lane_delta feeAddr (p_tx item)) (- B) ∧
       B = fee_burn (FeeUnits (p_tx item)) NetworkFeeBurnShare) ∧
    (lane_code L now idx (p_tx item) d ≠ "" → accounts d' = accounts d ∧ meta d' = meta d).
Proof using All.
  intros Ht Hok Hs Hn. set (t := p_tx item) in *. unfold lane_apply.
  rewrite (bind_run get _ d d d) by done. cbv zeta. fold t.
  destruct (String.eqb_spec (lane_code L now idx t d) "internal_error") as [Ei|Ei].
  { exists d, 0. split; [done|]. split; [by apply lane_step_same|]. split; [intros; lia|].
    split; [by rewrite Ei|done]. }
  rewrite code_neq. destruct (String.eqb_spec (lane_code L now idx t d) "") as [Ec|Ec].
  - destruct (lane_code_ok now idx t d Ht Hins Ec) as ([a Ha] & _ & _). destruct Ha.
    rewrite la_account0. destruct (shape_ok _ la_shape0) as (Hne & _ & _).
    assert (Hn1 : l_nonce L a + 1 < two63).
    { specialize (Hn (From t)). unfold mval in Hn. by rewrite la_account0 in Hn. }
    destruct (lane_move_spec L feeAddr t a d) as (d1 & H1 & E & N & O & K & B & Mk); try done.
    set (burn := fee_burn (FeeUnits t) NetworkFeeBurnShare) in *.
    rewrite (bind_run _ _ _ _ _ H1). run_u64 lia. rewrite (bind_run (modify _) _ _ tt _) by done.
    set (h := hist_include _ _ _). destruct (set_hist_same h d1) as (A2 & _ & M2 & _).
    set (d2 := l_set_hist L h d1) in *.
    destruct (bindPubKeyQ_total (From t) (PubKeyEd25519 t) idx (l_source L) d2 Hidx)
      as (d3 & H3 & A3 & _ & M3 & _).
    rewrite (bind_run _ _ _ _ _ H3).
    destruct (lane_delete_same (p_hash item) d3) as (A4 & _ & M4 & _).
    set (d4 := lane_delete_pool L (p_hash item) d3) in *.
    assert (A : accounts d4 = accounts d1) by congruence. assert (M : meta d4 = meta d1) by congruence.
    exists d4, burn. split; [done|].
    assert (E' : col_effect (l_bal L) d d4 (lane_delta feeAddr t) (- burn)).
    { destruct E as [E1 E2]. split; [intros b; by rewrite A|]. rewrite (acct_sum_accounts _ d1 d4); done. }
    assert (N' : ∀ b, mval (l_nonce L) (accounts d4) b = mval (l_nonce L) (accounts d) b + at_addr (From t) 1 b).
    { intros b. rewrite A. apply (ce_at _ _ _ _ _ N). }
    split; [|split; [|split; [done|done]]].
    + split; [apply fee_burn_range, Ht| |rewrite <- B; by apply burned_meta| | | |].
      * rewrite (ce_sum _ _ _ _ _ E'). lia.
      * eapply others_kept_trans; [exact O|by apply others_kept_none].
      * intros b. rewrite N'. unfold at_addr. case_bool_decide; lia.
      * unfold accounts_ok. by rewrite A.
      * intros k Hk. by rewrite M, Mk.
    + intros b. rewrite N'. unfold at_addr. case_bool_decide; lia.
  - unfold lane_reject. rewrite (bind_run (modify _) _ _ tt _) by done.
    set (h := hist_insert _ _ _). destruct (set_hist_same h d) as (A2 & _ & M2 & _).
    set (d2 := l_set_hist L h d) in *.
    destruct (lane_delete_same (p_hash item) d2) as (A4 & _ & M4 & _).
    set (d4 := lane_delete_pool L (p_hash item) d2) in *.
    assert (A : accounts d4 = accounts d) by congruence. assert (M : meta d4 = meta d) by congruence.
    exists d4, 0. split; [done|]. split; [by apply lane_step_same|].
    split; [intros b; rewrite A; lia|]. done.
Qed.

Lemma lane_batch_spec l d : Forall (λ p, tx_typed (p_tx p)) l → accounts_ok d → lane_supply L d →
  (∀ b, mval (l_nonce L) (accounts d) b + Z.of_nat (length l) < two63) →
  ∃ d' B, iter_tx (lane_apply L now idx bhash feeAddr) l d = Ok (tt, d') ∧ lane_step d d' B.
Proof using All.
  revert d. induction l as [|x l IH]; intros d Ht Hok Hs Hn; cbn [iter_tx].
  - exists d, 0. split; [done|]. by apply lane_step_same.
  - apply list.Forall_cons in Ht as [Hx Ht]. cbn [length] in Hn.
    destruct (lane_apply_spec x d Hx Hok Hs) as (d1 & B & H1 & S1 & N1 & _).
    { intros b. specialize (Hn b). lia. }
    rewrite (bind_run _ _ _ _ _ H1). pose proof S1 as [P1 P2 P3 P4 P5 P6 _].
    destruct (IH d1 Ht P6) as (d' & B' & H2 & S2).
    { destruct Hs. split; rewrite P3, ?P2; case_match; lia. }
    { intros b. specialize (Hn b). specialize (N1 b). lia. }
    exists d', (B + B'). split; [done|]. by apply (lane_step_trans d d1 d').
Qed.

(** A batch needs a typed pool and head room in the nonces. *)
Definition lane_ready (limit : Z) (d : DB) : Prop :=
  accounts_ok d ∧ lane_supply L d ∧ 0 ≤ limit ∧ (∀ p, p ∈ l_pool L d → tx_typed (p_tx p)) ∧
  (∀ b, mval (l_nonce L) (accounts d) b + limit < two63).

Lemma lane_load_elem limit d p : p ∈ lane_load L limit d → p ∈ l_pool L d ∧ p_status p = "pending".
Proof using.
  unfold lane_load. intros Hp%elem_of_take_l. rewrite sort_stable_elem in Hp. by apply pending_rows_elem.
Qed.

Lemma lane_apply_pending_spec limit d : lane_ready limit d →
  ∃ d' B, lane_apply_pending L limit now idx bhash feeAddr d = Ok (tt, d') ∧ lane_step d d' B.
Proof using All.
  intros (Hok & Hs & Hl & Ht & Hn). unfold lane_apply_pending.
  rewrite (bind_run get _ d d d) by done. apply lane_batch_spec; [|done|done|].
  - apply list.Forall_forall. intros p Hp. apply Ht. by apply (lane_load_elem limit d).
  - intros b. specialize (Hn b). unfold lane_load. rewrite length_take. lia.
Qed.
End lane_batch.
