(* ===== verification/SupLedger.v ===== *)
(** The SUP side ledger: transfers, minting under the supply cap, burning for services and fees.

    Sources: internal/chain/sup_ledger.go, sup_fee.go, mint_idem.go and mintEmptyBlockSUPTx of
    economics_v2.go.  [now] is [time.Now().Unix()], [nano] is [time.Now().UnixNano()], [mintEnv] is
    [supMintEnabledFromEnv()].  Operations fail with their reject code. *)
From S2P Require Import Prelude Float64 GoText Params Emission OrderFee Json Ledger Address GoSort Transfers Lane.

(** * Transfers *)

Definition DefaultSUPTransferMinFee : Z := 1000.
Definition DefaultSUPTransferMaxBatch : Z := 128.

Definition ValidateSupTransferShape (t : TransferTx) : string :=
  if negb (String.eqb (TxType t) "transfer_sup_v1") then "invalid_tx_type"
  else
    let from := trim_space (From t) in
    let to := trim_space (To t) in
    if String.eqb from "" || String.eqb to "" || String.eqb from to
       || negb (has_prefix from "HMC-") || negb (has_prefix to "HMC-") then "invalid_address"
    else if negb (String.eqb (From t) from) || negb (String.eqb (To t) to) then "invalid_address"
    else if AmountUnits t =? 0 then "invalid_amount"
    else if FeeUnits t <? DefaultSUPTransferMinFee then "fee_too_low"
    else "".

(** A burned SUP fee is debited and credited to nobody; no counter moves. *)
Definition sup_lane : Lane :=
  {| l_bal := balance_sup_units; l_set_bal := set_sup;
     l_nonce := sup_next_nonce; l_set_nonce := set_sup_nonce;
     l_pool := sup_tx_pool; l_set_pool := set_sup_pool;
     l_hist := sup_tx_history; l_set_hist := set_sup_history;
     l_shape := ValidateSupTransferShape;
     l_insufficient := "insufficient_sup_balance";
     l_source := PubKeyBindSourceSUP;
     l_burn := λ _, ret tt;
     l_burned := λ d, metaUint d metaSUPTotalBurnedUnits 0;
     l_tracks := false;
     l_burn_key := metaSUPTotalBurnedUnits |}.

Definition validateSupTransferTx `{Crypto} : Z → TransferTx → DB → string := lane_validate sup_lane.
Definition SubmitSupTransferTx `{ChainParams} `{Crypto} : Z → TransferTx → tx DB string :=
  lane_submit sup_lane.
Definition applyPendingSupTransfers `{ChainParams} `{Crypto} (now idx : Z) (blockHash : string) : tx DB unit :=
  lane_apply_pending sup_lane DefaultSUPTransferMaxBatch now idx blockHash DevFeeAddress.

(** * Supply *)

Definition metaSUPMaxSupplyUnits : string := "sup_max_supply_units".
Definition metaSUPTotalMintedUnits : string := "sup_total_minted_units".
Definition metaSUPGenesisUnix : string := "sup_genesis_unix".
Definition metaSUPMintEnabled : string := "sup_mint_enabled".
Definition metaSUPMintIdemPrefix : string := "mint_idem:sup:".

Definition supMaxSupplyUnits (d : DB) : Z := metaUint d metaSUPMaxSupplyUnits (SUPToUnits MaxSupplySUP).
Definition supTotalMintedUnits (d : DB) : Z := metaUint d metaSUPTotalMintedUnits 0.
Definition supTotalBurnedUnits (d : DB) : Z := metaUint d metaSUPTotalBurnedUnits 0.

(** Is the next block under Economics v2, and the tip height. *)
Definition supAdminMintRetiredQ `{ChainParams} (d : DB) : bool * Z :=
  (EconomicsV2ActiveForIndex (u64 (tip_height d + 1)), tip_height d).

(** The cap an admin mint must respect once a v2 height is configured. *)
Definition supMintCap `{ChainParams} (d : DB) : Z :=
  let maxU := supMaxSupplyUnits d in
  if 1 <=? v2_height then
    let v2Cap := SUPToUnits V2SUPMaxSupply in
    if v2Cap <? maxU then v2Cap else maxU
  else maxU.

Record SUPEconomics := mkSUPEconomics {
  MaxSupplySUP_ : f64; TotalMintedSUP : f64; RemainingSUP : f64; GenesisUnix : Z;
  MintEnabled : bool; OnChainSettleLive : bool; AdminMintRetired : bool;
  TotalBurnedSUP : f64; RewardPerBlockSUP : f64;
}.

(** [strconv.ParseInt(s, 10, 64)], 0 when it is not a number. *)
Definition parse_int64 (s : string) : Z :=
  match s with
  | String a r =>
      let sign := if (nat_of_ascii a =? 45)%nat then -1 else 1 in
      let digits := if ((nat_of_ascii a =? 45) || (nat_of_ascii a =? 43))%nat then r else s in
      match digits with
      | EmptyString => 0
      | _ => match parse_digits digits 0 with
             | Some z => Z.max (- two63) (Z.min (two63 - 1) (sign * z))
             | None => 0
             end
      end
  | EmptyString => 0
  end.

Definition meta_text (d : DB) (key : string) : string := default "" (metaText d key).

Definition sup_economics `{ChainParams} (mintEnv : bool) (d : DB) : SUPEconomics :=
  let mintedU := supTotalMintedUnits d in
  let mintOn := String.eqb (trim_space (meta_text d metaSUPMintEnabled)) "1" || mintEnv in
  let '(retired, tip) := supAdminMintRetiredQ d in
  let maxU := supMintCap d in
  let remain := if mintedU <? maxU then maxU - mintedU else 0 in
  {| MaxSupplySUP_ := UnitsToSUP maxU; TotalMintedSUP := UnitsToSUP mintedU;
     RemainingSUP := UnitsToSUP remain;
     GenesisUnix := parse_int64 (trim_space (meta_text d metaSUPGenesisUnix));
     MintEnabled := mintOn && negb retired; OnChainSettleLive := mintOn || retired;
     AdminMintRetired := retired; TotalBurnedSUP := UnitsToSUP (supTotalBurnedUnits d);
     RewardPerBlockSUP := SUPRewardForBlockIndex (u64 (tip + 1)) |}.

(** Pins the maximum and raises the minted floor to the circulating sum. *)
Definition InitSUPGenesis (now : Z) : tx DB unit :=
  upsertMetaUint metaSUPMaxSupplyUnits (SUPToUnits MaxSupplySUP) ;;;
  let* d := get in
  (if String.eqb (trim_space (meta_text d metaSUPGenesisUnix)) ""
   then upsertMeta metaSUPGenesisUnix (fmt_int now) else ret tt) ;;;
  let mintedU := supTotalMintedUnits d in
  let balSum := sup_sum d in
  (if mintedU <? balSum then upsertMetaUint metaSUPTotalMintedUnits balSum
   else if (mintedU =? 0) && (balSum =? 0) then
     match meta d !! metaSUPTotalMintedUnits with
     | None => upsertMetaUint metaSUPTotalMintedUnits 0
     | Some _ => ret tt
     end
   else ret tt) ;;;
  upsertMeta metaSUPMintEnabled "1".

(** * Minting *)

Definition newline : string := String (ascii_of_nat 10) EmptyString.

Definition mintIdempotencyMetaKey `{Crypto} (prefix to : string) (amountUnits : Z) (memo : string) : string :=
  let memo := trim_space memo in
  if String.eqb memo "" || String.eqb (trim_space prefix) "" then ""
  else
    prefix +:+ hex_encode (str_prefix 16 (sha256
      (prefix +:+ newline +:+ trim_space to +:+ newline +:+ fmt_uint amountUnits +:+ newline +:+ memo))).

(** [INSERT INTO ..._tx_history] without a conflict clause. *)
Definition insert_hist (L : Lane) (hash : string) (r : HistRow) : tx DB unit :=
  sql_u64 (h_amount r) ;;;
  let* d := get in
  match l_hist L d !! hash with
  | Some _ => fail "UNIQUE constraint failed"
  | None => modify (λ d, l_set_hist L (<[hash := r]> (l_hist L d)) d)
  end.

Definition mint_row (op to : string) (amount : Z) (memo : string) (now : Z) : string :=
  json_object [JUint "amount_units" amount; JStr "memo" memo; JStr "op" op; JStr "to" to; JInt "ts" now].

(** The transaction of [MintSUP] and [MintHMS]: a replayed key is a no-op; otherwise credit under
    the cap, count the mint, and record its key in the history and in [meta]. *)
Definition mint_once (L : Lane) (hashPrefix idemKey op mintedKey capCode : string)
    (retired : DB → option string) (cap : DB → Z) (now : Z) (to : string) (amountUnits : Z) (memo : string)
    : tx DB unit :=
  let txHash := hashPrefix +:+ idemKey in
  let* d := get in
  match l_hist L d !! txHash with
  | Some _ => ret tt
  | None =>
      if negb (String.eqb (trim_space (meta_text d idemKey)) "") then ret tt
      else match retired d with
      | Some code => fail code
      | None =>
          let mintedU := metaUint d mintedKey 0 in
          if cap d <? u64 (mintedU + amountUnits) then fail capCode
          else
            lane_credit L to amountUnits ;;;
            upsertMetaUint mintedKey (u64 (mintedU + amountUnits)) ;;;
            insert_hist L txHash (mkHistRow "" to 0 0 amountUnits "included" 0 "mint" now "" memo) ;;;
            upsertMeta idemKey (mint_row op to amountUnits memo now)
      end
  end.

Definition MintSUP `{ChainParams} `{Crypto} (mintEnv : bool) (now : Z) (to : string) (amountUnits : Z)
    (memo : string) : tx DB unit :=
  if amountUnits =? 0 then fail "invalid_amount"
  else
    let to := trim_space to in
    let memo := trim_space memo in
    if String.eqb memo "" then fail "memo_required"
    else if negb (has_prefix to "HMC-") then fail "invalid_address"
    else
      let* d := get in
      let ec := sup_economics mintEnv d in
      if AdminMintRetired ec then fail "sup_mint_retired_v2"
      else if negb (MintEnabled ec) && negb mintEnv then fail "sup_mint_disabled"
      else
        mint_once sup_lane "sup-" (mintIdempotencyMetaKey metaSUPMintIdemPrefix to amountUnits memo)
          "mint_sup" metaSUPTotalMintedUnits "sup_supply_cap"
          (λ d, if fst (supAdminMintRetiredQ d) then Some "sup_mint_retired_v2"%string else None)
          supMintCap now to amountUnits memo.

(** The consensus emission of one empty block. *)
Definition mintEmptyBlockSUPTx `{ChainParams} (blockIndex : Z) (orderTaskID toAddr : string) : tx DB unit :=
  if negb (String.eqb (trim_space orderTaskID) "") || negb (EconomicsV2ActiveForIndex blockIndex) then ret tt
  else
    let reward := SUPRewardForBlockIndex blockIndex in
    if f_leb reward (f_of_Z 0) then ret tt
    else
      let amount := SUPToUnits reward in
      if amount =? 0 then ret tt
      else
        let toAddr := trim_space toAddr in
        if String.eqb toAddr "" || negb (has_prefix toAddr "HMC-")
        then fail "chain: valid address required for empty-block SUP mint"
        else
          let* d := get in
          let mintedU := supTotalMintedUnits d in
          let v2Cap := SUPToUnits V2SUPMaxSupply in
          let ledgerCap := supMaxSupplyUnits d in
          let capU := if ledgerCap <? v2Cap then ledgerCap else v2Cap in
          if capU <=? mintedU then ret tt
          else
            let remain := capU - mintedU in
            let amount := if remain <? amount then remain else amount in
            if amount =? 0 then ret tt
            else
              lane_credit sup_lane toAddr amount ;;;
              upsertMetaUint metaSUPTotalMintedUnits (u64 (mintedU + amount)).

(** * Burning *)

Definition burn_row (from : string) (amount now : Z) (memo : string) : HistRow :=
  mkHistRow from "" 0 0 amount "included" 0 "burn" now "" memo.

(** An empty [txHash] stands for a generated one. *)
Definition burn_hash (nano : Z) (from txHash : string) : string :=
  if String.eqb txHash "" then "burn-" +:+ fmt_int nano +:+ "-" +:+ from else txHash.

(** Debit, history row, burn counter. *)
Definition burnSUPTx (now nano : Z) (from : string) (amountUnits : Z) (memo txHash : string) : tx DB unit :=
  let* d := get in
  let hash := burn_hash nano from txHash in
  if negb (String.eqb txHash "") && bool_decide (is_Some (sup_tx_history d !! hash)) then fail "burn_replay"
  else match accounts d !! from with
  | None => fail "insufficient_sup_balance"
  | Some a =>
      if balance_sup_units a <? amountUnits then fail "insufficient_sup_balance"
      else
        let newBal := u64 (balance_sup_units a - amountUnits) in
        sql_u64 newBal ;;;
        update_account (set_sup newBal) from ;;;
        insert_hist sup_lane hash (burn_row from amountUnits now (trim_space memo)) ;;;
        let* d := get in
        upsertMetaUint metaSUPTotalBurnedUnits (u64 (supTotalBurnedUnits d + amountUnits))
  end.

Definition BurnSUPForService (now nano : Z) (from : string) (amountUnits : Z) (memo : string) : tx DB unit :=
  if amountUnits =? 0 then fail "invalid_amount"
  else
    let* w := wallet_row "wallet_missing" in
    let walletAddr := trim_space (w_address w) in
    let from := trim_space from in
    let from := if String.eqb from "" then walletAddr else from in
    if negb (has_prefix from "HMC-") then fail "invalid_address"
    else if negb (String.eqb from walletAddr) then fail "owner_required"
    else burnSUPTx now nano from amountUnits memo "".

Definition BurnSUPCanonicalMessage (from : string) (amountUnits : Z) (memo : string) : string :=
  "burn_sup_v1|" +:+ trim_space from +:+ "|" +:+ fmt_uint amountUnits +:+ "|" +:+ trim_space memo.

(** Keyed by the signature: a seen one cannot be replayed. *)
Definition burn_sig_key `{Crypto} (sig : string) : string :=
  "burn-sig-" +:+ hex_encode (str_prefix 16 (sha256 sig)).

Definition BurnSUPWithOwnerProof `{ChainParams} `{Crypto} (now nano : Z) (from : string) (amountUnits : Z)
    (memo pubKeyHex sigHex : string) : tx DB unit :=
  if amountUnits =? 0 then fail "invalid_amount"
  else
    let from := trim_space from in
    if negb (has_prefix from "HMC-") then fail "invalid_address"
    else match decode_hex_len 32 pubKeyHex, decode_hex_len 64 sigHex with
    | Some pub, Some sig =>
        if negb (pubKeyOwnsAddress pubKeyHex from) then fail "address_pubkey_mismatch"
        else if negb (ed25519_verify pub (BurnSUPCanonicalMessage from amountUnits memo) sig)
        then fail "invalid_signature"
        else
          let* d := get in
          let code := checkSpendRulesQ d (nextBlockIndexQ d) from "" pubKeyHex in
          if negb (String.eqb code "") then fail code
          else
            burnSUPTx now nano from amountUnits memo (burn_sig_key sig) ;;;
            let* d := get in
            attempt (bindPubKeyQ from pubKeyHex (nextBlockIndexQ d) PubKeyBindSourceBurn)
    | _, _ => fail "invalid_signature"
    end.

(** ** Product fees *)

Definition SUPFeeProductHMCOrder : string := "hmc_order".
(** [supFeeProducts]: is the product known, and may it be paid by the public path? *)
Definition supFeeProducts : list (string * bool) := [(SUPFeeProductHMCOrder, false)].
Definition supFeeProduct (product : string) : option bool :=
  snd <$> List.find (λ p, String.eqb (fst p) product) supFeeProducts.

Definition BurnSUPForFeeMessage (chainID from : string) (amountUnits : Z) (product ref : string) : string :=
  "burn_sup_for_fee_v1|" +:+ trim_space chainID +:+ "|" +:+ trim_space from +:+ "|" +:+ fmt_uint amountUnits
  +:+ "|" +:+ trim_space product +:+ "|" +:+ trim_space ref.

Definition supFeeRefMessage (product from ref : string) : string :=
  trim_space product +:+ "|" +:+ trim_space from +:+ "|" +:+ trim_space ref.
Definition supFeeRefKey `{Crypto} (product from ref : string) : string :=
  "supfee-" +:+ hex_encode (str_prefix 16 (sha256 (supFeeRefMessage product from ref))).

Definition bad_ref_char (c : ascii) : bool :=
  let n := nat_of_ascii c in ((n =? 124) || (n =? 10) || (n =? 13))%nat.

(** The reject code, [""] when the request is well formed. *)
Definition validateSUPFeeShape (from : string) (amountUnits : Z) (product ref : string) : string :=
  if amountUnits =? 0 then "invalid_amount"
  else if negb (has_prefix (trim_space from) "HMC-") then "invalid_address"
  else match supFeeProduct (trim_space product) with
  | None => "unknown_product"
  | Some _ =>
      let ref := trim_space ref in
      if String.eqb ref "" || (128 <? str_len ref) || any_char bad_ref_char ref then "invalid_ref"
      else ""
  end.

Definition burnSUPForFeeTx `{Crypto} (now : Z) (from : string) (amountUnits : Z) (product ref : string)
    : tx DB unit :=
  let from := trim_space from in
  let code := validateSUPFeeShape from amountUnits product ref in
  if negb (String.eqb code "") then fail code
  else
    let key := supFeeRefKey product from ref in
    let* d := get in
    match sup_tx_history d !! key with
    | Some _ => fail "fee_ref_already_paid"
    | None =>
        match accounts d !! from with
        | None => fail "insufficient_sup_balance"
        | Some a =>
            if balance_sup_units a <? amountUnits then fail "insufficient_sup_balance"
            else
              sql_u64 amountUnits ;;;
              update_account (λ a, set_sup (balance_sup_units a - amountUnits) a) from ;;;
              upsertMetaUint metaSUPTotalBurnedUnits (u64 (supTotalBurnedUnits d + amountUnits)) ;;;
              insert_hist sup_lane key (burn_row from amountUnits now "")
        end
    end.

(** [chainID]: the network of the next block, [ChainIDForIndex]. *)
Definition BurnSUPForFee `{ChainParams} `{Crypto} (now : Z) (chainID from : string) (amountUnits : Z)
    (product ref pubKeyHex sigHex : string) : tx DB unit :=
  let from := trim_space from in
  let code := validateSUPFeeShape from amountUnits product ref in
  if negb (String.eqb code "") then fail code
  else match supFeeProduct (trim_space product) with
  | Some true =>
      match decode_hex_len 32 pubKeyHex, decode_hex_len 64 sigHex with
      | Some pub, Some sig =>
          if negb (pubKeyOwnsAddress pubKeyHex from) then fail "address_pubkey_mismatch"
          else
            let* d := get in
            let tip := snd (supAdminMintRetiredQ d) in
            if negb (ed25519_verify pub (BurnSUPForFeeMessage chainID from amountUnits product ref) sig)
            then fail "invalid_signature"
            else
              let code := checkSpendRulesQ d (nextBlockIndexQ d) from "" pubKeyHex in
              if negb (String.eqb code "") then fail code
              else
                burnSUPForFeeTx now from amountUnits product ref ;;;
                bindPubKeyQ from pubKeyHex (u64 (tip + 1)) PubKeyBindSourceBurn
      | _, _ => fail "invalid_signature"
      end
  | _ => fail "product_internal_only"
  end.

Definition AuditSUPDiscountMaxFraction : f64 := lit 15 100.

(** The cash and SUP parts of a budget, the SUP part at most 15%. *)
Definition ApplyAuditSUPDiscount (budgetHMC payerSUPBalance : f64) : f64 * f64 :=
  if f_leb budgetHMC (f_of_Z 0) || f_leb payerSUPBalance (f_of_Z 0) then (budgetHMC, f_of_Z 0)
  else
    let cap := f_mul budgetHMC AuditSUPDiscountMaxFraction in
    let supUsed := if f_ltb cap payerSUPBalance then cap else payerSUPBalance in
    let cashHMC := f_sub budgetHMC supUsed in
    (if f_ltb cashHMC (f_of_Z 0) then f_of_Z 0 else cashHMC, supUsed).

(** * Facts *)

#[export] Instance sup_lane_laws : LaneLaws sup_lane.
Proof.
  split; try done; try (intros *; unfold account_ok; cbn; lia).
  - intros v d. by eexists.
  - intros v d d' H. cbn in H. by inv_tx H.
  - intros v d d' _ _ _ H. cbn in H. inv_tx H. cbn. lia.
  - intros v d d' H. cbn in H. by inv_tx H.
  - intros d d' M. cbn. unfold metaUint. by rewrite M.
  - intros t H. cbn in H. unfold ValidateSupTransferShape in H. cbv zeta in H.
    repeat (case_match; try done). b2p.
    repeat match goal with
    | H : String.eqb _ _ = true |- _ => apply String.eqb_eq in H
    | H : String.eqb _ _ = false |- _ => apply String.eqb_neq in H
    end.
    unfold DefaultSUPTransferMinFee, DefaultTransferMinFee in *.
    split; [congruence|]. split; [done|lia].
Qed.

Lemma lane_free_sup_hmc : lane_free sup_lane balance_units.
Proof. done. Qed.
Lemma lane_free_sup_hms : lane_free sup_lane balance_hms_units.
Proof. done. Qed.

Lemma metaUint_at d d' k f : meta d' !! k = meta d !! k → metaUint d' k f = metaUint d k f.
Proof. unfold metaUint. by intros ->. Qed.

Lemma metaUint_ups k v d f : metaUint (ups_meta k (MUint v) d) k f = v.
Proof. unfold metaUint. cbn. by rewrite lookup_insert_eq. Qed.

Lemma metaUint_ups_ne k k' v d f : k ≠ k' → metaUint (ups_meta k v d) k' f = metaUint d k' f.
Proof. intros Hk. unfold metaUint. cbn. by rewrite lookup_insert_ne. Qed.

Lemma sup_units_max : SUPToUnits MaxSupplySUP = 2100000000000000.
Proof. vm_compute. reflexivity. Qed.
Lemma sup_units_v2 : SUPToUnits V2SUPMaxSupply = 2100000000000.
Proof. vm_compute. reflexivity. Qed.

(** ** Minting *)

Lemma insert_hist_spec L `{!LaneLaws L} hash r d u d' : insert_hist L hash r d = Ok (u, d') →
  0 ≤ h_amount r < two63 ∧ l_hist L d !! hash = None ∧ d' = l_set_hist L (<[hash := r]> (l_hist L d)) d ∧
  l_hist L d' !! hash = Some r ∧ accounts d' = accounts d ∧ meta d' = meta d ∧ blocks d' = blocks d.
Proof.
  intros H. unfold insert_hist in H. inv_tx H. b2p.
  match goal with |- context [l_set_hist L ?h ?s] => destruct (set_hist_same h s) as (?&?&?&?&?&?&?) end.
  split_and!; try done. rewrite hist_set_hist. apply lookup_insert_eq.
Qed.

(** The supply invariant of a side ledger: balances never exceed what was minted. *)
Definition supply_inv (L : Lane) (mintedKey : string) (maxUnits : Z) (d : DB) : Prop :=
  accounts_ok d ∧ acct_sum (l_bal L) d ≤ metaUint d mintedKey 0 ≤ maxUnits.

Lemma supply_inv_nonneg L `{!LaneLaws L} k m d : supply_inv L k m d → 0 ≤ acct_sum (l_bal L) d.
Proof. intros [Hok _]. apply sum_nonneg; [apply ok_bal|done]. Qed.

(** A mint that is not a replay: exact credit, exact count, below the cap.  The 64-bit sum of the
    cap test cannot wrap past it: an amount with the high bit set is refused by the driver. *)
Lemma mint_once_spec L `{!LaneLaws L} hp idem op mk capCode ret' cap now to amt memo M d d' :
  mint_once L hp idem op mk capCode ret' cap now to amt memo d = Ok (tt, d') →
  supply_inv L mk M d → M < 2 ^ 62 → cap d ≤ M → 0 ≤ amt < two64 → mk ≠ idem →
  l_hist L d !! (hp +:+ idem) = None → trim_space (meta_text d idem) = "" →
  metaUint d mk 0 + amt ≤ cap d ∧ ret' d = None ∧
  col_effect (l_bal L) d d' (at_addr to amt) amt ∧ others_kept L d d' ∧
  metaUint d' mk 0 = metaUint d mk 0 + amt ∧ is_Some (l_hist L d' !! (hp +:+ idem)) ∧
  accounts_ok d' ∧ blocks d' = blocks d ∧
  (∀ k, k ≠ mk → k ≠ idem → meta d' !! k = meta d !! k).
Proof.
  intros H (Hok & Hs & Hm) HM Hc Ha Hne Hh Ht. pose proof (supply_inv_nonneg L mk M d (conj Hok (conj Hs Hm))) as S0.
  unfold mint_once in H. rewrite (bind_run get _ d d d), Hh, Ht in H by done. cbn [String.eqb negb] in H.
  destruct (ret' d) eqn:Er; [done|]. destruct (Z.ltb_spec (cap d) (u64 (metaUint d mk 0 + amt))); [done|].
  apply bind_ok in H as ([] & d1 & H1 & H). apply bind_ok in H as ([] & d2 & H2 & H).
  apply bind_ok in H as ([] & d3 & H3 & H4). inv_tx H2. inv_tx H4.
  apply insert_hist_spec in H3 as (Hr & _ & _ & H3 & A3 & M3 & B3); [|done]. cbn [h_amount] in Hr.
  rewrite u64_small in * by (unfold two63, two64 in *; lia).
  destruct (lane_credit_spec L to amt d d1) as (E & O & N & K & M1 & W1); [lia|done|unfold two63; lia|done|].
  assert (A : accounts d3 = accounts d1) by done.
  split; [lia|]. split; [done|]. split; [|split; [|split; [|split; [|split; [|split]]]]].
  - destruct E as [E1 E2]. split; [intros b; cbn; by rewrite A|]. rewrite (acct_sum_accounts _ d1); done.
  - eapply others_kept_trans; [exact O|]. by apply others_kept_none.
  - rewrite metaUint_ups_ne by done. unfold metaUint. rewrite M3. cbn. by rewrite lookup_insert_eq.
  - rewrite hist_ups_meta. by exists (mkHistRow "" to 0 0 amt "included" 0 "mint" now "" memo).
  - unfold accounts_ok. cbn. by rewrite A.
  - cbn. rewrite B3. unfold lane_credit in H1. by inv_tx H1.
  - intros k Hk1 Hk2. cbn. rewrite lookup_insert_ne, M3 by done. cbn. by rewrite lookup_insert_ne, M1.
Qed.

(** A block's SUP transfers can neither fail nor create SUP, and move nothing else. From a
    well-formed ledger the batch always commits; every HMC and HMS balance is as before; the SUP
    total falls by exactly the burned fee shares [B], and the burn counter does not move - the
    burned fees are never counted in [sup_total_burned_units]. *)
Theorem applyPendingSupTransfers_conserves `{ChainParams} `{Crypto} now idx bhash d :
  lane_ready sup_lane DefaultSUPTransferMaxBatch d → 0 ≤ idx < two63 →
  ∃ d' B, applyPendingSupTransfers now idx bhash d = Ok (tt, d') ∧
    0 ≤ B ∧ sup_sum d' = sup_sum d - B ∧ supTotalBurnedUnits d' = supTotalBurnedUnits d ∧
    (∀ b, hmc d' b = hmc d b ∧ hms d' b = hms d b) ∧ accounts_ok d'.
Proof.
  intros Hr Hi. destruct (lane_apply_pending_spec sup_lane now idx bhash DevFeeAddress Hi ltac:(done) _ d Hr)
    as (d' & B & E & [S1 S2 S3 S4 S5 S6 S7]).
  exists d', B. split; [exact E|]. split; [done|]. split; [exact S2|].
  split; [unfold supTotalBurnedUnits; cbn in S3; lia|]. split; [|done]. intros b. split.
  - by apply (others_kept_at sup_lane d d' balance_units b S4 lane_free_sup_hmc).
  - by apply (others_kept_at sup_lane d d' balance_hms_units b S4 lane_free_sup_hms).
Qed.

(** ** Burning *)

(** What either burn does: debit, count, record. *)
Record sup_burned (d d' : DB) (from : string) (amt : Z) (hash : string) : Prop := {
  sb_account : ∃ a, accounts d !! from = Some a ∧ amt ≤ balance_sup_units a ∧
    accounts d' = <[from := set_sup (balance_sup_units a - amt) a]> (accounts d);
  sb_meta : meta d' = <[metaSUPTotalBurnedUnits := MUint (u64 (supTotalBurnedUnits d + amt))]> (meta d);
  sb_fresh : sup_tx_history d !! hash = None;
  sb_hist : ∃ r, sup_tx_history d' = <[hash := r]> (sup_tx_history d);
  sb_blocks : blocks d' = blocks d;
  sb_keys : address_pubkeys d' = address_pubkeys d;
  sb_rest : d' = set_sup_history (sup_tx_history d') (set_meta (meta d') (set_accounts (accounts d') d));
}.

Lemma burnSUPTx_spec now nano from amt memo hash d d' : accounts_ok d → 0 ≤ amt →
  burnSUPTx now nano from amt memo hash d = Ok (tt, d') → sup_burned d d' from amt (burn_hash nano from hash).
Proof.
  intros Hok Ha H. unfold burnSUPTx in H. rewrite (bind_run get _ d d d) in H by done. cbv zeta in H.
  destruct (accounts d !! from) as [a|] eqn:Ea; [|by case_match].
  pose proof (Hok _ _ Ea) as (_ & _ & K & _).
  case_match; [done|]. destruct (Z.ltb_spec (balance_sup_units a) amt); [done|].
  rewrite u64_small in H by (unfold two63, two64 in *; lia).
  apply bind_ok in H as ([] & d0 & G & H). inv_tx G.
  apply bind_ok in H as ([] & d1 & G1 & H). inv_tx G1.
  apply bind_ok in H as ([] & d2 & G2 & H).
  apply insert_hist_spec in G2 as (_ & F2 & -> & _ & _ & _ & _); [|apply _].
  rewrite (bind_run get _ _ _ _) in H by done. inv_tx H. cbn in F2.
  unfold upd_account in *. rewrite Ea in *. cbn in F2. split; try done.
  - by exists a.
  - by eexists.
Qed.

Lemma burnSUPForFeeTx_spec `{Crypto} now from amt product ref d d' : accounts_ok d → 0 ≤ amt →
  burnSUPForFeeTx now from amt product ref d = Ok (tt, d') →
  validateSUPFeeShape (trim_space from) amt product ref = "" ∧
  sup_burned d d' (trim_space from) amt (supFeeRefKey product (trim_space from) ref).
Proof.
  intros Hok Ha H1. unfold burnSUPForFeeTx in H1. cbv zeta in H1. set (f := trim_space from) in *.
  destruct (String.eqb_spec (validateSUPFeeShape f amt product ref) "") as [Hv|]; cbn [negb] in H1; [|done].
  split; [done|]. rewrite (bind_run get _ d d d) in H1 by done. set (key := supFeeRefKey product f ref) in *.
  destruct (sup_tx_history d !! key) eqn:Eh; [done|]. destruct (accounts d !! f) as [a|] eqn:Ea; [|done].
  destruct (Z.ltb_spec (balance_sup_units a) amt); [done|].
  apply bind_ok in H1 as ([] & d0 & G & H1). inv_tx G.
  apply bind_ok in H1 as ([] & d1 & G1 & H1). inv_tx G1.
  apply bind_ok in H1 as ([] & d2 & G2 & H1). inv_tx G2.
  apply insert_hist_spec in H1 as (_ & F2 & -> & _ & _ & _ & _); [|apply _]. cbn in F2.
  unfold upd_account in *. rewrite Ea in *. split; try done.
  - by exists a.
  - by eexists.
Qed.

Lemma sup_burned_effect d d' from amt hash : sup_burned d d' from amt hash →
  col_effect balance_sup_units d d' (at_addr from (- amt)) (- amt) ∧ others_kept sup_lane d d'.
Proof.
  intros [(a & Ea & Hle & Ad) _ _ _ _ _ _].
  assert (E : accounts d' = accounts (upd_account (set_sup (balance_sup_units a - amt)) from d))
    by (unfold upd_account; rewrite Ea; exact Ad).
  split.
  - destruct (col_effect_upd balance_sup_units from (set_sup (balance_sup_units a - amt)) d a (- amt) Ea) as [A S];
      [cbn; lia|]. split; [intros b; rewrite E; apply A|]. rewrite <- S. by apply acct_sum_accounts.
  - intros g Hg H0. assert (Hga : g (set_sup (balance_sup_units a - amt) a) = g a) by apply (Hg (balance_sup_units a - amt) a).
    destruct (free_effect_upd g from (set_sup (balance_sup_units a - amt)) d a Ea Hga) as [A S].
    split; [intros b; rewrite E; apply A|]. rewrite <- S. by apply acct_sum_accounts.
Qed.

Lemma sup_burned_ok d d' from amt hash : 0 ≤ amt → accounts_ok d → sup_burned d d' from amt hash → accounts_ok d'.
Proof.
  intros Ha Hok [(a & Ea & Hle & Ad) _ _ _ _ _ _]. unfold accounts_ok. rewrite Ad. apply map_Forall_insert_2; [|done].
  pose proof (Hok _ _ Ea) as K. unfold account_ok in *. cbn. lia.
Qed.

(** ** The supply invariant

    Circulating SUP plus counted burns never exceeds what was minted, and that never exceeds the
    cap. *)
Definition sup_inv (d : DB) : Prop :=
  accounts_ok d ∧ 0 ≤ supTotalBurnedUnits d ∧
  sup_sum d + supTotalBurnedUnits d ≤ supTotalMintedUnits d ∧
  supTotalMintedUnits d ≤ SUPToUnits MaxSupplySUP ∧ supMaxSupplyUnits d ≤ SUPToUnits MaxSupplySUP.

(** Every operation of the SUP ledger, as a committed step. *)
Inductive sup_step `{ChainParams} `{Crypto} : DB → DB → Prop :=
  | step_genesis now d d' : InitSUPGenesis now d = Ok (tt, d') → sup_step d d'
  | step_mint env now to amt memo d d' : 0 ≤ amt < two64 →
      MintSUP env now to amt memo d = Ok (tt, d') → sup_step d d'
  | step_emit idx order to d d' : mintEmptyBlockSUPTx idx order to d = Ok (tt, d') → sup_step d d'
  | step_burn now nano from amt memo hash d d' : 0 ≤ amt < two64 →
      burnSUPTx now nano from amt memo hash d = Ok (tt, d') → sup_step d d'
  | step_fee now from amt product ref d d' : 0 ≤ amt < two64 →
      burnSUPForFeeTx now from amt product ref d = Ok (tt, d') → sup_step d d'
  | step_submit now t h d d' : SubmitSupTransferTx now t d = Ok (h, d') → sup_step d d'
  | step_block now idx bhash d d' : 0 ≤ idx < two63 →
      (∀ p, p ∈ sup_tx_pool d → tx_typed (p_tx p)) →
      (∀ b, mval sup_next_nonce (accounts d) b + DefaultSUPTransferMaxBatch < two63) →
      applyPendingSupTransfers now idx bhash d = Ok (tt, d') → sup_step d d'.

Lemma sup_inv_keep d d' : sup_inv d → accounts d' = accounts d → meta d' = meta d → sup_inv d'.
Proof.
  intros (A & B & C & D & E) Ha Hm. unfold sup_inv, supTotalBurnedUnits, supTotalMintedUnits, supMaxSupplyUnits,
    accounts_ok, metaUint, acct_sum in *. by rewrite Ha, Hm.
Qed.

Lemma sup_inv_supply d : sup_inv d → supply_inv sup_lane metaSUPTotalMintedUnits 2100000000000000 d.
Proof.
  intros (A & B & C & D & E). rewrite sup_units_max in *. split; [done|].
  fold (supTotalMintedUnits d). change (acct_sum (l_bal sup_lane) d) with (sup_sum d). lia.
Qed.

Lemma sup_inv_burned d d' from amt hash : 0 ≤ amt → sup_burned d d' from amt hash → sup_inv d → sup_inv d'.
Proof.
  intros Ha H Hi. pose proof (supply_inv_nonneg _ _ _ _ (sup_inv_supply d Hi)) as S0.
  destruct Hi as (A & B & C & D & E). pose proof (proj1 (sup_burned_effect _ _ _ _ _ H)) as F.
  pose proof (ce_sum _ _ _ _ _ F) as S. change (acct_sum (l_bal sup_lane) d) with (sup_sum d) in S0.
  assert (Hle : amt ≤ sup_sum d).
  { destruct (sb_account _ _ _ _ _ H) as (a & Ea & Hle & _).
    pose proof (balance_le_sum balance_sup_units d from a (λ y Hy, proj1 (proj1 (proj2 (proj2 Hy)))) A Ea). lia. }
  rewrite sup_units_max in *.
  assert (M : ∀ k, k ≠ metaSUPTotalBurnedUnits → meta d' !! k = meta d !! k).
  { intros k Hk. rewrite (sb_meta _ _ _ _ _ H). by rewrite lookup_insert_ne. }
  assert (Bu : supTotalBurnedUnits d' = supTotalBurnedUnits d + amt).
  { unfold supTotalBurnedUnits at 1, metaUint. rewrite (sb_meta _ _ _ _ _ H), lookup_insert_eq.
    apply u64_small. unfold two64. lia. }
  split; [by apply (sup_burned_ok d d' from amt hash)|]. rewrite Bu, S, sup_units_max.
  unfold supTotalMintedUnits, supMaxSupplyUnits in *.
  rewrite !(metaUint_at d d') by (by apply M). lia.
Qed.

Lemma sup_inv_credit d d' d2 to amt : sup_inv d → 0 ≤ amt → supTotalMintedUnits d + amt ≤ SUPToUnits MaxSupplySUP →
  col_effect balance_sup_units d d' (at_addr to amt) amt → accounts_ok d' → accounts d2 = accounts d' →
  supTotalMintedUnits d2 = supTotalMintedUnits d + amt →
  supTotalBurnedUnits d2 = supTotalBurnedUnits d → supMaxSupplyUnits d2 = supMaxSupplyUnits d → sup_inv d2.
Proof.
  intros (A & B & C & D & E) Ha Hc F K Ad Hm Hb Hx. pose proof (ce_sum _ _ _ _ _ F) as S.
  unfold sup_inv, accounts_ok. rewrite Ad, Hm, Hb, Hx, (acct_sum_accounts _ d' d2 Ad). split; [done|]. lia.
Qed.

Lemma idem_key_ne `{Crypto} to amt memo k : trim_space memo ≠ "" →
  has_prefix k "sup_" = true → mintIdempotencyMetaKey metaSUPMintIdemPrefix to amt memo ≠ k.
Proof.
  intros Hm Hk E. unfold mintIdempotencyMetaKey in E. rewrite (proj2 (String.eqb_neq _ _) Hm) in E.
  cbn [orb] in E. replace (String.eqb (trim_space metaSUPMintIdemPrefix) "") with false in E by (vm_compute; done).
  cbv zeta iota in E. subst k. unfold has_prefix, strip_prefix, metaSUPMintIdemPrefix in Hk.
  rewrite !scons_app in Hk. cbn in Hk. done.
Qed.

Lemma supMintCap_le `{ChainParams} d : supMintCap d ≤ supMaxSupplyUnits d.
Proof. unfold supMintCap. cbv zeta. case_match; [|lia]. case_match; b2p; lia. Qed.

(** A successful admin mint is a replay, which changes nothing, or an exact credit. *)
Lemma MintSUP_spec `{ChainParams} `{Crypto} env now to amt memo d d' : sup_inv d → 0 ≤ amt < two64 →
  MintSUP env now to amt memo d = Ok (tt, d') →
  let key := mintIdempotencyMetaKey metaSUPMintIdemPrefix (trim_space to) amt (trim_space memo) in
  fst (supAdminMintRetiredQ d) = false ∧ trim_space (trim_space memo) ≠ "" ∧
  ((is_Some (sup_tx_history d !! ("sup-" +:+ key)) ∨ trim_space (meta_text d key) ≠ "") ∧ d' = d ∨
   (sup_tx_history d !! ("sup-" +:+ key) = None ∧
    supTotalMintedUnits d' = supTotalMintedUnits d + amt ∧ supTotalMintedUnits d' ≤ supMintCap d ∧
    col_effect balance_sup_units d d' (at_addr (trim_space to) amt) amt ∧ others_kept sup_lane d d' ∧
    is_Some (sup_tx_history d' !! ("sup-" +:+ key)) ∧ accounts_ok d' ∧ blocks d' = blocks d ∧
    supTotalBurnedUnits d' = supTotalBurnedUnits d ∧ supMaxSupplyUnits d' = supMaxSupplyUnits d ∧
    meta_text d' metaSUPMintEnabled = meta_text d metaSUPMintEnabled)).
Proof.
  intros Hi Ha H1 key. unfold MintSUP in H1. destruct (amt =? 0); [done|]. cbv zeta in H1.
  destruct (String.eqb_spec (trim_space memo) "") as [|Hm]; [done|].
  destruct (negb (has_prefix (trim_space to) "HMC-")); [done|].
  rewrite (bind_run get _ d d d) in H1 by done.
  destruct (AdminMintRetired (sup_economics env d)) eqn:Er; [done|].
  assert (Er' : fst (supAdminMintRetiredQ d) = false) by exact Er.
  destruct (negb (MintEnabled (sup_economics env d)) && negb env); [done|].
  split; [exact Er'|]. fold key in H1.
  rewrite trim_space_idem. split; [done|].
  destruct (sup_tx_history d !! ("sup-" +:+ key)) eqn:Eh.
  { left. split; [by left; eexists|]. unfold mint_once in H1. rewrite (bind_run get _ d d d) in H1 by done. cbn in H1.
    rewrite Eh in H1. by inv_tx H1. }
  destruct (String.eqb_spec (trim_space (meta_text d key)) "") as [Et|Et].
  2: { left. split; [by right|]. unfold mint_once in H1. rewrite (bind_run get _ d d d) in H1 by done. cbn in H1.
    rewrite Eh, (proj2 (String.eqb_neq _ _) Et) in H1. cbn in H1. by inv_tx H1. }
  assert (Hmm : trim_space (trim_space memo) ≠ "") by by rewrite trim_space_idem.
  right. split; [done|].
  destruct (mint_once_spec sup_lane _ _ _ _ _ _ _ _ _ _ _ 2100000000000000 _ _ H1)
    as (C1 & C2 & C3 & C4 & C5 & C6 & C7 & C8 & C9); try done.
  - by apply sup_inv_supply.
  - pose proof (supMintCap_le d). destruct Hi as (_ & _ & _ & _ & Hi). rewrite sup_units_max in Hi. lia.
  - intros E. by apply (idem_key_ne (trim_space to) amt (trim_space memo) metaSUPTotalMintedUnits Hmm).
  - assert (M : ∀ k, has_prefix k "sup_" = true → k ≠ metaSUPTotalMintedUnits → meta d' !! k = meta d !! k).
    { intros k Hk Hn. apply C9; [done|]. intros ->. by eapply (idem_key_ne (trim_space to) amt (trim_space memo)). }
    change (supTotalMintedUnits d' = supTotalMintedUnits d + amt) in C5. split; [exact C5|].
    split; [rewrite C5; exact C1|]. split_and!; try done.
    + apply metaUint_at. by apply M.
    + apply metaUint_at. by apply M.
    + unfold meta_text, metaText. by rewrite M.
Qed.

Lemma InitSUPGenesis_inv now d d' : InitSUPGenesis now d = Ok (tt, d') → sup_inv d → sup_inv d'.
Proof.
  intros H Hi. pose proof Hi as (A & B & C & D & E).
  assert (accounts d' = accounts d ∧ supTotalBurnedUnits d' = supTotalBurnedUnits d ∧
    supTotalMintedUnits d' = supTotalMintedUnits d ∧
    supMaxSupplyUnits d' ≤ SUPToUnits MaxSupplySUP) as (F1 & F2 & F3 & F4).
  2: { unfold sup_inv, accounts_ok. rewrite F1, F2, F3, (acct_sum_accounts _ d d' F1). done. }
  unfold InitSUPGenesis in H. rewrite sup_units_max in *.
  apply bind_ok in H as ([] & d1 & H1 & H). inv_tx H1.
  rewrite (bind_run get _ _ _ _) in H by done. cbv zeta in H.
  set (d1 := ups_meta metaSUPMaxSupplyUnits _ d) in *.
  assert (F1 : supTotalMintedUnits d1 = supTotalMintedUnits d) by by apply metaUint_ups_ne.
  change (sup_sum d1) with (sup_sum d) in H. rewrite F1 in H.
  assert (supMaxSupplyUnits d1 = 2100000000000000) as Hx by apply metaUint_ups.
  assert (supTotalBurnedUnits d1 = supTotalBurnedUnits d) as Hb by by apply metaUint_ups_ne.
  rewrite (proj2 (Z.ltb_ge _ _)) in H by lia.
  assert (Hups : ∀ k v x, k ≠ metaSUPTotalMintedUnits → k ≠ metaSUPMaxSupplyUnits → k ≠ metaSUPTotalBurnedUnits →
    accounts (ups_meta k v x) = accounts x ∧ supTotalBurnedUnits (ups_meta k v x) = supTotalBurnedUnits x ∧
    supTotalMintedUnits (ups_meta k v x) = supTotalMintedUnits x ∧
    supMaxSupplyUnits (ups_meta k v x) = supMaxSupplyUnits x).
  { intros. split_and!; [done|by apply metaUint_ups_ne..]. }
  apply bind_ok in H as ([] & d2 & H2 & H).
  assert (accounts d2 = accounts d ∧ supTotalBurnedUnits d2 = supTotalBurnedUnits d ∧
    supTotalMintedUnits d2 = supTotalMintedUnits d ∧ supMaxSupplyUnits d2 = 2100000000000000) as (G1 & G2 & G3 & G4).
  { destruct (String.eqb _ _); inv_tx H2; [|done]. destruct (Hups metaSUPGenesisUnix (MStr (fmt_int now)) d1) as (?&?&?&?); try done.
    split_and!; try congruence. done. }
  apply bind_ok in H as ([] & d3 & H3 & H). inv_tx H.
  destruct (Hups metaSUPMintEnabled (MStr "1") d3) as (K1 & K2 & K3 & K4); try done.
  rewrite K1, K2, K3, K4. destruct ((supTotalMintedUnits d =? 0) && (sup_sum d =? 0)) eqn:E0; [|inv_tx H3; split_and!; congruence || lia].
  destruct (meta d1 !! metaSUPTotalMintedUnits) eqn:Em; inv_tx H3; [split_and!; congruence || lia|]. b2p.
  split_and!; [done| | |].
  - rewrite <- G2. by apply metaUint_ups_ne.
  - transitivity 0; [apply metaUint_ups|done].
  - unfold supMaxSupplyUnits. rewrite metaUint_ups_ne by done. fold (supMaxSupplyUnits d2). lia.
Qed.

Lemma mintEmptyBlockSUPTx_inv `{ChainParams} idx o to d d' :
  mintEmptyBlockSUPTx idx o to d = Ok (tt, d') → sup_inv d → sup_inv d'.
Proof.
  intros H1 Hi. unfold mintEmptyBlockSUPTx in H1. cbv zeta in H1.
  repeat (match type of H1 with (if ?b then _ else _) _ = _ => destruct b eqn:? end; [by inv_tx H1|]).
  destruct (String.eqb _ _ || _); [done|]. rewrite (bind_run get _ d d d) in H1 by done.
  set (capU := if supMaxSupplyUnits d <? _ then _ else _) in *. set (amt0 := SUPToUnits _) in *.
  destruct (Z.leb_spec capU (supTotalMintedUnits d)) as [|Hc]; [by inv_tx H1|].
  set (amt := if _ <? amt0 then _ else amt0) in *. destruct (amt =? 0) eqn:E0; [by inv_tx H1|].
  assert (Hcap : capU ≤ supMaxSupplyUnits d) by (unfold capU; case_match; b2p; lia).
  pose proof (supply_inv_nonneg _ _ _ _ (sup_inv_supply d Hi)) as S0.
  change (acct_sum (l_bal sup_lane) d) with (sup_sum d) in S0.
  pose proof Hi as (A & B & C & D & E). rewrite sup_units_max in *.
  apply bind_ok in H1 as ([] & d1 & G1 & H1).
  assert (Ha : 0 ≤ amt ∧ supTotalMintedUnits d + amt ≤ capU).
  { unfold lane_credit in G1. apply bind_ok in G1 as ([] & d0 & G0 & _). unfold sql_u64 in G0. inv_tx G0. b2p.
    split; [done|]. unfold amt. destruct (Z.ltb_spec (capU - supTotalMintedUnits d) amt0); lia. }
  destruct (lane_credit_spec sup_lane (trim_space to) amt d d1) as (F & _ & _ & K & M & _); [lia|done| |done|].
  { change (acct_sum (l_bal sup_lane) d) with (sup_sum d). unfold two63. lia. }
  inv_tx H1. rewrite u64_small by (unfold two64; lia).
  eapply (sup_inv_credit d d1 _ _ amt); try done; [lia|rewrite sup_units_max; lia| | |].
  - apply metaUint_ups.
  - transitivity (supTotalBurnedUnits d1); [by apply metaUint_ups_ne|]. apply metaUint_at. by rewrite M.
  - transitivity (supMaxSupplyUnits d1); [by apply metaUint_ups_ne|]. apply metaUint_at. by rewrite M.
Qed.

Lemma sup_block_inv `{ChainParams} `{Crypto} now idx bh d d' : 0 ≤ idx < two63 →
  (∀ p, p ∈ sup_tx_pool d → tx_typed (p_tx p)) →
  (∀ b, mval sup_next_nonce (accounts d) b + DefaultSUPTransferMaxBatch < two63) →
  applyPendingSupTransfers now idx bh d = Ok (tt, d') → sup_inv d → sup_inv d'.
Proof.
  intros Hidx Hp Hn H1 Hi. pose proof Hi as (A & B & C & D & E). rewrite sup_units_max in *.
  destruct (lane_apply_pending_spec sup_lane now idx bh DevFeeAddress Hidx ltac:(done)
    DefaultSUPTransferMaxBatch d) as (d2 & V & G & [S1 S2 S3 S4 S5 S6 S7]).
  { split; [done|]. split; [|done]. split; [exact B|].
    change (sup_sum d + supTotalBurnedUnits d < two63). unfold two63. lia. }
  unfold applyPendingSupTransfers in H1. rewrite G in H1. injection H1 as <-.
  change (sup_sum d2 = sup_sum d - V) in S2. cbn in S3.
  change (supTotalBurnedUnits d2 = supTotalBurnedUnits d + 0) in S3.
  assert (supTotalMintedUnits d2 = supTotalMintedUnits d) as Hm by (apply metaUint_at, S7; done).
  assert (supMaxSupplyUnits d2 = supMaxSupplyUnits d) as Hx by (apply metaUint_at, S7; done).
  unfold sup_inv. rewrite S2, S3, Hm, Hx, sup_units_max. split; [done|]. lia.
Qed.

(** C12: The SUP supply is capped, whatever sequence of operations runs. After any sequence of
    genesis, admin mints, block emissions, burns, fees, submissions and applied blocks, circulating
    SUP plus counted burned SUP is at most the units ever minted, which are at most 21 million SUP;
    every balance stays in range. In particular no mint amount - not even one that wraps the 64-bit
    cap test - gets past the cap. *)
Theorem sup_supply_capped `{ChainParams} `{Crypto} d d' :
  rtc sup_step d d' → sup_inv d → sup_inv d'.
Proof.
  induction 1 as [|d1 d2 d3 Hs _ IH]; [done|]. intros Hi. apply IH. clear IH d3. rename d2 into d'.
  destruct Hs as [now d d' H1|env now to amt memo d d' Ha H1|idx o to d d' H1|now nano from amt memo hash d d' Ha H1
    |now from amt product ref d d' Ha H1|now t h d d' H1|now idx bh d d' Hidx Hp Hn H1].
  - by apply (InitSUPGenesis_inv now d d').
  - destruct (MintSUP_spec env now to amt memo d d' Hi Ha H1) as (_ & _ & [[_ ->]|(_ & C1 & C2 & C3 & _ & _ & C4 & _ & C5 & C6 & _)]);
      [done|].
    apply (sup_inv_credit d d' d' (trim_space to) amt); try done; [lia|]. rewrite <- C1.
    pose proof (supMintCap_le d). destruct Hi as (_ & _ & _ & _ & Hx). lia.
  - by apply (mintEmptyBlockSUPTx_inv idx o to d d').
  - destruct Hi as (A & Hi). eapply sup_inv_burned; [apply Ha|exact (burnSUPTx_spec _ _ _ _ _ _ _ _ A (proj1 Ha) H1)|by split].
  - destruct Hi as (A & Hi). destruct (burnSUPForFeeTx_spec _ _ _ _ _ _ _ A (proj1 Ha) H1) as [_ B].
    eapply sup_inv_burned; [apply Ha|exact B|by split].
  - unfold SubmitSupTransferTx, lane_submit in H1. inv_tx H1; (eapply sup_inv_keep; [exact Hi|done|done]).
  - by apply (sup_block_inv now idx bh d d').
Qed.

(** An admin mint happens once. The first successful [MintSUP] for a (recipient, amount, memo)
    credits exactly the amount to the trimmed recipient and to nobody else, counts it, and stays
    within the cap; every retry with the same arguments returns success and changes nothing at
    all, so a settler may retry as often as it likes. *)
Theorem MintSUP_once `{ChainParams} `{Crypto} env now to amt memo d d1 :
  sup_inv d → 0 ≤ amt < two64 → MintSUP env now to amt memo d = Ok (tt, d1) →
  let key := mintIdempotencyMetaKey metaSUPMintIdemPrefix (trim_space to) amt (trim_space memo) in
  sup_tx_history d !! ("sup-" +:+ key) = None → trim_space (meta_text d key) = "" →
  (∀ b, sup d1 b = sup d b + at_addr (trim_space to) amt b ∧ hmc d1 b = hmc d b ∧ hms d1 b = hms d b) ∧
  supTotalMintedUnits d1 = supTotalMintedUnits d + amt ∧ supTotalMintedUnits d1 ≤ supMintCap d ∧
  ∀ now', MintSUP env now' to amt memo d1 = Ok (tt, d1).
Proof.
  intros Hi Ha H1 key Hh Ht.
  destruct (MintSUP_spec env now to amt memo d d1 Hi Ha H1) as (Hr & _ & [[[[]|] _]|(_ & C1 & C2 & C3 & C4 & C5 & _ & C6 & _ & _ & C7)]);
    [unfold key in *; congruence|done|].
  split; [|split; [done|split; [done|]]].
  - intros b. split; [apply (ce_at _ _ _ _ _ C3)|].
    split; [by apply (others_kept_at sup_lane d d1 balance_units b C4 lane_free_sup_hmc)
           |by apply (others_kept_at sup_lane d d1 balance_hms_units b C4 lane_free_sup_hms)].
  - intros now'. revert H1. unfold MintSUP. destruct (amt =? 0); [done|]. cbv zeta.
    destruct (String.eqb (trim_space memo) ""); [done|]. destruct (negb (has_prefix (trim_space to) "HMC-")); [done|].
    rewrite (bind_run get _ d1 d1 d1), (bind_run get _ d d d) by done.
    assert (Er : supAdminMintRetiredQ d1 = supAdminMintRetiredQ d).
    { unfold supAdminMintRetiredQ, tip_height, max_block_index. by rewrite C6. }
    assert (AdminMintRetired (sup_economics env d1) = AdminMintRetired (sup_economics env d) ∧
      MintEnabled (sup_economics env d1) = MintEnabled (sup_economics env d)) as [-> ->].
    { unfold sup_economics. rewrite Er, C7. by destruct (supAdminMintRetiredQ d). }
    destruct (AdminMintRetired _); [done|]. destruct (negb _ && _); [done|]. intros _.
    unfold mint_once. rewrite (bind_run get _ d1 d1 d1) by done. cbv zeta.
    fold key. destruct C5 as [r Hr5]. change (sup_tx_history d1) with (l_hist sup_lane d1) in Hr5.
    fold key in Hr5. rewrite Hr5. done.
Qed.

(** ** Fee references *)

Lemma any_char_app P a b : any_char P (a +:+ b) = any_char P a || any_char P b.
Proof. induction a as [|c a IH]; [done|]. rewrite scons_app. cbn. by rewrite IH, orb_assoc. Qed.

(** Two texts joined by a [|] that the second part does not contain. *)
Lemma bar_split a b r s : any_char bad_ref_char r = false → any_char bad_ref_char s = false →
  a +:+ "|" +:+ r = b +:+ "|" +:+ s → a = b ∧ r = s.
Proof.
  intros Hr Hs. revert b. induction a as [|c a IH]; intros [|k b] E.
  - split; [done|]. exact (sapp_inj_l "|" r s E).
  - exfalso. change (String "|" r = String k (b +:+ "|" +:+ s)) in E. injection E as _ E.
    subst r. by rewrite any_char_app, orb_true_r in Hr.
  - exfalso. change (String c (a +:+ "|" +:+ r) = String "|" s) in E. injection E as _ E.
    subst s. by rewrite any_char_app, orb_true_r in Hs.
  - rewrite !scons_app in E. injection E as -> E. destruct (IH b E) as [-> ->]. done.
Qed.

Lemma supFeeProduct_known p b : supFeeProduct p = Some b → p = SUPFeeProductHMCOrder.
Proof.
  unfold supFeeProduct, supFeeProducts. cbn [List.find fst snd].
  by destruct (String.eqb_spec SUPFeeProductHMCOrder p).
Qed.

Lemma validateSUPFeeShape_ok from amt product ref : validateSUPFeeShape from amt product ref = "" →
  amt ≠ 0 ∧ trim_space product = SUPFeeProductHMCOrder ∧ trim_space ref ≠ "" ∧
  any_char bad_ref_char (trim_space ref) = false.
Proof.
  unfold validateSUPFeeShape. destruct (Z.eqb_spec amt 0); [done|].
  destruct (negb _); [done|]. destruct (supFeeProduct (trim_space product)) as [b|] eqn:Ep; [|done].
  cbv zeta. destruct (String.eqb_spec (trim_space ref) ""); [done|]. cbn [orb].
  destruct (128 <? str_len (trim_space ref)); [done|]. cbn [orb].
  destruct (any_char bad_ref_char (trim_space ref)); [done|]. intros _.
  split_and!; try done. by apply supFeeProduct_known in Ep.
Qed.

(** Well-formed requests for different products, payers or references hash different texts. *)
Lemma supFeeRefMessage_inj from amt product ref from' amt' product' ref' :
  validateSUPFeeShape from amt product ref = "" → validateSUPFeeShape from' amt' product' ref' = "" →
  supFeeRefMessage product from ref = supFeeRefMessage product' from' ref' →
  trim_space product = trim_space product' ∧ trim_space from = trim_space from' ∧
  trim_space ref = trim_space ref'.
Proof.
  intros (_ & P1 & _ & R1)%validateSUPFeeShape_ok (_ & P2 & _ & R2)%validateSUPFeeShape_ok E.
  unfold supFeeRefMessage in E. rewrite P1, P2 in *. split; [done|].
  rewrite <- !sapp_assoc in E. rewrite !(sapp_assoc _ "|") in E.
  apply bar_split in E as [E ->]; [|done|done]. split; [|done].
  by apply sapp_inj_l, sapp_inj_l in E.
Qed.

(** A SUP fee is charged once per product, payer and reference, and burns exactly the fee. A
    successful burn takes [amt] from the payer, who had it, adds it to the burn counter, and
    touches no other balance of any asset; a second charge for the same triple - whatever its
    amount, time or surrounding white space - is refused; and no request for another payer or
    reference hashes the same text, so nobody can occupy somebody else's reference. *)
Theorem burnSUPForFeeTx_once `{Crypto} now from amt product ref d d' :
  sup_inv d → 0 ≤ amt < two64 → burnSUPForFeeTx now from amt product ref d = Ok (tt, d') →
  amt ≤ sup d (trim_space from) ∧
  (∀ b, sup d' b = sup d b + at_addr (trim_space from) (- amt) b ∧ hmc d' b = hmc d b ∧ hms d' b = hms d b) ∧
  supTotalBurnedUnits d' = supTotalBurnedUnits d + amt ∧
  (∀ now' from' amt' product' ref', trim_space from' = trim_space from →
     trim_space product' = trim_space product → trim_space ref' = trim_space ref →
     is_ok (burnSUPForFeeTx now' from' amt' product' ref' d') = false) ∧
  (∀ from' amt' product' ref', validateSUPFeeShape from' amt' product' ref' = "" →
     supFeeRefMessage product' from' ref' = supFeeRefMessage product (trim_space from) ref →
     trim_space from' = trim_space from ∧ trim_space ref' = trim_space ref).
Proof.
  intros Hi Ha H1. pose proof (proj1 Hi) as Hok.
  destruct (burnSUPForFeeTx_spec now from amt product ref d d' Hok (proj1 Ha) H1) as [Hv B].
  destruct (sup_burned_effect _ _ _ _ _ B) as [E O]. pose proof B as [(a & Ea & Hle & _) M _ [r Hh] _ _ _].
  split; [unfold sup, mval; by rewrite Ea|]. split; [|split; [|split]].
  - intros b. split; [apply (ce_at _ _ _ _ _ E)|].
    split; [by apply (others_kept_at sup_lane d d' balance_units b O lane_free_sup_hmc)
           |by apply (others_kept_at sup_lane d d' balance_hms_units b O lane_free_sup_hms)].
  - unfold supTotalBurnedUnits at 1, metaUint. rewrite M, lookup_insert_eq. apply u64_small.
    pose proof (balance_le_sum balance_sup_units d _ a (λ y Hy, proj1 (proj1 (proj2 (proj2 Hy)))) Hok Ea).
    destruct Hi as (_ & B1 & B2 & B3 & _). rewrite sup_units_max in B3. unfold two64. lia.
  - intros now' from' amt' product' ref' Hf Hp Hr. unfold burnSUPForFeeTx. cbv zeta. rewrite Hf.
    destruct (String.eqb_spec (validateSUPFeeShape (trim_space from) amt' product' ref') ""); cbn [negb]; [|done].
    rewrite (bind_run get _ d' d' d') by done.
    replace (supFeeRefKey product' (trim_space from) ref') with (supFeeRefKey product (trim_space from) ref)
      by (unfold supFeeRefKey, supFeeRefMessage; by rewrite Hp, Hr).
    by rewrite Hh, lookup_insert_eq.
  - intros from' amt' product' ref' Hv' Em.
    destruct (supFeeRefMessage_inj _ _ _ _ _ _ _ _ Hv' Hv Em) as (_ & E1 & E2).
    by rewrite trim_space_idem in E1.
Qed.

Lemma attempt_keys `{ChainParams} `{Crypto} a p idx src d u d' :
  attempt (bindPubKeyQ a p idx src) d = Ok (u, d') →
  accounts d' = accounts d ∧ meta d' = meta d ∧ sup_tx_history d' = sup_tx_history d.
Proof.
  unfold attempt, bindPubKeyQ, sql_u64, guard. destruct (negb _); [by intros [= _ <-]|].
  destruct (_ && _); [|by intros [= _ <-]]. unfold bind, modify, ret. intros [= _ <-].
  unfold bind_row. by case_match.
Qed.

(** An owner-signed burn needs the owner's signature on exactly this burn, and its signature
    works once. Success means that the address is the hash of the given key and that this key
    signed the sender, amount and memo; exactly that amount leaves that balance into the burn
    counter; and the same signature is refused ever after, whatever request carries it. *)
Theorem BurnSUPWithOwnerProof_once `{ChainParams} `{Crypto} now nano from amt memo pubHex sigHex d d' :
  sup_inv d → 0 ≤ amt < two64 →
  BurnSUPWithOwnerProof now nano from amt memo pubHex sigHex d = Ok (tt, d') →
  (∃ pub sig, decode_hex_len 32 pubHex = Some pub ∧ decode_hex_len 64 sigHex = Some sig ∧
     pubKeyOwnsAddress pubHex (trim_space from) = true ∧
     ed25519_verify pub (BurnSUPCanonicalMessage (trim_space from) amt memo) sig = true) ∧
  amt ≤ sup d (trim_space from) ∧
  (∀ b, sup d' b = sup d b + at_addr (trim_space from) (- amt) b ∧ hmc d' b = hmc d b ∧ hms d' b = hms d b) ∧
  supTotalBurnedUnits d' = supTotalBurnedUnits d + amt ∧
  (∀ now' nano' from' amt' memo' pubHex',
     is_ok (BurnSUPWithOwnerProof now' nano' from' amt' memo' pubHex' sigHex d') = false).
Proof.
  intros Hi Ha H1. pose proof (proj1 Hi) as Hok. unfold BurnSUPWithOwnerProof in H1.
  destruct (amt =? 0); [done|]. cbv zeta in H1. destruct (negb (has_prefix _ _)); [done|].
  destruct (decode_hex_len 32 pubHex) as [pub|] eqn:Ep; [|done].
  destruct (decode_hex_len 64 sigHex) as [sig|] eqn:Es; [|done].
  destruct (pubKeyOwnsAddress pubHex (trim_space from)) eqn:Eo; cbn [negb] in H1; [|done].
  destruct (ed25519_verify _ _ sig) eqn:Ev; cbn [negb] in H1; [|done].
  rewrite (bind_run get _ d d d) in H1 by done. destruct (negb (String.eqb _ _)); [done|].
  apply bind_ok in H1 as ([] & d1 & G1 & H1). rewrite (bind_run get _ d1 d1 d1) in H1 by done.
  apply attempt_keys in H1 as (A2 & M2 & T2).
  apply burnSUPTx_spec in G1 as B; [|done|lia].
  destruct (sup_burned_effect _ _ _ _ _ B) as [E O]. pose proof B as [(a & Ea & Hle & _) M _ [r Hh] _ _ _].
  split; [by exists pub, sig|]. split; [unfold sup, mval; by rewrite Ea|]. split; [|split].
  - intros b. unfold sup, hmc, hms. rewrite A2. split; [apply (ce_at _ _ _ _ _ E)|].
    split; [by apply (others_kept_at sup_lane d d1 balance_units b O lane_free_sup_hmc)
           |by apply (others_kept_at sup_lane d d1 balance_hms_units b O lane_free_sup_hms)].
  - unfold supTotalBurnedUnits at 1, metaUint. rewrite M2, M, lookup_insert_eq. apply u64_small.
    pose proof (balance_le_sum balance_sup_units d _ a (λ y Hy, proj1 (proj1 (proj2 (proj2 Hy)))) Hok Ea).
    destruct Hi as (_ & B1 & B2 & B3 & _). rewrite sup_units_max in B3. unfold two64. lia.
  - intros now' nano' from' amt' memo' pubHex'. unfold BurnSUPWithOwnerProof.
    destruct (amt' =? 0); [done|]. cbv zeta. destruct (negb (has_prefix _ _)); [done|].
    destruct (decode_hex_len 32 pubHex') as [pub'|]; [|done]. rewrite Es.
    destruct (negb (pubKeyOwnsAddress _ _)); [done|]. destruct (negb (ed25519_verify _ _ _)); [done|].
    rewrite (bind_run get _ d' d' d') by done. destruct (negb (String.eqb _ _)); [done|].
    unfold bind at 1, burnSUPTx. rewrite (bind_run get _ d' d' d') by done. cbv zeta.
    assert (Hk : burn_hash nano (trim_space from) (burn_sig_key sig) = burn_sig_key sig) by done.
    assert (Hk' : burn_hash nano' (trim_space from') (burn_sig_key sig) = burn_sig_key sig) by done.
    rewrite Hk in Hh. rewrite Hk', T2, Hh, lookup_insert_eq. rewrite bool_decide_true by by eexists. done.
Qed.

(** ** A concrete SUP ledger *)

Definition sup_ex_db : DB :=
  set_sup_pool [mkPoolRow "h0" (mkTransferTx "transfer_sup_v1" "" (toy_addr "a") (toy_addr "b") 100000000 1000 0
                  1000000 "" (toy_key "a") (toy_sig "a") "") 1000000 "pending" ""]
   (set_meta {[ metaSUPTotalMintedUnits := MUint 1000000000; metaSUPMintEnabled := MStr "1" ]}
     (ups_account (mkAccount 0 0 1000000000 0 0 0) (λ x, x) (toy_addr "a") empty_db)).

Lemma sup_ex_ok : accounts_ok sup_ex_db.
Proof.
  unfold accounts_ok, sup_ex_db. cbn [accounts set_sup_pool set_meta].
  apply (accounts_ok_ups _ _ _ empty_db); [apply map_Forall_empty| |done].
  intros _. unfold account_ok, two63. cbn. lia.
Qed.

Lemma sup_ex_inv : sup_inv sup_ex_db.
Proof.
  split; [exact sup_ex_ok|]. split_and!; vm_compute; discriminate.
Qed.

Lemma sup_ex_ready : lane_ready sup_lane DefaultSUPTransferMaxBatch sup_ex_db.
Proof.
  split; [exact sup_ex_ok|]. split; [split; vm_compute; (discriminate || reflexivity)|].
  split; [done|]. split.
  - intros p Hp. apply list_elem_of_singleton in Hp as ->. unfold tx_typed, two63, two64. cbn. lia.
  - intros b. unfold sup_ex_db. cbn [accounts set_sup_pool set_meta]. rewrite mval_ups.
    unfold mval. cbn. unfold DefaultSUPTransferMaxBatch, two63. case_bool_decide; rewrite ?lookup_empty; lia.
Qed.

Lemma applyPendingSupTransfers_conserves_witness :
  let P := params_of empty_env 0 in let C := toy_crypto in
  ∃ d' B, applyPendingSupTransfers 1000000 10 "b" sup_ex_db = Ok (tt, d') ∧
    sup_sum d' = sup_sum sup_ex_db - B ∧ supTotalBurnedUnits d' = supTotalBurnedUnits sup_ex_db.
Proof.
  destruct (applyPendingSupTransfers_conserves (H := params_of empty_env 0) (H0 := toy_crypto)
    1000000 10 "b" sup_ex_db sup_ex_ready ltac:(unfold two63; lia)) as (d' & B & E & _ & S & T & _).
  exists d', B. split; [exact E|]. split; [exact S|exact T].
Defined.

Lemma MintSUP_once_witness :
  let P := params_of empty_env 0 in let C := toy_crypto in
  let d1 := run (MintSUP false 5 " HMC-x " 700 "epoch 1") sup_ex_db in
  sup d1 "HMC-x" = 700 ∧ MintSUP false 9 " HMC-x " 700 "epoch 1" d1 = Ok (tt, d1).
Proof.
  pose proof (MintSUP_once (H := params_of empty_env 0) (H0 := toy_crypto) false 5 " HMC-x " 700 "epoch 1" sup_ex_db
    (@run _ _ (@MintSUP (params_of empty_env 0) toy_crypto false 5 " HMC-x " 700 "epoch 1") sup_ex_db)
    sup_ex_inv ltac:(unfold two64; lia) ltac:(vm_compute; reflexivity) ltac:(vm_compute; reflexivity)
    ltac:(vm_compute; reflexivity)) as (A & _ & _ & B).
  split; [|apply B]. destruct (A "HMC-x") as [E _].
  change (trim_space " HMC-x ") with "HMC-x" in E. rewrite E. vm_compute. reflexivity.
Defined.

Lemma burnSUPForFeeTx_once_witness :
  let C := toy_crypto in
  let d1 := run (burnSUPForFeeTx 5 (toy_addr "a") 300 "hmc_order" "order:1") sup_ex_db in
  supTotalBurnedUnits d1 = 300 ∧ is_ok (burnSUPForFeeTx 9 (toy_addr "a") 400 "hmc_order" " order:1" d1) = false.
Proof.
  destruct (burnSUPForFeeTx_once (H := toy_crypto) 5 (toy_addr "a") 300 "hmc_order" "order:1" sup_ex_db
    (run (@burnSUPForFeeTx toy_crypto 5 (toy_addr "a") 300 "hmc_order" "order:1") sup_ex_db)
    sup_ex_inv ltac:(unfold two64; lia) ltac:(vm_compute; reflexivity)) as (_ & _ & A & B & _).
  split; [exact A|]. apply B; vm_compute; reflexivity.
Defined.

Lemma BurnSUPWithOwnerProof_once_witness :
  let P := params_of empty_env 0 in let C := toy_crypto in
  let d1 := run (BurnSUPWithOwnerProof 5 6 (toy_addr "a") 300 "m" (toy_key "a") (toy_sig "a")) sup_ex_db in
  supTotalBurnedUnits d1 = 300 ∧
  is_ok (BurnSUPWithOwnerProof 7 8 (toy_addr "a") 200 "n" (toy_key "a") (toy_sig "a") d1) = false.
Proof.
  destruct (BurnSUPWithOwnerProof_once (H := params_of empty_env 0) (H0 := toy_crypto)
    5 6 (toy_addr "a") 300 "m" (toy_key "a") (toy_sig "a") sup_ex_db
    (@run _ _ (@BurnSUPWithOwnerProof (params_of empty_env 0) toy_crypto 5 6 (toy_addr "a") 300 "m" (toy_key "a") (toy_sig "a")) sup_ex_db)
    sup_ex_inv ltac:(unfold two64; lia) ltac:(vm_compute; reflexivity)) as (_ & _ & _ & A & B).
  split; [exact A|]. apply B.
Defined.

Lemma sup_supply_capped_witness :
  let P := params_of empty_env 0 in let C := toy_crypto in
  rtc sup_step sup_ex_db (run (MintSUP false 5 " HMC-x " 700 "epoch 1") sup_ex_db) ∧
  sup_inv (run (MintSUP false 5 " HMC-x " 700 "epoch 1") sup_ex_db).
Proof.
  assert (R : rtc (@sup_step (params_of empty_env 0) toy_crypto) sup_ex_db
    (@run _ _ (@MintSUP (params_of empty_env 0) toy_crypto false 5 " HMC-x " 700 "epoch 1") sup_ex_db)).
  { apply rtc_once. apply (@step_mint (params_of empty_env 0) toy_crypto false 5 " HMC-x " 700 "epoch 1");
      [unfold two64; lia|vm_compute; reflexivity]. }
  split; [exact R|]. exact (sup_supply_capped (H := params_of empty_env 0) (H0 := toy_crypto) _ _ R sup_ex_inv).
Defined.
