(* ===== verification/HmsLedger.v ===== *)
(** The HMS side ledger: transfers with a treasury fee, minting under the supply cap, burning.

    Sources: internal/chain/hms_ledger.go and hms_economics.go.  [mintEnv] is
    [hmsMintEnabledFromEnv()], [laneEnv] is [hmsLaneEnabledFromEnv()], [treasuryEnv] is
    [os.Getenv("HMS_TREASURY_ADDRESS")]. *)
From S2P Require Import Prelude Float64 GoText Params Emission OrderFee Json Ledger Address GoSort Transfers Lane SupLedger.

(** * Treasury *)

Definition MaxSupplyHMS : f64 := f_of_Z 21000000.
Definition HMSTreasuryGenesisFloatPct : f64 := lit 5 1000.
Definition metaHMSTreasuryAddress : string := "hms_treasury_address".
Definition metaHMSMaxSupplyUnits : string := "hms_max_supply_units".
Definition metaHMSTotalMintedUnits : string := "hms_total_minted_units".
Definition metaHMSTotalBurnedUnits : string := "hms_total_burned_units".
Definition metaHMSGenesisUnix : string := "hms_genesis_unix".
Definition metaHMSMintEnabled : string := "hms_mint_enabled".
Definition metaHMSMintIdemPrefix : string := "mint_idem:hms:".

Definition validateHMSTreasuryAddress (addr : string) : bool := IsValidAddress (trim_space addr).

Definition hmsTreasuryAddress (d : DB) : option string :=
  let v := trim_space (meta_text d metaHMSTreasuryAddress) in
  if String.eqb v "" then None else Some v.

Definition hmsMaxSupplyUnits (d : DB) : Z := metaUint d metaHMSMaxSupplyUnits (HMSToUnits MaxSupplyHMS).
Definition hmsTotalMintedUnits (d : DB) : Z := metaUint d metaHMSTotalMintedUnits 0.
Definition hmsTotalBurnedUnits (d : DB) : Z := metaUint d metaHMSTotalBurnedUnits 0.

(** * Transfers *)

Definition DefaultHMSTransferMinFee : Z := 1000.
Definition DefaultHMSTransferMaxBatch : Z := 128.

Definition ValidateHmsTransferShape (t : TransferTx) : string :=
  if negb (String.eqb (TxType t) "transfer_hms_v1") then "invalid_tx_type"
  else
    let from := trim_space (From t) in
    let to := trim_space (To t) in
    if String.eqb from "" || String.eqb to "" || negb (IsValidAddress from) || negb (IsValidAddress to)
    then "invalid_address"
    else if negb (String.eqb (From t) from) || negb (String.eqb (To t) to) then "invalid_address"
    else if String.eqb from to then "invalid_address"
    else if AmountUnits t =? 0 then "invalid_amount"
    else if FeeUnits t <? DefaultHMSTransferMinFee then "fee_too_low"
    else "".

(** The burned fee share is counted. *)
Definition hms_burn_fee (burnFee : Z) : tx DB unit :=
  if 0 <? burnFee then
    let* d := get in upsertMetaUint metaHMSTotalBurnedUnits (u64 (hmsTotalBurnedUnits d + burnFee))
  else ret tt.

Definition hms_lane : Lane :=
  {| l_bal := balance_hms_units; l_set_bal := set_hms;
     l_nonce := hms_next_nonce; l_set_nonce := set_hms_nonce;
     l_pool := hms_tx_pool; l_set_pool := set_hms_pool;
     l_hist := hms_tx_history; l_set_hist := set_hms_history;
     l_shape := ValidateHmsTransferShape;
     l_insufficient := "insufficient_hms_balance";
     l_source := PubKeyBindSourceHMS;
     l_burn := hms_burn_fee;
     l_burned := hmsTotalBurnedUnits;
     l_tracks := true;
     l_burn_key := metaHMSTotalBurnedUnits |}.

Definition validateHmsTransferTx `{Crypto} : Z → TransferTx → DB → string := lane_validate hms_lane.
Definition SubmitHmsTransferTx `{ChainParams} `{Crypto} : Z → TransferTx → tx DB string :=
  lane_submit hms_lane.
(** Nothing moves until the treasury is configured. *)
Definition applyPendingHmsTransfers `{ChainParams} `{Crypto} (now idx : Z) (blockHash : string) : tx DB unit :=
  let* d := get in
  match hmsTreasuryAddress d with
  | None => ret tt
  | Some treasury => lane_apply_pending hms_lane DefaultHMSTransferMaxBatch now idx blockHash treasury
  end.

(** * Supply *)

Record HMSEconomics := mkHMSEconomics {
  MaxSupplyHMS_ : f64; TotalMintedHMS : f64; TotalBurnedHMS : f64; RemainingHMS : f64; CirculatingHMS : f64;
  HMSGenesisUnix : Z; HMSMintEnabled : bool; HMSOnChainSettleLive : bool; LaneEnabled : bool;
  Prelaunch : bool; TreasuryAddress : string;
}.

Definition hms_economics (mintEnv laneEnv : bool) (d : DB) : HMSEconomics :=
  let maxU := hmsMaxSupplyUnits d in
  let mintedU := hmsTotalMintedUnits d in
  let burnedU := hmsTotalBurnedUnits d in
  let mintOn := String.eqb (trim_space (meta_text d metaHMSMintEnabled)) "1" || mintEnv in
  let remain := if mintedU <? maxU then maxU - mintedU else 0 in
  let treasury := default "" (hmsTreasuryAddress d) in
  let circ := if burnedU <? mintedU then mintedU - burnedU else 0 in
  {| MaxSupplyHMS_ := UnitsToHMC maxU; TotalMintedHMS := UnitsToHMC mintedU;
     TotalBurnedHMS := UnitsToHMC burnedU; RemainingHMS := UnitsToHMC remain;
     CirculatingHMS := UnitsToHMC circ;
     HMSGenesisUnix := parse_int64 (trim_space (meta_text d metaHMSGenesisUnix));
     HMSMintEnabled := mintOn; HMSOnChainSettleLive := mintOn && negb (String.eqb treasury "");
     LaneEnabled := laneEnv; Prelaunch := negb laneEnv; TreasuryAddress := treasury |}.

Definition hms_genesis_float : Z :=
  f_trunc (f_mul (f_of_Z (HMSToUnits MaxSupplyHMS)) HMSTreasuryGenesisFloatPct).

(** The first run credits the treasury float; later runs only refresh the cap and the treasury. *)
Definition InitHMSGenesis (treasuryEnv : string) (now : Z) (treasuryAddress : string) : tx DB unit :=
  let treasuryAddress := trim_space treasuryAddress in
  let treasuryAddress := if String.eqb treasuryAddress "" then trim_space treasuryEnv else treasuryAddress in
  if negb (validateHMSTreasuryAddress treasuryAddress)
  then fail "hms treasury address must be HMC- + 16 or 64 lowercase hex"
  else
    upsertMetaUint metaHMSMaxSupplyUnits (HMSToUnits MaxSupplyHMS) ;;;
    upsertMeta metaHMSTreasuryAddress treasuryAddress ;;;
    let* d := get in
    (if String.eqb (trim_space (meta_text d metaHMSGenesisUnix)) "" then
       upsertMetaUint metaHMSTotalMintedUnits hms_genesis_float ;;;
       upsertMetaUint metaHMSTotalBurnedUnits 0 ;;;
       (if 0 <? hms_genesis_float then
          upsert_account (set_hms hms_genesis_float empty_account) (set_hms hms_genesis_float) treasuryAddress ;;;
          insert_hist hms_lane ("hms-genesis-float-" +:+ fmt_int now)
            (mkHistRow "" treasuryAddress 0 0 hms_genesis_float "included" 0 "genesis" now "" "")
        else ret tt) ;;;
       upsertMeta metaHMSGenesisUnix (fmt_int now)
     else ret tt) ;;;
    upsertMeta metaHMSMintEnabled "1".

Definition MintHMS `{Crypto} (mintEnv : bool) (now : Z) (to : string) (amountUnits : Z) (memo : string)
    : tx DB unit :=
  if amountUnits =? 0 then fail "invalid_amount"
  else
    let to := trim_space to in
    let memo := trim_space memo in
    if String.eqb memo "" then fail "memo_required"
    else if negb (IsValidAddress to) then fail "invalid_address"
    else
      let* d := get in
      let ec := hms_economics mintEnv false d in
      if negb (HMSMintEnabled ec) && negb mintEnv then fail "hms_mint_disabled"
      else
        mint_once hms_lane "hms-" (mintIdempotencyMetaKey metaHMSMintIdemPrefix to amountUnits memo)
          "mint_hms" metaHMSTotalMintedUnits "hms_supply_cap" (λ _, None) hmsMaxSupplyUnits
          now to amountUnits memo.

Definition BurnHMSForService (now nano : Z) (from : string) (amountUnits : Z) (memo : string) : tx DB unit :=
  if amountUnits =? 0 then fail "invalid_amount"
  else
    let from := trim_space from in
    if negb (has_prefix from "HMC-") then fail "invalid_address"
    else
      let* d := get in
      match accounts d !! from with
      | None => fail "insufficient_hms_balance"
      | Some a =>
          if balance_hms_units a <? amountUnits then fail "insufficient_hms_balance"
          else
            let newBal := u64 (balance_hms_units a - amountUnits) in
            sql_u64 newBal ;;;
            update_account (set_hms newBal) from ;;;
            upsertMetaUint metaHMSTotalBurnedUnits (u64 (hmsTotalBurnedUnits d + amountUnits)) ;;;
            insert_hist hms_lane ("burn-hms-" +:+ fmt_int nano +:+ "-" +:+ from)
              (burn_row from amountUnits now (trim_space memo))
      end.

(** * Facts *)

#[export] Instance hms_lane_laws : LaneLaws hms_lane.
Proof.
  split; try done; try (intros *; unfold account_ok; cbn; lia).
  - intros v d. cbn. unfold hms_burn_fee. case_match; by eexists.
  - intros v d d' H. cbn in H. unfold hms_burn_fee in H. by inv_tx H.
  - intros v d d' Hv Hb Hs H. cbn in *. unfold hms_burn_fee in H.
    destruct (Z.ltb_spec 0 v); inv_tx H; [|lia].
    transitivity (u64 (hmsTotalBurnedUnits d + v)); [apply metaUint_ups|apply u64_small; lia].
  - intros v d d' H k Hk. cbn in *. unfold hms_burn_fee in H. inv_tx H; [|done].
    cbn. by rewrite lookup_insert_ne.
  - intros d d' M. cbn. unfold hmsTotalBurnedUnits, metaUint. by rewrite M.
  - intros t H. cbn in H. unfold ValidateHmsTransferShape in H. cbv zeta in H.
    repeat (case_match; try done). b2p.
    repeat match goal with
    | H : String.eqb _ _ = true |- _ => apply String.eqb_eq in H
    | H : String.eqb _ _ = false |- _ => apply String.eqb_neq in H
    end.
    unfold DefaultHMSTransferMinFee, DefaultTransferMinFee in *.
    split; [congruence|]. split; [done|lia].
Qed.

Lemma lane_free_hms_hmc : lane_free hms_lane balance_units.
Proof. done. Qed.
Lemma lane_free_hms_sup : lane_free hms_lane balance_sup_units.
Proof. done. Qed.

Lemma hms_units_max : HMSToUnits MaxSupplyHMS = 2100000000000000.
Proof. vm_compute. reflexivity. Qed.
Lemma hms_genesis_float_value : hms_genesis_float = 10500000000000.
Proof. vm_compute. reflexivity. Qed.
#[local] Opaque hms_genesis_float HMSToUnits.

(** A block's HMS transfers can neither fail nor create or lose a unit. From a well-formed
    ledger the batch always commits, circulating plus burned HMS is unchanged to the unit, and no
    HMC or SUP balance moves; without a configured treasury nothing happens at all. *)
Theorem applyPendingHmsTransfers_conserves `{ChainParams} `{Crypto} now idx bhash d :
  lane_ready hms_lane DefaultHMSTransferMaxBatch d → 0 ≤ idx < two63 →
  ∃ d', applyPendingHmsTransfers now idx bhash d = Ok (tt, d') ∧
    hms_sum d' + hmsTotalBurnedUnits d' = hms_sum d + hmsTotalBurnedUnits d ∧
    hmsTotalBurnedUnits d ≤ hmsTotalBurnedUnits d' ∧
    (∀ b, hmc d' b = hmc d b ∧ sup d' b = sup d b) ∧ accounts_ok d' ∧
    (hmsTreasuryAddress d = None → d' = d).
Proof.
  intros Hr Hi. unfold applyPendingHmsTransfers. rewrite (bind_run get _ d d d) by done.
  destruct (hmsTreasuryAddress d) as [tr|] eqn:Et.
  - destruct (lane_apply_pending_spec hms_lane now idx bhash tr Hi ltac:(done) _ d Hr)
      as (d' & B & E & [S1 S2 S3 S4 S5 S6 S7]).
    exists d'. split; [exact E|]. cbn in S3. change (hms_sum d' = hms_sum d - B) in S2.
    split; [lia|]. split; [lia|]. split; [|done]. intros b. split.
    + by apply (others_kept_at hms_lane d d' balance_units b S4 lane_free_hms_hmc).
    + by apply (others_kept_at hms_lane d d' balance_sup_units b S4 lane_free_hms_sup).
  - exists d. split; [done|]. split_and!; try done; try lia. apply Hr.
Qed.

(** ** The supply invariant *)

Definition hms_inv (d : DB) : Prop :=
  accounts_ok d ∧ 0 ≤ hmsTotalBurnedUnits d ∧
  hms_sum d + hmsTotalBurnedUnits d ≤ hmsTotalMintedUnits d ∧
  hmsTotalMintedUnits d ≤ HMSToUnits MaxSupplyHMS ∧ hmsMaxSupplyUnits d ≤ HMSToUnits MaxSupplyHMS.

(** Every operation of the HMS ledger, as a committed step.  The first genesis runs before any HMS
    exists; see [hms_genesis_forgets_mints] for the order the code also admits. *)
Inductive hms_step `{ChainParams} `{Crypto} : DB → DB → Prop :=
  | hstep_genesis env now tr d d' : hms_sum d = 0 ∨ trim_space (meta_text d metaHMSGenesisUnix) ≠ "" →
      InitHMSGenesis env now tr d = Ok (tt, d') → hms_step d d'
  | hstep_mint env now to amt memo d d' : 0 ≤ amt < two64 →
      MintHMS env now to amt memo d = Ok (tt, d') → hms_step d d'
  | hstep_burn now nano from amt memo d d' : 0 ≤ amt < two64 →
      BurnHMSForService now nano from amt memo d = Ok (tt, d') → hms_step d d'
  | hstep_submit now t h d d' : SubmitHmsTransferTx now t d = Ok (h, d') → hms_step d d'
  | hstep_block now idx bhash d d' : 0 ≤ idx < two63 →
      (∀ p, p ∈ hms_tx_pool d → tx_typed (p_tx p)) →
      (∀ b, mval hms_next_nonce (accounts d) b + DefaultHMSTransferMaxBatch < two63) →
      applyPendingHmsTransfers now idx bhash d = Ok (tt, d') → hms_step d d'.

Lemma hms_inv_keep d d' : hms_inv d → accounts d' = accounts d →
  (∀ k, k ≠ metaHMSTreasuryAddress → k ≠ metaHMSMaxSupplyUnits → k ≠ metaHMSMintEnabled → meta d' !! k = meta d !! k) →
  hmsMaxSupplyUnits d' ≤ HMSToUnits MaxSupplyHMS → hms_inv d'.
Proof.
  intros (A & B & C & D & E) Ha Hm Hx. unfold hms_inv, accounts_ok.
  assert (hmsTotalBurnedUnits d' = hmsTotalBurnedUnits d) as -> by (apply metaUint_at, Hm; done).
  assert (hmsTotalMintedUnits d' = hmsTotalMintedUnits d) as -> by (apply metaUint_at, Hm; done).
  rewrite Ha, (acct_sum_accounts _ d d' Ha). done.
Qed.

Lemma hms_inv_supply d : hms_inv d → supply_inv hms_lane metaHMSTotalMintedUnits 2100000000000000 d.
Proof.
  intros (A & B & C & D & E). rewrite hms_units_max in *. split; [done|].
  fold (hmsTotalMintedUnits d). change (acct_sum (l_bal hms_lane) d) with (hms_sum d). lia.
Qed.

Lemma hms_sum_nonneg d : accounts_ok d → 0 ≤ hms_sum d.
Proof. intros H. apply (sum_nonneg balance_hms_units); [intros y Hy; apply Hy|done]. Qed.

(** When no HMS exists, every balance is zero. *)
Lemma hms_zero d a x : accounts_ok d → hms_sum d = 0 → accounts d !! a = Some x → balance_hms_units x = 0.
Proof.
  intros Hok Hs Hx. pose proof (Hok _ _ Hx) as K.
  pose proof (balance_le_sum balance_hms_units d a x) as L.
  assert (balance_hms_units x ≤ hms_sum d) by (apply L; [intros y Hy; apply Hy|done|done]).
  unfold account_ok in K. lia.
Qed.

Lemma InitHMSGenesis_inv env now tr d d' : hms_sum d = 0 ∨ trim_space (meta_text d metaHMSGenesisUnix) ≠ "" →
  InitHMSGenesis env now tr d = Ok (tt, d') → hms_inv d → hms_inv d'.
Proof.
  intros Hf H Hi. pose proof Hi as (A & B & C & D & E). unfold InitHMSGenesis in H. cbv zeta in H.
  set (addr := if String.eqb (trim_space tr) "" then _ else _) in *.
  destruct (negb (validateHMSTreasuryAddress addr)); [done|].
  apply bind_ok in H as ([] & d1 & H1 & H). inv_tx H1. apply bind_ok in H as ([] & d2 & H2 & H). inv_tx H2.
  set (d2 := ups_meta metaHMSTreasuryAddress _ _) in *. rewrite (bind_run get _ d2 d2 d2) in H by done.
  assert (Hg : meta_text d2 metaHMSGenesisUnix = meta_text d metaHMSGenesisUnix).
  { unfold meta_text, metaText, d2. cbn. by rewrite !lookup_insert_ne. }
  assert (Hx2 : hmsMaxSupplyUnits d2 = HMSToUnits MaxSupplyHMS).
  { unfold d2, hmsMaxSupplyUnits. rewrite metaUint_ups_ne by done. apply metaUint_ups. }
  rewrite Hg in H. destruct (String.eqb_spec (trim_space (meta_text d metaHMSGenesisUnix)) "") as [E0|E0].
  - destruct Hf as [Hz|Hf]; [|destruct (Hf E0)].
    replace (0 <? hms_genesis_float) with true in H by (rewrite hms_genesis_float_value; reflexivity).
    apply bind_ok in H as ([] & d3 & H3 & H). inv_tx H.
    apply bind_ok in H3 as ([] & d4 & H4 & H3). inv_tx H4.
    apply bind_ok in H3 as ([] & d5 & H5 & H3). inv_tx H5.
    apply bind_ok in H3 as ([] & d6 & H6 & H3). inv_tx H3.
    apply bind_ok in H6 as ([] & d7 & H7 & H6). inv_tx H7.
    apply insert_hist_spec in H6 as (_ & _ & _ & _ & A6 & M6 & _); [|apply _].
    set (d7 := ups_account (set_hms hms_genesis_float empty_account) (set_hms hms_genesis_float) addr _) in *.
    assert (acct_sum balance_hms_units d7 = hms_genesis_float ∧ accounts_ok d7) as [K1 K2].
    { unfold d7. rewrite acct_sum_ups. split.
      - change (hms_sum d + match accounts d !! addr with
          Some x => hms_genesis_float - balance_hms_units x | None => hms_genesis_float end = hms_genesis_float).
        rewrite Hz. destruct (accounts d !! addr) as [x|] eqn:Ex; [|lia].
        rewrite (hms_zero d addr x A Hz Ex). lia.
      - apply accounts_ok_ups; [exact A| |]; intros; rewrite hms_genesis_float_value.
        + unfold account_ok, two63. cbn. lia.
        + unfold account_ok, two63 in *. cbn. lia. }
    match goal with |- hms_inv ?x => set (dx := x) end.
    assert (M : meta dx = <[metaHMSMintEnabled := MStr "1"]> (<[metaHMSGenesisUnix := MStr (fmt_int now)]>
      (<[metaHMSTotalBurnedUnits := MUint 0]> (<[metaHMSTotalMintedUnits := MUint hms_genesis_float]> (meta d2))))).
    { unfold dx. cbn [meta ups_meta set_meta]. rewrite M6. unfold d7.
      cbn [meta ups_meta set_meta ups_account set_accounts]. reflexivity. }
    assert (X1 : hmsTotalBurnedUnits dx = 0).
    { unfold hmsTotalBurnedUnits, metaUint. rewrite M, !lookup_insert_ne by (apply String.eqb_neq; reflexivity). by rewrite lookup_insert_eq. }
    assert (X2 : hmsTotalMintedUnits dx = hms_genesis_float).
    { unfold hmsTotalMintedUnits, metaUint. rewrite M, !lookup_insert_ne by (apply String.eqb_neq; reflexivity). by rewrite lookup_insert_eq. }
    assert (X3 : hmsMaxSupplyUnits dx = hmsMaxSupplyUnits d2).
    { apply metaUint_at. by rewrite M, !lookup_insert_ne by (apply String.eqb_neq; reflexivity). }
    assert (Ad : accounts dx = accounts d7) by exact A6.
    unfold hms_inv, accounts_ok. rewrite X1, X2, X3, Hx2, Ad, (acct_sum_accounts _ d7 dx Ad).
    rewrite K1, hms_genesis_float_value, hms_units_max. split; [exact K2|lia].
  - apply bind_ok in H as ([] & d3 & H3 & H). inv_tx H3. inv_tx H. apply (hms_inv_keep d); [done|done| |].
    + intros k H1 H2 H3. cbn. by rewrite !lookup_insert_ne.
    + unfold hmsMaxSupplyUnits. rewrite metaUint_ups_ne by done. fold (hmsMaxSupplyUnits d2). lia.
Qed.

Lemma hms_idem_key_ne `{Crypto} to amt memo k : trim_space memo ≠ "" →
  has_prefix k "hms_" = true → mintIdempotencyMetaKey metaHMSMintIdemPrefix to amt memo ≠ k.
Proof.
  intros Hm Hk E. unfold mintIdempotencyMetaKey in E. rewrite (proj2 (String.eqb_neq _ _) Hm) in E.
  cbn [orb] in E. replace (String.eqb (trim_space metaHMSMintIdemPrefix) "") with false in E by (vm_compute; done).
  cbv zeta iota in E. subst k. unfold has_prefix, strip_prefix, metaHMSMintIdemPrefix in Hk.
  rewrite !scons_app in Hk. cbn in Hk. done.
Qed.

Lemma MintHMS_inv `{ChainParams} `{Crypto} env now to amt memo d d' : 0 ≤ amt < two64 →
  MintHMS env now to amt memo d = Ok (tt, d') → hms_inv d → hms_inv d'.
Proof.
  intros Ha H1 Hi. pose proof Hi as (A & B & C & D & E). unfold MintHMS in H1.
  destruct (amt =? 0); [discriminate H1|]. cbv zeta in H1.
  destruct (String.eqb_spec (trim_space memo) "") as [|Hm]; [discriminate H1|].
  destruct (negb (IsValidAddress (trim_space to))); [discriminate H1|].
  rewrite (bind_run get _ d d d) in H1 by done. destruct (negb _ && negb env); [discriminate H1|].
  set (key := mintIdempotencyMetaKey _ _ _ _) in *.
  destruct (l_hist hms_lane d !! ("hms-" +:+ key)) eqn:Eh.
  { unfold mint_once in H1. rewrite (bind_run get _ d d d), Eh in H1 by done. by inv_tx H1. }
  destruct (String.eqb_spec (trim_space (meta_text d key)) "") as [Et|Et].
  2: { unfold mint_once in H1. rewrite (bind_run get _ d d d), Eh, (proj2 (String.eqb_neq _ _) Et) in H1 by done.
       cbn [negb] in H1. by inv_tx H1. }
  assert (Hmm : trim_space (trim_space memo) ≠ "") by by rewrite trim_space_idem.
  assert (Hk : ∀ k, has_prefix k "hms_" = true → k ≠ key).
  { intros k Hk ->. by apply (hms_idem_key_ne (trim_space to) amt (trim_space memo) key). }
  rewrite hms_units_max in *.
  destruct (mint_once_spec hms_lane _ _ _ _ _ _ _ _ _ _ _ 2100000000000000 _ _ H1)
    as (C1 & _ & C3 & C4 & C5 & _ & C7 & _ & C9); try done; [by apply hms_inv_supply|by apply Hk|].
  assert (Xb : hmsTotalBurnedUnits d' = hmsTotalBurnedUnits d) by (apply metaUint_at, C9; [done|by apply Hk]).
  assert (Xm : hmsMaxSupplyUnits d' = hmsMaxSupplyUnits d) by (apply metaUint_at, C9; [done|by apply Hk]).
  pose proof (ce_sum _ _ _ _ _ C3) as S. change (hms_sum d' = hms_sum d + amt) in S.
  change (hmsTotalMintedUnits d' = hmsTotalMintedUnits d + amt) in C5.
  change (hmsTotalMintedUnits d + amt ≤ hmsMaxSupplyUnits d) in C1.
  unfold hms_inv. rewrite Xb, Xm, S, C5, hms_units_max. split; [done|lia].
Qed.

Lemma BurnHMSForService_inv now nano from amt memo d d' : 0 ≤ amt →
  BurnHMSForService now nano from amt memo d = Ok (tt, d') → hms_inv d → hms_inv d'.
Proof.
  intros Ha H Hi. pose proof Hi as (A & B & C & D & E). unfold BurnHMSForService in H.
  destruct (amt =? 0); [discriminate H|]. cbv zeta in H. set (f := trim_space from) in *.
  destruct (negb (has_prefix f "HMC-")); [discriminate H|]. rewrite (bind_run get _ d d d) in H by done.
  destruct (accounts d !! f) as [a|] eqn:Ea; [|discriminate H].
  destruct (Z.ltb_spec (balance_hms_units a) amt); [discriminate H|].
  pose proof (A _ _ Ea) as K. rewrite hms_units_max in *.
  pose proof (balance_le_sum balance_hms_units d f a) as L.
  assert (balance_hms_units a ≤ hms_sum d) by (apply L; [intros y Hy; apply Hy|done|done]).
  unfold account_ok in K. rewrite (u64_small (balance_hms_units a - amt)), (u64_small (hmsTotalBurnedUnits d + amt)) in H
    by (unfold two63, two64 in *; lia).
  apply bind_ok in H as ([] & d0 & G & H). inv_tx G.
  apply bind_ok in H as ([] & d1 & G1 & H). inv_tx G1.
  apply bind_ok in H as ([] & d2 & G2 & H). inv_tx G2.
  apply insert_hist_spec in H as (_ & _ & _ & _ & Ad & Md & _); [|apply _].
  set (d1 := upd_account (set_hms (balance_hms_units a - amt)) f d) in *.
  change (accounts (ups_meta metaHMSTotalBurnedUnits (MUint (hmsTotalBurnedUnits d + amt)) d1)) with (accounts d1) in Ad.
  assert (X1 : hmsTotalBurnedUnits d' = hmsTotalBurnedUnits d + amt).
  { unfold hmsTotalBurnedUnits at 1, metaUint. rewrite Md. cbn [meta ups_meta set_meta]. by rewrite lookup_insert_eq. }
  assert (Mk : ∀ k, k ≠ metaHMSTotalBurnedUnits → meta d' !! k = meta d !! k).
  { intros k Hk. rewrite Md. cbn [meta ups_meta set_meta]. rewrite lookup_insert_ne by done. unfold d1. by rewrite meta_upd. }
  assert (X2 : hmsTotalMintedUnits d' = hmsTotalMintedUnits d) by (by apply metaUint_at, Mk).
  assert (X3 : hmsMaxSupplyUnits d' = hmsMaxSupplyUnits d) by (by apply metaUint_at, Mk).
  unfold hms_inv, accounts_ok. rewrite X1, X2, X3, Ad, (acct_sum_accounts _ d1 d' Ad), hms_units_max.
  split.
  - unfold d1. apply accounts_ok_upd; [done|]. intros x Ex Hx. rewrite Ea in Ex. injection Ex as <-.
    unfold account_ok in *. cbn. lia.
  - unfold d1. rewrite acct_sum_upd, Ea. cbn. lia.
Qed.

Lemma hms_block_inv `{ChainParams} `{Crypto} now idx bh d d' : 0 ≤ idx < two63 →
  (∀ p, p ∈ hms_tx_pool d → tx_typed (p_tx p)) →
  (∀ b, mval hms_next_nonce (accounts d) b + DefaultHMSTransferMaxBatch < two63) →
  applyPendingHmsTransfers now idx bh d = Ok (tt, d') → hms_inv d → hms_inv d'.
Proof.
  intros Hidx Hp Hn H1 Hi. pose proof Hi as (A & B & C & D & E). rewrite hms_units_max in *.
  unfold applyPendingHmsTransfers in H1. rewrite (bind_run get _ d d d) in H1 by done.
  destruct (hmsTreasuryAddress d) as [tr|]; [|by inv_tx H1].
  destruct (lane_apply_pending_spec hms_lane now idx bh tr Hidx ltac:(done)
    DefaultHMSTransferMaxBatch d) as (d2 & V & G & [S1 S2 S3 S4 S5 S6 S7]).
  { split; [done|]. split; [|done]. split; [exact B|].
    change (hms_sum d + hmsTotalBurnedUnits d < two63). unfold two63. lia. }
  rewrite G in H1. injection H1 as <-.
  change (hms_sum d2 = hms_sum d - V) in S2. cbn in S3.
  assert (hmsTotalMintedUnits d2 = hmsTotalMintedUnits d) as Hm by (apply metaUint_at, S7; done).
  assert (hmsMaxSupplyUnits d2 = hmsMaxSupplyUnits d) as Hx by (apply metaUint_at, S7; done).
  unfold hms_inv. rewrite S2, S3, Hm, Hx, hms_units_max. split; [done|]. lia.
Qed.

(** The HMS supply is capped, whatever sequence of operations runs. After any sequence of
    mints, burns, submissions, applied blocks and genesis runs - the first genesis before any HMS
    exists - circulating plus burned HMS is at most the units counted as minted, which are at most
    21 million HMS, and every balance stays in range. *)
Theorem hms_supply_capped `{ChainParams} `{Crypto} d d' :
  rtc hms_step d d' → hms_inv d → hms_inv d'.
Proof.
  induction 1 as [|d1 d2 d3 Hs _ IH]; [done|]. intros Hi. apply IH. clear IH d3. rename d2 into d'.
  destruct Hs as [env now tr d d' Hf H1|env now to amt memo d d' Ha H1|now nano from amt memo d d' Ha H1
    |now t h d d' H1|now idx bh d d' Hidx Hp Hn H1].
  - by apply (InitHMSGenesis_inv env now tr d d').
  - by apply (MintHMS_inv env now to amt memo d d').
  - by apply (BurnHMSForService_inv now nano from amt memo d d' (proj1 Ha)).
  - unfold SubmitHmsTransferTx, lane_submit in H1. inv_tx H1;
      (eapply hms_inv_keep; [exact Hi|done|done|apply Hi]).
  - by apply (hms_block_inv now idx bh d d').
Qed.

(** The order the hypothesis of [hstep_genesis] excludes: with minting enabled from the
    environment, a mint before the first genesis is wiped from the minted counter by it, and more
    HMS circulates than the counter says. *)
Example hms_genesis_forgets_mints :
  let C := toy_crypto in
  let d1 := run (MintHMS true 5 (toy_addr "b") 700 "epoch 1") empty_db in
  let d2 := run (InitHMSGenesis "" 6 (toy_addr "a")) d1 in
  (hmsTotalMintedUnits d1, hms_sum d1, hmsTotalMintedUnits d2, hms_sum d2)
  = (700, 700, 10500000000000, 10500000000700).
Proof. vm_compute. reflexivity. Qed.

(** ** A concrete HMS ledger *)

Definition hms_ex_db : DB :=
  set_hms_pool [mkPoolRow "h0" (mkTransferTx "transfer_hms_v1" "" (toy_addr "a") (toy_addr "b") 100000000 1000 0
                  1000000 "" (toy_key "a") (toy_sig "a") "") 1000000 "pending" ""]
   (set_meta {[ metaHMSTotalMintedUnits := MUint 1000000000; metaHMSMintEnabled := MStr "1";
                metaHMSTreasuryAddress := MStr (toy_addr "c"); metaHMSGenesisUnix := MStr "5" ]}
     (ups_account (mkAccount 0 0 0 0 1000000000 0) (λ x, x) (toy_addr "a") empty_db)).

Lemma hms_ex_ok : accounts_ok hms_ex_db.
Proof.
  unfold accounts_ok, hms_ex_db. cbn [accounts set_hms_pool set_meta].
  apply (accounts_ok_ups _ _ _ empty_db); [apply map_Forall_empty| |done].
  intros _. unfold account_ok, two63. cbn. lia.
Qed.

Lemma hms_ex_inv : hms_inv hms_ex_db.
Proof. split; [exact hms_ex_ok|]. split_and!; vm_compute; discriminate. Qed.

Lemma hms_ex_ready : lane_ready hms_lane DefaultHMSTransferMaxBatch hms_ex_db.
Proof.
  split; [exact hms_ex_ok|]. split; [split; vm_compute; (discriminate || reflexivity)|].
  split; [done|]. split.
  - intros p Hp. apply list_elem_of_singleton in Hp as ->. unfold tx_typed, two63, two64. cbn. lia.
  - intros b. unfold hms_ex_db. cbn [accounts set_hms_pool set_meta]. rewrite mval_ups.
    unfold mval. cbn. unfold DefaultHMSTransferMaxBatch, two63. case_bool_decide; rewrite ?lookup_empty; lia.
Qed.

Lemma applyPendingHmsTransfers_conserves_witness :
  let P := params_of empty_env 0 in let C := toy_crypto in
  ∃ d', applyPendingHmsTransfers 1000000 10 "b" hms_ex_db = Ok (tt, d') ∧
    hms_sum d' + hmsTotalBurnedUnits d' = hms_sum hms_ex_db + hmsTotalBurnedUnits hms_ex_db.
Proof.
  destruct (applyPendingHmsTransfers_conserves (H := params_of empty_env 0) (H0 := toy_crypto)
    1000000 10 "b" hms_ex_db hms_ex_ready ltac:(unfold two63; lia)) as (d' & E & S & _).
  exists d'. split; [exact E|exact S].
Defined.

Lemma hms_supply_capped_witness :
  let P := params_of empty_env 0 in let C := toy_crypto in
  rtc hms_step hms_ex_db (run (MintHMS false 5 (toy_addr "b") 700 "epoch 1") hms_ex_db) ∧
  hms_inv (run (MintHMS false 5 (toy_addr "b") 700 "epoch 1") hms_ex_db).
Proof.
  assert (R : rtc (@hms_step (params_of empty_env 0) toy_crypto) hms_ex_db
    (run (@MintHMS toy_crypto false 5 (toy_addr "b") 700 "epoch 1") hms_ex_db)).
  { apply rtc_once. apply (@hstep_mint (params_of empty_env 0) toy_crypto false 5 (toy_addr "b") 700 "epoch 1");
      [unfold two64; lia|vm_compute; reflexivity]. }
  split; [exact R|]. exact (hms_supply_capped (H := params_of empty_env 0) (H0 := toy_crypto) _ _ R hms_ex_inv).
Defined.
