(* ===== verification/EscrowSplit.v ===== *)
(** How a campaign budget is split and what its bounty pays.

    Source: internal/fuzzescrow/split.go and hunt.go. *)
From S2P Require Import Prelude Float64 GoText Params.
From Stdlib Require Import QArith Lqa.
#[local] Open Scope Z_scope.

Definition RunsPoolShare : f64 := lit 20 100.
Definition DeepRunsPoolShare : f64 := lit 40 100.
Definition HuntRunsPoolShare : f64 := lit 50 100.
Definition BountyPlatformFeeRate : f64 := lit 5 100.
Definition UniqueCrashBonusRate : f64 := lit 1 100.
Definition UniqueCrashBonusMaxUnits : Z := 1000000.
Definition HuntUniqueCrashBonusMaxUnits : Z := 5000000.
Definition MinCampaignBudgetHMC : f64 := lit 5 10.
Definition MinDeepCampaignBudgetHMC : f64 := f_of_Z 25.
Definition MaxCampaignBudgetHMC : f64 := f_of_Z 500.
Definition HuntMinLiteBudgetHMC : f64 := f_of_Z 15.
Definition HuntMinStandardBudgetHMC : f64 := f_of_Z 50.
Definition HuntMinHeavyBudgetHMC : f64 := f_of_Z 150.
Definition MinCampaignRuns : Z := 8.
Definition MaxCampaignRuns : Z := 10000000.
Definition MinPerRunUnits : Z := 10000.
Definition HuntMinPerShardUnits : Z := 200000.
Definition HuntMinShards : Z := 8.
Definition EscrowSplit2080 : string := "20_80".
Definition EscrowSplit4060 : string := "40_60".
Definition EscrowSplit5050 : string := "50_50".

Record SplitUnits := mkSplitUnits {
  TotalUnits : Z; RunsPoolUnits : Z; BountyPoolUnits : Z; PerRunUnits : Z;
}.

Definition ComputeSplitUnitsShare (totalUnits budgetRuns : Z) (runsShare : f64) : result SplitUnits :=
  if totalUnits =? 0 then Err "fuzz escrow: budget rounds to zero units"
  else if budgetRuns <? MinCampaignRuns then Err "fuzz escrow: budget_runs below minimum"
  else if MaxCampaignRuns <? budgetRuns then Err "fuzz escrow: budget_runs too large"
  else
    let runsShare := if f_leb runsShare (f_of_Z 0) || f_leb (f_of_Z 1) runsShare then RunsPoolShare else runsShare in
    let runsUnits :=
      if f_leb (lit 399 1000) runsShare && f_leb runsShare (lit 401 1000) then u64 (totalUnits * 2) / 5
      else if f_leb (lit 199 1000) runsShare && f_leb runsShare (lit 201 1000) then totalUnits / 5
      else f_trunc (f_mul (f_of_Z totalUnits) runsShare) in
    let bountyUnits := u64 (totalUnits - runsUnits) in
    let perRun := runsUnits / budgetRuns in
    if perRun =? 0 then Err "fuzz escrow: per-run payout rounds to zero; increase budget or lower runs"
    else if perRun <? MinPerRunUnits
    then Err "fuzz escrow: per-run payout below minimum; increase budget_hmc or reduce budget_runs"
    else Ok (mkSplitUnits totalUnits runsUnits bountyUnits perRun).

Definition ComputeSplitUnits (totalUnits budgetRuns : Z) : result SplitUnits :=
  ComputeSplitUnitsShare totalUnits budgetRuns RunsPoolShare.

Definition ComputeHuntSplitUnits (totalUnits budgetShards : Z) : result SplitUnits :=
  if totalUnits =? 0 then Err "hunt escrow: budget rounds to zero units"
  else if budgetShards <? HuntMinShards then Err "hunt escrow: budget_shards below minimum"
  else if MaxCampaignRuns <? budgetShards then Err "hunt escrow: budget_shards too large"
  else
    let runsUnits := f_trunc (f_mul (f_of_Z totalUnits) HuntRunsPoolShare) in
    let bountyUnits := u64 (totalUnits - runsUnits) in
    let perShard := runsUnits / budgetShards in
    if perShard =? 0 then Err "hunt escrow: per-shard payout rounds to zero; increase budget or lower shards"
    else if perShard <? HuntMinPerShardUnits
    then Err "hunt escrow: per-shard payout below minimum; increase budget_hmc or reduce budget_shards"
    else Ok (mkSplitUnits totalUnits runsUnits bountyUnits perShard).

(** * Bounty payouts *)

(** Miner and platform parts of a paid bounty slice. *)
Definition BountyPayoutUnits (bountyPoolUnits : Z) : Z * Z :=
  let feeUnits := f_trunc (f_mul (f_of_Z bountyPoolUnits) BountyPlatformFeeRate) in
  let feeUnits := if bountyPoolUnits <? feeUnits then bountyPoolUnits else feeUnits in
  (bountyPoolUnits - feeUnits, feeUnits).

(** The bonus after its caps, for a given unit cap. *)
Definition capped_bonus (bountyPoolUnits maxUnits : Z) : Z :=
  let bonus := f_trunc (f_mul (f_of_Z bountyPoolUnits) UniqueCrashBonusRate) in
  let bonus := if maxUnits <? bonus then maxUnits else bonus in
  let maxShare := bountyPoolUnits / 10 in
  let bonus := if (0 <? maxShare) && (maxShare <? bonus) then maxShare else bonus in
  if bonus <? MinPerRunUnits then 0
  else if bountyPoolUnits <? bonus then bountyPoolUnits
  else bonus.

Definition UniqueCrashBonusUnits (bountyPoolUnits : Z) : Z :=
  if bountyPoolUnits =? 0 then 0 else capped_bonus bountyPoolUnits UniqueCrashBonusMaxUnits.

Definition uniqueCrashBonusUnitsCapped (bountyPoolUnits maxUnits : Z) : Z :=
  if (bountyPoolUnits =? 0) || (maxUnits =? 0) then 0 else capped_bonus bountyPoolUnits maxUnits.

Definition UniqueCrashBonusUnitsForSplit (bountyPoolUnits : Z) (escrowSplit : string) : Z :=
  if String.eqb escrowSplit EscrowSplit5050
  then uniqueCrashBonusUnitsCapped bountyPoolUnits HuntUniqueCrashBonusMaxUnits
  else UniqueCrashBonusUnits bountyPoolUnits.

Definition HuntBountyShare (severity : string) : f64 :=
  let s := trim_space (to_lower severity) in
  if String.eqb s "critical" then f_of_Z 1
  else if String.eqb s "high" then lit 6 10
  else f_of_Z 0.

(** [None] when the severity is not payable. *)
Definition HuntBountyPayoutUnits (remaining : Z) (severity : string) : option (Z * Z) :=
  let share := HuntBountyShare severity in
  if f_leb share (f_of_Z 0) || (remaining =? 0) then None
  else
    let slice :=
      if f_leb (f_of_Z 1) share then remaining
      else if f_leb (lit 6 10) share then u64 (remaining * 6) / 10
      else if f_leb (lit 3 10) share then u64 (remaining * 3) / 10
      else f_trunc (f_mul (f_of_Z remaining) share) in
    if slice <? MinPerRunUnits then None else Some (BountyPayoutUnits slice).

(** * Packages *)

Definition deep_package (pkg : string) : bool :=
  let p := trim_space (to_lower pkg) in String.eqb p "deep" || String.eqb p "enterprise".
Definition EscrowSplitForDigPackage (pkg : string) : string :=
  if deep_package pkg then EscrowSplit4060 else EscrowSplit2080.
Definition MinBudgetHMCForDigPackage (pkg : string) : f64 :=
  if deep_package pkg then MinDeepCampaignBudgetHMC else MinCampaignBudgetHMC.
Definition MinBudgetHMCForHuntPackage (pkg : string) : f64 :=
  if String.eqb pkg "hunt_heavy" || String.eqb pkg "heavy" then HuntMinHeavyBudgetHMC
  else if String.eqb pkg "hunt_standard" || String.eqb pkg "standard" then HuntMinStandardBudgetHMC
  else HuntMinLiteBudgetHMC.

(** * Facts *)

Lemma hunt_share_value : HuntRunsPoolShare = F64 (2 ^ 52) (-53).
Proof. vm_compute. reflexivity. Qed.

(** Halving is exact below [2^53] units (about 90 million HMC). *)
Lemma half_exact t : 0 ≤ t < 2 ^ 53 → f_trunc (f_mul (f_of_Z t) HuntRunsPoolShare) = t / 2.
Proof.
  intros Ht. rewrite hunt_share_value, f_of_Z_small by lia. unfold f_mul. cbn [mant expo].
  destruct (Z.eq_dec t 0) as [->|Hz]; [done|].
  assert (H1 : Z.log2 (t * 2 ^ 52) = Z.log2 t + 52) by (rewrite Z.log2_mul_pow2 by lia; lia).
  pose proof (Z.log2_nonneg t). pose proof (Z.log2_spec t ltac:(lia)) as [L1 L2].
  assert (Hk : Z.log2 t ≤ 52).
  { destruct (Z.le_gt_cases (Z.log2 t) 52); [done|].
    assert (2 ^ 53 ≤ 2 ^ Z.log2 t) by (apply Z.pow_le_mono_r; lia). lia. }
  unfold round53. rewrite Z.abs_eq, H1 by lia. set (k := Z.log2 t) in *.
  replace (k + 52 - 52) with k by lia.
  assert (P : ∀ i, 0 ≤ i → 0 < 2 ^ i) by (intros; apply Z.pow_pos_nonneg; lia).
  destruct (Z.leb_spec k 0) as [K|K].
  - assert (k = 0) as K0 by lia. unfold f_trunc. cbn [mant expo].
    change (0 <=? 0 + -53) with false. change (2 ^ (- (0 + -53))) with (2 ^ 52 * 2). cbv iota.
    rewrite Z.quot_div_nonneg by lia. rewrite (Z.mul_comm t). apply Z.div_mul_cancel_l; lia.
  - rewrite Z.sgn_pos by lia. rewrite Z.mul_1_l.
    replace (t * 2 ^ 52) with (t * 2 ^ (52 - k) * 2 ^ k)
      by (rewrite <- Z.mul_assoc, <- Z.pow_add_r by lia; do 2 f_equal; lia).
    rewrite rne_exact by (apply P; lia). unfold f_trunc. cbn [mant expo].
    destruct (Z.leb_spec 0 (0 + -53 + k)); [lia|].
    replace (- (0 + -53 + k)) with ((52 - k) + 1) by lia. rewrite Z.pow_add_r, Z.pow_1_r by lia.
    pose proof (P (52 - k) ltac:(lia)). rewrite Z.quot_div_nonneg by nia.
    rewrite (Z.mul_comm t). apply Z.div_mul_cancel_l; lia.
Qed.

Lemma split_shares :
  (f_leb RunsPoolShare (f_of_Z 0) || f_leb (f_of_Z 1) RunsPoolShare = false) ∧
  (f_leb (lit 399 1000) RunsPoolShare && f_leb RunsPoolShare (lit 401 1000) = false) ∧
  (f_leb (lit 199 1000) RunsPoolShare && f_leb RunsPoolShare (lit 201 1000) = true) ∧
  (f_leb DeepRunsPoolShare (f_of_Z 0) || f_leb (f_of_Z 1) DeepRunsPoolShare = false) ∧
  (f_leb (lit 399 1000) DeepRunsPoolShare && f_leb DeepRunsPoolShare (lit 401 1000) = true).
Proof. by vm_compute. Qed.

(** What every successful split guarantees, for a runs pool of [pool] units. *)
Record split_ok (total runs pool minPer : Z) (s : SplitUnits) : Prop := {
  so_total : TotalUnits s = total;
  so_runs : RunsPoolUnits s = pool;
  so_bounty : BountyPoolUnits s = total - pool;
  so_pool : 0 ≤ pool ≤ total;
  so_per : PerRunUnits s = pool / runs;
  so_min : minPer ≤ PerRunUnits s;
  so_cover : runs * PerRunUnits s ≤ RunsPoolUnits s;
  so_count : MinCampaignRuns ≤ runs ≤ MaxCampaignRuns;
}.

Lemma ComputeSplitUnits_ok total runs s : 0 ≤ total < two64 → ComputeSplitUnits total runs = Ok s →
  split_ok total runs (total / 5) MinPerRunUnits s.
Proof.
  intros Ht H. unfold ComputeSplitUnits, ComputeSplitUnitsShare in H.
  destruct split_shares as (E1 & E2 & E3 & _). rewrite E1, E2, E3 in H. clear E1 E2 E3. cbv zeta in H.
  destruct (total =? 0); [discriminate H|]. destruct (Z.ltb_spec runs MinCampaignRuns); [discriminate H|].
  destruct (Z.ltb_spec MaxCampaignRuns runs); [discriminate H|]. destruct (_ =? 0); [discriminate H|].
  destruct (Z.ltb_spec (total / 5 / runs) MinPerRunUnits); [discriminate H|]. injection H as <-.
  unfold MinCampaignRuns, MaxCampaignRuns in *.
  assert (0 ≤ total / 5 ≤ total) by (split; [apply Z.div_pos; lia|apply Z.div_le_upper_bound; lia]).
  split; cbn; try done; try lia; [apply u64_small; lia|apply Z.mul_div_le; lia].
Qed.

Lemma ComputeSplitUnitsDeep_ok total runs s : 0 ≤ total < two63 →
  ComputeSplitUnitsShare total runs DeepRunsPoolShare = Ok s →
  split_ok total runs (total * 2 / 5) MinPerRunUnits s.
Proof.
  intros Ht H. unfold ComputeSplitUnitsShare in H.
  destruct split_shares as (_ & _ & _ & E1 & E2). rewrite E1, E2 in H. clear E1 E2. cbv zeta in H.
  rewrite (u64_small (total * 2)) in H by (unfold two63, two64 in *; lia).
  destruct (total =? 0); [discriminate H|]. destruct (Z.ltb_spec runs MinCampaignRuns); [discriminate H|].
  destruct (Z.ltb_spec MaxCampaignRuns runs); [discriminate H|]. destruct (_ =? 0); [discriminate H|].
  destruct (Z.ltb_spec (total * 2 / 5 / runs) MinPerRunUnits); [discriminate H|]. injection H as <-.
  unfold MinCampaignRuns, MaxCampaignRuns in *.
  assert (0 ≤ total * 2 / 5 ≤ total) by (split; [apply Z.div_pos; lia|apply Z.div_le_upper_bound; lia]).
  split; cbn; try done; try lia; [apply u64_small; unfold two63, two64 in *; lia|apply Z.mul_div_le; lia].
Qed.

Lemma ComputeHuntSplitUnits_ok total runs s : 0 ≤ total < 2 ^ 53 → ComputeHuntSplitUnits total runs = Ok s →
  split_ok total runs (total / 2) HuntMinPerShardUnits s.
Proof.
  intros Ht H. unfold ComputeHuntSplitUnits in H. cbv zeta in H. rewrite half_exact in H by done.
  destruct (total =? 0); [discriminate H|]. destruct (Z.ltb_spec runs HuntMinShards); [discriminate H|].
  destruct (Z.ltb_spec MaxCampaignRuns runs); [discriminate H|]. destruct (_ =? 0); [discriminate H|].
  destruct (Z.ltb_spec (total / 2 / runs) HuntMinPerShardUnits); [discriminate H|]. injection H as <-.
  unfold HuntMinShards, MinCampaignRuns, MaxCampaignRuns in *.
  assert (0 ≤ total / 2 ≤ total) by (split; [apply Z.div_pos; lia|apply Z.div_le_upper_bound; lia]).
  split; cbn; try done; try lia; [apply u64_small; unfold two64; lia|apply Z.mul_div_le; lia].
Qed.

Lemma bounty_rate_small : (0 <= mant BountyPlatformFeeRate)%Z ∧ (toQ BountyPlatformFeeRate <= 999 # 1000)%Q ∧
  (0 <= mant UniqueCrashBonusRate)%Z ∧ (toQ UniqueCrashBonusRate <= 999 # 1000)%Q.
Proof. split_and!; vm_compute; discriminate. Qed.

Lemma BountyPayoutUnits_ok p m f : 0 ≤ p → BountyPayoutUnits p = (m, f) → m + f = p ∧ 0 ≤ m ∧ 0 ≤ f.
Proof.
  intros Hp H. unfold BountyPayoutUnits in H. cbv zeta in H. destruct bounty_rate_small as (R1 & R2 & _).
  pose proof (trunc_scale_le p BountyPlatformFeeRate Hp R1 R2).
  destruct (Z.ltb_spec p (f_trunc (f_mul (f_of_Z p) BountyPlatformFeeRate))); injection H as <- <-; lia.
Qed.

Lemma capped_bonus_ok p max : 0 ≤ p → 0 ≤ max →
  0 ≤ capped_bonus p max ≤ p / 10 ∧ capped_bonus p max ≤ max.
Proof.
  intros Hp Hm. unfold capped_bonus. cbv zeta. destruct bounty_rate_small as (_ & _ & R1 & R2).
  pose proof (trunc_scale_le p UniqueCrashBonusRate Hp R1 R2) as Hb.
  set (b := f_trunc _) in *. pose proof (Z.div_pos p 10 Hp ltac:(lia)).
  pose proof (Z.mul_div_le p 10 ltac:(lia)). pose proof (Z.mul_succ_div_gt p 10 ltac:(lia)).
  set (b1 := if max <? b then max else b).
  assert (B1 : 0 ≤ b1 ≤ b ∧ b1 ≤ max) by (unfold b1; destruct (Z.ltb_spec max b); lia).
  set (b2 := if (0 <? p / 10) && (p / 10 <? b1) then p / 10 else b1).
  assert (B2 : 0 ≤ b2 ≤ b1 ∧ (0 < p / 10 → b2 ≤ p / 10)).
  { unfold b2. destruct (Z.ltb_spec 0 (p / 10)), (Z.ltb_spec (p / 10) b1); cbn [andb]; lia. }
  unfold MinPerRunUnits. destruct (Z.ltb_spec b2 10000); [lia|].
  destruct (Z.ltb_spec p b2); lia.
Qed.

Lemma UniqueCrashBonusUnitsForSplit_ok p sp : 0 ≤ p →
  0 ≤ UniqueCrashBonusUnitsForSplit p sp ≤ p / 10 ∧ UniqueCrashBonusUnitsForSplit p sp ≤ HuntUniqueCrashBonusMaxUnits.
Proof.
  intros Hp. pose proof (Z.div_pos p 10 Hp ltac:(lia)).
  unfold UniqueCrashBonusUnitsForSplit, uniqueCrashBonusUnitsCapped, UniqueCrashBonusUnits.
  pose proof (capped_bonus_ok p HuntUniqueCrashBonusMaxUnits Hp ltac:(done)).
  pose proof (capped_bonus_ok p UniqueCrashBonusMaxUnits Hp ltac:(done)).
  unfold HuntUniqueCrashBonusMaxUnits, UniqueCrashBonusMaxUnits in *.
  destruct (String.eqb sp _); repeat case_match; lia.
Qed.

Lemma HuntBountyPayoutUnits_ok rem sev m f : 0 ≤ rem < 2 ^ 53 → HuntBountyPayoutUnits rem sev = Some (m, f) →
  0 ≤ m ∧ 0 ≤ f ∧ MinPerRunUnits ≤ m + f ≤ rem ∧
  (m + f = rem ∧ trim_space (to_lower sev) = "critical" ∨
   m + f = rem * 6 / 10 ∧ trim_space (to_lower sev) = "high").
Proof.
  intros Hr H. unfold HuntBountyPayoutUnits, HuntBountyShare in H. cbv zeta in H.
  destruct (String.eqb_spec (trim_space (to_lower sev)) "critical") as [E|E].
  - change (f_leb (f_of_Z 1) (f_of_Z 0)) with false in H. change (f_leb (f_of_Z 1) (f_of_Z 1)) with true in H.
    cbn [orb] in H. cbv iota in H. destruct (rem =? 0); [discriminate H|].
    destruct (Z.ltb_spec rem MinPerRunUnits); [discriminate H|].
    destruct (BountyPayoutUnits rem) as [a b] eqn:Eb. injection H as <- <-.
    apply BountyPayoutUnits_ok in Eb; [|lia]. split_and!; try lia. left. split; [lia|done].
  - destruct (String.eqb_spec (trim_space (to_lower sev)) "high") as [E'|E'].
    + replace (f_leb (lit 6 10) (f_of_Z 0)) with false in H by (symmetry; vm_compute; reflexivity).
      replace (f_leb (f_of_Z 1) (lit 6 10)) with false in H by (symmetry; vm_compute; reflexivity).
      replace (f_leb (lit 6 10) (lit 6 10)) with true in H by (symmetry; vm_compute; reflexivity).
      cbn [orb] in H. destruct (rem =? 0); [discriminate H|]. rewrite u64_small in H by (unfold two64; lia).
      assert (0 ≤ rem * 6 / 10 ≤ rem) by (split; [apply Z.div_pos; lia|apply Z.div_le_upper_bound; lia]).
      destruct (Z.ltb_spec (rem * 6 / 10) MinPerRunUnits); [discriminate H|].
      destruct (BountyPayoutUnits (rem * 6 / 10)) as [a b] eqn:Eb. injection H as <- <-.
      apply BountyPayoutUnits_ok in Eb; [|lia]. split_and!; try lia. right. split; [lia|done].
    + change (f_leb (f_of_Z 0) (f_of_Z 0)) with true in H. cbn [orb] in H. done.
Qed.

(** A budget the code accepts is below [2^53] units, so all its arithmetic is exact. *)
Lemma budget_mant b : f_leb b (f_of_Z 0) = false → (0 < mant b)%Z.
Proof.
  intros H%f_leb_false. change (toQ (f_of_Z 0)) with 0%Q in H. unfold toQ in H.
  pose proof (pow2_pos (expo b)) as P. apply Z.lt_nge. intros C.
  assert (inject_Z (mant b) <= 0)%Q by (change 0%Q with (inject_Z 0); by rewrite <- Zle_Qle).
  apply (Qlt_not_le _ _ H). rewrite <- (Qmult_0_l (Qpower 2 (expo b))).
  apply Qmult_le_compat_r; [done|by apply Qlt_le_weak].
Qed.

Lemma max_budget_value : toQ MaxCampaignBudgetHMC == 500 # 1.
Proof. vm_compute. reflexivity. Qed.

Lemma budget_scaled (b p a : Q) : (0 <= b <= 500 # 1 →
  (1 - ulp) * (b * (100000000 # 1)) <= p <= (1 + ulp) * (b * (100000000 # 1)) →
  (1 - ulp) * (p + (1 # 2)) <= a <= (1 + ulp) * (p + (1 # 2)) →
  a < 50000000010 # 1)%Q.
Proof. unfold ulp. intros. lra. Qed.

Lemma budget_units b : f_ltb MaxCampaignBudgetHMC b = false → 0 ≤ HMCToUnits b < 2 ^ 53.
Proof.
  intros Hb%f_ltb_false. rewrite max_budget_value in Hb. unfold HMCToUnits.
  destruct (f_leb b (f_of_Z 0)) eqn:E0; [lia|]. apply budget_mant in E0.
  assert (H0 : (0 <= toQ b)%Q) by (apply toQ_nonneg; lia).
  pose proof (toQ_mul b (f_of_Z UnitsPerHMC) ltac:(lia) units_nonneg) as Hp. rewrite units_value in Hp.
  pose proof (mant_mul b (f_of_Z UnitsPerHMC) ltac:(lia) units_nonneg) as Hm.
  set (p := f_mul b (f_of_Z UnitsPerHMC)) in *.
  pose proof (toQ_add p (lit 1 2) Hm half_nonneg) as Ha. rewrite f_half_value in Ha.
  pose proof (mant_add p (lit 1 2) Hm half_nonneg) as Hm2.
  pose proof (budget_scaled _ _ _ (conj H0 Hb) Hp Ha) as L.
  split; [by apply f_trunc_nonneg|]. apply (Z.le_lt_trans _ 50000000010); [|lia].
  apply f_trunc_le; [done|]. apply (Qlt_trans _ _ _ L). change (inject_Z 50000000010) with (50000000010 # 1). lra.
Qed.

(** The platform part of a bounty is 5% of the slice, to the unit. *)
Lemma bounty_rate_value : (0 <= toQ BountyPlatformFeeRate)%Q ∧
  ((1 - ulp) * (1 # 20) <= toQ BountyPlatformFeeRate <= (1 + ulp) * (1 # 20))%Q.
Proof. split_and!; vm_compute; discriminate. Qed.

Lemma rate_lower (p r m : Q) : (0 <= p <= 9007199254740992 # 1 → (1 - ulp) * (1 # 20) <= r →
  (1 - ulp) * (p * r) <= m → p * (1 # 20) - (1 # 5) <= m)%Q.
Proof. unfold ulp. intros. nra. Qed.
Lemma rate_upper (p r m : Q) : (0 <= p <= 9007199254740992 # 1 → r <= (1 + ulp) * (1 # 20) →
  m <= (1 + ulp) * (p * r) → m <= p * (1 # 20) + (1 # 5))%Q.
Proof. unfold ulp. intros. nra. Qed.

Lemma rate_trunc (p t x : Q) : (t <= x → x < t + 1 → p * (1 # 20) - (1 # 5) <= x →
  x <= p * (1 # 20) + (1 # 5) → (20 # 1) * t <= p + (4 # 1) ∧ p + (- 24 # 1) <= (20 # 1) * t)%Q.
Proof. intros. split; lra. Qed.

Lemma BountyPayoutUnits_rate p m f : 0 ≤ p < 2 ^ 53 → BountyPayoutUnits p = (m, f) →
  20 * f ≤ p + 4 ∧ p - 24 ≤ 20 * f.
Proof.
  intros Hp H. unfold BountyPayoutUnits in H. cbv zeta in H.
  destruct bounty_rate_value as (R0 & R1 & R2). destruct bounty_rate_small as (M1 & _).
  pose proof (mant_of_Z p ltac:(lia)) as Mp. pose proof (mant_mul _ _ Mp M1) as Mm.
  pose proof (toQ_mul (f_of_Z p) BountyPlatformFeeRate Mp M1) as [L U].
  pose proof (f_trunc_spec (f_mul (f_of_Z p) BountyPlatformFeeRate) Mm) as [T1 T2].
  rewrite toQ_of_Z_exact in L, U by lia. set (x := toQ (f_mul _ _)) in *. set (t := f_trunc _) in *.
  assert (P : (0 <= inject_Z p <= 9007199254740992 # 1)%Q).
  { change (9007199254740992 # 1)%Q with (inject_Z (2 ^ 53)). change 0%Q with (inject_Z 0). rewrite <- !Zle_Qle. lia. }
  pose proof (rate_lower _ _ _ P R1 L) as A. pose proof (rate_upper _ _ _ P R2 U) as B.
  clear L U R1 R2 P. clearbody x.
  assert (20 * t ≤ p + 4 ∧ p - 24 ≤ 20 * t) as [C D].
  { destruct (rate_trunc _ _ _ T1 T2 A B) as [C D].
    split; rewrite Zle_Qle; unfold Z.sub; rewrite ?inject_Z_plus, ?inject_Z_mult; assumption. }
  destruct (Z.ltb_spec p t); injection H as _ <-; lia.
Qed.

(** * Properties *)

(** A campaign budget is split without losing a unit. For every total the code accepts (below
    [2^53] units), the 20/80, 40/60 and 50/50 splits put exactly [total/5], [total*2/5] and
    [total/2] units into the runs pool and the rest into the bounty pool, pay each run the floor
    of the pool over the run count - at least the minimum, and never more than the pool over all
    runs - and refuse run counts outside 8..10,000,000. A bounty slice divides exactly into a
    miner part and a platform part of 5%, to within a unit; a hunt bounty pays at most what
    remains, and only for severity high or critical; a crash bonus is at most a tenth of the
    pool and at most 5,000,000 units. *)
Theorem escrow_split_exact total runs s : 0 ≤ total < 2 ^ 53 →
  (ComputeSplitUnits total runs = Ok s → split_ok total runs (total / 5) MinPerRunUnits s) ∧
  (ComputeSplitUnitsShare total runs DeepRunsPoolShare = Ok s →
     split_ok total runs (total * 2 / 5) MinPerRunUnits s) ∧
  (ComputeHuntSplitUnits total runs = Ok s → split_ok total runs (total / 2) HuntMinPerShardUnits s) ∧
  (∀ m f, BountyPayoutUnits total = (m, f) →
     m + f = total ∧ 0 ≤ m ∧ 0 ≤ f ∧ 20 * f ≤ total + 4 ∧ total - 24 ≤ 20 * f) ∧
  (∀ sev m f, HuntBountyPayoutUnits total sev = Some (m, f) →
     0 ≤ m ∧ 0 ≤ f ∧ MinPerRunUnits ≤ m + f ≤ total ∧
     (m + f = total ∧ trim_space (to_lower sev) = "critical" ∨
      m + f = total * 6 / 10 ∧ trim_space (to_lower sev) = "high")) ∧
  (∀ sp, 0 ≤ UniqueCrashBonusUnitsForSplit total sp ≤ total / 10 ∧
     UniqueCrashBonusUnitsForSplit total sp ≤ HuntUniqueCrashBonusMaxUnits).
Proof.
  intros Ht. split_and!.
  - apply ComputeSplitUnits_ok. unfold two64. lia.
  - apply ComputeSplitUnitsDeep_ok. unfold two63. lia.
  - by apply ComputeHuntSplitUnits_ok.
  - intros m f E. destruct (BountyPayoutUnits_ok total m f ltac:(lia) E) as (A & B & C).
    destruct (BountyPayoutUnits_rate total m f Ht E). done.
  - intros sev m f. by apply HuntBountyPayoutUnits_ok.
  - intros sp. apply UniqueCrashBonusUnitsForSplit_ok. lia.
Qed.

Lemma escrow_split_exact_witness :
  ComputeHuntSplitUnits 2500000001 100 = Ok (mkSplitUnits 2500000001 1250000000 1250000001 12500000) ∧
  split_ok 2500000001 100 (2500000001 / 2) HuntMinPerShardUnits
    (mkSplitUnits 2500000001 1250000000 1250000001 12500000).
Proof.
  assert (E : ComputeHuntSplitUnits 2500000001 100 = Ok (mkSplitUnits 2500000001 1250000000 1250000001 12500000))
    by (vm_compute; reflexivity).
  split; [exact E|].
  destruct (escrow_split_exact 2500000001 100 (mkSplitUnits 2500000001 1250000000 1250000001 12500000)
    ltac:(lia)) as (_ & _ & A & _). exact (A E).
Defined.
