(* ===== verification/FuzzEscrow.v ===== *)
(** Campaign escrow: opening with the order fee, run, bounty and bonus payouts, settle events,
    finalize, cancel, reopen, and the rollback of an unstarted escrow.

    Sources: internal/chain/fuzz_escrow.go, fuzz_settle_once.go, fuzz_settle_applied.go,
    hunt_floor_pay.go and applyOrderFeeV2Tx of order_fee_v2.go.  [now] is [time.Now().Unix()],
    [strict] is the dual-ledger switch of checkEconomicInvariants.  Operations that return the row
    are modelled by the state they leave; [fuzzEscrowPublic] renders a row. *)
From S2P Require Import Prelude Float64 GoText Params Emission OrderFee Json GoNum Ledger Address GoSort Transfers Lane SupLedger EscrowSplit.

Definition ErrFuzzEscrowNotFound : string := "chain: fuzz escrow not found".
Definition ErrFuzzEscrowClosed : string := "chain: fuzz escrow closed".
Definition ErrFuzzEscrowDepleted : string := "chain: fuzz escrow pool depleted".
Definition ErrFuzzEscrowAlreadyPaid : string := "chain: fuzz bounty already paid".
Definition ErrFuzzInsufficientBalance : string := "chain: insufficient wallet balance for fuzz escrow".
Definition ErrFuzzWalletMissing : string := "chain: genesis required (wallet row missing)".
Definition ErrFuzzEscrowStarted : string := "chain: fuzz escrow already has payouts".

(** * Money primitives *)

(** Credit an account, and the wallet row when it is the primary wallet's. *)
Definition creditUnits (addr : string) (units : Z) : tx DB unit :=
  let addr := trim_space addr in
  if String.eqb addr "" || (units =? 0) then ret tt
  else
    let* d := get in
    match accounts d !! addr with
    | Some a => if two64 - 1 - units <? balance_units a then fail "chain: balance overflow" else ret tt
    | None => ret tt
    end ;;;
    sql_u64 units ;;;
    upsert_account (mkAccount units 0 0 0 0 0) (λ a, set_hmc (balance_units a + units) a) addr ;;;
    let* w := wallet_row ErrNoRows in
    if String.eqb addr (trim_space (w_address w)) then update_wallet (λ u, u + units) else ret tt.

(** Debit the primary wallet in both ledgers. *)
Definition debit_primary (walletAddr : string) (units : Z) : tx DB unit :=
  sql_u64 units ;;;
  update_wallet (λ u, u - units) ;;;
  update_account (λ a, set_hmc (balance_units a - units) a) walletAddr.

Definition econ_guard `{ChainParams} (strict : bool) : tx DB unit :=
  let* d := get in lift (checkEconomicInvariants strict d).

(** Booking an order fee; the payer was debited by the caller. *)
Definition applyOrderFeeV2Tx `{Crypto} (now : Z) (walletAddr : string) (f : OrderFeeV2) (ref : string)
    : tx DB unit :=
  if String.eqb (Asset f) FeeAssetSUP then
    if SUPUnits f =? 0 then ret tt
    else burnSUPForFeeTx now walletAddr (SUPUnits f) SUPFeeProductHMCOrder ref
  else
    (if 0 <? PlatformUnits f then creditUnits DevFeeAddress (PlatformUnits f) else ret tt) ;;;
    if 0 <? BurnUnits f then
      let* d := get in
      let '(minted, burned) := econTotalsUnits d in
      book_burn (u64 (burned + BurnUnits f)) minted
    else ret tt.

(** * Opening *)

Definition min_budget (escrowSplit : string) : f64 :=
  if String.eqb escrowSplit EscrowSplit5050 then HuntMinLiteBudgetHMC
  else if String.eqb escrowSplit EscrowSplit4060 then MinDeepCampaignBudgetHMC
  else MinCampaignBudgetHMC.

(** The stored split name, and its computation. *)
Definition compute_split (escrowSplit : string) (total budgetRuns : Z) : string * result SplitUnits :=
  if String.eqb escrowSplit EscrowSplit5050 then (escrowSplit, ComputeHuntSplitUnits total budgetRuns)
  else if String.eqb escrowSplit EscrowSplit4060
  then (escrowSplit, ComputeSplitUnitsShare total budgetRuns DeepRunsPoolShare)
  else (EscrowSplit2080, ComputeSplitUnits total budgetRuns).

Definition no_fee : OrderFeeV2 := {| Asset := ""; BurnUnits := 0; PlatformUnits := 0; SUPUnits := 0 |}.

(** The fee and the escrowed units of a price. *)
Definition escrow_price `{ChainParams} (tipH total : Z) (asset : string) : result (OrderFeeV2 * Z) :=
  if EconomicsV2ActiveForIndex (u64 (tipH + 1)) then OrderFeeV2FromPrice tipH total asset
  else if negb (String.eqb asset FeeAssetHMC) then Err "chain: fee_asset SUP requires Economics v2"
  else Ok (no_fee, total).

Definition campaign_ref (campaignID : string) : string := "campaign:" +:+ campaignID.

(** The database transaction of an open. *)
Definition open_escrow_tx `{ChainParams} `{Crypto} (strict : bool) (now : Z) (campaignID : string)
    (fee : OrderFeeV2) (split : SplitUnits) (budgetRuns : Z) (splitName : string) : tx DB unit :=
  let* d := get in
  match escrows d !! campaignID with
  | Some _ => fail "chain: fuzz escrow already exists"
  | None =>
      let* w := wallet_row ErrFuzzWalletMissing in
      let walletAddr := w_address w in
      let debitUnits := u64 (TotalUnits split + HMCUnits fee) in
      if w_units w <? debitUnits then fail ErrFuzzInsufficientBalance
      else match accounts d !! walletAddr with
      | None => fail ErrFuzzInsufficientBalance
      | Some a =>
          if balance_units a <? debitUnits then fail ErrFuzzInsufficientBalance
          else
            debit_primary walletAddr debitUnits ;;;
            (if negb (String.eqb (Asset fee) "")
             then applyOrderFeeV2Tx now walletAddr fee (campaign_ref campaignID) else ret tt) ;;;
            sql_u64 (TotalUnits split) ;;; sql_u64 (RunsPoolUnits split) ;;;
            sql_u64 (BountyPoolUnits split) ;;; sql_u64 (PerRunUnits split) ;;;
            sql_u64 (BurnUnits fee) ;;; sql_u64 (PlatformUnits fee) ;;; sql_u64 (SUPUnits fee) ;;;
            modify (λ d, set_escrows (<[campaignID :=
              mkEscrowRow (TotalUnits split) (RunsPoolUnits split) (BountyPoolUnits split) 0 0 0 0
                budgetRuns (PerRunUnits split) "" "open" 0 now splitName fee]> (escrows d)) d) ;;;
            econ_guard strict
      end
  end.

Definition OpenFuzzEscrowWithFee `{ChainParams} `{Crypto} (e : Env) (signer : option string) (strict : bool)
    (now : Z) (campaignID : string) (budgetHMC : f64) (budgetRuns : Z) (escrowSplit feeAsset : string)
    : tx DB unit :=
  let* asset := lift (NormalizeFeeAsset feeAsset) in
  lift (checkFeeAssetAllowed e signer asset) ;;;
  let campaignID := trim_space campaignID in
  if String.eqb campaignID "" then fail "chain: campaign_id required"
  else if f_ltb budgetHMC (min_budget escrowSplit) then fail "fuzz escrow: budget below minimum"
  else if f_ltb MaxCampaignBudgetHMC budgetHMC then fail "fuzz escrow: budget above maximum"
  else
    let total := HMCToUnits budgetHMC in
    if total =? 0 then fail "fuzz escrow: budget rounds to zero units"
    else
      let* d := get in
      let* priced := lift (escrow_price (tip_height d) total asset) in
      let '(fee, total) := priced in
      let '(splitName, split) := compute_split escrowSplit total budgetRuns in
      let* split := lift split in
      open_escrow_tx strict now campaignID fee split budgetRuns splitName.

Definition OpenFuzzEscrowSplit `{ChainParams} `{Crypto} e signer strict now campaignID budgetHMC budgetRuns escrowSplit :=
  OpenFuzzEscrowWithFee e signer strict now campaignID budgetHMC budgetRuns escrowSplit FeeAssetHMC.
Definition OpenFuzzEscrow `{ChainParams} `{Crypto} e signer strict now campaignID budgetHMC budgetRuns :=
  OpenFuzzEscrowSplit e signer strict now campaignID budgetHMC budgetRuns EscrowSplit2080.
Definition OpenHuntEscrow `{ChainParams} `{Crypto} e signer strict now campaignID budgetHMC budgetShards :=
  OpenFuzzEscrowSplit e signer strict now campaignID budgetHMC budgetShards EscrowSplit5050.

(** * Payouts *)

Definition lockFuzzEscrowTx (campaignID : string) : tx DB EscrowRow :=
  let* d := get in
  match escrows d !! campaignID with Some r => ret r | None => fail ErrFuzzEscrowNotFound end.

(** The bounty pool still held: pool less paid slice, crash bonus and refunds. *)
Definition bountyLeftUnits (r : EscrowRow) : Z :=
  let used := u64 (u64 (bountyPaidUnits r + crashBonusPaidUnits r) + refundedBountyUnits r) in
  if bountyPoolUnits r <=? used then 0 else u64 (bountyPoolUnits r - used).

(** [UPDATE fuzz_campaign_escrow SET ... WHERE campaign_id = ?] *)
Definition update_escrow (campaignID : string) (f : EscrowRow → EscrowRow) : tx DB unit :=
  modify (λ d, set_escrows (alter f campaignID (escrows d)) d).

Definition add_run (pay : Z) (r : EscrowRow) : EscrowRow :=
  mkEscrowRow (budgetUnits r) (runsPoolUnits r) (bountyPoolUnits r) (runsPaidUnits r + pay)
    (bountyPaidUnits r) (crashBonusPaidUnits r) (runsDone r + 1) (budgetRuns r) (perRunUnits r)
    (findingWinner r) (status r) (refundedBountyUnits r) (createdAt r) (escrowSplit r) (e_fee r).
Definition set_crash (bonus : Z) (r : EscrowRow) : EscrowRow :=
  mkEscrowRow (budgetUnits r) (runsPoolUnits r) (bountyPoolUnits r) (runsPaidUnits r)
    (bountyPaidUnits r) bonus (runsDone r) (budgetRuns r) (perRunUnits r)
    (findingWinner r) (status r) (refundedBountyUnits r) (createdAt r) (escrowSplit r) (e_fee r).
Definition set_bounty (paid : Z) (winner : string) (r : EscrowRow) : EscrowRow :=
  mkEscrowRow (budgetUnits r) (runsPoolUnits r) (bountyPoolUnits r) (runsPaidUnits r)
    paid (crashBonusPaidUnits r) (runsDone r) (budgetRuns r) (perRunUnits r)
    winner "bounty_paid" (refundedBountyUnits r) (createdAt r) (escrowSplit r) (e_fee r).
Definition close_row (refund : Z) (r : EscrowRow) : EscrowRow :=
  mkEscrowRow (budgetUnits r) (runsPoolUnits r) (bountyPoolUnits r) (runsPaidUnits r)
    (bountyPaidUnits r) (crashBonusPaidUnits r) (runsDone r) (budgetRuns r) (perRunUnits r)
    (findingWinner r) "closed" (refundedBountyUnits r + refund) (createdAt r) (escrowSplit r) (e_fee r).
Definition reopen_row (r : EscrowRow) : EscrowRow :=
  mkEscrowRow (budgetUnits r) (runsPoolUnits r) (bountyPoolUnits r) (runsPaidUnits r)
    (bountyPaidUnits r) (crashBonusPaidUnits r) (runsDone r) (budgetRuns r) (perRunUnits r)
    (findingWinner r) "open" (refundedBountyUnits r) (createdAt r) (escrowSplit r) (e_fee r).

Definition valid_miner (minerAddress : string) : bool :=
  has_prefix minerAddress "HMC-" && (str_len minerAddress =? 20).

Definition DefaultHuntEngineFloorPayBPS : Z := 1000.
Definition HuntEngineFloorPayBPS (e : Env) : Z :=
  let v := trim_space (HACKME_HUNT_ENGINE_FLOOR_PAY_BPS e) in
  if String.eqb v "" then DefaultHuntEngineFloorPayBPS
  else match atoi v with
  | None => DefaultHuntEngineFloorPayBPS
  | Some n => if n <? 1 then DefaultHuntEngineFloorPayBPS else if 10000 <? n then 10000 else n
  end.

(** The slice one run pays, before it is cut to what is left of the pool. *)
Definition run_slice (perRun floorBPS : Z) : Z :=
  if 0 <? floorBPS then
    let pay := u64 (perRun * floorBPS) / 10000 in
    if (pay =? 0) && (0 <? perRun) then 1 else pay
  else perRun.

Definition payFuzzRunAmountTx (campaignID minerAddress : string) (floorBPS : Z) : tx DB unit :=
  if negb (valid_miner minerAddress) then fail "chain: valid miner_address required"
  else
    let* row := lockFuzzEscrowTx campaignID in
    if negb (String.eqb (status row) "open") && negb (String.eqb (status row) "bounty_paid")
    then fail ErrFuzzEscrowClosed
    else
      let pay := run_slice (perRunUnits row) floorBPS in
      let pay := if runsPoolUnits row <? u64 (runsPaidUnits row + pay)
                 then u64 (runsPoolUnits row - runsPaidUnits row) else pay in
      if pay =? 0 then fail ErrFuzzEscrowDepleted
      else
        creditUnits minerAddress pay ;;;
        sql_u64 pay ;;;
        update_escrow campaignID (add_run pay).

Definition payFuzzRunTx (campaignID minerAddress : string) : tx DB unit :=
  payFuzzRunAmountTx campaignID minerAddress 0.
Definition payFuzzRunFloorTx (e : Env) (campaignID minerAddress : string) : tx DB unit :=
  payFuzzRunAmountTx campaignID minerAddress (HuntEngineFloorPayBPS e).

Definition payFuzzCrashBonusTx (campaignID minerAddress : string) : tx DB unit :=
  if negb (valid_miner minerAddress) then fail "chain: valid miner_address required"
  else
    let* row := lockFuzzEscrowTx campaignID in
    if negb (String.eqb (status row) "open") && negb (String.eqb (status row) "bounty_paid")
    then fail ErrFuzzEscrowClosed
    else if 0 <? crashBonusPaidUnits row then fail ErrFuzzEscrowAlreadyPaid
    else if 0 <? refundedBountyUnits row then fail ErrFuzzEscrowDepleted
    else
      let remaining := u64 (bountyPoolUnits row - bountyPaidUnits row) in
      if (remaining =? 0) || (bountyPoolUnits row <? bountyPaidUnits row) then fail ErrFuzzEscrowDepleted
      else
        let bonus := UniqueCrashBonusUnitsForSplit (bountyPoolUnits row) (escrowSplit row) in
        if (bonus =? 0) || (remaining <? bonus) then fail ErrFuzzEscrowDepleted
        else
          creditUnits minerAddress bonus ;;;
          sql_u64 bonus ;;;
          update_escrow campaignID (set_crash bonus).

(** The miner part, the platform part and the slice a bounty takes from the pool. *)
Definition bounty_parts (split : string) (remaining : Z) (severity : string) : result (Z * Z * Z) :=
  if String.eqb split EscrowSplit5050 then
    match HuntBountyPayoutUnits remaining severity with
    | None => Err "chain: hunt bounty not payable for severity"
    | Some (minerUnits, feeUnits) => Ok (minerUnits, feeUnits, u64 (minerUnits + feeUnits))
    end
  else
    let '(minerUnits, feeUnits) := BountyPayoutUnits remaining in
    Ok (minerUnits, feeUnits, remaining).

Definition payFuzzBountyTx (campaignID minerAddress severity : string) : tx DB unit :=
  if negb (valid_miner minerAddress) then fail "chain: valid miner_address required"
  else if negb (String.eqb severity "high") && negb (String.eqb severity "critical")
          && negb (String.eqb severity "medium")
  then fail "chain: bounty severity must be medium|high|critical"
  else
    let* row := lockFuzzEscrowTx campaignID in
    if String.eqb (status row) "bounty_paid" then fail ErrFuzzEscrowAlreadyPaid
    else if negb (String.eqb (status row) "open") then fail ErrFuzzEscrowClosed
    else if (0 <? bountyPaidUnits row) || negb (String.eqb (findingWinner row) "") then fail ErrFuzzEscrowAlreadyPaid
    else if 0 <? refundedBountyUnits row then fail ErrFuzzEscrowDepleted
    else
      let remaining := u64 (bountyPoolUnits row - crashBonusPaidUnits row) in
      if (remaining =? 0) || (bountyPoolUnits row <? crashBonusPaidUnits row) then fail ErrFuzzEscrowDepleted
      else
        let* parts := lift (bounty_parts (escrowSplit row) remaining severity) in
        let '(minerUnits, feeUnits, paidSlice) := parts in
        creditUnits minerAddress minerUnits ;;;
        (if 0 <? feeUnits then creditUnits DevFeeAddress feeUnits else ret tt) ;;;
        sql_u64 paidSlice ;;;
        update_escrow campaignID (set_bounty paidSlice minerAddress).

(** The public payouts, each its own database transaction. *)
Definition PayFuzzRun (campaignID minerAddress : string) : tx DB unit :=
  payFuzzRunTx (trim_space campaignID) (trim_space minerAddress).
Definition PayFuzzBounty (campaignID minerAddress severity : string) : tx DB unit :=
  payFuzzBountyTx (trim_space campaignID) (trim_space minerAddress) (trim_space (to_lower severity)).
Definition PayFuzzCrashBonus (campaignID minerAddress : string) : tx DB unit :=
  payFuzzCrashBonusTx (trim_space campaignID) (trim_space minerAddress).

(** * Closing and reopening *)

(** Refund what is left and close. *)
Definition close_escrow `{ChainParams} (strict : bool) (campaignID : string) (row : EscrowRow) : tx DB unit :=
  let runsRefund := u64 (runsPoolUnits row - runsPaidUnits row) in
  let bountyRefund := bountyLeftUnits row in
  let refund := u64 (runsRefund + bountyRefund) in
  (if 0 <? refund then
     let* w := wallet_row ErrNoRows in creditUnits (w_address w) refund
   else ret tt) ;;;
  sql_u64 bountyRefund ;;;
  update_escrow campaignID (close_row bountyRefund) ;;;
  econ_guard strict.

Definition finalizeFuzzEscrowTx `{ChainParams} (strict : bool) (campaignID : string) : tx DB unit :=
  let* row := lockFuzzEscrowTx campaignID in
  if String.eqb (status row) "closed" then ret tt else close_escrow strict campaignID row.

Definition CancelFuzzEscrow `{ChainParams} (strict : bool) (campaignID : string) : tx DB unit :=
  let campaignID := trim_space campaignID in
  let* row := lockFuzzEscrowTx campaignID in
  if String.eqb (status row) "closed" then ret tt else close_escrow strict campaignID row.

Definition FinalizeFuzzEscrow `{ChainParams} (strict : bool) (campaignID : string) : tx DB unit :=
  let campaignID := trim_space campaignID in
  let* row := lockFuzzEscrowTx campaignID in
  if String.eqb (status row) "closed" then ret tt else finalizeFuzzEscrowTx strict campaignID.

Definition ReopenFuzzEscrowForSettleDrain `{ChainParams} (strict : bool) (campaignID : string) : tx DB unit :=
  let campaignID := trim_space campaignID in
  if String.eqb campaignID "" then fail "chain: campaign_id required"
  else
    let* row := lockFuzzEscrowTx campaignID in
    if negb (String.eqb (status row) "closed") then fail "chain: reopen settle drain requires closed escrow"
    else
      let need := if runsPaidUnits row <? runsPoolUnits row then runsPoolUnits row - runsPaidUnits row else 0 in
      if need =? 0 then fail "chain: no unpaid run pool to re-lock"
      else
        let* w := wallet_row ErrNoRows in
        if w_units w <? need then fail ErrFuzzInsufficientBalance
        else
          let* d := get in
          match accounts d !! w_address w with
          | None => fail ErrNoRows
          | Some a =>
              if balance_units a <? need then fail ErrFuzzInsufficientBalance
              else
                debit_primary (w_address w) need ;;;
                update_escrow campaignID reopen_row ;;;
                econ_guard strict
          end.

(** Undo an escrow that never paid anything: its units and its whole fee go back. *)
Definition take_back_platform (walletAddr : string) (feePlatform : Z) : tx DB unit :=
  let* d := get in
  match accounts d !! DevFeeAddress with
  | None => fail "chain: cannot take back platform fee (dev balance)"
  | Some a =>
      if balance_units a <? feePlatform then fail "chain: cannot take back platform fee (dev balance)"
      else
        sql_u64 feePlatform ;;;
        update_account (λ a, set_hmc (balance_units a - feePlatform) a) DevFeeAddress ;;;
        if String.eqb DevFeeAddress walletAddr then update_wallet (λ u, u - feePlatform) else ret tt
  end.

Definition reverse_burn (feeBurn : Z) : tx DB unit :=
  let* d := get in
  let '(minted, burned) := econTotalsUnits d in
  if burned <? feeBurn then fail "chain: burn counter below campaign burn"
  else book_burn (u64 (burned - feeBurn)) minted.

(** [UPDATE sup_tx_history SET status='reverted', tx_hash=tx_hash||':reverted:'||now]; renaming onto
    an existing row violates the primary key. *)
Definition revert_sup_row (key : string) (now : Z) : tx DB unit :=
  let* d := get in
  match sup_tx_history d !! key with
  | None => ret tt
  | Some r =>
      let key' := key +:+ ":reverted:" +:+ fmt_int now in
      match sup_tx_history d !! key' with
      | Some _ => fail "UNIQUE constraint failed"
      | None =>
          put (set_sup_history (<[key' := mkHistRow (h_from r) (h_to r) (h_nonce r) (h_fee r) (h_amount r)
            "reverted" (h_block r) (h_block_hash r) (h_applied_at r) (h_reject r) (h_memo r)]>
            (delete key (sup_tx_history d))) d)
      end
  end.

Definition reverse_sup_fee `{Crypto} (now : Z) (walletAddr campaignID : string) (feeSUP : Z) : tx DB unit :=
  let* d := get in
  let burned := supTotalBurnedUnits d in
  if burned <? feeSUP then fail "chain: SUP burn counter below campaign fee"
  else
    upsertMetaUint metaSUPTotalBurnedUnits (u64 (burned - feeSUP)) ;;;
    sql_u64 feeSUP ;;;
    update_account (λ a, set_sup (balance_sup_units a + feeSUP) a) walletAddr ;;;
    revert_sup_row (supFeeRefKey SUPFeeProductHMCOrder walletAddr (campaign_ref campaignID)) now.

Definition RollbackUnstartedFuzzEscrow `{ChainParams} `{Crypto} (strict : bool) (now : Z) (campaignID : string)
    : tx DB unit :=
  let campaignID := trim_space campaignID in
  let* d := get in
  match escrows d !! campaignID with
  | None => ret tt
  | Some r =>
      if negb (String.eqb (status r) "open") || negb (runsPaidUnits r =? 0) || negb (bountyPaidUnits r =? 0)
         || negb (crashBonusPaidUnits r =? 0) || negb (refundedBountyUnits r =? 0)
      then fail ErrFuzzEscrowStarted
      else
        let* w := wallet_row ErrNoRows in
        let walletAddr := w_address w in
        let fee := e_fee r in
        let hmcFee := String.eqb (Asset fee) FeeAssetHMC in
        (if hmcFee && (0 <? PlatformUnits fee) then take_back_platform walletAddr (PlatformUnits fee) else ret tt) ;;;
        (if hmcFee && (0 <? BurnUnits fee) then reverse_burn (BurnUnits fee) else ret tt) ;;;
        (if String.eqb (Asset fee) FeeAssetSUP && (0 <? SUPUnits fee)
         then reverse_sup_fee now walletAddr campaignID (SUPUnits fee) else ret tt) ;;;
        let refund := budgetUnits r in
        let refund := if hmcFee && (0 <? PlatformUnits fee) then u64 (refund + PlatformUnits fee) else refund in
        let refund := if hmcFee && (0 <? BurnUnits fee) then u64 (refund + BurnUnits fee) else refund in
        creditUnits walletAddr refund ;;;
        modify (λ d, set_escrows (delete campaignID (escrows d)) d) ;;;
        econ_guard strict
  end.

(** * Settle events *)

Definition FuzzSettleEventID (campaignID : string) (outboxID : Z) : string :=
  let campaignID := trim_space campaignID in
  if String.eqb campaignID "" then "outbox:" +:+ fmt_int outboxID
  else "outbox:" +:+ campaignID +:+ ":" +:+ fmt_int outboxID.

(** [INSERT OR IGNORE]; was the row new? *)
Definition mark_applied (eventID campaignID kind : string) (now : Z) : tx DB bool :=
  let* d := get in
  match settle_applied d !! eventID with
  | Some _ => ret false
  | None => put (set_settle (<[eventID := mkSettleRow campaignID kind now]> (settle_applied d)) d) ;;; ret true
  end.

Definition settle_args_ok (eventID campaignID kind : string) : bool :=
  negb (String.eqb eventID "" || String.eqb campaignID "" || String.eqb kind "").

Definition MarkFuzzSettleApplied (now : Z) (eventID campaignID kind : string) : tx DB bool :=
  let eventID := trim_space eventID in
  let campaignID := trim_space campaignID in
  let kind := trim_space (to_lower kind) in
  if negb (settle_args_ok eventID campaignID kind)
  then fail "chain: settle applied requires event_id, campaign_id, kind"
  else mark_applied eventID campaignID kind now.

Definition UnmarkFuzzSettleApplied (eventID : string) : tx DB unit :=
  let eventID := trim_space eventID in
  if String.eqb eventID "" then ret tt
  else modify (λ d, set_settle (delete eventID (settle_applied d)) d).

Definition HasFuzzSettleApplied (eventID : string) (d : DB) : bool :=
  let eventID := trim_space eventID in
  if String.eqb eventID "" then false else bool_decide (is_Some (settle_applied d !! eventID)).

Definition settle_kind (e : Env) `{ChainParams} (strict : bool) (kind campaignID minerAddress severity : string)
    : tx DB unit :=
  if String.eqb kind "run" then payFuzzRunTx campaignID minerAddress
  else if String.eqb kind "run_floor" then payFuzzRunFloorTx e campaignID minerAddress
  else if String.eqb kind "finding" || String.eqb kind "bounty"
  then payFuzzBountyTx campaignID minerAddress severity
  else if String.eqb kind "crash_bonus" || String.eqb kind "unique_crash"
  then payFuzzCrashBonusTx campaignID minerAddress
  else if String.eqb kind "finalize" || String.eqb kind "close" then finalizeFuzzEscrowTx strict campaignID
  else fail "chain: unknown settle kind".

(** Whether this call applied the event; the mark and the payment commit together. *)
Definition ApplyFuzzSettleOnce (e : Env) `{ChainParams} (strict : bool) (now : Z)
    (eventID kind campaignID minerAddress severity : string) : tx DB bool :=
  let eventID := trim_space eventID in
  let kind := trim_space (to_lower kind) in
  let campaignID := trim_space campaignID in
  let minerAddress := trim_space minerAddress in
  let severity := trim_space (to_lower severity) in
  if negb (settle_args_ok eventID campaignID kind)
  then fail "chain: settle once requires event_id, campaign_id, kind"
  else
    let* newly := mark_applied eventID campaignID kind now in
    if negb newly then ret false
    else settle_kind e strict kind campaignID minerAddress severity ;;; ret true.

(** * Public view *)

Record FuzzEscrowRow := mkFuzzEscrowRow {
  BudgetHMC : f64; RunsPoolHMC : f64; BountyPoolHMC : f64; RunsPaidHMC : f64; BountyPaidHMC : f64;
  CrashBonusPaidHMC : f64; RunsDone : Z; BudgetRuns : Z; FindingWinner : string; Status : string;
  RefundedBountyHMC : f64; SpentRunsHMC : f64; LockedBountyHMC : f64; RunsRemainingHMC : f64;
  RefundableHMC : f64; RefundPath : string;
}.

Definition locked_bounty (r : EscrowRow) : Z :=
  let spent := u64 (bountyPaidUnits r + crashBonusPaidUnits r) in
  if (spent <? bountyPoolUnits r) && negb (String.eqb (status r) "closed") then u64 (bountyPoolUnits r - spent) else 0.
Definition refundable_units (r : EscrowRow) : Z :=
  let runs := if runsPaidUnits r <? runsPoolUnits r then u64 (runsPoolUnits r - runsPaidUnits r) else 0 in
  u64 (runs + locked_bounty r).

Definition fuzzEscrowPublic (r : EscrowRow) : FuzzEscrowRow :=
  let runsRemaining := if runsPaidUnits r <? runsPoolUnits r then u64 (runsPoolUnits r - runsPaidUnits r) else 0 in
  {| BudgetHMC := UnitsToHMC (budgetUnits r); RunsPoolHMC := UnitsToHMC (runsPoolUnits r);
     BountyPoolHMC := UnitsToHMC (bountyPoolUnits r); RunsPaidHMC := UnitsToHMC (runsPaidUnits r);
     BountyPaidHMC := UnitsToHMC (bountyPaidUnits r); CrashBonusPaidHMC := UnitsToHMC (crashBonusPaidUnits r);
     RunsDone := runsDone r; BudgetRuns := budgetRuns r; FindingWinner := findingWinner r;
     Status := status r; RefundedBountyHMC := UnitsToHMC (refundedBountyUnits r);
     SpentRunsHMC := UnitsToHMC (runsPaidUnits r); LockedBountyHMC := UnitsToHMC (locked_bounty r);
     RunsRemainingHMC := UnitsToHMC runsRemaining; RefundableHMC := UnitsToHMC (refundable_units r);
     RefundPath :=
       if String.eqb (status r) "open" then "finalize_or_cancel_refunds_unused_runs_and_locked_bounty"
       else if String.eqb (status r) "bounty_paid" then "finalize_or_cancel_refunds_unused_runs_and_leftover_bounty"
       else if String.eqb (status r) "closed" then "already_closed" else "none" |}.

Definition GetFuzzEscrow (campaignID : string) (d : DB) : result FuzzEscrowRow :=
  match escrows d !! campaignID with Some r => Ok (fuzzEscrowPublic r) | None => Err ErrFuzzEscrowNotFound end.
