(* ===== verification/EscrowInv.v ===== *)
(** Campaign escrow: money is neither created nor lost, whatever sequence of operations runs.

    The facts about the money primitives, the row invariant, and the properties of the operations
    of FuzzEscrow. *)
From S2P Require Import Prelude Float64 GoText Params Emission OrderFee Json Ledger Address GoSort Transfers Lane SupLedger EscrowSplit FuzzEscrow.

(** * Moving HMC

    [moved d d' δ s]: HMC balances change by [δ] per address and [s] in total, the wallet row moves
    with its account, and nothing else changes. *)
Definition hmc_free (g : Account → Z) : Prop := (∀ v a, g (set_hmc v a) = g a) ∧ g empty_account = 0.

Record moved (d d' : DB) (δ : string → Z) (s : Z) : Prop := {
  mv_hmc : col_effect balance_units d d' δ s;
  mv_free : ∀ g, hmc_free g → col_effect g d d' (λ _, 0) 0;
  mv_ok : accounts_ok d';
  mv_wallet : wallet d' = (λ w, mkWallet (w_address w) (w_units w + δ (w_address w))) <$> wallet d;
  mv_rest : d' = set_wallet (wallet d') (set_accounts (accounts d') d);
  mv_dom : ∀ b, is_Some (accounts d !! b) → is_Some (accounts d' !! b);
}.

Lemma moved_none d : accounts_ok d → moved d d (λ _, 0) 0.
Proof.
  intros Hok. split; [by apply col_effect_none|intros; by apply col_effect_none|done| |by destruct d|done].
  destruct (wallet d) as [[a u]|]; cbn; [|done]. by rewrite Z.add_0_r.
Qed.

Lemma moved_trans d1 d2 d3 δ1 δ2 s1 s2 : moved d1 d2 δ1 s1 → moved d2 d3 δ2 s2 →
  moved d1 d3 (λ b, δ1 b + δ2 b) (s1 + s2).
Proof.
  intros [A1 B1 C1 D1 E1 F1] [A2 B2 C2 D2 E2 F2]. split; [|intros g Hg|done| | |auto].
  - by apply (col_effect_trans _ d1 d2 d3).
  - exact (col_effect_trans _ _ _ _ _ _ _ _ (B1 g Hg) (B2 g Hg)).
  - rewrite D2, D1. destruct (wallet d1) as [w|]; cbn; [|done]. by rewrite Z.add_assoc.
  - etransitivity; [exact E2|]. rewrite E1. done.
Qed.

Lemma moved_ext d d' δ δ' s s' : moved d d' δ s → (∀ b, δ b = δ' b) → s = s' → moved d d' δ' s'.
Proof.
  intros [A B C D E F] Hδ <-. split; try done; [by apply (col_effect_ext _ d d' δ δ' s)|].
  rewrite D. destruct (wallet d); cbn; [|done]. by rewrite Hδ.
Qed.

(** What only reads other tables is unchanged. *)
Lemma moved_frame {A} (g : DB → A) d d' δ s :
  (∀ v w x, g (set_wallet w (set_accounts v x)) = g x) → moved d d' δ s → g d' = g d.
Proof. intros Hg M. rewrite (mv_rest _ _ _ _ M). apply Hg. Qed.

Lemma moved_mirrored d d' δ s : moved d d' δ s → mirrored d → mirrored d'.
Proof.
  intros M. unfold mirrored. rewrite (mv_wallet _ _ _ _ M). destruct (wallet d) as [w|]; [|done]. cbn.
  intros E. pose proof (ce_at _ _ _ _ _ (mv_hmc _ _ _ _ M) (w_address w)) as F. unfold hmc in *. lia.
Qed.

(** The primary wallet exists, under a clean address, with an account. *)
Definition wallet_ok (d : DB) : Prop :=
  ∃ w, wallet d = Some w ∧ trim_space (w_address w) = w_address w ∧ w_address w ≠ "" ∧
    is_Some (accounts d !! w_address w).

Lemma moved_wallet_ok d d' δ s : moved d d' δ s → wallet_ok d → wallet_ok d'.
Proof.
  intros M (w & Hw & T & N & A). unfold wallet_ok. rewrite (mv_wallet _ _ _ _ M), Hw. cbn. eexists.
  split_and!; [done..|]. by apply (mv_dom _ _ _ _ M).
Qed.

Lemma moved_upd a f d x v : accounts d !! a = Some x → accounts_ok d →
  (∀ y, f y = set_hmc (balance_units y + v) y) → 0 ≤ balance_units x + v < two63 →
  ∀ d', accounts d' = accounts (upd_account f a d) →
  wallet d' = (λ w, mkWallet (w_address w) (w_units w + at_addr a v (w_address w))) <$> wallet d →
  d' = set_wallet (wallet d') (set_accounts (accounts d') d) →
  moved d d' (at_addr a v) v.
Proof.
  intros Ex Hok Hf Hr d' A W R. split; [|intros g [Hg H0]| |done|done|].
  - destruct (col_effect_upd balance_units a f d x v Ex) as [E S]; [by rewrite Hf|].
    split; [intros b; rewrite A; apply E|]. by rewrite (acct_sum_accounts _ _ _ A).
  - destruct (free_effect_upd g a f d x Ex) as [E S]; [by rewrite Hf, Hg|].
    split; [intros b; rewrite A; apply E|]. by rewrite (acct_sum_accounts _ _ _ A).
  - unfold accounts_ok. rewrite A. apply accounts_ok_upd; [done|]. intros y Ey Hy. rewrite Ex in Ey.
    injection Ey as <-. rewrite Hf. unfold account_ok in *. cbn. lia.
  - intros b Hb. rewrite A, accounts_upd, lookup_alter_is_Some. done.
Qed.

Lemma debit_primary_spec w a v d d' : wallet d = Some w → accounts d !! w_address w = Some a →
  accounts_ok d → 0 ≤ v ≤ balance_units a → debit_primary (w_address w) v d = Ok (tt, d') →
  moved d d' (at_addr (w_address w) (- v)) (- v).
Proof.
  intros Hw Ha Hok Hv H. unfold debit_primary in H. inv_tx H.
  pose proof (Hok _ _ Ha) as K. unfold account_ok in K.
  set (f := λ x : Account, set_hmc (balance_units x - v) x).
  assert (A : accounts (upd_account f (w_address w) (upd_wallet (λ u, u - v) d))
    = accounts (upd_account f (w_address w) d)) by by rewrite !accounts_upd, accounts_updw.
  apply (moved_upd _ f d a); try done; [lia| |].
  - rewrite wallet_upd, wallet_updw, Hw. cbn. by rewrite at_addr_eq.
  - unfold upd_wallet, upd_account. rewrite Hw. cbn. rewrite Ha. by destruct d.
Qed.

Lemma creditUnits_spec a v d d' : wallet_ok d → accounts_ok d → 0 ≤ v → hmc_sum d + v < two63 →
  trim_space a ≠ "" → creditUnits a v d = Ok (tt, d') → moved d d' (at_addr (trim_space a) v) v.
Proof.
  intros (w & Hw & Tw & _ & _) Hok Hv Hs Ha H. unfold creditUnits in H. cbv zeta in H.
  rewrite (proj2 (String.eqb_neq _ _) Ha) in H. cbn [orb] in H. set (t := trim_space a) in *.
  destruct (Z.eqb_spec v 0) as [->|Hne].
  { inv_tx H. eapply moved_ext; [by apply moved_none|intros b; by rewrite at_addr_0|done]. }
  rewrite (bind_run get _ d d d) in H by done. apply bind_ok in H as ([] & d0 & H0 & H).
  assert (d0 = d) as -> by (destruct (accounts d !! t); [destruct (_ <? _)|]; by inv_tx H0). clear H0.
  set (d1 := ups_account (mkAccount v 0 0 0 0 0) (λ x, set_hmc (balance_units x + v) x) t d).
  assert (Hd' : d' = if bool_decide (t = w_address w) then upd_wallet (λ u, u + v) d1 else d1).
  { inv_tx H; cbn in *; simplify_eq; rewrite Tw in *; case_bool_decide; try done.
    - exfalso. match goal with H : String.eqb _ _ = true |- _ => apply String.eqb_eq in H end. done.
    - exfalso. match goal with H : String.eqb _ _ = false |- _ => apply String.eqb_neq in H end. done. }
  clear H. assert (A : accounts d' = accounts d1) by (rewrite Hd'; case_bool_decide; [apply accounts_updw|done]).
  split; [|intros g [Hg H0]| | | |].
  - destruct (col_effect_ups balance_units t (mkAccount v 0 0 0 0 0) (λ x, set_hmc (balance_units x + v) x) d v) as [E S]; [done..|].
    split; [intros b; rewrite A; apply E|]. by rewrite (acct_sum_accounts _ _ _ A).
  - destruct (col_effect_ups g t (mkAccount v 0 0 0 0 0) (λ x, set_hmc (balance_units x + v) x) d 0) as [E S].
    + intros _. change (mkAccount v 0 0 0 0 0) with (set_hmc v empty_account). by rewrite Hg.
    + intros x _. rewrite Hg. lia.
    + split; [intros b; rewrite A, <- (at_addr_0 t b); apply E|]. by rewrite (acct_sum_accounts _ _ _ A).
  - unfold accounts_ok. rewrite A. by apply accounts_ok_credit.
  - rewrite Hd', Hw. unfold at_addr. cbn. case_bool_decide.
    + rewrite wallet_updw. unfold d1. cbn. by rewrite Hw.
    + rewrite Z.add_0_r. unfold d1. cbn. rewrite Hw. by destruct w.
  - rewrite Hd'. case_bool_decide; [|by destruct d]. unfold upd_wallet. cbn. rewrite Hw. by destruct d.
  - intros b Hb. rewrite A. unfold d1. rewrite accounts_ups, lookup_insert_is_Some'. by right.
Qed.

(** * The order fee *)

(** Booking or reversing an HMC burn: the counter moves by [v], and no table but [meta]. *)
Record burn_moved (d d' : DB) (v : Z) : Prop := {
  bm_burned : burned_units d' = burned_units d + v;
  bm_rest : d' = set_meta (meta d') d;
  bm_meta : ∀ k, k ≠ metaTotalBurnedUnits → k ≠ metaTotalBurnedHMC → k ≠ metaTotalMintedHMC →
    meta d' !! k = meta d !! k;
}.

Lemma burn_moved_none d : burn_moved d d 0.
Proof. split; [lia|by destruct d|done]. Qed.

Lemma book_burn_moved b m d d' : 0 ≤ b → book_burn b m d = Ok (tt, d') → burn_moved d d' (b - burned_units d).
Proof.
  intros Hb H. assert (burned_units d' = b) as Hd.
  { destruct (Z.eq_dec b 0) as [->|Hne]; [|by apply book_burn_spec in H as [? _]; [|lia]].
    inv_tx H. unfold burned_units, econTotalsUnits. cbn [snd].
    rewrite !metaUint_ups_ne, metaUint_ups by done. cbn [Z.eqb]. unfold metaFloat. cbn [meta ups_meta set_meta].
    rewrite lookup_insert_ne, lookup_insert_eq by done. by vm_compute. }
  split; [lia|by inv_tx H|]. intros k H1 H2 H3. inv_tx H. cbn. by rewrite !lookup_insert_ne.
Qed.

Lemma take_back_spec w v d d' : wallet d = Some w → accounts_ok d → 0 ≤ v →
  take_back_platform (w_address w) v d = Ok (tt, d') → moved d d' (at_addr DevFeeAddress (- v)) (- v).
Proof.
  intros Hw Hok Hv H. unfold take_back_platform in H. rewrite (bind_run get _ d d d) in H by done.
  destruct (accounts d !! DevFeeAddress) as [a|] eqn:Ea; [|discriminate H].
  destruct (Z.ltb_spec (balance_units a) v); [discriminate H|]. pose proof (Hok _ _ Ea) as K. unfold account_ok in K.
  set (f := λ x : Account, set_hmc (balance_units x - v) x).
  apply (moved_upd _ f d a); try done; [lia|inv_tx H|inv_tx H|inv_tx H]; rewrite ?accounts_updw; try done.
  - rewrite wallet_updw, wallet_upd, Hw. cbn.
    match goal with H : String.eqb _ _ = true |- _ => apply String.eqb_eq in H as <- end. by rewrite at_addr_eq.
  - rewrite wallet_upd, Hw. cbn.
    match goal with H : String.eqb _ _ = false |- _ => apply String.eqb_neq in H end.
    rewrite at_addr_ne, Z.add_0_r by done. by destruct w.
  - unfold upd_wallet. rewrite wallet_upd, Hw. cbn. unfold upd_account. rewrite Ea. by destruct d.
  - unfold upd_account. rewrite Ea. by destruct d.
Qed.

Lemma reverse_burn_spec v d d' : 0 ≤ v → burned_units d < two64 → reverse_burn v d = Ok (tt, d') →
  burn_moved d d' (- v) ∧ v ≤ burned_units d.
Proof.
  intros Hv Hb H. unfold reverse_burn in H. rewrite (bind_run get _ d d d) in H by done.
  destruct (econTotalsUnits d) as [m b] eqn:Ee.
  assert (burned_units d = b) as Eb by (unfold burned_units; by rewrite Ee).
  destruct (Z.ltb_spec b v); [discriminate H|]. rewrite u64_small in H by lia.
  apply book_burn_moved in H; [|lia]. rewrite Eb in *. by replace (b - v - b) with (- v) in H by lia.
Qed.

Lemma dev_trim : trim_space DevFeeAddress = DevFeeAddress ∧ DevFeeAddress ≠ "".
Proof. by vm_compute. Qed.

(** Well-formed fee parts. *)
Definition fee_ok (f : OrderFeeV2) : Prop :=
  0 ≤ BurnUnits f ∧ 0 ≤ PlatformUnits f ∧ 0 ≤ SUPUnits f < two64 ∧ BurnUnits f + PlatformUnits f < two63.

Lemma applyOrderFee_hmc `{Crypto} now w f ref d d' : String.eqb (Asset f) FeeAssetSUP = false → fee_ok f →
  wallet_ok d → accounts_ok d → hmc_sum d + PlatformUnits f < two63 →
  0 ≤ burned_units d → burned_units d + BurnUnits f < two64 →
  applyOrderFeeV2Tx now w f ref d = Ok (tt, d') →
  ∃ d1, moved d d1 (at_addr DevFeeAddress (PlatformUnits f)) (PlatformUnits f) ∧ burn_moved d1 d' (BurnUnits f).
Proof.
  intros HA (Hb & Hp & _) Hw Hok Hs B0 B1 G. unfold applyOrderFeeV2Tx in G. rewrite HA in G.
  apply bind_ok in G as ([] & d1 & H1 & G). exists d1. destruct dev_trim as [T N].
  assert (M : moved d d1 (at_addr DevFeeAddress (PlatformUnits f)) (PlatformUnits f)).
  { destruct (Z.ltb_spec 0 (PlatformUnits f)).
    - rewrite <- T at 1. apply creditUnits_spec; [done|done|lia|done|by rewrite T|done].
    - replace (PlatformUnits f) with 0 by lia. inv_tx H1.
      eapply moved_ext; [by apply moved_none|intros b; by rewrite at_addr_0|done]. }
  split; [exact M|]. assert (Eb : burned_units d1 = burned_units d).
  { apply burned_units_meta. by apply (moved_frame meta _ _ _ _ (λ _ _ _, eq_refl) M). }
  destruct (Z.ltb_spec 0 (BurnUnits f)).
  - rewrite (bind_run get _ d1 d1 d1) in G by done. destruct (econTotalsUnits d1) as [m b] eqn:Ee.
    assert (burned_units d1 = b) as Eb' by (unfold burned_units; by rewrite Ee).
    rewrite u64_small in G by lia. apply book_burn_moved in G; [|lia].
    by replace (b + BurnUnits f - burned_units d1) with (BurnUnits f) in G by lia.
  - replace (BurnUnits f) with 0 by lia. inv_tx G. apply burn_moved_none.
Qed.

Lemma applyOrderFee_sup `{Crypto} now w f ref d d' : String.eqb (Asset f) FeeAssetSUP = true →
  accounts_ok d → 0 ≤ SUPUnits f → applyOrderFeeV2Tx now w f ref d = Ok (tt, d') →
  SUPUnits f = 0 ∧ d' = d ∨
  sup_burned d d' (trim_space w) (SUPUnits f) (supFeeRefKey SUPFeeProductHMCOrder (trim_space w) ref).
Proof.
  intros HA Hok Hs G. unfold applyOrderFeeV2Tx in G. rewrite HA in G.
  destruct (Z.eqb_spec (SUPUnits f) 0) as [E|E]; [left; by inv_tx G|right].
  by apply burnSUPForFeeTx_spec in G as [_ G].
Qed.

(** * Rows *)

(** A well-formed escrow row: nothing is paid beyond its pool, and a closed row holds nothing of
    its bounty pool. *)
Record row_ok (r : EscrowRow) : Prop := {
  ro_runs : 0 ≤ runsPaidUnits r ≤ runsPoolUnits r;
  ro_bounty : 0 ≤ bountyPaidUnits r ∧ 0 ≤ crashBonusPaidUnits r ∧ 0 ≤ refundedBountyUnits r ∧
    bountyPaidUnits r + crashBonusPaidUnits r + refundedBountyUnits r ≤ bountyPoolUnits r;
  ro_budget : runsPoolUnits r + bountyPoolUnits r = budgetUnits r ∧ budgetUnits r < 2 ^ 53;
  ro_per : 0 ≤ perRunUnits r < 2 ^ 53;
  ro_fee : fee_ok (e_fee r);
  ro_closed : status r = "closed" →
    bountyPaidUnits r + crashBonusPaidUnits r + refundedBountyUnits r = bountyPoolUnits r;
}.

(** The units a row still holds. *)
Definition held (r : EscrowRow) : Z :=
  if String.eqb (status r) "closed" then 0
  else (runsPoolUnits r - runsPaidUnits r)
       + (bountyPoolUnits r - bountyPaidUnits r - crashBonusPaidUnits r - refundedBountyUnits r).

Lemma held_range r : row_ok r → 0 ≤ held r ≤ budgetUnits r.
Proof. intros [? ? ? _ _ _]. unfold held. case_match; lia. Qed.

Lemma status_open s : negb (String.eqb s "open") && negb (String.eqb s "bounty_paid") = false →
  String.eqb s "closed" = false.
Proof.
  intros E. apply andb_false_iff in E as [E|E]; apply negb_false_iff, String.eqb_eq in E as ->; done.
Qed.

Ltac row := intros; unfold held in *; repeat match goal with H : row_ok _ |- _ => destruct H end;
  try split; cbn in *; repeat case_match; try done; try lia.

Lemma add_run_ok r pay : row_ok r → String.eqb (status r) "closed" = false →
  0 ≤ pay ≤ runsPoolUnits r - runsPaidUnits r →
  row_ok (add_run pay r) ∧ held (add_run pay r) = held r - pay.
Proof. split; row. Qed.

Lemma set_crash_ok r v : row_ok r → String.eqb (status r) "closed" = false → crashBonusPaidUnits r = 0 →
  0 ≤ v → bountyPaidUnits r + v + refundedBountyUnits r ≤ bountyPoolUnits r →
  row_ok (set_crash v r) ∧ held (set_crash v r) = held r - v.
Proof.
  intros R S. split; row. intros E. rewrite E in *. done.
Qed.

Lemma set_bounty_ok r v w : row_ok r → String.eqb (status r) "closed" = false → bountyPaidUnits r = 0 →
  0 ≤ v → crashBonusPaidUnits r + v + refundedBountyUnits r ≤ bountyPoolUnits r →
  row_ok (set_bounty v w r) ∧ held (set_bounty v w r) = held r - v.
Proof. split; row. Qed.

Lemma bountyLeft_eq r : row_ok r →
  bountyLeftUnits r = bountyPoolUnits r - bountyPaidUnits r - crashBonusPaidUnits r - refundedBountyUnits r.
Proof.
  intros [R1 R2 R3 _ _ _]. unfold bountyLeftUnits. cbv zeta.
  rewrite (u64_small (bountyPaidUnits r + _)) by (unfold two64; lia).
  rewrite (u64_small (_ + refundedBountyUnits r)) by (unfold two64; lia).
  destruct (Z.leb_spec (bountyPoolUnits r) (bountyPaidUnits r + crashBonusPaidUnits r + refundedBountyUnits r)); [lia|].
  rewrite u64_small by (unfold two64; lia). lia.
Qed.

Lemma close_row_ok r : row_ok r → row_ok (close_row (bountyLeftUnits r) r) ∧ held (close_row (bountyLeftUnits r) r) = 0.
Proof. intros R. rewrite (bountyLeft_eq r R). split; row. Qed.

Lemma reopen_row_ok r : row_ok r → status r = "closed" →
  row_ok (reopen_row r) ∧ held (reopen_row r) = runsPoolUnits r - runsPaidUnits r ∧ held r = 0.
Proof.
  intros R E. pose proof (ro_closed r R E). split; [row|]. unfold held. rewrite E. cbn. lia.
Qed.

(** * Conservation *)

(** Everything the chain owes: balances, escrowed units and burned units. *)
Definition escrow_total (d : DB) : Z := hmc_sum d + msum held (escrows d) + burned_units d.
(** Circulating and burned SUP. *)
Definition escrow_sup_total (d : DB) : Z := sup_sum d + supTotalBurnedUnits d.

Record escrow_inv (d : DB) : Prop := {
  ei_ok : accounts_ok d;
  ei_wallet : wallet_ok d;
  ei_mirror : mirrored d;
  ei_burned : 0 ≤ burned_units d;
  ei_rows : map_Forall (λ _ r, row_ok r) (escrows d);
  ei_tip : tip_height d + 1 < two63;
  ei_total : escrow_total d < two63;
  ei_sup : 0 ≤ supTotalBurnedUnits d ∧ escrow_sup_total d < two63;
}.

(** What no escrow operation touches: the chain, the pools, the orders, the key bindings, and every
    counter but the burn totals. *)
Definition burn_keys : list string :=
  [metaTotalBurnedUnits; metaTotalBurnedHMC; metaTotalMintedHMC; metaSUPTotalBurnedUnits].
Definition aside_tables (d : DB) :=
  (blocks d, tasks d, found_nonces d, address_pubkeys d,
   (tx_pool d, tx_history d), (sup_tx_pool d, hms_tx_pool d, hms_tx_history d)).
Record aside (d d' : DB) : Prop := {
  as_tables : aside_tables d' = aside_tables d;
  as_meta : ∀ k, k ∉ burn_keys → meta d' !! k = meta d !! k;
}.

Lemma not_burn_key k : k ∉ burn_keys → k ≠ metaTotalBurnedUnits ∧ k ≠ metaTotalBurnedHMC ∧
  k ≠ metaTotalMintedHMC ∧ k ≠ metaSUPTotalBurnedUnits.
Proof. unfold burn_keys. rewrite !not_elem_of_cons. intros (A & B & C & D & _). done. Qed.

#[global] Instance aside_refl : Reflexive aside.
Proof. by split. Qed.
#[global] Instance aside_trans : Transitive aside.
Proof.
  intros d1 d2 d3 [A B] [C D]. split; [by rewrite C|]. intros k Hk. by rewrite D, B.
Qed.
Lemma aside_same d d' : meta d' = meta d → aside_tables d' = aside_tables d → aside d d'.
Proof. intros M T. split; [done|]. by rewrite M. Qed.
Lemma aside_blocks d d' : aside d d' → blocks d' = blocks d.
Proof. intros [E _]. by injection E. Qed.
Lemma aside_escrows d d' m : aside d d' → aside d (set_escrows m d').
Proof. intros [A B]. by split. Qed.
#[export] Hint Resolve aside_escrows aside_blocks aside_same : core.

(** Money is conserved, and no settle mark is lost. *)
Definition escrow_kept (d d' : DB) : Prop :=
  escrow_inv d' ∧ escrow_total d' = escrow_total d ∧ escrow_sup_total d' = escrow_sup_total d ∧
  (∀ ev, is_Some (settle_applied d !! ev) → is_Some (settle_applied d' !! ev)) ∧ aside d d'.

(** [flow d d' s b]: balances change by [s] in total, the burn counter by [b], and the escrows
    not at all. *)
Record flow (d d' : DB) (s b : Z) : Prop := {
  fl_sum : hmc_sum d' = hmc_sum d + s;
  fl_burn : burned_units d' = burned_units d + b;
  fl_ok : accounts_ok d → accounts_ok d';
  fl_wallet : wallet_ok d → wallet_ok d';
  fl_mirror : mirrored d → mirrored d';
  fl_escrows : escrows d' = escrows d;
  fl_aside : aside d d';
  fl_settle : settle_applied d' = settle_applied d;
  fl_sup : escrow_sup_total d' = escrow_sup_total d;
  fl_sup_burned : 0 ≤ supTotalBurnedUnits d → 0 ≤ supTotalBurnedUnits d';
}.

Lemma flow_none d : flow d d 0 0.
Proof. split; try done; lia. Qed.

Lemma flow_blocks d d' s b : flow d d' s b → blocks d' = blocks d.
Proof. intros F. apply aside_blocks, F. Qed.

Lemma flow_trans d1 d2 d3 s1 s2 b1 b2 : flow d1 d2 s1 b1 → flow d2 d3 s2 b2 → flow d1 d3 (s1 + s2) (b1 + b2).
Proof. intros [] []. split; try congruence; try lia; auto. by transitivity d2. Qed.

Lemma flow_moved d d' δ s : moved d d' δ s → flow d d' s 0.
Proof.
  intros M. split.
  - apply (ce_sum _ _ _ _ _ (mv_hmc _ _ _ _ M)).
  - rewrite Z.add_0_r. apply burned_units_meta. by apply (moved_frame meta _ _ _ _ (λ _ _ _, eq_refl) M).
  - intros _. by apply M.
  - by apply (moved_wallet_ok d d' δ s).
  - by apply (moved_mirrored d d' δ s).
  - by apply (moved_frame escrows _ _ _ _ (λ _ _ _, eq_refl) M).
  - apply aside_same; [by apply (moved_frame meta _ _ _ _ (λ _ _ _, eq_refl) M)|].
    by apply (moved_frame aside_tables _ _ _ _ (λ _ _ _, eq_refl) M).
  - by apply (moved_frame settle_applied _ _ _ _ (λ _ _ _, eq_refl) M).
  - unfold escrow_sup_total. rewrite (moved_frame supTotalBurnedUnits _ _ _ _ (λ _ _ _, eq_refl) M).
    rewrite (ce_sum _ _ _ _ _ (mv_free _ _ _ _ M balance_sup_units (conj (λ _ _, eq_refl) eq_refl))). lia.
  - by rewrite (moved_frame supTotalBurnedUnits _ _ _ _ (λ _ _ _, eq_refl) M).
Qed.

Lemma flow_burn d d' v : burn_moved d d' v → flow d d' 0 v.
Proof.
  intros [B R Mk]. assert (accounts d' = accounts d ∧ wallet d' = wallet d ∧ escrows d' = escrows d ∧
    aside_tables d' = aside_tables d ∧ settle_applied d' = settle_applied d) as (A & W & E & K & Se) by by rewrite R.
  assert (supTotalBurnedUnits d' = supTotalBurnedUnits d) as S by by apply metaUint_at, Mk.
  split; try done.
  - rewrite (acct_sum_accounts _ d d' A). lia.
  - unfold accounts_ok. by rewrite A.
  - unfold wallet_ok. by rewrite W, A.
  - unfold mirrored, hmc. by rewrite W, A.
  - split; [done|]. intros k (?&?&?&?)%not_burn_key. by apply Mk.
  - unfold escrow_sup_total. by rewrite S, (acct_sum_accounts _ d d' A).
  - by rewrite S.
Qed.

(** A burn of SUP moves no HMC. *)
Lemma flow_sup d d' a v k : 0 ≤ v → accounts_ok d → 0 ≤ supTotalBurnedUnits d → escrow_sup_total d < two63 →
  sup_burned d d' a v k → flow d d' 0 0.
Proof.
  intros Hv Hok Hb Ht S. destruct (sup_burned_effect _ _ _ _ _ S) as [Ef O].
  assert (wallet d' = wallet d ∧ escrows d' = escrows d ∧ aside_tables d' = aside_tables d ∧
    settle_applied d' = settle_applied d) as (W & E & K & Se) by by rewrite (sb_rest _ _ _ _ _ S).
  assert (F : ∀ b, hmc d' b = hmc d b ∧ hmc_sum d' = hmc_sum d)
    by (intros b; by apply (others_kept_at sup_lane d d' balance_units b O lane_free_sup_hmc)).
  assert (Eb : supTotalBurnedUnits d' = supTotalBurnedUnits d + v).
  { unfold supTotalBurnedUnits at 1, metaUint. rewrite (sb_meta _ _ _ _ _ S), lookup_insert_eq. apply u64_small.
    destruct (sb_account _ _ _ _ _ S) as (x & Ex & Hle & _).
    pose proof (balance_le_sum balance_sup_units d _ x (λ y Hy, proj1 (proj1 (proj2 (proj2 Hy)))) Hok Ex).
    unfold escrow_sup_total, two63, two64 in *. lia. }
  split; try done.
  - destruct (F a) as [_ ->]. lia.
  - unfold burned_units, econTotalsUnits, metaFloat. cbn [snd].
    assert (∀ k, k ≠ metaSUPTotalBurnedUnits → meta d' !! k = meta d !! k) as M.
    { intros k' Hk. rewrite (sb_meta _ _ _ _ _ S). by rewrite lookup_insert_ne. }
    unfold metaUint. rewrite !M by done. lia.
  - intros _. by apply (sup_burned_ok d d' a v k).
  - destruct (sb_account _ _ _ _ _ S) as (x & _ & _ & Ax). intros (w & Ww & Tw & Nw & Aw). exists w.
    rewrite W, Ax, lookup_insert_is_Some'. split_and!; [done..|by right].
  - unfold mirrored. rewrite W. destruct (wallet d) as [w|]; [|done]. by destruct (F (w_address w)) as [-> _].
  - split; [done|]. intros j (?&?&?&?)%not_burn_key. by rewrite (sb_meta _ _ _ _ _ S), lookup_insert_ne.
  - unfold escrow_sup_total in *. rewrite Eb, (ce_sum _ _ _ _ _ Ef). lia.
  - rewrite Eb. lia.
Qed.

Lemma escrow_rows_nonneg d : escrow_inv d → 0 ≤ msum held (escrows d).
Proof. intros I. apply msum_nonneg. intros k r Hk. apply (held_range r). by apply (ei_rows d I k). Qed.

(** Head room for paying out what a row holds. *)
Lemma escrow_room d k r v : escrow_inv d → escrows d !! k = Some r → v ≤ held r → hmc_sum d + v < two63.
Proof.
  intros I Hr Hv. pose proof (msum_lookup_le held (escrows d) k r) as L.
  assert (held r ≤ msum held (escrows d)).
  { apply L; [|done]. intros k' r' Hk. apply (held_range r'). by apply (ei_rows d I k'). }
  destruct I. unfold escrow_total in *. lia.
Qed.

Lemma held_at d k r : escrows d !! k = Some r → mval held (escrows d) k = held r.
Proof. intros E. unfold mval. by rewrite E. Qed.

(** The general step: a flow of money that pays for the change of the escrow table. *)
Lemma escrow_step_ok d d1 m s b : escrow_inv d → flow d d1 s b → 0 ≤ burned_units d + b →
  map_Forall (λ _ r, row_ok r) m → s + b + msum held m = msum held (escrows d) →
  escrow_kept d (set_escrows m d1).
Proof.
  intros I [F1 F2 F3 F4 F5 F6 F7 Fs F8 F9] Hb Hm Hs. destruct I as [I1 I2 I3 I4 I5 I6 I7 [I8 I9]].
  assert (escrow_total (set_escrows m d1) = escrow_total d) as E.
  { unfold escrow_total. change (hmc_sum (set_escrows m d1)) with (hmc_sum d1).
    change (burned_units (set_escrows m d1)) with (burned_units d1). cbn [escrows set_escrows]. lia. }
  change (escrow_sup_total d1) with (escrow_sup_total (set_escrows m d1)) in F8.
  split; [|split; [done|split; [done|split; [intros ev; cbn; by rewrite Fs|by apply aside_escrows]]]]. split; try done.
  - by apply F3.
  - by apply F4.
  - by apply F5.
  - change (burned_units (set_escrows m d1)) with (burned_units d1). lia.
  - unfold tip_height, max_block_index in *. cbn [blocks set_escrows]. by rewrite (aside_blocks _ _ F7).
  - by rewrite E.
  - split; [by apply F9|by rewrite F8].
Qed.

(** The same for one updated row. *)
Lemma escrow_update_ok d d1 k r r' s b : escrow_inv d → flow d d1 s b → 0 ≤ burned_units d + b →
  escrows d !! k = Some r → row_ok r' → s + b + held r' = held r →
  escrow_kept d (set_escrows (<[k := r']> (escrows d1)) d1).
Proof.
  intros I F Hb Hr Hok Hs. apply (escrow_step_ok d d1 _ s b I F Hb).
  - rewrite (fl_escrows _ _ _ _ F). apply map_Forall_insert_2; [done|]. apply (ei_rows d I).
  - rewrite (fl_escrows _ _ _ _ F), msum_insert, (held_at d k r Hr). lia.
Qed.

Lemma update_escrow_run k f r d u d' : escrows d !! k = Some r → update_escrow k f d = Ok (u, d') →
  d' = set_escrows (<[k := f r]> (escrows d)) d.
Proof.
  intros Hr H. unfold update_escrow in H. inv_tx H. f_equal. apply map_eq. intros j.
  rewrite lookup_alter, lookup_insert. case_decide; [subst; by rewrite Hr|done].
Qed.

Lemma lock_run k d r d' : lockFuzzEscrowTx k d = Ok (r, d') → escrows d !! k = Some r ∧ d' = d.
Proof.
  intros H. unfold lockFuzzEscrowTx in H. rewrite (bind_run get _ d d d) in H by done.
  destruct (escrows d !! k) as [x|]; [|discriminate H]. inv_tx H. done.
Qed.

Lemma econ_guard_run `{ChainParams} strict d u d' : econ_guard strict d = Ok (u, d') →
  d' = d ∧ checkEconomicInvariants strict d = Ok tt.
Proof.
  intros H1. unfold econ_guard in H1. rewrite (bind_run get _ d d d) in H1 by done.
  unfold lift in H1. destruct (checkEconomicInvariants strict d) as [[]|]; [|discriminate H1].
  injection H1 as _ <-. done.
Qed.

(** ** Payouts *)

Lemma strip_any_keeps P ps s q : Forall (λ p, any_char P p = false) ps → strip_any ps s = Some q →
  any_char P s = any_char P q.
Proof.
  induction 1 as [|p ps Hp Hps IH]; [done|]. cbn [strip_any].
  destruct (strip_prefix p s) as [q'|] eqn:E; [|done]. intros [= ->].
  apply strip_prefix_spec in E as ->. by rewrite any_char_app, Hp.
Qed.

Lemma strip_while_keeps P ps n s : Forall (λ p, any_char P p = false) ps →
  any_char P (strip_while n ps s) = any_char P s.
Proof.
  intros Hps. revert s. induction n as [|n IH]; intros s; [done|]. cbn [strip_while].
  destruct (strip_any ps s) as [q|] eqn:E; [|done]. rewrite IH. symmetry. by apply (strip_any_keeps P ps).
Qed.

Lemma any_char_rev P s : any_char P (srev s) = any_char P s.
Proof.
  induction s as [|c s IH]; [done|]. change (String c s) with (String c "" +:+ s).
  rewrite srev_app, !any_char_app, IH. cbn. by rewrite orb_comm.
Qed.

(** Trimming never removes an address: the [H] of its prefix is not white space. *)
Lemma has_prefix_trim s : has_prefix s "HMC-" = true → trim_space s ≠ "".
Proof.
  intros [r ->]%has_prefix_spec E. set (P := λ c, Ascii.eqb c "H").
  assert (any_char P (trim_space ("HMC-" +:+ r)) = true) as C.
  { unfold trim_space, trim_right, trim_left. rewrite any_char_rev, !strip_while_keeps, any_char_rev, strip_while_keeps.
    - by rewrite any_char_app.
    - by repeat constructor.
    - by repeat constructor. }
  by rewrite E in C.
Qed.

Lemma valid_miner_trim m : valid_miner m = true → trim_space m ≠ "".
Proof. intros [H _]%andb_true_iff. by apply has_prefix_trim. Qed.

(** A payout of [v] from row [k]. *)
Lemma payout_kept d d1 k r r' a v : escrow_inv d → escrows d !! k = Some r →
  moved d d1 (at_addr a v) v → 0 ≤ v → row_ok r' → held r' = held r - v →
  escrow_kept d (set_escrows (<[k := r']> (escrows d1)) d1).
Proof.
  intros I Hr M Hv Hok Hh. pose proof (ei_burned d I).
  apply (escrow_update_ok d d1 k r r' v 0 I (flow_moved _ _ _ _ M)); [lia|done|done|lia].
Qed.

Lemma pay_credit_spec d d1 k r a v : escrow_inv d → escrows d !! k = Some r → 0 ≤ v ≤ held r →
  trim_space a ≠ "" → creditUnits a v d = Ok (tt, d1) →
  moved d d1 (at_addr (trim_space a) v) v ∧ escrows d1 = escrows d.
Proof.
  intros I Hr Hv Ha H. pose proof I as [Hok Hw _ _ _ _ _ _].
  assert (moved d d1 (at_addr (trim_space a) v) v) as M.
  { apply creditUnits_spec; try done; [lia|]. apply (escrow_room d k r v I Hr). lia. }
  split; [exact M|]. by apply (moved_frame escrows _ _ _ _ (λ _ _ _, eq_refl) M).
Qed.

Lemma run_slice_range p f : 0 ≤ p < 2 ^ 53 → 0 ≤ run_slice p f < 2 ^ 53.
Proof.
  intros Hp. unfold run_slice. destruct (0 <? f); [|lia]. cbv zeta. pose proof (u64_range (p * f)).
  assert (0 ≤ u64 (p * f) / 10000 < 2 ^ 53).
  { split; [apply Z.div_pos; lia|]. apply Z.div_lt_upper_bound; unfold two64 in *; lia. }
  destruct (_ && _); lia.
Qed.

(** What a run pays: its slice, cut to what is left of the pool. *)
Lemma payFuzzRunAmountTx_spec k m f d d' : escrow_inv d → payFuzzRunAmountTx k m f d = Ok (tt, d') →
  ∃ r pay d1, escrows d !! k = Some r ∧ String.eqb (status r) "closed" = false ∧
    pay = Z.min (run_slice (perRunUnits r) f) (runsPoolUnits r - runsPaidUnits r) ∧ 0 < pay ∧
    moved d d1 (at_addr (trim_space m) pay) pay ∧
    d' = set_escrows (<[k := add_run pay r]> (escrows d1)) d1.
Proof.
  intros I H. unfold payFuzzRunAmountTx in H. destruct (valid_miner m) eqn:Ev; [|discriminate H].
  apply valid_miner_trim in Ev. apply bind_ok in H as (r & d0 & L & H).
  apply lock_run in L as [Hr ->]. pose proof (ei_rows d I k r Hr) as R.
  destruct (negb _ && negb _) eqn:Es; [discriminate H|]. apply status_open in Es. cbv zeta in H.
  pose proof (run_slice_range (perRunUnits r) f (ro_per r R)) as Hs. destruct (ro_runs r R), (ro_budget r R).
  destruct (ro_bounty r R) as (?&?&?&?).
  rewrite (u64_small (runsPaidUnits r + _)), (u64_small (runsPoolUnits r - _)) in H by (unfold two64; lia).
  set (pay := if _ <? _ then _ else _) in H.
  assert (Ep : pay = Z.min (run_slice (perRunUnits r) f) (runsPoolUnits r - runsPaidUnits r)).
  { unfold pay. destruct (Z.ltb_spec (runsPoolUnits r) (runsPaidUnits r + run_slice (perRunUnits r) f)); lia. }
  clearbody pay. destruct (Z.eqb_spec pay 0); [discriminate H|].
  apply bind_ok in H as ([] & d1 & C & H). apply bind_ok in H as ([] & d2 & S & H). inv_tx S.
  destruct (pay_credit_spec d d1 k r m (Z.min (run_slice (perRunUnits r) f) (runsPoolUnits r - runsPaidUnits r)) I Hr)
    as [M E]; [unfold held; rewrite Es; lia|done|done|].
  apply (update_escrow_run k _ r) in H; [|by rewrite E].
  eexists r, _, d1. split_and!; try done. lia.
Qed.

Lemma payFuzzRunAmountTx_kept k m f d d' : escrow_inv d → payFuzzRunAmountTx k m f d = Ok (tt, d') → escrow_kept d d'.
Proof.
  intros I (r & pay & d1 & Hr & Es & Ep & Hp & M & ->)%payFuzzRunAmountTx_spec; [|done].
  destruct (add_run_ok r pay (ei_rows d I k r Hr) Es ltac:(lia)) as [R' Hh].
  apply (payout_kept d d1 k r _ _ pay I Hr M); [lia|done|done].
Qed.

Lemma payFuzzCrashBonusTx_kept k m d d' : escrow_inv d → payFuzzCrashBonusTx k m d = Ok (tt, d') → escrow_kept d d'.
Proof.
  intros I H. unfold payFuzzCrashBonusTx in H. destruct (valid_miner m) eqn:Ev; [|discriminate H].
  apply valid_miner_trim in Ev. apply bind_ok in H as (r & d0 & L & H).
  apply lock_run in L as [Hr ->]. pose proof (ei_rows d I k r Hr) as R.
  destruct (negb _ && negb _) eqn:Es; [discriminate H|]. apply status_open in Es.
  destruct (ro_runs r R), (ro_budget r R), (ro_bounty r R) as (?&?&?&?).
  destruct (Z.ltb_spec 0 (crashBonusPaidUnits r)); [discriminate H|].
  destruct (Z.ltb_spec 0 (refundedBountyUnits r)); [discriminate H|]. cbv zeta in H.
  rewrite u64_small in H by (unfold two64; lia).
  destruct (_ || _); [discriminate H|].
  pose proof (UniqueCrashBonusUnitsForSplit_ok (bountyPoolUnits r) (escrowSplit r) ltac:(lia)) as [Hb _].
  set (bonus := UniqueCrashBonusUnitsForSplit _ _) in *.
  destruct (Z.eqb_spec bonus 0); [discriminate H|].
  destruct (Z.ltb_spec (bountyPoolUnits r - bountyPaidUnits r) bonus); [discriminate H|]. cbn [orb] in H.
  apply bind_ok in H as ([] & d1 & C & H). apply bind_ok in H as ([] & d2 & S & H). inv_tx S.
  destruct (pay_credit_spec d d1 k r m bonus I Hr) as [M E]; [unfold held; rewrite Es; lia|done|done|].
  apply (update_escrow_run k _ r) in H as ->; [|by rewrite E].
  destruct (set_crash_ok r bonus R Es) as [R' Hh]; [lia..|].
  apply (payout_kept d d1 k r _ _ bonus I Hr M); [lia|done|done].
Qed.

Lemma bounty_parts_ok sp rem sev m f p : 0 ≤ rem < 2 ^ 53 → bounty_parts sp rem sev = Ok (m, f, p) →
  0 ≤ m ∧ 0 ≤ f ∧ m + f = p ∧ p ≤ rem.
Proof.
  intros Hr H. unfold bounty_parts in H. destruct (String.eqb sp _).
  - destruct (HuntBountyPayoutUnits rem sev) as [[m' f']|] eqn:E; [|discriminate H].
    apply HuntBountyPayoutUnits_ok in E as (A & B & C & _); [|done].
    rewrite u64_small in H by (unfold two64; lia). injection H as <- <- <-. lia.
  - destruct (BountyPayoutUnits rem) as [m' f'] eqn:E. apply BountyPayoutUnits_ok in E as (A & B & C); [|lia].
    injection H as <- <- <-. lia.
Qed.

Lemma payFuzzBountyTx_kept k m sev d d' : escrow_inv d → payFuzzBountyTx k m sev d = Ok (tt, d') → escrow_kept d d'.
Proof.
  intros I H. unfold payFuzzBountyTx in H. destruct (valid_miner m) eqn:Ev; [|discriminate H].
  apply valid_miner_trim in Ev. cbn [negb] in H. destruct (_ && _); [discriminate H|].
  apply bind_ok in H as (r & d0 & L & H). apply lock_run in L as [Hr ->]. pose proof (ei_rows d I k r Hr) as R.
  destruct (String.eqb (status r) "bounty_paid"); [discriminate H|].
  destruct (String.eqb_spec (status r) "open") as [Eo|]; [|discriminate H]. cbn [negb] in H.
  assert (Es : String.eqb (status r) "closed" = false) by by rewrite Eo.
  destruct (ro_runs r R), (ro_budget r R), (ro_bounty r R) as (?&?&?&?).
  destruct (Z.ltb_spec 0 (bountyPaidUnits r)); [discriminate H|]. cbn [orb] in H.
  destruct (negb (String.eqb (findingWinner r) "")); [discriminate H|].
  destruct (Z.ltb_spec 0 (refundedBountyUnits r)); [discriminate H|]. cbv zeta in H.
  rewrite u64_small in H by (unfold two64; lia). destruct (_ || _); [discriminate H|].
  apply bind_ok in H as ([[mu fu] pu] & d1 & P & H). apply lift_ok in P as [P ->].
  apply bounty_parts_ok in P as (P1 & P2 & P3 & P4); [|lia].
  assert (Hheld : pu ≤ held r) by (unfold held; rewrite Es; lia).
  apply bind_ok in H as ([] & d1 & C1 & H). apply bind_ok in H as ([] & d2 & C2 & H).
  apply bind_ok in H as ([] & d3 & S & H). inv_tx S.
  destruct (pay_credit_spec d d1 k r m mu I Hr ltac:(lia) Ev C1) as [M1 E1].
  pose proof (flow_moved _ _ _ _ M1) as F1.
  assert (flow d1 d2 fu 0) as F2.
  { destruct (Z.ltb_spec 0 fu).
    - destruct dev_trim as [T N]. eapply flow_moved, creditUnits_spec; [| | | | |exact C2]; try lia.
      + apply (fl_wallet _ _ _ _ F1), I.
      + apply M1.
      + rewrite (fl_sum _ _ _ _ F1). pose proof (escrow_room d k r (mu + fu) I Hr). lia.
      + by rewrite T.
    - replace fu with 0 by lia. inv_tx C2. apply flow_none. }
  pose proof (flow_trans _ _ _ _ _ _ _ F1 F2) as F.
  apply (update_escrow_run k _ r) in H as ->; [|by rewrite (fl_escrows _ _ _ _ F)].
  destruct (set_bounty_ok r (mu + fu) m R Es) as [R' Hh]; [lia..|].
  pose proof (ei_burned d I). eapply (escrow_update_ok d d2 k r _ _ _ I F); [lia|done|done|lia].
Qed.

(** ** Closing and reopening *)

Lemma close_escrow_kept `{ChainParams} strict k r d d' : escrow_inv d → escrows d !! k = Some r →
  String.eqb (status r) "closed" = false → close_escrow strict k r d = Ok (tt, d') → escrow_kept d d'.
Proof.
  intros I Hr Es G. pose proof (ei_rows d I k r Hr) as R. unfold close_escrow in G. cbv zeta in G.
  destruct (ro_runs r R), (ro_budget r R), (ro_bounty r R) as (?&?&?&?).
  destruct (close_row_ok r R) as [R' Hh]. pose proof (bountyLeft_eq r R) as El.
  rewrite (u64_small (runsPoolUnits r - _)), (u64_small (_ + bountyLeftUnits r)) in G by (unfold two64; lia).
  set (refund := runsPoolUnits r - runsPaidUnits r + bountyLeftUnits r) in *.
  assert (Ehr : refund = held r) by (unfold refund, held; rewrite Es; lia).
  apply bind_ok in G as ([] & d1 & C & G). apply bind_ok in G as ([] & d2 & S & G). inv_tx S.
  apply bind_ok in G as ([] & d3 & U & G). apply econ_guard_run in G as [-> _].
  assert (flow d d1 refund 0) as F.
  { destruct (Z.ltb_spec 0 refund).
    - destruct (ei_wallet d I) as (w & Hw & Tw & Nw & Aw). apply bind_ok in C as (w' & d0 & W & C).
      unfold wallet_row in W. rewrite (bind_run get _ d d d), Hw in W by done. apply ret_ok in W as [<- <-].
      eapply flow_moved, (pay_credit_spec d d1 k r (w_address w) refund I Hr); [lia|by rewrite Tw|done].
    - replace refund with 0 by lia. inv_tx C. apply flow_none. }
  apply (update_escrow_run k _ r) in U as ->; [|by rewrite (fl_escrows _ _ _ _ F)].
  pose proof (ei_burned d I). eapply (escrow_update_ok d d1 k r _ _ _ I F); [lia|done|done|lia].
Qed.

Lemma finalizeFuzzEscrowTx_kept `{ChainParams} strict k d d' : escrow_inv d →
  finalizeFuzzEscrowTx strict k d = Ok (tt, d') → escrow_kept d d'.
Proof.
  intros I G. unfold finalizeFuzzEscrowTx in G. apply bind_ok in G as (r & d0 & L & G). apply lock_run in L as [Hr ->].
  destruct (String.eqb (status r) "closed") eqn:Es; [inv_tx G; by split|]. by apply (close_escrow_kept strict k r).
Qed.

Lemma FinalizeFuzzEscrow_eq `{ChainParams} strict k d :
  FinalizeFuzzEscrow strict k d = CancelFuzzEscrow strict k d ∧
  CancelFuzzEscrow strict k d = finalizeFuzzEscrowTx strict (trim_space k) d.
Proof.
  unfold FinalizeFuzzEscrow, CancelFuzzEscrow, finalizeFuzzEscrowTx, lockFuzzEscrowTx. cbv zeta.
  unfold bind, get. destruct (escrows d !! trim_space k) as [r|] eqn:E; [|done]. unfold ret.
  destruct (String.eqb (status r) "closed") eqn:Es; [done|]. by rewrite E, Es.
Qed.

Lemma ReopenFuzzEscrowForSettleDrain_kept `{ChainParams} strict k d d' : escrow_inv d →
  ReopenFuzzEscrowForSettleDrain strict k d = Ok (tt, d') → escrow_kept d d'.
Proof.
  intros I G. unfold ReopenFuzzEscrowForSettleDrain in G. cbv zeta in G. set (k' := trim_space k) in *.
  destruct (String.eqb k' ""); [discriminate G|]. apply bind_ok in G as (r & d0 & L & G).
  apply lock_run in L as [Hr ->]. pose proof (ei_rows d I k' r Hr) as R.
  destruct (String.eqb_spec (status r) "closed") as [Es|]; [|discriminate G]. cbn [negb] in G.
  destruct (reopen_row_ok r R Es) as (R' & Hh & Hh0). destruct (ro_runs r R).
  set (need := if _ <? _ then _ else _) in G.
  assert (En : need = runsPoolUnits r - runsPaidUnits r).
  { unfold need. destruct (Z.ltb_spec (runsPaidUnits r) (runsPoolUnits r)); lia. }
  clearbody need. destruct (need =? 0); [discriminate G|].
  destruct (ei_wallet d I) as (w & Hw & Tw & Nw & Aw). apply bind_ok in G as (w' & d0 & W & G).
  unfold wallet_row in W. rewrite (bind_run get _ d d d), Hw in W by done. apply ret_ok in W as [<- <-].
  destruct (w_units w <? need); [discriminate G|]. rewrite (bind_run get _ d d d) in G by done.
  destruct (accounts d !! w_address w) as [a|] eqn:Ea; [|discriminate G].
  destruct (Z.ltb_spec (balance_units a) need); [discriminate G|].
  apply bind_ok in G as ([] & d1 & D & G). apply bind_ok in G as ([] & d2 & U & G).
  apply econ_guard_run in G as [-> _].
  pose proof (flow_moved _ _ _ _ (debit_primary_spec w a need d d1 Hw Ea (ei_ok d I) ltac:(lia) D)) as F.
  apply (update_escrow_run k' _ r) in U as ->; [|by rewrite (fl_escrows _ _ _ _ F)].
  pose proof (ei_burned d I). eapply (escrow_update_ok d d1 k' r _ _ _ I F); [lia|done|done|lia].
Qed.

(** ** Settle events *)

Lemma escrow_kept_same d d' : escrow_inv d → accounts d' = accounts d → wallet d' = wallet d →
  meta d' = meta d → escrows d' = escrows d → blocks d' = blocks d →
  escrow_inv d' ∧ escrow_total d' = escrow_total d ∧ escrow_sup_total d' = escrow_sup_total d.
Proof.
  intros [I1 I2 I3 I4 I5 I6 I7 I8] A W M E B.
  assert (supTotalBurnedUnits d' = supTotalBurnedUnits d) as S by (apply metaUint_at; by rewrite M).
  assert (escrow_total d' = escrow_total d) as T.
  { unfold escrow_total. by rewrite (acct_sum_accounts _ d d' A), (burned_units_meta d d' M), E. }
  assert (escrow_sup_total d' = escrow_sup_total d) as U.
  { unfold escrow_sup_total. by rewrite S, (acct_sum_accounts _ d d' A). }
  split; [|done]. split.
  - unfold accounts_ok. by rewrite A.
  - unfold wallet_ok. by rewrite W, A.
  - unfold mirrored, hmc. by rewrite W, A.
  - by rewrite (burned_units_meta d d' M).
  - by rewrite E.
  - unfold tip_height, max_block_index. by rewrite B.
  - by rewrite T.
  - by rewrite S, U.
Qed.

Lemma escrow_kept_trans d1 d2 d3 : escrow_kept d1 d2 → (escrow_inv d2 → escrow_kept d2 d3) → escrow_kept d1 d3.
Proof.
  intros (I & E & S & M & A) H. destruct (H I) as (J & F & T & N & B). split; [done|]. split; [congruence|].
  split; [congruence|]. split; [auto|by transitivity d2].
Qed.

Lemma mark_applied_run k c kd now d b d' : mark_applied k c kd now d = Ok (b, d') →
  b = bool_decide (settle_applied d !! k = None) ∧
  d' = (if b then set_settle (<[k := mkSettleRow c kd now]> (settle_applied d)) d else d).
Proof.
  intros H. unfold mark_applied in H. rewrite (bind_run get _ d d d) in H by done.
  destruct (settle_applied d !! k) as [r|] eqn:E.
  - apply ret_ok in H as [<- <-]. by rewrite bool_decide_false.
  - apply bind_ok in H as ([] & d0 & G & H). inv_tx G. apply ret_ok in H as [<- <-]. by rewrite bool_decide_true.
Qed.

Lemma mark_kept ev r d : escrow_inv d → escrow_kept d (set_settle (<[ev := r]> (settle_applied d)) d).
Proof.
  intros I. destruct (escrow_kept_same d (set_settle (<[ev := r]> (settle_applied d)) d) I) as (J & T & U); try done.
  split; [done|]. split; [done|]. split; [done|]. split; [|by apply aside_same].
  intros j Hj. cbn. rewrite lookup_insert_is_Some'. by right.
Qed.

Lemma settle_kind_kept (e : Env) `{ChainParams} strict kind k m sev d d' : escrow_inv d →
  settle_kind e strict kind k m sev d = Ok (tt, d') → escrow_kept d d'.
Proof.
  intros I G. unfold settle_kind, payFuzzRunTx, payFuzzRunFloorTx in G.
  destruct (String.eqb kind "run"); [by apply (payFuzzRunAmountTx_kept k m 0)|].
  destruct (String.eqb kind "run_floor"); [by apply (payFuzzRunAmountTx_kept k m (HuntEngineFloorPayBPS e))|].
  destruct (String.eqb kind "finding" || String.eqb kind "bounty"); [by apply (payFuzzBountyTx_kept k m sev)|].
  destruct (String.eqb kind "crash_bonus" || String.eqb kind "unique_crash"); [by apply (payFuzzCrashBonusTx_kept k m)|].
  destruct (String.eqb kind "finalize" || String.eqb kind "close"); [|discriminate G].
  by apply (finalizeFuzzEscrowTx_kept strict k).
Qed.

Lemma ApplyFuzzSettleOnce_kept (e : Env) `{ChainParams} strict now ev kind k m sev d b d' : escrow_inv d →
  ApplyFuzzSettleOnce e strict now ev kind k m sev d = Ok (b, d') → escrow_kept d d'.
Proof.
  intros I G. unfold ApplyFuzzSettleOnce in G. cbv zeta in G. destruct (negb (settle_args_ok _ _ _)); [discriminate G|].
  apply bind_ok in G as (new & d1 & M & G). apply mark_applied_run in M as [-> ->].
  case_bool_decide; cbn [negb] in G; [|apply ret_ok in G as [_ <-]; by split].
  apply bind_ok in G as ([] & d2 & K & G). apply ret_ok in G as [_ <-].
  set (d1 := set_settle _ d) in *.
  apply (escrow_kept_trans d d1 d2); [by apply mark_kept|].
  intros J. exact (settle_kind_kept e strict _ _ _ _ _ _ J K).
Qed.

(** ** Opening *)

Lemma escrow_price_ok `{ChainParams} tip total asset fee esc : 0 ≤ tip → tip + 1 < two63 → 0 ≤ total < 2 ^ 53 →
  escrow_price tip total asset = Ok (fee, esc) →
  fee_ok fee ∧ 0 ≤ esc ∧ esc + BurnUnits fee + PlatformUnits fee = total ∧ (fee = no_fee ∨ Asset fee = asset).
Proof.
  intros Ht Hb Hp E. unfold escrow_price in E. destruct (EconomicsV2ActiveForIndex _).
  - pose proof (OrderFeeV2FromPrice_eq tip total asset Ht ltac:(unfold two63, two64 in *; lia) ltac:(unfold two64; lia)) as F.
    pose proof (orderFeeV2Rates_range tip Ht ltac:(unfold two63, two64 in *; lia)) as R.
    destruct (orderFeeV2Rates tip) as [bp pp]. rewrite F in E. clear F. injection E as <- <-.
    assert (0 ≤ total * bp / 1000000) by (apply Z.div_pos; nia). assert (0 ≤ total * pp / 1000000) by (apply Z.div_pos; nia).
    assert (total * bp / 1000000 + total * pp / 1000000 ≤ total) by (Z.to_euclidean_division_equations; nia).
    unfold fee_ok, newOrderFeeV2. cbn [Asset BurnUnits PlatformUnits SUPUnits].
    assert (∀ z, 0 ≤ (if String.eqb asset FeeAssetSUP then u64 z else 0) < two64) as Hz
      by (intros z; case_match; [apply u64_range|unfold two64; lia]).
    split; [|split; [lia|split; [lia|by right]]].
    split; [done|]. split; [done|]. split; [apply Hz|unfold two63; lia].
  - destruct (negb _); [discriminate E|]. injection E as <- <-.
    unfold fee_ok, no_fee. cbn. unfold two64, two63. split_and!; try lia. by left.
Qed.

(** Whether and how a fee was booked, for the wallet address [w]. *)
Definition fee_booked `{Crypto} (w : string) (f : OrderFeeV2) (ref : string) (d d' : DB) : Prop :=
  if String.eqb (Asset f) "" then d' = d
  else if String.eqb (Asset f) FeeAssetSUP then
    SUPUnits f = 0 ∧ d' = d ∨ sup_burned d d' w (SUPUnits f) (supFeeRefKey SUPFeeProductHMCOrder w ref)
  else ∃ dm, moved d dm (at_addr DevFeeAddress (PlatformUnits f)) (PlatformUnits f) ∧ burn_moved dm d' (BurnUnits f).

Lemma HMCUnits_eq f : fee_ok f → HMCUnits f = if String.eqb (Asset f) FeeAssetSUP then 0 else BurnUnits f + PlatformUnits f.
Proof.
  intros (A & B & _ & C). unfold HMCUnits. destruct (String.eqb (Asset f) FeeAssetSUP); [done|].
  apply u64_small. unfold two63, two64 in *. lia.
Qed.

Lemma fee_booked_flow `{Crypto} w f ref d d' : fee_ok f → (Asset f = "" → f = no_fee) → accounts_ok d →
  0 ≤ supTotalBurnedUnits d → escrow_sup_total d < two63 → fee_booked w f ref d d' → ∃ s b, flow d d' s b ∧ 0 ≤ b ∧ s + b = HMCUnits f.
Proof.
  intros Hf H0 Hok Hsb Hst F. unfold fee_booked in F. rewrite (HMCUnits_eq f Hf).
  destruct (String.eqb_spec (Asset f) "") as [E|E].
  { subst d'. rewrite (H0 E). exists 0, 0. split; [apply flow_none|done]. }
  destruct (String.eqb (Asset f) FeeAssetSUP).
  - exists 0, 0. split; [|done]. destruct F as [[_ ->]|F]; [apply flow_none|].
    apply (flow_sup d d' _ _ _ (proj1 (proj1 (proj2 (proj2 Hf)))) Hok Hsb Hst F).
  - destruct F as (dm & M & B). eexists _, _. split; [exact (flow_trans _ _ _ _ _ _ _ (flow_moved _ _ _ _ M) (flow_burn _ _ _ B))|].
    destruct Hf. lia.
Qed.

(** The row an open inserts. *)
Definition opened_row (now runs : Z) (name : string) (s : SplitUnits) (fee : OrderFeeV2) : EscrowRow :=
  mkEscrowRow (TotalUnits s) (RunsPoolUnits s) (BountyPoolUnits s) 0 0 0 0 runs (PerRunUnits s) "" "open" 0 now name fee.

Lemma open_escrow_tx_spec `{ChainParams} `{Crypto} strict now k fee s runs name total pool minPer d d' :
  escrow_inv d → split_ok total runs pool minPer s → 0 ≤ minPer → fee_ok fee → (Asset fee = "" → fee = no_fee) →
  0 ≤ total → total + BurnUnits fee + PlatformUnits fee < 2 ^ 53 →
  open_escrow_tx strict now k fee s runs name d = Ok (tt, d') →
  ∃ w a d1 d2, wallet d = Some w ∧ accounts d !! w_address w = Some a ∧ escrows d !! k = None ∧
    total + HMCUnits fee ≤ balance_units a ∧
    moved d d1 (at_addr (w_address w) (- (total + HMCUnits fee))) (- (total + HMCUnits fee)) ∧
    fee_booked (w_address w) fee (campaign_ref k) d1 d2 ∧
    d' = set_escrows (<[k := opened_row now runs name s fee]> (escrows d2)) d2 ∧
    checkEconomicInvariants strict d' = Ok tt.
Proof.
  intros I Sp Hm Hf Hn Ht Hb G. unfold open_escrow_tx in G. rewrite (bind_run get _ d d d) in G by done.
  destruct (escrows d !! k) eqn:Ek; [discriminate G|].
  destruct (ei_wallet d I) as (w & Hw & Tw & Nw & Aw). apply bind_ok in G as (w' & d0 & W & G).
  unfold wallet_row in W. rewrite (bind_run get _ d d d), Hw in W by done. apply ret_ok in W as [<- <-]. cbv zeta in G.
  pose proof (HMCUnits_eq fee Hf) as Eh. pose proof Hf as (F1 & F2 & F3 & F4).
  assert (Hh : 0 ≤ HMCUnits fee ≤ BurnUnits fee + PlatformUnits fee) by (rewrite Eh; case_match; lia).
  rewrite (so_total _ _ _ _ _ Sp), (u64_small (total + _)) in G by (unfold two64; lia).
  destruct (w_units w <? _); [discriminate G|]. destruct (accounts d !! w_address w) as [a|] eqn:Ea; [|discriminate G].
  destruct (Z.ltb_spec (balance_units a) (total + HMCUnits fee)); [discriminate G|].
  apply bind_ok in G as ([] & d1 & D & G). apply (debit_primary_spec w a _ d d1 Hw Ea (ei_ok d I)) in D as M; [|lia].
  apply bind_ok in G as ([] & d2 & Fe & G). exists w, a, d1, d2.
  do 8 (apply bind_ok in G as ([] & ? & S & G); inv_tx S).
  apply econ_guard_run in G as [-> C]. split; [exact Hw|]. split; [exact Ea|]. split; [reflexivity|].
  split; [lia|]. split; [exact M|]. unfold opened_row. rewrite (so_total _ _ _ _ _ Sp).
  split; [|split; [reflexivity|exact C]]. clear C.
  pose proof (flow_moved _ _ _ _ M) as Fl. pose proof (escrow_rows_nonneg d I).
  pose proof (sum_nonneg balance_units d (λ y Hy, proj1 (proj1 Hy)) (ei_ok d I)). destruct I. unfold escrow_total in *.
  unfold fee_booked. destruct (String.eqb_spec (Asset fee) "") as [E|E]; cbn [negb] in Fe; [by inv_tx Fe|].
  destruct (String.eqb (Asset fee) FeeAssetSUP) eqn:Es.
  - apply applyOrderFee_sup in Fe; [|done|apply M|lia]. by rewrite Tw in Fe.
  - apply applyOrderFee_hmc in Fe; try done; [by apply (fl_wallet _ _ _ _ Fl)|apply M|..];
      rewrite ?(fl_sum _ _ _ _ Fl), ?(fl_burn _ _ _ _ Fl); unfold two63, two64 in *; lia.
Qed.

Lemma opened_row_ok now runs name s fee total pool minPer : split_ok total runs pool minPer s → 0 ≤ minPer →
  fee_ok fee → 0 ≤ total < 2 ^ 53 →
  row_ok (opened_row now runs name s fee) ∧ held (opened_row now runs name s fee) = total.
Proof.
  intros [] Hm Hf Ht. unfold MinCampaignRuns, MaxCampaignRuns in *.
  assert (0 ≤ PerRunUnits s < 2 ^ 53) by (split; [lia|nia]).
  split; [split; cbn; try done; lia|unfold held; cbn; lia].
Qed.

Lemma tip_height_nonneg d : 0 ≤ tip_height d.
Proof. unfold tip_height. repeat case_match; b2p; lia. Qed.

Lemma NormalizeFeeAsset_ok v a : NormalizeFeeAsset v = Ok a → a = FeeAssetHMC ∨ a = FeeAssetSUP.
Proof.
  unfold NormalizeFeeAsset. cbv zeta. destruct (_ || _); [intros [= <-]; by left|].
  destruct (String.eqb _ _); [intros [= <-]; by right|done].
Qed.

Lemma fee_kind fee : fee = no_fee ∨ Asset fee = FeeAssetHMC ∨ Asset fee = FeeAssetSUP → Asset fee = "" → fee = no_fee.
Proof. intros [->|[E|E]] E'; [done|rewrite E in E'; discriminate E'..]. Qed.

(** What a successful open did. *)
Record opened `{ChainParams} `{Crypto} (strict : bool) (now : Z) (k : string) (runs : Z) (d d' : DB)
    (w : Wallet) (fee : OrderFeeV2) (name : string) (s : SplitUnits) (d1 d2 : DB) : Prop := {
  op_fee : fee_ok fee;
  op_asset : fee = no_fee ∨ Asset fee = FeeAssetHMC ∨ Asset fee = FeeAssetSUP;
  op_split : ∃ total pool minPer, split_ok total runs pool minPer s ∧ 0 ≤ total ∧ 0 ≤ minPer ∧
    total + BurnUnits fee + PlatformUnits fee < 2 ^ 53;
  op_wallet : wallet d = Some w;
  op_new : escrows d !! k = None;
  op_funds : TotalUnits s + HMCUnits fee ≤ hmc d (w_address w);
  op_debit : moved d d1 (at_addr (w_address w) (- (TotalUnits s + HMCUnits fee))) (- (TotalUnits s + HMCUnits fee));
  op_booked : fee_booked (w_address w) fee (campaign_ref k) d1 d2;
  op_row : d' = set_escrows (<[k := opened_row now runs name s fee]> (escrows d2)) d2;
  op_econ : checkEconomicInvariants strict d' = Ok tt;
}.

Lemma compute_split_ok sp total runs name s : 0 ≤ total < 2 ^ 53 → compute_split sp total runs = (name, Ok s) →
  ∃ pool minPer, split_ok total runs pool minPer s ∧ 0 ≤ minPer.
Proof.
  intros Ht H. unfold compute_split in H. destruct (String.eqb sp EscrowSplit5050).
  - injection H as _ H. eexists _, HuntMinPerShardUnits. split; [by apply ComputeHuntSplitUnits_ok|done].
  - destruct (String.eqb sp EscrowSplit4060); injection H as _ H; eexists _, MinPerRunUnits; (split; [|done]).
    + apply ComputeSplitUnitsDeep_ok; [unfold two63; lia|done].
    + apply ComputeSplitUnits_ok; [unfold two64; lia|done].
Qed.

Lemma OpenFuzzEscrowWithFee_spec `{ChainParams} `{Crypto} e signer strict now k budget runs sp asset d d' :
  escrow_inv d → OpenFuzzEscrowWithFee e signer strict now k budget runs sp asset d = Ok (tt, d') →
  trim_space k ≠ "" ∧ ∃ w fee name s d1 d2, opened strict now (trim_space k) runs d d' w fee name s d1 d2.
Proof.
  intros I G. unfold OpenFuzzEscrowWithFee in G.
  apply bind_ok in G as (as' & d0 & N & G). apply lift_ok in N as [N ->]. apply NormalizeFeeAsset_ok in N.
  apply bind_ok in G as ([] & d0 & C & G). apply lift_ok in C as [_ ->]. cbv zeta in G. set (k' := trim_space k) in *.
  destruct (String.eqb_spec k' "") as [|Hk]; [discriminate G|]. split; [done|].
  destruct (f_ltb budget (min_budget sp)); [discriminate G|].
  destruct (f_ltb MaxCampaignBudgetHMC budget) eqn:Eb; [discriminate G|]. apply budget_units in Eb.
  set (total := HMCToUnits budget) in *. clearbody total. destruct (total =? 0); [discriminate G|].
  rewrite (bind_run get _ d d d) in G by done.
  apply bind_ok in G as ([fee esc] & d0 & P & G). apply lift_ok in P as [P ->].
  pose proof (tip_height_nonneg d) as T0.
  apply escrow_price_ok in P as (Hf & He & Hs & Hn); [|done|apply I|done].
  destruct (compute_split sp esc runs) as [name rs] eqn:Es. apply bind_ok in G as (s & d0 & P & G).
  apply lift_ok in P as [-> ->].
  assert (Bf : 0 ≤ BurnUnits fee ∧ 0 ≤ PlatformUnits fee) by (destruct Hf as (?&?&_); done).
  apply compute_split_ok in Es as (pool & minPer & Sp & Hm); [|lia].
  assert (Hn1 : fee = no_fee ∨ Asset fee = FeeAssetHMC ∨ Asset fee = FeeAssetSUP).
  { destruct Hn as [|Ea]; [by left|]. right. by rewrite Ea. }
  pose proof (fee_kind fee Hn1) as Hn'.
  destruct (open_escrow_tx_spec strict now k' fee s runs name esc pool minPer d d' I Sp Hm Hf Hn' He ltac:(lia) G)
    as (w & a & d1 & d2 & G1 & G2 & G3 & G4 & G5 & G6 & G7 & G8). clear G.
  exists w, fee, name, s, d1, d2. pose proof (so_total _ _ _ _ _ Sp) as Et. rewrite <- Et in G4, G5.
  split; [exact Hf|exact Hn1| |exact G1|exact G3| |exact G5|exact G6|exact G7|exact G8].
  - exists esc, pool, minPer. split; [exact Sp|]. lia.
  - unfold hmc, mval. by rewrite G2.
Qed.

Lemma opened_flow `{ChainParams} `{Crypto} strict now k runs d d' w fee name s d1 d2 : escrow_inv d →
  opened strict now k runs d d' w fee name s d1 d2 →
  ∃ q b, flow d d2 q b ∧ 0 ≤ b ∧ q + b = - TotalUnits s.
Proof.
  intros I [Hf Hn0 _ _ _ _ M B _ _]. pose proof (fee_kind fee Hn0) as Hn. destruct (ei_sup d I) as [Hsb Hst].
  pose proof (flow_moved _ _ _ _ M) as Fm.
  destruct (fee_booked_flow _ _ _ _ _ Hf Hn (mv_ok _ _ _ _ M) (fl_sup_burned _ _ _ _ Fm Hsb)
    ltac:(by rewrite (fl_sup _ _ _ _ Fm)) B) as (q & b & F & Hb & Hs).
  eexists _, _. split; [exact (flow_trans _ _ _ _ _ _ _ Fm F)|]. lia.
Qed.

Lemma OpenFuzzEscrowWithFee_kept `{ChainParams} `{Crypto} e signer strict now k budget runs sp asset d d' :
  escrow_inv d → OpenFuzzEscrowWithFee e signer strict now k budget runs sp asset d = Ok (tt, d') → escrow_kept d d'.
Proof.
  intros I G. apply OpenFuzzEscrowWithFee_spec in G as (_ & w & fee & name & s & d1 & d2 & O); [|done].
  destruct (opened_flow _ _ _ _ _ _ _ _ _ _ _ _ I O) as (q & b & F & Hb & Hs).
  destruct O as [Hf _ (total & pool & minPer & Sp & Ht & Hm & Hmax) _ Hk _ _ _ -> _].
  assert (Bf : 0 ≤ BurnUnits fee ∧ 0 ≤ PlatformUnits fee) by (destruct Hf as (?&?&_); done).
  destruct (opened_row_ok now runs name s fee _ _ _ Sp Hm Hf ltac:(lia)) as [R Hh].
  pose proof (ei_burned d I). pose proof (so_total _ _ _ _ _ Sp).
  apply (escrow_step_ok d d2 _ q b I F); [lia| |]; rewrite (fl_escrows _ _ _ _ F).
  - apply map_Forall_insert_2; [done|apply I].
  - rewrite msum_insert_new by done. lia.
Qed.

(** ** Rolling back *)

(** Returning a SUP fee: [v] from the burn counter to [w], the history row renamed. *)
Record sup_returned (d d' : DB) (w : string) (v : Z) (key key' : string) : Prop := {
  sr_burned : v ≤ supTotalBurnedUnits d;
  sr_accounts : accounts d' = alter (λ a, set_sup (balance_sup_units a + v) a) w (accounts d);
  sr_meta : meta d' = <[metaSUPTotalBurnedUnits := MUint (u64 (supTotalBurnedUnits d - v))]> (meta d);
  sr_hist : sup_tx_history d' = match sup_tx_history d !! key with
    | Some r => <[key' := mkHistRow (h_from r) (h_to r) (h_nonce r) (h_fee r) (h_amount r) "reverted"
        (h_block r) (h_block_hash r) (h_applied_at r) (h_reject r) (h_memo r)]> (delete key (sup_tx_history d))
    | None => sup_tx_history d end;
  sr_rest : d' = set_sup_history (sup_tx_history d') (set_meta (meta d') (set_accounts (accounts d') d));
}.

Definition reverted_key (key : string) (now : Z) : string := key +:+ ":reverted:" +:+ fmt_int now.

Lemma reverse_sup_fee_spec `{Crypto} now w k v d d' : reverse_sup_fee now w k v d = Ok (tt, d') →
  let key := supFeeRefKey SUPFeeProductHMCOrder w (campaign_ref k) in
  sup_returned d d' w v key (reverted_key key now).
Proof.
  intros G. unfold reverse_sup_fee in G. rewrite (bind_run get _ d d d) in G by done. cbv zeta in G.
  destruct (Z.ltb_spec (supTotalBurnedUnits d) v); [discriminate G|].
  apply bind_ok in G as ([] & d1 & G1 & G). inv_tx G1. apply bind_ok in G as ([] & d1 & G1 & G). inv_tx G1.
  apply bind_ok in G as ([] & d1 & G1 & G). inv_tx G1. set (key := supFeeRefKey _ _ _) in *. cbv zeta.
  set (f := λ a : Account, set_sup (balance_sup_units a + v) a) in *. unfold revert_sup_row in G. rewrite (bind_run get _ _ _ _) in G by done. cbv zeta in G.
  assert (Eh : ∀ x, sup_tx_history (upd_account f w x) = sup_tx_history x) by (intros x; unfold upd_account; by destruct (accounts x !! w)).
  rewrite Eh in G. cbn [sup_tx_history ups_meta set_meta] in G.
  set (d0 := ups_meta metaSUPTotalBurnedUnits _ d) in *.
  assert (A : accounts (upd_account f w d0) = alter f w (accounts d)) by by rewrite accounts_upd.
  assert (M : meta (upd_account f w d0) = meta d0) by by rewrite meta_upd.
  assert (R : ∀ h, set_sup_history h (upd_account f w d0)
    = set_sup_history h (set_meta (meta d0) (set_accounts (alter f w (accounts d)) d))).
  { intros h. rewrite <- A. unfold upd_account. by destruct (accounts d0 !! w). }
  destruct (sup_tx_history d !! key) as [r|] eqn:Er.
  - fold (reverted_key key now) in G. destruct (sup_tx_history d !! reverted_key key now); [discriminate G|].
    inv_tx G. split; try done; [cbn; by rewrite Er|]. rewrite R. by rewrite <- A.
  - inv_tx G. split; try done; [by rewrite Eh, Er|].
    transitivity (set_sup_history (sup_tx_history d0) (upd_account f w d0)).
    + unfold upd_account. by destruct (accounts d0 !! w).
    + rewrite R, Eh, M, A. done.
Qed.

(** The three reversals of a rollback, in order. *)
Definition fee_returned `{Crypto} (now : Z) (w k : string) (f : OrderFeeV2) (d d' : DB) : Prop :=
  if String.eqb (Asset f) FeeAssetHMC then
    0 ≤ burned_units d' ∧
    ∃ dm, moved d dm (at_addr DevFeeAddress (- PlatformUnits f)) (- PlatformUnits f) ∧ burn_moved dm d' (- BurnUnits f)
  else if String.eqb (Asset f) FeeAssetSUP && (0 <? SUPUnits f) then
    let key := supFeeRefKey SUPFeeProductHMCOrder w (campaign_ref k) in
    sup_returned d d' w (SUPUnits f) key (reverted_key key now)
  else d' = d.

Definition fee_back (f : OrderFeeV2) : Z :=
  if String.eqb (Asset f) FeeAssetHMC then BurnUnits f + PlatformUnits f else 0.

Lemma rollback_refund f budget : fee_ok f → 0 ≤ budget < 2 ^ 53 →
  let h := String.eqb (Asset f) FeeAssetHMC in
  let refund := if h && (0 <? PlatformUnits f) then u64 (budget + PlatformUnits f) else budget in
  (if h && (0 <? BurnUnits f) then u64 (refund + BurnUnits f) else refund) = budget + fee_back f.
Proof.
  intros (A & B & _ & C) Hb h refund. unfold fee_back, refund. fold h. unfold two63 in C. destruct h; cbn [andb]; [|lia].
  destruct (Z.ltb_spec 0 (PlatformUnits f)), (Z.ltb_spec 0 (BurnUnits f));
    rewrite ?(u64_small (budget + PlatformUnits f)), ?u64_small; unfold two64; lia.
Qed.

Lemma rollback_fee_spec `{Crypto} now w k f d d1 d2 d3 : fee_ok f → wallet d = Some w → accounts_ok d →
  0 ≤ burned_units d < two64 →
  let h := String.eqb (Asset f) FeeAssetHMC in
  (if h && (0 <? PlatformUnits f) then take_back_platform (w_address w) (PlatformUnits f) else ret tt) d = Ok (tt, d1) →
  (if h && (0 <? BurnUnits f) then reverse_burn (BurnUnits f) else ret tt) d1 = Ok (tt, d2) →
  (if String.eqb (Asset f) FeeAssetSUP && (0 <? SUPUnits f)
   then reverse_sup_fee now (w_address w) k (SUPUnits f) else ret tt) d2 = Ok (tt, d3) →
  fee_returned now (w_address w) k f d d3.
Proof.
  intros (A & B & C & _) Hw Hok Hb h G1 G2 G3. unfold fee_returned. fold h. destruct h eqn:Eh; cbn [andb] in G1, G2.
  - apply String.eqb_eq in Eh. rewrite Eh in G3. change (String.eqb FeeAssetHMC FeeAssetSUP) with false in G3.
    cbn [andb] in G3. inv_tx G3.
    assert (M : moved d d1 (at_addr DevFeeAddress (- PlatformUnits f)) (- PlatformUnits f)).
    { destruct (Z.ltb_spec 0 (PlatformUnits f)); [by apply (take_back_spec w)|]. replace (PlatformUnits f) with 0 by lia.
      inv_tx G1. eapply moved_ext; [by apply moved_none|intros b; by rewrite at_addr_0|done]. }
    pose proof (fl_burn _ _ _ _ (flow_moved _ _ _ _ M)). destruct (Z.ltb_spec 0 (BurnUnits f)).
    + apply reverse_burn_spec in G2 as [B2 L]; [|lia..]. pose proof (bm_burned _ _ _ B2). split; [lia|by exists d1].
    + replace (BurnUnits f) with 0 by lia. inv_tx G2. split; [lia|]. exists d3. split; [exact M|apply burn_moved_none].
  - inv_tx G1. inv_tx G2. destruct (String.eqb (Asset f) FeeAssetSUP && (0 <? SUPUnits f)); [|by inv_tx G3].
    by apply reverse_sup_fee_spec.
Qed.

Lemma RollbackUnstartedFuzzEscrow_spec `{ChainParams} `{Crypto} strict now k d d' : escrow_inv d →
  RollbackUnstartedFuzzEscrow strict now k d = Ok (tt, d') →
  let k' := trim_space k in
  (escrows d !! k' = None ∧ d' = d) ∨
  ∃ r w d1 d2, escrows d !! k' = Some r ∧ wallet d = Some w ∧ held r = budgetUnits r ∧
    fee_returned now (w_address w) k' (e_fee r) d d1 ∧
    creditUnits (w_address w) (budgetUnits r + fee_back (e_fee r)) d1 = Ok (tt, d2) ∧
    d' = set_escrows (delete k' (escrows d2)) d2.
Proof.
  intros I G k'. unfold RollbackUnstartedFuzzEscrow in G. rewrite (bind_run get _ d d d) in G by done. cbv zeta in G.
  fold k' in G. destruct (escrows d !! k') as [r|] eqn:Er; [right|left; by inv_tx G].
  pose proof (ei_rows d I k' r Er) as R. pose proof (ro_fee r R) as Hf.
  destruct (negb (String.eqb (status r) "open") || _ || _ || _ || _) eqn:Eo; [discriminate G|]. b2p.
  match goal with E : String.eqb (status r) _ = true |- _ => apply String.eqb_eq in E; rename E into Es end.
  assert (Hheld : held r = budgetUnits r) by (unfold held; rewrite Es; cbn; destruct (ro_budget r R); lia).
  pose proof (held_range r R).
  destruct (ei_wallet d I) as (w & Hw & Tw & Nw & Aw). apply bind_ok in G as (w' & d0 & W & G).
  unfold wallet_row in W. rewrite (bind_run get _ d d d), Hw in W by done. apply ret_ok in W as [<- <-]. cbv zeta in G.
  apply bind_ok in G as ([] & d1 & G1 & G). apply bind_ok in G as ([] & d2 & G2 & G).
  apply bind_ok in G as ([] & d3 & G3 & G). apply bind_ok in G as ([] & d4 & C & G).
  rewrite rollback_refund in C; [|done|destruct (ro_budget r R); lia].
  apply bind_ok in G as ([] & d5 & D & G). inv_tx D. apply econ_guard_run in G as [-> _].
  exists r, w, d3, d4. split; [reflexivity|]. split; [exact Hw|]. split; [exact Hheld|]. split; [|split; [exact C|reflexivity]].
  apply (rollback_fee_spec now w k' (e_fee r) d d1 d2 d3 Hf Hw (ei_ok d I)); try assumption.
  split; [apply I|].
  pose proof (escrow_rows_nonneg d I). pose proof (sum_nonneg balance_units d (λ y Hy, proj1 (proj1 Hy)) (ei_ok d I)).
  pose proof (ei_total d I). unfold escrow_total, two63, two64 in *. lia.
Qed.

(** Returning a SUP fee moves no HMC. *)
Lemma flow_sup_returned d d' w v k k' : 0 ≤ v → accounts_ok d → is_Some (accounts d !! w) →
  escrow_sup_total d < two63 → sup_returned d d' w v k k' → flow d d' 0 0.
Proof.
  intros Hv Hok [a Ea] Ht S. pose proof (Hok _ _ Ea) as (K1 & K2 & K3 & K4 & K5 & K6).
  assert (wallet d' = wallet d ∧ escrows d' = escrows d ∧ aside_tables d' = aside_tables d ∧
    settle_applied d' = settle_applied d) as (W & E & K & Se) by by rewrite (sr_rest _ _ _ _ _ _ S).
  set (f := λ a : Account, set_sup (balance_sup_units a + v) a) in *.
  assert (A : accounts d' = accounts (upd_account f w d)) by (rewrite accounts_upd; apply S).
  assert (Hs : balance_sup_units a ≤ sup_sum d)
    by apply (balance_le_sum balance_sup_units d _ a (λ y Hy, proj1 (proj1 (proj2 (proj2 Hy)))) Hok Ea).
  pose proof (sr_burned _ _ _ _ _ _ S) as Hb. unfold escrow_sup_total in Ht.
  assert (Eb : supTotalBurnedUnits d' = supTotalBurnedUnits d - v).
  { unfold supTotalBurnedUnits at 1, metaUint. rewrite (sr_meta _ _ _ _ _ _ S), lookup_insert_eq.
    apply u64_small. unfold two63, two64 in *. lia. }
  split; try done.
  - rewrite (acct_sum_accounts _ _ _ A), acct_sum_upd, Ea. cbn. lia.
  - unfold burned_units, econTotalsUnits, metaFloat. cbn [snd].
    assert (∀ k, k ≠ metaSUPTotalBurnedUnits → meta d' !! k = meta d !! k) as M.
    { intros j Hj. rewrite (sr_meta _ _ _ _ _ _ S). by rewrite lookup_insert_ne. }
    unfold metaUint. rewrite !M by done. lia.
  - intros _. unfold accounts_ok. rewrite A. apply accounts_ok_upd; [done|]. intros x Ex Hx. rewrite Ea in Ex.
    injection Ex as <-. unfold f, account_ok in *. cbn. lia.
  - intros (w' & Ww & Tw & Nw & Aw). exists w'. rewrite W, A, accounts_upd, lookup_alter_is_Some. done.
  - unfold mirrored. rewrite W. destruct (wallet d) as [w'|]; [|done]. intros ->. unfold hmc.
    rewrite A, mval_upd, Ea. case_bool_decide; [|done]. subst. unfold mval. by rewrite Ea.
  - split; [done|]. intros j (?&?&?&?)%not_burn_key. by rewrite (sr_meta _ _ _ _ _ _ S), lookup_insert_ne.
  - unfold escrow_sup_total. rewrite Eb, (acct_sum_accounts _ _ _ A), acct_sum_upd, Ea. cbn. lia.
  - rewrite Eb. lia.
Qed.

Lemma fee_returned_flow `{Crypto} now w k f d d' : fee_ok f → accounts_ok d → is_Some (accounts d !! w) →
  0 ≤ burned_units d → escrow_sup_total d < two63 →
  fee_returned now w k f d d' → ∃ s b, flow d d' s b ∧ 0 ≤ burned_units d + b ∧ s + b = - fee_back f.
Proof.
  intros Hf Hok Hw Hb Ht F. unfold fee_returned in F. unfold fee_back. destruct (String.eqb (Asset f) FeeAssetHMC).
  - destruct F as (Hb' & dm & M & B). eexists _, _.
    pose proof (flow_trans _ _ _ _ _ _ _ (flow_moved _ _ _ _ M) (flow_burn _ _ _ B)) as Fl.
    split; [exact Fl|]. rewrite <- (fl_burn _ _ _ _ Fl). lia.
  - exists 0, 0. split; [|lia]. destruct (_ && _); [|subst; apply flow_none].
    apply (flow_sup_returned d d' w _ _ _ (proj1 (proj1 (proj2 (proj2 Hf)))) Hok Hw Ht F).
Qed.

Lemma RollbackUnstartedFuzzEscrow_kept `{ChainParams} `{Crypto} strict now k d d' : escrow_inv d →
  RollbackUnstartedFuzzEscrow strict now k d = Ok (tt, d') → escrow_kept d d'.
Proof.
  intros I G. destruct (RollbackUnstartedFuzzEscrow_spec strict now k d d' I G)
    as [[_ ->]|(r & w & d1 & d2 & Er & Hw & Hh & F & C & ->)]; [by split|]. clear G.
  pose proof (ei_rows d I _ r Er) as R. pose proof (ro_fee r R) as Hf. pose proof (held_range r R).
  destruct (ei_wallet d I) as (w' & Hw' & Tw & Nw & Aw). rewrite Hw in Hw'. injection Hw' as <-.
  destruct (fee_returned_flow _ _ _ _ d d1 Hf (ei_ok d I) Aw (ei_burned d I) (proj2 (ei_sup d I)) F)
    as (s & b & F1 & Hb & Hs).
  assert (0 ≤ fee_back (e_fee r)) by (destruct Hf as (?&?&_); unfold fee_back; case_match; lia).
  pose proof (escrow_rows_nonneg d I). pose proof (ei_total d I) as Et. unfold escrow_total in Et.
  assert (held r ≤ msum held (escrows d)).
  { apply (msum_lookup_le held _ (trim_space k)); [|done]. intros j x Hj. apply (held_range x). by apply (ei_rows d I j). }
  assert (M : moved d1 d2 (at_addr (w_address w) (budgetUnits r + fee_back (e_fee r))) (budgetUnits r + fee_back (e_fee r))).
  { rewrite <- Tw at 1. apply creditUnits_spec; try done; [by apply (fl_wallet _ _ _ _ F1), I|by apply F1, I|lia| |by rewrite Tw].
    rewrite (fl_sum _ _ _ _ F1). lia. }
  pose proof (flow_trans _ _ _ _ _ _ _ F1 (flow_moved _ _ _ _ M)) as F2.
  apply (escrow_step_ok d d2 _ _ _ I F2); [lia| |]; rewrite (fl_escrows _ _ _ _ F2).
  - apply map_Forall_delete, I.
  - rewrite msum_delete_val, (held_at d _ r Er). lia.
Qed.

(** * The operations as steps *)

Inductive escrow_op `{ChainParams} `{Crypto} : DB → DB → Prop :=
  | es_open e signer strict now k budget runs sp asset d d' :
      OpenFuzzEscrowWithFee e signer strict now k budget runs sp asset d = Ok (tt, d') → escrow_op d d'
  | es_run k m d d' : payFuzzRunTx k m d = Ok (tt, d') → escrow_op d d'
  | es_run_floor e k m d d' : payFuzzRunFloorTx e k m d = Ok (tt, d') → escrow_op d d'
  | es_crash k m d d' : payFuzzCrashBonusTx k m d = Ok (tt, d') → escrow_op d d'
  | es_bounty k m sev d d' : payFuzzBountyTx k m sev d = Ok (tt, d') → escrow_op d d'
  | es_finalize strict k d d' : FinalizeFuzzEscrow strict k d = Ok (tt, d') → escrow_op d d'
  | es_cancel strict k d d' : CancelFuzzEscrow strict k d = Ok (tt, d') → escrow_op d d'
  | es_reopen strict k d d' : ReopenFuzzEscrowForSettleDrain strict k d = Ok (tt, d') → escrow_op d d'
  | es_rollback strict now k d d' : RollbackUnstartedFuzzEscrow strict now k d = Ok (tt, d') → escrow_op d d'
  | es_settle e strict now ev kind k m sev b d d' :
      ApplyFuzzSettleOnce e strict now ev kind k m sev d = Ok (b, d') → escrow_op d d'
  | es_mark now ev k kind b d d' : MarkFuzzSettleApplied now ev k kind d = Ok (b, d') → escrow_op d d'.

(** Removing a mark is kept apart: it is the one way to let an event be applied again. *)
Definition escrow_step `{ChainParams} `{Crypto} (d d' : DB) : Prop :=
  escrow_op d d' ∨ ∃ ev, UnmarkFuzzSettleApplied ev d = Ok (tt, d').

Lemma escrow_op_kept `{ChainParams} `{Crypto} d d' : escrow_op d d' → escrow_inv d → escrow_kept d d'.
Proof.
  intros S I. destruct S as [??????????? G|???? G|????? G|???? G|????? G|???? G|???? G|???? G|????? G|??????????? G|??????? G].
  - by eapply OpenFuzzEscrowWithFee_kept.
  - by eapply payFuzzRunAmountTx_kept.
  - by eapply payFuzzRunAmountTx_kept.
  - by eapply payFuzzCrashBonusTx_kept.
  - by eapply payFuzzBountyTx_kept.
  - rewrite (proj1 (FinalizeFuzzEscrow_eq _ _ _)), (proj2 (FinalizeFuzzEscrow_eq _ _ _)) in G.
    by eapply finalizeFuzzEscrowTx_kept.
  - rewrite (proj2 (FinalizeFuzzEscrow_eq _ _ _)) in G. by eapply finalizeFuzzEscrowTx_kept.
  - by eapply ReopenFuzzEscrowForSettleDrain_kept.
  - by eapply RollbackUnstartedFuzzEscrow_kept.
  - by eapply ApplyFuzzSettleOnce_kept.
  - unfold MarkFuzzSettleApplied in G. cbv zeta in G. destruct (negb _); [discriminate G|].
    apply mark_applied_run in G as [_ ->]. destruct b; [by apply mark_kept|by split].
Qed.

Lemma escrow_step_inv `{ChainParams} `{Crypto} d d' : escrow_step d d' → escrow_inv d →
  escrow_inv d' ∧ escrow_total d' = escrow_total d ∧ escrow_sup_total d' = escrow_sup_total d.
Proof.
  intros [S|[ev S]] I; [destruct (escrow_op_kept d d' S I) as (?&?&?&_); by split_and!|].
  unfold UnmarkFuzzSettleApplied in S. cbv zeta in S.
  destruct (String.eqb _ _); inv_tx S; [by split|by apply escrow_kept_same].
Qed.

(** * Properties *)

(** C11: Campaign escrows never create or lose money, whatever sequence of operations runs. Start
    from a well-formed ledger and apply opens (any package and fee asset), run, floor, bounty and
    crash payouts, finalizes, cancels, reopens, rollbacks and settle events in any order and for
    any campaigns: the sum of all HMC balances, of what the open escrows still hold and of the
    burned units is exactly what it was, and so is circulating plus burned SUP; every balance
    stays in range, the wallet row still mirrors its account, and no campaign ever pays more than
    its run pool or its bounty pool - in particular a finalized escrow that is reopened and closed
    again refunds nothing twice. *)
Theorem escrow_conserves `{ChainParams} `{Crypto} d d' : rtc escrow_step d d' → escrow_inv d →
  escrow_inv d' ∧ escrow_total d' = escrow_total d ∧ escrow_sup_total d' = escrow_sup_total d ∧
  (∀ k r, escrows d' !! k = Some r → runsPaidUnits r ≤ runsPoolUnits r ∧
     bountyPaidUnits r + crashBonusPaidUnits r + refundedBountyUnits r ≤ bountyPoolUnits r ∧
     runsPoolUnits r + bountyPoolUnits r = budgetUnits r).
Proof.
  intros S I.
  assert (escrow_inv d' ∧ escrow_total d' = escrow_total d ∧ escrow_sup_total d' = escrow_sup_total d) as (J & T & U).
  { revert I. induction S as [d|d1 d2 d3 S _ IH]; intros I; [by split|].
    destruct (escrow_step_inv d1 d2 S I) as (J & T & U). destruct (IH J) as (J' & T' & U').
    split; [done|]. split; congruence. }
  split; [done|]. split; [done|]. split; [done|]. intros k r Hr. destruct (ei_rows d' J k r Hr). lia.
Qed.
