(* ===== verification/EscrowUndo.v ===== *)
(** Campaign escrow: what one payout does, settle events applied exactly once, and an open that is
    rolled back.

    Builds on the money facts of EscrowInv. *)
From S2P Require Import Prelude Float64 GoText Params Emission OrderFee Json Ledger Address GoSort Transfers Lane SupLedger EscrowSplit FuzzEscrow EscrowInv.

(** * Undoing an open

    [shift d d' δ σ b c]: HMC balances change by [δ], SUP balances by [σ], the burn counters by [b]
    and [c]; HMS, orders, blocks and the other counters not at all. *)
Record shift (d d' : DB) (δ σ : string → Z) (b c : Z) : Prop := {
  sh_hmc : ∀ a, hmc d' a = hmc d a + δ a;
  sh_sup : ∀ a, sup d' a = sup d a + σ a;
  sh_hms : ∀ a, hms d' a = hms d a;
  sh_burn : burned_units d' = burned_units d + b;
  sh_sup_burn : supTotalBurnedUnits d' = supTotalBurnedUnits d + c;
  sh_wallet : wallet d' = (λ w, mkWallet (w_address w) (w_units w + δ (w_address w))) <$> wallet d;
  sh_tasks : tasks d' = tasks d;
  sh_blocks : blocks d' = blocks d;
  sh_meta : ∀ k, k ∈ [metaTotalMintedUnits; metaOrderEscrowUnits; metaEconomicsV2ActivationHeight] →
    meta d' !! k = meta d !! k;
  sh_dom : ∀ a, is_Some (accounts d !! a) → is_Some (accounts d' !! a);
}.

Lemma shift_trans d1 d2 d3 δ1 δ2 σ1 σ2 b1 b2 c1 c2 : shift d1 d2 δ1 σ1 b1 c1 → shift d2 d3 δ2 σ2 b2 c2 →
  shift d1 d3 (λ a, δ1 a + δ2 a) (λ a, σ1 a + σ2 a) (b1 + b2) (c1 + c2).
Proof.
  intros [A1 A2 A3 A4 A5 A6 A7 A8 A9 A10] [B1 B2 B3 B4 B5 B6 B7 B8 B9 B10].
  split; intros; rewrite ?B1, ?B2, ?B3, ?B4, ?B5, ?B6, ?B7, ?B8, ?A1, ?A2, ?A3, ?A4, ?A5, ?A7, ?A8; try lia; auto.
  - rewrite A6. destruct (wallet d1); cbn; [|done]. by rewrite Z.add_assoc.
  - by rewrite B9, A9.
Qed.

Lemma wallet_still (o : option Wallet) : o = (λ w, mkWallet (w_address w) (w_units w + 0)) <$> o.
Proof. destruct o as [[]|]; cbn; [|done]. by rewrite Z.add_0_r. Qed.

Lemma shift_moved d d' δ s : moved d d' δ s → shift d d' δ (λ _, 0) 0 0.
Proof.
  intros M. assert (Me : meta d' = meta d) by by apply (moved_frame meta _ _ _ _ (λ _ _ _, eq_refl) M).
  split; intros.
  - exact (ce_at _ _ _ _ _ (mv_hmc _ _ _ _ M) a).
  - exact (ce_at _ _ _ _ _ (mv_free _ _ _ _ M balance_sup_units (conj (λ _ _, eq_refl) eq_refl)) a).
  - pose proof (ce_at _ _ _ _ _ (mv_free _ _ _ _ M balance_hms_units (conj (λ _ _, eq_refl) eq_refl)) a) as F.
    unfold hms. rewrite F. apply Z.add_0_r.
  - rewrite (burned_units_meta d d' Me). lia.
  - unfold supTotalBurnedUnits, metaUint. rewrite Me. lia.
  - apply M.
  - by apply (moved_frame tasks _ _ _ _ (λ _ _ _, eq_refl) M).
  - by apply (moved_frame blocks _ _ _ _ (λ _ _ _, eq_refl) M).
  - by rewrite Me.
  - by apply (mv_dom _ _ _ _ M).
Qed.

Lemma shift_burn d d' v : burn_moved d d' v → shift d d' (λ _, 0) (λ _, 0) v 0.
Proof.
  intros [B R Mk]. assert (accounts d' = accounts d ∧ wallet d' = wallet d ∧ tasks d' = tasks d ∧
    blocks d' = blocks d) as (A & W & T & K) by by rewrite R.
  split; intros; unfold hmc, sup, hms; rewrite ?A; try done; try lia.
  - unfold supTotalBurnedUnits. rewrite (metaUint_at d d'); [lia|by apply Mk].
  - rewrite W. apply wallet_still.
  - apply Mk; intros ->; repeat (apply elem_of_cons in H as [H|H]; [discriminate H|]); by apply elem_of_nil in H.
Qed.

Lemma shift_escrows m d : shift d (set_escrows m d) (λ _, 0) (λ _, 0) 0 0.
Proof.
  split; intros; try done; try (symmetry; apply Z.add_0_r). apply wallet_still.
Qed.

Lemma not_elem_keys k : k ∈ [metaTotalMintedUnits; metaOrderEscrowUnits; metaEconomicsV2ActivationHeight] →
  k ≠ metaSUPTotalBurnedUnits.
Proof. intros H ->. repeat (apply elem_of_cons in H as [H|H]; [discriminate H|]). by apply elem_of_nil in H. Qed.

Lemma burned_units_sup d d' v : meta d' = <[metaSUPTotalBurnedUnits := v]> (meta d) → burned_units d' = burned_units d.
Proof.
  intros M. unfold burned_units, econTotalsUnits, metaFloat, metaUint. cbn [snd]. by rewrite M, !lookup_insert_ne.
Qed.

Lemma shift_sup_burned d d' w v k : 0 ≤ v → accounts_ok d → 0 ≤ supTotalBurnedUnits d →
  escrow_sup_total d < two63 → sup_burned d d' w v k → shift d d' (λ _, 0) (at_addr w (- v)) 0 v.
Proof.
  intros Hv Hok Hb Ht S. destruct (sup_burned_effect _ _ _ _ _ S) as [Ef O]. pose proof (sb_meta _ _ _ _ _ S) as M.
  pose proof (fl_sup _ _ _ _ (flow_sup d d' w v k Hv Hok Hb Ht S)) as T. unfold escrow_sup_total in T.
  rewrite (ce_sum _ _ _ _ _ Ef) in T.
  assert (wallet d' = wallet d ∧ tasks d' = tasks d ∧ blocks d' = blocks d) as (W & E & K)
    by by rewrite (sb_rest _ _ _ _ _ S).
  split; intros; try done; try lia.
  - unfold hmc. rewrite (proj1 (others_kept_at sup_lane d d' balance_units a O lane_free_sup_hmc eq_refl)). lia.
  - apply (ce_at _ _ _ _ _ Ef).
  - by apply (others_kept_at sup_lane d d' balance_hms_units a O lane_free_sup_hms).
  - rewrite (burned_units_sup d d' _ M). lia.
  - rewrite W. apply wallet_still.
  - rewrite M, lookup_insert_ne; [done|]. symmetry. by apply not_elem_keys.
  - destruct (sb_account _ _ _ _ _ S) as (x & _ & _ & ->). rewrite lookup_insert_is_Some'. by right.
Qed.

Lemma shift_sup_returned d d' w v k k' : 0 ≤ v → accounts_ok d → is_Some (accounts d !! w) →
  escrow_sup_total d < two63 → sup_returned d d' w v k k' → shift d d' (λ _, 0) (at_addr w v) 0 (- v).
Proof.
  intros Hv Hok [x Ex] Ht S. pose proof (fl_sup _ _ _ _ (flow_sup_returned d d' w v k k' Hv Hok (ex_intro _ x Ex) Ht S)) as T.
  set (f := λ a : Account, set_sup (balance_sup_units a + v) a).
  assert (A : accounts d' = accounts (upd_account f w d)) by (rewrite accounts_upd; apply S).
  assert (wallet d' = wallet d ∧ tasks d' = tasks d ∧ blocks d' = blocks d) as (W & E & K)
    by by rewrite (sr_rest _ _ _ _ _ _ S).
  assert (F : ∀ g a, mval g (accounts d') a = if bool_decide (w = a) then g (f x) else mval g (accounts d) a)
    by (intros g a; rewrite A, mval_upd, Ex; done).
  split; intros; try done.
  - unfold hmc. rewrite F. case_bool_decide; [|lia]. subst. unfold mval. rewrite Ex. cbn. lia.
  - unfold sup. rewrite F. unfold at_addr. case_bool_decide; [|lia]. subst. unfold mval. rewrite Ex. cbn. lia.
  - unfold hms. rewrite F. case_bool_decide; [|done]. subst. unfold mval. by rewrite Ex.
  - rewrite (burned_units_sup d d' _ (sr_meta _ _ _ _ _ _ S)). lia.
  - unfold escrow_sup_total in T. rewrite (acct_sum_accounts _ _ _ A), acct_sum_upd, Ex in T. cbn in T. lia.
  - rewrite W. apply wallet_still.
  - rewrite (sr_meta _ _ _ _ _ _ S), lookup_insert_ne; [done|]. symmetry. by apply not_elem_keys.
  - rewrite A, accounts_upd, lookup_alter_is_Some. done.
Qed.

(** ** The reversals succeed *)

Lemma take_back_total w v d : 0 < v < two63 → v ≤ hmc d DevFeeAddress → ∃ d', take_back_platform w v d = Ok (tt, d').
Proof.
  intros Hv Hd. unfold take_back_platform. rewrite (bind_run get _ d d d) by done. unfold hmc, mval in Hd.
  destruct (accounts d !! DevFeeAddress) as [a|]; [|lia]. destruct (Z.ltb_spec (balance_units a) v); [lia|].
  run_u64 lia. rewrite (bind_run (update_account _ _) _ _ tt _) by done.
  destruct (String.eqb DevFeeAddress w); by eexists.
Qed.

Lemma reverse_burn_total v d : v ≤ burned_units d → ∃ d', reverse_burn v d = Ok (tt, d').
Proof.
  intros Hb. unfold reverse_burn. rewrite (bind_run get _ d d d) by done.
  destruct (econTotalsUnits d) as [m b] eqn:Ee. assert (burned_units d = b) as Eb by (unfold burned_units; by rewrite Ee).
  destruct (Z.ltb_spec b v); [lia|]. by eexists.
Qed.

Lemma reverse_sup_fee_total `{Crypto} now w k v d : 0 ≤ v < two63 → v ≤ supTotalBurnedUnits d →
  sup_tx_history d !! reverted_key (supFeeRefKey SUPFeeProductHMCOrder w (campaign_ref k)) now = None →
  ∃ d', reverse_sup_fee now w k v d = Ok (tt, d').
Proof.
  intros Hv Hb Hf. unfold reverse_sup_fee. rewrite (bind_run get _ d d d) by done. cbv zeta.
  destruct (Z.ltb_spec (supTotalBurnedUnits d) v); [lia|].
  rewrite (bind_run (upsertMetaUint _ _) _ _ tt _) by done. run_u64 lia.
  rewrite (bind_run (update_account _ _) _ _ tt _) by done. unfold revert_sup_row. rewrite (bind_run get _ _ _ _) by done.
  set (d1 := upd_account _ _ _). assert (sup_tx_history d1 = sup_tx_history d) as ->
    by (unfold d1, upd_account; by destruct (accounts _ !! w)).
  set (key := supFeeRefKey SUPFeeProductHMCOrder w (campaign_ref k)) in *.
  destruct (sup_tx_history d !! key) as [r|]; [|by eexists]. cbv zeta. fold (reverted_key key now).
  rewrite Hf. by eexists.
Qed.

Lemma creditUnits_total a v d : wallet_ok d → accounts_ok d → 0 ≤ v → hmc_sum d + v < two63 →
  ∃ d', creditUnits a v d = Ok (tt, d').
Proof.
  intros (w & Hw & _) Hok Hv Hs. unfold creditUnits. cbv zeta. destruct (_ || _); [by eexists|].
  rewrite (bind_run get _ d d d) by done.
  assert ((match accounts d !! trim_space a with
    | Some x => if two64 - 1 - v <? balance_units x then fail "chain: balance overflow" else ret tt
    | None => ret tt end) d = Ok (tt, d)) as G.
  { destruct (accounts d !! trim_space a) as [x|] eqn:Ex; [|done].
    pose proof (balance_le_sum balance_units d _ x (λ y Hy, proj1 (proj1 Hy)) Hok Ex).
    destruct (Z.ltb_spec (two64 - 1 - v) (balance_units x)); [unfold two63, two64 in *; lia|done]. }
  rewrite (bind_run _ _ _ _ _ G). pose proof (sum_nonneg balance_units d (λ y Hy, proj1 (proj1 Hy)) Hok).
  run_u64 lia. rewrite (bind_run (upsert_account _ _ _) _ _ tt _) by done.
  unfold wallet_row. unfold bind at 1. rewrite (bind_run get _ _ _ _) by done. cbn. rewrite Hw. cbn.
  destruct (String.eqb _ _); by eexists.
Qed.

(** ** The guard after an undo *)

(** The economic guard reads nothing a null shift changes. *)
Lemma econ_shift `{ChainParams} strict d d' : shift d d' (λ _, 0) (λ _, 0) 0 0 → wallet_ok d →
  0 < metaUint d metaTotalMintedUnits 0 → checkEconomicInvariants strict d' = checkEconomicInvariants strict d.
Proof.
  intros S (w & Hw & _ & _ & Ha) Hm. pose proof (sh_meta _ _ _ _ _ _ S) as M.
  assert (Em : ∀ k f, k ∈ [metaTotalMintedUnits; metaOrderEscrowUnits; metaEconomicsV2ActivationHeight] →
    metaUint d' k f = metaUint d k f) by (intros k f Hk; unfold metaUint; by rewrite M).
  assert (Et : econTotalsUnits d' = econTotalsUnits d).
  { pose proof (sh_burn _ _ _ _ _ _ S) as B. unfold burned_units in B.
    assert (fst (econTotalsUnits d') = fst (econTotalsUnits d)) as A.
    { unfold econTotalsUnits. cbn [fst]. assert (∀ f, metaUint d' metaTotalMintedUnits f = metaUint d metaTotalMintedUnits f) as ->
        by (intros f; apply Em; left).
      destruct (Z.eqb_spec (metaUint d metaTotalMintedUnits (HMCToUnits GenesisRewardHMC)) 0) as [E|]; [|done].
      exfalso. revert Hm E. unfold metaUint. destruct (meta d !! metaTotalMintedUnits) as [[]|]; intros; lia. }
    destruct (econTotalsUnits d'), (econTotalsUnits d). cbn in *. subst. f_equal. lia. }
  unfold checkEconomicInvariants. rewrite Et.
  assert (economicsV2ActivationHeightQ d' = economicsV2ActivationHeightQ d) as ->
    by (unfold economicsV2ActivationHeightQ; by rewrite Em by set_solver).
  assert (tip_height d' = tip_height d) as -> by (unfold tip_height, max_block_index; by rewrite (sh_blocks _ _ _ _ _ _ S)).
  assert (openOrderLiabilityUnits d' = openOrderLiabilityUnits d) as ->
    by (unfold openOrderLiabilityUnits; by rewrite (sh_tasks _ _ _ _ _ _ S)).
  rewrite (Em metaOrderEscrowUnits) by set_solver.
  assert (Ew : wallet d' = wallet d) by (rewrite (sh_wallet _ _ _ _ _ _ S); symmetry; apply wallet_still).
  rewrite Ew, Hw. pose proof (sh_hmc _ _ _ _ _ _ S (w_address w)) as Eh. unfold hmc, mval in Eh.
  destruct (sh_dom _ _ _ _ _ _ S _ Ha) as [a' Ea']. destruct Ha as [a Ea]. rewrite Ea, Ea' in *.
  replace (balance_units a') with (balance_units a) by lia. done.
Qed.

(** ** The fee comes back *)

(** Booking and returning a fee, in the HMC and SUP columns. *)
Lemma fee_booked_shift `{Crypto} w f ref d d' : fee_ok f → f = no_fee ∨ Asset f = FeeAssetHMC ∨ Asset f = FeeAssetSUP →
  accounts_ok d → 0 ≤ supTotalBurnedUnits d → escrow_sup_total d < two63 → fee_booked w f ref d d' →
  let h := String.eqb (Asset f) FeeAssetHMC in let s := String.eqb (Asset f) FeeAssetSUP in
  shift d d' (at_addr DevFeeAddress (if h then PlatformUnits f else 0)) (at_addr w (if s then - SUPUnits f else 0))
    (if h then BurnUnits f else 0) (if s then SUPUnits f else 0) ∧
  (s = true → SUPUnits f = 0 ∨ sup_burned d d' w (SUPUnits f) (supFeeRefKey SUPFeeProductHMCOrder w ref)).
Proof.
  intros Hf Hk Hok Hb Ht F. unfold fee_booked in F.
  assert (Hz : ∀ x, shift x x (at_addr DevFeeAddress 0) (at_addr w 0) 0 0).
  { intros x. split; intros; rewrite ?at_addr_0; try done; try lia.
    rewrite (wallet_still (wallet x)) at 1. destruct (wallet x); cbn; [|done]. by rewrite at_addr_0. }
  destruct Hk as [->|[E|E]]; [cbn in F; subst; split; [apply Hz|done]|rewrite E in *..].
  - cbn in F. destruct F as (dm & M & B). split; [|done]. cbn.
    destruct (shift_trans _ _ _ _ _ _ _ _ _ _ _ (shift_moved _ _ _ _ M) (shift_burn _ _ _ B)) as [S1 S2 S3 S4 S5 S6 S7 S8 S9 S10].
    split; intros; rewrite ?S1, ?S2, ?S6, ?at_addr_0; try done; try lia; [|by apply S9|by apply S10].
    destruct (wallet d); cbn; [|done]. by rewrite Z.add_0_r.
  - cbn in F |- *. destruct F as [[-> ->]|F]; [split; [apply Hz|by left]|]. split; [|by right].
    pose proof (shift_sup_burned d d' w _ _ (proj1 (proj1 (proj2 (proj2 Hf)))) Hok Hb Ht F) as [S1 S2 S3 S4 S5 S6 S7 S8 S9 S10].
    split; intros; rewrite ?S1, ?at_addr_0; try done; [|by apply S9|by apply S10].
    rewrite S6. destruct (wallet d); cbn; [|done]. by rewrite at_addr_0.
Qed.

Lemma fee_returned_shift `{Crypto} now w k f d d' : fee_ok f → accounts_ok d → is_Some (accounts d !! w) →
  escrow_sup_total d < two63 → fee_returned now w k f d d' →
  let h := String.eqb (Asset f) FeeAssetHMC in let s := String.eqb (Asset f) FeeAssetSUP in
  shift d d' (at_addr DevFeeAddress (if h then - PlatformUnits f else 0)) (at_addr w (if s then SUPUnits f else 0))
    (if h then - BurnUnits f else 0) (if s then - SUPUnits f else 0).
Proof.
  intros Hf Hok Hw Ht F h s. unfold fee_returned in F. fold h s in F.
  assert (Hz : shift d d (at_addr DevFeeAddress 0) (at_addr w 0) 0 0).
  { split; intros; rewrite ?at_addr_0; try done; try lia.
    rewrite (wallet_still (wallet d)) at 1. destruct (wallet d); cbn; [|done]. by rewrite at_addr_0. }
  destruct h eqn:Eh.
  - apply String.eqb_eq in Eh. assert (s = false) as -> by (unfold s; by rewrite Eh).
    destruct F as (_ & dm & M & B).
    destruct (shift_trans _ _ _ _ _ _ _ _ _ _ _ (shift_moved _ _ _ _ M) (shift_burn _ _ _ B)) as [S1 S2 S3 S4 S5 S6 S7 S8 S9 S10].
    split; intros; rewrite ?S1, ?S2, ?S6, ?at_addr_0; try done; try lia; [|by apply S9|by apply S10].
    destruct (wallet d); cbn; [|done]. by rewrite Z.add_0_r.
  - destruct s; cbn [andb] in F; [|by subst]. pose proof (proj1 (proj1 (proj2 (proj2 Hf)))) as H0.
    destruct (Z.ltb_spec 0 (SUPUnits f)); [|replace (SUPUnits f) with 0 by lia; by subst].
    pose proof (shift_sup_returned d d' w _ _ _ H0 Hok Hw Ht F) as [S1 S2 S3 S4 S5 S6 S7 S8 S9 S10].
    split; intros; rewrite ?S1, ?at_addr_0; try done; [|by apply S9|by apply S10].
    rewrite S6. destruct (wallet d); cbn; [|done]. by rewrite at_addr_0.
Qed.

(** The fee steps of a rollback succeed when the money is where the booking put it. *)
Lemma fee_return_total `{Crypto} now w k f d : fee_ok f → 0 ≤ burned_units d < two64 → wallet d = Some w → accounts_ok d →
  let h := String.eqb (Asset f) FeeAssetHMC in let s := String.eqb (Asset f) FeeAssetSUP in
  (h = true → PlatformUnits f ≤ hmc d DevFeeAddress ∧ BurnUnits f ≤ burned_units d) →
  (s = true → SUPUnits f < two63 ∧ SUPUnits f ≤ supTotalBurnedUnits d ∧
     sup_tx_history d !! reverted_key (supFeeRefKey SUPFeeProductHMCOrder (w_address w) (campaign_ref k)) now = None) →
  ∃ d1 d2 d3,
    (if h && (0 <? PlatformUnits f) then take_back_platform (w_address w) (PlatformUnits f) else ret tt) d = Ok (tt, d1) ∧
    (if h && (0 <? BurnUnits f) then reverse_burn (BurnUnits f) else ret tt) d1 = Ok (tt, d2) ∧
    (if s && (0 <? SUPUnits f) then reverse_sup_fee now (w_address w) k (SUPUnits f) else ret tt) d2 = Ok (tt, d3).
Proof.
  intros (F1 & F2 & F3 & F4) Hb Hw Hok h s Hh Hs. destruct h eqn:Eh; cbn [andb].
  - apply String.eqb_eq in Eh. assert (s = false) as -> by (unfold s; by rewrite Eh). cbn [andb].
    destruct (Hh eq_refl) as [P B].
    assert (∃ d1, (if 0 <? PlatformUnits f then take_back_platform (w_address w) (PlatformUnits f) else ret tt) d = Ok (tt, d1)
      ∧ burned_units d1 = burned_units d) as (d1 & G1 & B1).
    { destruct (Z.ltb_spec 0 (PlatformUnits f)); [|by exists d].
      destruct (take_back_total (w_address w) (PlatformUnits f) d ltac:(lia) P) as [d1 G]. exists d1. split; [done|].
      pose proof (fl_burn _ _ _ _ (flow_moved _ _ _ _ (take_back_spec w _ d d1 Hw Hok F2 G))). lia. }
    assert (∃ d2, (if 0 <? BurnUnits f then reverse_burn (BurnUnits f) else ret tt) d1 = Ok (tt, d2)) as [d2 G2].
    { destruct (Z.ltb_spec 0 (BurnUnits f)); [|by eexists]. apply reverse_burn_total. lia. }
    exists d1, d2, d2. done.
  - exists d, d. destruct s; cbn [andb].
    + destruct (Hs eq_refl) as (S1 & S2 & S3).
      destruct (Z.ltb_spec 0 (SUPUnits f)).
      * destruct (reverse_sup_fee_total now (w_address w) k (SUPUnits f) d ltac:(lia) S2 S3) as [d3 G]. by exists d3.
      * by exists d.
    + by exists d.
Qed.

(** A rollback of a fresh row runs to the guard. *)
Lemma rollback_runs `{ChainParams} `{Crypto} strict now k r w d d1 d2 d3 d4 : fee_ok (e_fee r) →
  0 ≤ budgetUnits r < 2 ^ 53 → escrows d !! trim_space k = Some r → status r = "open" → runsPaidUnits r = 0 → bountyPaidUnits r = 0 →
  crashBonusPaidUnits r = 0 → refundedBountyUnits r = 0 → wallet d = Some w →
  let f := e_fee r in
  let h := String.eqb (Asset f) FeeAssetHMC in let s := String.eqb (Asset f) FeeAssetSUP in
  (if h && (0 <? PlatformUnits f) then take_back_platform (w_address w) (PlatformUnits f) else ret tt) d = Ok (tt, d1) →
  (if h && (0 <? BurnUnits f) then reverse_burn (BurnUnits f) else ret tt) d1 = Ok (tt, d2) →
  (if s && (0 <? SUPUnits f) then reverse_sup_fee now (w_address w) (trim_space k) (SUPUnits f) else ret tt) d2 = Ok (tt, d3) →
  creditUnits (w_address w) (budgetUnits r + fee_back f) d3 = Ok (tt, d4) →
  let d' := set_escrows (delete (trim_space k) (escrows d4)) d4 in
  checkEconomicInvariants strict d' = Ok tt →
  RollbackUnstartedFuzzEscrow strict now k d = Ok (tt, d').
Proof.
  intros Hf Hb Hr E1 E2 E3 E4 E5 Hw f h s G1 G2 G3 G4 d' G5. unfold RollbackUnstartedFuzzEscrow.
  rewrite (bind_run get _ d d d) by done. cbv zeta. rewrite Hr, E1, E2, E3, E4, E5.
  change (negb (String.eqb "open" "open") || negb (0 =? 0) || negb (0 =? 0) || negb (0 =? 0) || negb (0 =? 0)) with false.
  cbv iota.
  rewrite (bind_run (wallet_row _) _ d w d) by (unfold wallet_row; rewrite (bind_run get _ d d d), Hw by done; done).
  fold f h s. rewrite (bind_run _ _ _ _ _ G1), (bind_run _ _ _ _ _ G2), (bind_run _ _ _ _ _ G3).
  pose proof (rollback_refund f (budgetUnits r) Hf Hb) as R. cbv zeta in R. fold h in R. rewrite R.
  rewrite (bind_run _ _ _ _ _ G4). rewrite (bind_run (modify _) _ _ tt _) by done.
  unfold econ_guard. rewrite (bind_run get _ _ _ _) by done. unfold lift. fold d'. by rewrite G5.
Qed.

Lemma shift_ext d d' δ δ' σ σ' b b' c c' : shift d d' δ σ b c → (∀ a, δ a = δ' a) → (∀ a, σ a = σ' a) →
  b = b' → c = c' → shift d d' δ' σ' b' c'.
Proof.
  intros [S1 S2 S3 S4 S5 S6 S7 S8 S9 S10] Hδ Hσ <- <-.
  split; intros; rewrite <- ?Hδ, <- ?Hσ; try done; [|by apply S9|by apply S10].
  rewrite S6. destruct (wallet d); cbn; [|done]. by rewrite Hδ.
Qed.

Lemma reverted_key_ne key now : reverted_key key now ≠ key.
Proof.
  intros E. apply (f_equal String.length) in E. unfold reverted_key in E. rewrite !string_length_app in E. cbn in E. lia.
Qed.

(** A null shift restores every balance, the wallet and both counters. *)
Lemma shift_null d d' : shift d d' (λ _, 0) (λ _, 0) 0 0 →
  (∀ b, hmc d' b = hmc d b ∧ sup d' b = sup d b ∧ hms d' b = hms d b) ∧ wallet d' = wallet d ∧
  burned_units d' = burned_units d ∧ supTotalBurnedUnits d' = supTotalBurnedUnits d.
Proof.
  intros [S1 S2 S3 S4 S5 S6 _ _ _ _]. split; [|split; [|lia]].
  - intros b. rewrite S1, S2, S3. lia.
  - rewrite S6. symmetry. apply wallet_still.
Qed.

Section undo.
Context `{ChainParams} `{Crypto} (strict : bool) (now now' : Z) (k : string) (runs : Z).
Context (d d' : DB) (w : Wallet) (fee : OrderFeeV2) (name : string) (s : SplitUnits) (d1 d2 : DB).
Hypothesis Hinv : escrow_inv d.
Hypothesis Hinv' : escrow_inv d'.
Hypothesis Hop : opened strict now k runs d d' w fee name s d1 d2.
Hypothesis Hfresh : sup_tx_history d !!
  reverted_key (supFeeRefKey SUPFeeProductHMCOrder (w_address w) (campaign_ref k)) now' = None.

Let key := supFeeRefKey SUPFeeProductHMCOrder (w_address w) (campaign_ref k).
Let h := String.eqb (Asset fee) FeeAssetHMC.
Let su := String.eqb (Asset fee) FeeAssetSUP.
Let w' := mkWallet (w_address w) (w_units w + (- (TotalUnits s + HMCUnits fee) + at_addr DevFeeAddress (if h then PlatformUnits fee else 0) (w_address w))).

Lemma undo_fees : fee_ok fee ∧ HMCUnits fee = fee_back fee ∧ 0 ≤ TotalUnits s < 2 ^ 53.
Proof using Hop.
  destruct Hop as [Hf Hk (total & pool & mp & Sp & Ht & _ & Hb) _ _ _ _ _ _ _]. split; [done|].
  rewrite (so_total _ _ _ _ _ Sp). destruct Hf as (A & B & C & D). split; [|lia].
  rewrite (HMCUnits_eq fee) by done. unfold fee_back. destruct Hk as [->|[E|E]]; [done|rewrite E; done..].
Qed.

(** What the open did to the ledger, as one shift. *)
Lemma undo_opened : shift d d' (λ a, at_addr (w_address w) (- (TotalUnits s + HMCUnits fee)) a
      + at_addr DevFeeAddress (if h then PlatformUnits fee else 0) a)
    (at_addr (w_address w) (if su then - SUPUnits fee else 0))
    (if h then BurnUnits fee else 0) (if su then SUPUnits fee else 0) ∧
  (su = true → SUPUnits fee < two63 ∧ SUPUnits fee ≤ supTotalBurnedUnits d' ∧
     sup_tx_history d' !! reverted_key key now' = None) ∧
  (h = true → PlatformUnits fee ≤ hmc d' DevFeeAddress ∧ BurnUnits fee ≤ burned_units d').
Proof using All.
  destruct Hop as [Hf Hk _ Hw Hn _ M B Hd' _]. pose proof (flow_moved _ _ _ _ M) as Fm. destruct (ei_sup d Hinv) as [Sb St].
  destruct (fee_booked_shift _ _ _ _ _ Hf Hk (mv_ok _ _ _ _ M) (fl_sup_burned _ _ _ _ Fm Sb)
    ltac:(by rewrite (fl_sup _ _ _ _ Fm)) B) as [S2 Hs]. fold h su key in S2, Hs.
  pose proof (shift_trans _ _ _ _ _ _ _ _ _ _ _ (shift_moved _ _ _ _ M) (shift_trans _ _ _ _ _ _ _ _ _ _ _ S2
    (shift_escrows (<[k := opened_row now runs name s fee]> (escrows d2)) d2))) as S. rewrite <- Hd' in S.
  assert (Sx : shift d d' (λ a, at_addr (w_address w) (- (TotalUnits s + HMCUnits fee)) a
      + at_addr DevFeeAddress (if h then PlatformUnits fee else 0) a)
    (at_addr (w_address w) (if su then - SUPUnits fee else 0))
    (if h then BurnUnits fee else 0) (if su then SUPUnits fee else 0))
    by (eapply shift_ext; [exact S|intros a; cbn; lia|intros a; cbn; lia|lia|lia]).
  split; [exact Sx|]. split.
  - intros E. specialize (Hs E). pose proof (sh_sup_burn _ _ _ _ _ _ Sx) as C. rewrite E in C. split; [|split; [lia|]].
    + destruct Hs as [->|Hs]; [done|]. destruct (sb_account _ _ _ _ _ Hs) as (x & Ex & L & _).
      destruct (mv_ok _ _ _ _ M _ _ Ex) as (_ & _ & K & _). lia.
    + assert (Eh : sup_tx_history d1 = sup_tx_history d) by by apply (moved_frame sup_tx_history _ _ _ _ (λ _ _ _, eq_refl) M).
      rewrite Hd'. cbn [sup_tx_history set_escrows]. destruct Hs as [E0|Hs].
      * unfold fee_booked in B. fold su in B. rewrite E in B. apply String.eqb_eq in E. rewrite E in B. cbn in B.
        destruct B as [[_ ->]|B]; [by rewrite Eh|]. destruct (sb_hist _ _ _ _ _ B) as [x ->].
        rewrite lookup_insert_ne, Eh; [done|]. apply not_eq_sym, reverted_key_ne.
      * destruct (sb_hist _ _ _ _ _ Hs) as [x ->]. rewrite lookup_insert_ne, Eh; [done|]. apply not_eq_sym, reverted_key_ne.
  - intros E. rewrite (sh_hmc _ _ _ _ _ _ Sx), (sh_burn _ _ _ _ _ _ Sx), E. pose proof (ei_burned d Hinv).
    pose proof (hmc_nonneg d1 DevFeeAddress (mv_ok _ _ _ _ M)) as P. unfold hmc in P at 1.
    rewrite (ce_at _ _ _ _ _ (mv_hmc _ _ _ _ M)) in P. fold (hmc d DevFeeAddress) in P. rewrite at_addr_eq. lia.
Qed.
Lemma undo_runs : checkEconomicInvariants strict d = Ok tt → 0 < metaUint d metaTotalMintedUnits 0 →
  trim_space k = k →
  ∃ d3, RollbackUnstartedFuzzEscrow strict now' k d' = Ok (tt, d3) ∧
    shift d d3 (λ _, 0) (λ _, 0) 0 0 ∧ escrows d3 = escrows d.
Proof using All.
  intros Hg Hm Tk. destruct undo_fees as (Hf & Eh & Ht). destruct undo_opened as (S & Hs & Hh).
  pose proof (opened_flow _ _ _ _ _ _ _ _ _ _ _ _ Hinv Hop) as (q & b & Fo & _ & _). pose proof Hop as [_ _ _ Hw Hn _ _ _ Hd' _].
  set (r := opened_row now runs name s fee).
  assert (Er : escrows d' !! k = Some r) by (rewrite Hd'; cbn; apply lookup_insert_eq).
  assert (Hw' : wallet d' = Some w') by (rewrite (sh_wallet _ _ _ _ _ _ S), Hw; cbn; by rewrite at_addr_eq).
  pose proof (escrow_rows_nonneg d' Hinv'). pose proof (sum_nonneg balance_units d' (λ y Hy, proj1 (proj1 Hy)) (ei_ok d' Hinv')).
  pose proof (ei_total d' Hinv') as Et. unfold escrow_total in Et. pose proof (ei_burned d' Hinv').
  destruct (ei_wallet d' Hinv') as (w0 & Hw0 & Tw & Nw & Aw). rewrite Hw' in Hw0. injection Hw0 as <-.
  destruct (fee_return_total now' w' k fee d' Hf ltac:(unfold two63, two64 in *; lia) Hw' (ei_ok d' Hinv') Hh Hs)
    as (e1 & e2 & e3 & G1 & G2 & G3).
  pose proof (rollback_fee_spec now' w' k fee d' e1 e2 e3 Hf Hw' (ei_ok d' Hinv') ltac:(unfold two63, two64 in *; lia) G1 G2 G3) as F.
  destruct (fee_returned_flow _ _ _ _ d' e3 Hf (ei_ok d' Hinv') Aw (ei_burned d' Hinv') (proj2 (ei_sup d' Hinv')) F) as (x & y & Fl & Hy & Hxy).
  pose proof (fee_returned_shift _ _ _ _ d' e3 Hf (ei_ok d' Hinv') Aw (proj2 (ei_sup d' Hinv')) F) as S3. cbv zeta in S3.
  assert (Hb : held r ≤ msum held (escrows d')).
  { apply (msum_lookup_le held _ k); [|exact Er]. intros j z Hj. apply (held_range z). by apply (ei_rows d' Hinv' j). }
  assert (Hbr : held r = TotalUnits s) by (pose proof (ei_rows d' Hinv' k r Er) as [_ _ R _ _ _]; unfold held, r in *; cbn in *; lia).
  assert (Hfb : 0 ≤ fee_back fee) by (destruct Hf as (?&?&_); unfold fee_back; case_match; lia).
  assert (Hroom : hmc_sum e3 + (TotalUnits s + fee_back fee) < two63) by (rewrite (fl_sum _ _ _ _ Fl); lia).
  destruct (creditUnits_total (w_address w') (TotalUnits s + fee_back fee) e3) as [e4 G4];
    [by apply (fl_wallet _ _ _ _ Fl), Hinv'|by apply Fl, Hinv'|lia|done|].
  assert (M : moved e3 e4 (at_addr (w_address w') (TotalUnits s + fee_back fee)) (TotalUnits s + fee_back fee)).
  { rewrite <- Tw at 1. apply creditUnits_spec; [by apply (fl_wallet _ _ _ _ Fl), Hinv'|by apply Fl, Hinv'|lia|done|by rewrite Tw|done]. }
  set (d3 := set_escrows (delete k (escrows e4)) e4).
  assert (Sx : shift d d3 (λ _, 0) (λ _, 0) 0 0).
  { eapply shift_ext; [exact (shift_trans _ _ _ _ _ _ _ _ _ _ _ S (shift_trans _ _ _ _ _ _ _ _ _ _ _ S3
      (shift_trans _ _ _ _ _ _ _ _ _ _ _ (shift_moved _ _ _ _ M) (shift_escrows (delete k (escrows e4)) e4))))|..].
    - intros a. cbn [w_address w']. fold h. rewrite Eh. unfold at_addr, w'. cbn [w_address]. destruct h; repeat case_bool_decide; lia.
    - intros a. fold su. unfold at_addr, w'. cbn [w_address]. destruct su; repeat case_bool_decide; lia.
    - fold h. destruct h; lia.
    - fold su. destruct su; lia. }
  assert (Ee : escrows d3 = escrows d).
  { cbn [escrows set_escrows d3]. rewrite (moved_frame escrows _ _ _ _ (λ _ _ _, eq_refl) M), (fl_escrows _ _ _ _ Fl), Hd'.
    cbn [escrows set_escrows]. rewrite (fl_escrows _ _ _ _ Fo). by rewrite delete_insert_eq, delete_id. }
  exists d3. split; [|split; [exact Sx|exact Ee]].
  pose proof (rollback_runs strict now' k r w' d' e1 e2 e3 e4) as R. rewrite Tk in R.
  apply R; [exact Hf|exact Ht|exact Er|reflexivity..|exact Hw'|exact G1|exact G2|exact G3|exact G4|].
  fold d3. rewrite (econ_shift strict d d3 Sx (ei_wallet d Hinv) Hm). exact Hg.
Qed.
End undo.

(** * Properties *)

(** C16: An escrow that is opened and rolled back before it paid anything leaves no trace in the
    money. If an open succeeds on a well-formed ledger that passes the economic guard, the rollback
    succeeds on its result - it cannot be refused for lack of platform balance, burn counter or
    wallet row - and afterwards every HMC, SUP and HMS balance, the wallet row, both burn counters
    and the set of escrows are exactly as before the open, for each fee asset. The reverted fee row
    needs a name no earlier row has, which holds unless the same fee was reverted in the same
    second. *)
Theorem open_rollback_roundtrip `{ChainParams} `{Crypto} e signer strict now now' k budget runs sp asset d d1 :
  escrow_inv d → checkEconomicInvariants strict d = Ok tt → 0 < metaUint d metaTotalMintedUnits 0 →
  OpenFuzzEscrowWithFee e signer strict now k budget runs sp asset d = Ok (tt, d1) →
  (∀ w, wallet d = Some w → sup_tx_history d !! reverted_key
     (supFeeRefKey SUPFeeProductHMCOrder (w_address w) (campaign_ref (trim_space k))) now' = None) →
  ∃ d2, RollbackUnstartedFuzzEscrow strict now' k d1 = Ok (tt, d2) ∧
    (∀ b, hmc d2 b = hmc d b ∧ sup d2 b = sup d b ∧ hms d2 b = hms d b) ∧ wallet d2 = wallet d ∧
    burned_units d2 = burned_units d ∧ supTotalBurnedUnits d2 = supTotalBurnedUnits d ∧ escrows d2 = escrows d.
Proof.
  intros I Hg Hm G Hf. destruct (OpenFuzzEscrowWithFee_kept e signer strict now k budget runs sp asset d d1 I G) as [I1 _].
  apply OpenFuzzEscrowWithFee_spec in G as (_ & w & fee & name & s & x1 & x2 & O); [|exact I].
  destruct (undo_runs strict now now' (trim_space k) runs d d1 w fee name s x1 x2 I I1 O
    (Hf w (op_wallet _ _ _ _ _ _ _ _ _ _ _ _ O)) Hg Hm (trim_space_idem k)) as (d2 & R & S & E).
  exists d2. split.
  - unfold RollbackUnstartedFuzzEscrow in *. by rewrite trim_space_idem in R.
  - destruct (shift_null d d2 S) as (A & B & C & D).
    split; [exact A|]. split; [exact B|]. split; [exact C|]. split; [exact D|exact E].
Qed.

(** One run pays exactly its slice, to exactly one account. A successful run payout credits the
    trimmed miner address with the smaller of the run's slice (the stored per-run units, or their
    floor share) and what the run pool still holds, which is more than zero; moves no other HMC
    balance and no SUP or HMS balance; and charges exactly that to the campaign, counting one more
    run. It is refused when the campaign is closed. *)
Theorem payFuzzRun_exact k m f d d' : escrow_inv d → payFuzzRunAmountTx k m f d = Ok (tt, d') →
  ∃ r, escrows d !! k = Some r ∧ status r ≠ "closed" ∧
    let pay := Z.min (run_slice (perRunUnits r) f) (runsPoolUnits r - runsPaidUnits r) in
    0 < pay ∧ (∀ b, hmc d' b = hmc d b + at_addr (trim_space m) pay b ∧ sup d' b = sup d b ∧ hms d' b = hms d b) ∧
    escrows d' = <[k := add_run pay r]> (escrows d).
Proof.
  intros I (r & pay & d1 & Hr & Es & -> & Hp & M & ->)%payFuzzRunAmountTx_spec; [|done].
  exists r. split; [done|]. split; [intros E; by rewrite E in Es|]. cbv zeta. split; [done|].
  destruct (shift_moved _ _ _ _ M) as [S1 S2 S3 _ _ _ _ _ _ _]. split.
  - intros b. split; [apply S1|]. split; [|apply S3]. transitivity (sup d b + 0); [apply S2|lia].
  - cbn. by rewrite (moved_frame escrows _ _ _ _ (λ _ _ _, eq_refl) M).
Qed.

Lemma escrow_ops_marks `{ChainParams} `{Crypto} d d' : rtc escrow_op d d' → escrow_inv d →
  escrow_inv d' ∧ ∀ ev, is_Some (settle_applied d !! ev) → is_Some (settle_applied d' !! ev).
Proof.
  induction 1 as [d|d1 d2 d3 S _ IH]; intros I; [by split|].
  destruct (escrow_op_kept d1 d2 S I) as (J & _ & _ & M & _). destruct (IH J) as [J' M']. split; [done|auto].
Qed.

(** C13: A settle event is applied exactly once. When [ApplyFuzzSettleOnce] succeeds it reports
    [true] exactly if the event was not marked yet; [true] means that its payment or close ran, in
    the same transaction that recorded the mark; [false] means that nothing changed. From then on -
    whatever opens, payouts, closes, rollbacks and other settle events follow - every further call
    with this event id, for any kind, campaign, miner or time, reports [false] and changes nothing
    or is refused as malformed. *)
Theorem ApplyFuzzSettleOnce_exactly_once (e : Env) `{ChainParams} `{Crypto} strict now ev kind k m sev d b d1 :
  escrow_inv d → ApplyFuzzSettleOnce e strict now ev kind k m sev d = Ok (b, d1) →
  b = bool_decide (settle_applied d !! trim_space ev = None) ∧
  (b = false → d1 = d) ∧
  (b = true → settle_kind e strict (trim_space (to_lower kind)) (trim_space k) (trim_space m) (trim_space (to_lower sev))
     (set_settle (<[trim_space ev := mkSettleRow (trim_space k) (trim_space (to_lower kind)) now]> (settle_applied d)) d)
     = Ok (tt, d1)) ∧
  (∀ d2 e' strict' now' ev' kind' k' m' sev' x, rtc escrow_op d1 d2 → trim_space ev' = trim_space ev →
     ApplyFuzzSettleOnce e' strict' now' ev' kind' k' m' sev' d2 = Ok x → x = (false, d2)).
Proof.
  intros I G. pose proof (ApplyFuzzSettleOnce_kept e strict now ev kind k m sev d b d1 I G) as (I1 & _ & _ & Mk & _).
  unfold ApplyFuzzSettleOnce in G. cbv zeta in G. destruct (negb (settle_args_ok _ _ _)); [discriminate G|].
  apply bind_ok in G as (new & d0 & M & G). apply mark_applied_run in M as [-> ->]. cbv zeta.
  assert (b = bool_decide (settle_applied d !! trim_space ev = None) ∧ is_Some (settle_applied d1 !! trim_space ev) ∧
    (b = false → d1 = d) ∧ (b = true → settle_kind e strict (trim_space (to_lower kind)) (trim_space k) (trim_space m)
      (trim_space (to_lower sev)) (set_settle (<[trim_space ev := mkSettleRow (trim_space k) (trim_space (to_lower kind)) now]>
      (settle_applied d)) d) = Ok (tt, d1))) as (A1 & A2 & A3 & A4).
  { case_bool_decide as E; cbn [negb] in G.
    - apply bind_ok in G as ([] & d2 & K & G). apply ret_ok in G as [<- <-]. split; [done|]. split; [|done].
      destruct (settle_kind_kept e strict _ _ _ _ _ d2 (proj1 (mark_kept _ _ _ I)) K) as (_ & _ & _ & Mk2 & _).
      apply Mk2. cbn. rewrite lookup_insert_eq. by eexists.
    - apply ret_ok in G as [<- <-]. split; [done|]. split; [by apply not_eq_None_Some|done]. }
  split; [exact A1|]. split; [exact A3|]. split; [exact A4|].
  intros d2 e' strict' now' ev' kind' k' m' sev' x R Ev G2. destruct (escrow_ops_marks d1 d2 R I1) as [_ Mr].
  destruct (Mr _ A2) as [row Hrow]. unfold ApplyFuzzSettleOnce in G2. cbv zeta in G2.
  destruct (negb (settle_args_ok _ _ _)); [discriminate G2|].
  unfold mark_applied in G2. unfold bind at 1 in G2. rewrite (bind_run get _ d2 d2 d2), Ev, Hrow in G2 by done.
  cbn in G2. by injection G2 as <-.
Qed.

(** ** A concrete campaign

    A wallet of 100 HMC and 100 SUP at a tip under Economics v2. *)
Definition escrow_ex_w : string := toy_addr "a".
Definition escrow_ex_db : DB :=
  set_blocks {[ 600000 := mkBlockRow "h" "g" (mkBlock 600000 5 "g" "h" "" "" "" 0 "" (mkTask "" "" "" "") "" "") ]}
   (set_wallet (Some (mkWallet escrow_ex_w 10000000000))
    (set_meta {[ metaTotalMintedUnits := MUint 10000000000 ]}
     (ups_account (mkAccount 10000000000 0 10000000000 0 0 0) (λ x, x) escrow_ex_w empty_db))).

#[local] Instance escrow_ex_params : ChainParams := params_of empty_env 0.
#[local] Instance escrow_ex_crypto : Crypto := toy_crypto.

Definition escrow_ex_open (asset : string) : DB :=
  run (OpenFuzzEscrowWithFee empty_env None true 7 " camp " (f_of_Z 10) 100 EscrowSplit2080 asset) escrow_ex_db.
Definition escrow_ex_paid : DB := run (payFuzzRunTx "camp" (toy_addr "b")) (escrow_ex_open "HMC").

Lemma escrow_ex_inv : escrow_inv escrow_ex_db.
Proof.
  split.
  - unfold accounts_ok, escrow_ex_db. cbn [accounts set_blocks set_wallet set_meta].
    apply (accounts_ok_ups _ _ _ empty_db); [apply map_Forall_empty| |done]. intros _. unfold account_ok, two63. cbn. lia.
  - exists (mkWallet escrow_ex_w 10000000000). split; [reflexivity|]. split; [vm_compute; reflexivity|].
    split; [discriminate|]. eexists. vm_compute. reflexivity.
  - by vm_compute.
  - by vm_compute.
  - apply map_Forall_empty.
  - by vm_compute.
  - by vm_compute.
  - by split; vm_compute.
Qed.

Example escrow_ex_numbers :
  let d := escrow_ex_paid in
  (hmc d escrow_ex_w, hmc d (toy_addr "b"), hmc d DevFeeAddress, burned_units d, wallet d)
  = (9000000000, 1800000, 50000000, 50000000, Some (mkWallet escrow_ex_w 9000000000)).
Proof. vm_compute. reflexivity. Qed.

Lemma escrow_ex_open_ok : OpenFuzzEscrowWithFee empty_env None true 7 " camp " (f_of_Z 10) 100 EscrowSplit2080 "HMC" escrow_ex_db
  = Ok (tt, escrow_ex_open "HMC").
Proof. vm_compute. reflexivity. Qed.

Lemma escrow_conserves_witness :
  rtc escrow_step escrow_ex_db escrow_ex_paid ∧ escrow_total escrow_ex_paid = 10000000000.
Proof.
  assert (R : rtc escrow_step escrow_ex_db escrow_ex_paid).
  { eapply rtc_l; [left; exact (es_open _ _ _ _ _ _ _ _ _ _ _ escrow_ex_open_ok)|].
    apply rtc_once. left. apply (es_run "camp" (toy_addr "b")). vm_compute. reflexivity. }
  split; [exact R|]. destruct (escrow_conserves escrow_ex_db escrow_ex_paid R escrow_ex_inv) as (_ & E & _).
  rewrite E. vm_compute. reflexivity.
Defined.

Lemma open_rollback_roundtrip_witness :
  ∃ d2, RollbackUnstartedFuzzEscrow true 9 " camp " (escrow_ex_open "HMC") = Ok (tt, d2) ∧
    hmc d2 escrow_ex_w = 10000000000 ∧ escrows d2 = ∅.
Proof.
  assert (G : checkEconomicInvariants true escrow_ex_db = Ok tt) by (vm_compute; reflexivity).
  assert (M : 0 < metaUint escrow_ex_db metaTotalMintedUnits 0) by (vm_compute; reflexivity).
  destruct (open_rollback_roundtrip empty_env None true 7 9 " camp " (f_of_Z 10) 100 EscrowSplit2080 "HMC" escrow_ex_db
    (escrow_ex_open "HMC") escrow_ex_inv G M escrow_ex_open_ok) as (d2 & R & A & _ & _ & _ & E).
  - intros w [= <-]. vm_compute. reflexivity.
  - exists d2. split; [exact R|]. split; [|exact E]. destruct (A escrow_ex_w) as [-> _]. vm_compute. reflexivity.
Defined.

Lemma payFuzzRun_exact_witness :
  escrow_inv (escrow_ex_open "HMC") ∧ hmc escrow_ex_paid (toy_addr "b") = 1800000.
Proof.
  assert (I : escrow_inv (escrow_ex_open "HMC")) by exact (proj1 (OpenFuzzEscrowWithFee_kept _ _ _ _ _ _ _ _ _ _ _ escrow_ex_inv escrow_ex_open_ok)).
  split; [exact I|].
  destruct (payFuzzRun_exact "camp" (toy_addr "b") 0 (escrow_ex_open "HMC") escrow_ex_paid I ltac:(vm_compute; reflexivity))
    as (r & Hr & _ & _ & A & _).
  destruct (A (toy_addr "b")) as [E _]. rewrite E.
  assert (r = opened_row 7 100 EscrowSplit2080 (mkSplitUnits 900000000 180000000 720000000 1800000) (newOrderFeeV2 "HMC" 50000000 50000000)) as ->.
  { vm_compute in Hr. injection Hr as <-. reflexivity. }
  vm_compute. reflexivity.
Defined.

Lemma ApplyFuzzSettleOnce_exactly_once_witness :
  let d := escrow_ex_open "HMC" in
  let d1 := run (ApplyFuzzSettleOnce empty_env true 8 "outbox:camp:1" "run" "camp" (toy_addr "b") "") d in
  hmc d1 (toy_addr "b") = 1800000 ∧
  ApplyFuzzSettleOnce empty_env true 9 "outbox:camp:1" "run" "camp" (toy_addr "c") "" d1 = Ok (false, d1).
Proof.
  cbv zeta. set (d1 := run _ _).
  assert (I : escrow_inv (escrow_ex_open "HMC")) by exact (proj1 (OpenFuzzEscrowWithFee_kept _ _ _ _ _ _ _ _ _ _ _ escrow_ex_inv escrow_ex_open_ok)).
  destruct (ApplyFuzzSettleOnce_exactly_once empty_env true 8 "outbox:camp:1" "run" "camp" (toy_addr "b") "" (escrow_ex_open "HMC")
    true d1 I ltac:(vm_compute; reflexivity)) as (_ & _ & _ & A).
  split; [vm_compute; reflexivity|].
  destruct (ApplyFuzzSettleOnce empty_env true 9 "outbox:camp:1" "run" "camp" (toy_addr "c") "" d1) as [x|err] eqn:E.
  - by rewrite (A d1 empty_env true 9 "outbox:camp:1" "run" "camp" (toy_addr "c") "" x (rtc_refl _ d1) eq_refl E).
  - exfalso. vm_compute in E. discriminate E.
Defined.

(** What the public view of an escrow calls refundable, against what it holds. For an escrow
    that never refunded a bounty, [refundable_hmc] is the units a finalize would return; for a
    reopened one the view adds the bounty pool that was already refunded; and for a closed one it
    still lists the unpaid runs, which the close returned. *)
Theorem fuzzEscrowPublic_refundable r : row_ok r →
  RefundableHMC (fuzzEscrowPublic r) = UnitsToHMC (refundable_units r) ∧
  refundable_units r = (if String.eqb (status r) "closed" then runsPoolUnits r - runsPaidUnits r
                        else held r + refundedBountyUnits r) ∧
  (String.eqb (status r) "closed" = false → refundedBountyUnits r = 0 →
     refundable_units r = (runsPoolUnits r - runsPaidUnits r) + bountyLeftUnits r).
Proof.
  intros R. assert (refundable_units r = if String.eqb (status r) "closed" then runsPoolUnits r - runsPaidUnits r
                        else held r + refundedBountyUnits r) as E.
  { destruct R as [R1 R2 R3 _ _ _]. unfold refundable_units, locked_bounty, held.
    rewrite (u64_small (bountyPaidUnits r + _)) by (unfold two64; lia).
    destruct (String.eqb (status r) "closed"); rewrite ?andb_false_r, ?andb_true_r;
      destruct (Z.ltb_spec (runsPaidUnits r) (runsPoolUnits r));
      try destruct (Z.ltb_spec (bountyPaidUnits r + crashBonusPaidUnits r) (bountyPoolUnits r));
      rewrite ?(u64_small (runsPoolUnits r - _)), ?(u64_small (bountyPoolUnits r - _)), ?u64_small; unfold two64; lia. }
  split; [done|]. split; [done|]. intros Es E0. rewrite E, Es, (bountyLeft_eq r R). unfold held. rewrite Es. lia.
Qed.

(** Closed and reopened: the view offers 7.2 HMC of bounty that the close already returned. *)
Example reopened_view :
  let d := run (ReopenFuzzEscrowForSettleDrain true "camp")
             (run (FinalizeFuzzEscrow true "camp") (escrow_ex_open "HMC")) in
  match escrows d !! "camp" with
  | Some r => (locked_bounty r, bountyLeftUnits r, refundable_units r, held r)
  | None => (0, 0, 0, 0)
  end = (720000000, 0, 900000000, 180000000).
Proof. vm_compute. reflexivity. Qed.

Lemma escrow_ex_paid_inv : escrow_inv escrow_ex_paid.
Proof.
  assert (I : escrow_inv (escrow_ex_open "HMC"))
    by exact (proj1 (OpenFuzzEscrowWithFee_kept _ _ _ _ _ _ _ _ _ _ _ escrow_ex_inv escrow_ex_open_ok)).
  assert (G : payFuzzRunAmountTx "camp" (toy_addr "b") 0 (escrow_ex_open "HMC") = Ok (tt, escrow_ex_paid))
    by (vm_compute; reflexivity).
  exact (proj1 (payFuzzRunAmountTx_kept _ _ _ _ _ I G)).
Qed.

Lemma fuzzEscrowPublic_refundable_witness :
  match escrows escrow_ex_paid !! "camp" with Some r => refundable_units r = held r | None => False end.
Proof.
  destruct (escrows escrow_ex_paid !! "camp") as [r|] eqn:E.
  - destruct (fuzzEscrowPublic_refundable r (ei_rows _ escrow_ex_paid_inv _ _ E)) as (_ & A & _). rewrite A.
    vm_compute in E. injection E as <-. vm_compute. reflexivity.
  - vm_compute in E. discriminate E.
Defined.
