(* ===== verification/Orders.v ===== *)
(** Paid orders: opening with escrow and fee, the time limit, expiry refunds, progress, and the
    two ways an Orders desktop is funded.

    Sources: internal/chain/order_tasks.go, orders_fund.go, orders_bootstrap.go.  [now] is
    [time.Now().Unix()].  The manifest is the value [json.Unmarshal] decodes from the raw text,
    [None] when that fails; [wasm] is the outcome of resolving and validating the check module
    (file access and the WASM runtime); [sql_sum] is SQLite's [SUM] over REAL values, whose
    rounding the source does not fix.  Rows are visited in the order of [map_to_list]. *)
From S2P Require Import Prelude Float64 GoText Params Emission OrderFee Retarget Json GoNum Ledger Address GoSort Transfers Lane SupLedger EscrowSplit FuzzEscrow.

Definition ErrInsufficientBalance : string := "chain: insufficient wallet balance for order escrow (reward_hmc × target_solves)".
Definition ErrOrderEscrowRateLimited : string := "chain: order escrow rate limited (hourly cap)".

Definition maxPayerRefRunes : Z := 256.
Definition maxOrderTargetSolves : Z := 10000.
Definition defaultMaxOrderEscrowPerHourHMC : f64 := f_of_Z 25.
Definition defaultOrderMinTTLSeconds : Z := 2 * 3600.
Definition defaultOrderMaxTTLSeconds : Z := 72 * 3600.
Definition defaultOrderAutoSafetyFactor : f64 := lit 5 2.
Definition defaultOrderEstNetEvalPerSec : f64 := f_of_Z 2000000.

(** The environment an order reads. *)
Record OrderEnv := mkOrderEnv {
  HACKME_MAX_ORDER_ESCROW_PER_HOUR_HMC : string;
  HACKME_ORDER_MIN_TTL_SEC : string;
  HACKME_ORDER_MAX_TTL_SEC : string;
  HACKME_ORDER_EST_NET_EVAL_PER_SEC : string;
  HACKME_ORDER_TTL_SAFETY_FACTOR : string;
}.
Definition empty_order_env : OrderEnv := mkOrderEnv "" "" "" "" "".

(** * Time limit *)

Definition min_ttl (oe : OrderEnv) : Z := int_setting (HACKME_ORDER_MIN_TTL_SEC oe) 1 defaultOrderMinTTLSeconds.
Definition max_ttl (oe : OrderEnv) : Z := int_setting (HACKME_ORDER_MAX_TTL_SEC oe) (min_ttl oe) defaultOrderMaxTTLSeconds.

Definition resolveOrderTTLSeconds (oe : OrderEnv) (manualTTL targetSolves : Z) : result Z :=
  let minTTL := min_ttl oe in
  let maxTTL := max_ttl oe in
  if 0 <? manualTTL then
    if (manualTTL <? minTTL) || (maxTTL <? manualTTL) then Err "chain: ttl_sec out of range"
    else Ok manualTTL
  else
    let estEvalPerSec := float_setting (HACKME_ORDER_EST_NET_EVAL_PER_SEC oe)
                           (λ x, f_ltb (f_of_Z 0) x) defaultOrderEstNetEvalPerSec in
    let sf := float_setting (HACKME_ORDER_TTL_SAFETY_FACTOR oe)
                (λ x, f_leb (f_of_Z 1) x) defaultOrderAutoSafetyFactor in
    let targetSolves := if targetSolves <? 1 then 1 else targetSolves in
    let eta := f_div (f_mul (f_of_Z targetSolves) (f_of_Z DefaultPoHTargetMod)) estEvalPerSec in
    let ttl := f_to_int64 (f_mul eta sf) in
    let ttl := if ttl <? minTTL then minTTL else ttl in
    Ok (if maxTTL <? ttl then maxTTL else ttl).

(** * Opening an order *)

Record orderManifestJSON := mkManifest {
  m_ID : string; m_Kind : string; m_ArtifactHash : string; m_WasmArtifactPath : string;
  m_RewardHMC : f64; m_DifficultyScore : Z; m_TimeoutMS : Z; m_TargetSolves : Z;
  m_TTLSeconds : Z; m_PayerRef : string; m_FeeAsset : string;
}.

Definition TaskKindSyntheticPoH : string := "synthetic_poh_v1".

(** What the manifest asks for once validated. *)
Record OrderDraft := mkDraft {
  o_id : string; o_kind : string; o_artifact : string; o_payer : string; o_target : Z; o_ttl : Z;
  o_reward : f64; o_prepaid : f64; o_rewardUnits : Z; o_prepaidUnits : Z;
}.

Definition eps12 : f64 := lit 1 1000000000000.

Record InsertOrderResult := mkInsertOrderResult {
  r_ID : string; r_PayerRef : string; r_PrepaidHMC : f64; r_OrderFeeHMC : f64;
  r_TotalDebitHMC : f64; r_BurnHMC : f64; r_BalanceAfter : f64; r_Fee : option OrderFeeV2;
  r_ExpiresAtUnix : Z; r_TTLSeconds : Z;
}.

Section orders.
Context `{ChainParams} `{Crypto}.

Definition order_draft (oe : OrderEnv) (manifestJSON : string) (decoded : option orderManifestJSON)
    (wasm : result unit) : result OrderDraft :=
  match decoded with
  | None => Err "chain: invalid manifest json"
  | Some m =>
      let id := trim_space (m_ID m) in
      if String.eqb id "" then Err "chain: manifest id required"
      else
        let kind := trim_space (m_Kind m) in
        let kind := if String.eqb kind "" then TaskKindSyntheticPoH else kind in
        if negb (String.eqb kind TaskKindSyntheticPoH) then Err "chain: unsupported task kind"
        else if f_leb (m_RewardHMC m) (f_of_Z 0) then Err "chain: reward_hmc must be > 0 for paid orders"
        else
          let diffScore := if m_DifficultyScore m <=? 0 then MinDifficultyScore else m_DifficultyScore m in
          if (diffScore <? MinDifficultyScore) || (MaxDifficultyScore <? diffScore)
          then Err "chain: difficulty_score out of range"
          else
            let minReward := f_mul (f_of_Z diffScore) RewardPerDifficultyUnit in
            if f_ltb (f_add (m_RewardHMC m) eps12) minReward
            then Err "chain: reward_hmc too low for difficulty_score"
            else rbind wasm (λ _,
              let payerRef := trim_space (m_PayerRef m) in
              if maxPayerRefRunes <? rune_count 0 payerRef then Err "chain: payer_ref too long"
              else
                let artifact := trim_space (m_ArtifactHash m) in
                if negb (String.eqb (trim_space (m_WasmArtifactPath m)) "") && String.eqb artifact ""
                then Err "chain: artifact_hash required when wasm_artifact_path is set"
                else
                  let artifact := if String.eqb artifact "" then hex_encode (sha256 manifestJSON) else artifact in
                  let target := if m_TargetSolves m <? 1 then 1 else m_TargetSolves m in
                  if maxOrderTargetSolves <? target then Err "chain: target_solves too large"
                  else rbind (resolveOrderTTLSeconds oe (m_TTLSeconds m) target) (λ ttlSec,
                    let prepaid := f_mul (m_RewardHMC m) (f_of_Z target) in
                    if f_leb prepaid (f_of_Z 0) then Err "chain: invalid prepaid total"
                    else if f_ltb (f_add prepaid eps12) MinOrderPrepaidHMC then Err "chain: prepaid total too low"
                    else
                      let rewardUnits := HMCToUnits (m_RewardHMC m) in
                      if rewardUnits =? 0 then Err "chain: invalid reward_hmc in units"
                      else if (two64 - 1) / target <? rewardUnits then Err "chain: prepaid units overflow"
                      else Ok (mkDraft id kind artifact payerRef target ttlSec (m_RewardHMC m) prepaid
                                 rewardUnits (rewardUnits * target))))
  end.

(** The fee of an order: the v2 record once v2 is active for the next block, its amount in HMC and
    in units. *)
Definition order_fee (tipH prepaidUnits : Z) (feeAsset : string) : result (option OrderFeeV2 * f64 * Z) :=
  rbind (if EconomicsV2ActiveForIndex (u64 (tipH + 1))
         then rbind (OrderFeeV2ForEscrow tipH prepaidUnits feeAsset) (λ f, Ok (Some f))
         else if negb (String.eqb feeAsset FeeAssetHMC) then Err "chain: fee_asset SUP requires Economics v2"
         else Ok None) (λ feeV2,
  let orderFee := f_mul (UnitsToHMC prepaidUnits) (OrderPlatformFeeRateAt tipH) in
  if f_ltb orderFee (f_of_Z 0) then Err "chain: invalid order fee total"
  else match feeV2 with
  | Some f => Ok (feeV2, UnitsToHMC (HMCUnits f), HMCUnits f)
  | None => Ok (feeV2, orderFee, HMCToUnits orderFee)
  end).

Definition order_hour_cap (oe : OrderEnv) : f64 :=
  float_setting (HACKME_MAX_ORDER_ESCROW_PER_HOUR_HMC oe) (λ x, f_ltb (f_of_Z 0) x) defaultMaxOrderEscrowPerHourHMC.

(** Prepaid totals of the rows opened in the last hour. *)
Definition hour_prepaids (since : Z) (d : DB) : list f64 :=
  prepaid_hmc <$> filter (λ t, since ≤ created_at t) (map_to_list (tasks d)).*2.

Definition order_row (o : OrderDraft) (now : Z) (manifestJSON : string) (fee : OrderFeeV2) : TaskRow :=
  mkTaskRow (o_artifact o) (o_reward o) TaskStatusOpen now (o_kind o) (o_target o) 0 (o_payer o)
    (o_prepaid o) (now + o_ttl o) 0 "" (f_of_Z 0) manifestJSON fee.

(** Booking the fee: v2 moves every leg; v1 pays the platform and counts a burn nobody pays. *)
Definition book_order_fee (now tipH : Z) (walletAddr id : string) (prepaid : f64)
    (feeV2 : option OrderFeeV2) (orderFeeUnits : Z) : tx DB f64 :=
  match feeV2 with
  | Some f =>
      applyOrderFeeV2Tx now walletAddr f ("order:" +:+ id) ;;;
      ret (UnitsToHMC (BurnUnits f))
  | None =>
      pay_dev_fee walletAddr orderFeeUnits ;;;
      let burn := f_mul prepaid (OrderBurnRateAt tipH) in
      (if f_ltb (f_of_Z 0) burn then
         let* d := get in
         let '(minted, burned) := econTotalsUnits d in
         book_burn (u64 (burned + HMCToUnits burn)) minted
       else ret tt) ;;;
      ret burn
  end.

Definition insert_order_tx (sql_sum : list f64 → f64) (strict : bool) (now tipH : Z) (manifestJSON : string)
    (o : OrderDraft) (feeV2 : option OrderFeeV2) (orderFeeUnits totalDebitUnits : Z) (hourCap : f64)
    : tx DB (f64 * Z) :=
  let* w := wallet_row "chain: genesis required (wallet row missing)" in
  let walletAddr := w_address w in
  if w_units w <? totalDebitUnits then fail ErrInsufficientBalance
  else
    let* d := get in
    if f_ltb (f_add hourCap eps12) (f_add (sql_sum (hour_prepaids (now - 3600) d)) (o_prepaid o))
    then fail ErrOrderEscrowRateLimited
    else match accounts d !! walletAddr with
    | None => fail ErrInsufficientBalance
    | Some a =>
        if balance_units a <? totalDebitUnits then fail ErrInsufficientBalance
        else
          debit_primary walletAddr totalDebitUnits ;;;
          let* burn := book_order_fee now tipH walletAddr (o_id o) (o_prepaid o) feeV2 orderFeeUnits in
          let* d := get in
          let curEscrowUnits := metaUint d metaOrderEscrowUnits 0 in
          guard (o_prepaidUnits o <=? two64 - 1 - curEscrowUnits) "chain: order escrow counter overflow" ;;;
          upsertMetaUint metaOrderEscrowUnits (curEscrowUnits + o_prepaidUnits o) ;;;
          let fee := default no_fee feeV2 in
          sql_u64 (BurnUnits fee) ;;; sql_u64 (PlatformUnits fee) ;;; sql_u64 (SUPUnits fee) ;;;
          let* d := get in
          guard (bool_decide (tasks d !! o_id o = None)) "chain: task id already exists" ;;;
          modify (λ d, set_tasks (<[o_id o := order_row o now manifestJSON fee]> (tasks d)) d) ;;;
          let* w := wallet_row ErrNoRows in
          econ_guard strict ;;;
          ret (burn, w_units w)
    end.

Definition InsertOrderTask (e : Env) (oe : OrderEnv) (sql_sum : list f64 → f64) (signer : option string)
    (strict : bool) (now : Z) (manifestJSON : string) (decoded : option orderManifestJSON)
    (wasm : result unit) : tx DB InsertOrderResult :=
  let* o := lift (order_draft oe manifestJSON decoded wasm) in
  let feeAssetRaw := match decoded with Some m => m_FeeAsset m | None => "" end in
  let* d := get in
  let tipH := tip_height d in
  let* feeAsset := lift (NormalizeFeeAsset feeAssetRaw) in
  lift (checkFeeAssetAllowed e signer feeAsset) ;;;
  let* priced := lift (order_fee tipH (o_prepaidUnits o) feeAsset) in
  let '(feeV2, orderFee, orderFeeUnits) := priced in
  if two64 - 1 - o_prepaidUnits o <? orderFeeUnits then fail "chain: total debit overflow"
  else
    let totalDebitUnits := o_prepaidUnits o + orderFeeUnits in
    let* booked := insert_order_tx sql_sum strict now tipH manifestJSON o feeV2 orderFeeUnits
                     totalDebitUnits (order_hour_cap oe) in
    let '(burn, balUnits) := booked in
    ret (mkInsertOrderResult (o_id o) (o_payer o) (o_prepaid o) orderFee (UnitsToHMC totalDebitUnits)
           burn (UnitsToHMC balUnits) feeV2 (now + o_ttl o) (o_ttl o)).

(** * Expiry *)

(** The units an overdue order gives back; an overflowing product refunds nothing. *)
Definition refund_units (t : TaskRow) : Z :=
  let remaining := if target_solves t - progress_count t <? 0 then 0 else target_solves t - progress_count t in
  if (0 <? remaining) && f_ltb (f_of_Z 0) (reward t) then
    let ru := HMCToUnits (reward t) in
    if (0 <? ru) && (ru <=? (two64 - 1) / remaining) then ru * remaining else 0
  else 0.

Definition overdue (now : Z) (t : TaskRow) : Prop := t_status t = TaskStatusOpen ∧ 0 < expires_at t ≤ now.

Definition cancel_row (now refund : Z) (t : TaskRow) : TaskRow :=
  mkTaskRow (artifact_hash t) (reward t) TaskStatusCancelled (created_at t) (t_kind t) (target_solves t)
    (progress_count t) (payer_ref t) (prepaid_hmc t) (expires_at t) now "timeout" (UnitsToHMC refund)
    (manifest_json t) (t_fee t).

(** [UPDATE tasks SET ... WHERE id = ? AND status = 'open'] *)
Definition update_open_task (id : string) (f : TaskRow → TaskRow) : tx DB unit :=
  modify (λ d, set_tasks (alter (λ t, if String.eqb (t_status t) TaskStatusOpen then f t else t) id (tasks d)) d).

(** Refund and cancel the collected rows; the result is what is left in escrow. *)
Fixpoint expire_rows (now : Z) (walletAddr : string) (rows : list (string * Z)) (escrowUnits : Z) : tx DB Z :=
  match rows with
  | [] => ret escrowUnits
  | (id, refundUnits) :: rows' =>
      if escrowUnits <? refundUnits then fail "chain: order escrow depleted during expire"
      else
        (if 0 <? refundUnits then
           sql_u64 refundUnits ;;;
           update_wallet (λ u, u + refundUnits) ;;;
           upsert_account (mkAccount refundUnits 0 0 0 0 0)
             (λ a, set_hmc (balance_units a + refundUnits) a) walletAddr
         else ret tt) ;;;
        update_open_task id (cancel_row now refundUnits) ;;;
        expire_rows now walletAddr rows' (escrowUnits - refundUnits)
  end.

Definition expired_rows (now : Z) (d : DB) : list (string * Z) :=
  (λ '(id, t), (id, refund_units t)) <$> filter (λ '(_, t), overdue now t) (map_to_list (tasks d)).

Definition expireOpenOrderTasksTx (now : Z) : tx DB Z :=
  let* d := get in
  match wallet d with
  | None => ret 0
  | Some w =>
      let escrowUnits := metaUint d metaOrderEscrowUnits 0 in
      let expired := expired_rows now d in
      if Nat.eqb (length expired) 0 then ret 0
      else
        let* kept := expire_rows now (w_address w) expired escrowUnits in
        upsertMetaUint metaOrderEscrowUnits kept ;;;
        ret (Z.of_nat (length expired))
  end.

Definition ExpireOpenOrderTasks (strict : bool) (now : Z) : tx DB unit :=
  expireOpenOrderTasksTx now ;;;
  econ_guard strict.

(** * Progress *)

Definition bump_row (t : TaskRow) : TaskRow :=
  mkTaskRow (artifact_hash t) (reward t)
    (if target_solves t <=? progress_count t + 1 then TaskStatusCompleted else t_status t)
    (created_at t) (t_kind t) (target_solves t) (progress_count t + 1) (payer_ref t) (prepaid_hmc t)
    (expires_at t) (cancelled_at t) (cancel_reason t) (refunded_hmc t) (manifest_json t) (t_fee t).

Definition bumpOrderTaskProgress (orderTaskID : string) : tx DB unit :=
  if String.eqb orderTaskID "" then ret tt
  else
    let* d := get in
    match tasks d !! orderTaskID with
    | Some t =>
        if String.eqb (t_status t) TaskStatusOpen
        then modify (λ d, set_tasks (<[orderTaskID := bump_row t]> (tasks d)) d)
        else fail "chain: order task not open or missing (refuse PoH block)"
    | None => fail "chain: order task not open or missing (refuse PoH block)"
    end.
End orders.
