(* ===== verification/OrdersInv.v ===== *)
(** Paid orders: the escrow counter is exactly what the open orders are still owed, overdue orders
    get back exactly their unused escrow, and orders and campaign escrows together neither create
    nor lose money. *)
From S2P Require Import Prelude Float64 GoText Params Emission OrderFee Retarget Json GoNum Ledger Address GoSort Transfers Lane SupLedger EscrowSplit FuzzEscrow EscrowInv Orders.

(** * What an order is owed *)

Definition is_open (t : TaskRow) : bool := String.eqb (t_status t) TaskStatusOpen.

(** The units an order still has in escrow. *)
Definition need (t : TaskRow) : Z :=
  if is_open t then HMCToUnits (reward t) * (target_solves t - progress_count t) else 0.

(** A well-formed order: an open one pays a positive reward for the solves still missing. *)
Definition task_ok (t : TaskRow) : Prop :=
  is_open t = true →
  f_ltb (f_of_Z 0) (reward t) = true ∧ 0 < HMCToUnits (reward t) ∧
  0 ≤ progress_count t < target_solves t ∧ HMCToUnits (reward t) * target_solves t < two63.

Lemma need_nonneg t : task_ok t → 0 ≤ need t < two63.
Proof.
  intros Hok. unfold need. destruct (is_open t) eqn:E; [|unfold two63; lia].
  destruct (Hok E) as (_ & A & B & C). nia.
Qed.

Lemma f_pos_not_le x : f_ltb (f_of_Z 0) x = true → f_leb x (f_of_Z 0) = false.
Proof. rewrite f_ltb_spec, f_leb_false. done. Qed.

Lemma f_not_le_pos x : f_leb x (f_of_Z 0) = false → f_ltb (f_of_Z 0) x = true.
Proof. rewrite f_ltb_spec, f_leb_false. done. Qed.

(** No word overflows: the remaining reward fits in 64 bits. *)
Lemma need_fits ru remaining : 0 < remaining → 0 < ru → ru * remaining < two63 → ru ≤ (two64 - 1) / remaining.
Proof. intros H1 H2 H3. apply Z.div_le_lower_bound; unfold two63, two64 in *; nia. Qed.

Lemma order_need_eq t : task_ok t → is_open t = true → order_need t = Ok (need t).
Proof.
  intros Hok E. destruct (Hok E) as (R & A & B & C). unfold order_need, need. rewrite E.
  destruct (Z.ltb_spec (target_solves t) 0); [lia|]. destruct (Z.ltb_spec (progress_count t) 0); [lia|].
  cbv zeta. destruct (Z.ltb_spec (target_solves t - progress_count t) 0); [lia|].
  destruct (Z.eqb_spec (target_solves t - progress_count t) 0); [lia|]. rewrite (f_pos_not_le _ R). cbn [orb].
  destruct (Z.ltb_spec 1 (target_solves t - progress_count t)).
  - pose proof (need_fits (HMCToUnits (reward t)) (target_solves t - progress_count t)).
    destruct (Z.ltb_spec ((two64 - 1) / (target_solves t - progress_count t)) (HMCToUnits (reward t))); [nia|done].
  - replace (target_solves t - progress_count t) with 1 by lia. f_equal. lia.
Qed.

Lemma refund_units_eq t : task_ok t → is_open t = true → refund_units t = need t.
Proof.
  intros Hok E. destruct (Hok E) as (R & A & B & C). unfold refund_units, need. rewrite E.
  destruct (Z.ltb_spec (target_solves t - progress_count t) 0); [lia|]. cbv zeta.
  destruct (Z.ltb_spec 0 (target_solves t - progress_count t)); [|lia]. rewrite R. cbn [andb].
  destruct (Z.ltb_spec 0 (HMCToUnits (reward t))); [|lia]. cbn [andb].
  pose proof (need_fits (HMCToUnits (reward t)) (target_solves t - progress_count t)).
  destruct (Z.leb_spec (HMCToUnits (reward t)) ((two64 - 1) / (target_solves t - progress_count t))); [done|nia].
Qed.

Definition tasks_ok (d : DB) : Prop := map_Forall (λ _ t, task_ok t) (tasks d).
Definition order_escrow (d : DB) : Z := metaUint d metaOrderEscrowUnits 0.

Lemma needs_nonneg d : tasks_ok d → 0 ≤ msum need (tasks d).
Proof. intros Hok. apply msum_nonneg. intros k t Hk. by apply need_nonneg, (Hok k). Qed.

(** The liability the invariant check recomputes row by row is the sum of the needs. *)
Lemma openOrderLiabilityUnits_eq d : tasks_ok d → msum need (tasks d) < two64 →
  openOrderLiabilityUnits d = Ok (msum need (tasks d)).
Proof.
  intros Hok. unfold openOrderLiabilityUnits. rewrite msum_list.
  assert (HF : Forall task_ok (map_to_list (tasks d)).*2).
  { apply list.Forall_fmap, list.Forall_forall. intros [k t] Hk. by apply elem_of_map_to_list, (Hok k) in Hk. }
  induction (map_to_list (tasks d)).*2 as [|t l IH]; [done|]. cbn [foldr]. intros Hs.
  apply list.Forall_cons in HF as [Ht HF]. pose proof (need_nonneg t Ht) as Hn.
  assert (0 ≤ foldr (λ v acc, need v + acc) 0 l).
  { clear -HF. induction HF as [|x l Hx _ IH]; cbn; [lia|]. pose proof (need_nonneg x Hx). lia. }
  specialize (IH HF ltac:(lia)). rewrite filter_cons. destruct (decide (t_status t = TaskStatusOpen)) as [E|E].
  - cbn [foldr]. rewrite IH. cbn [rbind]. rewrite order_need_eq; [|done|by apply String.eqb_eq]. cbn [rbind].
    destruct (Z.ltb_spec (two64 - 1 - foldr (λ v acc, need v + acc) 0 l) (need t)); [lia|]. f_equal. lia.
  - rewrite IH. f_equal. unfold need at 2. apply String.eqb_neq in E. unfold is_open. rewrite E. lia.
Qed.

(** * The ledger with orders *)

Definition ledger_total (d : DB) : Z := escrow_total d + order_escrow d.

Record ledger_inv (d : DB) : Prop := {
  li_escrow : escrow_inv d;
  li_tasks : tasks_ok d;
  li_counter : order_escrow d = msum need (tasks d);
  li_total : ledger_total d < two63;
}.

Lemma order_escrow_range d : ledger_inv d → 0 ≤ order_escrow d < two63.
Proof.
  intros [I T C L]. rewrite C. split; [by apply needs_nonneg|]. rewrite <- C.
  pose proof (escrow_rows_nonneg d I). pose proof (sum_nonneg balance_units d (λ y Hy, proj1 (proj1 Hy)) (ei_ok d I)).
  pose proof (ei_burned d I). unfold ledger_total, escrow_total in L. lia.
Qed.

(** A flow of money keeps the campaign ledger well formed as long as the total stays in range. *)
Lemma flow_inv d d1 s b : escrow_inv d → flow d d1 s b → 0 ≤ burned_units d + b →
  escrow_total d + s + b < two63 → escrow_inv d1 ∧ escrow_total d1 = escrow_total d + s + b.
Proof.
  intros I F Hb Ht. destruct F as [F1 F2 F3 F4 F5 F6 F7 _ F8 F9]. destruct I as [I1 I2 I3 I4 I5 I6 I7 [I8 I9]].
  assert (E : escrow_total d1 = escrow_total d + s + b) by (unfold escrow_total; rewrite F6; lia).
  split; [|exact E]. split; auto.
  - lia.
  - by rewrite F6.
  - unfold tip_height, max_block_index in *. by rewrite (aside_blocks _ _ F7).
  - by rewrite E.
  - split; [by apply F9|by rewrite F8].
Qed.

Lemma order_key_aside : metaOrderEscrowUnits ∉ burn_keys.
Proof. by apply (bool_decide_unpack _). Qed.

Lemma flow_order_escrow d d1 s b : flow d d1 s b → order_escrow d1 = order_escrow d.
Proof. intros F. apply metaUint_at, (as_meta _ _ (fl_aside _ _ _ _ F)), order_key_aside. Qed.

Lemma flow_tasks d d1 s b : flow d d1 s b → tasks d1 = tasks d.
Proof. intros F. pose proof (as_tables _ _ (fl_aside _ _ _ _ F)) as E. by injection E. Qed.

Lemma burned_order_key v d : burned_units (ups_meta metaOrderEscrowUnits v d) = burned_units d.
Proof.
  unfold burned_units, econTotalsUnits, metaUint, metaFloat. cbn [meta ups_meta set_meta].
  by rewrite !lookup_insert_ne by discriminate.
Qed.

(** Setting the order counter, or the task table, is invisible to the campaign ledger. *)
Lemma set_order_escrow_inv v d : escrow_inv d →
  escrow_inv (ups_meta metaOrderEscrowUnits (MUint v) d) ∧
  escrow_total (ups_meta metaOrderEscrowUnits (MUint v) d) = escrow_total d ∧
  escrow_sup_total (ups_meta metaOrderEscrowUnits (MUint v) d) = escrow_sup_total d ∧
  order_escrow (ups_meta metaOrderEscrowUnits (MUint v) d) = v.
Proof.
  intros I. set (d' := ups_meta metaOrderEscrowUnits (MUint v) d).
  assert (B : burned_units d' = burned_units d) by apply burned_order_key.
  assert (S : supTotalBurnedUnits d' = supTotalBurnedUnits d).
  { apply metaUint_at. cbn. by rewrite lookup_insert_ne. }
  assert (T : escrow_total d' = escrow_total d) by (unfold escrow_total; by rewrite B).
  assert (U : escrow_sup_total d' = escrow_sup_total d) by (unfold escrow_sup_total; by rewrite S).
  destruct I as [I1 I2 I3 I4 I5 I6 I7 I8]. split; [|split; [exact T|split; [exact U|]]].
  - split; try assumption; [by rewrite B|by rewrite T|by rewrite S, U].
  - unfold order_escrow, metaUint. cbn. by rewrite lookup_insert_eq.
Qed.

Lemma set_tasks_inv m d : escrow_inv d →
  escrow_inv (set_tasks m d) ∧ escrow_total (set_tasks m d) = escrow_total d ∧
  escrow_sup_total (set_tasks m d) = escrow_sup_total d.
Proof. intros I. by apply escrow_kept_same. Qed.

(** Campaign operations leave orders alone. *)
Lemma escrow_kept_ledger d d' : escrow_kept d d' → ledger_inv d →
  ledger_inv d' ∧ ledger_total d' = ledger_total d ∧ escrow_sup_total d' = escrow_sup_total d.
Proof.
  intros (I & T & U & _ & A) [_ Ht C L].
  assert (E : order_escrow d' = order_escrow d) by by apply metaUint_at, (as_meta _ _ A), order_key_aside.
  assert (K : tasks d' = tasks d) by (pose proof (as_tables _ _ A) as K; by injection K).
  assert (L' : ledger_total d' = ledger_total d) by (unfold ledger_total; lia).
  split; [|done]. split; [done|unfold tasks_ok; by rewrite K|by rewrite E, K|by rewrite L'].
Qed.

(** * Placing an order *)

(** What validation guarantees. *)
Record draft_ok (o : OrderDraft) : Prop := {
  do_id : o_id o ≠ "";
  do_reward : f_ltb (f_of_Z 0) (o_reward o) = true;
  do_units : o_rewardUnits o = HMCToUnits (o_reward o) ∧ 0 < o_rewardUnits o;
  do_target : 1 ≤ o_target o ≤ maxOrderTargetSolves;
  do_prepaid : o_prepaidUnits o = o_rewardUnits o * o_target o ∧ o_prepaidUnits o < two64;
}.

Lemma order_draft_ok `{Crypto} oe raw dec wasm o : order_draft oe raw dec wasm = Ok o → draft_ok o ∧ wasm = Ok tt ∧
  ∃ m, dec = Some m ∧ o_id o = trim_space (m_ID m) ∧ o_reward o = m_RewardHMC m ∧
    o_target o = (if m_TargetSolves m <? 1 then 1 else m_TargetSolves m) ∧
    resolveOrderTTLSeconds oe (m_TTLSeconds m) (o_target o) = Ok (o_ttl o).
Proof.
  unfold order_draft. destruct dec as [m|]; [|done]. cbv zeta.
  destruct (String.eqb_spec (trim_space (m_ID m)) ""); [done|]. destruct (negb _); [done|].
  destruct (f_leb (m_RewardHMC m) (f_of_Z 0)) eqn:Er; [done|]. destruct (_ || _); [done|].
  destruct (f_ltb _ _); [done|]. destruct wasm as [[]|]; [|done]. cbn [rbind].
  destruct (_ <? _); [done|]. destruct (_ && _); [done|].
  set (target := if m_TargetSolves m <? 1 then 1 else m_TargetSolves m).
  assert (1 ≤ target) by (unfold target; destruct (Z.ltb_spec (m_TargetSolves m) 1); lia).
  destruct (Z.ltb_spec maxOrderTargetSolves target); [done|].
  destruct (resolveOrderTTLSeconds _ _ _) as [ttl|] eqn:Et; [|done]. cbn [rbind].
  destruct (f_leb (f_mul _ _) _); [done|]. destruct (f_ltb _ _); [done|].
  destruct (Z.eqb_spec (HMCToUnits (m_RewardHMC m)) 0); [done|].
  destruct (Z.ltb_spec ((two64 - 1) / target) (HMCToUnits (m_RewardHMC m))); [done|].
  intros [= <-]. pose proof (HMCToUnits_ge0 (m_RewardHMC m)).
  assert (HMCToUnits (m_RewardHMC m) * target < two64).
  { pose proof (Z.mul_div_le (two64 - 1) target ltac:(lia)). nia. }
  split; [|split; [done|by exists m]]. split; cbn; [done|by apply f_not_le_pos|lia|lia|lia].
Qed.

(** The v2 fee of an escrow. *)
Lemma order_fee_v2 `{ChainParams} tip prepaid asset feeV2 fee units : 0 ≤ tip → tip + 1 < two63 →
  0 ≤ prepaid < two63 → EconomicsV2ActiveForIndex (tip + 1) = true →
  asset = FeeAssetHMC ∨ asset = FeeAssetSUP →
  order_fee tip prepaid asset = Ok (feeV2, fee, units) →
  ∃ f, feeV2 = Some f ∧ units = HMCUnits f ∧ fee_ok f ∧ Asset f = asset ∧ OrderFeeV2ForEscrow tip prepaid asset = Ok f.
Proof.
  intros Ht Hb Hp Ha Has. unfold order_fee. rewrite u64_small, Ha by (unfold two63, two64 in *; lia).
  pose proof (OrderFeeV2ForEscrow_eq tip prepaid asset Ht ltac:(unfold two63, two64 in *; lia) Hp) as F.
  pose proof (orderFeeV2Rates_range tip Ht ltac:(unfold two63, two64 in *; lia)) as Hr.
  destruct (orderFeeV2Rates tip) as [bp pp]. destruct Hr as [Hbp ->]. destruct F as [F Hpr].
  set (price := prepaid * 1000000 / (1000000 - bp - 50000)) in *. rewrite F. cbn [rbind]. destruct (f_ltb _ _); [done|].
  intros [= <- _ <-]. eexists. split; [done|]. split; [done|]. split; [|done].
  assert (0 ≤ price * bp / 1000000) by (apply Z.div_pos; nia). assert (0 ≤ price * 50000 / 1000000) by (apply Z.div_pos; nia).
  unfold fee_ok, newOrderFeeV2. cbn [BurnUnits PlatformUnits SUPUnits Asset].
  split; [done|]. split; [done|]. split; [destruct (String.eqb asset FeeAssetSUP); [apply u64_range|unfold two64; lia]|].
  assert (price * (1000000 - bp - 50000) ≤ prepaid * 1000000) by (unfold price; Z.to_euclidean_division_equations; nia).
  clearbody price. unfold two63 in *. Z.to_euclidean_division_equations; nia.
Qed.

(** Booking a v2 fee after its payer was debited. *)
Lemma book_fee_flow `{Crypto} now w f ref d d1 d2 v : escrow_inv d → wallet d = Some w → fee_ok f →
  Asset f = FeeAssetHMC ∨ Asset f = FeeAssetSUP → HMCUnits f ≤ v →
  moved d d1 (at_addr (w_address w) (- v)) (- v) →
  applyOrderFeeV2Tx now (w_address w) f ref d1 = Ok (tt, d2) →
  fee_booked (w_address w) f ref d1 d2 ∧ ∃ s b, flow d1 d2 s b ∧ 0 ≤ b ∧ s + b = HMCUnits f.
Proof.
  intros I Hw Hf Ha Hv M G. destruct (ei_wallet d I) as (w' & Hw' & Tw & Nw & Aw).
  rewrite Hw in Hw'. injection Hw' as <-. pose proof (HMCUnits_eq f Hf) as Eh. pose proof Hf as (F1 & F2 & F3 & F4).
  pose proof (flow_moved _ _ _ _ M) as Fl. pose proof (escrow_rows_nonneg d I).
  pose proof (sum_nonneg balance_units d (λ y Hy, proj1 (proj1 Hy)) (ei_ok d I)).
  assert (FB : fee_booked (w_address w) f ref d1 d2).
  { destruct I. unfold escrow_total in *. unfold fee_booked.
    destruct (String.eqb_spec (Asset f) "") as [E|E]; [destruct Ha as [Ha|Ha]; by rewrite Ha in E|].
    destruct (String.eqb (Asset f) FeeAssetSUP) eqn:Es.
    - apply applyOrderFee_sup in G; [|done|apply M|lia]. by rewrite Tw in G.
    - apply applyOrderFee_hmc in G; try done; [by apply (fl_wallet _ _ _ _ Fl)|apply M|..];
        rewrite ?(fl_sum _ _ _ _ Fl), ?(fl_burn _ _ _ _ Fl); unfold two63, two64 in *; lia. }
  split; [exact FB|]. destruct (ei_sup d I) as [Hsb Hst].
  apply (fee_booked_flow _ _ _ _ _ Hf ltac:(intros E; destruct Ha as [Ha|Ha]; by rewrite Ha in E) (mv_ok _ _ _ _ M)
    (fl_sup_burned _ _ _ _ Fl Hsb) ltac:(by rewrite (fl_sup _ _ _ _ Fl)) FB).
Qed.

Lemma order_fee_nonneg `{ChainParams} tip prepaid asset feeV2 fee units :
  order_fee tip prepaid asset = Ok (feeV2, fee, units) → 0 ≤ units.
Proof.
  unfold order_fee. destruct (if EconomicsV2ActiveForIndex _ then _ else _) as [r|]; [|done]. cbn [rbind].
  destruct (f_ltb _ _); [done|]. destruct r as [f|]; intros [= _ _ <-]; [|apply HMCToUnits_ge0].
  unfold HMCUnits. destruct (String.eqb _ _); [done|apply u64_range].
Qed.

Lemma ForEscrow_asset `{ChainParams} tip v asset f : OrderFeeV2ForEscrow tip v asset = Ok f → Asset f = asset.
Proof.
  unfold OrderFeeV2ForEscrow. destruct (orderFeeV2Rates tip) as [bp pp]. destruct (_ || _); [by intros [= <-]|].
  destruct (Mul64 _ _) as [hi lo]. destruct (Div64 _ _ _) as [[p q]|]; [|done]. cbn [rbind].
  destruct (mulDivPPM p bp); [|done]. cbn [rbind]. destruct (mulDivPPM p pp); [|done]. by intros [= <-].
Qed.

(** What a successful placement under Economics v2 did: one debit of escrow plus HMC fee, the fee
    booked leg by leg, the escrow counted, and one new open row. *)
Record placed `{ChainParams} `{Crypto} (strict : bool) (now : Z) (raw : string) (o : OrderDraft)
    (f : OrderFeeV2) (w : Wallet) (d d1 d2 d' : DB) : Prop := {
  pl_fee : fee_ok f ∧ (Asset f = FeeAssetHMC ∨ Asset f = FeeAssetSUP) ∧
    OrderFeeV2ForEscrow (tip_height d) (o_prepaidUnits o) (Asset f) = Ok f;
  pl_prepaid : 0 < o_prepaidUnits o < two63;
  pl_wallet : wallet d = Some w;
  pl_new : tasks d !! o_id o = None;
  pl_funds : o_prepaidUnits o + HMCUnits f ≤ hmc d (w_address w);
  pl_debit : moved d d1 (at_addr (w_address w) (- (o_prepaidUnits o + HMCUnits f))) (- (o_prepaidUnits o + HMCUnits f));
  pl_booked : fee_booked (w_address w) f ("order:" +:+ o_id o) d1 d2;
  pl_rows : d' = set_tasks (<[o_id o := order_row o now raw f]> (tasks d))
                   (ups_meta metaOrderEscrowUnits (MUint (order_escrow d + o_prepaidUnits o)) d2);
  pl_econ : checkEconomicInvariants strict d' = Ok tt;
}.

Lemma insert_order_tx_spec `{ChainParams} `{Crypto} sql_sum strict now raw o f cap d burn bal d' :
  ledger_inv d → draft_ok o → Asset f = FeeAssetHMC ∨ Asset f = FeeAssetSUP →
  (0 ≤ o_prepaidUnits o < two63 → fee_ok f ∧ OrderFeeV2ForEscrow (tip_height d) (o_prepaidUnits o) (Asset f) = Ok f) →
  0 ≤ HMCUnits f →
  insert_order_tx sql_sum strict now (tip_height d) raw o (Some f) (HMCUnits f) (o_prepaidUnits o + HMCUnits f) cap d
    = Ok ((burn, bal), d') →
  ∃ w d1 d2, placed strict now raw o f w d d1 d2 d' ∧ burn = UnitsToHMC (BurnUnits f) ∧
    w_units <$> wallet d' = Some bal.
Proof.
  intros L [D1 D2 [D3 D4] D5 [D6 D7]] Ha HF Hu G. pose proof (li_escrow d L) as I. unfold insert_order_tx in G.
  destruct (ei_wallet d I) as (w & Hw & Tw & Nw & Aw). apply bind_ok in G as (w' & d0 & W & G).
  unfold wallet_row in W. rewrite (bind_run get _ d d d), Hw in W by done. apply ret_ok in W as [<- <-]. cbv zeta in G.
  destruct (w_units w <? _); [discriminate G|]. rewrite (bind_run get _ d d d) in G by done.
  destruct (f_ltb (f_add cap eps12) _); [discriminate G|]. destruct (accounts d !! w_address w) as [a|] eqn:Ea; [|discriminate G].
  destruct (Z.ltb_spec (balance_units a) (o_prepaidUnits o + HMCUnits f)); [discriminate G|].
  pose proof (ei_ok d I _ _ Ea) as K. unfold account_ok in K.
  assert (Hp : 0 < o_prepaidUnits o < two63) by (split; [rewrite D6; nia|lia]).
  destruct (HF ltac:(lia)) as [Hf HE].
  apply bind_ok in G as ([] & d1 & D & G). apply (debit_primary_spec w a _ d d1 Hw Ea (ei_ok d I)) in D as M; [|lia].
  apply bind_ok in G as (b & d2 & B & G). cbn [book_order_fee] in B.
  apply bind_ok in B as ([] & d3 & B & R). apply ret_ok in R as [<- <-].
  destruct (book_fee_flow now w f _ d d1 d3 (o_prepaidUnits o + HMCUnits f) I Hw Hf Ha ltac:(lia) M B) as (FB & s & c & F & Hc & Hs).
  pose proof (flow_trans _ _ _ _ _ _ _ (flow_moved _ _ _ _ M) F) as F2.
  pose proof (flow_order_escrow _ _ _ _ F2) as Ee. pose proof (flow_tasks _ _ _ _ F2) as Et.
  rewrite (bind_run get _ d3 d3 d3) in G by done. fold (order_escrow d3) in G. rewrite Ee in G.
  apply bind_ok in G as ([] & d4 & G1 & G). apply guard_ok in G1 as [G1 ->].
  do 4 (apply bind_ok in G as ([] & ? & S & G); inv_tx S).
  rewrite (bind_run get _ _ _ _) in G by done. cbn [tasks ups_meta set_meta] in G. rewrite Et in G.
  apply bind_ok in G as ([] & d5 & G2 & G). apply guard_ok in G2 as [G2 ->]. apply bool_decide_eq_true in G2.
  apply bind_ok in G as ([] & d6 & G3 & G). apply modify_ok in G3.
  apply bind_ok in G as (w' & d7 & W & G). unfold wallet_row in W. rewrite (bind_run get _ d6 d6 d6) in W by done.
  destruct (wallet d6) as [w6|] eqn:Hw6; [|discriminate W]. apply ret_ok in W as [<- <-].
  apply bind_ok in G as ([] & d8 & C & G). apply econ_guard_run in C as [-> C]. apply ret_ok in G as [E <-].
  injection E as <- <-. cbn [tasks ups_meta set_meta] in G3. rewrite Et in G3.
  exists w, d1, d3. split; [|split; [done|]].
  - split; try assumption; [split; [exact Hf|split; [exact Ha|exact HE]]|].
    unfold hmc, mval. by rewrite Ea.
  - by rewrite Hw6.
Qed.

Lemma InsertOrderTask_spec `{ChainParams} `{Crypto} e oe sql_sum signer strict now raw dec wasm d r d' :
  ledger_inv d → EconomicsV2ActiveForIndex (tip_height d + 1) = true →
  InsertOrderTask e oe sql_sum signer strict now raw dec wasm d = Ok (r, d') →
  ∃ o m w f d1 d2, order_draft oe raw dec wasm = Ok o ∧ draft_ok o ∧ dec = Some m ∧
    NormalizeFeeAsset (m_FeeAsset m) = Ok (Asset f) ∧ checkFeeAssetAllowed e signer (Asset f) = Ok tt ∧
    placed strict now raw o f w d d1 d2 d' ∧
    r = mkInsertOrderResult (o_id o) (o_payer o) (o_prepaid o) (UnitsToHMC (HMCUnits f))
          (UnitsToHMC (o_prepaidUnits o + HMCUnits f)) (UnitsToHMC (BurnUnits f))
          (UnitsToHMC (match wallet d' with Some w => w_units w | None => 0 end)) (Some f)
          (now + o_ttl o) (o_ttl o).
Proof.
  intros L Hv2 G. unfold InsertOrderTask in G.
  apply bind_ok in G as (o & d0 & Od & G). apply lift_ok in Od as [Od ->].
  destruct (order_draft_ok _ _ _ _ _ Od) as (Do & _ & m & -> & _). cbv zeta in G.
  rewrite (bind_run get _ d d d) in G by done.
  apply bind_ok in G as (asset & d0 & N & G). apply lift_ok in N as [N ->]. pose proof (NormalizeFeeAsset_ok _ _ N) as Ha.
  apply bind_ok in G as ([] & d0 & C & G). apply lift_ok in C as [C ->].
  apply bind_ok in G as ([[feeV2 fee] units] & d0 & P & G). apply lift_ok in P as [P ->].
  destruct (_ <? units); [discriminate G|]. apply bind_ok in G as ([burn bal] & d3 & B & G).
  apply ret_ok in G as [<- <-]. pose proof (tip_height_nonneg d) as T0. pose proof (ei_tip d (li_escrow d L)) as T1.
  assert (∃ f, feeV2 = Some f ∧ units = HMCUnits f ∧ fee = UnitsToHMC (HMCUnits f)) as (f & -> & -> & ->).
  { unfold order_fee in P. rewrite u64_small, Hv2 in P by (unfold two63, two64 in *; lia).
    destruct (OrderFeeV2ForEscrow _ _ _) as [f|]; [|discriminate P]. cbn [rbind] in P.
    destruct (f_ltb _ _); [discriminate P|]. injection P as <- <- <-. by exists f. }
  pose proof (order_fee_nonneg _ _ _ _ _ _ P) as Hu.
  assert (Hf : Asset f = asset ∧ (0 ≤ o_prepaidUnits o < two63 → fee_ok f ∧ OrderFeeV2ForEscrow (tip_height d) (o_prepaidUnits o) (Asset f) = Ok f)).
  { split.
    - unfold order_fee in P. rewrite u64_small, Hv2 in P by (unfold two63, two64 in *; lia).
      destruct (OrderFeeV2ForEscrow _ _ _) as [g|] eqn:Eg; [|discriminate P]. cbn [rbind] in P.
      destruct (f_ltb _ _); [discriminate P|]. injection P as -> _. by apply ForEscrow_asset in Eg.
    - intros Hp. destruct (order_fee_v2 _ _ _ _ _ _ T0 T1 Hp Hv2 Ha P) as (g & [= <-] & _ & Hg & <- & HE). done. }
  destruct Hf as [<- Hf].
  destruct (insert_order_tx_spec _ _ _ _ _ _ _ _ _ _ _ L Do Ha Hf Hu B) as (w & d1 & d2 & Pl & -> & Hb).
  exists o, m, w, f, d1, d2. split; [exact Od|]. split; [exact Do|]. split; [done|]. split; [exact N|]. split; [exact C|].
  split; [exact Pl|]. destruct (wallet d3) as [w3|]; [|discriminate Hb]. cbn in Hb. by injection Hb as ->.
Qed.

Lemma order_row_ok now raw o f : draft_ok o → o_prepaidUnits o < two63 →
  task_ok (order_row o now raw f) ∧ need (order_row o now raw f) = o_prepaidUnits o.
Proof.
  intros [D1 D2 [D3 D4] D5 [D6 D7]] Hp. split.
  - intros _. cbn. rewrite <- D3. split; [done|]. split; [done|]. lia.
  - unfold need. cbn. rewrite <- D3, D6. f_equal. lia.
Qed.

(** The flow of a placement, up to the two tables it writes. *)
Lemma placed_flow `{ChainParams} `{Crypto} strict now raw o f w d d1 d2 d' : escrow_inv d →
  placed strict now raw o f w d d1 d2 d' → ∃ s b, flow d d2 s b ∧ 0 ≤ b ∧ s + b = - o_prepaidUnits o.
Proof.
  intros I P. destruct P as [(Hf & Ha & _) Hp Hw _ _ M FB _ _]. destruct (ei_sup d I) as [Hsb Hst].
  pose proof (flow_moved _ _ _ _ M) as Fm.
  destruct (fee_booked_flow _ _ _ _ _ Hf ltac:(intros E; destruct Ha as [Ha|Ha]; by rewrite Ha in E)
    (mv_ok _ _ _ _ M) (fl_sup_burned _ _ _ _ Fm Hsb) ltac:(by rewrite (fl_sup _ _ _ _ Fm)) FB) as (q & b & F & Hb & Hs).
  eexists _, _. split; [exact (flow_trans _ _ _ _ _ _ _ Fm F)|]. lia.
Qed.

(** The counter and the task table after a flow, as one step of the ledger. *)
Lemma order_step_ok d d1 s b v m : ledger_inv d → flow d d1 s b → 0 ≤ burned_units d + b →
  s + b + v = order_escrow d → map_Forall (λ _ t, task_ok t) m → v = msum need m →
  let d' := set_tasks m (ups_meta metaOrderEscrowUnits (MUint v) d1) in
  ledger_inv d' ∧ ledger_total d' = ledger_total d ∧ escrow_sup_total d' = escrow_sup_total d.
Proof.
  intros [I T C L] F Hb Hs Hm Hv d'. assert (0 ≤ v) by (rewrite Hv; apply msum_nonneg; intros k t Hk; by apply need_nonneg, (Hm k)).
  unfold ledger_total in L. destruct (flow_inv d d1 s b I F Hb ltac:(lia)) as [I1 T1].
  destruct (set_order_escrow_inv v d1 I1) as (I2 & T2 & U2 & O2).
  destruct (set_tasks_inv m (ups_meta metaOrderEscrowUnits (MUint v) d1) I2) as (I3 & T3 & U3).
  assert (LT : ledger_total d' = ledger_total d).
  { unfold ledger_total. change (order_escrow d') with (order_escrow (ups_meta metaOrderEscrowUnits (MUint v) d1)).
    rewrite O2. unfold d'. rewrite T3, T2, T1. lia. }
  split; [|split; [exact LT|unfold d'; by rewrite U3, U2, (fl_sup _ _ _ _ F)]].
  split; [exact I3|exact Hm|change (tasks d') with m; rewrite <- Hv; exact O2|by rewrite LT].
Qed.

Lemma InsertOrderTask_kept `{ChainParams} `{Crypto} e oe sql_sum signer strict now raw dec wasm d r d' :
  ledger_inv d → EconomicsV2ActiveForIndex (tip_height d + 1) = true →
  InsertOrderTask e oe sql_sum signer strict now raw dec wasm d = Ok (r, d') →
  ledger_inv d' ∧ ledger_total d' = ledger_total d ∧ escrow_sup_total d' = escrow_sup_total d.
Proof.
  intros L Hv G. destruct (InsertOrderTask_spec _ _ _ _ _ _ _ _ _ _ _ _ L Hv G)
    as (o & m & w & f & d1 & d2 & _ & Do & _ & _ & _ & P & _). pose proof (li_escrow d L) as I.
  destruct (placed_flow _ _ _ _ _ _ _ _ _ _ I P) as (s & b & F & Hb & Hs).
  pose proof (order_row_ok now raw o f Do (proj2 (pl_prepaid _ _ _ _ _ _ _ _ _ _ P))) as [R N].
  rewrite (pl_rows _ _ _ _ _ _ _ _ _ _ P). pose proof (ei_burned d I). pose proof (pl_new _ _ _ _ _ _ _ _ _ _ P).
  apply (order_step_ok d d2 s b _ _ L F); [lia|lia| |].
  - apply map_Forall_insert_2; [done|apply L].
  - rewrite msum_insert_new, N, (li_counter d L) by done. lia.
Qed.

(** * Expiry *)

Definition zsum (l : list Z) : Z := foldr Z.add 0 l.

(** Cancelling the collected rows, one after the other. *)
Fixpoint cancel_all (now : Z) (rows : list (string * Z)) (m : gmap string TaskRow) : gmap string TaskRow :=
  match rows with
  | [] => m
  | (id, v) :: rows' => cancel_all now rows' (alter (λ t, if is_open t then cancel_row now v t else t) id m)
  end.

Lemma cancel_all_lookup now rows m i : NoDup rows.*1 →
  cancel_all now rows m !! i = match list_to_map (M := gmap string Z) rows !! i with
    | Some v => (λ t, if is_open t then cancel_row now v t else t) <$> m !! i
    | None => m !! i end.
Proof.
  revert m. induction rows as [|[id v] rows IH]; intros m Hn; cbn; [by rewrite lookup_empty|].
  apply list.NoDup_cons in Hn as [Hn Hd]. rewrite IH by done. destruct (decide (i = id)) as [->|Hi].
  - rewrite lookup_insert_eq. rewrite (proj1 (not_elem_of_list_to_map (M := gmap string) rows id) Hn).
    by rewrite lookup_alter_eq.
  - by rewrite lookup_insert_ne, lookup_alter_ne.
Qed.

(** Crediting the primary wallet in both ledgers. *)
Lemma credit_primary_spec w v d d' : wallet_ok d → wallet d = Some w → accounts_ok d → 0 < v →
  hmc_sum d + v < two63 →
  (sql_u64 v ;;; update_wallet (λ u, u + v) ;;;
   upsert_account (mkAccount v 0 0 0 0 0) (λ a, set_hmc (balance_units a + v) a) (w_address w)) d = Ok (tt, d') →
  moved d d' (at_addr (w_address w) v) v.
Proof.
  intros (w' & Hw' & Tw & Nw & [a Ea]) Hw Hok Hv Hs G. rewrite Hw in Hw'. injection Hw' as <-.
  assert (C : creditUnits (w_address w) v d = Ok (tt, d')).
  { unfold creditUnits. cbv zeta. rewrite Tw, (proj2 (String.eqb_neq _ _) Nw). cbn [orb].
    destruct (Z.eqb_spec v 0); [lia|]. rewrite (bind_run get _ d d d) by done. rewrite Ea.
    pose proof (hmc_le_sum d (w_address w) Hok) as Hle. unfold hmc, mval in Hle. rewrite Ea in Hle.
    destruct (Z.ltb_spec (two64 - 1 - v) (balance_units a)); [unfold two63, two64 in *; lia|].
    rewrite (bind_run (ret tt) _ d tt d) by done. apply bind_ok in G as ([] & d0 & G1 & G).
    rewrite (bind_run (sql_u64 v) _ d tt d0) by done. inv_tx G1. inv_tx G.
    unfold wallet_row, upsert_account, update_wallet, modify, bind, get. cbn. rewrite Hw. cbn.
    rewrite Tw, String.eqb_refl. do 2 f_equal. unfold upd_wallet. cbn. by rewrite Hw. }
  rewrite <- Tw. apply creditUnits_spec; try done; [by exists w; eauto|lia|by rewrite Tw].
Qed.

Lemma moved_set_tasks m d d' δ s : moved (set_tasks m d) d' δ s → moved d (set_tasks (tasks d) d') δ s.
Proof.
  intros [[A B] F O W R D]. split; [by split| |done|done| |done].
  - intros g Hg. destruct (F g Hg) as [P Q]. by split.
  - by rewrite R.
Qed.

Lemma zsum_nonneg (rows : list (string * Z)) : Forall (λ r, 0 ≤ r.2) rows → 0 ≤ zsum rows.*2.
Proof. induction 1 as [|x l Hx _ IH]; [done|]. change (zsum (x :: l).*2) with (x.2 + zsum l.*2). lia. Qed.

Lemma expire_rows_total now wa rows e d : Forall (λ r, 0 ≤ r.2 < two63) rows → zsum rows.*2 ≤ e →
  ∃ d', expire_rows now wa rows e d = Ok (e - zsum rows.*2, d').
Proof.
  revert e d. induction rows as [|[id v] rows IH]; intros e d Hf He; cbn.
  - exists d. unfold ret. do 2 f_equal. lia.
  - apply list.Forall_cons in Hf as [Hv Hf]. cbn in Hv, He.
    assert (0 ≤ zsum rows.*2) by (apply zsum_nonneg; eapply list.Forall_impl; [exact Hf|cbn; intros; lia]).
    fold (zsum rows.*2) in *. destruct (Z.ltb_spec e v); [lia|].
    assert (∃ d1, (if 0 <? v then sql_u64 v ;;; update_wallet (λ u, u + v) ;;;
        upsert_account (mkAccount v 0 0 0 0 0) (λ a, set_hmc (balance_units a + v) a) wa else ret tt) d = Ok (tt, d1)) as [d1 E].
    { destruct (0 <? v); [|by exists d]. run_u64 lia. by eexists. }
    rewrite (bind_run _ _ _ _ _ E). unfold update_open_task. rewrite (bind_run (modify _) _ _ tt _ eq_refl).
    destruct (IH (e - v) (set_tasks (alter (λ t, if String.eqb (t_status t) TaskStatusOpen then cancel_row now v t else t) id (tasks d1)) d1) Hf ltac:(lia)) as [d' E'].
    exists d'. rewrite E'. do 2 f_equal. lia.
Qed.

Lemma expire_rows_spec now w rows e d l d' : wallet_ok d → wallet d = Some w → accounts_ok d →
  Forall (λ r, 0 ≤ r.2) rows → hmc_sum d + zsum rows.*2 < two63 →
  expire_rows now (w_address w) rows e d = Ok (l, d') →
  l = e - zsum rows.*2 ∧
  ∃ d1, moved d d1 (at_addr (w_address w) (zsum rows.*2)) (zsum rows.*2) ∧
    d' = set_tasks (cancel_all now rows (tasks d)) d1.
Proof.
  revert w e d. induction rows as [|[id v] rows IH]; intros w e d Hwo Hw Hok Hf Hs G; cbn in G.
  - apply ret_ok in G as [<- <-]. cbn. split; [lia|]. exists d. split; [|by destruct d].
    eapply moved_ext; [by apply moved_none|intros b; by rewrite at_addr_0|done].
  - apply list.Forall_cons in Hf as [Hv Hf]. cbn in Hv, Hs |- *. fold (zsum rows.*2) in *.
    pose proof (zsum_nonneg rows Hf).
    destruct (e <? v); [discriminate G|].
    apply bind_ok in G as ([] & d1 & C & G). apply bind_ok in G as ([] & d2 & U & G).
    unfold update_open_task in U. apply modify_ok in U.
    assert (M : moved d d1 (at_addr (w_address w) v) v).
    { destruct (Z.ltb_spec 0 v); [apply (credit_primary_spec w v d d1); try done; lia|].
      replace v with 0 by lia. inv_tx C.
      eapply moved_ext; [by apply moved_none|intros b; by rewrite at_addr_0|done]. }
    assert (T1 : tasks d1 = tasks d) by by apply (moved_frame tasks _ _ _ _ (λ _ _ _, eq_refl) M).
    assert (W1 : wallet d2 = Some (mkWallet (w_address w) (w_units w + v))).
    { rewrite U. cbn. rewrite (mv_wallet _ _ _ _ M), Hw. cbn. by rewrite at_addr_eq. }
    apply (IH (mkWallet (w_address w) (w_units w + v))) in G as (-> & d3 & M3 & ->); try done.
    + split; [lia|]. exists (set_tasks (tasks d1) d3). rewrite U in M3. apply moved_set_tasks in M3. split.
      * eapply moved_ext; [exact (moved_trans _ _ _ _ _ _ _ M M3)| |done]. intros b. unfold at_addr. cbn.
        case_bool_decide; lia.
      * rewrite U. cbn. by rewrite T1.
    + rewrite U. by apply (moved_wallet_ok d d1 _ _ M).
    + rewrite U. apply M.
    + rewrite U. change (hmc_sum (set_tasks _ d1)) with (hmc_sum d1). rewrite (ce_sum _ _ _ _ _ (mv_hmc _ _ _ _ M)). lia.
Qed.

(** An overdue order is cancelled with its whole remaining need; the others stay. *)
Definition expire_row (now : Z) (t : TaskRow) : TaskRow :=
  if decide (overdue now t) then cancel_row now (need t) t else t.
Definition overdue_need (now : Z) (t : TaskRow) : Z := if decide (overdue now t) then need t else 0.
(** What an expiry at [now] refunds. *)
Definition refund_total (now : Z) (d : DB) : Z := msum (overdue_need now) (tasks d).

Lemma overdue_open now t : overdue now t → is_open t = true.
Proof. intros [E _]. by apply String.eqb_eq. Qed.

Lemma expired_rows_in now d id v : tasks_ok d →
  (id, v) ∈ expired_rows now d ↔ ∃ t, tasks d !! id = Some t ∧ overdue now t ∧ v = need t.
Proof.
  intros Hok. unfold expired_rows. rewrite list_elem_of_fmap. split.
  - intros ([i t] & [= -> ->] & [Ho Hi]%list_elem_of_filter). apply elem_of_map_to_list in Hi.
    exists t. split; [done|]. split; [done|]. by apply refund_units_eq, (overdue_open now); [apply (Hok i)|].
  - intros (t & Ht & Ho & ->). exists (id, t). split.
    + f_equal. symmetry. by apply refund_units_eq, (overdue_open now); [apply (Hok id)|].
    + apply list_elem_of_filter. split; [done|]. by apply elem_of_map_to_list.
Qed.

Lemma expired_rows_nodup now d : NoDup (expired_rows now d).*1.
Proof.
  unfold expired_rows. generalize (NoDup_fst_map_to_list (tasks d)).
  induction (map_to_list (tasks d)) as [|[i t] l IH]; intros N; [by constructor|].
  apply list.NoDup_cons in N as [Hi N]. rewrite filter_cons. destruct (decide _); [|by apply IH].
  rewrite !fmap_cons. cbn. apply list.NoDup_cons. split; [|by apply IH]. intros Hin. apply Hi.
  apply list_elem_of_fmap in Hin as ([j v] & -> & Hj). apply list_elem_of_fmap in Hj as ([j' t'] & [= -> ->] & Hj).
  apply list_elem_of_filter in Hj as [_ Hj]. apply list_elem_of_fmap. by exists (j', t').
Qed.

Lemma expired_rows_zsum now d : tasks_ok d → zsum (expired_rows now d).*2 = refund_total now d.
Proof.
  intros Hok. unfold refund_total. rewrite msum_list. unfold expired_rows.
  assert (HF : Forall (λ x, task_ok x.2) (map_to_list (tasks d))).
  { apply list.Forall_forall. intros [k t] Hk. by apply elem_of_map_to_list, (Hok k) in Hk. }
  induction HF as [|[i t] l Ht _ IH]; [done|]. rewrite filter_cons. cbn [fmap list_fmap foldr].
  unfold overdue_need at 1. cbn. destruct (decide (overdue now t)) as [Ho|Ho]; cbn.
  - rewrite refund_units_eq; [|done|by apply (overdue_open now)]. unfold zsum in *. cbn. by rewrite IH.
  - by rewrite IH.
Qed.

Lemma need_split now t : task_ok t → need (expire_row now t) = need t - overdue_need now t ∧
  0 ≤ overdue_need now t ≤ need t ∧ task_ok (expire_row now t).
Proof.
  intros Ht. pose proof (need_nonneg t Ht). unfold expire_row, overdue_need. destruct (decide _) as [Ho|Ho].
  - split; [|split; [lia|done]]. unfold need at 1. cbn. lia.
  - split; [lia|]. split; [lia|done].
Qed.

Lemma refund_total_range now d : tasks_ok d →
  0 ≤ refund_total now d ≤ msum need (tasks d) ∧
  msum need (expire_row now <$> tasks d) = msum need (tasks d) - refund_total now d ∧
  map_Forall (λ _ t, task_ok t) (expire_row now <$> tasks d).
Proof.
  intros Hok. unfold refund_total.
  assert (E : msum need (tasks d) = msum (λ t, need (expire_row now t)) (tasks d) + msum (overdue_need now) (tasks d)).
  { rewrite <- msum_plus. apply msum_ext. intros k t Hk. destruct (need_split now t (Hok k t Hk)) as [-> _]. lia. }
  rewrite msum_fmap. split; [|split; [lia|]].
  - split; [apply msum_nonneg; intros k t Hk; by apply need_split, (Hok k)|].
    enough (0 ≤ msum (λ t, need (expire_row now t)) (tasks d)) by lia.
    apply msum_nonneg. intros k t Hk. destruct (need_split now t (Hok k t Hk)) as (? & ? & ?). lia.
  - intros k t. rewrite lookup_fmap. destruct (tasks d !! k) as [x|] eqn:Ex; [|done]. intros [= <-].
    by apply need_split, (Hok k).
Qed.

Lemma cancel_all_expired now d : tasks_ok d →
  cancel_all now (expired_rows now d) (tasks d) = expire_row now <$> tasks d.
Proof.
  intros Hok. apply map_eq. intros i. rewrite cancel_all_lookup by apply expired_rows_nodup. rewrite lookup_fmap.
  destruct (list_to_map (M := gmap string Z) (expired_rows now d) !! i) as [v|] eqn:E.
  - apply elem_of_list_to_map_2 in E. apply (expired_rows_in now d i v Hok) in E as (t & -> & Ho & ->). cbn.
    rewrite (overdue_open now t Ho). unfold expire_row. by rewrite decide_True.
  - apply not_elem_of_list_to_map_2 in E. destruct (tasks d !! i) as [t|] eqn:Et; [|done]. cbn. f_equal.
    unfold expire_row. rewrite decide_False; [done|]. intros Ho. apply E. apply list_elem_of_fmap. exists (i, need t).
    split; [done|]. apply (expired_rows_in now d i _ Hok). by exists t.
Qed.

(** What an expiry did: the refund moved to the primary wallet, the rows were cancelled, and the
    counter went down by the refund. *)
Record expired (now : Z) (w : Wallet) (d d' : DB) : Prop := {
  xp_move : ∃ d1, moved d d1 (at_addr (w_address w) (refund_total now d)) (refund_total now d) ∧
    accounts d' = accounts d1 ∧ wallet d' = wallet d1 ∧
    (d' = set_tasks (expire_row now <$> tasks d)
            (ups_meta metaOrderEscrowUnits (MUint (order_escrow d - refund_total now d)) d1)
     ∨ d' = d);
  xp_tasks : tasks d' = expire_row now <$> tasks d;
  xp_counter : order_escrow d' = order_escrow d - refund_total now d;
}.

Lemma expire_none now d : tasks_ok d → expired_rows now d = [] →
  refund_total now d = 0 ∧ expire_row now <$> tasks d = tasks d.
Proof.
  intros Hok E. split.
  - by rewrite <- (expired_rows_zsum now d Hok), E.
  - by rewrite <- (cancel_all_expired now d Hok), E.
Qed.

Lemma expireOpenOrderTasksTx_spec now w d : ledger_inv d → wallet d = Some w →
  ∃ d', expireOpenOrderTasksTx now d = Ok (Z.of_nat (length (expired_rows now d)), d') ∧ expired now w d d'.
Proof.
  intros L Hw. pose proof L as [I Hok C T]. pose proof (order_escrow_range d L) as Ho.
  destruct (refund_total_range now d Hok) as (Hr & _ & _). rewrite <- C in Hr.
  unfold expireOpenOrderTasksTx. rewrite (bind_run get _ d d d) by done. rewrite Hw. cbv zeta. fold (order_escrow d).
  destruct (expired_rows now d) as [|r0 rs] eqn:Er.
  { cbn. exists d. split; [done|]. destruct (expire_none now d Hok Er) as [Z0 F0].
    split; [|by rewrite F0|lia]. exists d. split; [|split; [done|split; [done|by right]]].
    rewrite Z0. eapply moved_ext; [apply moved_none, I|intros b; by rewrite at_addr_0|done]. }
  cbn [length Nat.eqb]. rewrite <- Er.
  assert (Hf : Forall (λ r, 0 ≤ r.2 < two63) (expired_rows now d)).
  { apply list.Forall_forall. intros [id v] Hin. apply (expired_rows_in now d id v Hok) in Hin as (t & Ht & _ & ->).
    by apply need_nonneg, (Hok id). }
  pose proof (expired_rows_zsum now d Hok) as Zs.
  destruct (expire_rows_total now (w_address w) (expired_rows now d) (order_escrow d) d Hf ltac:(lia)) as [d2 E2].
  rewrite (bind_run _ _ _ _ _ E2). unfold upsertMetaUint, upsert_meta_val. rewrite (bind_run (modify _) _ d2 tt _ eq_refl).
  exists (ups_meta metaOrderEscrowUnits (MUint (order_escrow d - refund_total now d)) d2).
  split; [rewrite <- Zs, Er; reflexivity|].
  destruct (expire_rows_spec now w _ _ _ _ _ (ei_wallet d I) Hw (ei_ok d I)
    ltac:(eapply list.Forall_impl; [exact Hf|cbn; intros; lia])
    ltac:(rewrite Zs; pose proof (escrow_rows_nonneg d I); pose proof (ei_burned d I);
          unfold ledger_total, escrow_total in T; lia) E2) as (_ & d1 & M & ->).
  rewrite Zs in M. rewrite cancel_all_expired by done. split; [|done|].
  - exists d1. split; [exact M|]. split; [done|]. split; [done|by left].
  - unfold order_escrow at 1, metaUint. cbn. by rewrite lookup_insert_eq.
Qed.

Lemma expireOpenOrderTasksTx_kept now d n d' : ledger_inv d → expireOpenOrderTasksTx now d = Ok (n, d') →
  ledger_inv d' ∧ ledger_total d' = ledger_total d ∧ escrow_sup_total d' = escrow_sup_total d.
Proof.
  intros L G. pose proof L as [I Hok C T]. destruct (ei_wallet d I) as (w & Hw & _).
  destruct (expireOpenOrderTasksTx_spec now w d L Hw) as (d2 & G2 & [(d1 & M & _ & _ & [->| ->]) _ _]); rewrite G in G2;
    injection G2 as _ ->; [|done].
  destruct (refund_total_range now d Hok) as (Hr & Hm & Hf).
  apply (order_step_ok d d1 _ 0 _ _ L (flow_moved _ _ _ _ M)); [pose proof (ei_burned d I); lia|lia|exact Hf|].
  rewrite Hm, C. done.
Qed.

Lemma ExpireOpenOrderTasks_kept `{ChainParams} strict now d d' : ledger_inv d →
  ExpireOpenOrderTasks strict now d = Ok (tt, d') →
  ledger_inv d' ∧ ledger_total d' = ledger_total d ∧ escrow_sup_total d' = escrow_sup_total d.
Proof.
  intros L G. unfold ExpireOpenOrderTasks in G. apply bind_ok in G as (n & d1 & G1 & G).
  apply econ_guard_run in G as [-> _]. by apply (expireOpenOrderTasksTx_kept now d n).
Qed.

(** * Orders and campaigns together *)

(** One operation on the money of the node: a campaign step, a paid order under Economics v2, or
    an expiry run. *)
Inductive ledger_step `{ChainParams} `{Crypto} : DB → DB → Prop :=
  | ls_escrow d d' : escrow_step d d' → ledger_step d d'
  | ls_order e oe sql_sum signer strict now raw dec wasm r d d' :
      EconomicsV2ActiveForIndex (tip_height d + 1) = true →
      InsertOrderTask e oe sql_sum signer strict now raw dec wasm d = Ok (r, d') → ledger_step d d'
  | ls_expire strict now d d' : ExpireOpenOrderTasks strict now d = Ok (tt, d') → ledger_step d d'.

Lemma escrow_step_ledger `{ChainParams} `{Crypto} d d' : escrow_step d d' → ledger_inv d →
  ledger_inv d' ∧ ledger_total d' = ledger_total d ∧ escrow_sup_total d' = escrow_sup_total d.
Proof.
  intros [S|[ev S]] L; [by apply escrow_kept_ledger; [apply escrow_op_kept, L|]|].
  unfold UnmarkFuzzSettleApplied in S. cbv zeta in S. destruct (String.eqb _ _); inv_tx S; [done|].
  pose proof L as [I Hok C T].
  destruct (escrow_kept_same d (set_settle (delete (trim_space ev) (settle_applied d)) d) I) as (J & E & U); try done.
Qed.

Lemma ledger_step_inv `{ChainParams} `{Crypto} d d' : ledger_step d d' → ledger_inv d →
  ledger_inv d' ∧ ledger_total d' = ledger_total d ∧ escrow_sup_total d' = escrow_sup_total d.
Proof.
  intros S L. destruct S as [d d' S|e oe sq sg st now raw dec wasm r d d' Hv S|st now d d' S].
  - by apply escrow_step_ledger.
  - by apply (InsertOrderTask_kept e oe sq sg st now raw dec wasm d r).
  - by apply (ExpireOpenOrderTasks_kept st now).
Qed.
