(* ===== verification/OrderProps.v ===== *)
(** Paid orders: the properties, with concrete runs.

    A placed order costs exactly its escrow and its fee; an expiry gives back exactly what is
    left; progress completes an order on its last solve; the time limit stays within its bounds;
    and orders and campaigns together conserve money. *)
From S2P Require Import Prelude Float64 GoText Params Emission OrderFee Retarget Json GoNum Ledger Address GoSort Transfers Lane SupLedger EscrowSplit FuzzEscrow EscrowInv EscrowUndo Orders OrdersInv.

(** C28: Orders and campaign escrows together neither create nor lose money. Start from a
    well-formed ledger and run campaign operations, order placements under Economics v2 (HMC or
    SUP fee) and order expiries in any sequence: the sum of all HMC balances, of what open
    campaigns hold, of the order escrow counter and of the burned units never changes, and neither
    does circulating plus burned SUP. In every reachable state the order counter equals exactly
    what the open orders are still owed, so the liability recomputed by the invariant check never
    overflows and the check of counter against liability never fails. *)
Theorem orders_conserve `{ChainParams} `{Crypto} d d' : rtc ledger_step d d' → ledger_inv d →
  ledger_inv d' ∧ ledger_total d' = ledger_total d ∧ escrow_sup_total d' = escrow_sup_total d ∧
  openOrderLiabilityUnits d' = Ok (metaUint d' metaOrderEscrowUnits 0).
Proof.
  intros S L.
  assert (ledger_inv d' ∧ ledger_total d' = ledger_total d ∧ escrow_sup_total d' = escrow_sup_total d) as (J & T & U).
  { revert L. induction S as [d|d1 d2 d3 S _ IH]; intros L; [by split|].
    destruct (ledger_step_inv d1 d2 S L) as (J & T & U). destruct (IH J) as (J' & T' & U').
    split; [done|]. split; congruence. }
  split; [done|]. split; [done|]. split; [done|]. pose proof (order_escrow_range d' J) as R.
  destruct J as [_ Hok C _]. change (metaUint d' metaOrderEscrowUnits 0) with (order_escrow d'). rewrite C in *.
  apply openOrderLiabilityUnits_eq; [done|]. unfold two63, two64 in *. lia.
Qed.

(** An expiry run gives back exactly what is left of the overdue orders. On a well-formed
    ledger it never fails: every open order past its deadline is cancelled with its reward times
    the missing solves recorded as the refund, no other order changes, the sum of those refunds
    goes to the primary wallet in both ledgers and leaves the order escrow counter, no other
    balance moves, and running it again at the same time finds nothing. *)
Theorem expireOpenOrderTasks_exact now w d : ledger_inv d → wallet d = Some w →
  let refund := refund_total now d in
  ∃ n d', expireOpenOrderTasksTx now d = Ok (n, d') ∧
    (∀ id t, tasks d !! id = Some t → overdue now t →
       tasks d' !! id = Some (cancel_row now (HMCToUnits (reward t) * (target_solves t - progress_count t)) t)) ∧
    (∀ id, (∀ t, tasks d !! id = Some t → ¬ overdue now t) → tasks d' !! id = tasks d !! id) ∧
    0 ≤ refund ≤ order_escrow d ∧ order_escrow d' = order_escrow d - refund ∧
    (∀ b, hmc d' b = hmc d b + at_addr (w_address w) refund b) ∧
    wallet d' = Some (mkWallet (w_address w) (w_units w + refund)) ∧
    expireOpenOrderTasksTx now d' = Ok (0, d').
Proof.
  intros L Hw refund. destruct (expireOpenOrderTasksTx_spec now w d L Hw) as (d' & G & X).
  destruct X as [(d1 & M & A & W & _) T C]. pose proof L as [I Hok Ce _].
  destruct (refund_total_range now d Hok) as (Hr & _ & _). rewrite <- Ce in Hr.
  exists (Z.of_nat (length (expired_rows now d))), d'. split; [exact G|].
  split; [|split; [|split; [exact Hr|split; [exact C|split; [|split]]]]].
  - intros id t Ht Ho. rewrite T, lookup_fmap, Ht. cbn. unfold expire_row. rewrite decide_True by done.
    unfold need. by rewrite (overdue_open now t Ho).
  - intros id Hn. rewrite T, lookup_fmap. destruct (tasks d !! id) as [t|] eqn:Et; [|done]. cbn.
    unfold expire_row. rewrite decide_False; [done|by apply Hn].
  - intros b. unfold hmc. rewrite A. apply (ce_at _ _ _ _ _ (mv_hmc _ _ _ _ M) b).
  - rewrite W, (mv_wallet _ _ _ _ M), Hw. cbn. by rewrite at_addr_eq.
  - assert (E : expired_rows now d' = []).
    { destruct (expired_rows now d') as [|[id v] l] eqn:E; [done|].
      assert ((id, v) ∈ expired_rows now d') as Hin by (rewrite E; left). exfalso. clear E.
      unfold expired_rows in Hin. apply list_elem_of_fmap in Hin as ([i t] & _ & [Ho Hi]%list_elem_of_filter).
      apply elem_of_map_to_list in Hi. rewrite T, lookup_fmap in Hi.
      destruct (tasks d !! i) as [x|]; [|discriminate Hi]. cbn in Hi. injection Hi as <-.
      unfold expire_row in Ho. destruct (decide (overdue now x)) as [Hx|Hx]; [|done].
      destruct Ho as [Ho _]. discriminate Ho. }
    unfold expireOpenOrderTasksTx. rewrite (bind_run get _ d' d' d') by done.
    rewrite W, (mv_wallet _ _ _ _ M), Hw. cbn. by rewrite E.
Qed.

(** How a booked fee changes the balances of payer and platform. *)
Definition fee_hmc (f : OrderFeeV2) : bool := String.eqb (Asset f) FeeAssetHMC.

Lemma order_fee_shift `{Crypto} w f ref d d' : fee_ok f → Asset f = FeeAssetHMC ∨ Asset f = FeeAssetSUP →
  accounts_ok d → 0 ≤ supTotalBurnedUnits d → escrow_sup_total d < two63 → fee_booked w f ref d d' →
  shift d d' (at_addr DevFeeAddress (if fee_hmc f then PlatformUnits f else 0))
    (at_addr w (if fee_hmc f then 0 else - SUPUnits f))
    (if fee_hmc f then BurnUnits f else 0) (if fee_hmc f then 0 else SUPUnits f).
Proof.
  intros Hf Ha Hok Hb Ht FB. destruct (fee_booked_shift w f ref d d' Hf (or_intror Ha) Hok Hb Ht FB) as [S _].
  unfold fee_hmc. by destruct Ha as [E|E]; rewrite E in *.
Qed.

(** What a paid order costs, under Economics v2. When [InsertOrderTask] succeeds, the order is
    new and open with a reward in units times its target as escrow; the payer's wallet is debited
    that escrow plus the HMC fee (only the escrow when the fee is paid in SUP, whose price leaves
    the SUP balance); the platform leg reaches the platform address, the burn leg the burn counter,
    and no other HMC balance moves; the order counter grows by exactly the escrow; every other
    order and the HMS balances are untouched; and the balance reported back is the payer's. *)
Theorem InsertOrderTask_exact `{ChainParams} `{Crypto} e oe sql_sum signer strict now raw dec wasm d r d' :
  ledger_inv d → EconomicsV2ActiveForIndex (tip_height d + 1) = true →
  InsertOrderTask e oe sql_sum signer strict now raw dec wasm d = Ok (r, d') →
  ∃ m o f w, dec = Some m ∧ order_draft oe raw dec wasm = Ok o ∧ wallet d = Some w ∧ r_Fee r = Some f ∧
    let escrow := HMCToUnits (m_RewardHMC m) * o_target o in
    let fee := if fee_hmc f then BurnUnits f + PlatformUnits f else 0 in
    OrderFeeV2ForEscrow (tip_height d) escrow (Asset f) = Ok f ∧
    0 < escrow ∧ 0 ≤ fee ∧ escrow + fee ≤ hmc d (w_address w) ∧
    r_TotalDebitHMC r = UnitsToHMC (escrow + fee) ∧
    tasks d !! trim_space (m_ID m) = None ∧
    tasks d' = <[trim_space (m_ID m) := order_row o now raw f]> (tasks d) ∧
    order_escrow d' = order_escrow d + escrow ∧
    (∀ b, hmc d' b = hmc d b - at_addr (w_address w) (escrow + fee) b
            + at_addr DevFeeAddress (if fee_hmc f then PlatformUnits f else 0) b) ∧
    (∀ b, sup d' b = sup d b - at_addr (w_address w) (if fee_hmc f then 0 else SUPUnits f) b) ∧
    (∀ b, hms d' b = hms d b) ∧
    burned_units d' = burned_units d + (if fee_hmc f then BurnUnits f else 0) ∧
    r_BalanceAfter r = UnitsToHMC (hmc d' (w_address w)).
Proof.
  intros L Hv G. destruct (InsertOrderTask_spec _ _ _ _ _ _ _ _ _ _ _ _ L Hv G)
    as (o & m & w & f & d1 & d2 & Od & Do & Hm & _ & _ & P & Hr).
  destruct (InsertOrderTask_kept _ _ _ _ _ _ _ _ _ _ _ _ L Hv G) as (L' & _ & _).
  destruct P as [(Hf & Ha & HE) Hp Hw Hnew Hfunds Hd FB Hrows _]. pose proof L as [I Hok Ce _].
  destruct (order_draft_ok _ _ _ _ _ Od) as (_ & _ & m' & Hm' & Eid & Erw & _).
  rewrite Hm in Hm'. injection Hm' as <-.
  assert (Eesc : o_prepaidUnits o = HMCToUnits (m_RewardHMC m) * o_target o).
  { destruct Do as [_ _ [E _] _ [E2 _]]. by rewrite E2, E, Erw. }
  assert (Efee : HMCUnits f = if fee_hmc f then BurnUnits f + PlatformUnits f else 0).
  { rewrite (HMCUnits_eq f Hf). unfold fee_hmc. destruct Ha as [-> | ->]; done. }
  destruct (ei_sup d I) as [Hsb Hst]. pose proof (flow_moved _ _ _ _ Hd) as Fm.
  pose proof (shift_trans _ _ _ _ _ _ _ _ _ _ _ (shift_moved _ _ _ _ Hd)
    (order_fee_shift _ _ _ _ _ Hf Ha (mv_ok _ _ _ _ Hd) (fl_sup_burned _ _ _ _ Fm Hsb)
       ltac:(by rewrite (fl_sup _ _ _ _ Fm)) FB)) as S.
  exists m, o, f, w. split; [done|]. split; [exact Od|]. split; [exact Hw|]. split; [by rewrite Hr|].
  cbv zeta. rewrite <- Efee, <- Eesc, <- Eid.
  assert (Ab : ∀ b, hmc d' b = hmc d b - at_addr (w_address w) (o_prepaidUnits o + HMCUnits f) b
            + at_addr DevFeeAddress (if fee_hmc f then PlatformUnits f else 0) b).
  { intros b. rewrite Hrows. change (hmc (set_tasks _ _) b) with (hmc d2 b). rewrite (sh_hmc _ _ _ _ _ _ S).
    unfold at_addr. repeat case_bool_decide; lia. }
  assert (Hf0 : 0 ≤ HMCUnits f) by (rewrite Efee; destruct Hf as (?&?&_), (fee_hmc f); lia).
  split; [exact HE|]. split; [lia|]. split; [done|]. split; [done|]. split; [by rewrite Hr|].
  split; [done|]. split; [by rewrite Hrows|]. split; [rewrite Hrows; unfold order_escrow at 1, metaUint; cbn; by rewrite lookup_insert_eq|].
  split; [exact Ab|]. split; [|split; [|split]].
  - intros b. rewrite Hrows. change (sup (set_tasks _ _) b) with (sup d2 b). rewrite (sh_sup _ _ _ _ _ _ S).
    unfold at_addr. repeat case_bool_decide; destruct (fee_hmc f); lia.
  - intros b. rewrite Hrows. change (hms (set_tasks _ _) b) with (hms d2 b). apply (sh_hms _ _ _ _ _ _ S).
  - rewrite Hrows. change (burned_units (set_tasks ?m ?x)) with (burned_units x).
    rewrite burned_order_key, (sh_burn _ _ _ _ _ _ S). lia.
  - rewrite Hr. cbn. f_equal. pose proof (ei_mirror d' (li_escrow d' L')) as Mi. unfold mirrored in Mi.
    rewrite Hrows in *. cbn [wallet set_tasks ups_meta set_meta] in *. rewrite (sh_wallet _ _ _ _ _ _ S), Hw in *. exact Mi.
Qed.

(** * Progress *)

Fixpoint bump_times (k : nat) (id : string) : tx DB unit :=
  match k with O => ret tt | S k => bumpOrderTaskProgress id ;;; bump_times k id end.

(** The row after [k] credited solves. *)
Definition bumped (k : Z) (t : TaskRow) : TaskRow :=
  mkTaskRow (artifact_hash t) (reward t)
    (if progress_count t + k =? target_solves t then TaskStatusCompleted else TaskStatusOpen)
    (created_at t) (t_kind t) (target_solves t) (progress_count t + k) (payer_ref t) (prepaid_hmc t)
    (expires_at t) (cancelled_at t) (cancel_reason t) (refunded_hmc t) (manifest_json t) (t_fee t).

Lemma bump_run id t d : id ≠ "" → tasks d !! id = Some t → is_open t = true →
  bumpOrderTaskProgress id d = Ok (tt, set_tasks (<[id := bump_row t]> (tasks d)) d).
Proof.
  intros Hid Ht Ho. unfold bumpOrderTaskProgress. apply String.eqb_neq in Hid. rewrite Hid.
  rewrite (bind_run get _ d d d) by done. rewrite Ht. unfold is_open in Ho. by rewrite Ho.
Qed.

Lemma bump_row_bumped k t : 0 ≤ k → progress_count t + k < target_solves t → bump_row (bumped k t) = bumped (k + 1) t.
Proof.
  intros Hk Hp. unfold bump_row, bumped. cbn. destruct (Z.eqb_spec (progress_count t + k) (target_solves t)); [lia|].
  rewrite <- Z.add_assoc. destruct (Z.leb_spec (target_solves t) (progress_count t + (k + 1))),
    (Z.eqb_spec (progress_count t + (k + 1)) (target_solves t)); try lia; done.
Qed.

(** An order is completed by its last solve, not before and not twice. From an open order with
    [p] of [n] solves, each of the next [n - p] bumps succeeds and lowers what the order is owed
    by one reward; the status stays open until the last of them and is completed by it, also for
    an order with a target of one; and one bump more is refused, which refuses the block. *)
Theorem bumpOrderTaskProgress_completes id t d k : id ≠ "" → tasks d !! id = Some t → is_open t = true → task_ok t →
  let missing := target_solves t - progress_count t in
  (Z.of_nat k ≤ missing →
     ∃ d', bump_times k id d = Ok (tt, d') ∧ tasks d' !! id = Some (bumped (Z.of_nat k) t) ∧
       need (bumped (Z.of_nat k) t) = need t - Z.of_nat k * HMCToUnits (reward t) ∧
       (is_open (bumped (Z.of_nat k) t) = true ↔ Z.of_nat k < missing)) ∧
  (missing < Z.of_nat k → ∃ e, bump_times k id d = Err e).
Proof.
  intros Hid Ht Ho Hok missing. destruct (Hok Ho) as (_ & _ & Hp & _).
  assert (B0 : bumped 0 t = t).
  { unfold bumped. destruct (Z.eqb_spec (progress_count t + 0) (target_solves t)); [lia|].
    unfold is_open in Ho. apply String.eqb_eq in Ho. rewrite <- Ho, Z.add_0_r. by destruct t. }
  assert (Run : ∀ (j : nat) (i : Z) x, 0 ≤ i → i + Z.of_nat j ≤ missing → tasks x !! id = Some (bumped i t) →
    ∃ x', (∀ k', bump_times (j + k') id x = bump_times k' id x') ∧ tasks x' !! id = Some (bumped (i + Z.of_nat j) t)).
  { induction j as [|j IH]; intros i x Hi Hj Hx.
    - exists x. split; [done|]. by rewrite Z.add_0_r.
    - assert (Oi : is_open (bumped i t) = true).
      { unfold is_open, bumped. cbn. destruct (Z.eqb_spec (progress_count t + i) (target_solves t)); [lia|done]. }
      destruct (IH (i + 1) (set_tasks (<[id := bump_row (bumped i t)]> (tasks x)) x)) as (x' & R & T); [lia|lia| |].
      + cbn. rewrite lookup_insert_eq. f_equal. apply bump_row_bumped; lia.
      + exists x'. split; [|by replace (i + Z.of_nat (S j)) with (i + 1 + Z.of_nat j) by lia].
        intros k'. cbn [Nat.add bump_times]. rewrite (bind_run _ _ _ _ _ (bump_run id _ x Hid Hx Oi)). apply R. }
  assert (Open : ∀ i, 0 ≤ i ≤ missing → is_open (bumped i t) = true ↔ i < missing).
  { intros i Hi. unfold is_open, bumped. cbn. destruct (Z.eqb_spec (progress_count t + i) (target_solves t));
      split; intros; try done; lia. }
  rewrite <- B0 in Ht. split; intros Hk.
  - destruct (Run k 0 d ltac:(lia) ltac:(lia) Ht) as (d' & R & T). specialize (R O). rewrite Nat.add_0_r in R.
    exists d'. split; [exact R|]. split; [exact T|]. split; [|by apply Open; lia].
    unfold need at 2. rewrite Ho. unfold need. destruct (is_open (bumped (Z.of_nat k) t)) eqn:E.
    + unfold bumped. cbn. lia.
    + assert (¬ Z.of_nat k < missing) by (rewrite <- Open by lia; by rewrite E).
      replace (Z.of_nat k) with (target_solves t - progress_count t) by lia. lia.
  - destruct (Run (Z.to_nat missing) 0 d ltac:(lia) ltac:(lia) Ht) as (d' & R & T). rewrite Z.add_0_l, Z2Nat.id in T by lia.
    specialize (R (k - Z.to_nat missing)%nat). replace (Z.to_nat missing + (k - Z.to_nat missing))%nat with k in R by lia.
    rewrite R. destruct (k - Z.to_nat missing)%nat as [|j] eqn:Ej; [lia|]. cbn [bump_times]. unfold bind, bumpOrderTaskProgress.
    apply String.eqb_neq in Hid. rewrite Hid. unfold bind, get. rewrite T.
    destruct (is_open (bumped missing t)) eqn:E; [apply Open in E; lia|]. unfold is_open in E. rewrite E. by eexists.
Qed.

(** Bounds of an order's time limit. Whatever the environment says, the limit is at least one
    second and at most the configured maximum; with the minimum below the maximum it is at least
    the minimum, an explicit limit inside the bounds is taken as it is and one outside is refused.
    With a minimum above the default maximum and no maximum set, the two bounds cross: every
    explicit limit is refused and an automatic one is below the configured minimum. *)
Theorem resolveOrderTTLSeconds_bounds oe manual target :
  1 ≤ min_ttl oe ∧ 1 ≤ max_ttl oe ∧
  (∀ ttl, resolveOrderTTLSeconds oe manual target = Ok ttl → 1 ≤ ttl ≤ max_ttl oe ∧
     (min_ttl oe ≤ max_ttl oe → min_ttl oe ≤ ttl) ∧ (0 < manual → ttl = manual)) ∧
  (0 < manual → min_ttl oe ≤ manual ≤ max_ttl oe → resolveOrderTTLSeconds oe manual target = Ok manual) ∧
  (0 < manual → ¬ min_ttl oe ≤ manual ≤ max_ttl oe → ∃ e, resolveOrderTTLSeconds oe manual target = Err e) ∧
  (manual ≤ 0 → ∃ ttl, resolveOrderTTLSeconds oe manual target = Ok ttl) ∧
  (max_ttl oe < min_ttl oe → max_ttl oe = 72 * 3600 ∧
     (manual ≤ 0 → resolveOrderTTLSeconds oe manual target = Ok (max_ttl oe))).
Proof.
  assert (Hset : ∀ raw lo dflt, int_setting raw lo dflt = dflt ∨ lo ≤ int_setting raw lo dflt).
  { intros raw lo dflt. unfold int_setting. destruct (atoi _) as [x|]; [|by left].
    destruct (Z.leb_spec lo x); [by right|by left]. }
  assert (H1 : 1 ≤ min_ttl oe) by (unfold min_ttl; destruct (Hset (HACKME_ORDER_MIN_TTL_SEC oe) 1 defaultOrderMinTTLSeconds) as [-> |]; [by vm_compute|lia]).
  assert (H2 : max_ttl oe = 72 * 3600 ∨ min_ttl oe ≤ max_ttl oe) by apply Hset.
  assert (H3 : 1 ≤ max_ttl oe) by lia.
  split; [done|]. split; [done|]. unfold resolveOrderTTLSeconds. cbv zeta.
  set (lo := min_ttl oe) in *. set (hi := max_ttl oe) in *. clearbody lo hi.
  set (auto := f_to_int64 _). clearbody auto.
  destruct (Z.ltb_spec 0 manual).
  - destruct (Z.ltb_spec manual lo), (Z.ltb_spec hi manual); cbn [orb];
      (split; [intros ttl E; try discriminate E; injection E as <-; lia|]);
      (split; [intros; try done; lia|]); (split; [intros; try (by eexists); lia|]);
      (split; [intros; lia|]); intros; lia.
  - split; [|split; [lia|split; [lia|split; [by eexists|]]]].
    + intros ttl [= <-]. destruct (Z.ltb_spec auto lo), (Z.ltb_spec hi lo), (Z.ltb_spec hi auto); lia.
    + intros Hc. split; [lia|]. intros _. f_equal. destruct (Z.ltb_spec auto lo), (Z.ltb_spec hi lo), (Z.ltb_spec hi auto); lia.
Qed.

(** * A concrete order

    Ten solves of 0.01 HMC each, placed by the wallet of the campaign example and left to expire. *)
#[local] Instance order_ex_params : ChainParams := params_of empty_env 0.
#[local] Instance order_ex_crypto : Crypto := toy_crypto.

Definition sum_left (l : list f64) : f64 := foldl f_add (f_of_Z 0) l.
Definition order_ex_manifest (asset : string) : orderManifestJSON :=
  mkManifest " job-1 " "" "" "" (lit 1 100) 2 0 10 7200 "acme" asset.
#[local] Abbreviation order_ex_insert asset :=
  (InsertOrderTask empty_env empty_order_env sum_left None true 1000 "{}" (Some (order_ex_manifest asset)) (Ok tt)).
Definition order_ex_placed (asset : string) : DB := run (order_ex_insert asset) escrow_ex_db.

Lemma order_ex_inv : ledger_inv escrow_ex_db.
Proof.
  split; [exact escrow_ex_inv|apply map_Forall_empty|by vm_compute|by vm_compute].
Qed.

Lemma order_ex_insert_ok : is_ok (outcome (order_ex_insert "HMC") escrow_ex_db) = true ∧
  is_ok (outcome (order_ex_insert "SUP") escrow_ex_db) = true.
Proof. split; vm_compute; reflexivity. Qed.

Lemma order_ex_v2 : EconomicsV2ActiveForIndex (tip_height escrow_ex_db + 1) = true.
Proof. vm_compute. reflexivity. Qed.

Example order_ex_numbers :
  let d := order_ex_placed "HMC" in let d' := run (ExpireOpenOrderTasks true 9000) d in
  (hmc d escrow_ex_w, order_escrow d, hmc d DevFeeAddress, burned_units d, hmc d' escrow_ex_w, order_escrow d')
  = (9988888890, 10000000, 555555, 555555, 9998888890, 0).
Proof. vm_compute. reflexivity. Qed.

Lemma ok_run {A} (m : tx DB A) d : is_ok (outcome m d) = true → ∃ a, m d = Ok (a, run m d).
Proof. unfold outcome, run. destruct (m d) as [[a d']|]; [by exists a|done]. Qed.

Lemma orders_conserve_witness :
  let d' := run (ExpireOpenOrderTasks true 9000) (order_ex_placed "HMC") in
  rtc ledger_step escrow_ex_db d' ∧ ledger_total d' = 10000000000.
Proof.
  cbv zeta. set (d' := run _ _).
  assert (R : rtc ledger_step escrow_ex_db d').
  { destruct (ok_run _ _ (proj1 order_ex_insert_ok)) as [r G].
    eapply rtc_l; [exact (ls_order _ _ _ _ _ _ _ _ _ _ _ _ order_ex_v2 G)|].
    apply rtc_once. apply (ls_expire true 9000). vm_compute. reflexivity. }
  split; [exact R|]. destruct (orders_conserve escrow_ex_db d' R order_ex_inv) as (_ & E & _).
  rewrite E. vm_compute. reflexivity.
Defined.

Lemma InsertOrderTask_exact_witness :
  let d' := order_ex_placed "HMC" in
  hmc d' escrow_ex_w = 9988888890 ∧ tasks d' !! "job-1" ≠ None.
Proof.
  cbv zeta. destruct (ok_run _ _ (proj1 order_ex_insert_ok)) as [r G].
  destruct (InsertOrderTask_exact _ _ _ _ _ _ _ _ _ _ _ _ order_ex_inv order_ex_v2 G)
    as (m & o & f & w & [= <-] & _ & Hw & _ & R). cbv zeta in R.
  destruct R as (_ & _ & _ & _ & _ & _ & T & _). split; [vm_compute; reflexivity|].
  assert (K : trim_space (m_ID (order_ex_manifest "HMC")) = "job-1") by (vm_compute; reflexivity).
  rewrite K in T. fold (order_ex_placed "HMC") in T. rewrite T, lookup_insert_eq. discriminate.
Defined.

Lemma order_ex_placed_inv : ledger_inv (order_ex_placed "HMC").
Proof.
  destruct (ok_run _ _ (proj1 order_ex_insert_ok)) as [r G].
  exact (proj1 (InsertOrderTask_kept _ _ _ _ _ _ _ _ _ _ _ _ order_ex_inv order_ex_v2 G)).
Qed.

Lemma expireOpenOrderTasks_exact_witness :
  ∃ n d', expireOpenOrderTasksTx 9000 (order_ex_placed "HMC") = Ok (n, d') ∧ hmc d' escrow_ex_w = 9998888890.
Proof.
  destruct (expireOpenOrderTasks_exact 9000 (mkWallet escrow_ex_w 9988888890) (order_ex_placed "HMC") order_ex_placed_inv
    ltac:(vm_compute; reflexivity)) as (n & d' & G & _ & _ & _ & _ & B & _).
  exists n, d'. split; [exact G|]. rewrite B. vm_compute. reflexivity.
Defined.

Lemma bumpOrderTaskProgress_completes_witness :
  let t := mkTaskRow "" (lit 1 100) TaskStatusOpen 0 "" 2 0 "" (lit 2 100) 0 0 "" (f_of_Z 0) "" no_fee in
  let d := set_tasks {[ "job-2" := t ]} empty_db in
  (∃ d', bump_times 2 "job-2" d = Ok (tt, d')) ∧ (∃ e, bump_times 3 "job-2" d = Err e).
Proof.
  cbv zeta. set (t := mkTaskRow _ _ _ _ _ _ _ _ _ _ _ _ _ _ _). set (d := set_tasks _ _).
  assert (Ht : tasks d !! "job-2" = Some t) by apply lookup_singleton_eq.
  assert (Hok : task_ok t).
  { intros _. split; [vm_compute; reflexivity|]. split; [vm_compute; reflexivity|]. split; [cbn; lia|vm_compute; reflexivity]. }
  split.
  - destruct (bumpOrderTaskProgress_completes "job-2" t d 2 ltac:(discriminate) Ht eq_refl Hok) as [A _].
    destruct (A ltac:(cbn; lia)) as (d' & G & _). by exists d'.
  - destruct (bumpOrderTaskProgress_completes "job-2" t d 3 ltac:(discriminate) Ht eq_refl Hok) as [_ A].
    apply A. cbn. lia.
Defined.

(** Crossing bounds: a minimum of 100 hours with no maximum. *)
Example crossed_bounds :
  let oe := mkOrderEnv "" "360000" "" "" "" in
  (min_ttl oe, max_ttl oe, resolveOrderTTLSeconds oe 0 10, is_ok (resolveOrderTTLSeconds oe 360000 10))
  = (360000, 259200, Ok 259200, false).
Proof. vm_compute. reflexivity. Qed.
