(* ===== verification/Block.v ===== *)
(** Blocks: the header that is hashed, how genesis and mined blocks are built, signing, and
    verification.

    Sources: internal/block (hash.go, genesis.go, poh.go, miner_display.go) and, from
    internal/chain/service.go, attachBlockSignature and verifyBlockIntegrityAndSignature.  Clock
    readings and the random task id are arguments. *)
From S2P Require Import Prelude Float64 GoText Params Retarget Json Ledger Address Transfers.

(** * Header bytes *)

(** [[]byte] in JSON: standard base64 with padding. *)
Definition b64_char (n : Z) : ascii :=
  ascii_of_nat (Z.to_nat (if n <? 26 then 65 + n else if n <? 52 then 71 + n else if n <? 62 then n - 4
                          else if n =? 62 then 43 else 47)).
Definition byte_val (a : ascii) : Z := Z.of_nat (nat_of_ascii a).

Fixpoint base64 (s : string) : string :=
  match s with
  | EmptyString => EmptyString
  | String a EmptyString =>
      let x := byte_val a in
      String (b64_char (x / 4)) (String (b64_char (x mod 4 * 16)) "==")
  | String a (String b EmptyString) =>
      let x := byte_val a in let y := byte_val b in
      String (b64_char (x / 4)) (String (b64_char (x mod 4 * 16 + y / 16)) (String (b64_char (y mod 16 * 4)) "="))
  | String a (String b (String c r)) =>
      let x := byte_val a in let y := byte_val b in let z := byte_val c in
      String (b64_char (x / 4)) (String (b64_char (x mod 4 * 16 + y / 16))
        (String (b64_char (y mod 16 * 4 + z / 64)) (String (b64_char (z mod 64)) (base64 r))))
  end.


Definition task_json (t : Task) : string :=
  jobject ([jmember "id" (json_string (T_ID t)); jmember "kind" (json_string (T_Kind t))]
           ++ (if String.eqb (T_Payload t) "" then [] else [jmember "payload" (json_string (base64 (T_Payload t)))])
           ++ jomit "target_hint" (T_TargetHint t)).

(** The hash, the signature fields excepted. *)
Definition headerForHash (b : Block) : string :=
  jobject ([jmember "index" (fmt_uint (b_Index b)); jmember "timestamp_unix" (fmt_int (b_Timestamp b));
            jmember "prev_hash" (json_string (b_PrevHash b)); jmember "nonce" (fmt_uint (b_Nonce b));
            jmember "miner_address" (json_string (b_MinerAddress b)); jmember "task" (task_json (b_Task b))]
           ++ jomit "chain_id" (b_ChainID b) ++ jomit "reward_to" (b_RewardTo b)).

Definition set_hash (h : string) (b : Block) : Block :=
  mkBlock (b_Index b) (b_Timestamp b) (b_PrevHash b) h (b_MinerSigAlg b) (b_MinerPubKey b) (b_MinerSig b)
    (b_Nonce b) (b_MinerAddress b) (b_Task b) (b_ChainID b) (b_RewardTo b).
Definition set_timestamp (ts : Z) (b : Block) : Block :=
  mkBlock (b_Index b) ts (b_PrevHash b) (b_Hash b) (b_MinerSigAlg b) (b_MinerPubKey b) (b_MinerSig b)
    (b_Nonce b) (b_MinerAddress b) (b_Task b) (b_ChainID b) (b_RewardTo b).
Definition set_v2 (chainID rewardTo : string) (b : Block) : Block :=
  mkBlock (b_Index b) (b_Timestamp b) (b_PrevHash b) (b_Hash b) (b_MinerSigAlg b) (b_MinerPubKey b) (b_MinerSig b)
    (b_Nonce b) (b_MinerAddress b) (b_Task b) chainID rewardTo.
Definition set_signature (alg pub sig : string) (b : Block) : Block :=
  mkBlock (b_Index b) (b_Timestamp b) (b_PrevHash b) (b_Hash b) alg pub sig
    (b_Nonce b) (b_MinerAddress b) (b_Task b) (b_ChainID b) (b_RewardTo b).

(** * Construction *)

Definition ZeroPrevHash : string :=
  "0000000000000000000000000000000000000000000000000000000000000000".
Definition GenesisKind : string := "genesis_v1".
Definition GenesisChainID : string := "hackme-dev-mainnet".
Definition PoHBlockKind : string := "poh_wasm_v1".

Definition PoHFormulaLabelForIndex `{ChainParams} (index : Z) : string :=
  PoHFormulaLabelForKind (ActivePoHTaskKindForIndex index).

(** The payload map; [json.Marshal] writes its keys in order. *)
Definition poh_payload (nonce eval mod_ : Z) (orderTaskID formula : string) : string :=
  json_object [JUint "eval" eval; JStr "formula" formula; JUint "mod" mod_; JUint "nonce" nonce;
               JStrOmit "order_task_id" orderTaskID; JStr "poh" "wasm_eval"].

Definition PoHTask (rid : string) (nonce eval mod_ : Z) (orderTaskID formula : string) : Task :=
  let formula := if String.eqb formula "" then "eval_v1(n)=n*7+13" else formula in
  mkTask ("task-poh-" +:+ rid) PoHBlockKind (poh_payload nonce eval mod_ orderTaskID formula)
    ((if str_contains formula "blake3" then "blake3_work%" else "eval(n)%") +:+ fmt_uint mod_ +:+ "==0").

Definition GenesisTask (rid : string) : Task :=
  mkTask ("task-genesis-" +:+ rid) GenesisKind
    (jobject [jmember "message" (json_string "HackMe genesis — WASM lock: find nonce where eval(nonce) mod M == 0 (M from meta poh_target_mod after genesis)")])
    "eval(nonce)%M==0".

Section block.
Context `{Crypto}.

Definition HeaderHashHex (b : Block) : string := hex_encode (sha256 (headerForHash b)).
Definition SetHash (b : Block) : Block := set_hash (HeaderHashHex b) b.

Definition NewGenesisBlock (now : Z) (rid minerAddress : string) : Block :=
  SetHash (mkBlock 0 now ZeroPrevHash "" "" "" "" 0 minerAddress (GenesisTask rid) "" "").

Definition NewPoHBlock (now : Z) (rid : string) (index : Z) (prevHash minerAddress : string) (nonce eval mod_ : Z)
    (orderTaskID formula : string) : Block :=
  SetHash (mkBlock index now prevHash "" "" "" "" nonce minerAddress
             (PoHTask rid nonce eval mod_ orderTaskID formula) "" "").

(** The stored miner, or the short address of the signing key. *)
Definition EffectiveMinerAddress (b : Block) : string :=
  let a := trim_space (b_MinerAddress b) in
  if negb (String.eqb a "") then a
  else
    let pubHex := trim_space (b_MinerPubKey b) in
    if String.eqb pubHex "" then ""
    else match decode_hex_len 32 pubHex with
         | None => ""
         | Some pub => "HMC-" +:+ str_take 16 (hex_encode (sha256 pub))
         end.

(** * Signature *)

(** The node key: its public half in hex and the signature it makes. *)
Record Signer := mkSigner { PublicKeyHex : string; SignHex : string → string }.

Definition attachBlockSignature (signer : option Signer) (b : Block) : Block :=
  match signer with
  | None => b
  | Some s => set_signature TransferSigAlgEd25519 (PublicKeyHex s) (SignHex s (b_Hash b)) b
  end.

(** [hex.DecodeString] with the size check. *)
Definition raw_hex (n : nat) (s : string) : option string :=
  match hex_decode s with
  | Some raw => if Nat.eqb (String.length raw) n then Some raw else None
  | None => None
  end.

Definition verifyBlockIntegrityAndSignature (b : Block) : result unit :=
  if negb (String.eqb (HeaderHashHex b) (b_Hash b)) then Err "chain: block hash mismatch"
  else if String.eqb (b_MinerPubKey b) "" && String.eqb (b_MinerSig b) "" then Ok tt
  else
    let alg := trim_space (to_lower (b_MinerSigAlg b)) in
    let alg := if String.eqb alg "" then TransferSigAlgEd25519 else alg in
    if negb (String.eqb alg TransferSigAlgEd25519) then Err "chain: unsupported miner_sig_alg"
    else if String.eqb (b_MinerPubKey b) "" || String.eqb (b_MinerSig b) ""
    then Err "chain: incomplete block signature fields"
    else match raw_hex 32 (b_MinerPubKey b), raw_hex 64 (b_MinerSig b) with
    | None, _ => Err "chain: invalid miner_pubkey_ed25519"
    | _, None => Err "chain: invalid miner_sig_ed25519"
    | Some pub, Some sig =>
        if ed25519_verify pub (b_Hash b) sig then Ok tt else Err "chain: block signature verify failed"
    end.
End block.

(** * Facts *)

Lemma HeaderHashHex_sig `{Crypto} h alg pub sig b :
  HeaderHashHex (set_hash h b) = HeaderHashHex b ∧ HeaderHashHex (set_signature alg pub sig b) = HeaderHashHex b.
Proof. done. Qed.

Lemma SetHash_ok `{Crypto} b : b_Hash (SetHash b) = HeaderHashHex (SetHash b).
Proof. done. Qed.

Lemma verify_hash `{Crypto} b : verifyBlockIntegrityAndSignature b = Ok tt → b_Hash b = HeaderHashHex b.
Proof.
  unfold verifyBlockIntegrityAndSignature. destruct (String.eqb_spec (HeaderHashHex b) (b_Hash b)); [done|discriminate].
Qed.
