(* ===== verification/PohPayload.v ===== *)
(** The payload of a mined block, read back: [encoding/json] on arbitrary bytes, and the two
    decoders the chain runs on it.

    Sources: internal/chain/import.go (pohFieldsFromPayload, anyToUint64) and
    economics_runtime.go (orderTaskIDFromPayload).  The two use the decoder differently: the first
    keeps number literals and ignores what follows the object, the second converts every number
    to float64 and refuses trailing text. *)
From S2P Require Import Prelude Float64 GoText Params Retarget Json GoNum Block.
From Stdlib Require Import QArith Lqa.
#[local] Open Scope Z_scope.

(** * JSON values *)

#[warnings="-register-all"]
Inductive jval :=
  | VNull | VBool (b : bool) | VNum (lit : string) | VStr (s : string)
  | VArr (l : list jval) | VObj (m : list (string * jval)).

Definition maxNestingDepth : Z := 10000.

Fixpoint skip_ws (s : string) : string :=
  match s with
  | String a r => if existsb (Nat.eqb (nat_of_ascii a)) [32; 9; 10; 13]%nat then skip_ws r else s
  | EmptyString => EmptyString
  end.

(** ** String literals *)

Definition byte (n : Z) : ascii := ascii_of_nat (Z.to_nat n).
(** [utf8.EncodeRune] *)
Definition utf8_encode (r : Z) : string :=
  if r <? 128 then String (byte r) ""
  else if r <? 2048 then String (byte (192 + r / 64)) (String (byte (128 + r mod 64)) "")
  else if r <? 65536 then
    String (byte (224 + r / 4096)) (String (byte (128 + r / 64 mod 64)) (String (byte (128 + r mod 64)) ""))
  else String (byte (240 + r / 262144)) (String (byte (128 + r / 4096 mod 64))
         (String (byte (128 + r / 64 mod 64)) (String (byte (128 + r mod 64)) ""))).

Definition RuneError : string := bytes_of [239; 191; 189]%nat.

Definition getu4 (a b c d : ascii) : option Z :=
  match hex_val a, hex_val b, hex_val c, hex_val d with
  | Some w, Some x, Some y, Some z =>
      Some (Z.of_nat w * 4096 + Z.of_nat x * 256 + Z.of_nat y * 16 + Z.of_nat z)
  | _, _, _, _ => None
  end.

Definition esc_char (e : ascii) : option ascii :=
  match nat_of_ascii e with
  | 98 => Some (ascii_of_nat 8) | 102 => Some (ascii_of_nat 12) | 110 => Some (ascii_of_nat 10)
  | 114 => Some (ascii_of_nat 13) | 116 => Some (ascii_of_nat 9)
  | 34 | 92 | 47 => Some e
  | _ => None
  end%nat.

Definition push (p : string) (r : option (string * string)) : option (string * string) :=
  match r with Some (s, rest) => Some (p +:+ s, rest) | None => None end.

(** From the opening quote on: the text and what follows the closing quote.  [copy] counts the
    continuation bytes of a valid UTF-8 sequence. *)
Fixpoint lit_string (copy : nat) (s : string) : option (string * string) :=
  match s with
  | EmptyString => None
  | String a r =>
      match copy with
      | S k => push (String a "") (lit_string k r)
      | O =>
          if Nat.eqb (nat_of_ascii a) 34 then Some ("", r)
          else if Nat.eqb (nat_of_ascii a) 92 then
            match r with
            | EmptyString => None
            | String e r1 =>
                if Nat.eqb (nat_of_ascii e) 117 then
                  match r1 with
                  | String h1 (String h2 (String h3 (String h4 r2))) =>
                      match getu4 h1 h2 h3 h4 with
                      | None => None
                      | Some c =>
                          if (55296 <=? c) && (c <? 57344) then
                            match r2 with
                            | String b (String u (String g1 (String g2 (String g3 (String g4 r3))))) =>
                                match getu4 g1 g2 g3 g4 with
                                | Some c2 =>
                                    if Nat.eqb (nat_of_ascii b) 92 && Nat.eqb (nat_of_ascii u) 117
                                       && (c <? 56320) && (56320 <=? c2) && (c2 <? 57344)
                                    then push (utf8_encode (65536 + (c - 55296) * 1024 + (c2 - 56320))) (lit_string 0 r3)
                                    else push RuneError (lit_string 0 r2)
                                | None => push RuneError (lit_string 0 r2)
                                end
                            | _ => push RuneError (lit_string 0 r2)
                            end
                          else push (utf8_encode c) (lit_string 0 r2)
                      end
                  | _ => None
                  end
                else match esc_char e with
                     | Some c => push (String c "") (lit_string 0 r1)
                     | None => None
                     end
            end
          else if (nat_of_ascii a <? 32)%nat then None
          else if is_ascii a then push (String a "") (lit_string 0 r)
          else match utf8_len s with
               | O => push RuneError (lit_string 0 r)
               | S n => push (String a "") (lit_string n r)
               end
      end
  end.

(** ** Numbers: the literal and the rest *)

Fixpoint take_digits (s : string) : string * string :=
  match s with
  | String a r => if is_digit a then let '(d, t) := take_digits r in (String a d, t) else ("", s)
  | EmptyString => ("", EmptyString)
  end.

Definition int_part (s : string) : option (string * string) :=
  match head_is 48 s with
  | Some r => Some ("0", r)
  | None => match take_digits s with ("", _) => None | p => Some p end
  end.

Definition frac_part (s : string) : option (string * string) :=
  match head_is 46 s with
  | None => Some ("", s)
  | Some r => match take_digits r with ("", _) => None | (d, t) => Some ("." +:+ d, t) end
  end.

Definition exp_part (s : string) : option (string * string) :=
  match s with
  | String e r =>
      if Nat.eqb (nat_of_ascii (lower_ascii e)) 101 then
        let '(sg, r1) := match head_is 43 r with
                         | Some t => ("+", t)
                         | None => match head_is 45 r with Some t => ("-", t) | None => ("", r) end end in
        match take_digits r1 with ("", _) => None | (d, t) => Some (String e (sg +:+ d), t) end
      else Some ("", s)
  | EmptyString => Some ("", s)
  end.

Definition json_number (s : string) : option (string * string) :=
  let '(sg, s) := match head_is 45 s with Some r => ("-", r) | None => ("", s) end in
  match int_part s with
  | None => None
  | Some (i, r) =>
      match frac_part r with
      | None => None
      | Some (f, r) => match exp_part r with None => None | Some (e, r) => Some (sg +:+ i +:+ f +:+ e, r) end
      end
  end.

(** ** Values *)

Definition json_scalar (s : string) : option (jval * string) :=
  match strip_prefix "true" s, strip_prefix "false" s, strip_prefix "null" s with
  | Some r, _, _ => Some (VBool true, r)
  | _, Some r, _ => Some (VBool false, r)
  | _, _, Some r => Some (VNull, r)
  | _, _, _ => match json_number s with Some (l, r) => Some (VNum l, r) | None => None end
  end.

(** An element starts where its list does, so two calls consume a byte; [json_fuel] below is the
    proof that the fuel of [json_decode] is enough. *)
Fixpoint jvalue (fuel : nat) (depth : Z) (s : string) {struct fuel} : option (jval * string) :=
  match fuel with
  | O => None
  | S f =>
      match skip_ws s with
      | EmptyString => None
      | String a r =>
          let c := nat_of_ascii a in
          if Nat.eqb c 34 then match lit_string 0 r with Some (t, r1) => Some (VStr t, r1) | None => None end
          else if Nat.eqb c 123 then
            if maxNestingDepth <=? depth then None
            else match head_is 125 (skip_ws r) with
                 | Some r1 => Some (VObj [], r1)
                 | None => match jmembers f (depth + 1) r with Some (m, r1) => Some (VObj m, r1) | None => None end
                 end
          else if Nat.eqb c 91 then
            if maxNestingDepth <=? depth then None
            else match head_is 93 (skip_ws r) with
                 | Some r1 => Some (VArr [], r1)
                 | None => match jelems f (depth + 1) r with Some (l, r1) => Some (VArr l, r1) | None => None end
                 end
          else json_scalar (String a r)
      end
  end
with jmembers (fuel : nat) (depth : Z) (s : string) {struct fuel} : option (list (string * jval) * string) :=
  match fuel with
  | O => None
  | S f =>
      match head_is 34 (skip_ws s) with
      | None => None
      | Some r =>
          match lit_string 0 r with
          | None => None
          | Some (k, r1) =>
              match head_is 58 (skip_ws r1) with
              | None => None
              | Some r2 =>
                  match jvalue f depth r2 with
                  | None => None
                  | Some (v, r3) =>
                      match head_is 44 (skip_ws r3), head_is 125 (skip_ws r3) with
                      | Some r4, _ => match jmembers f depth r4 with Some (m, r5) => Some ((k, v) :: m, r5) | None => None end
                      | _, Some r4 => Some ([(k, v)], r4)
                      | _, _ => None
                      end
                  end
              end
          end
      end
  end
with jelems (fuel : nat) (depth : Z) (s : string) {struct fuel} : option (list jval * string) :=
  match fuel with
  | O => None
  | S f =>
      match jvalue f depth s with
      | None => None
      | Some (v, r) =>
          match head_is 44 (skip_ws r), head_is 93 (skip_ws r) with
          | Some r1, _ => match jelems f depth r1 with Some (l, r2) => Some (v :: l, r2) | None => None end
          | _, Some r1 => Some ([v], r1)
          | _, _ => None
          end
      end
  end.

Definition json_decode (s : string) : option (jval * string) := jvalue (S (2 * String.length s)) 0 s.

(** A map keeps the last of several members with one name. *)
Fixpoint jget (m : list (string * jval)) (k : string) : option jval :=
  match m with
  | [] => None
  | (k', v) :: m' => match jget m' k with
                     | Some x => Some x
                     | None => if String.eqb k' k then Some v else None
                     end
  end.

(** Every number fits a float64. *)
Fixpoint nums_ok (v : jval) : bool :=
  match v with
  | VNum l => match parse_float l with Some _ => true | None => false end
  | VArr l => forallb nums_ok l
  | VObj m => forallb (λ p, nums_ok p.2) m
  | _ => true
  end.

(** * The chain's decoders *)

(** [null] reads as an absent member.  The decoder keeps number literals, so the float64 case of
    the source is not reached. *)
Definition anyToUint64 (v : option jval) : result Z :=
  match v with
  | Some (VNum l) => match parse_uint l with Some u => Ok u | None => Err "strconv.ParseUint" end
  | Some (VStr s) => match parse_uint (trim_space s) with Some u => Ok u | None => Err "strconv.ParseUint" end
  | None | Some VNull => Err "missing"
  | Some _ => Err "unsupported type"
  end.

Definition pohFieldsFromPayload (payload : string) : result (Z * Z * Z) :=
  if String.eqb payload "" then Err "chain: empty poh payload"
  else
    let fields m :=
      rbind (anyToUint64 (jget m "nonce")) (λ nonce,
      rbind (anyToUint64 (jget m "eval")) (λ eval,
      rbind (anyToUint64 (jget m "mod")) (λ mod_, Ok (nonce, eval, ClampPoHTargetMod mod_)))) in
    match json_decode payload with
    | Some (VObj m, _) => fields m
    | Some (VNull, _) => fields []
    | Some _ => Err "json: cannot unmarshal into map"
    | None => Err "json: syntax error"
    end.

Definition orderTaskIDFromPayload (payload : string) : string :=
  match json_decode payload with
  | Some (VObj m, rest) =>
      if String.eqb (skip_ws rest) "" && nums_ok (VObj m) then
        match jget m "order_task_id" with Some (VStr v) => trim_space v | _ => "" end
      else ""
  | _ => ""
  end.

(** * Facts *)

(** ** Fuel *)

Lemma skip_ws_len s : (String.length (skip_ws s) ≤ String.length s)%nat.
Proof. induction s as [|a s IH]; cbn [skip_ws]; [done|]. case_match; cbn [String.length]; lia. Qed.

Lemma head_is_len c s r : head_is c s = Some r → String.length s = S (String.length r).
Proof. destruct s; cbn; [done|]. case_match; [|done]. by intros [= ->]. Qed.

Lemma push_some p o t r : push p o = Some (t, r) → ∃ t', o = Some (t', r).
Proof. destruct o as [[t' r']|]; [|done]. intros [= _ ->]. eauto. Qed.

Lemma lit_string_len s : ∀ n t r, lit_string n s = Some (t, r) → (String.length r < String.length s)%nat.
Proof.
  induction s as [s IH] using (induction_ltof1 _ String.length). unfold ltof in IH. intros n t r H.
  destruct s as [|a s]; [done|]. cbn [lit_string String.length] in *.
  assert (IH' : ∀ p n s', (String.length s' < S (String.length s))%nat → push p (lit_string n s') = Some (t, r) →
    (String.length r < S (String.length s))%nat).
  { intros p k s' Hs (t' & E)%push_some. pose proof (IH s' Hs k t' r E). lia. }
  clear IH. repeat case_match; try discriminate H; subst;
    try (by injection H as _ <-; lia); (eapply IH'; [|exact H]); cbn [String.length]; lia.
Qed.

Lemma take_digits_len s : (String.length (take_digits s).2 ≤ String.length s)%nat.
Proof.
  induction s as [|a s IH]; [done|]. cbn [take_digits]. destruct (is_digit a); [|done].
  destruct (take_digits s). cbn in *. lia.
Qed.

Lemma json_number_len s l r : json_number s = Some (l, r) → (String.length r ≤ String.length s)%nat.
Proof.
  assert (T : ∀ s d t, take_digits s = (d, t) → (String.length t ≤ String.length s)%nat).
  { intros s0 d t E. pose proof (take_digits_len s0) as L. by rewrite E in L. }
  assert (A : ∀ s i t, int_part s = Some (i, t) → (String.length t ≤ String.length s)%nat).
  { intros s0 i t. unfold int_part. destruct (head_is 48 s0) eqn:E.
    - intros [= _ ->]. apply head_is_len in E. lia.
    - destruct (take_digits s0) as [d t'] eqn:Et. destruct d; [done|]. intros [= _ ->]. by apply T in Et. }
  assert (B : ∀ s i t, frac_part s = Some (i, t) → (String.length t ≤ String.length s)%nat).
  { intros s0 i t. unfold frac_part. destruct (head_is 46 s0) as [r0|] eqn:E; [|by intros [= _ ->]].
    destruct (take_digits r0) as [d t'] eqn:Et. destruct d; [done|]. intros [= _ ->].
    apply T in Et. apply head_is_len in E. lia. }
  assert (C : ∀ s i t, exp_part s = Some (i, t) → (String.length t ≤ String.length s)%nat).
  { intros s0 i t. unfold exp_part. destruct s0 as [|e s0]; [intros E; by injection E as _ <-|].
    destruct (Nat.eqb _ _); [|intros E; by injection E as _ <-]. destruct (match head_is 43 s0 with Some _ => _ | None => _ end) as [sg r1] eqn:E.
    assert (String.length r1 ≤ String.length s0)%nat.
    { destruct (head_is 43 s0) eqn:E1; [injection E as _ <-; apply head_is_len in E1; lia|].
      destruct (head_is 45 s0) eqn:E2; injection E as _ <-; [apply head_is_len in E2; lia|done]. }
    destruct (take_digits r1) as [d t'] eqn:Et. destruct d; [done|]. intros [= _ ->].
    apply T in Et. cbn. lia. }
  unfold json_number. destruct (match head_is 45 s with Some _ => _ | None => _ end) as [sg s'] eqn:E.
  assert (String.length s' ≤ String.length s)%nat.
  { destruct (head_is 45 s) eqn:E1; injection E as _ <-; [apply head_is_len in E1; lia|done]. }
  destruct (int_part s') as [[i r1]|] eqn:E1; [|done]. destruct (frac_part r1) as [[f r2]|] eqn:E2; [|done].
  destruct (exp_part r2) as [[e r3]|] eqn:E3; [|done]. intros [= _ ->].
  apply A in E1. apply B in E2. apply C in E3. lia.
Qed.

Lemma strip_prefix_len p s r : strip_prefix p s = Some r → (String.length r ≤ String.length s)%nat.
Proof. intros ->%strip_prefix_spec. rewrite string_length_app. lia. Qed.

Lemma json_scalar_len s v r : json_scalar s = Some (v, r) → (String.length r ≤ String.length s)%nat.
Proof.
  unfold json_scalar. destruct (strip_prefix "true" s) eqn:E1; [intros [= _ ->]; by apply strip_prefix_len in E1|].
  destruct (strip_prefix "false" s) eqn:E2; [intros [= _ ->]; by apply strip_prefix_len in E2|].
  destruct (strip_prefix "null" s) eqn:E3; [intros [= _ ->]; by apply strip_prefix_len in E3|].
  destruct (json_number s) as [[l r']|] eqn:E; [|done]. intros [= _ ->]. by apply json_number_len in E.
Qed.

(** Lengths of what the steps of a parse leave. *)
Ltac json_len :=
  repeat match goal with
  | H : head_is _ _ = Some _ |- _ => apply head_is_len in H
  | H : lit_string _ _ = Some _ |- _ => apply lit_string_len in H
  | H : json_scalar _ = Some _ |- _ => apply json_scalar_len in H
  | H : skip_ws ?s = _ |- _ => pose proof (skip_ws_len s); rewrite H in *; clear H
  end;
  repeat match goal with
  | H : context [skip_ws ?s] |- _ =>
      lazymatch goal with L : (String.length (skip_ws s) ≤ _)%nat |- _ => fail | _ => pose proof (skip_ws_len s) end
  end; cbn [String.length] in *.

Lemma json_rest f : ∀ d s,
  (∀ v r, jvalue f d s = Some (v, r) → (String.length r ≤ String.length s)%nat) ∧
  (∀ m r, jmembers f d s = Some (m, r) → (String.length r ≤ String.length s)%nat) ∧
  (∀ l r, jelems f d s = Some (l, r) → (String.length r ≤ String.length s)%nat).
Proof.
  induction f as [|f IH]; intros d s; [done|].
  pose proof (λ d s, proj1 (IH d s)) as IV. pose proof (λ d s, proj1 (proj2 (IH d s))) as IM.
  pose proof (λ d s, proj2 (proj2 (IH d s))) as IE. cbv beta in *.
  clear IH. split; [|split]; intros v r H; cbn [jvalue jmembers jelems] in H;
    repeat case_match; try discriminate H;
    try (injection H as _ <-); subst;
    repeat match goal with
    | H : jvalue f _ _ = Some _ |- _ => apply IV in H
    | H : jmembers f _ _ = Some _ |- _ => apply IM in H
    | H : jelems f _ _ = Some _ |- _ => apply IE in H
    end; json_len; lia.
Qed.

Lemma jvalue_rest f d s v r : jvalue f d s = Some (v, r) → (String.length r ≤ String.length s)%nat.
Proof. apply json_rest. Qed.

(** Any fuel above the bound gives the same answer. *)
Lemma json_fuel f : ∀ f' d s,
  ((2 * String.length s < f)%nat → (2 * String.length s < f')%nat → jvalue f d s = jvalue f' d s) ∧
  ((2 * String.length s + 1 < f)%nat → (2 * String.length s + 1 < f')%nat → jmembers f d s = jmembers f' d s) ∧
  ((2 * String.length s + 1 < f)%nat → (2 * String.length s + 1 < f')%nat → jelems f d s = jelems f' d s).
Proof.
  induction f as [|f IH]; intros f' d s; [split; [|split]; lia|].
  pose proof (λ g d s, proj1 (IH g d s)) as IV. pose proof (λ g d s, proj1 (proj2 (IH g d s))) as IM.
  pose proof (λ g d s, proj2 (proj2 (IH g d s))) as IE. cbv beta in *. clear IH.
  split; [|split]; intros H H'; (destruct f' as [|f']; [lia|]); cbn [jvalue jmembers jelems].
  - destruct (skip_ws s) as [|a r] eqn:E; [done|]. json_len.
    rewrite (IM f') by lia. rewrite (IE f') by lia. done.
  - destruct (head_is 34 (skip_ws s)) as [r|] eqn:E1; [|done].
    destruct (lit_string 0 r) as [[k r1]|] eqn:E2; [|done].
    destruct (head_is 58 (skip_ws r1)) as [r2|] eqn:E3; [|done]. json_len.
    rewrite (IV f') by lia. destruct (jvalue f' d r2) as [[v r3]|] eqn:E4; [|done]. apply jvalue_rest in E4.
    destruct (head_is 44 (skip_ws r3)) as [r4|] eqn:E5; [|done]. json_len. by rewrite (IM f') by lia.
  - rewrite (IV f') by lia. destruct (jvalue f' d s) as [[v r]|] eqn:E1; [|done]. apply jvalue_rest in E1.
    destruct (head_is 44 (skip_ws r)) as [r1|] eqn:E2; [|done]. json_len. by rewrite (IE f') by lia.
Qed.

Lemma json_decode_fuel f s : (2 * String.length s < f)%nat → jvalue f 0 s = json_decode s.
Proof. intros H. apply json_fuel; lia. Qed.

(** ** Reading back what the encoder writes *)

Lemma lit_ascii a t : is_ascii a = true → lit_string 0 (json_ascii a +:+ t) = push (String a "") (lit_string 0 t).
Proof. destruct a as [[] [] [] [] [] [] [] []]; intros H; try discriminate H; reflexivity. Qed.

Lemma lit_json s r : ascii_str s = true → lit_string 0 (json_body 0 s +:+ quote +:+ r) = Some (s, r).
Proof.
  induction s as [|a s IH]; [done|]. intros H. apply andb_true_iff in H as [Ha Hs].
  cbn [json_body]. rewrite Ha, sapp_assoc, lit_ascii, IH by done. done.
Qed.

Lemma lit_json_string s r : ascii_str s = true →
  ∃ t, json_string s +:+ r = String dquote t ∧ lit_string 0 t = Some (s, r).
Proof.
  intros H. exists (json_body 0 s +:+ quote +:+ r). split; [|by apply lit_json].
  unfold json_string, quote. by rewrite !sapp_assoc.
Qed.

Lemma parse_digits_value s acc : all_chars is_digit s = true → parse_digits s acc = Some (dec_value acc s).
Proof.
  revert acc. induction s as [|a s IH]; intros acc; [done|]. cbn [all_chars]. intros H. b2p.
  cbn [parse_digits dec_value].
  assert (((48 <=? Z.of_nat (nat_of_ascii a)) && (Z.of_nat (nat_of_ascii a) <=? 57)) = true) as ->.
  { unfold is_digit, in_range in H. apply andb_true_iff in H as [A B]. apply Nat.leb_le in A, B.
    apply andb_true_iff. split; apply Z.leb_le; lia. }
  by apply IH.
Qed.

Lemma parse_uint_fmt n : 0 ≤ n < two64 → parse_uint (fmt_uint n) = Some n.
Proof.
  intros H. destruct (fmt_uint_nonempty n) as (c & s & E & _). unfold parse_uint.
  rewrite E at 1. rewrite parse_digits_value by (apply fmt_uint_digits; lia).
  rewrite fmt_uint_value by done. assert ((n <? two64) = true) as -> by (apply Z.ltb_lt; lia). done.
Qed.

(** A positive number is not written with a leading zero. *)
Lemma digits_head f n acc : 0 < n < 10 ^ Z.of_nat f → head_is 48 (digits f n acc) = None ∧ digits f n acc ≠ "".
Proof.
  revert n acc. induction f as [|f IH]; intros n acc Hn; [change (10 ^ Z.of_nat 0) with 1 in Hn; lia|].
  cbn [digits]. destruct (Z.ltb_spec n 10).
  - split; [|done]. rewrite Z.mod_small by lia. cbn [head_is].
    destruct (digit_value n ltac:(lia)) as [V _].
    destruct (Nat.eqb_spec (nat_of_ascii (digit n)) 48) as [E|]; [rewrite E in V; lia|done].
  - apply IH. rewrite Nat2Z.inj_succ, Z.pow_succ_r in Hn by lia.
    split; [apply Z.div_str_pos; lia|apply Z.div_lt_upper_bound; lia].
Qed.

Lemma take_digits_app a r : all_chars is_digit a = true → ends_number r = true → take_digits (a +:+ r) = (a, r).
Proof.
  induction a as [|c a IH]; intros Ha Hr.
  - change ("" +:+ r) with r. destruct r as [|c r]; [done|]. cbn in *. by destruct (is_digit c).
  - cbn [all_chars] in Ha. b2p. rewrite scons_app. cbn [take_digits]. by rewrite H, IH by done.
Qed.

(** What follows a number in an object. *)
Definition ends_value (r : string) : bool :=
  match r with String c _ => Ascii.eqb c "," || Ascii.eqb c "}" | EmptyString => false end.

Lemma number_fmt n r : 0 ≤ n < two64 → ends_value r = true → json_number (fmt_uint n +:+ r) = Some (fmt_uint n, r).
Proof.
  intros Hn Hr. destruct r as [|c r]; [done|]. cbn in Hr.
  assert (Hc : ends_number (String c r) = true ∧ frac_part (String c r) = Some ("", String c r)
          ∧ exp_part (String c r) = Some ("", String c r)).
  { apply orb_true_iff in Hr as [E|E]; apply Ascii.eqb_eq in E as ->; done. }
  destruct Hc as (He & Hf & Hx).
  assert (Hi : int_part (fmt_uint n +:+ String c r) = Some (fmt_uint n, String c r)).
  { destruct (Z.eq_dec n 0) as [->|Hz]; [done|].
    destruct (digits_head 20 n "") as [Hh Hne]; [unfold two64 in Hn; lia|]. fold (fmt_uint n) in *.
    destruct (fmt_uint n) as [|x y] eqn:E; [done|].
    unfold int_part. rewrite scons_app.
    change (head_is 48 (String x y)) with (if Nat.eqb (nat_of_ascii x) 48 then Some y else None) in Hh.
    change (head_is 48 (String x (y +:+ String c r)))
      with (if Nat.eqb (nat_of_ascii x) 48 then Some (y +:+ String c r) else None).
    destruct (Nat.eqb (nat_of_ascii x) 48); [done|]. rewrite <- scons_app, take_digits_app; [done| |done].
    rewrite <- E. apply fmt_uint_digits. lia. }
  destruct (fmt_uint_nonempty n) as (x & y & E & D). specialize (D ltac:(lia)).
  unfold json_number. assert (head_is 45 (fmt_uint n +:+ String c r) = None) as ->.
  { rewrite E, scons_app. cbn [head_is]. destruct (Nat.eqb_spec (nat_of_ascii x) 45) as [Ex|]; [|done].
    unfold is_digit, in_range in D. rewrite Ex in D. done. }
  rewrite Hi, Hf, Hx. do 2 f_equal. by rewrite !sapp_empty_r.
Qed.

Lemma value_str f d s r : ascii_str s = true → jvalue (S f) d (json_string s +:+ r) = Some (VStr s, r).
Proof. intros H. 
  destruct (lit_json_string s r H) as (t & -> & E).
  change (jvalue (S f) d (String dquote t))
    with (match lit_string 0 t with Some (t', r1) => Some (VStr t', r1) | None => None end). by rewrite E.
Qed.

(** A digit starts neither white space, nor a literal name, nor a string or a composite. *)
Lemma digit_starts c r f d : is_digit c = true →
  skip_ws (String c r) = String c r ∧ jvalue (S f) d (String c r) = json_scalar (String c r) ∧
  json_scalar (String c r) = match json_number (String c r) with Some (l, t) => Some (VNum l, t) | None => None end.
Proof. destruct c as [[] [] [] [] [] [] [] []]; intros H; try discriminate H; done. Qed.

Lemma value_num f d n r : 0 ≤ n < two64 → ends_value r = true →
  jvalue (S f) d (fmt_uint n +:+ r) = Some (VNum (fmt_uint n), r).
Proof.
  intros Hn Hr. pose proof (number_fmt n r Hn Hr) as E.
  destruct (fmt_uint_nonempty n) as (x & y & Ex & D). specialize (D ltac:(lia)).
  rewrite Ex, scons_app in *. destruct (digit_starts x (y +:+ r) f d D) as (_ & -> & ->). by rewrite E.
Qed.

(** The member a field writes. *)
Definition field_val (x : jfield) : option (string * jval) :=
  match x with
  | JStr k v => Some (k, VStr v)
  | JStrOmit k v => if String.eqb v "" then None else Some (k, VStr v)
  | JUint k n => Some (k, VNum (fmt_uint n))
  | JInt k n => Some (k, VNum (fmt_int n))
  end.
(** A field the payload uses, with a value that survives. *)
Definition plain_field (x : jfield) : bool := field_ok x && match x with JInt _ _ => false | _ => true end.

Lemma members_tail fs : json_members false fs =
  match omap field_val fs with [] => "}" | _ => "," +:+ json_members true fs end.
Proof.
  induction fs as [|x fs IH]; [done|]. cbn [json_members omap list_omap].
  destruct x as [k v|k v|k v|k v]; cbn [json_field field_val]; try done.
  destruct (String.eqb v ""); [exact IH|done].
Qed.

Lemma members_decode fs : ∀ f d rest, forallb plain_field fs = true → omap field_val fs ≠ [] →
  (2 * String.length (json_members true fs +:+ rest) + 1 < f)%nat →
  jmembers f d (json_members true fs +:+ rest) = Some (omap field_val fs, rest).
Proof.
  induction fs as [|x fs IH]; intros f d rest Hok Hne Hf; [done|].
  cbn [forallb] in Hok. apply andb_true_iff in Hok as [Hx Hok].
  destruct (field_val x) as [[k v]|] eqn:Ev.
  2: { assert (json_field x = None) as E.
       { destruct x as [? ?|? ?|? ?|? ?]; try discriminate Ev. cbn in *. by destruct (String.eqb _ _). }
       cbn [json_members omap list_omap] in *. rewrite E in *. rewrite Ev in *. by apply IH. }
  cbn [omap list_omap]. rewrite Ev.
  set (tl := json_members false fs +:+ rest).
  assert (∃ w, json_members true (x :: fs) +:+ rest = json_string k +:+ ":" +:+ w +:+ tl ∧ ascii_str k = true ∧
    ∀ g, jvalue (S g) d (w +:+ tl) = Some (v, tl)) as (w & Ew & Hk & Hv).
  { assert (ends_value tl = true) as Ht by (unfold tl; rewrite members_tail; by destruct (omap field_val fs)).
    unfold plain_field in Hx. apply andb_true_iff in Hx as [Hx Hi]. unfold field_ok in Hx.
    apply andb_true_iff in Hx as [Hk Hx].
    destruct x as [k' v'|k' v'|k' v'|k' v']; [| | |discriminate Hi];
      cbn [field_val field_name json_members json_field] in *.
    - injection Ev as -> <-. exists (json_string v'). rewrite !sapp_assoc. split; [reflexivity|].
      split; [exact Hk|]. intros g. by apply value_str.
    - destruct (String.eqb v' ""); [discriminate Ev|]. injection Ev as -> <-. exists (json_string v').
      rewrite !sapp_assoc. split; [reflexivity|]. split; [exact Hk|]. intros g. by apply value_str.
    - injection Ev as -> <-. exists (fmt_uint v'). rewrite !sapp_assoc. split; [reflexivity|].
      split; [exact Hk|]. intros g. b2p. by apply value_num. }
  rewrite Ew in *. destruct (lit_json_string k (":" +:+ w +:+ tl) Hk) as (t & Et & El).
  rewrite Et in *. destruct f as [|f]; [lia|]. cbn [jmembers].
  change (head_is 34 (skip_ws (String dquote t))) with (Some t). cbv iota beta. rewrite El.
  change (head_is 58 (skip_ws (":" +:+ w +:+ tl))) with (Some (w +:+ tl)). cbv iota beta.
  pose proof (lit_string_len _ _ _ _ El) as L. rewrite !string_length_app in L. cbn [String.length] in *.
  destruct f as [|f]; [lia|]. rewrite Hv. unfold tl in *. rewrite members_tail in *.
  destruct (omap field_val fs) as [|p q] eqn:Eo; [done|].
  rewrite sapp_assoc in *. rewrite !string_length_app in L. cbn [String.length] in L.
  change (head_is 44 (skip_ws ("," +:+ json_members true fs +:+ rest))) with (Some (json_members true fs +:+ rest)).
  cbv iota beta. rewrite IH; [done|done|done|]. rewrite string_length_app. lia.
Qed.

(** An encoded object decodes to its members. *)
Lemma json_object_decode fs : forallb plain_field fs = true → omap field_val fs ≠ [] →
  json_decode (json_object fs) = Some (VObj (omap field_val fs), "").
Proof.
  intros Hok Hne. unfold json_decode, json_object. set (r := json_members true fs).
  assert (∃ t, r = String dquote t) as (t & Er).
  { unfold r. destruct (json_members_head true fs) as [E|(k & t & _ & E)].
    - exfalso. revert Hok Hne E. clear. induction fs as [|x fs IH]; [done|]. cbn [forallb json_members omap list_omap].
      intros [_ Hok]%andb_true_iff Hne. destruct x as [? ?|? v|? ?|? ?]; cbn [json_field field_val] in *; try discriminate.
      destruct (String.eqb v ""); [exact (IH Hok Hne)|discriminate].
    - rewrite E. eexists. reflexivity. }
  change ("{" +:+ r) with (String "{" r). cbn [jvalue skip_ws String.length].
  change (existsb _ _) with false. cbv iota. change (Nat.eqb (nat_of_ascii "{") 34) with false.
  change (Nat.eqb (nat_of_ascii "{") 123) with true. cbv iota. change (maxNestingDepth <=? 0) with false. cbv iota.
  assert (head_is 125 (skip_ws r) = None) as ->.
  { rewrite Er. reflexivity. }
  pose proof (λ f d, members_decode fs f d "" Hok Hne) as M. rewrite sapp_empty_r in M. fold r in M.
  rewrite M; [done|lia].
Qed.

(** ** The payload *)

Lemma Clamp_idem p : ClampPoHTargetMod (ClampPoHTargetMod p) = ClampPoHTargetMod p.
Proof.
  destruct (ClampPoHTargetMod_range p) as [R N]. unfold ClampPoHTargetMod at 1.
  assert (ClampPoHTargetModBounds (ClampPoHTargetMod p) = ClampPoHTargetMod p) as ->.
  { unfold ClampPoHTargetModBounds. repeat case_match; b2p; lia. }
  rewrite sanitize_eq by done. by destruct (Z.eqb_spec (ClampPoHTargetMod p mod 7) 0).
Qed.

Lemma scan_digits_value s acc n sep : all_chars is_digit s = true →
  scan_digits s acc n sep
  = (dec_value acc s, n + Z.of_nat (String.length s), if String.eqb s "" then sep else false, "").
Proof.
  revert acc n sep. induction s as [|a s IH]; intros acc n sep; cbn [scan_digits dec_value String.length all_chars].
  - intros _. cbn. f_equal. f_equal. f_equal. lia.
  - intros H. b2p. assert (((48 <=? Z.of_nat (nat_of_ascii a)) && (Z.of_nat (nat_of_ascii a) <=? 57)) = true) as ->.
    { unfold is_digit, in_range in H. apply andb_true_iff in H as [A B]. apply Nat.leb_le in A, B.
      apply andb_true_iff. split; apply Z.leb_le; lia. }
    rewrite IH by done. cbn [String.eqb]. rewrite Nat2Z.inj_succ.
    replace (n + 1 + Z.of_nat (String.length s)) with (n + Z.succ (Z.of_nat (String.length s))) by lia.
    by destruct (String.eqb s "").
Qed.

(** A 64-bit integer is far from the float64 range. *)
Lemma lit_u64 n : 0 < n < two64 → f_leb (F64 1 1024) (lit n 1) = false.
Proof.
  intros H. apply f_leb_false. change (lit n 1) with (f_div (F64 n 0) (F64 1 0)).
  pose proof (toQ_div (F64 n 0) (F64 1 0) ltac:(cbn; lia) ltac:(done)) as [_ U].
  assert (toQ (F64 n 0) / toQ (F64 1 0) == inject_Z n)%Q as E by (unfold toQ; cbn [mant expo]; change (Qpower 2 0) with 1%Q; field).
  rewrite E in U. clear E.
  assert (inject_Z n <= 18446744073709551616 # 1)%Q as B
    by (change (18446744073709551616 # 1)%Q with (inject_Z two64); rewrite <- Zle_Qle; unfold two64 in *; lia).
  assert (36893488147419103232 # 1 < toQ (F64 1 1024))%Q as D by (vm_compute; reflexivity).
  eapply Qle_lt_trans; [exact U|]. eapply Qle_lt_trans; [|exact D]. unfold ulp2. clear U D. lra.
Qed.

Lemma fmt_uint_num n : 0 ≤ n < two64 → nums_ok (VNum (fmt_uint n)) = true.
Proof.
  intros Hn. cbn [nums_ok]. destruct (fmt_uint_nonempty n) as (x & y & E & D). specialize (D ltac:(lia)).
  assert (head_is 45 (fmt_uint n) = None ∧ head_is 43 (fmt_uint n) = None) as [E1 E2].
  { rewrite E. clear E. by destruct x as [[] [] [] [] [] [] [] []]. }
  unfold parse_float. rewrite E1, E2. cbn [default].
  rewrite scan_digits_value by (apply fmt_uint_digits; lia). rewrite fmt_uint_value by done.
  assert (String.eqb (fmt_uint n) "" = false) as -> by (by rewrite E).
  change (head_is 46 "") with (@None string). cbv iota beta zeta. cbn [scan_exp orb].
  rewrite E. cbn [String.length]. rewrite Nat2Z.inj_succ.
  destruct (Z.eqb_spec (0 + Z.succ (Z.of_nat (String.length y)) + 0) 0); [lia|]. cbn [orb].
  change (0 - 0) with 0. change (0 <=? 0) with true. cbv iota.
  destruct (Z.eqb_spec n 0) as [->|]; [done|].
  replace (n * 10 ^ 0) with n by lia. rewrite lit_u64 by lia. done.
Qed.

(** The object a mined payload decodes to, and its members. *)
Definition payload_members (nonce eval mod_ : Z) (orderTaskID formula : string) : list (string * jval) :=
  omap field_val [JUint "eval" eval; JStr "formula" formula; JUint "mod" mod_; JUint "nonce" nonce;
                  JStrOmit "order_task_id" orderTaskID; JStr "poh" "wasm_eval"].

Lemma payload_member nonce eval mod_ id formula k : jget (payload_members nonce eval mod_ id formula) k
  = if String.eqb k "poh" then Some (VStr "wasm_eval")
    else if String.eqb k "order_task_id" && negb (String.eqb id "") then Some (VStr id)
    else if String.eqb k "nonce" then Some (VNum (fmt_uint nonce))
    else if String.eqb k "mod" then Some (VNum (fmt_uint mod_))
    else if String.eqb k "formula" then Some (VStr formula)
    else if String.eqb k "eval" then Some (VNum (fmt_uint eval)) else None.
Proof.
  unfold payload_members. cbn [omap list_omap field_val].
  destruct (String.eqb id ""); cbn [jget negb]; rewrite ?andb_false_r, ?andb_true_r;
    rewrite !(String.eqb_sym k);
    destruct (String.eqb "poh" k), (String.eqb "order_task_id" k), (String.eqb "nonce" k), (String.eqb "mod" k),
      (String.eqb "formula" k), (String.eqb "eval" k); reflexivity.
Qed.

Section mined.
Context (nonce eval mod_ : Z) (id formula : string).
Hypothesis (Hn : 0 ≤ nonce < two64) (He : 0 ≤ eval < two64) (Hm : 0 ≤ mod_ < two64).
Hypothesis (Ht : ascii_str id = true) (Hf : ascii_str formula = true).

Lemma payload_decodes :
  json_decode (poh_payload nonce eval mod_ id formula) = Some (VObj (payload_members nonce eval mod_ id formula), "").
Proof using Hn He Hm Ht Hf.
  assert (R : ∀ v, 0 ≤ v < two64 → ((0 <=? v) && (v <? two64)) = true).
  { intros v Hv. apply andb_true_iff. split; [apply Z.leb_le|apply Z.ltb_lt]; lia. }
  apply json_object_decode; [|discriminate]. unfold plain_field, field_ok.
  cbn [forallb field_name]. rewrite (R eval), (R mod_), (R nonce), Ht, Hf by done. reflexivity.
Qed.

Lemma payload_nums : nums_ok (VObj (payload_members nonce eval mod_ id formula)) = true.
Proof using Hn He Hm.
  unfold payload_members. cbn [nums_ok omap list_omap field_val forallb snd].
  pose proof (fmt_uint_num eval He) as N1. pose proof (fmt_uint_num mod_ Hm) as N2.
  pose proof (fmt_uint_num nonce Hn) as N3. cbn [nums_ok] in *. rewrite N1, N2, N3.
  by destruct (String.eqb id "").
Qed.

Lemma payload_fields : pohFieldsFromPayload (poh_payload nonce eval mod_ id formula) = Ok (nonce, eval, ClampPoHTargetMod mod_).
Proof using Hn He Hm Ht Hf.
  unfold pohFieldsFromPayload. change (String.eqb (poh_payload _ _ _ _ _) "") with false.
  rewrite payload_decodes. rewrite !payload_member. cbn [String.eqb Ascii.eqb Bool.eqb andb]. unfold anyToUint64.
  by rewrite !parse_uint_fmt by done.
Qed.

Lemma payload_order : orderTaskIDFromPayload (poh_payload nonce eval mod_ id formula) = trim_space id.
Proof using Hn He Hm Ht Hf.
  unfold orderTaskIDFromPayload. rewrite payload_decodes, payload_nums, payload_member.
  cbn [String.eqb Ascii.eqb Bool.eqb andb skip_ws].
  destruct (String.eqb_spec id "") as [->|]; done.
Qed.
End mined.

(** A mined payload is read back exactly: for 64-bit numbers and ASCII text, the importer's
    decoder returns the nonce and the evaluation that were written and the clamped modulus, and
    the order link is the task id that was written, empty when there was none. *)
Theorem poh_payload_roundtrip nonce eval mod_ orderTaskID formula :
  0 ≤ nonce < two64 → 0 ≤ eval < two64 → 0 ≤ mod_ < two64 →
  ascii_str orderTaskID = true → ascii_str formula = true →
  let p := poh_payload nonce eval mod_ orderTaskID formula in
  pohFieldsFromPayload p = Ok (nonce, eval, ClampPoHTargetMod mod_) ∧
  orderTaskIDFromPayload p = trim_space orderTaskID.
Proof.
  intros Hn He Hm Ht Hf p. split.
  - by apply payload_fields.
  - by apply payload_order.
Qed.

Lemma poh_payload_roundtrip_witness :
  pohFieldsFromPayload (poh_payload 12 18446744073709551615 1000000 "ord-1" "blake3_v3(prev||miner||nonce_le)%M==0")
  = Ok (12, 18446744073709551615, 1000000).
Proof.
  apply (poh_payload_roundtrip 12 18446744073709551615 1000000 "ord-1" "blake3_v3(prev||miner||nonce_le)%M==0");
    [unfold two64; lia|unfold two64; lia|unfold two64; lia|reflexivity|reflexivity].
Defined.

(** A payload whose unused member [x] is a number outside the float64 range. *)
Definition oversized_payload : string :=
  jobject [jmember "nonce" "1"; jmember "eval" "20"; jmember "mod" "1000000";
           jmember "order_task_id" (json_string "ord-1"); jmember "x" "1e400"].

(** The two decoders of a payload do not agree on what a payload is: one member with a
    number too large for float64, or text after the object, and the order link reads as empty
    while the work fields are still accepted, so an order-linked payload counts as an empty block. *)
Theorem payload_decoders_disagree :
  pohFieldsFromPayload oversized_payload = Ok (1, 20, 1000000) ∧
  orderTaskIDFromPayload oversized_payload = "" ∧
  ∃ m, json_decode oversized_payload = Some (VObj m, "") ∧ jget m "order_task_id" = Some (VStr "ord-1").
Proof.
  split; [vm_compute; reflexivity|]. split; [vm_compute; reflexivity|].
  exists [("nonce", VNum "1"); ("eval", VNum "20"); ("mod", VNum "1000000");
     ("order_task_id", VStr "ord-1"); ("x", VNum "1e400")]. split; vm_compute; reflexivity.
Qed.
