(* ===== verification/Consensus.v ===== *)
(** Consensus pins and the Economics v2 header rules.

    Sources: internal/chain/consensus_v2.go and the activation locks of economics_v2.go.  The
    process keeps the locked height in a variable outside the database ([econV2MetaOverride]):
    it is the argument [ov], and the value a lock leaves there, which a rollback does not undo,
    is [lock_override]. *)
From S2P Require Import Prelude GoText Params Json GoNum Ledger Address Transfers Block.

Definition metaAuthorityPubKey : string := "authority_pubkey_ed25519".
Definition metaV2ChainID : string := "v2_chain_id".
Definition metaEconomicsV2AnnounceUnix : string := "economics_v2_announce_unix".
Definition ErrV2Header : string := "chain: economics v2 block header invalid".
Definition ErrAuthorityPubKeyCfg : string := "chain: authority pubkey not configured (set HACKME_CHAIN_AUTHORITY_PUBKEY)".
Definition ErrV2ActivationGuard : string := "chain: economics v2 activation height not locked".

Definition meta_txt (d : DB) (key : string) : string := default "" (metaText d key).

Definition validAuthorityPubKeyHex (v : string) : bool :=
  match hex_decode v with Some raw => Nat.eqb (String.length raw) 32 | None => false end.

(** * Network id and authority key *)

Definition lockV2ChainIDTx (e : Env) : tx DB unit :=
  let want := ResolvedV2ChainID e in
  let* d := get in
  let pinned := trim_space (meta_txt d metaV2ChainID) in
  if negb (String.eqb pinned "") then
    guard (String.eqb pinned want) "chain: v2 chain_id disagrees with pinned"
  else upsertMeta metaV2ChainID want.

Definition authorityPubKeyQ (d : DB) : string := to_lower (trim_space (meta_txt d metaAuthorityPubKey)).

Definition lockAuthorityPubKeyTx `{ChainParams} (e : Env) (signer : option Signer) (allowSelf : bool) : tx DB unit :=
  if v2_height <? 1 then ret tt
  else
    lockV2ChainIDTx e ;;;
    let* d := get in
    let pinned := authorityPubKeyQ d in
    let env := authorityPubKeyFromEnv e in
    if negb (String.eqb pinned "") then
      guard (String.eqb env "" || String.eqb env pinned) "chain: HACKME_CHAIN_AUTHORITY_PUBKEY disagrees with pinned authority"
    else
      let key := match signer with
                 | Some s => if String.eqb env "" && allowSelf then to_lower (trim_space (PublicKeyHex s)) else env
                 | None => env
                 end in
      if String.eqb key "" then ret tt
      else if negb (validAuthorityPubKeyHex key) then fail "chain: invalid authority pubkey"
      else upsertMeta metaAuthorityPubKey key.

(** * Activation height *)

Definition lockedHeight (d : DB) : Z := metaUint d metaEconomicsV2ActivationHeight 0.
Definition rawEnvHeight (e : Env) : Z := env_height (HACKME_ECONOMICS_V2_ACTIVATION_HEIGHT e) 1 0.

(** The process variable after [lockEconomicsV2ActivationTx], whatever becomes of the rest of the
    transaction. *)
Definition lock_override (e : Env) (ov : Z) (d : DB) : Z :=
  let metaH := lockedHeight d in
  let rawEnv := rawEnvHeight e in
  if 1 <=? metaH then if (1 <=? rawEnv) && negb (rawEnv =? metaH) then ov else metaH
  else if 1 <=? rawEnv then rawEnv else ov.

(** The announce time: recorded once; it gates nothing, so its process variable is left out. *)
Definition lockEconomicsV2AnnounceTx (e : Env) : tx DB unit :=
  let* d := get in
  let metaA := metaUint d metaEconomicsV2AnnounceUnix 0 in
  let rawEnv := match atoi (trim_space (HACKME_ECONOMICS_V2_ANNOUNCE_UNIX e)) with
                | Some n => if 1 <=? n then n else 0 | None => 0 end in
  if 1 <=? metaA then
    if two63 - 1 <? metaA then fail "chain: economics_v2 announce unix meta overflows int64"
    else guard (negb ((1 <=? rawEnv) && negb (rawEnv =? metaA))) "chain: HACKME_ECONOMICS_V2_ANNOUNCE_UNIX disagrees with locked meta"
  else if 1 <=? rawEnv then upsertMetaUint metaEconomicsV2AnnounceUnix rawEnv
  else ret tt.

Definition lockEconomicsV2ActivationTx (e : Env) (ov : Z) : tx DB unit :=
  let* d := get in
  let metaH := lockedHeight d in
  let rawEnv := rawEnvHeight e in
  (if 1 <=? metaH then
     guard (negb ((1 <=? rawEnv) && negb (rawEnv =? metaH))) "chain: HACKME_ECONOMICS_V2_ACTIVATION_HEIGHT disagrees with locked meta"
   else if 1 <=? rawEnv then upsertMetaUint metaEconomicsV2ActivationHeight rawEnv
   else ret tt) ;;;
  lockEconomicsV2AnnounceTx e ;;;
  @lockAuthorityPubKeyTx (params_of e (lock_override e ov d)) e None false.

(** The height the operator configured: the trimmed text and its value. *)
Definition configured_height (e : Env) : option (string * Z) :=
  let raw := trim_space (HACKME_ECONOMICS_V2_ACTIVATION_HEIGHT e) in
  match parse_uint raw with
  | Some h => if h <? 1 then None else Some (raw, h)
  | None => None
  end.

Definition confirmed (e : Env) (raw : string) : bool :=
  String.eqb (trim_space (HACKME_ECONOMICS_V2_ACTIVATION_CONFIRM e)) raw.

(** Whether an import takes the locking path. *)
Definition import_locks (e : Env) (d : DB) : bool :=
  (1 <=? lockedHeight d)
  || match configured_height e with
     | Some (raw, _) => v2ActivationGuardOff e || confirmed e raw
     | None => false
     end.

Definition lockEconomicsV2ActivationForImportTx (e : Env) (ov : Z) : tx DB unit :=
  let* d := get in
  if import_locks e d then lockEconomicsV2ActivationTx e ov
  else @lockAuthorityPubKeyTx (params_of e ov) e None false.

Definition import_override (e : Env) (ov : Z) (d : DB) : Z :=
  if import_locks e d then lock_override e ov d else ov.

Definition checkV2ActivationGuardTx (e : Env) (nextIdx : Z) (d : DB) : result unit :=
  if v2ActivationGuardOff e || (1 <=? lockedHeight d) then Ok tt
  else match configured_height e with
  | None => Ok tt
  | Some (raw, h) =>
      if negb (confirmed e raw) then Err ErrV2ActivationGuard
      else if (h <? nextIdx) || (h - nextIdx <? v2MinLeadBlocks e) then Err ErrV2ActivationGuard
      else Ok tt
  end.

(** * Header *)

Definition validateV2HeaderQ `{ChainParams} (b : Block) (orderTaskID : string) (d : DB) : result unit :=
  if negb (EconomicsV2ActiveForIndex (b_Index b)) then
    if negb (String.eqb (b_ChainID b) "") || negb (String.eqb (b_RewardTo b) "") then Err ErrV2Header else Ok tt
  else if negb (String.eqb (b_ChainID b) v2_chain_id) then Err ErrV2Header
  else if (if String.eqb (trim_space orderTaskID) ""
           then negb (has_prefix (b_RewardTo b) "HMC-") || negb (String.eqb (trim_space (b_RewardTo b)) (b_RewardTo b))
           else negb (String.eqb (b_RewardTo b) "")) then Err ErrV2Header
  else if String.eqb (b_MinerPubKey b) "" || String.eqb (b_MinerSig b) "" then Err ErrV2Header
  else
    let auth := authorityPubKeyQ d in
    if String.eqb auth "" then Err ErrAuthorityPubKeyCfg
    else if negb (String.eqb (to_lower (trim_space (b_MinerPubKey b))) auth) then Err ErrV2Header
    else Ok tt.

Definition metaChainID : string := "chain_id".
Definition ChainIDOf (d : DB) : string :=
  let v := meta_txt d metaChainID in if String.eqb v "" then GenesisChainID else v.
Definition ChainIDForIndex `{ChainParams} (d : DB) (index : Z) : string :=
  if EconomicsV2ActiveForIndex index then v2_chain_id else ChainIDOf d.

Definition TxChainIDForNextBlock `{ChainParams} (d : DB) : string :=
  if EconomicsV2ActiveForIndex (nextBlockIndexQ d) then v2_chain_id else "".

(** * Facts *)

Definition pin_keys : list string :=
  [metaEconomicsV2ActivationHeight; metaEconomicsV2AnnounceUnix; metaAuthorityPubKey; metaV2ChainID].

(** A pin that holds a value: a positive number, or text other than white space. *)
Definition pin_set (d : DB) (k : string) : bool :=
  if String.eqb k metaEconomicsV2ActivationHeight || String.eqb k metaEconomicsV2AnnounceUnix
  then 1 <=? metaUint d k 0
  else negb (String.eqb (trim_space (meta_txt d k)) "").

(** Only pins are written, and only those that were not set. *)
Record pinning (d d' : DB) : Prop := {
  pg_db : d' = set_meta (meta d') d;
  pg_meta : ∀ k, k ∉ pin_keys → meta d' !! k = meta d !! k;
  pg_pins : ∀ k, k ∈ pin_keys → pin_set d k = true → meta d' !! k = meta d !! k;
}.

#[global] Instance pinning_refl : Reflexive pinning.
Proof. intros d. split; [by destruct d|done|done]. Qed.

Lemma pin_set_meta d d' k : meta d' !! k = meta d !! k → pin_set d' k = pin_set d k.
Proof. unfold pin_set, meta_txt, metaText, metaUint. by intros ->. Qed.

#[global] Instance pinning_trans : Transitive pinning.
Proof.
  intros d1 d2 d3 [A1 B1 C1] [A2 B2 C2]. split.
  - rewrite A2, A1. done.
  - intros k Hk. by rewrite B2, B1.
  - intros k Hk Hs. pose proof (C1 k Hk Hs) as E. rewrite C2, E; [done|done|].
    by rewrite (pin_set_meta d1 d2).
Qed.

Lemma pinning_upsert d k v : k ∈ pin_keys → pin_set d k = false → pinning d (ups_meta k v d).
Proof.
  intros Hk Hs. split; [done| |]; intros k' Hk'; cbn [meta ups_meta set_meta].
  - rewrite lookup_insert_ne; [done|]. by intros ->.
  - intros Hs'. rewrite lookup_insert_ne; [done|]. intros ->. congruence.
Qed.

Lemma to_lower_nonempty s : to_lower s = "" → s = "".
Proof. destruct s as [|a s]; [done|]. cbn [to_lower]. intros H. repeat case_match; done. Qed.

Lemma authority_unset d : authorityPubKeyQ d = "" → pin_set d metaAuthorityPubKey = false.
Proof. intros H%to_lower_nonempty. unfold pin_set. cbn [String.eqb Ascii.eqb Bool.eqb orb metaAuthorityPubKey]. by rewrite H. Qed.

Ltac pin_key := unfold pin_keys; set_solver.

Lemma lockV2ChainIDTx_pins e d u d' : lockV2ChainIDTx e d = Ok (u, d') → pinning d d'.
Proof.
  unfold lockV2ChainIDTx. intros H. inv_tx H; [done|]. b2p.
  apply pinning_upsert; [pin_key|]. unfold pin_set. cbn [String.eqb Ascii.eqb Bool.eqb orb metaV2ChainID].
  by rewrite Heqb.
Qed.

Lemma lockAuthorityPubKeyTx_pins `{ChainParams} e signer self d u d' :
  lockAuthorityPubKeyTx e signer self d = Ok (u, d') → pinning d d'.
Proof.
  unfold lockAuthorityPubKeyTx. intros G. destruct (v2_height <? 1); [by inv_tx G|].
  apply bind_ok in G as ([] & d1 & G1 & G). apply lockV2ChainIDTx_pins in G1. etransitivity; [exact G1|].
  clear G1. inv_tx G; try done. apply pinning_upsert; [pin_key|]. apply authority_unset.
  by apply negb_false_iff, String.eqb_eq in Heqb.
Qed.

Lemma lockEconomicsV2AnnounceTx_pins e d u d' : lockEconomicsV2AnnounceTx e d = Ok (u, d') → pinning d d'.
Proof. unfold lockEconomicsV2AnnounceTx. intros H. inv_tx H; try done. apply pinning_upsert; [pin_key|done]. Qed.

Lemma lockEconomicsV2ActivationTx_pins e ov d u d' : lockEconomicsV2ActivationTx e ov d = Ok (u, d') → pinning d d'.
Proof.
  unfold lockEconomicsV2ActivationTx. intros H. apply bind_ok in H as (? & ? & [-> ->]%get_ok & H).
  apply bind_ok in H as ([] & d1 & H1 & H). apply bind_ok in H as ([] & d2 & H2 & H3).
  apply lockEconomicsV2AnnounceTx_pins in H2. apply lockAuthorityPubKeyTx_pins in H3.
  assert (pinning d d1) as P; [|by etransitivity; [exact P|etransitivity; [exact H2|]]].
  inv_tx H1; try done. apply pinning_upsert; [pin_key|done].
Qed.

Lemma lockForImport_pins e ov d u d' : lockEconomicsV2ActivationForImportTx e ov d = Ok (u, d') → pinning d d'.
Proof.
  unfold lockEconomicsV2ActivationForImportTx. intros H. apply bind_ok in H as (? & ? & [-> ->]%get_ok & H).
  destruct (import_locks e d); [by apply lockEconomicsV2ActivationTx_pins in H|by apply lockAuthorityPubKeyTx_pins in H].
Qed.
