(* ===== verification/Chain.v ===== *)
(** The block path: genesis, mining the next block, importing a mined one, and the pool's order
    solve.

    Sources: internal/chain/service.go (InitGenesis, PoHTargetMod, AppendPoHBlock,
    validatePoHSubmission, RebindWalletToSigner), import.go, asert_chain.go, poh_order_solve.go.

    One node works under one mutex, so each operation is a transaction on the database.  The clock
    readings are arguments: [now] when the operation starts, [bnow] in the block header, [anow]
    when transfers are applied.  [e] and [ov] are the environment and the cached activation
    height of Consensus; rules read before the lock use the parameters they give, rules after it
    those of [lock_override].  [rid] is the random task id, [gate] the WASM check of an order. *)
From S2P Require Import Prelude Float64 GoText Params Emission OrderFee Retarget Json GoNum Ledger Address GoSort Transfers Lane SupLedger HmsLedger EscrowSplit FuzzEscrow Orders Block PohPayload Consensus.

Definition metaTipHash : string := "tip_hash".
Definition metaPoHTargetMod : string := "poh_target_mod".
Definition metaEmergencyLast : string := "poh_target_emergency_last_unix".
Definition ErrGenesisExists : string := "chain: genesis already exists".
Definition ErrImportOrderEscrowDenied : string :=
  "chain: import of order-escrow PoH blocked (set HACKME_P2P_IMPORT_ORDER_ESCROW=1)".

(** * Rows *)

(** [SELECT json FROM blocks WHERE hash = ?] *)
Definition block_by_hash (d : DB) (h : string) : option Block :=
  (λ p, row_block p.2) <$> head (filter (λ p, row_hash p.2 = h) (map_to_list (blocks d))).

(** [INSERT INTO blocks]: index and hash are UNIQUE. *)
Definition insert_block (b : Block) : tx DB unit :=
  sql_u64 (b_Index b) ;;;
  let* d := get in
  if bool_decide (is_Some (blocks d !! b_Index b)) then fail "UNIQUE constraint failed: blocks.block_index"
  else if bool_decide (is_Some (block_by_hash d (b_Hash b))) then fail "UNIQUE constraint failed: blocks.hash"
  else modify (λ d, set_blocks (<[b_Index b := mkBlockRow (b_Hash b) (b_PrevHash b) b]> (blocks d)) d).

(** [UPDATE meta SET value = ? WHERE key = ?] and a plain [INSERT INTO meta]. *)
Definition update_meta (key : string) (v : metaval) : tx DB unit :=
  modify (λ d, match meta d !! key with Some _ => ups_meta key v d | None => d end).
Definition insert_meta (key : string) (v : metaval) : tx DB unit :=
  let* d := get in
  match meta d !! key with
  | Some _ => fail "UNIQUE constraint failed: meta.key"
  | None => upsert_meta_val key v
  end.

(** The tip: next index and the height check of an empty chain. *)
Definition next_index (missing : string) (d : DB) : result Z :=
  match max_block_index d with Some i => Ok (u64 (i + 1)) | None => Err missing end.

Section chain.
Context `{Crypto} `{PoHHash}.

(** * Difficulty of the next block *)

Definition blockTimestampQ (d : DB) (index : Z) : result Z :=
  match blocks d !! index with
  | Some r => Ok (b_Timestamp (row_block r))
  | None => Err "chain: block missing (asert)"
  end.

Definition asertModAfterQ `{ChainParams} (d : DB) (parentIndex parentTime : Z) : result Z :=
  let anchorIndex := asert_height - 1 in
  if parentIndex <? anchorIndex then Err "chain: block precedes asert activation"
  else
    rbind (if negb (parentIndex =? anchorIndex) then blockTimestampQ d anchorIndex else Ok parentTime)
      (λ anchorTime, Ok (ASERTTargetMod PoHASERTAnchorMod anchorIndex anchorTime parentIndex parentTime)).

Definition asertModForIndexQ `{ChainParams} (d : DB) (index : Z) : result Z :=
  if index =? 0 then Err "chain: genesis has no asert target"
  else rbind (blockTimestampQ d (index - 1)) (λ parentTime, asertModAfterQ d (index - 1) parentTime).

Definition poHTargetModFromDB (d : DB) : Z :=
  match meta d !! metaPoHTargetMod with
  | Some (MUint p) => ClampPoHTargetMod p
  | _ => DefaultPoHTargetMod
  end.

(** The legacy retarget over a window or a single interval. *)
Definition at_least_one (v : Z) : Z := if v <? 1 then 1 else v.
Definition legacy_next_mod (d : DB) (nextIdx now : Z) (prev : option Block) (mod_ : Z) : result Z :=
  let w := PoHRetargetWindowBlocks in
  if (w <=? nextIdx) && (nextIdx mod w =? 0) then
    match blocks d !! (nextIdx - w) with
    | None => Err ErrNoRows
    | Some r =>
        let actualSec := at_least_one (i64 (now - b_Timestamp (row_block r))) in
        Ok (ClampPoHTargetMod (RetargetWindow mod_ actualSec (PoHRetargetWindowBlocks * PoHRetargetTargetSec)))
    end
  else match prev with
  | None => Err ErrNoRows
  | Some p =>
      let lastDeltaSec := at_least_one (i64 (now - b_Timestamp p)) in
      Ok (ClampPoHTargetMod (RetargetMicroStep mod_ lastDeltaSec PoHRetargetTargetSec))
  end.

(** Polled by miners; eases a stalled legacy chain and records when. *)
Definition PoHTargetMod `{ChainParams} (now : Z) : tx DB Z :=
  let* d := get in
  let legacy :=
    let mod_ := poHTargetModFromDB d in
    match max_block_index d with
    | None => ret mod_
    | Some i =>
        match blocks d !! i with
        | None => ret mod_
        | Some r =>
            let stallSec := i64 (now - b_Timestamp (row_block r)) in
            if stallSec <? PoHRetargetTargetSec * 2 then ret mod_
            else
              let v := metaUint d metaEmergencyLast 0 in
              let lastAdj := if 0 <? v then v else 0 in
              if i64 (now - lastAdj) <? 10 then ret mod_
              else
                let next := ClampPoHTargetMod (RetargetMicroStep mod_ stallSec PoHRetargetTargetSec) in
                if mod_ <=? next then upsertMetaUint metaEmergencyLast now ;;; ret mod_
                else
                  upsertMetaUint metaPoHTargetMod next ;;;
                  upsertMetaUint metaEmergencyLast now ;;;
                  ret next
        end
    end in
  match max_block_index d with
  | Some i =>
      let next := u64 (i + 1) in
      if ASERTActiveForIndex next then lift (asertModForIndexQ d next) else legacy
  | None => legacy
  end.

Definition validatePoHSubmission `{ChainParams} (index nonce eval targetMod : Z) (prevHash minerAddress : string)
    : result unit :=
  if (targetMod <? PoHTargetMinMod) || (PoHTargetMaxMod <? targetMod) then Err "chain: target mod out of bounds"
  else if (match ActivePoHTaskKindForIndex index with TaskKindSyntheticPoHV3 => true | _ => false end)
          && String.eqb (trim_space prevHash) "" then Err "chain: prev_hash required for blake3 PoH v3"
  else if (match ActivePoHTaskKindForIndex index with TaskKindSyntheticPoHV3 => true | _ => false end)
          && String.eqb (trim_space minerAddress) "" then Err "chain: miner_address required for blake3 PoH v3"
  else if negb (PohWorkForIndex index nonce prevHash minerAddress =? eval)
  then Err "chain: eval does not match active PoH work(index, nonce)"
  else if negb (eval mod targetMod =? 0) then Err "chain: eval not divisible by target mod"
  else Ok tt.

(** * Genesis *)

Definition InitGenesis `{ChainParams} (strict : bool) (signer : option Signer) (now : Z) (rid minerAddress : string)
    : tx DB Block :=
  let* d := get in
  if bool_decide (is_Some (blocks d !! 0)) then fail ErrGenesisExists
  else
    let miner := trim_space minerAddress in
    if String.eqb miner "" then fail "genesis: empty miner address"
    else
      let treasury := trim_space DevFeeAddress in
      let rewardUnits := HMCToUnits GenesisRewardHMC in
      if (0 <? rewardUnits) && String.eqb treasury "" then fail "genesis: empty DevFeeAddress for treasury mint"
      else
        let b := attachBlockSignature signer (NewGenesisBlock now rid miner) in
        lift (verifyBlockIntegrityAndSignature b) ;;;
        insert_block b ;;;
        let minerAcctUnits := if (0 <? rewardUnits) && String.eqb treasury miner then rewardUnits else 0 in
        let treasuryAcctUnits := if (0 <? rewardUnits) && negb (String.eqb treasury miner) then rewardUnits else 0 in
        guard (bool_decide (wallet d = None)) "UNIQUE constraint failed: wallet.id" ;;;
        modify (set_wallet (Some (mkWallet miner minerAcctUnits))) ;;;
        upsert_account (mkAccount minerAcctUnits 0 0 0 0 0) (set_hmc minerAcctUnits) miner ;;;
        (if 0 <? treasuryAcctUnits
         then upsert_account (mkAccount treasuryAcctUnits 0 0 0 0 0) (set_hmc treasuryAcctUnits) treasury else ret tt) ;;;
        insert_meta metaTipHash (MStr (b_Hash b)) ;;;
        insert_meta metaChainID (MStr GenesisChainID) ;;;
        insert_meta metaPoHTargetMod (MUint DefaultPoHTargetMod) ;;;
        insert_meta metaTotalMintedHMC (MFloat GenesisRewardHMC) ;;;
        insert_meta metaTotalBurnedHMC (MFloat (f_of_Z 0)) ;;;
        insert_meta metaTotalMintedUnits (MUint (HMCToUnits GenesisRewardHMC)) ;;;
        insert_meta metaTotalBurnedUnits (MUint 0) ;;;
        let* d' := get in
        lift (checkEconomicInvariants strict d') ;;;
        ret b.

(** * Rewards *)

(** What an empty block may mint: v2 has no hard cap. *)
Definition allowed_units `{ChainParams} (index creditUnits mintedUnits : Z) : Z :=
  if EconomicsV2ActiveForIndex index then creditUnits
  else
    let maxSupplyUnits := HMCToUnits MaxSupplyHMC in
    if maxSupplyUnits <=? mintedUnits then 0
    else
      let remainingUnits := maxSupplyUnits - mintedUnits in
      if remainingUnits <? creditUnits then remainingUnits else creditUnits.

Definition book_mint (mintedUnits allowedUnits burnedUnits : Z) : tx DB unit :=
  upsertMetaUint metaTotalMintedUnits (u64 (mintedUnits + allowedUnits)) ;;;
  upsertMetaFloat metaTotalMintedHMC (UnitsToHMC (u64 (mintedUnits + allowedUnits))) ;;;
  upsertMetaUint metaTotalBurnedUnits burnedUnits.

(** Paid order: escrow pays the solver named in the header. *)
Definition pay_solver (minerAddress : string) (creditU mintedUnits burnedUnits : Z) : tx DB unit :=
  let minerAddress := trim_space minerAddress in
  if String.eqb minerAddress "" || negb (has_prefix minerAddress "HMC-")
  then fail "chain: valid miner_address required for order reward credit"
  else
    let* d := get in
    let escrowUnits := metaUint d metaOrderEscrowUnits 0 in
    if escrowUnits <? creditU then fail "chain: order escrow depleted"
    else
      creditUnits minerAddress creditU ;;;
      upsertMetaUint metaOrderEscrowUnits (escrowUnits - creditU) ;;;
      upsertMetaFloat metaTotalMintedHMC (UnitsToHMC mintedUnits) ;;;
      upsertMetaFloat metaTotalBurnedHMC (UnitsToHMC burnedUnits).

(** Empty block, producing side: the primary wallet row and its account. *)
Definition mint_producer `{ChainParams} (index creditU mintedUnits burnedUnits : Z) : tx DB unit :=
  let* w := wallet_row ErrNoRows in
  let rewardCreditAddr := trim_space (w_address w) in
  if String.eqb rewardCreditAddr "" then fail "chain: primary wallet address missing (cannot credit PoH reward)"
  else
    let allowedUnits := allowed_units index creditU mintedUnits in
    if 0 <? allowedUnits then
      sql_u64 allowedUnits ;;;
      update_wallet (λ u, u + allowedUnits) ;;;
      upsert_account (mkAccount allowedUnits 0 0 0 0 0) (λ a, set_hmc (balance_units a + allowedUnits) a) rewardCreditAddr ;;;
      book_mint mintedUnits allowedUnits burnedUnits
    else ret tt.

(** Empty block, importing side: from v2 on the signed recipient, before it the local wallet. *)
Definition mint_importer `{ChainParams} (b : Block) (creditU mintedUnits burnedUnits : Z) : tx DB unit :=
  let* addr := (if negb (EconomicsV2ActiveForIndex (b_Index b))
                then (let* w := wallet_row ErrNoRows in ret (w_address w)) else ret (b_RewardTo b)) in
  let rewardCreditAddr := trim_space addr in
  if String.eqb rewardCreditAddr "" then fail "chain: primary wallet address missing (cannot credit PoH reward)"
  else
    let allowedUnits := allowed_units (b_Index b) creditU mintedUnits in
    if 0 <? allowedUnits then
      creditUnits rewardCreditAddr allowedUnits ;;;
      book_mint mintedUnits allowedUnits burnedUnits
    else ret tt.

(** Reward of an order that is open and not yet due. *)
Definition open_order_reward (d : DB) (orderTaskID : string) (now : Z) : option f64 :=
  match tasks d !! orderTaskID with
  | Some t => if String.eqb (t_status t) TaskStatusOpen && ((expires_at t =? 0) || (now <? expires_at t))
              then Some (reward t) else None
  | None => None
  end.

Definition apply_pending `{ChainParams} (anow index : Z) (hash : string) : tx DB unit :=
  applyPendingTransfers anow index hash ;;;
  applyPendingSupTransfers anow index hash ;;;
  applyPendingHmsTransfers anow index hash.

(** * Mining the next block *)

(** What the producer reads before building: the tip hash, its block and the next index. *)
Record Tip := mkTip { tip_hash : string; tip_block : Block; tip_next : Z }.
Definition read_tip (d : DB) : result Tip :=
  match metaText d metaTipHash with
  | None => Err ErrNoRows
  | Some h =>
      match block_by_hash d h with
      | None => Err ErrNoRows
      | Some prev => rbind (next_index "chain: empty (genesis required)" d) (λ n, Ok (mkTip h prev n))
      end
  end.

(** The modulus the block is mined at. *)
Definition append_mod `{ChainParams} (d : DB) (nextIdx targetMod : Z) (orderTaskID : string) : result Z :=
  if ASERTActiveForIndex nextIdx then
    rbind (asertModForIndexQ d nextIdx) (λ want,
      if negb (targetMod =? want) then Err "chain: poh target mod mismatch (asert)" else Ok targetMod)
  else
    let metaMod := poHTargetModFromDB d in
    if String.eqb orderTaskID "" then
      if negb (targetMod =? metaMod) then Err "chain: poh target mod mismatch" else Ok targetMod
    else Ok (ClampPoHTargetMod targetMod).

(** The unsigned block: under ASERT its time does not run backwards, and from v2 on it names the
    network and the subsidy recipient. *)
Definition build_block `{ChainParams} (signer : option Signer) (d : DB) (t : Tip) (bnow : Z) (rid minerAddress : string)
    (nonce eval targetMod : Z) (orderTaskID : string) : result Block :=
  let nextIdx := tip_next t in
  let b := NewPoHBlock bnow rid nextIdx (tip_hash t) minerAddress nonce eval targetMod orderTaskID
             (PoHFormulaLabelForIndex nextIdx) in
  let b := if ASERTActiveForIndex nextIdx && (b_Timestamp b <? b_Timestamp (tip_block t))
           then SetHash (set_timestamp (b_Timestamp (tip_block t)) b) else b in
  if EconomicsV2ActiveForIndex nextIdx then
    match signer with
    | None => Err ErrV2Header
    | Some _ =>
        if String.eqb orderTaskID "" then
          match wallet d with
          | None => Err ErrNoRows
          | Some w => Ok (SetHash (set_v2 v2_chain_id (trim_space (w_address w)) b))
          end
        else Ok (SetHash (set_v2 v2_chain_id (b_RewardTo b) b))
    end
  else Ok b.

(** The signed block and the modulus of the block after it. *)
Definition prepare_block `{ChainParams} (signer : option Signer) (d : DB) (now bnow : Z) (rid minerAddress : string)
    (nonce eval targetMod : Z) (orderTaskID : string) : result (Block * Z) :=
  rbind (read_tip d) (λ t,
  rbind (append_mod d (tip_next t) targetMod orderTaskID) (λ targetMod,
  rbind (validatePoHSubmission (tip_next t) nonce eval targetMod (tip_hash t) minerAddress) (λ _,
  rbind (legacy_next_mod d (tip_next t) now (Some (tip_block t)) targetMod) (λ nextMod,
  rbind (build_block signer d t bnow rid minerAddress nonce eval targetMod orderTaskID) (λ b,
  rbind (if ASERTActiveForIndex (u64 (tip_next t + 1)) then asertModAfterQ d (tip_next t) (b_Timestamp b)
         else Ok nextMod) (λ nextMod,
  let b := attachBlockSignature signer b in
  rbind (verifyBlockIntegrityAndSignature b) (λ _, Ok (b, nextMod)))))))).

(** An order-linked block: the order is open at the announced reward, and each nonce pays once. *)
Definition claim_order (now : Z) (orderTaskID : string) (nonce : Z) (rewardHMC : f64) : tx DB unit :=
  if String.eqb orderTaskID "" then ret tt
  else
    let* d := get in
    match open_order_reward d orderTaskID now with
    | None => fail "chain: order task not open or missing (refuse PoH block)"
    | Some orderReward =>
        if negb (HMCToUnits orderReward =? HMCToUnits rewardHMC) then fail "chain: order reward mismatch"
        else
          sql_u64 nonce ;;;
          if bool_decide ((orderTaskID, nonce) ∈ found_nonces d) then fail "chain: duplicate order found_nonce"
          else modify (λ d, set_found ({[(orderTaskID, nonce)]} ∪ found_nonces d) d)
    end.

(** The booking part, under the parameters in force after the lock. *)
Definition commit_block `{ChainParams} (strict : bool) (now anow : Z) (minerAddress : string) (nonce : Z)
    (rewardHMC : f64) (orderTaskID : string) (b : Block) (nextMod : Z) : tx DB unit :=
  let* d := get in
  lift (validateV2HeaderQ b orderTaskID d) ;;;
  expireOpenOrderTasksTx now ;;;
  insert_block b ;;;
  claim_order now orderTaskID nonce rewardHMC ;;;
  bumpOrderTaskProgress orderTaskID ;;;
  update_meta metaTipHash (MStr (b_Hash b)) ;;;
  let* d := get in
  (if f_ltb (f_of_Z 0) rewardHMC then
     let '(mintedUnits, burnedUnits) := econTotalsUnits d in
     let creditU := HMCToUnits rewardHMC in
     if negb (String.eqb orderTaskID "") then pay_solver minerAddress creditU mintedUnits burnedUnits
     else mint_producer (b_Index b) creditU mintedUnits burnedUnits
   else ret tt) ;;;
  (if String.eqb orderTaskID "" then
     (let* w := wallet_row ErrNoRows in mintEmptyBlockSUPTx (b_Index b) orderTaskID (w_address w))
   else ret tt) ;;;
  apply_pending anow (b_Index b) (b_Hash b) ;;;
  upsertMetaUint metaPoHTargetMod nextMod ;;;
  econ_guard strict.

Definition AppendPoHBlock (e : Env) (ov : Z) (signer : option Signer) (strict : bool) (now bnow anow : Z)
    (rid minerAddress : string) (nonce eval : Z) (rewardHMC : f64) (targetMod : Z) (orderTaskID : string) : tx DB Block :=
  if f_ltb rewardHMC (f_of_Z 0) then fail "chain: negative reward is not allowed"
  else
    let orderTaskID := trim_space orderTaskID in
    let* d := get in
    let* r := lift (@prepare_block (params_of e ov) signer d now bnow rid minerAddress nonce eval targetMod orderTaskID) in
    lift (checkV2ActivationGuardTx e (b_Index r.1) d) ;;;
    lockEconomicsV2ActivationTx e ov ;;;
    let P := params_of e (lock_override e ov d) in
    @lockAuthorityPubKeyTx P e signer true ;;;
    @commit_block P strict now anow minerAddress nonce rewardHMC orderTaskID r.1 r.2 ;;;
    ret r.1.

(** * Importing a mined block *)

Definition importOrderEscrowAllowed (e : Env) : bool :=
  let v := trim_space (to_lower (HACKME_P2P_IMPORT_ORDER_ESCROW e)) in
  existsb (String.eqb v) ["1"; "true"; "yes"; "on"].

(** The modulus the block must have been mined at. *)
Definition import_mod `{ChainParams} (now : Z) (d : DB) (b : Block) : result Z :=
  if ASERTActiveForIndex (b_Index b) then
    rbind (blockTimestampQ d (b_Index b - 1)) (λ parentTime,
    if b_Timestamp b <? parentTime then Err "chain: import timestamp before parent (asert)"
    else if i64 (now + PoHASERTMaxFutureSec) <? b_Timestamp b then Err "chain: import timestamp too far in the future (asert)"
    else asertModAfterQ d (b_Index b - 1) parentTime)
  else Ok (poHTargetModFromDB d).

Definition nextPoHTargetModTx `{ChainParams} (now : Z) (d : DB) (b : Block) (currentMod : Z) : result Z :=
  if ASERTActiveForIndex (u64 (b_Index b + 1)) then asertModAfterQ d (b_Index b) (b_Timestamp b)
  else legacy_next_mod d (b_Index b) (if b_Timestamp b <=? 0 then now else b_Timestamp b)
         (block_by_hash d (b_PrevHash b)) currentMod.

(** Position, difficulty and work of the imported block: its order link, modulus and reward. *)
Definition check_import `{ChainParams} (e : Env) (now : Z) (d : DB) (b : Block) : result (string * Z * f64) :=
  if negb (String.eqb (trim_space (T_Kind (b_Task b))) PoHBlockKind) then Err "chain: import supports poh_wasm_v1 only"
  else
    rbind (verifyBlockIntegrityAndSignature b) (λ _,
    let orderTaskID := orderTaskIDFromPayload (T_Payload (b_Task b)) in
    if negb (String.eqb orderTaskID "") && negb (importOrderEscrowAllowed e) then Err ErrImportOrderEscrowDenied
    else
      rbind (pohFieldsFromPayload (T_Payload (b_Task b))) (λ '(pnonce, eval, payloadMod),
      let nonce := if negb (b_Nonce b =? 0) then b_Nonce b else pnonce in
      let tipHash := meta_txt d metaTipHash in
      rbind (next_index "chain: empty (genesis required before import)" d) (λ expectIdx,
      if negb (b_Index b =? expectIdx) then Err "chain: import index mismatch"
      else if negb (String.eqb (trim_space (b_PrevHash b)) (trim_space tipHash)) then Err "chain: import prev_hash mismatch"
      else
        rbind (import_mod now d b) (λ chainMod,
        if negb (payloadMod =? chainMod) then Err "chain: import target mod mismatch"
        else
          rbind (validatePoHSubmission (b_Index b) nonce eval chainMod tipHash (EffectiveMinerAddress b)) (λ _,
          if negb (String.eqb orderTaskID "") then
            match open_order_reward d orderTaskID (if b_Timestamp b <=? 0 then now else b_Timestamp b) with
            | None => Err "chain: order task not open or missing (refuse import)"
            | Some r => Ok (orderTaskID, chainMod, r)
            end
          else Ok (orderTaskID, chainMod, BaseRewardForBlockIndex (b_Index b))))))).

(** The second reading of the order, inside the transaction. *)
Definition recheck_order (now : Z) (orderTaskID : string) (rewardHMC : f64) : tx DB unit :=
  if String.eqb orderTaskID "" then ret tt
  else
    let* d := get in
    match open_order_reward d orderTaskID now with
    | None => fail "chain: order task not open or missing (refuse import)"
    | Some orderReward =>
        guard (HMCToUnits orderReward =? HMCToUnits rewardHMC) "chain: order reward mismatch"
    end.

Definition commit_import `{ChainParams} (strict : bool) (now anow : Z) (orderTaskID : string) (chainMod : Z)
    (rewardHMC : f64) (b : Block) : tx DB unit :=
  let* d := get in
  lift (validateV2HeaderQ b orderTaskID d) ;;;
  let at_ := if b_Timestamp b <=? 0 then now else b_Timestamp b in
  expireOpenOrderTasksTx at_ ;;;
  insert_block b ;;;
  recheck_order at_ orderTaskID rewardHMC ;;;
  bumpOrderTaskProgress orderTaskID ;;;
  update_meta metaTipHash (MStr (b_Hash b)) ;;;
  let* d := get in
  (if f_ltb (f_of_Z 0) rewardHMC then
     let '(mintedUnits, burnedUnits) := econTotalsUnits d in
     let creditU := HMCToUnits rewardHMC in
     if negb (String.eqb orderTaskID "") then pay_solver (EffectiveMinerAddress b) creditU mintedUnits burnedUnits
     else mint_importer b creditU mintedUnits burnedUnits
   else ret tt) ;;;
  (if String.eqb orderTaskID "" then mintEmptyBlockSUPTx (b_Index b) orderTaskID (b_RewardTo b) else ret tt) ;;;
  apply_pending anow (b_Index b) (b_Hash b) ;;;
  let* d := get in
  let* nextMod := lift (nextPoHTargetModTx now d b chainMod) in
  upsertMetaUint metaPoHTargetMod nextMod ;;;
  econ_guard strict.

Definition ImportPoHBlock (e : Env) (ov : Z) (strict : bool) (now anow : Z) (b : Block) : tx DB unit :=
  let* d := get in
  let* r := lift (@check_import (params_of e ov) e now d b) in
  let '(orderTaskID, chainMod, rewardHMC) := r in
  lockEconomicsV2ActivationForImportTx e ov ;;;
  @commit_import (params_of e (import_override e ov d)) strict now anow orderTaskID chainMod rewardHMC b.

(** * The pool's order solve *)

(** The solve itself; [chainMod] is the modulus the pool was given. *)
Definition submit_at (gate : string → Z → result bool) (e : Env) (ov : Z) (signer : option Signer) (strict : bool)
    (now bnow anow : Z) (rid minerAddress : string) (nonce : Z) (orderTaskID : string) (chainMod : Z) : tx DB Block :=
  let targetMod := ClampPoHTargetMod chainMod in
  let* d := get in
  match metaText d metaTipHash with
  | None => fail ErrNoRows
  | Some tipHash =>
      let* nextIdx := lift (next_index "chain: empty (genesis required)" d) in
      let eval := @PohWorkForIndex (params_of e ov) _ nextIdx nonce tipHash minerAddress in
      if (targetMod =? 0) || negb (eval mod targetMod =? 0) then fail "chain: invalid poh solution for submitted target_mod"
      else
        match tasks d !! orderTaskID, open_order_reward d orderTaskID now with
        | Some t, Some reward =>
            let* ok := lift (gate (manifest_json t) nonce) in
            if negb ok then fail "chain: wasm gate rejected nonce (check returned 0)"
            else AppendPoHBlock e ov signer strict now bnow anow rid minerAddress nonce eval reward targetMod orderTaskID
        | _, _ => fail "chain: order task not open"
        end
  end.

(** Asking for the modulus commits on its own, so an easing it made outlives a failed solve. *)
Definition SubmitOrderPoHSolve (gate : string → Z → result bool) (e : Env) (ov : Z) (signer : option Signer) (strict : bool)
    (now bnow anow : Z) (rid minerAddress : string) (nonce : Z) (orderTaskID : string) (d : DB) : result Block * DB :=
  let minerAddress := trim_space minerAddress in
  let orderTaskID := trim_space orderTaskID in
  if String.eqb minerAddress "" then (Err "chain: miner_address required", d)
  else if String.eqb orderTaskID "" then (Err "chain: order_task_id required", d)
  else if negb (has_prefix minerAddress "HMC-") then (Err "chain: invalid miner_address", d)
  else
    match @PoHTargetMod (params_of e ov) now d with
    | Err x => (Err x, d)
    | Ok (chainMod, d1) =>
        let solve := submit_at gate e ov signer strict now bnow anow rid minerAddress nonce orderTaskID chainMod in
        (outcome solve d1, run solve d1)
    end.

(** * Wallet ownership *)

(** [signerAddr] is the address of the node key, [None] without a signer. *)
Definition RebindWalletToSigner (signerAddr : option string) : tx DB unit :=
  match signerAddr with
  | None => ret tt
  | Some a =>
      let signerAddr := trim_space a in
      if String.eqb signerAddr "" then ret tt
      else
        let* d := get in
        match wallet d with
        | None => ret tt
        | Some w =>
            let walletAddr := trim_space (w_address w) in
            if String.eqb walletAddr "" || String.eqb walletAddr signerAddr then ret tt
            else
              match accounts d !! walletAddr with
              | None => fail "wallet address account missing for rebind"
              | Some acc =>
                  let sourceUnits := if w_units w <? balance_units acc then w_units w else balance_units acc in
                  update_account (λ a, set_hmc (balance_units a - sourceUnits) a) walletAddr ;;;
                  upsert_account (mkAccount sourceUnits 0 0 0 0 0) (λ a, set_hmc (balance_units a + sourceUnits) a) signerAddr ;;;
                  modify (set_wallet (Some (mkWallet signerAddr sourceUnits)))
              end
        end
  end.
End chain.
