(* ===== verification/ChainFrame.v ===== *)
(** What the parts of a block leave alone.

    [kept K d d']: blocks, orders, campaign escrows, settle marks and found nonces are as they were,
    so are all meta rows but those of [K], the primary wallet still has its address, and no account
    is deleted. *)
From S2P Require Import Prelude Float64 GoText Params Emission OrderFee Retarget Json GoNum Ledger Address GoSort Transfers Lane SupLedger HmsLedger EscrowSplit FuzzEscrow EscrowInv Orders Block PohPayload Consensus Chain.

Definition rest (d : DB) := (blocks d, tasks d, escrows d, settle_applied d, found_nonces d).
Record kept (K : list string) (d d' : DB) : Prop := {
  kp_rest : rest d' = rest d;
  kp_meta : ∀ k, k ∉ K → meta d' !! k = meta d !! k;
  kp_addr : w_address <$> wallet d' = w_address <$> wallet d;
  kp_dom : ∀ a, is_Some (accounts d !! a) → is_Some (accounts d' !! a);
}.

#[global] Instance kept_refl K : Reflexive (kept K).
Proof. by split. Qed.
#[global] Instance kept_trans K : Transitive (kept K).
Proof.
  intros d1 d2 d3 [A B C D] [A2 B2 C2 D2].
  split; [by rewrite A2|intros k Hk; rewrite B2, B; done|by rewrite C2|auto].
Qed.

Lemma kept_weaken K K' d d' : K ⊆ K' → kept K d d' → kept K' d d'.
Proof. intros HK [A B C D]. split; [done| |done|done]. intros k Hk. apply B. intros Hin. by apply Hk, HK. Qed.

Lemma kept_refl' K d : kept K d d.
Proof. reflexivity. Qed.
Lemma kept_upd K f a d d1 : kept K d d1 → kept K d (upd_account f a d1).
Proof.
  intros H. etransitivity; [exact H|]. split; unfold upd_account; case_match; try done.
  intros b. cbn. destruct (decide (a = b)) as [->|]; [rewrite lookup_insert_eq; by eauto|by rewrite lookup_insert_ne].
Qed.
Lemma kept_ups K i f a d d1 : kept K d d1 → kept K d (ups_account i f a d1).
Proof.
  intros H. etransitivity; [exact H|]. split; try done.
  intros b. cbn. destruct (decide (a = b)) as [->|]; [rewrite lookup_insert_eq; by eauto|by rewrite lookup_insert_ne].
Qed.
Lemma kept_updw K f d d1 : kept K d d1 → kept K d (upd_wallet f d1).
Proof.
  intros H. etransitivity; [exact H|]. unfold upd_wallet. destruct (wallet d1) eqn:E; [|done].
  split; [done|done| |done]. cbn. by rewrite E.
Qed.
Lemma kept_ups_meta K k v d d1 : bool_decide (k ∈ K) = true → kept K d d1 → kept K d (ups_meta k v d1).
Proof.
  intros Hk%bool_decide_eq_true H. etransitivity; [exact H|]. split; [done| |done|done]. intros k' Hk'.
  cbn. rewrite lookup_insert_ne; [done|]. by intros ->.
Qed.
Lemma kept_bind_row K a r d d1 : kept K d d1 → kept K d (bind_row a r d1).
Proof. intros H. etransitivity; [exact H|]. unfold bind_row. by case_match. Qed.
Lemma kept_tx_pool K v d d1 : kept K d d1 → kept K d (set_tx_pool v d1).
Proof. intros H. etransitivity; [exact H|]. by split. Qed.
Lemma kept_tx_history K v d d1 : kept K d d1 → kept K d (set_tx_history v d1).
Proof. intros H. etransitivity; [exact H|]. by split. Qed.
Lemma kept_sup_pool K v d d1 : kept K d d1 → kept K d (set_sup_pool v d1).
Proof. intros H. etransitivity; [exact H|]. by split. Qed.
Lemma kept_sup_history K v d d1 : kept K d d1 → kept K d (set_sup_history v d1).
Proof. intros H. etransitivity; [exact H|]. by split. Qed.
Lemma kept_hms_pool K v d d1 : kept K d d1 → kept K d (set_hms_pool v d1).
Proof. intros H. etransitivity; [exact H|]. by split. Qed.
Lemma kept_hms_history K v d d1 : kept K d d1 → kept K d (set_hms_history v d1).
Proof. intros H. etransitivity; [exact H|]. by split. Qed.

Create HintDb kept.
#[export] Hint Resolve kept_refl' kept_upd kept_ups kept_updw kept_ups_meta kept_bind_row kept_tx_pool
  kept_tx_history kept_sup_pool kept_sup_history kept_hms_pool kept_hms_history : kept.
#[export] Hint Extern 1 (bool_decide _ = true) => reflexivity : kept.

(** Run a transaction symbolically and read its frame off the final state. *)
Ltac kept_run H := inv_tx H; eauto with kept.

(** * Transfers *)

Definition apply_keys : list string := burn_keys ++ [metaHMSTotalBurnedUnits].

Lemma debit_credit_kept K t d u d' : debit_credit t d = Ok (u, d') → kept K d d'.
Proof. unfold debit_credit. intros H. kept_run H. Qed.
Lemma pay_dev_fee_kept K w v d u d' : pay_dev_fee w v d = Ok (u, d') → kept K d d'.
Proof. unfold pay_dev_fee. intros H. kept_run H. Qed.
Lemma burn_fee_kept v d u d' : burn_fee v d = Ok (u, d') → kept apply_keys d d'.
Proof. unfold burn_fee. intros H. kept_run H. Qed.
Lemma mirror_wallet_kept K b w d u d' : mirror_wallet b w d = Ok (u, d') → kept K d d'.
Proof. unfold mirror_wallet. intros H. kept_run H. Qed.
Lemma bindPubKeyQ_kept K a p i s d u d' : bindPubKeyQ a p i s d = Ok (u, d') → kept K d d'.
Proof. unfold bindPubKeyQ. intros H. kept_run H. Qed.

Lemma bind_kept {A B} K (m : tx DB A) (f : A → tx DB B) d b d' :
  (∀ a d1, m d = Ok (a, d1) → kept K d d1) → (∀ a d1, f a d1 = Ok (b, d') → kept K d1 d') →
  bind m f d = Ok (b, d') → kept K d d'.
Proof. intros Hm Hf (a & d1 & H1 & H2)%bind_ok. etransitivity; [by eapply Hm|by eapply Hf]. Qed.

Lemma move_hmc_kept w t d u d' : move_hmc w t d = Ok (u, d') → kept apply_keys d d'.
Proof.
  unfold move_hmc. cbv zeta. apply bind_kept; [intros ? ?; apply debit_credit_kept|intros _ ?].
  apply bind_kept; [intros ? ?; apply pay_dev_fee_kept|intros _ ?].
  apply bind_kept; [intros ? ?; apply burn_fee_kept|intros _ ?; apply mirror_wallet_kept].
Qed.

Lemma apply_transfer_kept `{ChainParams} `{Crypto} now idx bh w item d u d' :
  apply_transfer now idx bh w item d = Ok (u, d') → kept apply_keys d d'.
Proof.
  unfold apply_transfer. intros G. apply bind_ok in G as (? & ? & [-> ->]%get_ok & G). cbv zeta in G.
  destruct (String.eqb _ "internal_error"); [by inv_tx G|].
  destruct (negb _); [unfold reject_transfer, delete_pool in G; kept_run G|].
  revert G. apply bind_kept; [intros ? ?; apply move_hmc_kept|intros _ d1 G].
  apply bind_ok in G as (? & ? & G1 & G). inv_tx G1. apply bind_ok in G as (? & ? & G1 & G). inv_tx G1.
  apply bind_ok in G as (? & ? & G1 & G). apply (bindPubKeyQ_kept apply_keys) in G1. unfold delete_pool in G. inv_tx G.
  apply kept_tx_pool. etransitivity; [|exact G1]. eauto with kept.
Qed.

Lemma iter_kept {A} K (f : A → tx DB unit) l d u d' :
  (∀ x d u d', f x d = Ok (u, d') → kept K d d') → iter_tx f l d = Ok (u, d') → kept K d d'.
Proof.
  intros Hf. apply (iter_tx_inv (kept K d)); [|reflexivity]. intros x s s' v _ Hs Hx.
  etransitivity; [exact Hs|by eapply Hf].
Qed.

Lemma applyPendingTransfers_kept `{ChainParams} `{Crypto} now idx bh d u d' :
  applyPendingTransfers now idx bh d = Ok (u, d') → kept apply_keys d d'.
Proof.
  unfold applyPendingTransfers. intros G. apply bind_ok in G as (? & ? & [-> ->]%get_ok & G).
  apply bind_ok in G as (w & d1 & G1 & G). inv_tx G1. eapply iter_kept; [|exact G].
  intros x s v s'. apply apply_transfer_kept.
Qed.

(** ** The side lanes *)

(** Writes of a lane to its own tables and burn counter. *)
Class LaneKept (L : Lane) := {
  lk_pool : ∀ K v d, kept K d (l_set_pool L v d);
  lk_hist : ∀ K v d, kept K d (l_set_hist L v d);
  lk_burn : ∀ v d u d', l_burn L v d = Ok (u, d') → kept apply_keys d d';
}.
#[global] Instance sup_lane_kept : LaneKept sup_lane.
Proof. split; [done|done|]. intros v d u d' [_ ->]%ret_ok. done. Qed.
#[global] Instance hms_lane_kept : LaneKept hms_lane.
Proof. split; [done|done|]. intros v d u d' H. cbn in H. unfold hms_burn_fee in H. kept_run H. Qed.

Lemma lane_credit_kept K L a v d u d' : lane_credit L a v d = Ok (u, d') → kept K d d'.
Proof. unfold lane_credit. intros H. kept_run H. Qed.

Lemma lane_move_kept L `{!LaneKept L} fee t fa d u d' : lane_move L fee t fa d = Ok (u, d') → kept apply_keys d d'.
Proof.
  unfold lane_move. cbv zeta. intros G.
  apply bind_ok in G as (? & ? & G1 & G). inv_tx G1. apply bind_ok in G as (? & ? & G1 & G). inv_tx G1.
  apply bind_ok in G as (? & ? & G1 & G). inv_tx G1. 
  match type of G with bind _ _ ?d1 = _ => transitivity d1; [apply kept_upd; reflexivity|] end. revert G.
  apply bind_kept; [intros ? ?|intros _ ?].
  { destruct (negb _); [apply lane_credit_kept|by intros [_ ->]%ret_ok]. }
  apply bind_kept; [intros ? ?|intros _ ?; apply lk_burn].
  match goal with |- context [if ?b then _ else _] => destruct b end;
    [apply lane_credit_kept|by intros [_ ->]%ret_ok].
Qed.

Lemma lane_apply_kept `{ChainParams} `{Crypto} L `{!LaneKept L} now idx bh fee item d u d' :
  lane_apply L now idx bh fee item d = Ok (u, d') → kept apply_keys d d'.
Proof.
  unfold lane_apply. intros G. apply bind_ok in G as (? & ? & [-> ->]%get_ok & G). cbv zeta in G.
  destruct (String.eqb _ "internal_error"); [by inv_tx G|].
  destruct (negb _).
  { unfold lane_reject in G. inv_tx G. unfold lane_delete_pool. etransitivity; [apply lk_hist|apply lk_pool]. }
  destruct (accounts d !! _) as [fa|]; [|by inv_tx G].
  revert G. apply bind_kept; [intros ? ?; by apply lane_move_kept|intros _ d1 G].
  apply bind_ok in G as (? & ? & G1 & G). inv_tx G1. apply bind_ok in G as (? & ? & G1 & G). inv_tx G1.
  apply bind_ok in G as (? & ? & G1 & G). apply (bindPubKeyQ_kept apply_keys) in G1. inv_tx G.
  unfold lane_delete_pool. etransitivity; [|apply lk_pool]. etransitivity; [|exact G1]. apply lk_hist.
Qed.

Lemma lane_apply_pending_kept `{ChainParams} `{Crypto} L `{!LaneKept L} limit now idx bh fee d u d' :
  lane_apply_pending L limit now idx bh fee d = Ok (u, d') → kept apply_keys d d'.
Proof.
  unfold lane_apply_pending. intros G. apply bind_ok in G as (? & ? & [-> ->]%get_ok & G).
  eapply iter_kept; [|exact G]. intros x s v s'. by apply lane_apply_kept.
Qed.

Lemma apply_pending_kept `{ChainParams} `{Crypto} now idx bh d u d' :
  apply_pending now idx bh d = Ok (u, d') → kept apply_keys d d'.
Proof.
  unfold apply_pending. apply bind_kept; [intros ? ?; apply applyPendingTransfers_kept|intros _ d1].
  apply bind_kept; [intros ? ?; by apply (lane_apply_pending_kept sup_lane)|intros _ d2 G].
  unfold applyPendingHmsTransfers in G. apply bind_ok in G as (? & ? & [-> ->]%get_ok & G).
  destruct (hmsTreasuryAddress d2); [|by inv_tx G].
  by apply (lane_apply_pending_kept hms_lane) in G.
Qed.
