(* ===== verification/ChainInv.v ===== *)
(** The stored chain: consecutive indices, hash links, proof of work and the ASERT schedule, kept by
    every way a block gets in. *)
From S2P Require Import Prelude Float64 GoText Params Emission OrderFee Retarget Json GoNum Ledger Address GoSort Transfers Lane SupLedger HmsLedger EscrowSplit FuzzEscrow EscrowInv Orders Block PohPayload Consensus Chain ChainFrame.

(** * The highest index *)

Lemma max_block_index_spec d :
  match max_block_index d with
  | None => blocks d = ∅
  | Some j => is_Some (blocks d !! j) ∧ ∀ i, is_Some (blocks d !! i) → i ≤ j
  end.
Proof.
  unfold max_block_index. generalize (blocks d). intros m.
  apply (map_fold_weak_ind (λ (acc : option Z) (m : gmap Z BlockRow), match acc with
    | None => m = ∅ | Some j => is_Some (m !! j) ∧ ∀ i, is_Some (m !! i) → i ≤ j end)); [done|].
  intros i x m' acc Hi IH. destruct acc as [j|].
  - destruct IH as [Hj Hm]. split.
    + destruct (Z.max_spec i j) as [[_ ->]|[_ ->]].
      * destruct (decide (i = j)) as [->|]; [by rewrite lookup_insert_eq|by rewrite lookup_insert_ne].
      * by rewrite lookup_insert_eq.
    + intros k Hk. destruct (decide (i = k)) as [->|]; [lia|]. rewrite lookup_insert_ne in Hk by done.
      specialize (Hm k Hk). lia.
  - subst m'. split; [by rewrite lookup_insert_eq|]. intros k Hk.
    destruct (decide (i = k)) as [->|]; [lia|]. rewrite lookup_insert_ne in Hk by done. by destruct Hk.
Qed.

(** Indices [0 .. n]. *)
Definition dense (d : DB) (n : Z) : Prop := ∀ i, is_Some (blocks d !! i) ↔ 0 ≤ i ≤ n.

Lemma dense_max d n : 0 ≤ n → dense d n → max_block_index d = Some n.
Proof.
  intros Hn D. pose proof (max_block_index_spec d) as M. destruct (max_block_index d) as [j|].
  - destruct M as [Hj Hm]. apply D in Hj. specialize (Hm n ltac:(apply D; lia)). f_equal. lia.
  - assert (is_Some (blocks d !! n)) as [x Hx] by (apply D; lia). by rewrite M in Hx.
Qed.

(** * Lookup by hash *)

Lemma block_by_hash_some d h b : block_by_hash d h = Some b →
  ∃ i r, blocks d !! i = Some r ∧ row_hash r = h ∧ row_block r = b.
Proof.
  unfold block_by_hash. destruct (head _) as [[i r]|] eqn:E; [|done]. intros [= <-].
  apply head_Some_elem_of in E. apply list_elem_of_filter in E as [E1 E2].
  apply elem_of_map_to_list in E2. by exists i, r.
Qed.

Lemma block_by_hash_none d h : block_by_hash d h = None → ∀ i r, blocks d !! i = Some r → row_hash r ≠ h.
Proof.
  unfold block_by_hash. intros E i r Hi Hh.
  assert ((i, r) ∈ filter (λ p, row_hash p.2 = h) (map_to_list (blocks d))) as Hin.
  { apply list_elem_of_filter. split; [done|]. by apply elem_of_map_to_list. }
  destruct (filter _ _) as [|x l]; [by apply not_elem_of_nil in Hin|done].
Qed.

(** * The invariant *)

Section chain.
Context `{Crypto} `{PoHHash} (e : Env).

(** Heights that no lock moves. *)
#[local] Existing Instance params_of.
#[local] Abbreviation P := (params_of e 0).

Definition work_ok (d : DB) (prev r : BlockRow) : Prop :=
  let b := row_block r in
  ∃ pn eval M, pohFieldsFromPayload (T_Payload (b_Task b)) = Ok (pn, eval, M) ∧
    @validatePoHSubmission _ P (b_Index b) (if negb (b_Nonce b =? 0) then b_Nonce b else pn) eval M
      (row_hash prev) (EffectiveMinerAddress b) = Ok tt ∧
    (@ASERTActiveForIndex P (b_Index b) = true →
       b_Timestamp (row_block prev) ≤ b_Timestamp b ∧ @asertModForIndexQ P d (b_Index b) = Ok M).

Record row_wf (i : Z) (r : BlockRow) : Prop := {
  rw_index : b_Index (row_block r) = i;
  rw_hash : row_hash r = b_Hash (row_block r);
  rw_prev : row_prev r = b_PrevHash (row_block r);
  rw_sealed : b_Hash (row_block r) = HeaderHashHex (row_block r);
}.

Record chain_ok (d : DB) (n : Z) : Prop := {
  co_dense : dense d n;
  co_rows : ∀ i r, blocks d !! i = Some r → row_wf i r;
  co_links : ∀ i r r', blocks d !! i = Some r → blocks d !! (i + 1) = Some r' →
    trim_space (row_prev r') = trim_space (row_hash r) ∧ work_ok d r r';
  co_unique : ∀ i j r r', blocks d !! i = Some r → blocks d !! j = Some r' → row_hash r = row_hash r' → i = j;
}.

(** The tip is the last block and the meta row names it. *)
Definition chain_inv (d : DB) : Prop := ∃ n r, 0 ≤ n < two63 ∧ chain_ok d n ∧
  blocks d !! n = Some r ∧ metaText d metaTipHash = Some (row_hash r).

(** Anything that leaves the blocks and the tip alone. *)
Definition same_chain (d d' : DB) : Prop :=
  blocks d' = blocks d ∧ metaText d' metaTipHash = metaText d metaTipHash.

Lemma kept_same_chain K d d' : bool_decide (metaTipHash ∈ K) = false → kept K d d' → same_chain d d'.
Proof.
  intros HK%bool_decide_eq_false [R M _ _]. split; [by injection R|]. unfold metaText. by rewrite M.
Qed.

Lemma same_chain_trans d1 d2 d3 : same_chain d1 d2 → same_chain d2 d3 → same_chain d1 d3.
Proof. intros [A B] [C D]. split; congruence. Qed.

Lemma asertModForIndexQ_blocks d d' i : blocks d' = blocks d → @asertModForIndexQ P d' i = @asertModForIndexQ P d i.
Proof. unfold asertModForIndexQ, asertModAfterQ, blockTimestampQ. by intros ->. Qed.

Lemma chain_ok_blocks d d' n : blocks d' = blocks d → chain_ok d n → chain_ok d' n.
Proof.
  intros E [A B C U]. split; [unfold dense; by rewrite E|by rewrite E| |by rewrite E].
  intros i r r'. rewrite E. intros Hi Hi'. destruct (C i r r' Hi Hi') as [L (pn & ev & M & W1 & W2 & W3)].
  split; [done|]. exists pn, ev, M. split; [done|]. split; [done|].
  intros Ha. rewrite (asertModForIndexQ_blocks d d') by done. by apply W3.
Qed.

Lemma same_chain_inv d d' : same_chain d d' → chain_inv d → chain_inv d'.
Proof.
  intros [A B] (n & r & Hn & C & L & T). exists n, r. split; [done|]. split; [by apply (chain_ok_blocks d)|].
  by rewrite A, B.
Qed.

(** The schedule reads only blocks below the index. *)
Lemma asert_extend d d' n i : (∀ j, j ≤ n → blocks d' !! j = blocks d !! j) → 1 ≤ i ≤ n + 1 →
  @ASERTActiveForIndex P i = true → @asertModForIndexQ P d' i = @asertModForIndexQ P d i.
Proof.
  intros E Hi Ha. unfold ASERTActiveForIndex in Ha. b2p. unfold asertModForIndexQ. case_match; [done|].
  unfold asertModAfterQ, blockTimestampQ. rewrite !E by lia. done.
Qed.

(** Adding the next block. *)
Lemma chain_extend d d' n r r' : 0 ≤ n → chain_ok d n → blocks d !! n = Some r →
  blocks d' = <[n + 1 := r']> (blocks d) → row_wf (n + 1) r' →
  trim_space (row_prev r') = trim_space (row_hash r) → work_ok d r r' →
  (∀ i x, blocks d !! i = Some x → row_hash x ≠ row_hash r') → chain_ok d' (n + 1).
Proof.
  intros Hn [A B C U] Hr Hd Hw Hl Hk Hu.
  assert (E : ∀ j, j ≤ n → blocks d' !! j = blocks d !! j) by (intros j Hj; rewrite Hd, lookup_insert_ne; [done|lia]).
  assert (T : blocks d' !! (n + 1) = Some r') by (rewrite Hd; apply lookup_insert_eq).
  assert (D : dense d' (n + 1)).
  { intros i. destruct (decide (i = n + 1)) as [->|Hne].
    - rewrite T. split; [lia|by eauto].
    - rewrite Hd, lookup_insert_ne by done. rewrite (A i). lia. }
  assert (K : ∀ p q, work_ok d p q → 1 ≤ b_Index (row_block q) ≤ n + 1 → work_ok d' p q).
  { intros p q (pn & ev & M & W1 & W2 & W3) Hi. exists pn, ev, M. split; [done|]. split; [done|].
    intros Ha. rewrite (asert_extend d d' n) by done. by apply W3. }
  split; [done| | |].
  - intros i x. destruct (decide (i = n + 1)) as [->|Hne]; [rewrite T; by intros [= <-]|].
    rewrite Hd, lookup_insert_ne by done. apply B.
  - intros i x y Hx Hy. assert (0 ≤ i ≤ n) as Hi.
    { assert (0 ≤ i ≤ n + 1) by (apply D; eauto). assert (0 ≤ i + 1 ≤ n + 1) by (apply D; eauto). lia. }
    rewrite E in Hx by lia. destruct (decide (i = n)) as [->|Hne].
    + rewrite T in Hy. injection Hy as <-. rewrite Hr in Hx. injection Hx as <-. split; [done|].
      apply K; [done|]. rewrite (rw_index _ _ Hw). lia.
    + rewrite E in Hy by lia. destruct (C i x y Hx Hy) as [L W]. split; [done|].
      apply K; [done|]. rewrite (rw_index _ _ (B _ _ Hy)). lia.
  - intros i j x y. rewrite !Hd. destruct (decide (i = n + 1)) as [->|Hi], (decide (j = n + 1)) as [->|Hj];
      rewrite ?lookup_insert_eq, ?lookup_insert_ne by done; try done.
    + intros [= <-] Hy E1. exfalso. by apply (Hu j y Hy).
    + intros Hx [= <-] E1. exfalso. by apply (Hu i x Hx).
    + apply U.
Qed.
End chain.

(** * What the steps of a block do to the chain *)

Lemma same_chain_refl d : same_chain d d.
Proof. done. Qed.

Lemma same_chain_meta k v d : bool_decide (k = metaTipHash) = false → same_chain d (ups_meta k v d).
Proof.
  intros Hk%bool_decide_eq_false. split; [done|]. unfold metaText. cbn. by rewrite lookup_insert_ne.
Qed.

Lemma expire_rows_chain now w rows : ∀ x d k d',
  expire_rows now w rows x d = Ok (k, d') → same_chain d d'.
Proof.
  induction rows as [|[id v] rows IH]; intros x d k d'; cbn [expire_rows]; [by intros [_ ->]%ret_ok|].
  destruct (x <? v); [done|]. intros G. apply bind_ok in G as (? & d1 & G1 & G).
  apply bind_ok in G as (? & d2 & G2 & G). apply IH in G. eapply same_chain_trans; [|exact G].
  unfold update_open_task in G2. inv_tx G2. unfold same_chain, metaText. cbn.
  inv_tx G1; cbn; unfold metaText; db_frame; done.
Qed.

Lemma expire_chain now d n d' : expireOpenOrderTasksTx now d = Ok (n, d') → same_chain d d'.
Proof.
  unfold expireOpenOrderTasksTx. intros G. apply bind_ok in G as (? & ? & [-> ->]%get_ok & G).
  destruct (wallet d); [|by inv_tx G]. cbv zeta in G. destruct (Nat.eqb _ 0); [by inv_tx G|].
  apply bind_ok in G as (k & d1 & G1 & G). apply expire_rows_chain in G1. inv_tx G.
  eapply same_chain_trans; [exact G1|]. by apply same_chain_meta.
Qed.

Lemma expire_rows_meta now w rows : ∀ x d k d', expire_rows now w rows x d = Ok (k, d') → meta d' = meta d.
Proof.
  induction rows as [|[id v] rows IH]; intros x d k d'; cbn [expire_rows]; [by intros [_ ->]%ret_ok|].
  destruct (x <? v); [done|]. intros G. apply bind_ok in G as (? & d1 & G1 & G).
  apply bind_ok in G as (? & d2 & G2 & G). apply IH in G. rewrite G.
  unfold update_open_task in G2. inv_tx G2. cbn. inv_tx G1; cbn; db_frame; done.
Qed.

Lemma expire_meta_only now d n d' : expireOpenOrderTasksTx now d = Ok (n, d') →
  ∀ k, k ≠ metaOrderEscrowUnits → meta d' !! k = meta d !! k.
Proof.
  unfold expireOpenOrderTasksTx. intros G k Hk. apply bind_ok in G as (? & ? & [-> ->]%get_ok & G).
  destruct (wallet d); [|by inv_tx G]. cbv zeta in G. destruct (Nat.eqb _ 0); [by inv_tx G|].
  apply bind_ok in G as (x & d1 & G1 & G). apply expire_rows_meta in G1. inv_tx G. cbn.
  rewrite lookup_insert_ne by done. by rewrite G1.
Qed.

Lemma claim_order_chain now id nonce rw d u d' : claim_order now id nonce rw d = Ok (u, d') → same_chain d d'.
Proof. unfold claim_order. intros G. inv_tx G; done. Qed.
Lemma recheck_order_chain now id rw d u d' : recheck_order now id rw d = Ok (u, d') → d' = d.
Proof. unfold recheck_order. intros G. by inv_tx G. Qed.
Lemma bump_chain id d u d' : bumpOrderTaskProgress id d = Ok (u, d') → same_chain d d'.
Proof. unfold bumpOrderTaskProgress. intros G. inv_tx G; done. Qed.

(** Reward bookkeeping. *)
Definition reward_keys : list string :=
  [metaOrderEscrowUnits; metaTotalMintedHMC; metaTotalBurnedHMC; metaTotalMintedUnits; metaTotalBurnedUnits;
   metaSUPTotalMintedUnits].

Lemma creditUnits_kept K a v d u d' : creditUnits a v d = Ok (u, d') → kept K d d'.
Proof. unfold creditUnits. intros G. kept_run G. Qed.

Lemma book_mint_kept m a b d u d' : book_mint m a b d = Ok (u, d') → kept reward_keys d d'.
Proof. unfold book_mint. intros G. kept_run G. Qed.

Lemma pay_solver_kept a v m b d u d' : pay_solver a v m b d = Ok (u, d') → kept reward_keys d d'.
Proof.
  unfold pay_solver. cbv zeta. destruct (_ || _); [done|]. intros G. apply bind_ok in G as (? & ? & [-> ->]%get_ok & G).
  destruct (_ <? _); [done|]. apply bind_ok in G as (? & d1 & G1 & G). apply (creditUnits_kept reward_keys) in G1.
  etransitivity; [exact G1|]. kept_run G.
Qed.

Lemma mint_producer_kept `{ChainParams} i v m b d u d' : mint_producer i v m b d = Ok (u, d') → kept reward_keys d d'.
Proof.
  unfold mint_producer. intros G. apply bind_ok in G as (w & d1 & G1 & G). inv_tx G1. cbv zeta in G.
  destruct (String.eqb _ ""); [done|]. destruct (0 <? _); [|by inv_tx G].
  apply bind_ok in G as (? & ? & G1 & G). inv_tx G1. apply bind_ok in G as (? & ? & G1 & G). inv_tx G1.
  apply bind_ok in G as (? & ? & G1 & G). inv_tx G1. apply book_mint_kept in G.
  etransitivity; [|exact G]. eauto with kept.
Qed.

Lemma mint_importer_kept `{ChainParams} b v m bu d u d' : mint_importer b v m bu d = Ok (u, d') → kept reward_keys d d'.
Proof.
  unfold mint_importer. intros G. apply bind_ok in G as (a & d1 & G1 & G).
  assert (d1 = d) as -> by (destruct (negb _); by inv_tx G1). cbv zeta in G.
  destruct (String.eqb _ ""); [done|]. destruct (0 <? _); [|by inv_tx G].
  apply bind_ok in G as (? & d2 & G2 & G). apply (creditUnits_kept reward_keys) in G2. apply book_mint_kept in G.
  by etransitivity.
Qed.

Lemma mintEmptyBlockSUPTx_kept `{ChainParams} i id a d u d' :
  mintEmptyBlockSUPTx i id a d = Ok (u, d') → kept reward_keys d d'.
Proof.
  unfold mintEmptyBlockSUPTx. intros G. destruct (_ || _); [by inv_tx G|]. cbv zeta in G.
  destruct (f_leb _ _); [by inv_tx G|]. destruct (_ =? 0); [by inv_tx G|]. destruct (_ || _); [done|].
  apply bind_ok in G as (? & ? & [-> ->]%get_ok & G). destruct (_ <=? _); [by inv_tx G|].
  match type of G with (if ?c then _ else _) _ = _ => destruct c end; [by inv_tx G|].
  apply bind_ok in G as (? & d2 & G2 & G). apply (lane_credit_kept reward_keys) in G2.
  etransitivity; [exact G2|]. kept_run G.
Qed.

Lemma reward_chain d d' : kept reward_keys d d' → same_chain d d'.
Proof. by apply kept_same_chain. Qed.
Lemma apply_chain d d' : kept apply_keys d d' → same_chain d d'.
Proof. by apply kept_same_chain. Qed.

(** Inserting a block and moving the tip. *)
Lemma insert_block_spec b d u d' : insert_block b d = Ok (u, d') →
  d' = set_blocks (<[b_Index b := mkBlockRow (b_Hash b) (b_PrevHash b) b]> (blocks d)) d ∧
  0 ≤ b_Index b < two63 ∧ blocks d !! b_Index b = None ∧ block_by_hash d (b_Hash b) = None.
Proof.
  unfold insert_block. intros G. inv_tx G. b2p. split; [done|]. split; [lia|].
  split; (apply eq_None_not_Some; done).
Qed.

Record advanced (d d' : DB) (b : Block) : Prop := {
  ad_blocks : blocks d' = <[b_Index b := mkBlockRow (b_Hash b) (b_PrevHash b) b]> (blocks d);
  ad_index : 0 ≤ b_Index b < two63;
  ad_new : blocks d !! b_Index b = None;
  ad_hash : ∀ i x, blocks d !! i = Some x → row_hash x ≠ b_Hash b;
  ad_tip : is_Some (metaText d metaTipHash) → metaText d' metaTipHash = Some (b_Hash b);
}.

Lemma advance_intro d d1 d2 d3 d4 d5 b u v : same_chain d d1 → insert_block b d1 = Ok (u, d2) → same_chain d2 d3 →
  update_meta metaTipHash (MStr (b_Hash b)) d3 = Ok (v, d4) → same_chain d4 d5 → advanced d d5 b.
Proof.
  intros [B1 T1] I [B2 T2] U [B3 T3]. apply insert_block_spec in I as (-> & Hi & Hn & Hh).
  unfold update_meta in U. apply modify_ok in U as E4. cbn in B2, T2.
  assert (Bl : blocks d4 = blocks d3) by (rewrite E4; by case_match).
  split.
  - by rewrite B3, Bl, B2, B1.
  - done.
  - by rewrite <- B1.
  - rewrite <- B1. by apply block_by_hash_none.
  - intros Hs. rewrite T3, E4. clear T3 Bl E4. rewrite <- T1 in Hs. change (metaText (set_blocks _ d1) metaTipHash) with (metaText d1 metaTipHash) in T2.
    rewrite <- T2 in Hs. destruct Hs as [x Hx]. unfold metaText in Hx.
    destruct (meta d3 !! metaTipHash) as [y|] eqn:E; [|done]. unfold metaText. cbn. by rewrite lookup_insert_eq.
Qed.

(** One step of a bind chain; a [get] or a [lift] leaves the state. *)
Ltac step G H :=
  let a := fresh "a" in let s := fresh "s" in
  apply bind_ok in G; destruct G as (a & s & H & G);
  try (lazymatch type of H with
       | get _ = _ => apply get_ok in H; destruct H as [-> ->]
       | lift _ _ = _ => apply lift_ok in H; destruct H as [H ->]
       end).

Lemma commit_block_advanced `{Crypto} `{ChainParams} strict now anow miner nonce rw id b nm d u d' :
  commit_block strict now anow miner nonce rw id b nm d = Ok (u, d') → advanced d d' b.
Proof.
  unfold commit_block. intros G. step G G0. step G Gv. step G Ge. apply expire_chain in Ge.
  step G Gi. step G Gc. apply claim_order_chain in Gc. step G Gb. apply bump_chain in Gb.
  step G Gu. step G Gg. step G Gr. step G Gs. step G Ga. step G Gm.
  apply econ_guard_run in G as [-> _]. eapply (advance_intro d); [exact Ge|exact Gi| |exact Gu|].
  { eapply same_chain_trans; [exact Gc|exact Gb]. }
  eapply same_chain_trans; [|eapply same_chain_trans; [|eapply same_chain_trans]].
  - apply reward_chain. destruct (f_ltb _ rw); [|by inv_tx Gr]. destruct (econTotalsUnits _) as [m bu].
    cbv zeta in Gr. destruct (negb _); [by apply pay_solver_kept in Gr|by apply mint_producer_kept in Gr].
  - apply reward_chain. destruct (String.eqb id ""); [|by inv_tx Gs]. step Gs Gw. inv_tx Gw.
    by apply mintEmptyBlockSUPTx_kept in Gs.
  - apply apply_chain. by apply apply_pending_kept in Ga.
  - inv_tx Gm. by apply same_chain_meta.
Qed.

Lemma commit_import_advanced `{Crypto} `{ChainParams} strict now anow id M rw b d u d' :
  commit_import strict now anow id M rw b d = Ok (u, d') → advanced d d' b.
Proof.
  unfold commit_import. intros G. step G G0. step G Gv. cbv zeta in G. step G Ge. apply expire_chain in Ge.
  step G Gi. step G Gc. apply recheck_order_chain in Gc as ->. step G Gb. apply bump_chain in Gb.
  step G Gu. step G Gg. step G Gr. step G Gs. step G Ga. step G Gq. step G Gn. step G Gm.
  apply econ_guard_run in G as [-> _]. eapply (advance_intro d); [exact Ge|exact Gi|exact Gb|exact Gu|].
  eapply same_chain_trans; [|eapply same_chain_trans; [|eapply same_chain_trans]].
  - apply reward_chain. destruct (f_ltb _ rw); [|by inv_tx Gr]. destruct (econTotalsUnits _) as [m bu].
    cbv zeta in Gr. destruct (negb _); [by apply pay_solver_kept in Gr|by apply mint_importer_kept in Gr].
  - apply reward_chain. destruct (String.eqb id ""); [|by inv_tx Gs]. by apply mintEmptyBlockSUPTx_kept in Gs.
  - apply apply_chain. by apply apply_pending_kept in Ga.
  - inv_tx Gm. by apply same_chain_meta.
Qed.

Lemma pinning_chain d d' : pinning d d' → same_chain d d'.
Proof.
  intros [A B _]. split; [by rewrite A|]. unfold metaText. rewrite B; [done|].
  apply (bool_decide_unpack (metaTipHash ∉ pin_keys)). reflexivity.
Qed.

(** * The block a producer builds *)

Lemma ASERT_clamped a h t p q : ClampPoHTargetMod (ASERTTargetMod a h t p q) = ASERTTargetMod a h t p q.
Proof. unfold ASERTTargetMod. cbv zeta. repeat case_match; apply Clamp_idem. Qed.

Lemma asertModAfterQ_clamped `{P : ChainParams} d i tm M : asertModAfterQ d i tm = Ok M → ClampPoHTargetMod M = M.
Proof.
  unfold asertModAfterQ. cbv zeta. destruct (_ <? _); [discriminate|].
  destruct (if negb _ then _ else _); [|discriminate]. intros <-%ok_inj. apply ASERT_clamped.
Qed.

Lemma asertModForIndexQ_clamped `{P : ChainParams} d i M : asertModForIndexQ d i = Ok M → ClampPoHTargetMod M = M.
Proof.
  unfold asertModForIndexQ. destruct (i =? 0); [discriminate|]. destruct (blockTimestampQ _ _); [|discriminate].
  apply asertModAfterQ_clamped.
Qed.

Lemma poHTargetModFromDB_clamped d : ClampPoHTargetMod (poHTargetModFromDB d) = poHTargetModFromDB d.
Proof.
  unfold poHTargetModFromDB. assert (ClampPoHTargetMod DefaultPoHTargetMod = DefaultPoHTargetMod) as D by reflexivity.
  destruct (meta d !! metaPoHTargetMod) as [[n|x|s]|]; [apply Clamp_idem|exact D..].
Qed.

(** An order solve brings a clamped modulus; otherwise the check forces one. *)
Lemma append_mod_ok `{P : ChainParams} d i t id M : append_mod d i t id = Ok M →
  ClampPoHTargetMod M = M ∧ (ASERTActiveForIndex i = true → asertModForIndexQ d i = Ok M) ∧
  (ASERTActiveForIndex i = false → id = "" → M = poHTargetModFromDB d).
Proof.
  unfold append_mod. destruct (ASERTActiveForIndex i).
  - destruct (asertModForIndexQ d i) as [w|] eqn:E; cbn [rbind]; [|done].
    destruct (Z.eqb_spec t w) as [->|]; [|done]. intros [= <-].
    split; [by apply asertModForIndexQ_clamped in E|done].
  - destruct (String.eqb_spec id "") as [->|].
    + destruct (Z.eqb_spec t (poHTargetModFromDB d)) as [->|]; [|done]. intros [= <-].
      split; [apply poHTargetModFromDB_clamped|done].
    + intros [= <-]. split; [apply Clamp_idem|done].
Qed.

(** What the header says, signature apart. *)
Record built (P : ChainParams) (t : Tip) (miner : string) (nonce eval M : Z) (id : string) (b : Block) : Prop := {
  bu_index : b_Index b = tip_next t;
  bu_prev : b_PrevHash b = tip_hash t;
  bu_miner : b_MinerAddress b = miner;
  bu_nonce : b_Nonce b = nonce;
  bu_kind : T_Kind (b_Task b) = PoHBlockKind;
  bu_payload : T_Payload (b_Task b) = poh_payload nonce eval M id (@PoHFormulaLabelForIndex P (tip_next t));
  bu_time : @ASERTActiveForIndex P (tip_next t) = true → b_Timestamp (tip_block t) ≤ b_Timestamp b;
}.

Lemma formula_label `{P : ChainParams} i : PoHFormulaLabelForIndex i ≠ "" ∧ ascii_str (PoHFormulaLabelForIndex i) = true.
Proof. unfold PoHFormulaLabelForIndex. by destruct (ActivePoHTaskKindForIndex i). Qed.

Lemma build_block_built `{Crypto} `{P : ChainParams} signer d t bnow rid miner nonce eval M id b :
  build_block signer d t bnow rid miner nonce eval M id = Ok b → built P t miner nonce eval M id b.
Proof.
  unfold build_block. cbv zeta. set (b0 := NewPoHBlock _ _ _ _ _ _ _ _ _ _).
  set (b1 := if _ && _ then _ else b0).
  assert (B : built P t miner nonce eval M id b1).
  { assert (F : T_Payload (b_Task b0) = poh_payload nonce eval M id (PoHFormulaLabelForIndex (tip_next t))).
    { subst b0. cbn. destruct (String.eqb_spec (PoHFormulaLabelForIndex (tip_next t)) "") as [E|]; [|done].
      exfalso. by apply (formula_label (tip_next t)). }
    subst b1. destruct (ASERTActiveForIndex (tip_next t)) eqn:Ea; [|split; try done; by rewrite Ea].
    cbn [andb]. destruct (b_Timestamp b0 <? b_Timestamp (tip_block t)) eqn:Et; split; try done; intros _.
    by apply Z.ltb_ge in Et. }
  clearbody b1. destruct B as [B1 B2 B3 B4 B5 B6 B7].
  destruct (EconomicsV2ActiveForIndex _); [|intros [= <-]; by split].
  destruct signer; [|done]. destruct (String.eqb id ""); [destruct (wallet d); [|done]|]; intros [= <-]; by split.
Qed.

Lemma built_sign P t miner nonce eval M id b signer :
  built P t miner nonce eval M id b → built P t miner nonce eval M id (attachBlockSignature signer b).
Proof. intros [A1 A2 A3 A4 A5 A6 A7]. destruct signer; by split. Qed.

(** Work proved for the address as given is proved for the address of the header. *)
Lemma validate_effective `{Crypto} `{PoHHash} `{P : ChainParams} i nonce eval M prev miner b : b_MinerAddress b = miner →
  validatePoHSubmission i nonce eval M prev miner = Ok tt →
  validatePoHSubmission i nonce eval M prev (EffectiveMinerAddress b) = Ok tt.
Proof.
  intros <- G. destruct (String.eqb_spec (trim_space (b_MinerAddress b)) "") as [E|E].
  - unfold validatePoHSubmission, PohWorkForIndex in *. destruct (ActivePoHTaskKindForIndex i); cbn [andb] in *; try exact G.
    rewrite E in G. cbn in G. exfalso. repeat case_match; discriminate.
  - assert (EffectiveMinerAddress b = trim_space (b_MinerAddress b)) as ->.
    { unfold EffectiveMinerAddress. by destruct (String.eqb_spec (trim_space (b_MinerAddress b)) ""). }
    revert G. unfold validatePoHSubmission, PohWorkForIndex, PohWorkBlake3, pohBlake3Message. by rewrite trim_space_idem.
Qed.

(** Take a chain of results apart. *)
Ltac rstep G H := let a := fresh "r" in apply rbind_ok in G; destruct G as (a & H & G).

Record prepared `{Crypto} `{PoHHash} (P : ChainParams) (signer : option Signer) (d : DB) (now bnow : Z) (rid miner : string)
    (nonce eval t0 : Z) (id : string) (b : Block) (nm : Z) (t : Tip) (M : Z) (b0 : Block) : Prop := {
  pr_tip : read_tip d = Ok t;
  pr_mod : @append_mod P d (tip_next t) t0 id = Ok M;
  pr_work : @validatePoHSubmission _ P (tip_next t) nonce eval M (tip_hash t) miner = Ok tt;
  pr_build : @build_block _ P signer d t bnow rid miner nonce eval M id = Ok b0;
  pr_next : if @ASERTActiveForIndex P (u64 (tip_next t + 1)) then @asertModAfterQ P d (tip_next t) (b_Timestamp b0) = Ok nm
            else legacy_next_mod d (tip_next t) now (Some (tip_block t)) M = Ok nm;
  pr_signed : b = attachBlockSignature signer b0;
  pr_verified : verifyBlockIntegrityAndSignature b = Ok tt;
}.

Lemma prepare_block_ok `{Crypto} `{PoHHash} (P : ChainParams) signer d now bnow rid miner nonce eval t0 id b nm :
  prepare_block signer d now bnow rid miner nonce eval t0 id = Ok (b, nm) →
  ∃ t M b0, prepared P signer d now bnow rid miner nonce eval t0 id b nm t M b0.
Proof.
  unfold prepare_block. intros G. rstep G G1. rstep G G2. rstep G G3. rstep G G4. rstep G G5. rstep G G6.
  cbv zeta in G. rstep G G7. apply ok_inj in G. injection G as <- <-. destruct r1, r5.
  exists r, r0, r3. split; try done. destruct (ASERTActiveForIndex _); [exact G6|].
  apply ok_inj in G6 as <-. exact G4.
Qed.

(** A successful append: the prepared block, the locks, and the booking. *)
Lemma AppendPoHBlock_ok `{Crypto} `{PoHHash} e ov signer strict now bnow anow rid miner nonce eval rw t0 id d b d' :
  AppendPoHBlock e ov signer strict now bnow anow rid miner nonce eval rw t0 id d = Ok (b, d') →
  ∃ nm t M b0 d1 d2,
    prepared (params_of e ov) signer d now bnow rid miner nonce eval t0 (trim_space id) b nm t M b0 ∧
    f_ltb rw (f_of_Z 0) = false ∧
    checkV2ActivationGuardTx e (b_Index b) d = Ok tt ∧
    lockEconomicsV2ActivationTx e ov d = Ok (tt, d1) ∧
    @lockAuthorityPubKeyTx (params_of e (lock_override e ov d)) e signer true d1 = Ok (tt, d2) ∧
    @commit_block _ (params_of e (lock_override e ov d)) strict now anow miner nonce rw (trim_space id) b nm d2 = Ok (tt, d').
Proof.
  unfold AppendPoHBlock. destruct (f_ltb rw (f_of_Z 0)); [done|]. cbv zeta. intros G.
  step G G0. step G Gp. destruct a as [b' nm]. cbn [fst snd] in *. step G Gg. step G Gl. step G Ga. step G Gc.
  apply ret_ok in G as [-> <-]. apply prepare_block_ok in Gp as (t & M & b0 & Gp). destruct a, a0, a1, a2.
  by exists nm, t, M, b0, s, s0.
Qed.

Lemma ImportPoHBlock_ok `{Crypto} `{PoHHash} e ov strict now anow b d u d' :
  ImportPoHBlock e ov strict now anow b d = Ok (u, d') →
  ∃ id M rw d1, @check_import _ _ (params_of e ov) e now d b = Ok (id, M, rw) ∧
    lockEconomicsV2ActivationForImportTx e ov d = Ok (tt, d1) ∧
    @commit_import _ (params_of e (import_override e ov d)) strict now anow id M rw b d1 = Ok (u, d').
Proof.
  unfold ImportPoHBlock. intros G. step G G0. step G Gp. destruct a as [[id M] rw]. step G Gl. destruct a.
  by exists id, M, rw, s.
Qed.

(** * Every way a block gets in keeps the invariant *)

Section preserved.
Context `{Crypto} `{PoHHash} (e : Env).

Lemma tip_at d n r : 0 ≤ n < two63 → chain_ok e d n → blocks d !! n = Some r →
  (∀ m, next_index m d = Ok (n + 1)) ∧ block_by_hash d (row_hash r) = Some (row_block r).
Proof using Type.
  intros Hn C Hr. split.
  - intros m. unfold next_index. rewrite (dense_max d n) by (lia || apply C).
    by rewrite u64_small by (unfold two63, two64 in *; lia).
  - destruct (block_by_hash d (row_hash r)) as [b|] eqn:E.
    + apply block_by_hash_some in E as (i & x & Hi & Hh & <-).
      assert (i = n) as -> by by eapply (co_unique _ _ _ C). rewrite Hr in Hi. by injection Hi as <-.
    + exfalso. by apply (block_by_hash_none _ _ E n r Hr).
Qed.

Lemma advanced_inv d d1 d' b n r : 0 ≤ n < two63 → chain_ok e d n → blocks d !! n = Some r →
  metaText d metaTipHash = Some (row_hash r) → same_chain d d1 → advanced d1 d' b → b_Index b = n + 1 →
  b_Hash b = HeaderHashHex b → trim_space (b_PrevHash b) = trim_space (row_hash r) →
  work_ok e d r (mkBlockRow (b_Hash b) (b_PrevHash b) b) → chain_inv e d'.
Proof using Type.
  intros Hn C Hr Ht [S1 S2] [A1 A2 A3 A4 A5] Hi Hs Hp Hw. rewrite Hi in *. rewrite S1 in A1, A4.
  exists (n + 1), (mkBlockRow (b_Hash b) (b_PrevHash b) b). split; [lia|]. split; [|split].
  - eapply (chain_extend e d d' n r); [lia|exact C|exact Hr|exact A1|by split|exact Hp|exact Hw|exact A4].
  - rewrite A1. apply lookup_insert_eq.
  - apply A5. by rewrite S2, Ht.
Qed.

Lemma AppendPoHBlock_inv ov signer strict now bnow anow rid miner nonce eval rw t0 id d b d' :
  0 ≤ nonce < two64 → 0 ≤ eval < two64 → ascii_str (trim_space id) = true →
  AppendPoHBlock e ov signer strict now bnow anow rid miner nonce eval rw t0 id d = Ok (b, d') →
  chain_inv e d → chain_inv e d'.
Proof using Type.
  intros Hno Hev Has G (n & r & Hn & C & Hr & Ht).
  apply AppendPoHBlock_ok in G as (nm & t & M & b0 & d1 & d2 & [T Hm Hw Hb _ Hs Hv] & _ & _ & L1 & L2 & G).
  destruct (tip_at d n r Hn C Hr) as [E1 E2].
  unfold read_tip in T. rewrite Ht, E2, E1 in T. apply ok_inj in T as <-. cbn [tip_hash tip_block tip_next] in *.
  pose proof (built_sign _ _ _ _ _ _ _ _ signer (build_block_built _ _ _ _ _ _ _ _ _ _ _ Hb)) as [B1 B2 B3 B4 _ B6 B7].
  rewrite <- Hs in *. cbn [tip_hash tip_block tip_next] in *.
  apply append_mod_ok in Hm as (Mc & Ma & _).
  apply lockEconomicsV2ActivationTx_pins in L1. apply lockAuthorityPubKeyTx_pins in L2.
  eapply (advanced_inv d d2 d' b n r); try done.
  - apply pinning_chain. by transitivity d1.
  - by eapply commit_block_advanced.
  - by apply verify_hash.
  - by rewrite B2.
  - assert (RM : 0 ≤ M < two64).
    { pose proof (ClampPoHTargetMod_range M) as [R _]. rewrite Mc in R. unfold PoHTargetMinMod, PoHTargetMaxMod, two64 in *. lia. }
    assert (RT : pohFieldsFromPayload (T_Payload (b_Task b)) = Ok (nonce, eval, M)).
    { rewrite B6, payload_fields, Mc; [done..|apply formula_label]. }
    exists nonce, eval, M. cbn [row_block]. split; [exact RT|]. split.
    + rewrite B1, B4. destruct (negb (nonce =? 0)); by apply (validate_effective (n + 1) nonce eval M (row_hash r) miner b).
    + rewrite B1. intros Ha. split; [by apply B7|by apply Ma].
Qed.

Lemma check_import_ok ov now d b id M rw : @check_import _ _ (params_of e ov) e now d b = Ok (id, M, rw) →
  verifyBlockIntegrityAndSignature b = Ok tt ∧ id = orderTaskIDFromPayload (T_Payload (b_Task b)) ∧
  next_index "chain: empty (genesis required before import)" d = Ok (b_Index b) ∧
  trim_space (b_PrevHash b) = trim_space (meta_txt d metaTipHash) ∧
  @import_mod (params_of e ov) now d b = Ok M ∧
  ∃ pn eval, pohFieldsFromPayload (T_Payload (b_Task b)) = Ok (pn, eval, M) ∧
    @validatePoHSubmission _ (params_of e ov) (b_Index b) (if negb (b_Nonce b =? 0) then b_Nonce b else pn) eval M
      (meta_txt d metaTipHash) (EffectiveMinerAddress b) = Ok tt.
Proof using Type.
  unfold check_import. intros G. destruct (negb _); [discriminate|]. rstep G G1. cbv zeta in G.
  destruct (negb _ && _); [discriminate|]. rstep G G2. destruct r0 as [[pn ev] pm]. rstep G G3.
  destruct (Z.eqb_spec (b_Index b) r0) as [<-|]; [|discriminate]. cbn [negb] in G.
  destruct (String.eqb_spec (trim_space (b_PrevHash b)) (trim_space (meta_txt d metaTipHash))); [|discriminate].
  cbn [negb] in G. rstep G G4. destruct (Z.eqb_spec pm r0) as [->|]; [|discriminate]. cbn [negb] in G. rstep G G5.
  destruct r, r1. assert (id = orderTaskIDFromPayload (T_Payload (b_Task b)) ∧ M = r0) as [-> ->].
  { destruct (negb (String.eqb (orderTaskIDFromPayload (T_Payload (b_Task b))) "")).
    - destruct (open_order_reward _ _ _); [|discriminate]. apply ok_inj in G. by injection G.
    - apply ok_inj in G. by injection G. }
  split; [exact G1|]. split; [done|]. split; [exact G3|]. split; [done|]. split; [exact G4|]. by exists pn, ev.
Qed.

Lemma ImportPoHBlock_inv ov strict now anow b d u d' :
  ImportPoHBlock e ov strict now anow b d = Ok (u, d') → chain_inv e d → chain_inv e d'.
Proof using Type.
  intros G (n & r & Hn & C & Hr & Ht).
  apply ImportPoHBlock_ok in G as (id & M & rw & d1 & Hc & L & G).
  apply check_import_ok in Hc as (Hv & _ & Hi & Hp & Hm & pn & ev & Hf & Hw).
  destruct (tip_at d n r Hn C Hr) as [E1 E2]. rewrite E1 in Hi. apply ok_inj in Hi. symmetry in Hi.
  assert (meta_txt d metaTipHash = row_hash r) as Hx by (unfold meta_txt; by rewrite Ht). rewrite Hx in *.
  apply lockForImport_pins in L.
  eapply (advanced_inv d d1 d' b n r); try done.
  - by apply pinning_chain.
  - by eapply commit_import_advanced.
  - by apply verify_hash.
  - exists pn, ev, M. cbn [row_block]. split; [done|]. split; [exact Hw|]. intros Ha.
    unfold import_mod in Hm. change (@ASERTActiveForIndex (params_of e ov) (b_Index b) = true) in Ha. rewrite Ha in Hm.
    rstep Hm Hq. assert (blockTimestampQ d (b_Index b - 1) = Ok (b_Timestamp (row_block r))) as Ep.
    { unfold blockTimestampQ. replace (b_Index b - 1) with n by lia. by rewrite Hr. }
    rewrite Ep in Hq. apply ok_inj in Hq as <-.
    destruct (Z.ltb_spec (b_Timestamp b) (b_Timestamp (row_block r))); [discriminate|]. split; [done|].
    destruct (_ <? _) in Hm; [discriminate|]. unfold asertModForIndexQ.
    destruct (Z.eqb_spec (b_Index b) 0); [lia|]. rewrite Ep. exact Hm.
Qed.
End preserved.
