(* ===== verification/ChainLedger.v ===== *)
(** Money across a block: what expiry, the reward, the SUP emission and the pending transfers of
    one block do to the ledger totals. *)
From S2P Require Import Prelude Float64 GoText Params Emission OrderFee Retarget Json GoNum Ledger Address GoSort Transfers Lane SupLedger HmsLedger EscrowSplit FuzzEscrow EscrowInv Orders OrdersInv Block PohPayload Consensus Chain ChainFrame ChainInv.

(** Equal tables and counters give an equal ledger. *)
Lemma ledger_frame d d' : ledger_inv d → accounts d' = accounts d → wallet d' = wallet d →
  escrows d' = escrows d → tasks d' = tasks d → burned_units d' = burned_units d →
  supTotalBurnedUnits d' = supTotalBurnedUnits d → order_escrow d' = order_escrow d → tip_height d' + 1 < two63 →
  ledger_inv d' ∧ ledger_total d' = ledger_total d ∧ escrow_sup_total d' = escrow_sup_total d.
Proof.
  intros [[I1 I2 I3 I4 I5 I6 I7 I8] T C L] A W E K B S O H.
  assert (ET : escrow_total d' = escrow_total d) by (unfold escrow_total, acct_sum; by rewrite A, E, B).
  assert (EU : escrow_sup_total d' = escrow_sup_total d) by (unfold escrow_sup_total, acct_sum; by rewrite A, S).
  assert (EL : ledger_total d' = ledger_total d) by (unfold ledger_total; by rewrite ET, O).
  split; [|done]. split; [split| | |].
  - unfold accounts_ok. by rewrite A.
  - unfold wallet_ok. by rewrite W, A.
  - unfold mirrored, hmc. by rewrite W, A.
  - by rewrite B.
  - by rewrite E.
  - done.
  - by rewrite ET.
  - by rewrite S, EU.
  - unfold tasks_ok. by rewrite K.
  - by rewrite O, K.
  - by rewrite EL.
Qed.

(** The counters live in five meta rows. *)
Definition ledger_keys : list string :=
  [metaTotalBurnedUnits; metaTotalBurnedHMC; metaSUPTotalBurnedUnits; metaOrderEscrowUnits].
Lemma ledger_counters d d' : (∀ k, k ∈ ledger_keys → meta d' !! k = meta d !! k) →
  burned_units d' = burned_units d ∧ supTotalBurnedUnits d' = supTotalBurnedUnits d ∧ order_escrow d' = order_escrow d.
Proof.
  intros M. assert (M' : ∀ k, bool_decide (k ∈ ledger_keys) = true → meta d' !! k = meta d !! k)
    by (intros k Hk%bool_decide_eq_true; by apply M).
  split; [|split].
  - unfold burned_units, econTotalsUnits, metaUint, metaFloat. cbn [snd]. by rewrite !M' by done.
  - apply metaUint_at. by apply M'.
  - apply metaUint_at. by apply M'.
Qed.

Lemma ledger_meta d d' : ledger_inv d → d' = set_meta (meta d') d →
  (∀ k, k ∈ ledger_keys → meta d' !! k = meta d !! k) →
  ledger_inv d' ∧ ledger_total d' = ledger_total d ∧ escrow_sup_total d' = escrow_sup_total d.
Proof.
  intros L E M. destruct (ledger_counters d d' M) as (B & S & O).
  apply ledger_frame; try done; try (by rewrite E).
  assert (tip_height d' = tip_height d) as -> by (rewrite E; done). apply L.
Qed.

Lemma ups_meta_ledger k v d : ledger_inv d → bool_decide (k ∈ ledger_keys) = false →
  ledger_inv (ups_meta k v d) ∧ ledger_total (ups_meta k v d) = ledger_total d ∧
  escrow_sup_total (ups_meta k v d) = escrow_sup_total d.
Proof.
  intros L Hk%bool_decide_eq_false. apply ledger_meta; [done|done|]. intros k' Hk'. cbn.
  rewrite lookup_insert_ne; [done|]. by intros ->.
Qed.

(** The locks move no money. *)
Lemma pinning_ledger d d' : pinning d d' → ledger_inv d →
  ledger_inv d' ∧ ledger_total d' = ledger_total d ∧ escrow_sup_total d' = escrow_sup_total d.
Proof.
  intros [E M _] L. apply ledger_meta; [done|done|]. intros k Hk. apply M.
  assert (forallb (λ k, negb (bool_decide (k ∈ pin_keys))) ledger_keys = true) as F by reflexivity.
  rewrite forallb_forall in F. apply list_elem_of_In in Hk. specialize (F k Hk). rewrite negb_true_iff in F.
  by apply bool_decide_eq_false in F.
Qed.

Lemma dense_tip d n : 0 ≤ n → dense d n → tip_height d = n.
Proof. intros Hn D. unfold tip_height. rewrite (dense_max d n Hn D). destruct (Z.leb_spec 0 n); [done|lia]. Qed.

Lemma dense_insert d n r : 0 ≤ n → dense d n → dense (set_blocks (<[n + 1 := r]> (blocks d)) d) (n + 1).
Proof.
  intros Hn D i. cbn. destruct (decide (i = n + 1)) as [->|Hne].
  - rewrite lookup_insert_eq. split; [lia|by eauto].
  - rewrite lookup_insert_ne by done. rewrite (D i). lia.
Qed.

(** Up to the tip: expiry, the block row, the tip row. *)
Lemma prefix_ledger now b d n k u v d1 d2 d3 : ledger_inv d → 0 ≤ n → dense d n → b_Index b = n + 1 → n + 2 < two63 →
  expireOpenOrderTasksTx now d = Ok (k, d1) → insert_block b d1 = Ok (u, d2) →
  update_meta metaTipHash (MStr (b_Hash b)) d2 = Ok (v, d3) →
  ledger_inv d3 ∧ ledger_total d3 = ledger_total d ∧ escrow_sup_total d3 = escrow_sup_total d.
Proof.
  intros L Hn D Hi Hb Ge Gi Gu. destruct (expireOpenOrderTasksTx_kept now d k d1 L Ge) as (L1 & T1 & U1).
  apply expire_chain in Ge as [Bl _]. apply insert_block_spec in Gi as (-> & _).
  assert (D1 : dense d1 n) by (unfold dense; by rewrite Bl). rewrite Hi in *.
  set (d2 := set_blocks _ d1) in *.
  destruct (ledger_frame d1 d2 L1) as (L2 & T2 & U2); try done.
  { rewrite (dense_tip d2 (n + 1)); [lia|lia|]. by apply dense_insert. }
  unfold update_meta in Gu. apply modify_ok in Gu as ->.
  destruct (meta d2 !! metaTipHash); [|by rewrite T2, U2].
  destruct (ups_meta_ledger metaTipHash (MStr (b_Hash b)) d2 L2 eq_refl) as (L3 & T3 & U3).
  split; [done|]. by rewrite T3, U3, T2, U2.
Qed.

(** Money moved between balances and the burn counter, nothing else. *)
Lemma ledger_move K d d' : ledger_inv d → kept K d d' → bool_decide (metaOrderEscrowUnits ∈ K) = false →
  accounts_ok d' → mirrored d' → hmc_sum d' + burned_units d' = hmc_sum d + burned_units d → 0 ≤ burned_units d' →
  0 ≤ supTotalBurnedUnits d' → escrow_sup_total d' < two63 → ledger_inv d' ∧ ledger_total d' = ledger_total d.
Proof.
  intros [[I1 I2 I3 I4 I5 I6 I7 I8] T C L] [R M A D] HK%bool_decide_eq_false Hok Hmi Hs Hb Hsb Hst.
  injection R as Rb Rt Re _ _.
  assert (O : order_escrow d' = order_escrow d) by (apply metaUint_at; by apply M).
  assert (E : escrow_total d' = escrow_total d) by (unfold escrow_total; rewrite Re; lia).
  assert (LT : ledger_total d' = ledger_total d) by (unfold ledger_total; by rewrite O, E).
  split; [|done]. split; [split| | |]; try done.
  - destruct I2 as (w & Ew & Tw & Nw & Sw). rewrite Ew in A. destruct (wallet d') as [w'|] eqn:Ew'; [|done].
    injection A as A. exists w'. rewrite A. by split_and!; auto.
  - by rewrite Re.
  - unfold tip_height, max_block_index in *. by rewrite Rb.
  - by rewrite E.
  - unfold tasks_ok. by rewrite Rt.
  - by rewrite O, Rt.
  - by rewrite LT.
Qed.

(** A step on another column of the accounts. *)
Lemma side_ledger K d d' : ledger_inv d → kept K d d' → wallet d' = wallet d → bool_decide (metaOrderEscrowUnits ∈ K) = false →
  accounts_ok d' → col_effect balance_units d d' (λ _, 0) 0 →
  (∀ k, k ∈ ledger_keys → meta d' !! k = meta d !! k) → escrow_sup_total d' < two63 →
  ledger_inv d' ∧ ledger_total d' = ledger_total d.
Proof.
  intros L K1 W HK A [H1 H2] M Hs. destruct (ledger_counters d d' M) as (B & S & O).
  destruct L as [I ? ? ?]. pose proof I as [I1 I2 I3 I4 I5 I6 I7 [I8 I9]].
  apply (ledger_move K d d'); try done.
  - unfold mirrored, hmc in *. rewrite W. destruct (wallet d); [|done]. rewrite H1. lia.
  - rewrite H2, B. lia.
  - by rewrite B.
  - by rewrite S.
Qed.

(** * The reward *)

Definition minted_units (d : DB) : Z := fst (econTotalsUnits d).
Lemma minted_at d d' : meta d' !! metaTotalMintedUnits = meta d !! metaTotalMintedUnits →
  meta d' !! metaTotalMintedHMC = meta d !! metaTotalMintedHMC → minted_units d' = minted_units d.
Proof. intros E1 E2. unfold minted_units, econTotalsUnits, metaUint, metaFloat. cbn [fst]. by rewrite E1, E2. Qed.

(** The producer's two writes are the importer's credit of the primary wallet. *)
Lemma producer_credit w a v d u d' : wallet_ok d → accounts_ok d → wallet d = Some w → a = w_address w → 0 < v < two63 →
  (sql_u64 v ;;; update_wallet (λ u, u + v) ;;;
   upsert_account (mkAccount v 0 0 0 0 0) (λ x, set_hmc (balance_units x + v) x) a) d = Ok (u, d') →
  creditUnits a v d = Ok (u, d').
Proof.
  intros (w0 & Hw0 & Tw & Nw & _) Hok Hw -> Hv G. rewrite Hw in Hw0. injection Hw0 as <-.
  unfold creditUnits. cbv zeta. rewrite Tw. destruct (String.eqb_spec (w_address w) ""); [done|].
  destruct (Z.eqb_spec v 0); [lia|]. cbn [orb]. rewrite (bind_run get _ d d d) by done.
  assert (O : (match accounts d !! w_address w with
     | Some a => if two64 - 1 - v <? balance_units a then fail "chain: balance overflow" else ret tt
     | None => ret tt end) d = Ok (tt, d)).
  { destruct (accounts d !! w_address w) as [x|] eqn:Ex; [|done]. specialize (Hok _ _ Ex).
    destruct (Z.ltb_spec (two64 - 1 - v) (balance_units x)); [|done]. destruct Hok as [? _]. unfold two63, two64 in *. lia. }
  rewrite (bind_run _ _ _ _ _ O). rewrite (bind_run (sql_u64 v) _ d tt d) by (apply sql_u64_ok; lia).
  rewrite (bind_run (sql_u64 v) _ d tt d) in G by (apply sql_u64_ok; lia).
  unfold update_wallet, upsert_account in *. rewrite (bind_run (modify _) _ d tt _ eq_refl).
  rewrite (bind_run (modify _) _ d tt _ eq_refl) in G. apply modify_ok in G.
  unfold wallet_row. set (d1 := ups_account _ _ _ d).
  assert (Hd1 : wallet d1 = Some w) by done.
  rewrite (bind_run (let* d := get in _) _ d1 w d1) by (unfold bind, get; by rewrite Hd1).
  rewrite Tw, String.eqb_refl. destruct u. unfold modify. f_equal. f_equal. rewrite G. subst d1.
  unfold upd_wallet. rewrite Hw. cbn. rewrite Hw. done.
Qed.

Lemma allowed_units_nonneg `{ChainParams} i c m : 0 ≤ c → 0 ≤ allowed_units i c m ≤ c.
Proof.
  intros Hc. unfold allowed_units. destruct (EconomicsV2ActiveForIndex i); [lia|]. cbv zeta.
  destruct (Z.leb_spec (HMCToUnits MaxSupplyHMC) m); [lia|].
  destruct (Z.ltb_spec (HMCToUnits MaxSupplyHMC - m) c); lia.
Qed.

Lemma totals_meta d d' : meta d' = meta d → econTotalsUnits d' = econTotalsUnits d.
Proof. unfold econTotalsUnits, metaUint, metaFloat. by intros ->. Qed.

Lemma book_mint_ledger m a d u d' : ledger_inv d → 0 ≤ m → 0 < a → m + a < two64 →
  book_mint m a (burned_units d) d = Ok (u, d') →
  ledger_inv d' ∧ ledger_total d' = ledger_total d ∧ escrow_sup_total d' = escrow_sup_total d ∧
  minted_units d' = m + a ∧ accounts d' = accounts d.
Proof.
  intros L Hm Ha Hs G. unfold book_mint in G. rewrite u64_small in G by lia. inv_tx G.
  set (d' := ups_meta metaTotalBurnedUnits _ _).
  assert (N : minted_units d' = m + a).
  { unfold minted_units, econTotalsUnits, metaUint. cbn [fst]. subst d'. cbn [meta ups_meta set_meta].
    rewrite lookup_insert_ne by discriminate. rewrite lookup_insert_ne by discriminate. rewrite lookup_insert_eq.
    destruct (Z.eqb_spec (m + a) 0); [lia|done]. }
  assert (B : burned_units d' = burned_units d).
  { unfold burned_units at 1, econTotalsUnits, metaUint, metaFloat. cbn [snd]. subst d'. cbn [meta ups_meta set_meta].
    rewrite lookup_insert_eq. rewrite !lookup_insert_ne by discriminate.
    destruct (Z.eqb_spec (burned_units d) 0) as [E|]; [|done]. rewrite E. unfold burned_units, econTotalsUnits, metaUint, metaFloat in E.
    cbn [snd] in E. destruct (meta d !! metaTotalBurnedUnits) as [[n|x|s]|]; cbn in E |- *; try done;
      destruct (Z.eqb_spec n 0); [done|lia]. }
  assert (O : ∀ k f, bool_decide (k ∈ [metaSUPTotalBurnedUnits; metaOrderEscrowUnits]) = true → metaUint d' k f = metaUint d k f).
  { intros k f Hk%bool_decide_eq_true. apply metaUint_at. subst d'. cbn [meta ups_meta set_meta].
    apply elem_of_cons in Hk as [->|[->|Hk%not_elem_of_nil]%elem_of_cons]; [..|done]; by rewrite !lookup_insert_ne by discriminate. }
  assert (ledger_inv d' ∧ ledger_total d' = ledger_total d ∧ escrow_sup_total d' = escrow_sup_total d) as (L' & T' & U').
  { apply ledger_frame; [exact L|reflexivity..|exact B|by apply O|by apply O|]. apply L. }
  split; [exact L'|]. split; [exact T'|]. split; [exact U'|]. split; [exact N|reflexivity].
Qed.

(** The importer's credit of [a] units and its booking. *)
Lemma credit_mint_ledger addr m a d u v d1 d' : ledger_inv d → trim_space addr ≠ "" → 0 < a → 0 ≤ m → m + a < two64 →
  ledger_total d + a < two63 → creditUnits addr a d = Ok (u, d1) → book_mint m a (burned_units d) d1 = Ok (v, d') →
  ledger_inv d' ∧ ledger_total d' = ledger_total d + a ∧ escrow_sup_total d' = escrow_sup_total d ∧
  minted_units d' = m + a ∧ (∀ g, hmc_free g → col_effect g d d' (λ _, 0) 0).
Proof.
  intros L Ha Hp Hm Hs Ht Gc Gb. pose proof L as [I K C T]. pose proof (order_escrow_range d L) as Ho.
  pose proof (escrow_rows_nonneg d I) as Hr. pose proof (ei_burned d I) as Hb. unfold ledger_total, escrow_total in Ht.
  destruct u. pose proof (creditUnits_spec addr a d d1 (ei_wallet d I) (ei_ok d I) ltac:(lia) ltac:(lia) Ha Gc) as M.
  pose proof (flow_moved d d1 _ a M) as F.
  destruct (flow_inv d d1 a 0 I F ltac:(lia) ltac:(unfold escrow_total; lia)) as [I1 T1].
  assert (O1 : order_escrow d1 = order_escrow d) by (by eapply flow_order_escrow).
  assert (K1 : tasks d1 = tasks d) by (by eapply flow_tasks).
  assert (L1 : ledger_inv d1).
  { split; [done|unfold tasks_ok; by rewrite K1|by rewrite O1, K1|unfold ledger_total, escrow_total in *; lia]. }
  assert (B1 : burned_units d1 = burned_units d) by (rewrite (fl_burn _ _ _ _ F); lia).
  rewrite <- B1 in Gb. destruct (book_mint_ledger m a d1 v d' L1 Hm Hp Hs Gb) as (L2 & T2 & U2 & N2 & A2).
  split; [done|]. split; [unfold ledger_total in *; lia|]. split; [rewrite U2; apply (fl_sup _ _ _ _ F)|]. split; [done|].
  intros g Hg. destruct (mv_free _ _ _ _ M g Hg) as [X Y]. split; [intros b; by rewrite A2|]. unfold acct_sum in *. by rewrite A2.
Qed.

(** What the producer mints, as the importer's credit and booking. *)
Lemma mint_producer_cases `{ChainParams} w i c m bu d u d' : wallet_ok d → accounts_ok d → wallet d = Some w → 0 ≤ c →
  mint_producer i c m bu d = Ok (u, d') →
  let a := allowed_units i c m in
  (a = 0 ∧ d' = d) ∨
  (0 < a < two63 ∧ ∃ d1, creditUnits (w_address w) a d = Ok (tt, d1) ∧ book_mint m a bu d1 = Ok (u, d')).
Proof.
  intros Hw Hok Ew Hc G a. pose proof (allowed_units_nonneg i c m Hc) as Ha. fold a in Ha.
  pose proof Hw as (w0 & Ew0 & Tw & Nw & _). rewrite Ew in Ew0. injection Ew0 as <-.
  unfold mint_producer in G. unfold wallet_row in G. rewrite (bind_run _ _ d w d) in G by (unfold bind, get; by rewrite Ew).
  cbv zeta in G. fold a in G. rewrite Tw in G. destruct (String.eqb_spec (w_address w) ""); [done|].
  destruct (Z.ltb_spec 0 a); [|left; inv_tx G; split; [lia|done]]. right.
  apply bind_ok in G as ([] & d0 & G0 & G). pose proof G0 as G0'. unfold sql_u64 in G0'. apply guard_ok in G0' as [E ->].
  assert (a < two63) by (apply andb_true_iff in E as [_ E]; by apply Z.ltb_lt in E).
  apply bind_ok in G as ([] & d1 & G1 & G). apply bind_ok in G as ([] & d2 & G2 & G). split; [lia|]. exists d2.
  split; [|exact G]. refine (producer_credit w (w_address w) _ d tt d2 Hw Hok Ew eq_refl _ _); [lia|].
  apply bind_ok. exists tt, d. split; [exact G0|]. apply bind_ok. exists tt, d1. by split.
Qed.

Lemma mint_producer_importer `{ChainParams} w b c m bu d u d' : wallet_ok d → accounts_ok d → wallet d = Some w → 0 ≤ c →
  (EconomicsV2ActiveForIndex (b_Index b) = true → b_RewardTo b = w_address w) →
  mint_producer (b_Index b) c m bu d = Ok (u, d') → mint_importer b c m bu d = Ok (u, d').
Proof.
  intros Hw Hok Ew Hc Hr G. pose proof Hw as (w0 & Ew0 & Tw & Nw & _). rewrite Ew in Ew0. injection Ew0 as <-.
  pose proof (mint_producer_cases w (b_Index b) c m bu d u d' Hw Hok Ew Hc G) as C. cbv zeta in C.
  unfold mint_importer. set (addr := if negb _ then _ else _).
  assert (addr d = Ok (w_address w, d)) as Ea.
  { subst addr. destruct (EconomicsV2ActiveForIndex (b_Index b)); cbn [negb]; [by rewrite Hr|].
    unfold wallet_row, bind, get, ret. by rewrite Ew. }
  rewrite (bind_run addr _ d _ d Ea). cbv zeta. rewrite Tw. destruct (String.eqb_spec (w_address w) ""); [done|].
  destruct C as [[-> ->]|(Ha & d1 & C1 & C2)]; [by destruct u|].
  destruct (Z.ltb_spec 0 (allowed_units (b_Index b) c m)); [|lia]. by rewrite (bind_run _ _ _ _ _ C1).
Qed.

Lemma col_effect_id g d : col_effect g d d (λ _, 0) 0.
Proof. by apply col_effect_none. Qed.

Lemma mint_producer_ledger `{ChainParams} i c d u d' : ledger_inv d → 0 ≤ c → 0 ≤ minted_units d →
  let a := allowed_units i c (minted_units d) in
  minted_units d + a < two64 → ledger_total d + a < two63 →
  mint_producer i c (minted_units d) (burned_units d) d = Ok (u, d') →
  ledger_inv d' ∧ ledger_total d' = ledger_total d + a ∧ escrow_sup_total d' = escrow_sup_total d ∧
  minted_units d' = minted_units d + a ∧ (∀ g, hmc_free g → col_effect g d d' (λ _, 0) 0).
Proof.
  intros L Hc Hm a Hs Ht G. pose proof L as [I _ _ _]. pose proof (ei_wallet d I) as (w & Ew & Tw & Nw & _).
  destruct (mint_producer_cases w i c (minted_units d) (burned_units d) d u d' (ei_wallet d I) (ei_ok d I) Ew Hc G)
    as [[E ->]|(Ha & d1 & C1 & C2)].
  - fold a in E. rewrite E, !Z.add_0_r. split; [done|]. split; [done|]. split; [done|]. split; [done|].
    intros g _. apply col_effect_id.
  - fold a in Ha, C1, C2. exact (credit_mint_ledger (w_address w) (minted_units d) a d tt u d1 d' L ltac:(by rewrite Tw) ltac:(lia) Hm Hs Ht C1 C2).
Qed.

(** ** The SUP emission *)

Lemma sup_emission_ledger `{ChainParams} i addr d u d' : ledger_inv d →
  escrow_sup_total d + SUPToUnits (SUPRewardForBlockIndex i) < two63 →
  mintEmptyBlockSUPTx i "" addr d = Ok (u, d') →
  ledger_inv d' ∧ ledger_total d' = ledger_total d ∧ minted_units d' = minted_units d ∧
  (∀ g, lane_free sup_lane g → g empty_account = 0 → col_effect g d d' (λ _, 0) 0).
Proof.
  intros L Hs G. unfold mintEmptyBlockSUPTx in G.
  assert (Same : d' = d → ledger_inv d' ∧ ledger_total d' = ledger_total d ∧ minted_units d' = minted_units d ∧
    (∀ g, lane_free sup_lane g → g empty_account = 0 → col_effect g d d' (λ _, 0) 0)).
  { intros ->. split; [done|]. split; [done|]. split; [done|]. intros g _ _. apply col_effect_id. }
  destruct (_ || _); [apply Same; by inv_tx G|]. cbv zeta in G. destruct (f_leb _ _); [apply Same; by inv_tx G|].
  destruct (SUPToUnits _ =? 0); [apply Same; by inv_tx G|]. destruct (_ || _); [done|].
  apply bind_ok in G as (? & ? & [-> ->]%get_ok & G).
  match type of G with (if ?c then _ else _) _ = _ => destruct c end; [apply Same; by inv_tx G|].
  match type of G with (if ?c then _ else _) _ = _ => destruct c eqn:Ez end; [apply Same; by inv_tx G|]. clear Same.
  match type of G with bind (lane_credit _ _ ?x) _ _ = _ => set (amt := x) in * end.
  assert (Hamt : amt ≤ SUPToUnits (SUPRewardForBlockIndex i)).
  { subst amt. match goal with |- context [if ?x <? ?y then _ else _] => destruct (Z.ltb_spec x y) end; lia. }
  apply bind_ok in G as ([] & d1 & G1 & G). pose proof G1 as Gq. unfold lane_credit in Gq.
  apply bind_ok in Gq as (? & ? & Gq & _). unfold sql_u64 in Gq. apply guard_ok in Gq as [Er _]. b2p.
  pose proof L as [I K C T]. pose proof (ei_sup d I) as [S1 S2]. unfold escrow_sup_total in Hs, S2.
  destruct (lane_credit_spec sup_lane (trim_space addr) amt d d1 ltac:(lia) (ei_ok d I)
    ltac:(change (acct_sum (l_bal sup_lane) d) with (sup_sum d); lia) G1) as (E & O & _ & A & M & W).
  apply (lane_credit_kept [metaSUPTotalMintedUnits]) in G1. inv_tx G. set (d' := ups_meta _ _ d1).
  assert (K1 : kept [metaSUPTotalMintedUnits] d d') by (apply kept_ups_meta; done).
  assert (MK : ∀ k, k ≠ metaSUPTotalMintedUnits → meta d' !! k = meta d !! k).
  { intros k Hk. subst d'. cbn. by rewrite lookup_insert_ne, M by done. }
    assert (O' : ∀ g, lane_free sup_lane g → g empty_account = 0 → col_effect g d d' (λ _, 0) 0).
  { intros g Hg Hz. destruct (O g Hg Hz) as [X Y]. by split. }
  destruct (side_ledger [metaSUPTotalMintedUnits] d d' L K1) as [L' T']; try done; [by apply O'|..].
  { intros k Hk. apply MK. intros ->. by apply (bool_decide_unpack (metaSUPTotalMintedUnits ∉ ledger_keys)) in Hk. }
  { assert (supTotalBurnedUnits d' = supTotalBurnedUnits d) as Eq by (apply metaUint_at; by apply MK).
    unfold escrow_sup_total. rewrite Eq. change (sup_sum d') with (acct_sum (l_bal sup_lane) d1).
    rewrite (ce_sum _ _ _ _ _ E). change (acct_sum (l_bal sup_lane) d) with (sup_sum d). lia. }
  split; [done|]. split; [done|]. split; [|exact O'].
  apply minted_at; by apply MK.
Qed.

(** * Pending transfers

    A view that the writes of a lane cannot reach is the same after the batch. *)

(** Writes of the HMC lane. *)
Class HmcView {T} (v : DB → T) := {
  hv_debit : ∀ n x a d, v (upd_account (λ y, set_nonce n (set_hmc x y)) a d) = v d;
  hv_to : ∀ x n a d, v (ups_account (mkAccount x n 0 0 0 0) (set_hmc x) a d) = v d;
  hv_credit : ∀ x a d, v (ups_account (mkAccount x 0 0 0 0 0) (λ y, set_hmc (balance_units y + x) y) a d) = v d;
  hv_wallet : ∀ f d, v (upd_wallet f d) = v d;
  hv_burn : ∀ k x d, bool_decide (k ∈ [metaTotalBurnedUnits; metaTotalBurnedHMC; metaTotalMintedHMC]) = true → v (ups_meta k x d) = v d;
  hv_bind : ∀ a r d, v (bind_row a r d) = v d;
  hv_pool : ∀ x d, v (set_tx_pool x d) = v d;
  hv_hist : ∀ x d, v (set_tx_history x d) = v d;
}.

Lemma iter_view {T} (v : DB → T) {A} (f : A → tx DB unit) l d u d' :
  (∀ x d u d', f x d = Ok (u, d') → v d' = v d) → iter_tx f l d = Ok (u, d') → v d' = v d.
Proof.
  intros Hf. apply (iter_tx_inv (λ s, v s = v d)); [|done]. intros x s s' w _ Hs Hx. rewrite <- Hs. by eapply Hf.
Qed.

Lemma apply_transfer_view {T} (v : DB → T) `{!HmcView v} `{ChainParams} `{Crypto} now idx bh w item d u d' :
  apply_transfer now idx bh w item d = Ok (u, d') → v d' = v d.
Proof.
  unfold apply_transfer. intros G. apply bind_ok in G as (? & ? & [-> ->]%get_ok & G). cbv zeta in G.
  destruct (String.eqb _ "internal_error"); [by inv_tx G|].
  destruct (negb _); [unfold reject_transfer, delete_pool in G; inv_tx G; by rewrite hv_pool, hv_hist|].
  apply bind_ok in G as (? & d1 & G1 & G). unfold move_hmc in G1. cbv zeta in G1.
  apply bind_ok in G1 as (? & d2 & G2 & G1). apply bind_ok in G1 as (? & d3 & G3 & G1). apply bind_ok in G1 as (? & d4 & G4 & G1).
  assert (v d2 = v d) as <-.
  { unfold debit_credit in G2. inv_tx G2; rewrite hv_to, hv_debit; done. }
  assert (v d3 = v d2) as <-.
  { unfold pay_dev_fee in G3. inv_tx G3; rewrite ?hv_wallet, ?hv_credit; done. }
  assert (v d4 = v d3) as <-.
  { unfold burn_fee in G4. inv_tx G4; rewrite ?hv_burn; done. }
  assert (v d1 = v d4) as <-.
  { unfold mirror_wallet in G1. inv_tx G1; rewrite ?hv_wallet; done. }
  unfold bindPubKeyQ, delete_pool in G. inv_tx G; by rewrite hv_pool, ?hv_bind, hv_hist.
Qed.

Lemma applyPendingTransfers_view {T} (v : DB → T) `{!HmcView v} `{ChainParams} `{Crypto} now idx bh d u d' :
  applyPendingTransfers now idx bh d = Ok (u, d') → v d' = v d.
Proof.
  unfold applyPendingTransfers. intros G. apply bind_ok in G as (? & ? & [-> ->]%get_ok & G).
  apply bind_ok in G as (w & d1 & G1 & G). inv_tx G1. eapply iter_view; [|exact G]. intros x s y s'. by apply apply_transfer_view.
Qed.

(** Writes of a side lane. *)
Class LaneView {T} (L : Lane) (v : DB → T) := {
  lv_accounts : ∀ x d, v (set_accounts x d) = v d;
  lv_keys : ∀ x d, v (set_pubkeys x d) = v d;
  lv_pool : ∀ x d, v (l_set_pool L x d) = v d;
  lv_hist : ∀ x d, v (l_set_hist L x d) = v d;
  lv_burn : ∀ x d u d', l_burn L x d = Ok (u, d') → v d' = v d;
}.

Lemma lv_upd {T} L (v : DB → T) `{!LaneView L v} f a d : v (upd_account f a d) = v d.
Proof. unfold upd_account. case_match; [apply lv_accounts|done]. Qed.
Lemma lane_credit_view {T} L (v : DB → T) `{!LaneView L v} a x d u d' : lane_credit L a x d = Ok (u, d') → v d' = v d.
Proof. unfold lane_credit. intros G. inv_tx G. apply lv_accounts. Qed.

Lemma lane_move_view {T} L (v : DB → T) `{!LaneView L v} fee t fa d u d' :
  lane_move L fee t fa d = Ok (u, d') → v d' = v d.
Proof.
  unfold lane_move. cbv zeta. intros G. step G G1. inv_tx G1. step G G1. inv_tx G1. step G G1. inv_tx G1.
  apply bind_ok in G as (? & d2 & G2 & G). apply bind_ok in G as (? & d3 & G3 & G). rewrite (lv_burn (v:=v) _ _ _ _ G).
  transitivity (v d2).
  - match type of G3 with (if ?b then _ else _) _ = _ => destruct b end; [by eapply (lane_credit_view L v)|by inv_tx G3].
  - match type of G2 with _ ?s = _ => transitivity (v s) end; [|apply (lv_upd L v)].
    destruct (negb _); [by eapply (lane_credit_view L v)|by inv_tx G2].
Qed.

Lemma lane_apply_view {T} L (v : DB → T) `{!LaneView L v} `{ChainParams} `{Crypto} now idx bh fee item d u d' :
  lane_apply L now idx bh fee item d = Ok (u, d') → v d' = v d.
Proof.
  unfold lane_apply. intros G. apply bind_ok in G as (? & ? & [-> ->]%get_ok & G). cbv zeta in G.
  destruct (String.eqb _ "internal_error"); [by inv_tx G|].
  destruct (negb _); [unfold lane_reject, lane_delete_pool in G; inv_tx G; by rewrite (lv_pool (L:=L) (v:=v)), (lv_hist (L:=L) (v:=v))|].
  destruct (accounts d !! _) as [fa|]; [|by inv_tx G].
  apply bind_ok in G as (? & d1 & G1 & G). rewrite <- (lane_move_view L v _ _ _ _ _ _ G1).
  unfold bindPubKeyQ, lane_delete_pool in G. inv_tx G; rewrite (lv_pool (L:=L) (v:=v)); [by rewrite (lv_hist (L:=L) (v:=v))|].
  unfold bind_row. case_match; rewrite ?(lv_keys (L:=L) (v:=v)); by rewrite (lv_hist (L:=L) (v:=v)).
Qed.

Lemma lane_apply_pending_view {T} L (v : DB → T) `{!LaneView L v} `{ChainParams} `{Crypto} limit now idx bh fee d u d' :
  lane_apply_pending L limit now idx bh fee d = Ok (u, d') → v d' = v d.
Proof.
  unfold lane_apply_pending. intros G. apply bind_ok in G as (? & ? & [-> ->]%get_ok & G).
  eapply iter_view; [|exact G]. intros x s y s'. by apply (lane_apply_view L v).
Qed.

(** What the three batches start from. *)
Record pools_ready (d : DB) : Prop := {
  pl_hmc : ∀ p, p ∈ tx_pool d → tx_typed (p_tx p);
  pl_sup : ∀ p, p ∈ sup_tx_pool d → tx_typed (p_tx p);
  pl_hms : ∀ p, p ∈ hms_tx_pool d → tx_typed (p_tx p);
  pl_nonce : ∀ b, mval next_nonce (accounts d) b + DefaultTransferMaxBatch < two63;
  pl_sup_nonce : ∀ b, mval sup_next_nonce (accounts d) b + DefaultSUPTransferMaxBatch < two63;
  pl_hms_nonce : ∀ b, mval hms_next_nonce (accounts d) b + DefaultHMSTransferMaxBatch < two63;
  pl_hms_supply : lane_supply hms_lane d;
}.

(** Everything [pools_ready] reads. *)
Record pools_same (d d' : DB) : Prop := {
  ps_pools : (tx_pool d', sup_tx_pool d', hms_tx_pool d') = (tx_pool d, sup_tx_pool d, hms_tx_pool d);
  ps_cols : ∀ g, g ∈ [next_nonce; sup_next_nonce; hms_next_nonce] → ∀ b, mval g (accounts d') b = mval g (accounts d) b;
  ps_hms : hms_sum d' = hms_sum d;
  ps_burn : meta d' !! metaHMSTotalBurnedUnits = meta d !! metaHMSTotalBurnedUnits;
}.

#[global] Instance pools_same_refl : Reflexive pools_same.
Proof. by split. Qed.
#[global] Instance pools_same_trans : Transitive pools_same.
Proof.
  intros d1 d2 d3 [A B C D] [A2 B2 C2 D2]. split; [congruence| |congruence|congruence].
  intros g Hg b. by rewrite B2, B.
Qed.

Lemma pools_same_ready d d' : pools_same d d' → pools_ready d → pools_ready d'.
Proof.
  intros [A B C D] [R1 R2 R3 R4 R5 R6 [R7 R8]]. injection A as A1 A2 A3.
  split; rewrite ?A1, ?A2, ?A3; try done; try (intros b; rewrite B by (apply list_elem_of_In; cbn; tauto); done).
  assert (E : l_burned hms_lane d' = l_burned hms_lane d) by (cbn; unfold hmsTotalBurnedUnits; by apply metaUint_at).
  split; rewrite E; [done|]. change (acct_sum (l_bal hms_lane) d') with (hms_sum d'). by rewrite C.
Qed.

(** Steps that write neither accounts nor pools. *)
Lemma pools_same_tables d d' : accounts d' = accounts d →
  (tx_pool d', sup_tx_pool d', hms_tx_pool d') = (tx_pool d, sup_tx_pool d, hms_tx_pool d) →
  meta d' !! metaHMSTotalBurnedUnits = meta d !! metaHMSTotalBurnedUnits → pools_same d d'.
Proof. intros A P M. split; [done|by rewrite A|unfold acct_sum; by rewrite A|done]. Qed.

Lemma pools_same_meta k v d : bool_decide (k = metaHMSTotalBurnedUnits) = false → pools_same d (ups_meta k v d).
Proof. intros Hk%bool_decide_eq_false. apply pools_same_tables; [done|done|]. cbn. by rewrite lookup_insert_ne. Qed.

Lemma pools_same_moved d d' δ s : moved d d' δ s → pools_same d d'.
Proof.
  intros M. pose proof (mv_rest _ _ _ _ M) as E. split; [by rewrite E| | |by rewrite E].
  - intros g Hg b. destruct (mv_free _ _ _ _ M g) as [X _]; [|rewrite X; lia].
    repeat (apply elem_of_cons in Hg as [->|Hg]; [by split|]). by apply not_elem_of_nil in Hg.
  - destruct (mv_free _ _ _ _ M balance_hms_units) as [_ X]; [by split|]. unfold acct_sum in *. lia.
Qed.

(** ** The HMC batch *)

(** A column the HMC lane does not write. *)
Lemma upd_account_col g f a d b : (∀ x, g (f x) = g x) → mval g (accounts (upd_account f a d)) b = mval g (accounts d) b.
Proof.
  intros Hg. unfold upd_account, mval. destruct (accounts d !! a) as [x|] eqn:E; [|done]. cbn.
  destruct (decide (a = b)) as [->|Hne]; [by rewrite lookup_insert_eq, E, Hg|by rewrite lookup_insert_ne].
Qed.
Lemma ups_account_col g i f a d b : g i = 0 → (∀ x, g (f x) = g x) →
  mval g (accounts (ups_account i f a d)) b = mval g (accounts d) b.
Proof.
  intros Hi Hg. unfold ups_account, mval. cbn.
  destruct (decide (a = b)) as [->|Hne]; [rewrite lookup_insert_eq|by rewrite lookup_insert_ne].
  destruct (accounts d !! b); [by rewrite Hg|done].
Qed.

#[global] Instance hmc_view_sup_pool : HmcView sup_tx_pool.
Proof. split; intros; unfold upd_account, upd_wallet, bind_row; repeat case_match; done. Qed.
#[global] Instance hmc_view_hms_pool : HmcView hms_tx_pool.
Proof. split; intros; unfold upd_account, upd_wallet, bind_row; repeat case_match; done. Qed.

Lemma hmc_view_col g b : (∀ v a, g (set_hmc v a) = g a) → (∀ v a, g (set_nonce v a) = g a) →
  (∀ x n, g (mkAccount x n 0 0 0 0) = 0) → HmcView (λ d, mval g (accounts d) b).
Proof.
  intros H1 H2 H3. split; intros; try done.
  - apply upd_account_col. intros y. by rewrite H2, H1.
  - by apply ups_account_col.
  - by apply ups_account_col.
  - unfold upd_wallet. by case_match.
  - unfold bind_row. by case_match.
Qed.

Lemma hmc_view_meta k : bool_decide (k ∈ [metaTotalBurnedUnits; metaTotalBurnedHMC; metaTotalMintedHMC]) = false → HmcView (λ d, meta d !! k).
Proof.
  intros Hk%bool_decide_eq_false. split; intros; try done; try (by unfold upd_account, upd_wallet, bind_row; case_match).
  cbn. rewrite lookup_insert_ne; [done|]. intros ->. apply Hk. by apply bool_decide_eq_true in H.
Qed.

(** ** The side batches *)

#[global] Instance sup_view_meta : LaneView sup_lane meta.
Proof. split; try done. by intros x d u d' [_ ->]%ret_ok. Qed.
#[global] Instance sup_view_wallet : LaneView sup_lane wallet.
Proof. split; try done. by intros x d u d' [_ ->]%ret_ok. Qed.
#[global] Instance sup_view_hms_pool : LaneView sup_lane hms_tx_pool.
Proof. split; try done. by intros x d u d' [_ ->]%ret_ok. Qed.
#[global] Instance hms_view_wallet : LaneView hms_lane wallet.
Proof. split; try done. intros x d u d' G. cbn in G. unfold hms_burn_fee in G. by inv_tx G. Qed.

Section batches.
Context `{ChainParams} `{Crypto} (anow idx : Z) (bh : string) (Hi : 0 ≤ idx < two63).

Lemma hmc_batch_ledger d : ledger_inv d → pools_ready d →
  ∃ d', applyPendingTransfers anow idx bh d = Ok (tt, d') ∧ ledger_inv d' ∧ ledger_total d' = ledger_total d ∧
    escrow_sup_total d' = escrow_sup_total d ∧ lane_ready sup_lane DefaultSUPTransferMaxBatch d' ∧
    lane_ready hms_lane DefaultHMSTransferMaxBatch d'.
Proof using Hi.
  intros L [R1 R2 R3 R4 R5 R6 [R7 R8]]. pose proof L as [I _ _ T]. pose proof I as [I1 I2 I3 I4 I5 I6 I7 [I8 I9]].
  pose proof (order_escrow_range d L). pose proof (escrow_rows_nonneg d I).
  destruct (applyPendingTransfers_run anow idx bh d) as (w & d' & _ & E & [Ok Sup Mi _] & S & Su & Hs & B); [|done|].
  { split; [done|]. split; [split; [done|unfold escrow_total in I7; lia]|]. split; [done|].
    split; [by destruct I2 as (w & -> & _)|done]. }
  pose proof (applyPendingTransfers_kept anow idx bh d tt d' E) as K.
  assert (SB : supTotalBurnedUnits d' = supTotalBurnedUnits d).
  { apply metaUint_at. pose proof (hmc_view_meta metaSUPTotalBurnedUnits eq_refl).
    by apply (applyPendingTransfers_view (λ d, meta d !! metaSUPTotalBurnedUnits) anow idx bh d tt d'). }
  exists d'. split; [done|].
  assert (U : escrow_sup_total d' = escrow_sup_total d) by (unfold escrow_sup_total; lia).
  destruct (ledger_move apply_keys d d' L K eq_refl Ok Mi S) as [L' T']; [lia|lia|lia|].
  split; [done|]. split; [done|]. split; [done|].
  assert (HB : l_burned hms_lane d' = l_burned hms_lane d).
  { cbn. unfold hmsTotalBurnedUnits. apply metaUint_at. pose proof (hmc_view_meta metaHMSTotalBurnedUnits eq_refl).
    by apply (applyPendingTransfers_view (λ d, meta d !! metaHMSTotalBurnedUnits) anow idx bh d tt d'). }
  assert (C : ∀ g b, (∀ v a, g (set_hmc v a) = g a) → (∀ v a, g (set_nonce v a) = g a) → (∀ x n, g (mkAccount x n 0 0 0 0) = 0) →
    mval g (accounts d') b = mval g (accounts d) b).
  { intros g b G1 G2 G3. pose proof (hmc_view_col g b G1 G2 G3) as V.
    by apply (applyPendingTransfers_view (λ d, mval g (accounts d) b) anow idx bh d tt d'). }
  split; (split; [done|]).
  - split; [split; cbn; [unfold supTotalBurnedUnits in *; lia|]|].
    + change (sup_sum d' + supTotalBurnedUnits d' < two63). unfold escrow_sup_total in *. lia.
    + split; [done|]. cbn. split; [by rewrite (applyPendingTransfers_view sup_tx_pool anow idx bh d tt d' E)|].
      intros b. by rewrite C.
  - split; [split; rewrite HB; [done|]|].
    + change (hms_sum d' + l_burned hms_lane d < two63). by rewrite Hs.
    + split; [done|]. cbn. split; [by rewrite (applyPendingTransfers_view hms_tx_pool anow idx bh d tt d' E)|].
      intros b. by rewrite C.
Qed.

Lemma sup_batch_ledger d : ledger_inv d → lane_ready sup_lane DefaultSUPTransferMaxBatch d →
  lane_ready hms_lane DefaultHMSTransferMaxBatch d →
  ∃ d', applyPendingSupTransfers anow idx bh d = Ok (tt, d') ∧ ledger_inv d' ∧ ledger_total d' = ledger_total d ∧
    escrow_sup_total d' ≤ escrow_sup_total d ∧ lane_ready hms_lane DefaultHMSTransferMaxBatch d'.
Proof using Hi.
  intros L R (_ & Rs & _ & Rt & Rn). pose proof L as [I _ _ _]. pose proof I as [I1 I2 I3 I4 I5 I6 I7 [I8 I9]].
  destruct (lane_apply_pending_spec sup_lane anow idx bh DevFeeAddress Hi ltac:(done) _ d R) as (d' & B & E & [S1 S2 S3 S4 S5 S6 S7]).
  exists d'. split; [exact E|].
  pose proof (lane_apply_pending_view sup_lane meta _ _ _ _ _ _ _ _ E) as M.
  pose proof (lane_apply_pending_view sup_lane wallet _ _ _ _ _ _ _ _ E) as W.
  assert (U : escrow_sup_total d' ≤ escrow_sup_total d).
  { unfold escrow_sup_total. assert (supTotalBurnedUnits d' = supTotalBurnedUnits d) as -> by (apply metaUint_at; by rewrite M).
    change (sup_sum d' = sup_sum d - B) in S2. lia. }
  destruct (side_ledger apply_keys d d' L) as [L' T']; [by apply (lane_apply_pending_kept sup_lane) in E|done|done|done|by apply S4|intros; by rewrite M|lia|].
  split; [done|]. split; [done|]. split; [done|]. split; [done|]. split.
  - unfold lane_supply in *. assert (l_burned hms_lane d' = l_burned hms_lane d) as -> by (cbn; unfold hmsTotalBurnedUnits; apply metaUint_at; by rewrite M).
    destruct (others_kept_at sup_lane d d' balance_hms_units "" S4 lane_free_sup_hms eq_refl) as [_ X].
    change (acct_sum (l_bal hms_lane) d') with (acct_sum balance_hms_units d'). by rewrite X.
  - split; [done|]. split.
    + cbn. by rewrite (lane_apply_pending_view sup_lane hms_tx_pool _ _ _ _ _ _ _ _ E).
    + intros b. destruct (others_kept_at sup_lane d d' hms_next_nonce b S4) as [X _]; [done|done|].
      change (l_nonce hms_lane) with hms_next_nonce. by rewrite X.
Qed.

Lemma hms_batch_ledger d : ledger_inv d → lane_ready hms_lane DefaultHMSTransferMaxBatch d →
  ∃ d', applyPendingHmsTransfers anow idx bh d = Ok (tt, d') ∧ ledger_inv d' ∧ ledger_total d' = ledger_total d ∧
    escrow_sup_total d' = escrow_sup_total d.
Proof using Hi.
  intros L R. pose proof L as [I _ _ _]. pose proof I as [I1 I2 I3 I4 I5 I6 I7 [I8 I9]].
  unfold applyPendingHmsTransfers. rewrite (bind_run get _ d d d eq_refl).
  destruct (hmsTreasuryAddress d) as [tr|]; [|by exists d].
  destruct (lane_apply_pending_spec hms_lane anow idx bh tr Hi ltac:(done) _ d R) as (d' & B & E & [S1 S2 S3 S4 S5 S6 S7]).
  exists d'. split; [exact E|].
  assert (M : ∀ k, k ∈ ledger_keys → meta d' !! k = meta d !! k).
  { intros k Hk. apply S7. intros ->. by apply (bool_decide_unpack (l_burn_key hms_lane ∉ ledger_keys)) in Hk. }
  assert (U : escrow_sup_total d' = escrow_sup_total d).
  { destruct (ledger_counters d d' M) as (_ & Sb & _). unfold escrow_sup_total. rewrite Sb.
    destruct (others_kept_at hms_lane d d' balance_sup_units "" S4 lane_free_hms_sup eq_refl) as [_ X].
    change (sup_sum d' = sup_sum d) in X. lia. }
  destruct (side_ledger apply_keys d d' L) as [L' T']; [by apply (lane_apply_pending_kept hms_lane) in E| |done|done|by apply S4|done|lia|].
  { by apply (lane_apply_pending_view hms_lane wallet) in E. }
  done.
Qed.

(** The transfers of a block can neither fail nor change what the chain owes in HMC. *)
Lemma apply_pending_ledger d : ledger_inv d → pools_ready d →
  ∃ d', apply_pending anow idx bh d = Ok (tt, d') ∧ ledger_inv d' ∧ ledger_total d' = ledger_total d ∧
    escrow_sup_total d' ≤ escrow_sup_total d.
Proof using Hi.
  intros L R. destruct (hmc_batch_ledger d L R) as (d1 & E1 & L1 & T1 & U1 & Rs & Rh).
  destruct (sup_batch_ledger d1 L1 Rs Rh) as (d2 & E2 & L2 & T2 & U2 & Rh2).
  destruct (hms_batch_ledger d2 L2 Rh2) as (d3 & E3 & L3 & T3 & U3). exists d3.
  unfold apply_pending. rewrite (bind_run _ _ _ _ _ E1), (bind_run _ _ _ _ _ E2), E3.
  split; [done|]. split; [done|]. lia.
Qed.
End batches.

(** * One empty block *)

(** The counter row of minted units; [InitGenesis] makes it positive. *)
Definition booked (d : DB) : Z := metaUint d metaTotalMintedUnits 0.
Lemma minted_booked d : 0 < booked d → minted_units d = booked d.
Proof.
  unfold minted_units, econTotalsUnits. cbn [fst]. intros Hb.
  assert (∀ f, metaUint d metaTotalMintedUnits f = booked d) as E.
  { intros f. unfold booked, metaUint in *. repeat case_match; try done; lia. }
  rewrite E. destruct (Z.eqb_spec (booked d) 0); [lia|done].
Qed.
Lemma booked_kept K d d' : kept K d d' → bool_decide (metaTotalMintedUnits ∈ K) = false → booked d' = booked d.
Proof. intros [_ M _ _] Hk%bool_decide_eq_false. apply metaUint_at. by apply M. Qed.

Definition pools (d : DB) := (tx_pool d, sup_tx_pool d, hms_tx_pool d).
Lemma pools_same_kept K d d' : kept K d d' → bool_decide (metaHMSTotalBurnedUnits ∈ K) = false → pools d' = pools d →
  (∀ g, g ∈ [next_nonce; sup_next_nonce; hms_next_nonce] → ∀ b, mval g (accounts d') b = mval g (accounts d) b) →
  hms_sum d' = hms_sum d → pools_same d d'.
Proof. intros [_ M _ _] Hk%bool_decide_eq_false P C S. split; try done. by apply M. Qed.

Lemma nonce_cols_free g : g ∈ [next_nonce; sup_next_nonce; hms_next_nonce] → hmc_free g ∧ (∀ v x, g (set_sup v x) = g x).
Proof. intros Hg. repeat (apply elem_of_cons in Hg as [->|Hg]; [by split|]). by apply not_elem_of_nil in Hg. Qed.

Lemma creditUnits_pools a v d u d' : creditUnits a v d = Ok (u, d') → pools d' = pools d.
Proof.
  unfold creditUnits. cbv zeta. intros G. destruct (_ || _); [by inv_tx G|]. step G G0.
  inv_tx G; unfold pools, upd_wallet; repeat case_match; reflexivity.
Qed.
Lemma book_mint_pools m a b d u d' : book_mint m a b d = Ok (u, d') → pools d' = pools d ∧ accounts d' = accounts d ∧ booked d' = u64 (m + a).
Proof.
  unfold book_mint. intros G. inv_tx G. split; [done|]. split; [done|]. unfold booked, metaUint. cbn [meta ups_meta set_meta].
  rewrite lookup_insert_ne by discriminate. rewrite lookup_insert_ne by discriminate. by rewrite lookup_insert_eq.
Qed.

(** ** The reward *)

(** [c] units of subsidy, as far as the supply rule allows, credited and booked. *)
Definition credited `{ChainParams} (i c : Z) (d d' : DB) : Prop :=
  let a := allowed_units i c (minted_units d) in
  (a = 0 ∧ d' = d) ∨
  (0 < a ∧ ∃ addr d1, trim_space addr ≠ "" ∧ creditUnits addr a d = Ok (tt, d1) ∧
     book_mint (minted_units d) a (burned_units d) d1 = Ok (tt, d')).

Lemma mint_producer_credited `{ChainParams} i c d u d' : ledger_inv d → 0 ≤ c →
  mint_producer i c (minted_units d) (burned_units d) d = Ok (u, d') → credited i c d d'.
Proof.
  intros L Hc G. pose proof (li_escrow d L) as I. pose proof (ei_wallet d I) as (w & Ew & Tw & Nw & _).
  destruct (mint_producer_cases w i c _ _ d u d' (ei_wallet d I) (ei_ok d I) Ew Hc G) as [?|(Ha & d1 & C1 & C2)]; [by left|].
  right. split; [lia|]. exists (w_address w), d1. destruct u. by rewrite Tw.
Qed.

Lemma mint_importer_credited `{ChainParams} b c d u d' : 0 ≤ c →
  mint_importer b c (minted_units d) (burned_units d) d = Ok (u, d') → credited (b_Index b) c d d'.
Proof.
  intros Hc G. pose proof (allowed_units_nonneg (b_Index b) c (minted_units d) Hc) as Ha. unfold mint_importer in G.
  apply bind_ok in G as (addr & s & G1 & G). assert (s = d) as -> by (destruct (negb _); by inv_tx G1). clear G1. cbv zeta in G.
  destruct (String.eqb_spec (trim_space addr) ""); [done|]. unfold credited. cbv zeta.
  destruct (Z.ltb_spec 0 (allowed_units (b_Index b) c (minted_units d))); [|apply ret_ok in G as [_ ->]; left; split; [lia|done]].
  right. split; [done|]. apply bind_ok in G as ([] & d1 & G1 & G). exists (trim_space addr), d1. destruct u. by rewrite trim_space_idem.
Qed.

Lemma credited_ledger `{ChainParams} i c d d' : ledger_inv d → 0 ≤ c → 0 < booked d →
  let a := allowed_units i c (minted_units d) in
  booked d + a < two64 → ledger_total d + a < two63 → credited i c d d' →
  ledger_inv d' ∧ ledger_total d' = ledger_total d + a ∧ escrow_sup_total d' = escrow_sup_total d ∧
  booked d' = booked d + a ∧ pools_same d d'.
Proof.
  intros L Hc Hb a Hs Ht C. unfold credited in C. fold a in C. rewrite (minted_booked d Hb) in C.
  destruct C as [[E ->]|(Ha & addr & d1 & Na & G1 & G2)]; [rewrite E, !Z.add_0_r; by split_and!|].
  destruct (credit_mint_ledger addr (booked d) a d tt tt d1 d' L Na Ha ltac:(lia) Hs Ht G1 G2) as (L' & T' & U' & N' & F).
  destruct (book_mint_pools _ _ _ _ _ _ G2) as (P2 & A2 & B2). rewrite u64_small in B2 by lia.
  split; [done|]. split; [done|]. split; [done|]. split; [done|].
  apply (pools_same_kept reward_keys); [|done| | |].
  - transitivity d1; [by apply (creditUnits_kept reward_keys) in G1|by apply book_mint_kept in G2].
  - rewrite P2. by apply creditUnits_pools in G1.
  - intros g [Hg _]%nonce_cols_free b. destruct (F g Hg) as [X _]. rewrite X. lia.
  - destruct (F balance_hms_units) as [_ X]; [by split|]. unfold acct_sum in *. lia.
Qed.

(** ** The SUP emission *)
Lemma sup_emission_pools `{ChainParams} i addr d u d' : ledger_inv d →
  escrow_sup_total d + SUPToUnits (SUPRewardForBlockIndex i) < two63 →
  mintEmptyBlockSUPTx i "" addr d = Ok (u, d') →
  ledger_inv d' ∧ ledger_total d' = ledger_total d ∧ booked d' = booked d ∧ pools_same d d'.
Proof.
  intros L Hs G. destruct (sup_emission_ledger i addr d u d' L Hs G) as (L' & T' & _ & F).
  pose proof (mintEmptyBlockSUPTx_kept i "" addr d u d' G) as K.
  assert (X : pools d' = pools d ∧ meta d' !! metaTotalMintedUnits = meta d !! metaTotalMintedUnits ∧
    ∀ g b, g empty_account = 0 → (∀ v x, g (set_sup v x) = g x) → mval g (accounts d') b = mval g (accounts d) b).
  { clear L Hs L' T' F K. unfold mintEmptyBlockSUPTx in G. destruct (_ || _); [by inv_tx G|]. cbv zeta in G.
    destruct (f_leb _ _); [by inv_tx G|]. destruct (SUPToUnits _ =? 0); [by inv_tx G|]. destruct (_ || _); [done|]. step G G0.
    match type of G with (if ?c then _ else _) _ = _ => destruct c end; [by inv_tx G|].
    match type of G with (if ?c then _ else _) _ = _ => destruct c end; [by inv_tx G|].
    apply bind_ok in G as ([] & d1 & G1 & G). unfold lane_credit in G1. inv_tx G1. inv_tx G. split; [done|].
    split; [cbn; by rewrite lookup_insert_ne by discriminate|]. intros g b Hg Hc. apply ups_account_col; [|intros; apply Hc].
    cbn. by rewrite Hc. }
  destruct X as (P & M & C). split; [done|]. split; [done|]. split; [by apply metaUint_at|].
  apply (pools_same_kept reward_keys); [done|done|done| |].
  - intros g Hg b. apply nonce_cols_free in Hg as [[_ H0] Hg]. by apply C.
  - destruct (F balance_hms_units lane_free_sup_hms eq_refl) as [_ X]. unfold acct_sum in *. lia.
Qed.
