(* ===== verification/ChainViews.v ===== *)
(** Reading the chain, the wallet mirror, and the pool's empty-block solve.

    Sources: internal/chain/service.go (HasGenesis, Wallet, MirrorWalletRowFromAccounts, Tip,
    TipFast, ListBlocks, ListBlocksFromHeight, AppendMiningReward), economics_runtime.go
    (BaseRewardForNextBlock), consensus_v2.go (NetworkChainID) and poh_baseline_solve.go.  Block
    listings return the stored blocks, which are their JSON. *)
From S2P Require Import Prelude Float64 GoText Params Emission OrderFee Retarget Json GoNum Ledger Address GoSort Transfers Lane SupLedger HmsLedger EscrowSplit FuzzEscrow EscrowInv Orders OrdersInv Block PohPayload Consensus Chain ChainFrame ChainInv ChainLedger.
From stdpp Require Import sorting.
#[local] Open Scope Z_scope.

(** * Reads *)

Definition HasGenesis (d : DB) : bool := bool_decide (is_Some (blocks d !! 0)).

(** Address and units; the account wins over the wallet row. *)
Definition WalletView (d : DB) : string * f64 :=
  match wallet d with
  | None => ("", f_of_Z 0)
  | Some w =>
      let units := match accounts d !! trim_space (w_address w) with
                   | Some a => balance_units a | None => w_units w end in
      (w_address w, UnitsToHMC units)
  end.

(** Height and hash of the last row. *)
Definition TipOf (d : DB) : Z * string :=
  match max_block_index d with
  | None => (0, "")
  | Some i => (i, match blocks d !! i with Some r => row_hash r | None => "" end)
  end.

(** The same from the tip row of [meta]. *)
Definition index_by_hash (d : DB) (h : string) : option Z :=
  fst <$> head (filter (λ p, row_hash p.2 = h) (map_to_list (blocks d))).
Definition TipFast (d : DB) : Z * string :=
  match metaText d metaTipHash with
  | None => (0, "")
  | Some v =>
      let tipHash := trim_space v in
      if String.eqb tipHash "" then (0, "")
      else match index_by_hash d tipHash with
           | None => (0, tipHash)
           | Some i => (i, tipHash)
           end
  end.

Definition BaseRewardForNextBlock `{ChainParams} (d : DB) : f64 := BaseRewardForBlockIndex (u64 ((TipOf d).1 + 1)).

Definition NetworkChainID `{ChainParams} (d : DB) : string := ChainIDForIndex d (nextBlockIndexQ d).

(** [LIMIT ?] after the default and the cap of a listing. *)
Definition list_limit (limit : Z) : nat :=
  let limit := if limit <=? 0 then 20 else limit in
  Z.to_nat (if 500 <? limit then 500 else limit).

(** [ORDER BY block_index]. *)
Definition index_less (p q : Z * BlockRow) : bool := p.1 <? q.1.
Definition rows_asc (d : DB) : list (Z * BlockRow) := sort_stable index_less (map_to_list (blocks d)).

(** The last blocks, oldest first. *)
Definition ListBlocks (limit : Z) (d : DB) : list Block :=
  rev (take (list_limit limit) (rev ((λ p, row_block p.2) <$> rows_asc d))).

(** Blocks from a height on, oldest first. *)
Definition ListBlocksFromHeight (minHeight limit : Z) (d : DB) : result (list Block) :=
  if two63 - 1 <? minHeight then Err "sql: uint64 values with high bit set are not supported"
  else Ok (take (list_limit limit) ((λ p, row_block p.2) <$> filter (λ p, minHeight ≤ p.1) (rows_asc d))).

(** * The wallet row *)

(** Copies the account's balance into the wallet row. *)
Definition MirrorWalletRowFromAccounts : tx DB unit :=
  let* d := get in
  match wallet d with
  | None => ret tt
  | Some w =>
      match accounts d !! trim_space (w_address w) with
      | None => ret tt
      | Some a => sql_u64 (balance_units a) ;;; modify (set_wallet (Some (mkWallet (w_address w) (balance_units a))))
      end
  end.

Definition AppendMiningReward (delta : f64) : tx DB unit :=
  let du := HMCToUnits delta in
  sql_u64 du ;;; update_wallet (λ u, u + du).

(** * The pool's empty-block solve *)

Section solve.
Context `{Crypto} `{PoHHash}.

(** The solve itself; [chainMod] is the modulus [PoHTargetMod] gave. *)
Definition baseline_at (e : Env) (ov : Z) (signer : option Signer) (strict : bool) (now bnow anow : Z)
    (rid minerAddress : string) (nonce : Z) (chainMod : Z) : tx DB Block :=
  let targetMod := ClampPoHTargetMod chainMod in
  let* d := get in
  match metaText d metaTipHash with
  | None => fail ErrNoRows
  | Some tipHash =>
      let* nextIdx := lift (next_index "chain: empty (genesis required)" d) in
      let eval := @PohWorkForIndex (params_of e ov) _ nextIdx nonce tipHash minerAddress in
      if (targetMod =? 0) || negb (eval mod targetMod =? 0) then fail "chain: invalid poh solution for submitted target_mod"
      else AppendPoHBlock e ov signer strict now bnow anow rid minerAddress nonce eval
             (@BaseRewardForNextBlock (params_of e ov) d) targetMod ""
  end.

Definition SubmitBaselinePoHSolve (e : Env) (ov : Z) (signer : option Signer) (strict : bool)
    (now bnow anow : Z) (rid minerAddress : string) (nonce : Z) (d : DB) : result Block * DB :=
  let minerAddress := trim_space minerAddress in
  if String.eqb minerAddress "" then (Err "chain: miner_address required", d)
  else if negb (has_prefix minerAddress "HMC-") then (Err "chain: invalid miner_address", d)
  else
    match @PoHTargetMod (params_of e ov) now d with
    | Err x => (Err x, d)
    | Ok (chainMod, d1) =>
        let solve := baseline_at e ov signer strict now bnow anow rid minerAddress nonce chainMod in
        (outcome solve d1, run solve d1)
    end.
End solve.

(** * Facts *)

Lemma seqZ_sorted m n : StronglySorted Z.le (seqZ m n).
Proof.
  unfold seqZ. generalize (Z.to_nat n) as k. revert m. intros m k.
  generalize 0%nat as j. induction k as [|k IH]; intros j; cbn; constructor; [apply IH|].
  apply list.Forall_forall. intros x Hx. apply list_elem_of_fmap in Hx as (y & -> & Hy%elem_of_seq). lia.
Qed.

(** The indices of a dense chain, in order. *)
Lemma rows_asc_index d n : 0 ≤ n → dense d n → fst <$> rows_asc d = seqZ 0 (n + 1).
Proof.
  intros Hn D. apply (StronglySorted_unique Z.le).
  - unfold rows_asc. pose proof (sort_stable_sorted index_less (λ _, True)) as S.
    assert (StronglySorted (ok_before index_less) (sort_stable index_less (map_to_list (blocks d)))) as S'.
    { apply S; try done; unfold index_less.
      all: try (intros; apply Z.ltb_ge; rewrite ?Z.ltb_lt, ?Z.ltb_ge in *; lia).
      by apply list.Forall_forall. }
    clear S. induction S' as [|x l S IH F]; cbn; constructor; [done|].
    apply list.Forall_forall. intros y Hy. apply list_elem_of_fmap in Hy as (z & -> & Hz).
    rewrite list.Forall_forall in F. specialize (F z Hz). unfold ok_before, index_less in F. apply Z.ltb_ge in F. lia.
  - apply seqZ_sorted.
  - apply NoDup_Permutation.
    + unfold rows_asc. rewrite (fmap_Permutation fst _ _ (sort_stable_perm index_less _)). apply NoDup_fst_map_to_list.
    + apply NoDup_seqZ.
    + intros i. rewrite elem_of_seqZ. rewrite list_elem_of_fmap. split.
      * intros ((j & r) & -> & Hx). unfold rows_asc in Hx. rewrite sort_stable_perm in Hx.
        apply elem_of_map_to_list in Hx. assert (0 ≤ j ≤ n) by (apply D; eauto). cbn. lia.
      * intros Hi. assert (is_Some (blocks d !! i)) as [r Hr] by (apply D; lia). exists (i, r). split; [done|].
        unfold rows_asc. rewrite sort_stable_perm. by apply elem_of_map_to_list.
Qed.

Lemma take_seqZ k m n : take k (seqZ m n) = seqZ m (Z.min (Z.of_nat k) n).
Proof.
  unfold seqZ. rewrite <- fmap_take, take_seq. f_equal. f_equal.
  destruct (Z.le_gt_cases 0 n); [|destruct n; lia]. lia.
Qed.

Lemma filter_all {A} (P : A → Prop) `{!∀ x, Decision (P x)} l : Forall P l → filter P l = l.
Proof. induction 1 as [|x l Hx _ IH]; [done|]. rewrite filter_cons, decide_True by done. by rewrite IH. Qed.
Lemma filter_none {A} (P : A → Prop) `{!∀ x, Decision (P x)} l : Forall (λ x, ¬ P x) l → filter P l = [].
Proof. induction 1 as [|x l Hx _ IH]; [done|]. by rewrite filter_cons, decide_False by done. Qed.

Lemma filter_ge_seqZ h n : 0 ≤ h ≤ n → filter (λ i, h ≤ i) (seqZ 0 n) = seqZ h (n - h).
Proof.
  intros Hh. replace n with (h + (n - h)) at 1 by lia. rewrite seqZ_app by lia. rewrite filter_app.
  rewrite (filter_none _ (seqZ 0 h)), (filter_all _ (seqZ (0 + h) _)); [done|..].
  - apply list.Forall_forall. intros x Hx%elem_of_seqZ. lia.
  - apply list.Forall_forall. intros x Hx%elem_of_seqZ. lia.
Qed.

Lemma fst_filter {A} (P : Z → Prop) `{!∀ i, Decision (P i)} (l : list (Z * A)) :
  fst <$> filter (λ p, P p.1) l = filter P (fst <$> l).
Proof.
  induction l as [|x l IH]; [done|]. rewrite fmap_cons, !filter_cons. destruct (decide (P x.1)); [|done].
  by rewrite fmap_cons, IH.
Qed.

Section facts.
Context `{Crypto} `{PoHHash} (e : Env).

(** Listed blocks carry their row's index. *)
Lemma rows_index d n (l : list (Z * BlockRow)) : chain_ok e d n → (∀ x, x ∈ l → x ∈ rows_asc d) →
  (b_Index ∘ row_block ∘ snd) <$> l = fst <$> l.
Proof.
  intros C Hl. apply list_fmap_ext. intros i [j r] Hx. cbn.
  assert ((j, r) ∈ rows_asc d) as Hin by (apply Hl; by eapply list_elem_of_lookup_2).
  unfold rows_asc in Hin. rewrite sort_stable_perm in Hin. apply elem_of_map_to_list in Hin.
  apply (rw_index _ _ (co_rows _ _ _ C _ _ Hin)).
Qed.

Lemma TipOf_inv d : chain_inv e d → ∃ n r, 0 ≤ n < two63 ∧ chain_ok e d n ∧ blocks d !! n = Some r ∧
  metaText d metaTipHash = Some (row_hash r) ∧ TipOf d = (n, row_hash r).
Proof.
  intros (n & r & Hn & C & Hr & Ht). exists n, r. split_and!; try done; try lia.
  unfold TipOf. rewrite (dense_max d n) by (lia || apply C). by rewrite Hr.
Qed.

Lemma page_index h limit d n : chain_ok e d n → 0 ≤ h ≤ n →
  b_Index <$> take (list_limit limit) ((λ p, row_block p.2) <$> filter (λ p, h ≤ p.1) (rows_asc d))
  = seqZ h (Z.min (Z.of_nat (list_limit limit)) (n + 1 - h)).
Proof.
  intros C Hh. rewrite fmap_take, <- list_fmap_compose.
  change (b_Index ∘ (λ p : Z * BlockRow, row_block p.2)) with (b_Index ∘ row_block ∘ (@snd Z BlockRow)).
  rewrite (rows_index d n) by (done || (intros x Hx; by apply list_elem_of_filter in Hx as [_ Hx])).
  rewrite (fst_filter (λ i, h ≤ i)), (rows_asc_index d n) by (lia || apply C).
  by rewrite filter_ge_seqZ, take_seqZ by lia.
Qed.

Lemma list_limit_range limit : (1 ≤ list_limit limit ≤ 500)%nat.
Proof.
  unfold list_limit. destruct (Z.leb_spec limit 0); [cbn; lia|]. destruct (Z.ltb_spec 500 limit); lia.
Qed.

(** The point lookup finds the last row. *)
Lemma index_by_hash_at d n i r : chain_ok e d n → blocks d !! i = Some r → index_by_hash d (row_hash r) = Some i.
Proof using Type.
  intros C Hr. unfold index_by_hash. destruct (head _) as [[j x]|] eqn:E.
  - apply head_Some_elem_of in E. apply list_elem_of_filter in E as [E1 E2]. apply elem_of_map_to_list in E2.
    cbn. f_equal. by eapply (co_unique _ _ _ C).
  - exfalso. assert ((i, r) ∈ filter (λ p, row_hash p.2 = row_hash r) (map_to_list (blocks d))) as Hin.
    { apply list_elem_of_filter. split; [done|]. by apply elem_of_map_to_list. }
    destruct (filter _ _) as [|y l]; [by apply not_elem_of_nil in Hin|done].
Qed.

Lemma row_hash_plain d n i r : chain_ok e d n → blocks d !! i = Some r →
  trim_space (row_hash r) = row_hash r ∧ row_hash r ≠ "".
Proof using Type.
  intros C Hr. destruct (co_rows _ _ _ C _ _ Hr) as [_ H1 _ H2]. rewrite H1, H2. unfold HeaderHashHex. split.
  - apply trim_space_plain, (all_chars_imp lower_hex_char); [|apply hex_encode_lower].
    by intros [[] [] [] [] [] [] [] []].
  - intros E. assert (String.length (hex_encode (sha256 (headerForHash (row_block r)))) = 0%nat) as L by by rewrite E.
    rewrite hex_encode_length, sha256_length in L. done.
Qed.

Lemma TipFast_TipOf d : chain_inv e d → TipFast d = TipOf d.
Proof using Type.
  intros I. destruct (TipOf_inv d I) as (n & r & Hn & C & Hr & Ht & ->). unfold TipFast. rewrite Ht.
  destruct (row_hash_plain d n n r C Hr) as [-> N]. cbv zeta. destruct (String.eqb_spec (row_hash r) ""); [done|].
  by rewrite (index_by_hash_at d n n r).
Qed.
End facts.
