(* ===== verification/ChainSupply.v ===== *)
(** What one empty block does to the money of the node, mined or imported, and genesis. *)
From S2P Require Import Prelude Float64 GoText Params Emission OrderFee Retarget Json GoNum Ledger Address GoSort Transfers Lane SupLedger HmsLedger EscrowSplit FuzzEscrow EscrowInv Orders OrdersInv Block PohPayload Consensus Chain ChainFrame ChainInv ChainLedger.
#[local] Open Scope Z_scope.

(** * The stages of an empty block *)

Record empty_run `{ChainParams} `{Crypto} (at_ anow : Z) (b : Block) (rw : f64) (nm : Z) (d d1 d2 d3 d4 d5 d6 d' : DB) : Prop := {
  er_expire : ∃ k, expireOpenOrderTasksTx at_ d = Ok (k, d1);
  er_insert : insert_block b d1 = Ok (tt, d2);
  er_tip : update_meta metaTipHash (MStr (b_Hash b)) d2 = Ok (tt, d3);
  er_reward : ledger_inv d3 → if f_ltb (f_of_Z 0) rw then credited (b_Index b) (HMCToUnits rw) d3 d4 else d4 = d3;
  er_sup : ∃ addr, mintEmptyBlockSUPTx (b_Index b) "" addr d4 = Ok (tt, d5);
  er_apply : apply_pending anow (b_Index b) (b_Hash b) d5 = Ok (tt, d6);
  er_mod : d' = ups_meta metaPoHTargetMod (MUint nm) d6;
}.

Lemma commit_block_run `{ChainParams} `{Crypto} strict now anow miner nonce rw b nm d d' :
  commit_block strict now anow miner nonce rw "" b nm d = Ok (tt, d') →
  ∃ d1 d2 d3 d4 d5 d6, empty_run now anow b rw nm d d1 d2 d3 d4 d5 d6 d'.
Proof.
  unfold commit_block. intros G. step G G0. step G Gv.
  apply bind_ok in G as (k & d1 & Ge & G). apply bind_ok in G as ([] & d2 & Gi & G).
  apply bind_ok in G as ([] & ? & [_ <-]%ret_ok & G). apply bind_ok in G as ([] & ? & [_ <-]%ret_ok & G).
  apply bind_ok in G as ([] & d3 & Gu & G). step G G0.
  apply bind_ok in G as ([] & d4 & Gr & G). apply bind_ok in G as ([] & d5 & Gs & G).
  apply bind_ok in G as ([] & d6 & Ga & G). apply bind_ok in G as ([] & d7 & Gm & G).
  apply econ_guard_run in G as [-> _]. apply modify_ok in Gm.
  exists d1, d2, d3, d4, d5, d6. split; [by exists k|done|done| | |done|done].
  - intros L. destruct (f_ltb _ rw); [|by apply ret_ok in Gr as [_ ->]].
    eapply mint_producer_credited; [done|apply HMCToUnits_ge0|exact Gr].
  - change (String.eqb "" "") with true in Gs. cbv iota in Gs. apply bind_ok in Gs as (w & s & Gw & Gs).
    assert (s = d4) as -> by (unfold wallet_row in Gw; by inv_tx Gw). by exists (w_address w).
Qed.

Lemma commit_import_run `{ChainParams} `{Crypto} strict now anow M rw b d d' :
  commit_import strict now anow "" M rw b d = Ok (tt, d') →
  ∃ nm d1 d2 d3 d4 d5 d6, empty_run (if b_Timestamp b <=? 0 then now else b_Timestamp b) anow b rw nm d d1 d2 d3 d4 d5 d6 d'.
Proof.
  unfold commit_import. intros G. step G G0. step G Gv. cbv zeta in G.
  apply bind_ok in G as (k & d1 & Ge & G). apply bind_ok in G as ([] & d2 & Gi & G).
  apply bind_ok in G as ([] & ? & [_ <-]%ret_ok & G). apply bind_ok in G as ([] & ? & [_ <-]%ret_ok & G).
  apply bind_ok in G as ([] & d3 & Gu & G). step G G0.
  apply bind_ok in G as ([] & d4 & Gr & G). apply bind_ok in G as ([] & d5 & Gs & G).
  apply bind_ok in G as ([] & d6 & Ga & G). step G G0. apply bind_ok in G as (nm & s & Gn & G). apply lift_ok in Gn as [_ ->].
  apply bind_ok in G as ([] & d7 & Gm & G). apply econ_guard_run in G as [-> _]. apply modify_ok in Gm.
  exists nm, d1, d2, d3, d4, d5, d6. split; [by exists k|done|done| |by exists (b_RewardTo b)|done|done].
  intros L. destruct (f_ltb _ rw); [|by apply ret_ok in Gr as [_ ->]].
  eapply mint_importer_credited; [apply HMCToUnits_ge0|exact Gr].
Qed.

(** What the block adds to the supply. *)
Definition subsidy `{ChainParams} (i : Z) (rw : f64) (d : DB) : Z :=
  if f_ltb (f_of_Z 0) rw then allowed_units i (HMCToUnits rw) (booked d) else 0.

Lemma prefix_pools at_ b d k d1 d2 d3 : ledger_inv d → expireOpenOrderTasksTx at_ d = Ok (k, d1) →
  insert_block b d1 = Ok (tt, d2) → update_meta metaTipHash (MStr (b_Hash b)) d2 = Ok (tt, d3) →
  pools_same d d3 ∧ booked d3 = booked d.
Proof.
  intros L Ge Gi Gu. destruct (ei_wallet d (li_escrow d L)) as (w & Ew & _).
  assert (B1 : booked d1 = booked d) by (apply metaUint_at; by apply (expire_meta_only _ _ _ _ Ge)).
  destruct (expireOpenOrderTasksTx_spec at_ w d L Ew) as (d1' & Ge' & [(s & M & _ & _ & E) _ _]).
  rewrite Ge in Ge'. injection Ge' as _ <-.
  assert (P1 : pools_same d d1).
  { destruct E as [-> | ->]; [|reflexivity]. transitivity s; [by eapply pools_same_moved|].
    apply pools_same_tables; [done|done|]. cbn. by rewrite lookup_insert_ne by discriminate. }
  apply insert_block_spec in Gi as (-> & _). apply modify_ok in Gu as ->. set (d2 := set_blocks _ d1).
  assert (P2 : pools_same d1 d2) by (apply pools_same_tables; done).
  change (meta d2 !! metaTipHash) with (meta d1 !! metaTipHash). destruct (meta d1 !! metaTipHash).
  - split; [transitivity d1; [done|]; transitivity d2; [done|by apply pools_same_meta]|].
    rewrite <- B1. apply metaUint_at. cbn. by rewrite lookup_insert_ne by discriminate.
  - split; [by transitivity d1|done].
Qed.

Lemma empty_run_ledger `{ChainParams} `{Crypto} at_ anow b rw nm d d1 d2 d3 d4 d5 d6 d' n :
  ledger_inv d → pools_ready d → 0 < booked d → 0 ≤ n → dense d n → b_Index b = n + 1 → n + 2 < two63 →
  let a := subsidy (b_Index b) rw d in
  booked d + a < two64 → ledger_total d + a < two63 →
  escrow_sup_total d + SUPToUnits (SUPRewardForBlockIndex (b_Index b)) < two63 →
  empty_run at_ anow b rw nm d d1 d2 d3 d4 d5 d6 d' →
  ledger_inv d' ∧ ledger_total d' = ledger_total d + a ∧ booked d' = booked d + a.
Proof.
  intros L R Hb Hn D Hi Hb2 a H1 H2 H3 [[k Ge] Gi Gu Gr [addr Gs] Ga Gm].
  destruct (prefix_ledger at_ b d n k tt tt d1 d2 d3 L Hn D Hi Hb2 Ge Gi Gu) as (L3 & T3 & U3).
  destruct (prefix_pools at_ b d k d1 d2 d3 L Ge Gi Gu) as (P3 & B3). specialize (Gr L3).
  assert (ledger_inv d4 ∧ ledger_total d4 = ledger_total d3 + a ∧ escrow_sup_total d4 = escrow_sup_total d3 ∧
    booked d4 = booked d3 + a ∧ pools_same d3 d4) as (L4 & T4 & U4 & B4 & P4).
  { subst a. unfold subsidy in *. destruct (f_ltb _ rw); [|subst d4; rewrite !Z.add_0_r; by split_and!].
    assert (0 < booked d3) as Hb3 by lia. pose proof (minted_booked d3 Hb3) as M3.
    pose proof (credited_ledger (b_Index b) (HMCToUnits rw) d3 d4 L3 (HMCToUnits_ge0 _) Hb3) as C. cbv zeta in C.
    rewrite M3, B3 in C. rewrite B3. apply C; [lia|lia|exact Gr]. }
  assert (S4 : escrow_sup_total d4 + SUPToUnits (SUPRewardForBlockIndex (b_Index b)) < two63) by (rewrite U4, U3; exact H3).
  destruct (sup_emission_pools (b_Index b) addr d4 tt d5 L4 S4 Gs) as (L5 & T5 & B5 & P5).
  assert (R5 : pools_ready d5) by (apply (pools_same_ready d); [transitivity d3; [done|]; by transitivity d4|done]).
  destruct (apply_pending_ledger anow (b_Index b) (b_Hash b) ltac:(lia) d5 L5 R5) as (x & Ga' & L6 & T6 & _).
  rewrite Ga in Ga'. injection Ga' as <-. pose proof (apply_pending_kept _ _ _ _ _ _ Ga) as K6.
  subst d'. destruct (ups_meta_ledger metaPoHTargetMod (MUint nm) d6 L6 eq_refl) as (L7 & T7 & _).
  split; [done|]. split; [lia|].
  assert (booked (ups_meta metaPoHTargetMod (MUint nm) d6) = booked d6) as ->
    by (apply metaUint_at; cbn; by rewrite lookup_insert_ne by discriminate).
  rewrite (booked_kept _ _ _ K6 eq_refl). lia.
Qed.

(** * Conservation *)

(** An empty block enters the chain, mined here or imported, at its reward; [h] is the activation
    height the booking part runs under. *)
Inductive empty_block `{Crypto} `{PoHHash} (e : Env) (ov : Z) : Z → f64 → DB → Block → DB → Prop :=
  | eb_mined signer strict now bnow anow rid miner nonce eval rw t0 b d d' :
      AppendPoHBlock e ov signer strict now bnow anow rid miner nonce eval rw t0 "" d = Ok (b, d') →
      empty_block e ov (lock_override e ov d) rw d b d'
  | eb_imported strict now anow b d d' :
      orderTaskIDFromPayload (T_Payload (b_Task b)) = "" →
      ImportPoHBlock e ov strict now anow b d = Ok (tt, d') →
      empty_block e ov (import_override e ov d) (@BaseRewardForBlockIndex (params_of e ov) (b_Index b)) d b d'.

Lemma empty_block_run `{Crypto} `{PoHHash} e ov h rw d b d' : chain_inv e d → empty_block e ov h rw d b d' →
  ∃ n dl at_ anow nm d1 d2 d3 d4 d5 d6, pinning d dl ∧ 0 ≤ n ∧ dense d n ∧ b_Index b = n + 1 ∧
    @empty_run (params_of e h) _ at_ anow b rw nm dl d1 d2 d3 d4 d5 d6 d'.
Proof.
  intros CI S. revert CI. destruct S as [sg st nw bn an ri mi no ev w t0 b d d' G|st nw an b d d' Go G];
    intros (n & r & Hn & C & Hr & Ht); destruct (tip_at e d n r Hn C Hr) as [E1 E2]; exists n.
  - apply AppendPoHBlock_ok in G as (nm & t & M & b0 & d1 & d2 & [T _ _ Hb _ Hs _] & _ & _ & L1 & L2 & G).
    unfold read_tip in T. rewrite Ht, E2, E1 in T. apply ok_inj in T as <-.
    pose proof (built_sign _ _ _ _ _ _ _ _ sg (build_block_built _ _ _ _ _ _ _ _ _ _ _ Hb)) as [B1 _ _ _ _ _ _].
    rewrite <- Hs in B1. exists d2, nw, an, nm. apply commit_block_run in G as (s1 & s2 & s3 & s4 & s5 & s6 & G).
    exists s1, s2, s3, s4, s5, s6. split; [|split; [lia|]; split; [apply C|]; split; [exact B1|exact G]].
    apply lockEconomicsV2ActivationTx_pins in L1. apply lockAuthorityPubKeyTx_pins in L2. by transitivity d1.
  - apply ImportPoHBlock_ok in G as (id & M & rw' & d1 & Hc & L & G).
    assert (rw' = @BaseRewardForBlockIndex (params_of e ov) (b_Index b)) as ->.
    { clear G. unfold check_import in Hc. rewrite Go in Hc. cbn [String.eqb negb] in Hc. destruct (negb _); [discriminate|].
      rstep Hc G1. cbn [andb] in Hc. rstep Hc G2. destruct r1 as [[pn ev] pm]. rstep Hc G3. destruct (negb _); [discriminate|].
      destruct (negb _); [discriminate|]. rstep Hc G4. destruct (negb _); [discriminate|]. rstep Hc G5.
      apply ok_inj in Hc. by injection Hc. }
    apply check_import_ok in Hc as (_ & Ei & Hi & _). rewrite Go in Ei. subst id. rewrite E1 in Hi. apply ok_inj in Hi.
    apply commit_import_run in G as (nm & s1 & s2 & s3 & s4 & s5 & s6 & G).
    eexists d1, _, an, nm, s1, s2, s3, s4, s5, s6. apply lockForImport_pins in L.
    split; [done|]. split; [lia|]. split; [apply C|]. split; [done|exact G].
Qed.

Lemma pinning_pools d d' : pinning d d' → pools_same d d' ∧ booked d' = booked d.
Proof.
  intros [E M _]. assert (K : ∀ k, bool_decide (k ∈ pin_keys) = false → meta d' !! k = meta d !! k)
    by (intros k Hk%bool_decide_eq_false; by apply M).
  split; [|by apply metaUint_at, K]. apply pools_same_tables; [by rewrite E|by rewrite E|by apply K].
Qed.

(** * Genesis *)

(** What [InitGenesis] leaves on an empty database: the reward with the treasury, the miner's
    wallet, the first block and the counters. *)
Definition genesis_accounts (miner : string) (g : Z) (d : DB) : DB :=
  let t := trim_space DevFeeAddress in
  let mu := if String.eqb t miner then g else 0 in
  let d1 := ups_account (mkAccount mu 0 0 0 0 0) (set_hmc mu) miner (set_wallet (Some (mkWallet miner mu)) d) in
  if String.eqb t miner then d1 else ups_account (mkAccount g 0 0 0 0 0) (set_hmc g) t d1.
Definition genesis_db (miner : string) (g : Z) (b : Block) : DB :=
  ups_meta metaTotalBurnedUnits (MUint 0) (ups_meta metaTotalMintedUnits (MUint g)
    (ups_meta metaTotalBurnedHMC (MFloat (f_of_Z 0)) (ups_meta metaTotalMintedHMC (MFloat GenesisRewardHMC)
      (ups_meta metaPoHTargetMod (MUint DefaultPoHTargetMod) (ups_meta metaChainID (MStr GenesisChainID)
        (ups_meta metaTipHash (MStr (b_Hash b))
          (genesis_accounts miner g (set_blocks {[0 := mkBlockRow (b_Hash b) (b_PrevHash b) b]} empty_db)))))))).

Lemma genesis_units : HMCToUnits GenesisRewardHMC = 5000000000000.
Proof. vm_compute. reflexivity. Qed.

Lemma insert_meta_ups k v d u d' : insert_meta k v d = Ok (u, d') → d' = ups_meta k v d.
Proof. unfold insert_meta. intros G. by inv_tx G. Qed.

Lemma InitGenesis_db `{Crypto} `{PoHHash} `{ChainParams} strict signer now rid miner b d' :
  InitGenesis strict signer now rid miner empty_db = Ok (b, d') →
  trim_space miner ≠ "" ∧ d' = genesis_db (trim_space miner) (HMCToUnits GenesisRewardHMC) b.
Proof.
  unfold InitGenesis. rewrite genesis_units. intros G. step G G0. 
  destruct (bool_decide _); [discriminate|]. cbv zeta in G.
  destruct (String.eqb_spec (trim_space miner) ""); [discriminate|]. destruct (_ && _) in G; [discriminate|].
  set (b0 := attachBlockSignature _ _) in *. assert (B0 : b_Index b0 = 0) by (subst b0; by destruct signer). clearbody b0.
  step G Gv. step G Gi. step G Gw. inv_tx Gw. step G Gm. apply modify_ok in Gm as ->.
  step G Ga. apply modify_ok in Ga as ->. step G Gy. apply insert_block_spec in Gi as (-> & _ & _ & _).
  step G G1. apply insert_meta_ups in G1. step G G2. apply insert_meta_ups in G2.
  step G G3. apply insert_meta_ups in G3. step G G4. apply insert_meta_ups in G4. step G G5. apply insert_meta_ups in G5.
  step G G6. apply insert_meta_ups in G6. step G G7. apply insert_meta_ups in G7. step G G8. step G G9.
  apply ret_ok in G as [-> <-]. clear G9.
  split; [done|]. unfold genesis_db. rewrite G7, G6, G5, G4, G3, G2, G1. do 7 f_equal.
  unfold genesis_accounts. cbv zeta.
  rewrite B0 in Gy.
  destruct (String.eqb (trim_space DevFeeAddress) (trim_space miner)).
  - cbn in Gy. apply ret_ok in Gy as [_ <-]. reflexivity.
  - cbn in Gy. apply modify_ok in Gy as ->. reflexivity.
Qed.

Lemma genesis_ledger m b : m ≠ "" → trim_space m = m →
  let d := genesis_db m 5000000000000 b in
  ledger_inv d ∧ ledger_total d = 5000000000000 ∧ booked d = 5000000000000.
Proof.
  intros Hm Ht d.
  assert (A : accounts_ok d ∧ hmc_sum d = 5000000000000 ∧ sup_sum d = 0 ∧ is_Some (accounts d !! m) ∧ mirrored d).
  { set (e0 := set_blocks {[0 := mkBlockRow (b_Hash b) (b_PrevHash b) b]} empty_db) in d.
    change (accounts_ok d) with (accounts_ok (genesis_accounts m 5000000000000 e0)).
    change (hmc_sum d) with (hmc_sum (genesis_accounts m 5000000000000 e0)).
    change (sup_sum d) with (sup_sum (genesis_accounts m 5000000000000 e0)).
    change (accounts d) with (accounts (genesis_accounts m 5000000000000 e0)).
    change (mirrored d) with (mirrored (genesis_accounts m 5000000000000 e0)).
    clear d. unfold genesis_accounts. cbv zeta. generalize (trim_space DevFeeAddress) as t. intros t.
    assert (O : accounts_ok (set_wallet (Some (mkWallet m 0)) e0)) by apply map_Forall_empty.
    destruct (String.eqb_spec t m) as [->|E].
    - split_and!.
      + apply accounts_ok_ups; [done|intros _; by vm_compute|done].
      + by rewrite acct_sum_ups.
      + by rewrite acct_sum_ups.
      + cbn. rewrite lookup_insert_eq. eauto.
      + unfold mirrored, hmc, mval. cbn. by rewrite lookup_insert_eq.
    - split_and!.
      + apply accounts_ok_ups; [apply accounts_ok_ups; [done|intros _; by vm_compute|done]|intros _; by vm_compute|].
        intros x Hx. cbn in Hx. rewrite lookup_insert_ne in Hx by exact (not_eq_sym E). discriminate.
      + rewrite !acct_sum_ups. cbn. by rewrite lookup_insert_ne by done.
      + rewrite !acct_sum_ups. cbn. by rewrite lookup_insert_ne by done.
      + cbn. rewrite lookup_insert_ne by done. rewrite lookup_insert_eq. eauto.
      + unfold mirrored, hmc, mval. cbn. rewrite lookup_insert_ne by done. by rewrite lookup_insert_eq. }
  destruct A as (A1 & A2 & A3 & A4 & A5).
  set (e0 := set_blocks {[0 := mkBlockRow (b_Hash b) (b_PrevHash b) b]} empty_db) in d.
  assert (R : meta (genesis_accounts m 5000000000000 e0) = ∅ ∧ escrows d = ∅ ∧ tasks d = ∅ ∧
    blocks d = {[0 := mkBlockRow (b_Hash b) (b_PrevHash b) b]} ∧
    w_address <$> wallet d = Some m).
  { cbn. unfold genesis_accounts. cbv zeta. generalize (trim_space DevFeeAddress) as t. intros t.
    destruct (String.eqb t m); repeat split; reflexivity. }
  destruct R as (R1 & R2 & R3 & R4 & R5).
  assert (C : burned_units d = 0 ∧ supTotalBurnedUnits d = 0 ∧ order_escrow d = 0 ∧ booked d = 5000000000000).
  { unfold burned_units, econTotalsUnits, supTotalBurnedUnits, order_escrow, booked, metaUint, metaFloat, d, genesis_db. cbn [snd meta ups_meta set_meta].
    fold e0. rewrite R1. split_and!.
    - rewrite lookup_insert_eq. cbn. rewrite !lookup_insert_ne by discriminate. rewrite lookup_insert_eq. vm_compute. reflexivity.
    - by rewrite !lookup_insert_ne by discriminate.
    - by rewrite !lookup_insert_ne by discriminate.
    - rewrite lookup_insert_ne by discriminate. by rewrite lookup_insert_eq. }
  destruct C as (C1 & C2 & C3 & C4). clearbody d. clear R1 e0.
  assert (T : ledger_total d = 5000000000000).
  { unfold ledger_total, escrow_total. rewrite A2, R2, C1, C3. rewrite msum_empty. lia. }
  split; [split; [split| | |]|done].
  - done.
  - unfold wallet_ok. destruct (wallet d) as [w|]; [|done]. injection R5 as R5. exists w. rewrite R5. split; [done|]. split; [done|]. by split.
  - done.
  - lia.
  - rewrite R2. apply map_Forall_empty.
  - rewrite (dense_tip d 0); [done|done|]. intros i. rewrite R4. destruct (decide (i = 0)) as [->|].
    + rewrite lookup_singleton_eq. split; [lia|eauto].
    + rewrite lookup_singleton_ne by done. split; [by intros [? ?]|lia].
  - unfold escrow_total. rewrite A2, R2, C1, msum_empty. done.
  - unfold escrow_sup_total. rewrite A3, C2. done.
  - unfold tasks_ok. rewrite R3. apply map_Forall_empty.
  - by rewrite C3, R3, msum_empty.
  - rewrite T. done.
Qed.

Lemma genesis_pools m b : pools_ready (genesis_db m 5000000000000 b).
Proof.
  set (d := genesis_db m 5000000000000 b).
  set (e0 := set_blocks {[0 := mkBlockRow (b_Hash b) (b_PrevHash b) b]} empty_db) in d.
  assert (R : pools d = ([], [], []) ∧ meta (genesis_accounts m 5000000000000 e0) = ∅ ∧
    ∀ g, g ∈ [next_nonce; sup_next_nonce; hms_next_nonce; balance_hms_units] →
      (∀ c, mval g (accounts d) c = 0) ∧ acct_sum g d = 0).
  { unfold d, pools, acct_sum. cbn [genesis_db ups_meta set_meta accounts tx_pool sup_tx_pool hms_tx_pool].
    unfold genesis_accounts. cbv zeta. generalize (trim_space DevFeeAddress) as t. intros t.
    destruct (String.eqb_spec t m) as [E|E]; (split; [reflexivity|split; [reflexivity|]]);
      intros g Hg; (assert (Z1 : ∀ x, g (mkAccount x 0 0 0 0 0) = 0 ∧ g empty_account = 0) by
        (intros x; repeat (apply elem_of_cons in Hg as [->|Hg]; [by split|]); by apply not_elem_of_nil in Hg));
      cbn [accounts ups_account set_accounts set_wallet set_blocks e0 empty_db]; rewrite lookup_empty; rewrite ?lookup_insert_ne by done; rewrite ?lookup_empty;
      (split; [intros c; unfold mval|rewrite !msum_insert, msum_empty; unfold mval]);
      repeat (rewrite lookup_insert; case_decide); rewrite ?lookup_empty; try (destruct (Z1 0), (Z1 5000000000000); lia). }
  destruct R as (R1 & R2 & R3).
  assert (B : l_burned hms_lane d = 0).
  { cbn. unfold hmsTotalBurnedUnits, metaUint, d, genesis_db. cbn [meta ups_meta set_meta]. fold e0. rewrite R2.
    by rewrite !lookup_insert_ne by discriminate. }
  clearbody d. clear R2 e0. injection R1 as P1 P2 P3.
  assert (PE : ∀ (p : PoolRow) (Q : Prop), p ∈ [] → Q) by (intros p Q F; by apply not_elem_of_nil in F).
  assert (N : ∀ g b', g ∈ [next_nonce; sup_next_nonce; hms_next_nonce; balance_hms_units] → mval g (accounts d) b' + 100000 < two63)
    by (intros g b' Hg; destruct (R3 g Hg) as [-> _]; done).
  split; [intros p; rewrite P1; apply PE|intros p; rewrite P2; apply PE|intros p; rewrite P3; apply PE|..].
  - intros c. specialize (N next_nonce c ltac:(apply list_elem_of_In; cbn; tauto)). unfold DefaultTransferMaxBatch. lia.
  - intros c. specialize (N sup_next_nonce c ltac:(apply list_elem_of_In; cbn; tauto)). unfold DefaultSUPTransferMaxBatch. lia.
  - intros c. specialize (N hms_next_nonce c ltac:(apply list_elem_of_In; cbn; tauto)). unfold DefaultHMSTransferMaxBatch. lia.
  - split; rewrite B; [done|]. destruct (R3 balance_hms_units ltac:(apply list_elem_of_In; cbn; tauto)) as [_ S].
    change (acct_sum (l_bal hms_lane) d) with (acct_sum balance_hms_units d). by rewrite S.
Qed.
