(* ===== verification/ChainToy.v ===== *)
(** A concrete node: genesis, the consensus pins, and one mined block.  The theorems of the block
    path are applied to it. *)
From S2P Require Import Prelude Float64 GoText Params Emission OrderFee Retarget Json GoNum Ledger Address GoSort Transfers Lane SupLedger HmsLedger EscrowSplit FuzzEscrow EscrowInv Orders OrdersInv Block PohPayload Consensus Chain ChainFrame ChainInv ChainLedger ChainSupply.
#[local] Open Scope Z_scope.

#[local] Existing Instance toy_crypto.
Definition toy_hash : PoHHash := {| blake3_sum256 := toy_sha256; blake3_sum256_length := toy_sha256_length |}.
#[local] Existing Instance toy_hash.
#[local] Abbreviation P0 := (params_of empty_env 0).

Definition toy_signer : Signer := mkSigner (toy_key "a") (λ _, toy_key "a" +:+ toy_key "a").
Definition toy_wallet : string := toy_addr "a".

(** Genesis at time 1000. *)
Definition toy_genesis_block : Block := @NewGenesisBlock toy_crypto 1000 "g" toy_wallet.
Definition toy_genesis : DB := genesis_db toy_wallet 5000000000000 toy_genesis_block.

Lemma toy_genesis_run :
  @InitGenesis toy_crypto P0 true None 1000 "g" toy_wallet empty_db = Ok (toy_genesis_block, toy_genesis).
Proof. vm_compute. reflexivity. Qed.

Definition toy_pinned : DB :=
  ups_meta metaV2ChainID (MStr (ResolvedV2ChainID empty_env))
    (ups_meta metaAuthorityPubKey (MStr (authorityPubKeyFromEnv empty_env))
      (ups_meta metaEconomicsV2ActivationHeight (MUint 1000000) toy_genesis)).

(** The block after genesis: [7 * 857141 + 13] is divisible by the default modulus. *)
Definition toy_append : tx DB Block :=
  @AppendPoHBlock toy_crypto toy_hash empty_env 0 (Some toy_signer) true 2000 2000 2000 "r" toy_wallet 857141 6000000
    (@BaseRewardForBlockIndex P0 1) 1000000 "".
Definition toy_block : Block :=
  match toy_append toy_pinned with Ok (b, _) => b | Err _ => toy_genesis_block end.
Definition toy_next : DB := run toy_append toy_pinned.

Lemma toy_append_run : @AppendPoHBlock toy_crypto toy_hash empty_env 0 (Some toy_signer) true 2000 2000 2000 "r"
  toy_wallet 857141 6000000 (@BaseRewardForBlockIndex P0 1) 1000000 "" toy_pinned = Ok (toy_block, toy_next).
Proof.
  change (toy_append toy_pinned = Ok (toy_block, toy_next)).
  assert (is_ok (toy_append toy_pinned) = true) as E by (vm_compute; reflexivity).
  unfold toy_next, run, toy_block. destruct (toy_append toy_pinned) as [[b d]|]; [reflexivity|discriminate].
Qed.

Lemma toy_pinned_pins : pinning toy_genesis toy_pinned.
Proof.
  assert (U : ∀ k v d, bool_decide (k ∈ pin_keys) = true → pin_set d k = false → pinning d (ups_meta k v d)).
  { intros k v d Hk%bool_decide_eq_true. by apply pinning_upsert. }
  unfold toy_pinned. transitivity (ups_meta metaEconomicsV2ActivationHeight (MUint 1000000) toy_genesis);
    [apply U; vm_compute; reflexivity|].
  transitivity (ups_meta metaAuthorityPubKey (MStr (authorityPubKeyFromEnv empty_env))
    (ups_meta metaEconomicsV2ActivationHeight (MUint 1000000) toy_genesis)); apply U; vm_compute; reflexivity.
Qed.

Lemma toy_ledger : ledger_inv toy_pinned ∧ pools_ready toy_pinned ∧ booked toy_pinned = 5000000000000 ∧
  ledger_total toy_pinned = 5000000000000.
Proof.
  destruct (genesis_ledger toy_wallet toy_genesis_block ltac:(discriminate) ltac:(vm_compute; reflexivity)) as (L & T & B).
  destruct (pinning_ledger _ _ toy_pinned_pins L) as (L' & T' & _).
  destruct (pinning_pools _ _ toy_pinned_pins) as [P' B'].
  split; [exact L'|]. split; [exact (pools_same_ready _ _ P' (genesis_pools _ _))|]. split; [rewrite B'; exact B|rewrite T'; exact T].
Qed.

Lemma toy_chain : chain_inv empty_env toy_pinned.
Proof.
  exists 0, (mkBlockRow (b_Hash toy_genesis_block) (b_PrevHash toy_genesis_block) toy_genesis_block).
  assert (Bl : blocks toy_pinned = {[0 := mkBlockRow (b_Hash toy_genesis_block) (b_PrevHash toy_genesis_block) toy_genesis_block]})
    by reflexivity.
  split; [split; reflexivity || discriminate|]. split; [split|split].
  - intros i. rewrite Bl. destruct (decide (i = 0)) as [->|].
    + rewrite lookup_singleton_eq. split; [lia|eauto].
    + rewrite lookup_singleton_ne by done. split; [by intros [? ?]|lia].
  - intros i r. rewrite Bl. intros [<- <-]%lookup_singleton_Some. split; vm_compute; reflexivity.
  - intros i r r'. rewrite Bl. intros [<- _]%lookup_singleton_Some [E _]%lookup_singleton_Some. lia.
  - intros i j r r'. rewrite Bl. by intros [<- _]%lookup_singleton_Some [<- _]%lookup_singleton_Some.
  - reflexivity.
  - vm_compute. reflexivity.
Qed.

Lemma toy_is_pinned : pin_set toy_pinned metaAuthorityPubKey = true ∧ pin_set toy_pinned metaV2ChainID = true ∧
  1 ≤ lockedHeight toy_pinned.
Proof. split; [vm_compute; reflexivity|]. split; [vm_compute; reflexivity|]. vm_compute. discriminate. Qed.
