(* ===== verification/ChainProps.v ===== *)
(** The properties of the block path. *)
From S2P Require Import Prelude Float64 GoText Params Emission OrderFee Retarget Json GoNum Ledger Address GoSort Transfers Lane SupLedger HmsLedger EscrowSplit FuzzEscrow EscrowInv Orders OrdersInv Block PohPayload Consensus Chain ChainFrame ChainInv ChainLedger ChainViews ChainSupply ChainToy.
From stdpp Require Import relations.
#[local] Open Scope Z_scope.

(** * Genesis *)

Lemma InitGenesis_inv `{Crypto} `{PoHHash} `{ChainParams} e strict signer now rid miner d b d' :
  blocks d = ∅ → InitGenesis strict signer now rid miner d = Ok (b, d') → chain_inv e d'.
Proof.
  intros Hd. unfold InitGenesis. generalize (HMCToUnits GenesisRewardHMC) as g. intros g G. step G G0. destruct (bool_decide _); [discriminate|]. cbv zeta in G.
  destruct (String.eqb _ ""); [discriminate|]. destruct (_ && _); [discriminate|].
  set (b0 := attachBlockSignature _ _) in *. step G Gv. step G Gi. step G Gw. inv_tx Gw. step G Gm. apply modify_ok in Gm as ->.
  step G Ga. apply modify_ok in Ga as ->. step G Gy.
  apply insert_block_spec in Gi as (-> & _ & _ & _).
  assert (B0 : b_Index b0 = 0 ∧ trim_space (b_PrevHash b0) = ZeroPrevHash) by (subst b0; by destruct signer).
  match type of Gy with _ = Ok (_, ?s) => rename s into d1 end.
  assert (B1 : blocks d1 = {[0 := mkBlockRow (b_Hash b0) (b_PrevHash b0) b0]}).
  { destruct B0 as [B0 _]. rewrite B0, Hd in Gy.
    match type of Gy with (if ?c then _ else _) _ = _ => destruct c end;
      [apply modify_ok in Gy as ->|apply ret_ok in Gy as [_ <-]]; reflexivity. }
  step G G1. apply insert_meta_ups in G1. step G G2. apply insert_meta_ups in G2.
  step G G3. apply insert_meta_ups in G3. step G G4. apply insert_meta_ups in G4. step G G5. apply insert_meta_ups in G5.
  step G G6. apply insert_meta_ups in G6. step G G7. apply insert_meta_ups in G7. step G G8. step G G9.
  apply ret_ok in G as [<- <-]. exists 0, (mkBlockRow (b_Hash b0) (b_PrevHash b0) b0).
  assert (Bl : blocks s5 = {[0 := mkBlockRow (b_Hash b0) (b_PrevHash b0) b0]}) by (rewrite G7, G6, G5, G4, G3, G2, G1; exact B1).
  split; [unfold two63; lia|]. clear G9 Hd. split; [split|split].
  - intros i. rewrite Bl. destruct (decide (i = 0)) as [->|]; [rewrite lookup_singleton_eq; split; [lia|eauto]|].
    rewrite lookup_singleton_ne by done. split; [by intros [? ?]|lia].
  - intros i r. rewrite Bl. intros [<- <-]%lookup_singleton_Some. 
    split; [apply B0|reflexivity|reflexivity|by apply verify_hash; destruct a].
  - intros i r r'. rewrite Bl. intros [<- _]%lookup_singleton_Some [E _]%lookup_singleton_Some. lia.
  - intros i j r r'. rewrite Bl. by intros [<- _]%lookup_singleton_Some [<- _]%lookup_singleton_Some.
  - rewrite Bl. apply lookup_singleton_eq.
  - rewrite G7, G6, G5, G4, G3, G2. unfold metaText. cbn [meta ups_meta set_meta].
    rewrite !lookup_insert_ne by discriminate. rewrite G1. cbn. by rewrite lookup_insert_eq.
Qed.

(** * The chain is valid at every reachable state *)

(** One step of a node: mining a block, importing one, or anything that leaves blocks and tip
    alone.  The numbers are [uint64] values and order ids are ASCII (they are generated). *)
Inductive chain_step `{Crypto} `{PoHHash} (e : Env) : DB → DB → Prop :=
  | cs_append ov signer strict now bnow anow rid miner nonce eval rw t0 id b d d' :
      0 ≤ nonce < two64 → 0 ≤ eval < two64 → ascii_str (trim_space id) = true →
      AppendPoHBlock e ov signer strict now bnow anow rid miner nonce eval rw t0 id d = Ok (b, d') → chain_step e d d'
  | cs_import ov strict now anow b d d' : ImportPoHBlock e ov strict now anow b d = Ok (tt, d') → chain_step e d d'
  | cs_other d d' : same_chain d d' → chain_step e d d'.

(** C1: From genesis on, whatever mixture of mining, importing and other work a node does, its
    chain stays valid: block indices are exactly 0 to the tip, the tip row names the last block,
    every stored hash is the hash of the stored header and unique, every block names its parent's hash,
    carries work divisible by its payload's modulus for its own miner and parent, and from the
    ASERT height on that modulus is the one the schedule computes from the chain's own timestamps,
    which never run backwards. *)
Theorem chain_reachable_valid `{Crypto} `{PoHHash} `{ChainParams} e strict signer now rid miner d0 b d1 d :
  blocks d0 = ∅ → InitGenesis strict signer now rid miner d0 = Ok (b, d1) →
  rtc (chain_step e) d1 d → chain_inv e d.
Proof.
  intros Hd G R. pose proof (InitGenesis_inv e strict signer now rid miner d0 b d1 Hd G) as I. clear G Hd.
  induction R as [|d1 d2 d3 S R IH]; [done|]. apply IH. clear R IH.
  destruct S as [ov sg st nw bn an ri mi no ev rw t0 id b' x y Hn He Ha S|ov st nw an b' x y S|x y S].
  - by apply (AppendPoHBlock_inv e ov sg st nw bn an ri mi no ev rw t0 id x b' y).
  - by apply (ImportPoHBlock_inv e ov st nw an b' x tt y).
  - by apply (same_chain_inv e x y).
Qed.

Lemma chain_reachable_valid_witness : @chain_inv toy_crypto toy_hash empty_env toy_next.
Proof.
  refine (@chain_reachable_valid toy_crypto toy_hash (params_of empty_env 0) empty_env true None 1000 "g" toy_wallet
    empty_db toy_genesis_block toy_genesis toy_next eq_refl toy_genesis_run _).
  apply (rtc_l _ _ toy_pinned).
  - apply cs_other, pinning_chain, toy_pinned_pins.
  - apply rtc_once. eapply cs_append; [..|exact toy_append_run]; [split; reflexivity || discriminate..|vm_compute; reflexivity].
Defined.

(** * Meta rows a block may change *)

Definition block_keys : list string := reward_keys ++ apply_keys ++ [metaTipHash; metaPoHTargetMod].
Definition meta_kept (d d' : DB) : Prop := ∀ k, k ∉ block_keys → meta d' !! k = meta d !! k.

#[global] Instance meta_kept_refl : Reflexive meta_kept.
Proof. by intros d k. Qed.
#[global] Instance meta_kept_trans : Transitive meta_kept.
Proof. intros d1 d2 d3 A B k Hk. by rewrite B, A. Qed.

Lemma meta_kept_same d d' : meta d' = meta d → meta_kept d d'.
Proof. intros E k _. by rewrite E. Qed.
Lemma meta_kept_ups k v d : bool_decide (k ∈ block_keys) = true → meta_kept d (ups_meta k v d).
Proof. intros Hk%bool_decide_eq_true k' Hk'. cbn. rewrite lookup_insert_ne; [done|]. by intros ->. Qed.

Lemma kept_meta K d d' : forallb (λ k, bool_decide (k ∈ block_keys)) K = true → kept K d d' → meta_kept d d'.
Proof.
  intros HK [_ M _ _] k Hk. apply M. intros Hin. rewrite forallb_forall in HK. apply list_elem_of_In in Hin.
  specialize (HK k Hin). by apply bool_decide_eq_true in HK.
Qed.

Lemma expire_meta now d n d' : expireOpenOrderTasksTx now d = Ok (n, d') → meta_kept d d'.
Proof. intros G k Hk. apply (expire_meta_only _ _ _ _ G). intros ->. by apply Hk, (bool_decide_unpack _). Qed.

Lemma update_tip_meta h d u d' : update_meta metaTipHash (MStr h) d = Ok (u, d') → meta_kept d d'.
Proof. unfold update_meta. intros ->%modify_ok. case_match; [by apply meta_kept_ups|done]. Qed.

Lemma claim_order_meta now id nonce rw d u d' : claim_order now id nonce rw d = Ok (u, d') → meta_kept d d'.
Proof. unfold claim_order. intros G. inv_tx G; by apply meta_kept_same. Qed.
Lemma bump_meta id d u d' : bumpOrderTaskProgress id d = Ok (u, d') → meta_kept d d'.
Proof. unfold bumpOrderTaskProgress. intros G. inv_tx G; by apply meta_kept_same. Qed.
Lemma insert_block_meta b d u d' : insert_block b d = Ok (u, d') → meta_kept d d'.
Proof. intros (-> & _)%insert_block_spec. by apply meta_kept_same. Qed.

Lemma commit_block_meta `{Crypto} `{ChainParams} strict now anow miner nonce rw id b nm d u d' :
  commit_block strict now anow miner nonce rw id b nm d = Ok (u, d') → meta_kept d d'.
Proof.
  unfold commit_block. intros G. step G G0. step G Gv. step G Ge. apply expire_meta in Ge.
  step G Gi. apply insert_block_meta in Gi. step G Gc. apply claim_order_meta in Gc. step G Gb. apply bump_meta in Gb. step G Gu. apply update_tip_meta in Gu.
  step G Gg. step G Gr. step G Gs. step G Ga. apply apply_pending_kept in Ga. step G Gm. inv_tx Gm.
  apply econ_guard_run in G as [-> _]. etransitivity; [exact Ge|].
  etransitivity; [exact Gi|]. etransitivity; [exact Gc|]. etransitivity; [exact Gb|]. etransitivity; [exact Gu|]. etransitivity; [|etransitivity; [|etransitivity; [|by apply meta_kept_ups]]].
  - apply (kept_meta reward_keys); [done|]. destruct (f_ltb _ rw); [|by inv_tx Gr]. destruct (econTotalsUnits _) as [m bu].
    cbv zeta in Gr. destruct (negb _); [by apply pay_solver_kept in Gr|by apply mint_producer_kept in Gr].
  - apply (kept_meta reward_keys); [done|]. destruct (String.eqb id ""); [|by inv_tx Gs]. step Gs Gw. inv_tx Gw.
    by apply mintEmptyBlockSUPTx_kept in Gs.
  - by apply (kept_meta apply_keys).
Qed.

Lemma commit_import_meta `{Crypto} `{ChainParams} strict now anow id M rw b d u d' :
  commit_import strict now anow id M rw b d = Ok (u, d') → meta_kept d d'.
Proof.
  unfold commit_import. intros G. step G G0. step G Gv. cbv zeta in G. step G Ge. apply expire_meta in Ge.
  step G Gi. apply insert_block_meta in Gi. step G Gc. apply recheck_order_chain in Gc as ->. step G Gb. apply bump_meta in Gb.
  step G Gu. apply update_tip_meta in Gu. step G Gg. step G Gr. step G Gs. step G Ga. apply apply_pending_kept in Ga.
  step G Gq. step G Gn. step G Gm. inv_tx Gm. apply econ_guard_run in G as [-> _]. etransitivity; [exact Ge|].
  etransitivity; [exact Gi|]. etransitivity; [exact Gb|]. etransitivity; [exact Gu|]. etransitivity; [|etransitivity; [|etransitivity; [|by apply meta_kept_ups]]].
  - apply (kept_meta reward_keys); [done|]. destruct (f_ltb _ rw); [|by inv_tx Gr]. destruct (econTotalsUnits _) as [m bu].
    cbv zeta in Gr. destruct (negb _); [by apply pay_solver_kept in Gr|by apply mint_importer_kept in Gr].
  - apply (kept_meta reward_keys); [done|]. destruct (String.eqb id ""); [|by inv_tx Gs].
    by apply mintEmptyBlockSUPTx_kept in Gs.
  - by apply (kept_meta apply_keys).
Qed.

(** * The consensus pins *)

(** A block enters the chain, mined here ([true]) or imported. *)
Inductive takes_block `{Crypto} `{PoHHash} (e : Env) (ov : Z) : bool → DB → Block → DB → Prop :=
  | tb_mined signer strict now bnow anow rid miner nonce eval rw t0 id b d d' :
      AppendPoHBlock e ov signer strict now bnow anow rid miner nonce eval rw t0 id d = Ok (b, d') →
      takes_block e ov true d b d'
  | tb_imported strict now anow b d d' :
      ImportPoHBlock e ov strict now anow b d = Ok (tt, d') → takes_block e ov false d b d'.

Lemma height_other k v d : bool_decide (k = metaEconomicsV2ActivationHeight) = false →
  lockedHeight (ups_meta k v d) = lockedHeight d.
Proof. intros Hk%bool_decide_eq_false. unfold lockedHeight, metaUint. cbn. by rewrite lookup_insert_ne. Qed.

Lemma lockAuthority_height `{ChainParams} e signer self d u d' :
  lockAuthorityPubKeyTx e signer self d = Ok (u, d') → lockedHeight d' = lockedHeight d.
Proof.
  unfold lockAuthorityPubKeyTx, lockV2ChainIDTx. intros G. destruct (v2_height <? 1); [by inv_tx G|].
  step G G1. assert (lockedHeight s = lockedHeight d) as <- by (inv_tx G1; [done|by apply height_other]).
  clear G1. inv_tx G; try done. by apply height_other.
Qed.

Lemma lockAnnounce_height e d u d' : lockEconomicsV2AnnounceTx e d = Ok (u, d') → lockedHeight d' = lockedHeight d.
Proof. unfold lockEconomicsV2AnnounceTx. intros G. inv_tx G; try done. by apply height_other. Qed.

Lemma rawEnvHeight_configured e : 1 ≤ rawEnvHeight e → ∃ raw, configured_height e = Some (raw, rawEnvHeight e).
Proof.
  unfold rawEnvHeight, env_height, configured_height. destruct (parse_uint _) as [h|]; [|lia].
  destruct (Z.leb_spec 1 h); [|lia]. intros _. destruct (Z.ltb_spec h 1); [lia|eauto].
Qed.

Lemma lock_height e ov d u d' : lockEconomicsV2ActivationTx e ov d = Ok (u, d') → lockedHeight d < 1 →
  1 ≤ lockedHeight d' → ∃ raw, configured_height e = Some (raw, lockedHeight d').
Proof.
  unfold lockEconomicsV2ActivationTx. intros G Hd Hd'. step G G0. step G G1. step G G2.
  apply lockAuthority_height in G. apply lockAnnounce_height in G2. rewrite G, G2 in *.
  destruct (Z.leb_spec 1 (lockedHeight d)); [lia|]. destruct (Z.leb_spec 1 (rawEnvHeight e)); inv_tx G1; [|lia].
  assert (lockedHeight (ups_meta metaEconomicsV2ActivationHeight (MUint (rawEnvHeight e)) d) = rawEnvHeight e) as E
    by (unfold lockedHeight, metaUint; cbn; by rewrite lookup_insert_eq).
  rewrite E. by apply rawEnvHeight_configured.
Qed.

(** The locks of one block, and the state they leave. *)
Lemma takes_block_locks `{Crypto} `{PoHHash} e ov mined d b d' : takes_block e ov mined d b d' →
  ∃ d1, pinning d d1 ∧ meta_kept d1 d' ∧
    (lockedHeight d < 1 → 1 ≤ lockedHeight d1 → v2ActivationGuardOff e = false →
       ∃ raw, configured_height e = Some (raw, lockedHeight d1) ∧ confirmed e raw = true ∧
         (mined = true → b_Index b + v2MinLeadBlocks e ≤ lockedHeight d1)).
Proof.
  intros [sg st nw bn an ri mi no ev rw t0 id b' x y G|st nw an b' x y G].
  - apply AppendPoHBlock_ok in G as (nm & t & M & b0 & d1 & d2 & _ & _ & Gg & L1 & L2 & G). exists d2.
    split; [|split].
    + apply lockEconomicsV2ActivationTx_pins in L1. apply lockAuthorityPubKeyTx_pins in L2. by transitivity d1.
    + by eapply commit_block_meta.
    + apply lockAuthority_height in L2. rewrite L2. intros H1 H2 Ho.
      destruct (lock_height e ov x tt d1 L1 H1 H2) as [raw C]. exists raw. split; [done|].
      unfold checkV2ActivationGuardTx in Gg. rewrite Ho, C in Gg. destruct (Z.leb_spec 1 (lockedHeight x)); [lia|].
      cbn [orb] in Gg. destruct (confirmed e raw); [|done]. split; [done|]. intros _. cbn [negb] in Gg.
      destruct (_ || _) eqn:E in Gg; [done|]. b2p. lia.
  - apply ImportPoHBlock_ok in G as (id & M & rw & d1 & _ & L & G). exists d1. split; [|split].
    + by apply lockForImport_pins in L.
    + by eapply commit_import_meta.
    + unfold lockEconomicsV2ActivationForImportTx in L. step L L0. intros H1 H2 Ho.
      destruct (import_locks e x) eqn:E; [|apply lockAuthority_height in L; lia].
      destruct (lock_height e ov x tt d1 L H1 H2) as [raw C]. exists raw. split; [done|].
      unfold import_locks in E. rewrite C, Ho in E. destruct (Z.leb_spec 1 (lockedHeight x)); [lia|]. by split.
Qed.

(** C14: The consensus pins are write-once. No block, mined or imported, changes a pinned
    activation height, announce time, authority key or network id; and when a block is what locks
    the height, that height is the one the operator configured and confirmed, and a mined block
    leaves at least the configured lead before it. *)
Theorem consensus_pins_final `{Crypto} `{PoHHash} e ov mined d b d' : takes_block e ov mined d b d' →
  (∀ k, k ∈ pin_keys → pin_set d k = true → meta d' !! k = meta d !! k) ∧
  (lockedHeight d < 1 → 1 ≤ lockedHeight d' → v2ActivationGuardOff e = false →
     ∃ raw, configured_height e = Some (raw, lockedHeight d') ∧ confirmed e raw = true ∧
       (mined = true → b_Index b + v2MinLeadBlocks e ≤ lockedHeight d')).
Proof.
  intros T. destruct (takes_block_locks e ov mined d b d' T) as (d1 & P & K & N).
  assert (E : ∀ k, k ∈ pin_keys → meta d' !! k = meta d1 !! k).
  { intros k Hk. apply K. intros Hb. revert k Hk Hb.
    assert (forallb (λ k, negb (bool_decide (k ∈ block_keys))) pin_keys = true) as F by reflexivity.
    rewrite forallb_forall in F. intros k Hk%list_elem_of_In Hb. specialize (F k Hk). rewrite negb_true_iff in F.
    by apply bool_decide_eq_false in F. }
  split.
  - intros k Hk Hs. rewrite E by done. by apply (pg_pins _ _ P).
  - assert (lockedHeight d' = lockedHeight d1) as ->; [|exact N].
    unfold lockedHeight, metaUint. rewrite E; [done|]. unfold pin_keys. set_solver.
Qed.

Lemma consensus_pins_final_witness : lockedHeight toy_next = 1000000.
Proof.
  assert (T : @takes_block toy_crypto toy_hash empty_env 0 true toy_pinned toy_block toy_next)
    by (eapply tb_mined; exact toy_append_run).
  destruct (@consensus_pins_final toy_crypto toy_hash empty_env 0 true toy_pinned toy_block toy_next T) as [K _].
  unfold lockedHeight, metaUint. rewrite K; [vm_compute; reflexivity| |vm_compute; reflexivity].
  apply (bool_decide_unpack (metaEconomicsV2ActivationHeight ∈ pin_keys)). reflexivity.
Defined.

(** * Supply *)

(** Genesis opens the books. [InitGenesis] on an empty database leaves a consistent ledger in
    which everything owed is the treasury's genesis reward, the minted counter says the same, and
    the three transfer pools are ready for the next block. *)
Theorem genesis_opens_ledger `{Crypto} `{PoHHash} `{ChainParams} strict signer now rid miner b d' :
  InitGenesis strict signer now rid miner empty_db = Ok (b, d') →
  ledger_inv d' ∧ ledger_total d' = HMCToUnits GenesisRewardHMC ∧ booked d' = HMCToUnits GenesisRewardHMC ∧
  pools_ready d'.
Proof.
  intros G. apply InitGenesis_db in G as [Hm ->]. rewrite genesis_units.
  destruct (genesis_ledger (trim_space miner) b Hm (trim_space_idem miner)) as (L & T & B).
  split; [exact L|]. split; [exact T|]. split; [exact B|]. apply genesis_pools.
Qed.

Lemma genesis_opens_ledger_witness : let P := params_of empty_env 0 in
  ledger_inv toy_genesis ∧ ledger_total toy_genesis = HMCToUnits GenesisRewardHMC ∧
  booked toy_genesis = HMCToUnits GenesisRewardHMC ∧ pools_ready toy_genesis.
Proof.
  exact (@genesis_opens_ledger toy_crypto toy_hash (params_of empty_env 0) true None 1000 "g" toy_wallet
    toy_genesis_block toy_genesis toy_genesis_run).
Defined.

(** C9: An empty block mints exactly its subsidy. Whether it is mined or imported, and whatever
    expiry, the SUP emission and the three transfer batches did on the way, the money of the node
    is still consistent afterwards and everything the chain owes in HMC (balances, campaign
    escrows, order escrow, burned units) grew by exactly the units the supply rule allows: the
    whole reward under Economics v2, before it what is left below the cap. The minted counter grew
    by the same number. *)
Theorem empty_block_conserves `{Crypto} `{PoHHash} e ov h rw d b d' :
  chain_inv e d → ledger_inv d → pools_ready d → 0 < booked d → empty_block e ov h rw d b d' →
  let a := @subsidy (params_of e h) (b_Index b) rw d in
  b_Index b + 1 < two63 → booked d + a < two64 → ledger_total d + a < two63 →
  escrow_sup_total d + SUPToUnits (@SUPRewardForBlockIndex (params_of e h) (b_Index b)) < two63 →
  ledger_inv d' ∧ ledger_total d' = ledger_total d + a ∧ booked d' = booked d + a.
Proof.
  intros CI L R Hb E a H1 H2 H3 H4.
  destruct (empty_block_run e ov h rw d b d' CI E) as (n & dl & at_ & anow & nm & d1 & d2 & d3 & d4 & d5 & d6 & P & Hn & D & Hi & G).
  destruct (pinning_ledger d dl P L) as (Ll & Tl & Ul). destruct (pinning_pools d dl P) as (Pl & Bl).
  assert (a = @subsidy (params_of e h) (b_Index b) rw dl) as Ea by (unfold a, subsidy; by rewrite Bl).
  pose proof (pg_db _ _ P) as Ed.
  rewrite <- Tl, <- Bl, Ea. apply (@empty_run_ledger (params_of e h) _ at_ anow b rw nm dl d1 d2 d3 d4 d5 d6 d' n); try done; try lia.
  - by apply (pools_same_ready d).
  - unfold dense. by rewrite Ed.
Qed.

(** The toy block mints the scheduled 0.01 HMC. *)
Lemma empty_block_conserves_witness : let P := params_of empty_env 1000000 in
  ledger_total toy_next = 5000001000000 ∧ booked toy_next = 5000001000000.
Proof.
  destruct toy_ledger as (L & R & B & T).
  assert (E : @empty_block toy_crypto toy_hash empty_env 0 (lock_override empty_env 0 toy_pinned)
    (@BaseRewardForBlockIndex (params_of empty_env 0) 1) toy_pinned toy_block toy_next)
    by (eapply eb_mined; exact toy_append_run).
  assert (S : @subsidy (params_of empty_env (lock_override empty_env 0 toy_pinned)) (b_Index toy_block)
    (@BaseRewardForBlockIndex (params_of empty_env 0) 1) toy_pinned = 1000000) by (vm_compute; reflexivity).
  destruct (@empty_block_conserves toy_crypto toy_hash empty_env 0 _ _ toy_pinned toy_block toy_next toy_chain L R
    ltac:(rewrite B; reflexivity) E) as (_ & T' & B').
  - vm_compute. reflexivity.
  - rewrite S, B. reflexivity.
  - rewrite S, T. reflexivity.
  - vm_compute. reflexivity.
  - rewrite S, T in T'. rewrite S, B in B'. split; [exact T'|exact B'].
Defined.

(** * Reading the chain *)

(** What a syncing follower reads. On a valid chain both ways of reading the tip agree, and the
    page served for a height is exactly the blocks from that height on, in order and without gaps,
    as many as the capped limit allows and the chain has; asking for the height after the tip
    gives nothing, and every page below it makes progress. *)
Theorem sync_page_consecutive `{Crypto} `{PoHHash} e d h limit : chain_inv e d → 0 ≤ h < two63 →
  let tip := (TipOf d).1 in
  TipFast d = TipOf d ∧
  ∃ l, ListBlocksFromHeight h limit d = Ok l ∧
    b_Index <$> l = seqZ h (Z.min (Z.of_nat (list_limit limit)) (tip + 1 - h)) ∧
    (h ≤ tip → l ≠ []) ∧ (length l ≤ 500)%nat.
Proof.
  intros I Hh tip. split; [by apply (TipFast_TipOf e)|].
  destruct (TipOf_inv e d I) as (n & r & Hn & C & Hr & Ht & E). unfold tip. rewrite E. cbn [fst].
  unfold ListBlocksFromHeight. destruct (Z.ltb_spec (two63 - 1) h); [lia|]. eexists. split; [reflexivity|].
  pose proof (list_limit_range limit) as R.
  destruct (Z.le_gt_cases h n) as [Hle|Hgt].
  - pose proof (page_index e h limit d n C ltac:(lia)) as P. split; [exact P|]. split.
    + intros _ N. rewrite N in P. cbn in P. symmetry in P. apply (f_equal length) in P. rewrite length_seqZ in P. cbn in P. lia.
    + rewrite length_take. lia.
  - rewrite (filter_none _ (rows_asc d)).
    + cbn. rewrite take_nil. cbn. split; [|split; [lia|lia]]. by rewrite seqZ_nil by lia.
    + apply list.Forall_forall. intros [j x] Hx. unfold rows_asc in Hx. rewrite sort_stable_perm in Hx.
      apply elem_of_map_to_list in Hx. assert (0 ≤ j ≤ n) by (apply C; eauto). cbn. lia.
Qed.

Lemma sync_page_consecutive_witness :
  ∃ l, ListBlocksFromHeight 0 0 toy_pinned = Ok l ∧ b_Index <$> l = [0].
Proof.
  destruct (@sync_page_consecutive toy_crypto toy_hash empty_env toy_pinned 0 0 toy_chain ltac:(split; [discriminate|reflexivity]))
    as (_ & l & E & L & _).
  exists l. split; [exact E|]. rewrite L. vm_compute. reflexivity.
Defined.
