(* ===== verification/ChainNonce.v ===== *)
(** A transfer is applied once in the life of a chain: no operation of the node takes an account's nonce back.

    Sources: internal/chain: every operation that opens a transaction on the database (transfers.go, sup_ledger.go,
    hms_ledger.go, fuzz_escrow.go, order_tasks.go, service.go, import.go, wallet and key rows).

    [later d d']: nonces that fit their column still do, and none went back.  [onward] says it of every way a transaction can
    succeed; the tactic of that name walks through a transaction and asks it of its writes. *)
From S2P Require Import Prelude Float64 GoText Params Emission OrderFee Retarget Json GoNum Ledger Address GoSort Transfers Lane SupLedger HmsLedger EscrowSplit FuzzEscrow EscrowInv Orders OrdersInv Block PohPayload Consensus Chain ChainFrame ChainInv ChainViews ChainToy ChainProps.

Definition nonces_fit (d : DB) : Prop := ∀ a, 0 ≤ nonce d a < two63.
Definition later (d d' : DB) : Prop := nonces_fit d → nonces_fit d' ∧ ∀ a, nonce d a ≤ nonce d' a.
#[global] Instance later_preorder : PreOrder later.
Proof.
  split; [intros d H; split; [done|lia]|]. intros d1 d2 d3 H1 H2 F. destruct (H1 F) as [F2 L1]. destruct (H2 F2) as [F3 L2].
  split; [done|]. intros a. specialize (L1 a). specialize (L2 a). lia.
Qed.

(** * Writes *)

Lemma later_same d d' : accounts d' = accounts d → later d d'.
Proof. intros E F. unfold nonces_fit, nonce in *. rewrite E. split; [done|lia]. Qed.
Lemma later_upd f a d : (∀ x, next_nonce (f x) = next_nonce x) → later d (upd_account f a d).
Proof.
  intros Hf. unfold upd_account. destruct (accounts d !! a) as [x|] eqn:E; [|done].
  assert (∀ b, nonce (set_accounts (<[a := f x]> (accounts d)) d) b = nonce d b) as Hn.
  { intros b. unfold nonce, mval. cbn. destruct (decide (a = b)) as [->|]; [by rewrite lookup_insert_eq, E|by rewrite lookup_insert_ne]. }
  intros F. split; [intros b; rewrite Hn; apply F|intros b; rewrite Hn; lia].
Qed.
(** A row that is inserted may start at any nonce that fits. *)
Lemma later_ups ins f a d : 0 ≤ next_nonce ins < two63 → (∀ x, next_nonce (f x) = next_nonce x) → later d (ups_account ins f a d).
Proof.
  intros Hi Hf F. assert (∀ b, b ≠ a → nonce (ups_account ins f a d) b = nonce d b) as Hn.
  { intros b Hb. unfold nonce, mval. cbn. by rewrite lookup_insert_ne. }
  assert (nonce d a ≤ nonce (ups_account ins f a d) a < two63) as Ha.
  { specialize (F a). unfold nonce, mval in *. cbn. rewrite lookup_insert_eq. destruct (accounts d !! a); [rewrite Hf|]. all: lia. }
  split; intros b; destruct (decide (b = a)) as [->|Hb]; try rewrite Hn by done; [specialize (F a); lia|apply F|lia|lia].
Qed.
Lemma later_updw f d : later d (upd_wallet f d).
Proof. apply later_same. by db_frame. Qed.

Lemma later_bind_row a r d : later d (bind_row a r d).
Proof. apply later_same. unfold bind_row. by case_match. Qed.

(** * Transactions *)

Definition onward {A} (d0 : DB) (m : tx DB A) : Prop := ∀ d a d', later d0 d → m d = Ok (a, d') → later d0 d'.

Lemma onward_later {A} (m : tx DB A) d a d' : onward d m → m d = Ok (a, d') → later d d'.
Proof. intros H. by apply H. Qed.
Lemma onward_bind {A B} d0 (m : tx DB A) (f : A → tx DB B) : onward d0 m → (∀ a, onward d0 (f a)) → onward d0 (bind m f).
Proof. intros Hm Hf d b d' L (a & d1 & H1 & H2)%bind_ok. eapply Hf; [|exact H2]. by eapply Hm. Qed.
Lemma onward_get {B} d0 (f : DB → tx DB B) : (∀ d, later d0 d → onward d0 (f d)) → onward d0 (bind get f).
Proof. intros Hf d b d' L G. apply (Hf d L d b d' L). exact G. Qed.
Lemma onward_ret {A} d0 (a : A) : onward d0 (ret a).
Proof. by intros d b d' L [_ ->]%ret_ok. Qed.
Lemma onward_fail {A} d0 e : onward d0 (fail e : tx DB A).
Proof. done. Qed.
Lemma onward_lift {A} d0 (r : result A) : onward d0 (lift r).
Proof. intros d a d' L. unfold lift. destruct r; [|done]. by intros [= _ <-]. Qed.
Lemma onward_guard d0 b e : onward d0 (guard b e).
Proof. unfold guard. destruct b; [apply onward_ret|apply onward_fail]. Qed.
Lemma onward_put d0 d : later d0 d → onward d0 (put d).
Proof. intros L d1 a d' _. unfold put. by intros [= _ <-]. Qed.
Lemma onward_modify d0 f : (∀ d, later d0 d → later d0 (f d)) → onward d0 (modify f).
Proof. intros Hf d a d' L ->%modify_ok. by apply Hf. Qed.
Lemma onward_attempt {A} d0 (m : tx DB A) : onward d0 m → onward d0 (attempt m).
Proof. intros Hm d a d' L. unfold attempt. destruct (m d) as [[x d1]|] eqn:E; intros [= _ <-]; [by eapply Hm|done]. Qed.
Lemma onward_iter {A} d0 (f : A → tx DB unit) l : (∀ x, onward d0 (f x)) → onward d0 (iter_tx f l).
Proof. intros Hf. induction l as [|x l IH]; cbn [iter_tx]; [apply onward_ret|]. by apply onward_bind. Qed.

Create HintDb onward.
Ltac ahead :=
  first
  [ assumption
  | eapply transitivity; [eassumption|];
    first [ apply later_same; reflexivity
          | apply later_upd; intros; reflexivity
          | apply later_ups; [change (0 ≤ 0 < two63); split; [discriminate|reflexivity]|intros; reflexivity]
          | apply later_updw
          | apply later_bind_row ]
  | match goal with |- later _ ?d => match d with context [match ?x with _ => _ end] => destruct x end end; ahead ].
Ltac onward_head m := match m with ?f _ => onward_head f | _ => m end.
Ltac onward :=
  intros; cbv beta zeta;
  lazymatch goal with
  | |- onward _ (bind get _) => apply onward_get; onward
  | |- onward _ (bind _ _) => apply onward_bind; [onward|onward]
  | |- onward _ (ret _) => apply onward_ret
  | |- onward _ (fail _) => apply onward_fail
  | |- onward _ (lift _) => apply onward_lift
  | |- onward _ (guard _ _) => apply onward_guard
  | |- onward _ (put _) => apply onward_put; ahead
  | |- onward _ (modify _) => apply onward_modify; intros; cbv beta; ahead
  | |- onward _ (attempt _) => apply onward_attempt; onward
  | |- onward _ (iter_tx _ _) => apply onward_iter; onward
  | |- onward _ (match ?x with _ => _ end) => destruct x; onward
  | |- onward _ (l_burn _ _) => cbn [l_burn sup_lane hms_lane]; onward
  | |- onward _ ?m => first [solve [eauto 2 with onward nocore] | let f := onward_head m in progress unfold f; onward]
  end.

(** ** Transfers *)

(** The one write of a nonce. *)
Lemma later_spend f a n x d : accounts d !! a = Some x → next_nonce x ≤ n < two63 → (∀ y, next_nonce (f y) = n) → later d (upd_account f a d).
Proof.
  intros Hx Hn Hf F. unfold upd_account. rewrite Hx. pose proof (F a) as Fa. unfold nonce, mval in Fa. rewrite Hx in Fa.
  assert (∀ b, nonce (set_accounts (<[a := f x]> (accounts d)) d) b = if decide (b = a) then n else nonce d b) as E.
  { intros b. unfold nonce, mval. cbn. case_decide as Hb; [subst; by rewrite lookup_insert_eq|by rewrite lookup_insert_ne]. }
  split; intros b; rewrite E; case_decide as Hb; try lia; [apply F|]. subst. unfold nonce, mval. rewrite Hx. lia.
Qed.

Lemma onward_debit_credit d0 t : onward d0 (debit_credit t).
Proof.
  intros d u d' L G. etransitivity; [exact L|]. clear L. unfold debit_credit in G. apply bind_ok in G as (? & ? & [-> ->]%get_ok & G).
  destruct (accounts d !! From t) as [fa|] eqn:Ef; [|done].
  destruct (match accounts d !! To t with Some _ => _ | None => _ end) as [toBal toNonce]. cbv zeta in G. inv_tx G. b2p.
  intros F. pose proof (F (From t)) as Ffa. unfold nonce, mval in Ffa. rewrite Ef in Ffa.
  assert (u64 (next_nonce fa + 1) = next_nonce fa + 1) as En by (apply u64_small; unfold two63, two64 in *; lia).
  revert F. match goal with |- _ → nonces_fit ?d2 ∧ _ => change (later d d2) end.
  match goal with |- later d (ups_account _ _ _ ?d1) => transitivity d1 end; [|by apply later_ups].
  by apply (later_spend _ _ (u64 (next_nonce fa + 1)) fa); [|lia|].
Qed.
#[export] Hint Resolve onward_debit_credit : onward.

Lemma onward_apply_transfer `{ChainParams} `{Crypto} d0 now idx bh w item : onward d0 (apply_transfer now idx bh w item).
Proof. onward. Qed.
#[export] Hint Resolve onward_apply_transfer : onward.
Lemma onward_expire_rows d0 now w rows e : onward d0 (expire_rows now w rows e).
Proof. revert e. induction rows as [|[id r] rows IH]; intros e; cbn [expire_rows]; onward. Qed.
#[export] Hint Resolve onward_expire_rows : onward.
Lemma onward_pending `{ChainParams} `{Crypto} d0 now idx h : onward d0 (apply_pending now idx h).
Proof. onward. Qed.
#[export] Hint Resolve onward_pending : onward.

(** ** Everything a node does to its database *)

(** One transaction of the node, under whatever consensus parameters were in force, or one of the parts that follow a transfer
    within its block: the other transfers, the two side lanes, the meta rows. *)
Inductive node_tx `{Crypto} `{PoHHash} : DB → DB → Prop :=
  | nt_genesis (P : ChainParams) strict signer now rid miner b d d' : InitGenesis strict signer now rid miner d = Ok (b, d') → node_tx d d'
  | nt_mine e ov signer strict now bnow anow rid miner nonce eval rw t0 id b d d' :
      AppendPoHBlock e ov signer strict now bnow anow rid miner nonce eval rw t0 id d = Ok (b, d') → node_tx d d'
  | nt_import e ov strict now anow b d d' : ImportPoHBlock e ov strict now anow b d = Ok (tt, d') → node_tx d d'
  | nt_transfer (P : ChainParams) now idx bh w item d d' : apply_transfer now idx bh w item d = Ok (tt, d') → node_tx d d'
  | nt_sup_batch (P : ChainParams) now idx bh d d' : applyPendingSupTransfers now idx bh d = Ok (tt, d') → node_tx d d'
  | nt_hms_batch (P : ChainParams) now idx bh d d' : applyPendingHmsTransfers now idx bh d = Ok (tt, d') → node_tx d d'
  | nt_meta v d : node_tx d (set_meta v d)
  | nt_modulus (P : ChainParams) now n d d' : PoHTargetMod now d = Ok (n, d') → node_tx d d'
  | nt_order (P : ChainParams) e oe sql_sum signer strict now raw dec wasm r d d' :
      InsertOrderTask e oe sql_sum signer strict now raw dec wasm d = Ok (r, d') → node_tx d d'
  | nt_expire (P : ChainParams) strict now d d' : ExpireOpenOrderTasks strict now d = Ok (tt, d') → node_tx d d'
  | nt_escrow (P : ChainParams) d d' : escrow_step d d' → node_tx d d'
  | nt_sup (P : ChainParams) d d' : sup_step d d' → node_tx d d'
  | nt_sup_burn now nano from amt memo d d' : BurnSUPForService now nano from amt memo d = Ok (tt, d') → node_tx d d'
  | nt_sup_fee (P : ChainParams) now cid from amt product ref pub sig d d' :
      BurnSUPForFee now cid from amt product ref pub sig d = Ok (tt, d') → node_tx d d'
  | nt_hms (P : ChainParams) d d' : hms_step d d' → node_tx d d'
  | nt_hms_genesis env now tr d d' : InitHMSGenesis env now tr d = Ok (tt, d') → node_tx d d'
  | nt_submit (P : ChainParams) now t h d d' : SubmitTransferTx now t d = Ok (h, d') → node_tx d d'
  | nt_stale from n k d d' : RejectStaleLocalPending from n d = Ok (k, d') → node_tx d d'
  | nt_bind addr pub sig c d d' : BindAddressPubKey addr pub sig d = Ok (c, d') → node_tx d d'
  | nt_rebind addr d d' : RebindWalletToSigner addr d = Ok (tt, d') → node_tx d d'
  | nt_mirror d d' : MirrorWalletRowFromAccounts d = Ok (tt, d') → node_tx d d'
  | nt_reward x d d' : AppendMiningReward x d = Ok (tt, d') → node_tx d d'.

(** Read a committed step off its transaction. *)
Ltac walks := match goal with G : ?m ?d = Ok (_, ?d') |- later ?d ?d' => apply (onward_later m _ _ _ ltac:(onward) G) end.

Section steps.
Context `{Crypto} `{PoHHash}.

Lemma escrow_later (P : ChainParams) d d' : escrow_step d d' → later d d'.
Proof. intros [S|[ev S]]; [destruct S|]; walks. Qed.
Lemma sup_later (P : ChainParams) d d' : sup_step d d' → later d d'.
Proof. intros S. destruct S; walks. Qed.
Lemma hms_later (P : ChainParams) d d' : hms_step d d' → later d d'.
Proof. intros S. destruct S; walks. Qed.
Lemma node_tx_later d d' : node_tx d d' → later d d'.
Proof.
  intros S. destruct S; first [by eapply escrow_later|by eapply sup_later|by eapply hms_later|by apply later_same|walks].
Qed.
Lemma node_txs_later d d' : rtc node_tx d d' → later d d'.
Proof. induction 1 as [|d1 d2 d3 S _ IH]; [done|]. etransitivity; [by apply node_tx_later|exact IH]. Qed.
(** Every state a node reaches from an empty database has nonces that fit. *)
Lemma node_nonces_fit d : rtc node_tx empty_db d → nonces_fit d.
Proof. intros R. apply (node_txs_later _ _ R). intros a. unfold nonce, mval. cbn. by rewrite lookup_empty. Qed.

(** ** A transfer spends its nonce for good *)

Lemma debit_credit_spends t d u d' : nonces_fit d → debit_credit t d = Ok (u, d') → nonce d (From t) < nonce d' (From t).
Proof.
  intros F G. unfold debit_credit in G. apply bind_ok in G as (? & ? & [-> ->]%get_ok & G).
  destruct (accounts d !! From t) as [fa|] eqn:Ef; [|done]. pose proof (F (From t)) as Ffa. unfold nonce, mval in Ffa. rewrite Ef in Ffa.
  destruct (match accounts d !! To t with Some _ => _ | None => _ end) as [toBal toNonce]. cbv zeta in G. inv_tx G. b2p.
  unfold nonce, mval. rewrite Ef, accounts_ups, accounts_upd. 
  assert (u64 (next_nonce fa + 1) = next_nonce fa + 1) as En by (apply u64_small; unfold two63, two64 in *; lia).
  destruct (decide (To t = From t)) as [->|Hn]; [|rewrite lookup_insert_ne by done]; rewrite ?lookup_insert_eq, lookup_alter_eq, Ef; cbn; lia.
Qed.
Lemma apply_transfer_spends (P : ChainParams) now idx bh w item d d' : nonces_fit d → transferCode now idx (p_tx item) d = "" →
  apply_transfer now idx bh w item d = Ok (tt, d') → nonce d (From (p_tx item)) < nonce d' (From (p_tx item)).
Proof.
  intros F Hc G. unfold apply_transfer in G. apply bind_ok in G as (? & ? & [-> ->]%get_ok & G). cbv zeta in G. rewrite Hc in G.
  change (String.eqb "" "internal_error") with false in G. change (negb (String.eqb "" "")) with false in G. cbv iota in G.
  apply bind_ok in G as (u & d2 & G1 & G2). unfold move_hmc in G1. cbv zeta in G1. apply bind_ok in G1 as (u1 & d1 & G0 & G1).
  pose proof (debit_credit_spends _ _ _ _ F G0) as Hs. pose proof (onward_later _ _ _ _ (onward_debit_credit d (p_tx item)) G0) as L0.
  assert (later d1 d2) as L1 by walks. assert (later d2 d') as L2 by walks.
  destruct (L0 F) as [F1 _]. destruct (L1 F1) as [F2 Ha]. destruct (L2 F2) as [_ Hb].
  specialize (Ha (From (p_tx item))). specialize (Hb (From (p_tx item))). lia.
Qed.
End steps.

(** C15: A transfer is applied at most once. Once an accepted transfer has been applied, no later state of the node accepts that
    transaction again, at any time, for any block index and under any consensus parameters: whatever the node does in between, the rest
    of that block, blocks mined or imported, orders, campaign escrows, SUP and HMS operations, submissions and key
    or wallet updates, the transaction's nonce stays behind the sender's. (The nonces of the state it was applied in fit their column, as
    they do in every state reached from an empty database.) *)
Theorem transfer_no_replay `{Crypto} `{PoHHash} (P P' : ChainParams) now idx bhash w item d d' d'' :
  tx_typed (p_tx item) → nonces_fit d → @transferCode P _ now idx (p_tx item) d = "" →
  @apply_transfer P _ now idx bhash w item d = Ok (tt, d') → rtc node_tx d' d'' →
  ∀ now' idx', @transferCode P' _ now' idx' (p_tx item) d'' ≠ "".
Proof.
  intros Ht F Hc Ha R now' idx' Hc'.
  pose proof (apply_transfer_spends P now idx bhash w item d d' F Hc Ha) as Hs.
  destruct (node_tx_later d d' (nt_transfer P now idx bhash w item d d' Ha) F) as [F1 _].
  destruct (node_txs_later _ _ R F1) as [_ Hl]. specialize (Hl (From (p_tx item))).
  destruct (transferCode_ok _ _ _ _ Ht Hc) as ([a Hacc] & _ & _). destruct (transferCode_ok _ _ _ _ Ht Hc') as ([a' Hacc'] & _ & _).
  unfold nonce, mval in Hs, Hl. rewrite (acc_account _ _ _ _ Hacc) in Hs. rewrite (acc_account _ _ _ _ Hacc') in Hl.
  rewrite (acc_nonce _ _ _ _ Hacc) in Hs. rewrite (acc_nonce _ _ _ _ Hacc') in Hl. lia.
Qed.

Lemma accounts_fit d : accounts_ok d → nonces_fit d.
Proof. intros Ho a. unfold nonce, mval. destruct (accounts d !! a) as [x|] eqn:E; [|done]. destruct (Ho a x E) as (_ & H & _). exact H. Qed.

(** The transfer of the example is applied, offered again in the same block and refused, and a side lane follows. *)
Definition spent_db : DB := run (@apply_transfer (params_of empty_env 0) toy_crypto 1000000 10 "b" (toy_addr "a") ex_item) ex_db.
Definition offered_db : DB := run (@apply_transfer (params_of empty_env 0) toy_crypto 1000000 10 "b" (toy_addr "a") ex_item) spent_db.
Definition later_db : DB := run (@applyPendingSupTransfers (params_of empty_env 0) toy_crypto 1000000 10 "b") offered_db.

Lemma transfer_no_replay_witness :
  @transferCode (params_of empty_env 0) toy_crypto 1000000 10 (ex_tx 0) ex_db = "" ∧
  @transferCode (params_of empty_env 0) toy_crypto 1000100 11 (ex_tx 0) later_db ≠ "".
Proof.
  assert (HC : @transferCode (params_of empty_env 0) toy_crypto 1000000 10 (ex_tx 0) ex_db = "") by (vm_compute; reflexivity).
  split; [exact HC|].
  assert (Hrun : ∀ (m : tx DB unit) d, is_ok (outcome m d) = true → m d = Ok (tt, run m d)).
  { intros m d. unfold outcome, run. destruct (m d) as [[[] d']|]; done. }
  apply (@transfer_no_replay toy_crypto toy_hash (params_of empty_env 0) (params_of empty_env 0) 1000000 10 "b" (toy_addr "a") ex_item ex_db spent_db).
  - unfold tx_typed, two63, two64. cbn. lia.
  - apply accounts_fit, ex_ok.
  - exact HC.
  - apply Hrun. vm_compute. reflexivity.
  - eapply rtc_l; [|apply rtc_once].
    + apply (nt_transfer (params_of empty_env 0) 1000000 10 "b" (toy_addr "a") ex_item spent_db offered_db). apply Hrun. vm_compute. reflexivity.
    + apply (nt_sup_batch (params_of empty_env 0) 1000000 10 "b" offered_db later_db). apply Hrun. vm_compute. reflexivity.
Defined.
