(* ===== verification/ChainReplay.v ===== *)
(** A follower in the producer's state replays a mined block to the producer's next state. *)
From S2P Require Import Prelude Float64 GoText Params Emission OrderFee Retarget Json GoNum Ledger Address GoSort Transfers Lane SupLedger HmsLedger EscrowSplit FuzzEscrow EscrowInv Orders OrdersInv Block PohPayload Consensus Chain ChainFrame ChainInv ChainLedger ChainSupply ChainToy.
#[local] Open Scope Z_scope.

(** * Lookups in the extended chain *)

Lemma block_by_hash_blocks d d' h : blocks d' = blocks d → block_by_hash d' h = block_by_hash d h.
Proof. unfold block_by_hash. by intros ->. Qed.

Lemma by_hash_at `{Crypto} `{PoHHash} e d n i r : chain_ok e d n → blocks d !! i = Some r →
  block_by_hash d (row_hash r) = Some (row_block r).
Proof.
  intros C Hr. destruct (block_by_hash d (row_hash r)) as [b|] eqn:E.
  - apply block_by_hash_some in E as (j & x & Hj & Hh & <-).
    assert (j = i) as -> by by eapply (co_unique _ _ _ C). rewrite Hr in Hj. by injection Hj as <-.
  - exfalso. by apply (block_by_hash_none _ _ E i r Hr).
Qed.

(** The retarget reads blocks below the new one only. *)
Lemma legacy_next_mod_extend d d' n r now prev M : blocks d' = <[n + 1 := r]> (blocks d) → 
  legacy_next_mod d' (n + 1) now prev M = legacy_next_mod d (n + 1) now prev M.
Proof.
  intros E. unfold legacy_next_mod. cbv zeta. destruct (_ && _); [|done].
  rewrite E, lookup_insert_ne; [done|]. unfold PoHRetargetWindowBlocks. lia.
Qed.

Lemma asertModAfterQ_extend `{ChainParams} d d' n r ts : blocks d' = <[n + 1 := r]> (blocks d) →
  asertModAfterQ d' (n + 1) ts = asertModAfterQ d (n + 1) ts.
Proof.
  intros E. unfold asertModAfterQ, blockTimestampQ. cbv zeta. destruct (Z.ltb_spec (n + 1) (asert_height - 1)); [done|].
  destruct (Z.eqb_spec (n + 1) (asert_height - 1)); [done|]. cbn [negb]. by rewrite E, lookup_insert_ne by lia.
Qed.

(** The producer's next modulus is the follower's. *)
Lemma nextPoHTargetModTx_replay `{Crypto} `{PoHHash} `{ChainParams} e d d' n m r r' b now M nm :
  chain_ok e d' m → 0 ≤ n → blocks d !! n = Some r → blocks d' = <[n + 1 := r']> (blocks d) →
  b_Index b = n + 1 → b_PrevHash b = row_hash r → 0 < b_Timestamp b →
  (if ASERTActiveForIndex (u64 (n + 1 + 1)) then asertModAfterQ d (n + 1) (b_Timestamp b) = Ok nm
   else legacy_next_mod d (n + 1) (b_Timestamp b) (Some (row_block r)) M = Ok nm) →
  nextPoHTargetModTx now d' b M = Ok nm.
Proof.
  intros C Hn Hr E Hi Hp Ht G. unfold nextPoHTargetModTx. rewrite Hi. destruct (ASERTActiveForIndex _).
  - by rewrite (asertModAfterQ_extend d d' n r').
  - destruct (Z.leb_spec (b_Timestamp b) 0); [lia|]. rewrite (legacy_next_mod_extend d d' n r') by done.
    rewrite Hp, (by_hash_at e d' m n r); [done|done|]. rewrite E, lookup_insert_ne; [done|lia].
Qed.

(** * The primary wallet keeps its address *)

Definition same_owner (d d' : DB) : Prop := w_address <$> wallet d' = w_address <$> wallet d.

Lemma expire_rows_owner now w rows : ∀ x d k d', expire_rows now w rows x d = Ok (k, d') → same_owner d d'.
Proof.
  induction rows as [|[id v] rows IH]; intros x d k d'; cbn [expire_rows]; [by intros [_ ->]%ret_ok|].
  destruct (x <? v); [done|]. intros G. step G G1. step G G2. apply IH in G. unfold same_owner in *. rewrite G.
  assert (wallet s0 = wallet s) as -> by (unfold update_open_task in G2; by inv_tx G2). clear G2 G IH.
  inv_tx G1; [|done]. cbn. unfold upd_wallet. destruct (wallet d) eqn:E; cbn; by rewrite ?E.
Qed.

Lemma expire_owner now d n d' : expireOpenOrderTasksTx now d = Ok (n, d') → same_owner d d'.
Proof.
  unfold expireOpenOrderTasksTx. intros G. step G G0. destruct (wallet d); [|by inv_tx G]. cbv zeta in G.
  destruct (Nat.eqb _ 0); [by inv_tx G|]. step G G1. apply expire_rows_owner in G1. inv_tx G. exact G1.
Qed.

Lemma same_owner_wallet d d' w : same_owner d d' → wallet d = Some w → ∃ w', wallet d' = Some w' ∧ w_address w' = w_address w.
Proof. unfold same_owner. intros E Hw. rewrite Hw in E. destruct (wallet d') as [w'|]; [|done]. injection E as E. eauto. Qed.

(** * The locks *)

(** A node whose activation height, authority key and network id are pinned. *)
Record pinned (d : DB) : Prop := {
  pn_height : 1 ≤ lockedHeight d;
  pn_auth : pin_set d metaAuthorityPubKey = true;
  pn_chain : pin_set d metaV2ChainID = true;
}.

Lemma pinned_stays d d' : pinning d d' → pinned d → pinned d'.
Proof.
  intros P [A B C].
  assert (K : ∀ k, bool_decide (k ∈ pin_keys) = true → pin_set d k = true → meta d' !! k = meta d !! k)
    by (intros k Hk%bool_decide_eq_true; by apply P).
  assert (pin_set d metaEconomicsV2ActivationHeight = true) as A' by (apply Z.leb_le in A; exact A).
  split; [|by rewrite (pin_set_meta d d') by (by apply K)..].
  unfold lockedHeight, metaUint. rewrite K by done. exact A.
Qed.

(** The producer's own lock has nothing left to do. *)
Lemma self_lock_noop `{P : ChainParams} e signer d u d' :
  pinned d → lockAuthorityPubKeyTx e signer true d = Ok (u, d') → d' = d.
Proof.
  intros [_ B C] G. unfold lockAuthorityPubKeyTx, lockV2ChainIDTx in G. destruct (v2_height <? 1); [by inv_tx G|].
  change (negb (String.eqb (trim_space (meta_txt d metaV2ChainID)) "") = true) in C.
  change (negb (String.eqb (trim_space (meta_txt d metaAuthorityPubKey)) "") = true) in B.
  step G G1. step G1 G2. rewrite C in G1. apply guard_ok in G1 as [_ ->]. step G G3.
  assert (negb (String.eqb (authorityPubKeyQ d) "") = true) as E.
  { apply negb_true_iff in B. apply negb_true_iff, String.eqb_neq. intros F%to_lower_nonempty.
    apply String.eqb_neq in B. by apply B. }
  cbv zeta in G. rewrite E in G. by apply guard_ok in G as [_ ->].
Qed.

(** * The checks of the importer accept the prepared block *)

Lemma rbind_run {A B} (r : result A) (f : A → result B) a : r = Ok a → rbind r f = f a.
Proof. by intros ->. Qed.

(** The mined header's clock. *)
Record on_time `{ChainParams} (prev : Block) (fnow : Z) (b : Block) : Prop := {
  ot_pos : 0 < b_Timestamp b;
  ot_parent : b_Timestamp prev ≤ b_Timestamp b;
  ot_future : b_Timestamp b ≤ fnow;
  ot_range : fnow + PoHASERTMaxFutureSec < two63;
}.

Lemma import_mod_replay `{P : ChainParams} d n r b fnow t0 M : 0 ≤ n → blocks d !! n = Some r → b_Index b = n + 1 →
  on_time (row_block r) fnow b → append_mod d (n + 1) t0 "" = Ok M → import_mod fnow d b = Ok M.
Proof.
  intros Hn Hr Hi [T1 T2 T3 T4] G. apply append_mod_ok in G as (_ & Ma & Ml). unfold import_mod. rewrite Hi.
  destruct (ASERTActiveForIndex (n + 1)); [|by rewrite (Ml eq_refl eq_refl)]. specialize (Ma eq_refl).
  replace (n + 1 - 1) with n by lia. unfold asertModForIndexQ in Ma. destruct (Z.eqb_spec (n + 1) 0); [lia|].
  replace (n + 1 - 1) with n in Ma by lia. unfold blockTimestampQ at 1. unfold blockTimestampQ at 1 in Ma. rewrite Hr in *. cbn [rbind] in *.
  destruct (Z.ltb_spec (b_Timestamp b) (b_Timestamp (row_block r))); [lia|].
  rewrite i64_small by (unfold PoHASERTMaxFutureSec, two63 in *; lia).
  destruct (Z.ltb_spec (fnow + PoHASERTMaxFutureSec) (b_Timestamp b)); [unfold PoHASERTMaxFutureSec in *; lia|]. exact Ma.
Qed.

Lemma check_import_replay `{Crypto} `{PoHHash} e ov signer now bnow rid miner nonce eval t0 b nm t M b0 n r fnow d :
  let P := params_of e ov in
  0 ≤ n < two63 → chain_ok e d n → blocks d !! n = Some r → metaText d metaTipHash = Some (row_hash r) →
  0 ≤ nonce < two64 → 0 ≤ eval < two64 →
  prepared P signer d now bnow rid miner nonce eval t0 "" b nm t M b0 → on_time (row_block r) fnow b →
  @check_import _ _ P e fnow d b = Ok ("", M, BaseRewardForBlockIndex (b_Index b)) ∧
  b_Index b = n + 1 ∧ b_PrevHash b = row_hash r.
Proof.
  intros P Hn C Hr Ht Hno Hev [T Hm Hw Hb _ Hs Hv] Hot. destruct (tip_at e d n r Hn C Hr) as [E1 E2].
  unfold read_tip in T. rewrite Ht, E2, E1 in T. apply ok_inj in T as <-. cbn [tip_hash tip_block tip_next] in *.
  pose proof (built_sign _ _ _ _ _ _ _ _ signer (build_block_built _ _ _ _ _ _ _ _ _ _ _ Hb)) as [B1 B2 B3 B4 B5 B6 B7].
  rewrite <- Hs in *. cbn [tip_hash tip_block tip_next] in *. split; [|done].
  pose proof (append_mod_ok _ _ _ _ _ Hm) as (Mc & _ & _).
  assert (RM : 0 ≤ M < two64).
  { pose proof (ClampPoHTargetMod_range M) as [R _]. rewrite Mc in R. unfold PoHTargetMinMod, PoHTargetMaxMod, two64 in *. lia. }
  assert (RT : pohFieldsFromPayload (T_Payload (b_Task b)) = Ok (nonce, eval, M)).
  { rewrite B6, payload_fields, Mc; [done..|apply formula_label]. }
  assert (RO : orderTaskIDFromPayload (T_Payload (b_Task b)) = "").
  { rewrite B6, payload_order; [done..|apply formula_label]. }
  unfold check_import. rewrite B5. change (negb (String.eqb (trim_space PoHBlockKind) PoHBlockKind)) with false. cbv iota.
  rewrite Hv. cbn [rbind]. rewrite RO. change (trim_space "") with "". change (negb (String.eqb "" "")) with false. cbn [andb].
  rewrite RT. cbn [rbind]. rewrite E1. cbn [rbind]. rewrite B1, Z.eqb_refl. cbn [negb].
  assert (meta_txt d metaTipHash = row_hash r) as -> by (unfold meta_txt; by rewrite Ht).
  rewrite B2, String.eqb_refl. cbn [negb].
  assert (@import_mod P fnow d b = Ok M) as -> by (eapply (import_mod_replay d n r b fnow t0 M); [lia|done|done|exact Hot|exact Hm]).
  cbn [rbind]. rewrite Z.eqb_refl. cbn [negb].
  assert ((if negb (b_Nonce b =? 0) then b_Nonce b else nonce) = nonce) as -> by (rewrite B4; by destruct (negb _)).
  by rewrite (validate_effective (n + 1) nonce eval M (row_hash r) miner b B3 Hw).
Qed.

(** * The bookings agree *)

Lemma update_meta_owner k v d u d' : update_meta k v d = Ok (u, d') → same_owner d d'.
Proof. unfold update_meta. intros ->%modify_ok. unfold same_owner. by case_match. Qed.
Lemma kept_owner K d d' : kept K d d' → same_owner d d'.
Proof. intros [_ _ A _]. exact A. Qed.

(** Rewarding the wallet's owner, or the recipient the header names. *)
Lemma rewards_replay `{ChainParams} b rw d d1 d2 u v : ledger_inv d → 
  (EconomicsV2ActiveForIndex (b_Index b) = true → ∀ w, wallet d = Some w → b_RewardTo b = w_address w) →
  (if f_ltb (f_of_Z 0) rw then
     let '(m, bu) := econTotalsUnits d in mint_producer (b_Index b) (HMCToUnits rw) m bu
   else ret tt) d = Ok (u, d1) →
  (let* w := wallet_row ErrNoRows in mintEmptyBlockSUPTx (b_Index b) "" (w_address w)) d1 = Ok (v, d2) →
  (if f_ltb (f_of_Z 0) rw then
     let '(m, bu) := econTotalsUnits d in mint_importer b (HMCToUnits rw) m bu
   else ret tt) d = Ok (u, d1) ∧ mintEmptyBlockSUPTx (b_Index b) "" (b_RewardTo b) d1 = Ok (v, d2).
Proof.
  intros L Hr G1 G2. pose proof (li_escrow d L) as I. pose proof (ei_wallet d I) as Wo. pose proof Wo as (w & Ew & Tw & Nw & _).
  assert (O : same_owner d d1).
  { destruct (f_ltb _ rw); [|by inv_tx G1]. destruct (econTotalsUnits d) as [m bu].
    apply (kept_owner reward_keys). by apply mint_producer_kept in G1. }
  destruct (same_owner_wallet d d1 w O Ew) as (w1 & Ew1 & Aw). split.
  - destruct (f_ltb _ rw); [|done]. destruct (econTotalsUnits d) as [m bu].
    apply (mint_producer_importer w b (HMCToUnits rw) m bu d u d1 Wo (ei_ok d I) Ew); [|intros Ha; by apply Hr|done].
    apply HMCToUnits_ge0.
  - step G2 G3. unfold wallet_row in G3. rewrite (bind_run get _ d1 d1 d1 eq_refl), Ew1 in G3. apply ret_ok in G3 as [<- <-].
    destruct (EconomicsV2ActiveForIndex (b_Index b)) eqn:Ea.
    + rewrite (Hr eq_refl w Ew), <- Aw. exact G2.
    + unfold mintEmptyBlockSUPTx in *. rewrite Ea in *. cbn [negb] in *. rewrite orb_true_r in *. exact G2.
Qed.

Lemma commit_replay `{Crypto} `{P : ChainParams} strict anow miner nonce rw b nm d d' fnow M n :
  ledger_inv d → dense d n → 0 ≤ n → b_Index b = n + 1 → n + 2 < two63 → 0 < b_Timestamp b →
  (EconomicsV2ActiveForIndex (b_Index b) = true → ∀ w, wallet d = Some w → b_RewardTo b = w_address w) →
  (∀ d5, blocks d5 = <[n + 1 := mkBlockRow (b_Hash b) (b_PrevHash b) b]> (blocks d) → blocks d5 = blocks d' →
     nextPoHTargetModTx fnow d5 b M = Ok nm) →
  commit_block strict (b_Timestamp b) anow miner nonce rw "" b nm d = Ok (tt, d') →
  commit_import strict fnow anow "" M rw b d = Ok (tt, d').
Proof.
  intros L D Hn Hi Hb Ht Hr Hnm G. pose proof (commit_block_advanced _ _ _ _ _ _ _ _ _ _ _ _ G) as A.
  unfold commit_block in G. step G G0. step G Gv.
  apply bind_ok in G as (k & d1 & Ge & G). apply bind_ok in G as ([] & d2 & Gi & G).
  apply bind_ok in G as ([] & ? & [_ <-]%ret_ok & G). apply bind_ok in G as ([] & ? & [_ <-]%ret_ok & G).
  apply bind_ok in G as ([] & d3 & Gu & G). step G G0.
  apply bind_ok in G as ([] & d4 & Gr & G). apply bind_ok in G as ([] & d5 & Gs & G).
  apply bind_ok in G as ([] & d6 & Ga & G). apply bind_ok in G as ([] & d7 & Gm & G).
  destruct (prefix_ledger _ b d n k tt tt d1 d2 d3 L Hn D Hi Hb Ge Gi Gu) as (L3 & _ & _).
  assert (O : same_owner d d3).
  { apply expire_owner in Ge. apply insert_block_spec in Gi as (-> & _). apply update_meta_owner in Gu.
    unfold same_owner in *. by rewrite Gu. }
  destruct (rewards_replay b rw d3 d4 d5 tt tt L3) as [Gr' Gs']; [|exact Gr|exact Gs|].
  { intros Ha w Ew. pose proof (li_escrow d L) as I. destruct (ei_wallet d I) as (w0 & Ew0 & _).
    destruct (same_owner_wallet d d3 w0 O Ew0) as (w' & Ew' & Aw). rewrite Ew in Ew'. injection Ew' as ->.
    rewrite Aw. by apply Hr. }
  assert (B6 : blocks d6 = blocks d').
  { apply econ_guard_run in G as [-> _]. inv_tx Gm. done. }
  assert (V : lift (validateV2HeaderQ b "" d) d = Ok (tt, d)).
  { apply lift_ok. split; [|reflexivity]. rewrite Gv. by destruct a. }
  unfold commit_import. rewrite (bind_run get _ d d d eq_refl), (bind_run _ _ _ _ _ V).
  cbv zeta. destruct (Z.leb_spec (b_Timestamp b) 0); [lia|].
  rewrite (bind_run _ _ _ _ _ Ge), (bind_run _ _ _ _ _ Gi). 
  rewrite (bind_run (recheck_order (b_Timestamp b) "" rw) _ d2 tt d2 eq_refl), (bind_run (bumpOrderTaskProgress "") _ d2 tt d2 eq_refl).
  rewrite (bind_run _ _ _ _ _ Gu), (bind_run get _ d3 d3 d3 eq_refl).
  change (String.eqb "" "") with true. cbn [negb]. cbv iota.
  rewrite (bind_run _ _ _ _ _ Gr'), (bind_run _ _ _ _ _ Gs'), (bind_run _ _ _ _ _ Ga), (bind_run get _ d6 d6 d6 eq_refl).
  rewrite (bind_run (lift _) _ d6 nm d6); [by rewrite (bind_run _ _ _ _ _ Gm)|].
  apply lift_ok. split; [|reflexivity]. apply Hnm; [|exact B6]. rewrite B6, (ad_blocks _ _ _ A). by rewrite Hi.
Qed.

(** What the producer writes in the header of an empty block. *)
Lemma build_block_time `{Crypto} `{P : ChainParams} signer d t bnow rid miner nonce eval M id b :
  build_block signer d t bnow rid miner nonce eval M id = Ok b → b_Timestamp (tip_block t) ≤ bnow →
  b_Timestamp b = bnow.
Proof.
  unfold build_block. cbv zeta. intros G Hle. set (b0 := NewPoHBlock _ _ _ _ _ _ _ _ _ _) in G.
  change (b_Timestamp b0) with bnow in G. destruct (Z.ltb_spec bnow (b_Timestamp (tip_block t))); [lia|].
  rewrite andb_false_r in G. destruct (EconomicsV2ActiveForIndex _); [|by apply ok_inj in G as <-].
  destruct signer; [|discriminate]. destruct (String.eqb id ""); [destruct (wallet d); [|discriminate]|]; by apply ok_inj in G as <-.
Qed.

Lemma build_block_recipient `{Crypto} `{P : ChainParams} signer d t bnow rid miner nonce eval M b w :
  build_block signer d t bnow rid miner nonce eval M "" = Ok b → wallet d = Some w →
  b_RewardTo b = trim_space (w_address w) ∨ b_RewardTo b = "".
Proof.
  unfold build_block. cbv zeta. intros G Hw. set (b0 := if _ && _ then _ else _) in G.
  assert (b_RewardTo b0 = "") as E by (subst b0; by destruct (_ && _)). clearbody b0.
  destruct (EconomicsV2ActiveForIndex _); [|apply ok_inj in G as <-; by right].
  destruct signer; [|discriminate]. cbn [String.eqb] in G. rewrite Hw in G. apply ok_inj in G as <-. by left.
Qed.

(** From v2 on the header rules ask for a recipient. *)
Lemma v2_recipient `{P : ChainParams} b d : validateV2HeaderQ b "" d = Ok tt →
  EconomicsV2ActiveForIndex (b_Index b) = true → b_RewardTo b ≠ "".
Proof.
  unfold validateV2HeaderQ. intros G Ha E. rewrite Ha, E in G. cbn [negb] in G. by destruct (String.eqb _ _) in G.
Qed.

Lemma signed_fields signer b : b_Timestamp (attachBlockSignature signer b) = b_Timestamp b ∧
  b_RewardTo (attachBlockSignature signer b) = b_RewardTo b.
Proof. by destruct signer. Qed.

(** C2: Mining and importing agree. Take a node whose state is valid and whose height, authority key and
    network id are pinned, and the empty block it mines for the scheduled reward, its clock not
    before the parent's. Whatever [AppendPoHBlock] then did to the database (expiry, the block row,
    the tip, wallet and account credits, the supply counters, the SUP emission, the three transfer
    batches, the next modulus), [ImportPoHBlock] accepts that block in the same state, under the same settings, and does
    exactly the same, even on a node without a signer. Two clock readings matter to the importer: the one that judges the
    block's time ([fnow]) may be any later one, the one that judges the age of the pending transfers when they are applied ([anow]) is
    taken to be the producer's, since a transfer that ages out in between is rejected on one node only. *)
Theorem import_replays_append `{Crypto} `{PoHHash} e ov signer strict now anow rid miner nonce eval rw t0 d b d' t fnow :
  chain_inv e d → ledger_inv d → pinned d → 0 ≤ nonce < two64 → 0 ≤ eval < two64 →
  read_tip d = Ok t → b_Timestamp (tip_block t) ≤ now → 0 < now ≤ fnow → fnow + PoHASERTMaxFutureSec < two63 →
  tip_next t + 1 < two63 → rw = @BaseRewardForBlockIndex (params_of e ov) (tip_next t) →
  AppendPoHBlock e ov signer strict now now anow rid miner nonce eval rw t0 "" d = Ok (b, d') →
  ImportPoHBlock e ov strict fnow anow b d = Ok (tt, d').
Proof.
  intros CI L Pn Hno Hev Rt Htt Hnow Hf Hb Hrw G.
  pose proof (AppendPoHBlock_inv e ov signer strict now now anow rid miner nonce eval rw t0 "" d b d' Hno Hev eq_refl G CI)
    as (n' & r' & _ & C' & _).
  destruct CI as (n & r & Hn & C & Hr & Ht). destruct (tip_at e d n r Hn C Hr) as [E1 E2].
  apply AppendPoHBlock_ok in G as (nm & t' & M & b0 & d1 & d2 & Pr & _ & _ & L1 & L2 & G). change (trim_space "") with "" in *.
  pose proof (pr_tip _ _ _ _ _ _ _ _ _ _ _ _ _ _ _ _ Pr) as Rt'. rewrite Rt in Rt'. apply ok_inj in Rt' as <-.
  pose proof Rt as Rt'. unfold read_tip in Rt'. rewrite Ht, E2, E1 in Rt'. apply ok_inj in Rt' as <-.
  cbn [tip_hash tip_block tip_next] in *.
  pose proof (pr_build _ _ _ _ _ _ _ _ _ _ _ _ _ _ _ _ Pr) as Bb. pose proof (pr_signed _ _ _ _ _ _ _ _ _ _ _ _ _ _ _ _ Pr) as Bs.
  destruct (signed_fields signer b0) as [F1 F2]. rewrite <- Bs in F1, F2.
  assert (Bt : b_Timestamp b = now) by (rewrite F1; by apply (build_block_time _ _ _ _ _ _ _ _ _ _ _ Bb)).
  destruct (check_import_replay e ov signer now now rid miner nonce eval t0 b nm _ M b0 n r fnow d Hn C Hr Ht Hno Hev Pr)
    as (Hc & Bi & Bp); [split; lia|].
  (* the producer's own lock changes nothing *)
  pose proof (lockEconomicsV2ActivationTx_pins _ _ _ _ _ L1) as P1.
  apply self_lock_noop in L2 as ->; [|by apply (pinned_stays d)].
  assert (Il : import_locks e d = true).
  { unfold import_locks. destruct Pn as [Ph _ _]. by destruct (Z.leb_spec 1 (lockedHeight d)); [|lia]. }
  unfold ImportPoHBlock. rewrite (bind_run get _ d d d eq_refl).
  rewrite (bind_run (lift _) _ d ("", M, rw) d) by (apply lift_ok; split; [by rewrite Hc, Bi, Hrw|reflexivity]).
  assert (lockEconomicsV2ActivationForImportTx e ov d = Ok (tt, d1)) as Li.
  { unfold lockEconomicsV2ActivationForImportTx. rewrite (bind_run get _ d d d eq_refl), Il. exact L1. }
  rewrite (bind_run _ _ _ _ _ Li). unfold import_override. rewrite Il.
  destruct (pinning_ledger d d1 P1 L) as (L1' & _ & _). pose proof (pg_db _ _ P1) as Ed.
  assert (Bd : blocks d1 = blocks d) by (by rewrite Ed). rewrite <- Bt in G.
  apply (commit_replay strict anow miner nonce rw b nm d1 d' fnow M n); try done; try lia.
  - unfold dense. rewrite Bd. apply C.
  - intros Ha w Ew. assert (wallet d = Some w) as Ew0 by (by rewrite Ed in Ew).
    destruct (build_block_recipient _ _ _ _ _ _ _ _ _ _ _ Bb Ew0) as [E|E].
    + rewrite F2, E. destruct (ei_wallet d (li_escrow d L)) as (w' & Ew' & Tw & _). rewrite Ew0 in Ew'. by injection Ew' as <-.
    + exfalso. unfold commit_block in G. step G G0. step G Gv. destruct a.
      apply (v2_recipient b d1 Gv Ha). by rewrite F2.
  - intros d5 E5 E5'. apply (nextPoHTargetModTx_replay e d d5 n n' r (mkBlockRow (b_Hash b) (b_PrevHash b) b) b fnow M nm);
      try done; try lia; [by apply (chain_ok_blocks e d')|by rewrite E5, Bd|].
    pose proof (pr_next _ _ _ _ _ _ _ _ _ _ _ _ _ _ _ _ Pr) as N. cbn [tip_next tip_block] in N.
    rewrite Bt. rewrite <- F1, Bt in N. exact N.
Qed.

(** The toy node's block, imported by a node that was in the same state, a minute later. *)
Lemma import_replays_append_witness :
  @ImportPoHBlock toy_crypto toy_hash empty_env 0 true 2060 2000 toy_block toy_pinned = Ok (tt, toy_next).
Proof.
  destruct toy_ledger as (L & _). destruct toy_is_pinned as (A & B & C).
  refine (@import_replays_append toy_crypto toy_hash empty_env 0 (Some toy_signer) true 2000 2000 "r" toy_wallet 857141 6000000
    _ 1000000 toy_pinned toy_block toy_next (mkTip (b_Hash toy_genesis_block) toy_genesis_block 1) 2060
    toy_chain L _ _ _ _ _ _ _ _ eq_refl toy_append_run).
  - split; [exact C|exact A|exact B].
  - split; reflexivity || discriminate.
  - split; reflexivity || discriminate.
  - vm_compute. reflexivity.
  - vm_compute. discriminate.
  - split; reflexivity || discriminate.
  - reflexivity.
  - reflexivity.
Defined.
