(* ===== verification/WorkerSettle.v ===== *)
(** The worker settlement ledger: amounts owed, durable payout intents and their outbox.

    Sources: internal/workersettle/delta.go, store.go, store_sup.go.  A worker is paid by a transfer
    of the settlement wallet; the ledger keeps a watermark of units paid per worker, at most one
    pending intent, the outbox of intents and a journal.  HMC and SUP have separate columns and
    outboxes.

    The float columns (settled_hmc, ...) are mirrors: [hydrateWorkerRow] overwrites them on every
    read by [UnitsToHMC] of the unit columns, so a row keeps the units only.  An intent's JSON is
    the record of the fields that are read back; a number that went through [map[string]any] is
    re-read as Go prints that float64 ([reencode]). *)
From S2P Require Import Prelude Float64 GoText GoNum Params Json.

(** * Amounts (delta.go) *)

Record AccrualDelta := mkDelta {
  BaselineUnits : Z; DeltaUnits : Z; NeedAnchor : bool; NewAnchorUnits : Z; ClearAnchor : bool; Rebase : bool;
}.

Definition ComputeAccrualDelta (accrued settled sessionAnchor : Z) : AccrualDelta :=
  let delta b := if b <? accrued then accrued - b else 0 in
  if accrued <? settled then
    if (sessionAnchor =? 0) || (accrued <? sessionAnchor)
    then mkDelta accrued (delta accrued) true accrued false true
    else mkDelta sessionAnchor (delta sessionAnchor) false 0 false true
  else mkDelta settled (delta settled) false 0 (0 <? sessionAnchor) false.

Definition ShouldSettle (delta minUnits : Z) (force : bool) (forceMinUnits : Z) : bool :=
  if minUnits <=? delta then true else force && (forceMinUnits <=? delta).

Definition CapChunk (delta balance reserve maxChunk : Z) : Z :=
  if balance <=? reserve then 0
  else
    let avail := balance - reserve in
    let capU := if (0 <? maxChunk) && (maxChunk <? avail) then maxChunk else avail in
    if delta <? capU then delta else capU.

(** * Tables *)

(** [pending_json]: the fields [parsePending] reads; an absent or unreadable field is zero. *)
Record Intent := mkIntent {
  i_delta_hmc : f64; i_delta_units : Z; i_payout : string; i_tx_hash : string; i_nonce : Z;
}.
Definition no_intent : Intent := mkIntent (f_of_Z 0) 0 "" "" 0.

Record WorkerRow := mkWorker {
  SettledUnits : Z; SettledSUPUnits : Z; SessionAnchorUnits : Z; SessionAnchorSUPU : Z;
  PayoutAddress : string; LastTxHash : string; LastSettleUnix : Z;
  PendingJSON : option Intent; PendingSUPJSON : option Intent;
}.
Definition zero_worker : WorkerRow := mkWorker 0 0 0 0 "" "" 0 None None.

(** settle_outbox and settle_sup_outbox; the row id is the position from 1 (AUTOINCREMENT, and rows
    are never deleted). *)
Record OutRow := mkOut {
  o_worker : string; o_payout : string; o_delta : Z; o_status : string; o_tx : string; o_nonce : Z;
  o_created : Z; o_applied : Z;
}.

Record JournalRow := mkJournal {
  j_kind : string; j_worker : string; j_units : Z; j_share_count : Z; j_instant : Z; j_ema : Z;
  j_target_mod : Z; j_share_mod : Z; j_note : string; j_created : Z;
}.

Record Settle := mkSettle {
  s_workers : gmap string WorkerRow;
  s_outbox : list OutRow;
  s_sup_outbox : list OutRow;
  s_journal : list JournalRow;
  s_last_force : Z;
  s_migrated : bool;
}.
Definition empty_settle : Settle := mkSettle ∅ [] [] [] 0 false.

Definition set_workers (w : gmap string WorkerRow) (d : Settle) : Settle :=
  mkSettle w (s_outbox d) (s_sup_outbox d) (s_journal d) (s_last_force d) (s_migrated d).
Definition set_outbox (o : list OutRow) (d : Settle) : Settle :=
  mkSettle (s_workers d) o (s_sup_outbox d) (s_journal d) (s_last_force d) (s_migrated d).
Definition set_sup_outbox (o : list OutRow) (d : Settle) : Settle :=
  mkSettle (s_workers d) (s_outbox d) o (s_journal d) (s_last_force d) (s_migrated d).
Definition add_journal (r : JournalRow) (d : Settle) : Settle :=
  mkSettle (s_workers d) (s_outbox d) (s_sup_outbox d) (s_journal d ++ [r]) (s_last_force d) (s_migrated d).
Definition set_force (ts : Z) (d : Settle) : Settle :=
  mkSettle (s_workers d) (s_outbox d) (s_sup_outbox d) (s_journal d) ts (s_migrated d).
Definition set_migrated (d : Settle) : Settle :=
  mkSettle (s_workers d) (s_outbox d) (s_sup_outbox d) (s_journal d) (s_last_force d) true.

Definition worker (wid : string) (d : Settle) : WorkerRow := default zero_worker (s_workers d !! wid).
(** [INSERT ... ON CONFLICT(worker_id) DO UPDATE]: [f] on the row, or on the zero row. *)
Definition upsert_worker (wid : string) (f : WorkerRow → WorkerRow) (d : Settle) : Settle :=
  set_workers (<[wid := f (worker wid d)]> (s_workers d)) d.
(** [UPDATE ... WHERE worker_id=?] *)
Definition update_worker (wid : string) (f : WorkerRow → WorkerRow) (d : Settle) : Settle :=
  set_workers (alter f wid (s_workers d)) d.

(** [UPDATE ... WHERE id=(SELECT id ... WHERE p ORDER BY id DESC LIMIT 1)] *)
Fixpoint update_first (p : OutRow → bool) (f : OutRow → OutRow) (l : list OutRow) : list OutRow :=
  match l with
  | [] => []
  | r :: l' => if p r then f r :: l' else r :: update_first p f l'
  end.
Definition update_last (p : OutRow → bool) (f : OutRow → OutRow) (l : list OutRow) : list OutRow :=
  rev (update_first p f (rev l)).

Definition is_pending (wid : string) (r : OutRow) : bool :=
  String.eqb (o_worker r) wid && String.eqb (o_status r) "pending".

Definition stamp (txh : string) (r : OutRow) : OutRow :=
  mkOut (o_worker r) (o_payout r) (o_delta r) (o_status r) txh (o_nonce r) (o_created r) (o_applied r).
Definition finish (st txh : string) (now : Z) (r : OutRow) : OutRow :=
  mkOut (o_worker r) (o_payout r) (o_delta r) st txh (o_nonce r) (o_created r) now.
Definition abandon (wid : string) (now : Z) (r : OutRow) : OutRow :=
  if is_pending wid r then finish "abandoned" (o_tx r) now r else r.

(** database/sql refuses a uint64 of 2^63 or more. *)
Definition sql_arg (v : Z) : tx Settle unit :=
  guard (v <? two63) "sql: converting argument: uint64 values with high bit set are not supported".

(** * A float64 written and read as JSON

    encoding/json prints a float64 of integral value below 1e21 with the fewest significant digits
    that read back as the same float64, padded with zeros. *)

Definition f_value (x : f64) : Z := mant x * 2 ^ expo x.
Definition reads_as (x : f64) (z : Z) : bool := f_eqb (f_of_Z z) x.

Fixpoint shortest (j : nat) (x : f64) (v : Z) : Z :=
  match j with
  | O => v
  | S j' =>
      let p := 10 ^ Z.of_nat j in
      let lo := v / p * p in
      let hi := lo + p in
      if reads_as x lo && (negb (reads_as x hi) || (v - lo <? hi - v)) then lo
      else if reads_as x hi then hi
      else shortest j' x v
  end.

(** A uint64 (below [lim]: what the field's type holds) through [map[string]any]. *)
Definition reencode (lim v : Z) : Z :=
  let x := f_of_Z v in
  let w := shortest 19 x (f_value x) in
  if w <? lim then w else 0.
Definition reencode_int (v : Z) : Z :=
  if v <? 0 then - reencode (two63 + 1) (- v) else reencode two63 v.

Definition stamp_intent (txh : string) (p : Intent) : Intent :=
  mkIntent (i_delta_hmc p) (reencode two64 (i_delta_units p)) (i_payout p) txh (reencode_int (i_nonce p)).

(** * HMC operations (store.go) *)

Definition GetWorker (wid : string) (d : Settle) : result WorkerRow :=
  let wid := trim_space wid in
  if String.eqb wid "" then Err "workersettle: empty worker_id" else Ok (worker wid d).

Definition set_pending (i : Intent) (addr : string) (r : WorkerRow) : WorkerRow :=
  mkWorker (SettledUnits r) (SettledSUPUnits r) (SessionAnchorUnits r) (SessionAnchorSUPU r) addr
    (LastTxHash r) (LastSettleUnix r) (Some i) (PendingSUPJSON r).
Definition put_pending (i : option Intent) (r : WorkerRow) : WorkerRow :=
  mkWorker (SettledUnits r) (SettledSUPUnits r) (SessionAnchorUnits r) (SessionAnchorSUPU r) (PayoutAddress r)
    (LastTxHash r) (LastSettleUnix r) i (PendingSUPJSON r).

Definition SetPendingUnits (now : Z) (workerID payoutAddr : string) (deltaUnits nonce : Z) : tx Settle Z :=
  let wid := trim_space workerID in
  let addr := trim_space payoutAddr in
  guard (negb (String.eqb wid "" || String.eqb addr "" || (deltaUnits =? 0))) "workersettle: invalid pending args" ;;;
  let* d := get in
  guard (bool_decide (PendingJSON (worker wid d) = None)) "workersettle: pending already set" ;;;
  modify (upsert_worker wid (set_pending (mkIntent (UnitsToHMC deltaUnits) deltaUnits addr "" nonce) addr)) ;;;
  sql_arg deltaUnits ;;;
  let* d := get in
  put (set_outbox (s_outbox d ++ [mkOut wid addr deltaUnits "pending" "" nonce now 0]) d) ;;;
  ret (Z.of_nat (List.length (s_outbox d)) + 1).

Definition SetPending (now : Z) (workerID payoutAddr : string) (deltaHMC : f64) (nonce : Z) : tx Settle Z :=
  SetPendingUnits now workerID payoutAddr (HMCToUnits deltaHMC) nonce.

Definition has_hash (h : string) (i : option Intent) : bool :=
  match i with Some p => String.eqb (i_tx_hash p) h | None => false end.

Definition TxHashKnown (txHash : string) (d : Settle) : bool :=
  let h := trim_space txHash in
  if String.eqb h "" then false
  else existsb (λ r, String.eqb (o_tx r) h) (s_outbox d)
    || existsb (λ p : string * WorkerRow, String.eqb (LastTxHash p.2) h) (map_to_list (s_workers d))
    || existsb (λ p : string * WorkerRow, has_hash h (PendingJSON p.2)) (map_to_list (s_workers d)).

Definition AttachTxHash (workerID txHash : string) : tx Settle unit :=
  let wid := trim_space workerID in
  let h := trim_space txHash in
  guard (negb (String.eqb wid "" || String.eqb h "")) "workersettle: empty worker or tx" ;;;
  let* d := get in
  match s_workers d !! wid with
  | None => fail "sql: no rows in result set"
  | Some r =>
      put (set_outbox (update_last (is_pending wid) (stamp h) (s_outbox d))
        (update_worker wid (put_pending (Some (stamp_intent h (default no_intent (PendingJSON r))))) d))
  end.

Definition ClearPending (now : Z) (workerID : string) : tx Settle unit :=
  let wid := trim_space workerID in
  guard (negb (String.eqb wid "")) "workersettle: empty worker_id" ;;;
  modify (update_worker wid (put_pending None)) ;;;
  modify (λ d, set_outbox (map (abandon wid now) (s_outbox d)) d).

Definition settle_row (settled anchor : Z) (addr txh : string) (now : Z) (r : WorkerRow) : WorkerRow :=
  mkWorker settled (SettledSUPUnits r) anchor (SessionAnchorSUPU r) addr txh now None (PendingSUPJSON r).

(** Prefer the outbox row stamped with this hash; else the latest pending one. *)
Definition apply_outbox (wid txh : string) (now : Z) (l : list OutRow) : list OutRow :=
  let mine r := is_pending wid r && String.eqb (o_tx r) txh in
  if existsb mine l then update_last mine (finish "applied" txh now) l
  else update_last (is_pending wid) (finish "applied" txh now) l.

Definition ApplySettleUnits (now : Z) (workerID payoutAddr txHash : string) (newSettledUnits sessionAnchorUnits : Z)
    (clearAnchor : bool) : tx Settle unit :=
  let wid := trim_space workerID in
  guard (negb (String.eqb wid "")) "workersettle: empty worker_id" ;;;
  let anchorU := if clearAnchor then 0 else sessionAnchorUnits in
  let txh := trim_space txHash in
  let addr := trim_space payoutAddr in
  let* d := get in
  let prevSettled := SettledUnits (worker wid d) in
  let deltaUnits := if prevSettled <? newSettledUnits then newSettledUnits - prevSettled else 0 in
  sql_arg newSettledUnits ;;; sql_arg anchorU ;;;
  modify (upsert_worker wid (settle_row newSettledUnits anchorU addr txh now)) ;;;
  modify (λ d, set_outbox (apply_outbox wid txh now (s_outbox d)) d) ;;;
  sql_arg deltaUnits ;;;
  modify (add_journal (mkJournal "payout_applied" wid deltaUnits 0 0 0 0 0
    ("tx=" +:+ txh +:+ " watermark_units=" +:+ fmt_uint newSettledUnits) now)).

Definition ApplySettle (now : Z) (workerID payoutAddr txHash : string) (newSettled sessionAnchor : f64)
    (clearAnchor : bool) : tx Settle unit :=
  ApplySettleUnits now workerID payoutAddr txHash (HMCToUnits newSettled) (HMCToUnits sessionAnchor) clearAnchor.

Definition AppendLedger (now : Z) (kind workerID : string)
    (units shareCount instantShareUnits emaShareUnits targetMod shareMod : Z) (note : string) : tx Settle unit :=
  iter_tx sql_arg [units; shareCount; instantShareUnits; emaShareUnits; targetMod; shareMod] ;;;
  modify (add_journal (mkJournal (trim_space kind) (trim_space workerID) units shareCount instantShareUnits
    emaShareUnits targetMod shareMod (trim_space note) now)).

Definition SetLastForceUnix (ts : Z) : tx Settle unit := modify (set_force ts).
Definition GetMeta (d : Settle) : Z := s_last_force d.
Definition MigratedFromJSON (d : Settle) : bool := s_migrated d.
Definition CountPendingOutbox (d : Settle) : Z :=
  Z.of_nat (List.length (filter (λ r, String.eqb (o_status r) "pending" = true) (s_outbox d))).

(** * Watermarks and anchors set directly *)

Definition set_settled_sup (u : Z) (addr : string) (r : WorkerRow) : WorkerRow :=
  mkWorker (SettledUnits r) u (SessionAnchorUnits r) (SessionAnchorSUPU r)
    (if String.eqb addr "" then PayoutAddress r else addr)
    (LastTxHash r) (LastSettleUnix r) (PendingJSON r) (PendingSUPJSON r).
Definition set_anchor (u : Z) (r : WorkerRow) : WorkerRow :=
  mkWorker (SettledUnits r) (SettledSUPUnits r) u (SessionAnchorSUPU r) (PayoutAddress r)
    (LastTxHash r) (LastSettleUnix r) (PendingJSON r) (PendingSUPJSON r).
Definition set_anchor_sup (u : Z) (r : WorkerRow) : WorkerRow :=
  mkWorker (SettledUnits r) (SettledSUPUnits r) (SessionAnchorUnits r) u (PayoutAddress r)
    (LastTxHash r) (LastSettleUnix r) (PendingJSON r) (PendingSUPJSON r).

Definition SetSettledSUP (workerID : string) (settledSUP : f64) (payoutAddr : string) : tx Settle unit :=
  let wid := trim_space workerID in
  guard (negb (String.eqb wid "")) "workersettle: empty worker_id" ;;;
  guard (negb (f_ltb settledSUP (f_of_Z 0))) "workersettle: negative settled_sup" ;;;
  sql_arg (HMCToUnits settledSUP) ;;;
  modify (upsert_worker wid (set_settled_sup (HMCToUnits settledSUP) (trim_space payoutAddr))).

Definition SetSessionAnchorHMC (workerID : string) (anchor : f64) (clear : bool) : tx Settle unit :=
  let wid := trim_space workerID in
  guard (negb (String.eqb wid "")) "workersettle: empty worker_id" ;;;
  guard (clear || negb (f_ltb anchor (f_of_Z 0))) "workersettle: negative session_anchor_hmc" ;;;
  let au := if clear then 0 else HMCToUnits anchor in
  sql_arg au ;;;
  modify (upsert_worker wid (set_anchor au)).

Definition SetSessionAnchorSUP (workerID : string) (anchor : f64) (clear : bool) : tx Settle unit :=
  let wid := trim_space workerID in
  guard (negb (String.eqb wid "")) "workersettle: empty worker_id" ;;;
  guard (clear || negb (f_ltb anchor (f_of_Z 0))) "workersettle: negative session_anchor_sup" ;;;
  let au := if clear then 0 else HMCToUnits anchor in
  sql_arg au ;;;
  modify (upsert_worker wid (set_anchor_sup au)).

(** * SUP operations (store_sup.go) *)

Definition new_pending_sup (i : Intent) (addr : string) (r : option WorkerRow) : WorkerRow :=
  let r0 := default (mkWorker 0 0 0 0 addr "" 0 None None) r in
  mkWorker (SettledUnits r0) (SettledSUPUnits r0) (SessionAnchorUnits r0) (SessionAnchorSUPU r0) (PayoutAddress r0)
    (LastTxHash r0) (LastSettleUnix r0) (PendingJSON r0) (Some i).
Definition put_pending_sup (i : option Intent) (r : WorkerRow) : WorkerRow :=
  mkWorker (SettledUnits r) (SettledSUPUnits r) (SessionAnchorUnits r) (SessionAnchorSUPU r) (PayoutAddress r)
    (LastTxHash r) (LastSettleUnix r) (PendingJSON r) i.

Definition SetPendingSUPUnits (now : Z) (workerID payoutAddr : string) (deltaUnits nonce : Z) : tx Settle unit :=
  let wid := trim_space workerID in
  let addr := trim_space payoutAddr in
  guard (negb (String.eqb wid "" || String.eqb addr "" || (deltaUnits =? 0))) "workersettle: invalid SUP pending args" ;;;
  let* d := get in
  guard (bool_decide (PendingSUPJSON (worker wid d) = None)) "workersettle: SUP pending already set" ;;;
  put (set_workers (<[wid := new_pending_sup (mkIntent (f_of_Z 0) deltaUnits addr "" nonce) addr (s_workers d !! wid)]>
    (s_workers d)) d) ;;;
  sql_arg deltaUnits ;;;
  modify (λ d, set_sup_outbox (s_sup_outbox d ++ [mkOut wid addr deltaUnits "pending" "" nonce now 0]) d).

Definition AttachSUPTxHash (workerID txHash : string) : tx Settle unit :=
  let wid := trim_space workerID in
  let h := trim_space txHash in
  guard (negb (String.eqb wid "" || String.eqb h "")) "workersettle: empty worker or tx" ;;;
  let* d := get in
  match s_workers d !! wid with
  | None => fail "sql: no rows in result set"
  | Some r =>
      match PendingSUPJSON r with
      | None => fail "workersettle: no SUP pending"
      | Some p =>
          put (set_sup_outbox (update_last (is_pending wid) (stamp h) (s_sup_outbox d))
            (update_worker wid (put_pending_sup (Some (stamp_intent h p))) d))
      end
  end.

Definition ClearPendingSUP (now : Z) (workerID : string) : tx Settle unit :=
  let wid := trim_space workerID in
  modify (update_worker wid (put_pending_sup None)) ;;;
  modify (λ d, set_sup_outbox (map (abandon wid now) (s_sup_outbox d)) d).

Definition settle_sup_row (settled anchor : Z) (addr : string) (r : option WorkerRow) : WorkerRow :=
  let r0 := default (mkWorker 0 0 0 0 addr "" 0 None None) r in
  mkWorker (SettledUnits r0) settled (SessionAnchorUnits r0) anchor (PayoutAddress r0)
    (LastTxHash r0) (LastSettleUnix r0) (PendingJSON r0) None.

Definition ApplySettleSUPUnits (now : Z) (workerID payoutAddr txHash : string) (newSettledUnits anchorUnits : Z)
    (clearAnchor : bool) : tx Settle unit :=
  let wid := trim_space workerID in
  guard (negb (String.eqb wid "")) "workersettle: empty worker_id" ;;;
  let anchorU := if clearAnchor then 0 else anchorUnits in
  let* d := get in
  let prev := SettledSUPUnits (worker wid d) in
  guard (negb (newSettledUnits <? prev)) "workersettle: SUP watermark would go down" ;;;
  sql_arg newSettledUnits ;;; sql_arg anchorU ;;;
  put (set_workers (<[wid := settle_sup_row newSettledUnits anchorU (trim_space payoutAddr) (s_workers d !! wid)]>
    (s_workers d)) d) ;;;
  modify (λ d, set_sup_outbox (update_last (is_pending wid) (finish "applied" (trim_space txHash) now) (s_sup_outbox d)) d) ;;;
  modify (add_journal (mkJournal "sup_payout_applied" wid (newSettledUnits - prev) 0 0 0 0 0
    ("tx=" +:+ txHash +:+ " sup_watermark_units=" +:+ fmt_uint newSettledUnits) now)).
