(* ===== verification/WorkerStore.v ===== *)
(** Facts of the settlement ledger (WorkerSettle): amounts, single intents, separate lanes.

    The HMC and SUP sides of the ledger promise the same thing to the settler, stated once as
    [PayLaneLaws]; [hmc_lane] and [sup_lane_pay] discharge it.  The theorems about sequences of
    operations are proved from the interface. *)
From Stdlib Require Import QArith Lqa.
From S2P Require Import Prelude Float64 GoText GoNum Params Json WorkerSettle.

Open Scope Z_scope.

#[local] Arguments trim_space : simpl never.

(** * Amounts *)

Lemma ComputeAccrualDelta_baseline a s k :
  0 ≤ a → 0 ≤ s → 0 ≤ k →
  let d := ComputeAccrualDelta a s k in
  0 ≤ DeltaUnits d ∧ 0 ≤ BaselineUnits d ∧ Rebase d = (a <? s)%Z ∧
  (BaselineUnits d ≤ a ∧ DeltaUnits d = a - BaselineUnits d).
Proof.
  intros Ha Hs Hk. unfold ComputeAccrualDelta.
  repeat (case_match; cbn); b2p; repeat split; try lia;
    try (match goal with H : (_ || _)%bool = true |- _ => apply orb_true_iff in H as [?|?]; b2p; lia end).
Qed.

(** The anchor the settler stores after paying [pay] units on this delta. *)
Definition next_anchor (d : AccrualDelta) (pay : Z) : Z := if Rebase d then BaselineUnits d + pay else 0.

(** Paying a chunk and storing the watermark and anchor leaves exactly the rest payable. *)
Lemma delta_after_payment a s k pay :
  0 ≤ a → 0 ≤ s → 0 ≤ k →
  let d := ComputeAccrualDelta a s k in
  0 < pay ≤ DeltaUnits d →
  DeltaUnits (ComputeAccrualDelta a (s + pay) (next_anchor d pay)) = DeltaUnits d - pay.
Proof.
  intros Ha Hs Hk d. subst d. unfold next_anchor, ComputeAccrualDelta.
  repeat (case_match; cbn in *); b2p; try lia;
    repeat (match goal with H : (_ || _)%bool = true |- _ => apply orb_true_iff in H as [?|?]; b2p end); try lia.
Qed.

Lemma CapChunk_bounds d bal res mx :
  0 ≤ d → 0 ≤ bal → 0 ≤ res → 0 ≤ mx →
  0 ≤ CapChunk d bal res mx ≤ d ∧
  (0 < CapChunk d bal res mx → CapChunk d bal res mx ≤ bal - res) ∧
  (0 < mx → CapChunk d bal res mx ≤ mx).
Proof. intros. unfold CapChunk. repeat case_match; b2p; repeat split; intros; try lia. Qed.

(** * Re-encoded numbers *)

Lemma reads_as_small x z : 0 ≤ x < 2 ^ 52 → 0 ≤ z → reads_as (f_of_Z x) z = true → z = x.
Proof.
  intros Hx Hz E. unfold reads_as, f_eqb in E.
  assert (Hle : (toQ (f_of_Z z) <= toQ (f_of_Z x))%Q).
  { apply f_leb_spec. unfold f_leb. destruct (align _ _) as [[u v] e]. apply Z.eqb_eq in E. apply Z.leb_le. lia. }
  assert (Hge : (toQ (f_of_Z x) <= toQ (f_of_Z z))%Q).
  { apply f_leb_spec. unfold f_leb, align in *. apply Z.eqb_eq in E. apply Z.leb_le.
    rewrite (Z.min_comm (expo (f_of_Z x))). lia. }
  rewrite (toQ_of_Z_exact x) in Hle, Hge by lia.
  assert (Hlt : z < 2 ^ 53).
  { apply Z.nle_gt. intros C. destruct (toQ_of_Z z ltac:(lia)) as [L _].
    assert ((inject_Z (2 ^ 53) <= inject_Z z)%Q) by (rewrite <- Zle_Qle; lia).
    assert ((inject_Z x <= inject_Z (2 ^ 52))%Q) by (rewrite <- Zle_Qle; lia).
    change (inject_Z (2 ^ 53)) with (9007199254740992 # 1)%Q in *. change (inject_Z (2 ^ 52)) with (4503599627370496 # 1)%Q in *.
    unfold ulp in L. lra. }
  rewrite (toQ_of_Z_exact z) in Hle, Hge by lia.
  rewrite <- Zle_Qle in Hle, Hge. lia.
Qed.

Lemma shortest_small j x : 0 ≤ x < 2 ^ 52 → shortest j (f_of_Z x) x = x.
Proof.
  intros Hx. induction j as [|j IH]; [done|]. cbn [shortest].
  set (p := 10 ^ Z.of_nat (S j)).
  assert (0 < p) by (unfold p; lia).
  assert (0 ≤ x / p) by (apply Z.div_pos; lia).
  destruct (reads_as (f_of_Z x) (x / p * p)) eqn:E1; cbn [andb].
  - apply reads_as_small in E1; [|lia|nia].
    destruct (reads_as (f_of_Z x) (x / p * p + p)) eqn:E2.
    + apply reads_as_small in E2; [lia|lia|nia].
    + cbn. done.
  - destruct (reads_as (f_of_Z x) (x / p * p + p)) eqn:E2; [|done].
    apply reads_as_small in E2; [lia|lia|nia].
Qed.

Lemma reencode_small lim x : 0 ≤ x < 2 ^ 52 → 2 ^ 52 ≤ lim → reencode lim x = x.
Proof.
  intros Hx Hl. unfold reencode.
  replace (f_value (f_of_Z x)) with x by (rewrite f_of_Z_small by lia; unfold f_value; cbn [mant expo]; lia).
  rewrite shortest_small by done. case_match; b2p; lia.
Qed.

Lemma reencode_int_small x : 0 ≤ x < 2 ^ 52 → reencode_int x = x.
Proof.
  intros Hx. unfold reencode_int. case_match; b2p; [lia|]. apply reencode_small; unfold two63; lia.
Qed.

(** Above 2^53 the stored amount may change: 2^53 + 1 units are read back as 2^53. *)
Example reencode_rounds : reencode two64 (2 ^ 53 + 1) = 2 ^ 53.
Proof. vm_compute. reflexivity. Qed.

(** * Reading a row back after a write *)

Lemma worker_insert w w' r m d :
  s_workers d = <[w' := r]> m → worker w d = if decide (w = w') then r else default zero_worker (m !! w).
Proof. intros E. unfold worker. rewrite E. destruct (decide (w = w')) as [->|]; by simplify_map_eq. Qed.

Lemma worker_upsert w w' f d :
  worker w (upsert_worker w' f d) = if decide (w = w') then f (worker w' d) else worker w d.
Proof. unfold upsert_worker. by erewrite worker_insert by reflexivity. Qed.

Lemma worker_update w w' f d :
  f zero_worker = zero_worker ∨ is_Some (s_workers d !! w') →
  worker w (update_worker w' f d) = if decide (w = w') then f (worker w' d) else worker w d.
Proof.
  intros H. unfold update_worker, worker. cbn [s_workers set_workers].
  destruct (decide (w = w')) as [->|]; [|by rewrite lookup_alter_ne].
  rewrite lookup_alter_eq. destruct (s_workers d !! w') as [r|]; [done|]. cbn.
  destruct H as [H|[? H]]; [by rewrite H|done].
Qed.

(** The pending outbox rows of one worker. *)
Definition pending_rows (w : string) (l : list OutRow) : list OutRow := filter (λ r, is_pending w r = true) l.

Lemma pending_rows_app w l1 l2 : pending_rows w (l1 ++ l2) = pending_rows w l1 ++ pending_rows w l2.
Proof. apply list.filter_app. Qed.

Lemma is_pending_other w w' r : w ≠ w' → is_pending w r = true → is_pending w' r = false.
Proof. unfold is_pending. intros Hn H. b2p. apply String.eqb_eq in H as <-. apply andb_false_iff. left. by apply String.eqb_neq. Qed.

Lemma update_first_spec p f l :
  (∃ l1 r l2, l = l1 ++ r :: l2 ∧ p r = true ∧ (∀ x, x ∈ l1 → p x = false) ∧ update_first p f l = l1 ++ f r :: l2)
  ∨ ((∀ x, x ∈ l → p x = false) ∧ update_first p f l = l).
Proof.
  induction l as [|r l IH]; [right; split; [by intros ? ?%elem_of_nil|done]|]. cbn [update_first].
  destruct (p r) eqn:E.
  - left. exists [], r, l. repeat split; [done|]. by intros ? ?%elem_of_nil.
  - destruct IH as [(l1 & r' & l2 & -> & Hp & Hn & ->)|[Hn ->]].
    + left. exists (r :: l1), r', l2. repeat split; [done|]. intros x [->|]%elem_of_cons; eauto.
    + right. split; [|done]. intros x [->|]%elem_of_cons; eauto.
Qed.

(** [update_last] changes the last row that matches, or nothing. *)
Lemma update_last_spec p f l :
  (∃ l1 r l2, l = l1 ++ r :: l2 ∧ p r = true ∧ (∀ x, x ∈ l2 → p x = false) ∧ update_last p f l = l1 ++ f r :: l2)
  ∨ ((∀ x, x ∈ l → p x = false) ∧ update_last p f l = l).
Proof.
  unfold update_last. destruct (update_first_spec p f (rev l)) as [(l1 & r & l2 & E & Hp & Hn & ->)|[Hn ->]].
  - left. exists (rev l2), r, (rev l1).
    assert (El : l = rev (l1 ++ r :: l2)) by (rewrite <- E; by rewrite rev_involutive).
    rewrite !rev_app_distr in *. cbn in *. rewrite <- !app_assoc in *. cbn in *.
    repeat split; [done|done|]. intros x Hx. apply Hn. apply list_elem_of_In. apply list_elem_of_In in Hx. by apply in_rev.
  - right. split; [|by rewrite rev_involutive]. intros x Hx. apply Hn. apply list_elem_of_In, in_rev.
    rewrite rev_involutive. by apply list_elem_of_In.
Qed.

Lemma pending_rows_none w l : (∀ x, x ∈ l → is_pending w x = false) → pending_rows w l = [].
Proof.
  intros H. unfold pending_rows. induction l as [|r l IH]; [done|].
  rewrite list.filter_cons_False; [apply IH; intros; apply H; by right|]. rewrite H by left. done.
Qed.

Lemma pending_rows_cons w r l :
  pending_rows w (r :: l) = if is_pending w r then r :: pending_rows w l else pending_rows w l.
Proof.
  unfold pending_rows. destruct (is_pending w r) eqn:E; [by rewrite list.filter_cons_True|].
  rewrite list.filter_cons_False by (rewrite E; done). done.
Qed.

(** Rewriting the last pending row of [w'] leaves the pending rows of the others. *)
Lemma pending_rows_update_other w w' p f l :
  w ≠ w' → (∀ r, p r = true → is_pending w' r = true) → (∀ r, p r = true → is_pending w (f r) = false) →
  pending_rows w (update_last p f l) = pending_rows w l.
Proof.
  intros Hw Hp Hf. destruct (update_last_spec p f l) as [(l1 & r & l2 & -> & Hr & _ & ->)|[_ ->]]; [|done].
  rewrite !pending_rows_app, !pending_rows_cons. rewrite (Hf r Hr).
  by rewrite (is_pending_other w' w r) by auto.
Qed.

Lemma pending_rows_stamp w h l :
  (List.length (pending_rows w l) ≤ 1)%nat →
  pending_rows w (update_last (is_pending w) (stamp h) l) = map (stamp h) (pending_rows w l).
Proof.
  intros Hl. destruct (update_last_spec (is_pending w) (stamp h) l) as [(l1 & r & l2 & -> & Hr & Hn & ->)|[Hn ->]].
  - rewrite !pending_rows_app, !pending_rows_cons in *. rewrite Hr in Hl. change (is_pending w (stamp h r)) with (is_pending w r).
    rewrite Hr. rewrite (pending_rows_none w l2) in * by done.
    rewrite length_app in Hl. cbn in Hl. destruct (pending_rows w l1); [done|cbn in Hl; lia].
  - by rewrite (pending_rows_none w l).
Qed.

Lemma pending_rows_stamp_other w w' h l :
  w ≠ w' → pending_rows w (update_last (is_pending w') (stamp h) l) = pending_rows w l.
Proof.
  intros Hw. apply (pending_rows_update_other _ w'); [done|done|]. intros r Hr.
  change (is_pending w (stamp h r)) with (is_pending w r). by apply (is_pending_other w').
Qed.

Lemma pending_rows_finish w p st txh now l :
  (List.length (pending_rows w l) ≤ 1)%nat → st ≠ "pending" →
  (∀ r, p r = true → is_pending w r = true) → (∃ r, r ∈ l ∧ p r = true) ∨ p = is_pending w →
  pending_rows w (update_last p (finish st txh now) l) = [].
Proof.
  intros Hl Hst Hp Hex. destruct (update_last_spec p (finish st txh now) l) as [(l1 & r & l2 & -> & Hr & Hn & ->)|[Hn ->]].
  - rewrite !pending_rows_app, !pending_rows_cons in *. rewrite (Hp r Hr) in Hl.
    assert (Ef : is_pending w (finish st txh now r) = false).
    { unfold is_pending, finish; cbn. apply andb_false_iff. right. by apply String.eqb_neq. }
    rewrite Ef. rewrite length_app in Hl. cbn in Hl.
    destruct (pending_rows w l1); [|cbn in Hl; lia]. destruct (pending_rows w l2); [done|cbn in Hl; lia].
  - destruct Hex as [(r & Hin & Hr)| ->]; [by rewrite (Hn r Hin) in Hr|]. by apply pending_rows_none.
Qed.

Lemma pending_rows_abandon w w' now l :
  pending_rows w (map (abandon w' now) l) = if decide (w = w') then [] else pending_rows w l.
Proof.
  induction l as [|r l IH]; [by destruct (decide _)|]. cbn [map]. rewrite pending_rows_cons, IH. unfold abandon.
  destruct (is_pending w' r) eqn:E.
  - assert (Ef : is_pending w (finish "abandoned" (o_tx r) now r) = false).
    { unfold is_pending, finish; cbn. apply andb_false_iff. by right. }
    rewrite Ef. destruct (decide (w = w')) as [|Hn]; [done|]. rewrite pending_rows_cons.
    by rewrite (is_pending_other w' w r) by auto.
  - destruct (decide (w = w')) as [->|Hn]; [by rewrite E|]. by rewrite pending_rows_cons.
Qed.

(** * The two lanes behind one interface *)

Record PayLane := mkPayLane {
  pl_paid : WorkerRow → Z;
  pl_intent : WorkerRow → option Intent;
  pl_out : Settle → list OutRow;
  pl_open : Z → string → string → Z → Z → tx Settle unit;
  pl_attach : string → string → tx Settle unit;
  pl_clear : Z → string → tx Settle unit;
  pl_apply : Z → string → string → string → Z → Z → bool → tx Settle unit;
  pl_mono : bool;  (* whether applying refuses a lower watermark *)
}.

Definition hmc_pay : PayLane :=
  mkPayLane SettledUnits PendingJSON s_outbox (λ now wid addr delta nonce, SetPendingUnits now wid addr delta nonce ;;; ret tt)
    AttachTxHash ClearPending ApplySettleUnits false.
Definition sup_pay : PayLane :=
  mkPayLane SettledSUPUnits PendingSUPJSON s_sup_outbox SetPendingSUPUnits AttachSUPTxHash ClearPendingSUP ApplySettleSUPUnits true.

(** What one worker's side of the ledger shows: units paid, intent, pending outbox rows. *)
Record View := mkView { v_paid : Z; v_intent : option Intent; v_rows : list OutRow }.
Definition view (L : PayLane) (w : string) (d : Settle) : View :=
  mkView (pl_paid L (worker w d)) (pl_intent L (worker w d)) (pending_rows w (pl_out L d)).
Definition view_opened (v : View) (i : Intent) (r : OutRow) : View := mkView (v_paid v) (Some i) (v_rows v ++ [r]).
Definition view_stamped (v : View) (h : string) : View :=
  mkView (v_paid v) (Some (stamp_intent h (default no_intent (v_intent v)))) (map (stamp h) (v_rows v)).
Definition view_closed (v : View) (paid : Z) : View := mkView paid None [].

(** [d'] shows [v] for [w] and what [d] showed for everybody else. *)
Definition moves (L : PayLane) (w : string) (v : View) (d d' : Settle) : Prop :=
  ∀ x, view L x d' = if decide (x = w) then v else view L x d.

Class PayLaneLaws (L : PayLane) := {
  law_open now wid addr delta nonce d u d' :
    pl_open L now wid addr delta nonce d = Ok (u, d') →
    v_intent (view L (trim_space wid) d) = None ∧ delta ≠ 0 ∧
    ∃ i r, i_delta_units i = delta ∧ i_payout i = trim_space addr ∧ i_tx_hash i = "" ∧ i_nonce i = nonce ∧
      o_delta r = delta ∧ o_payout r = trim_space addr ∧ o_nonce r = nonce ∧ o_tx r = "" ∧
      moves L (trim_space wid) (view_opened (view L (trim_space wid) d) i r) d d';
  law_attach wid h d u d' :
    pl_attach L wid h d = Ok (u, d') →
    (List.length (v_rows (view L (trim_space wid) d)) ≤ 1)%nat →
    trim_space h ≠ "" ∧
    moves L (trim_space wid) (view_stamped (view L (trim_space wid) d) (trim_space h)) d d';
  law_clear now wid d u d' :
    pl_clear L now wid d = Ok (u, d') →
    moves L (trim_space wid) (view_closed (view L (trim_space wid) d) (v_paid (view L (trim_space wid) d))) d d';
  law_apply now wid addr h settled anchor clear d u d' :
    pl_apply L now wid addr h settled anchor clear d = Ok (u, d') →
    (List.length (v_rows (view L (trim_space wid) d)) ≤ 1)%nat →
    (pl_mono L = true → v_paid (view L (trim_space wid) d) ≤ settled) ∧
    moves L (trim_space wid) (view_closed (view L (trim_space wid) d) settled) d d';
}.

(** An operation that shows nothing new on lane [L]. *)
Class Quiet (L : PayLane) {A} (m : tx Settle A) :=
  quiet d a d' : m d = Ok (a, d') → ∀ x, view L x d' = view L x d.

Lemma worker_outbox o w d : worker w (set_outbox o d) = worker w d.
Proof. done. Qed.
Lemma worker_sup_outbox o w d : worker w (set_sup_outbox o d) = worker w d.
Proof. done. Qed.
Lemma worker_journal r w d : worker w (add_journal r d) = worker w d.
Proof. done. Qed.
Lemma worker_force r w d : worker w (set_force r d) = worker w d.
Proof. done. Qed.
Lemma worker_set_insert w w' r d :
  worker w (set_workers (<[w' := r]> (s_workers d)) d) = if decide (w = w') then r else worker w d.
Proof. by erewrite worker_insert by reflexivity. Qed.
Lemma outbox_upsert w f d : s_outbox (upsert_worker w f d) = s_outbox d.
Proof. done. Qed.
Lemma outbox_update w f d : s_outbox (update_worker w f d) = s_outbox d.
Proof. done. Qed.
Lemma sup_outbox_upsert w f d : s_sup_outbox (upsert_worker w f d) = s_sup_outbox d.
Proof. done. Qed.
Lemma sup_outbox_update w f d : s_sup_outbox (update_worker w f d) = s_sup_outbox d.
Proof. done. Qed.
Create Rewrite HintDb settle.
#[export] Hint Rewrite outbox_upsert outbox_update sup_outbox_upsert sup_outbox_update : settle.
#[export] Hint Rewrite worker_outbox worker_sup_outbox worker_journal worker_force worker_upsert worker_set_insert : settle.

Ltac inv_tx_hook H ::=
  lazymatch type of H with
  | sql_arg _ _ = Ok _ => unfold sql_arg in H
  end.

Lemma moves_intro L w v d d' :
  pl_paid L (worker w d') = v_paid v → pl_intent L (worker w d') = v_intent v →
  pending_rows w (pl_out L d') = v_rows v →
  (∀ x, x ≠ w → worker x d' = worker x d) →
  (∀ x, x ≠ w → pending_rows x (pl_out L d') = pending_rows x (pl_out L d)) →
  moves L w v d d'.
Proof.
  intros Hp Hi Hr Hw Ho x. unfold view. destruct (decide (x = w)) as [->|Hx].
  - rewrite Hp, Hi, Hr. by destruct v.
  - by rewrite Hw, Ho.
Qed.

Lemma pending_rows_snoc w x l r :
  o_status r = "pending" → o_worker r = w →
  pending_rows x (l ++ [r]) = if decide (x = w) then pending_rows x l ++ [r] else pending_rows x l.
Proof.
  intros Hs Hw. rewrite pending_rows_app, pending_rows_cons. unfold is_pending. rewrite Hs, Hw, String.eqb_refl, andb_true_r.
  destruct (decide (x = w)) as [->|Hn]; [by rewrite String.eqb_refl|].
  rewrite (proj2 (String.eqb_neq w x)) by done. apply app_nil_r.
Qed.

(** The rows and workers a finished write shows. *)
Ltac reads := cbn [pl_paid pl_intent pl_out hmc_pay sup_pay v_paid v_intent v_rows view_opened view_stamped view_closed view
    s_outbox s_sup_outbox set_outbox set_sup_outbox set_workers add_journal set_force];
  autorewrite with settle; cbn [s_outbox s_sup_outbox].
Ltac at_self := rewrite ?decide_True by done.
Ltac at_other := let x := fresh "x" in let Hx := fresh "Hx" in intros x Hx; reads; rewrite ?decide_False by done.

Lemma put_pending_zero : put_pending None zero_worker = zero_worker.
Proof. done. Qed.
Lemma put_pending_sup_zero : put_pending_sup None zero_worker = zero_worker.
Proof. done. Qed.

Lemma apply_outbox_rows wid txh now l x :
  (List.length (pending_rows wid l) ≤ 1)%nat →
  pending_rows x (apply_outbox wid txh now l) = if decide (x = wid) then [] else pending_rows x l.
Proof.
  intros Hl. unfold apply_outbox. set (mine := λ r, _). 
  assert (Hmine : ∀ r, mine r = true → is_pending wid r = true) by (intros r Hr; unfold mine in Hr; by b2p).
  assert (Hf : ∀ y r, is_pending y (finish "applied" txh now r) = false).
  { intros. unfold is_pending, finish; cbn. apply andb_false_iff. by right. }
  destruct (decide (x = wid)) as [->|Hx].
  - destruct (existsb mine l) eqn:E; [|by apply pending_rows_finish; auto].
    apply existsb_exists in E as (r & Hin & Hr). apply pending_rows_finish; [done|done|done|].
    left. exists r. split; [by apply list_elem_of_In|done].
  - destruct (existsb mine l); apply (pending_rows_update_other _ wid); auto.
Qed.

#[export] Instance hmc_pay_laws : PayLaneLaws hmc_pay.
Proof.
  split.
  - intros now wid addr delta nonce d u d' H. cbn [pl_open hmc_pay] in H. unfold SetPendingUnits in H.
    inv_tx H. b2p. split; [done|]. split; [done|].
    exists (mkIntent (UnitsToHMC delta) delta (trim_space addr) "" nonce),
      (mkOut (trim_space wid) (trim_space addr) delta "pending" "" nonce now 0).
    do 8 (split; [done|]). apply moves_intro; reads; at_self; try done; [|at_other; done|].
    + by rewrite (pending_rows_snoc (trim_space wid)), decide_True.
    + at_other. by rewrite (pending_rows_snoc (trim_space wid)), decide_False.
  - intros wid h d u d' H Hl. cbn [pl_attach hmc_pay] in H. unfold AttachTxHash in H.
    inv_tx H. b2p. split; [by apply String.eqb_neq|].
    assert (Hs : is_Some (s_workers d !! trim_space wid)) by eauto.
    assert (Ew : worker (trim_space wid) d = w) by (unfold worker; by simplify_option_eq).
    apply moves_intro; reads; rewrite ?worker_update by auto; at_self; try done.
    + by rewrite Ew.
    + by apply pending_rows_stamp.
    + at_other. rewrite worker_update by auto. by rewrite decide_False.
    + at_other. by apply pending_rows_stamp_other.
  - intros now wid d u d' H. cbn [pl_clear hmc_pay] in H. unfold ClearPending in H. inv_tx H.
    apply moves_intro; reads; rewrite ?worker_update by auto using put_pending_zero; at_self; try done.
    + by rewrite pending_rows_abandon, decide_True.
    + at_other. rewrite worker_update by auto using put_pending_zero. by rewrite decide_False.
    + at_other. by rewrite pending_rows_abandon, decide_False.
  - intros now wid addr h settled anchor clear d u d' H Hl. cbn [pl_apply hmc_pay] in H. unfold ApplySettleUnits in H.
    inv_tx H. split; [done|]. apply moves_intro; reads; at_self; try done; [|at_other; done|].
    + by rewrite apply_outbox_rows, decide_True.
    + at_other. by rewrite apply_outbox_rows, decide_False.
Qed.

#[export] Instance sup_pay_laws : PayLaneLaws sup_pay.
Proof.
  split.
  - intros now wid addr delta nonce d u d' H. cbn [pl_open sup_pay] in H. unfold SetPendingSUPUnits in H.
    inv_tx H. b2p. split; [done|]. split; [done|].
    exists (mkIntent (f_of_Z 0) delta (trim_space addr) "" nonce),
      (mkOut (trim_space wid) (trim_space addr) delta "pending" "" nonce now 0).
    do 8 (split; [done|]). apply moves_intro; reads; at_self; try done.
    + unfold new_pending_sup, worker. by destruct (_ !! _).
    + by rewrite (pending_rows_snoc (trim_space wid)), decide_True.
    + at_other. done.
    + at_other. by rewrite (pending_rows_snoc (trim_space wid)), decide_False.
  - intros wid h d u d' H Hl. cbn [pl_attach sup_pay] in H. unfold AttachSUPTxHash in H.
    inv_tx H. b2p. split; [by apply String.eqb_neq|].
    assert (Hs : is_Some (s_workers d !! trim_space wid)) by eauto.
    assert (Ew : worker (trim_space wid) d = w) by (unfold worker; by simplify_option_eq).
    apply moves_intro; reads; rewrite ?worker_update by auto; at_self; try done.
    + rewrite Ew. by simplify_option_eq.
    + by apply pending_rows_stamp.
    + at_other. rewrite worker_update by auto. by rewrite decide_False.
    + at_other. by apply pending_rows_stamp_other.
  - intros now wid d u d' H. cbn [pl_clear sup_pay] in H. unfold ClearPendingSUP in H. inv_tx H.
    apply moves_intro; reads; rewrite ?worker_update by auto using put_pending_sup_zero; at_self; try done.
    + by rewrite pending_rows_abandon, decide_True.
    + at_other. rewrite worker_update by auto using put_pending_sup_zero. by rewrite decide_False.
    + at_other. by rewrite pending_rows_abandon, decide_False.
  - intros now wid addr h settled anchor clear d u d' H Hl. cbn [pl_apply sup_pay] in H. unfold ApplySettleSUPUnits in H.
    inv_tx H. split; [intros _; by b2p|]. apply moves_intro; reads; at_self; try done.
    + by apply pending_rows_finish; auto.
    + at_other. done.
    + at_other. apply (pending_rows_update_other _ (trim_space wid)); [done|done|].
      intros r _. unfold is_pending, finish; cbn. apply andb_false_iff. by right.
Qed.

(** * Operations that leave a lane alone *)

Lemma quiet_intro L (d d' : Settle) :
  pl_out L d' = pl_out L d →
  (∀ x, pl_paid L (worker x d') = pl_paid L (worker x d) ∧ pl_intent L (worker x d') = pl_intent L (worker x d)) →
  ∀ x, view L x d' = view L x d.
Proof. intros Ho H x. unfold view. destruct (H x) as [-> ->]. by rewrite Ho. Qed.

Lemma iter_sql_arg l d u d' : iter_tx sql_arg l d = Ok (u, d') → d' = d.
Proof.
  revert d. induction l as [|v l IH]; intros d; cbn [iter_tx]; [by intros [_ ->]%ret_ok|].
  intros ([] & d1 & H1 & H2)%bind_ok. unfold sql_arg in H1. apply guard_ok in H1 as [_ ->]. by apply IH.
Qed.

Ltac quiet_tac :=
  let d := fresh "d" in let a := fresh "a" in let d' := fresh "d'" in let H := fresh "H" in
  intros d a d' H; cbv delta [SetPendingUnits AttachTxHash ClearPending ApplySettleUnits SetPendingSUPUnits AttachSUPTxHash
    ClearPendingSUP ApplySettleSUPUnits SetLastForceUnix SetSettledSUP SetSessionAnchorHMC SetSessionAnchorSUP] in H;
  cbv beta zeta in H; inv_tx H; apply quiet_intro; [done|]; intros x; reads;
  rewrite ?worker_update by (first [by left|right; by eauto]);
  try (destruct (decide (x = _)) as [->|]); unfold worker, new_pending_sup, settle_sup_row;
  simplify_option_eq; try (destruct (_ !! _)); done.

#[export] Instance sup_pay_SetPendingUnits now w a δ n : Quiet sup_pay (SetPendingUnits now w a δ n).
Proof. quiet_tac. Qed.
#[export] Instance sup_pay_AttachTxHash w h : Quiet sup_pay (AttachTxHash w h).
Proof. quiet_tac. Qed.
#[export] Instance sup_pay_ClearPending now w : Quiet sup_pay (ClearPending now w).
Proof. quiet_tac. Qed.
#[export] Instance sup_pay_ApplySettleUnits now w a h s k c : Quiet sup_pay (ApplySettleUnits now w a h s k c).
Proof. quiet_tac. Qed.
#[export] Instance hmc_pay_SetPendingSUPUnits now w a δ n : Quiet hmc_pay (SetPendingSUPUnits now w a δ n).
Proof. quiet_tac. Qed.
#[export] Instance hmc_pay_AttachSUPTxHash w h : Quiet hmc_pay (AttachSUPTxHash w h).
Proof. quiet_tac. Qed.
#[export] Instance hmc_pay_ClearPendingSUP now w : Quiet hmc_pay (ClearPendingSUP now w).
Proof. quiet_tac. Qed.
#[export] Instance hmc_pay_ApplySettleSUPUnits now w a h s k c : Quiet hmc_pay (ApplySettleSUPUnits now w a h s k c).
Proof. quiet_tac. Qed.
#[export] Instance hmc_pay_SetSettledSUP w v a : Quiet hmc_pay (SetSettledSUP w v a).
Proof. quiet_tac. Qed.
#[export] Instance hmc_pay_SetSessionAnchorHMC w v c : Quiet hmc_pay (SetSessionAnchorHMC w v c).
Proof. quiet_tac. Qed.
#[export] Instance hmc_pay_SetSessionAnchorSUP w v c : Quiet hmc_pay (SetSessionAnchorSUP w v c).
Proof. quiet_tac. Qed.
#[export] Instance sup_pay_SetSessionAnchorHMC w v c : Quiet sup_pay (SetSessionAnchorHMC w v c).
Proof. quiet_tac. Qed.
#[export] Instance sup_pay_SetSessionAnchorSUP w v c : Quiet sup_pay (SetSessionAnchorSUP w v c).
Proof. quiet_tac. Qed.
#[export] Instance hmc_pay_SetLastForceUnix ts : Quiet hmc_pay (SetLastForceUnix ts).
Proof. quiet_tac. Qed.
#[export] Instance sup_pay_SetLastForceUnix ts : Quiet sup_pay (SetLastForceUnix ts).
Proof. quiet_tac. Qed.

Lemma AppendLedger_ok now kind w u s i e t m note d a d' :
  AppendLedger now kind w u s i e t m note d = Ok (a, d') → ∃ r, d' = add_journal r d.
Proof.
  unfold AppendLedger. intros ([] & d1 & H1 & H2)%bind_ok. apply iter_sql_arg in H1 as ->.
  apply modify_ok in H2 as ->. eauto.
Qed.
#[export] Instance hmc_pay_AppendLedger now kind w u s i e t m note : Quiet hmc_pay (AppendLedger now kind w u s i e t m note).
Proof. intros d a d' [r ->]%AppendLedger_ok. done. Qed.
#[export] Instance sup_pay_AppendLedger now kind w u s i e t m note : Quiet sup_pay (AppendLedger now kind w u s i e t m note).
Proof. intros d a d' [r ->]%AppendLedger_ok. done. Qed.

(** * Sequences of operations *)

Inductive lane_op :=
  | LOpen (now : Z) (wid addr : string) (delta nonce : Z)
  | LAttach (wid h : string)
  | LClear (now : Z) (wid : string)
  | LApply (now : Z) (wid addr h : string) (settled anchor : Z) (clear : bool).

Definition lane_exec (L : PayLane) (o : lane_op) : tx Settle unit :=
  match o with
  | LOpen now wid addr delta nonce => pl_open L now wid addr delta nonce
  | LAttach wid h => pl_attach L wid h
  | LClear now wid => pl_clear L now wid
  | LApply now wid addr h settled anchor clear => pl_apply L now wid addr h settled anchor clear
  end.
Definition lane_op_worker (o : lane_op) : string :=
  trim_space match o with LOpen _ wid _ _ _ | LAttach wid _ | LClear _ wid | LApply _ wid _ _ _ _ _ => wid end.

(** Every mutation of the ledger file after its migration. *)
Inductive settle_op :=
  | OnHMC (o : lane_op)
  | OnSUP (o : lane_op)
  | SettledSUP (wid : string) (v : f64) (addr : string)
  | AnchorHMC (wid : string) (v : f64) (clear : bool)
  | AnchorSUP (wid : string) (v : f64) (clear : bool)
  | Journal (now : Z) (kind wid : string) (units : Z) (note : string)
  | Force (ts : Z).

Definition settle_exec (o : settle_op) : tx Settle unit :=
  match o with
  | OnHMC o => lane_exec hmc_pay o
  | OnSUP o => lane_exec sup_pay o
  | SettledSUP wid v addr => SetSettledSUP wid v addr
  | AnchorHMC wid v clear => SetSessionAnchorHMC wid v clear
  | AnchorSUP wid v clear => SetSessionAnchorSUP wid v clear
  | Journal now kind wid units note => AppendLedger now kind wid units 0 0 0 0 0 note
  | Force ts => SetLastForceUnix ts
  end.

(** A ledger just created or migrated: intents may come from the legacy file, the outboxes are empty. *)
Definition fresh_ledger (d : Settle) : Prop := s_outbox d = [] ∧ s_sup_outbox d = [].
(** The journal's units are a uint64. *)
Definition settle_wf (o : settle_op) : Prop := match o with Journal _ _ _ units _ => 0 ≤ units | _ => True end.

Inductive settle_reachable (d0 : Settle) : Settle → Prop :=
  | settle_start : fresh_ledger d0 → settle_reachable d0 d0
  | settle_next o d : settle_reachable d0 d → settle_wf o → settle_reachable d0 (run (settle_exec o) d).

(** ** One intent, one outbox row *)

(** The pending outbox row records the intent it was enqueued for.  Amounts and nonces from 2^52 on may
    be changed by re-encoding the intent. *)
Definition agrees (i : Intent) (r : OutRow) : Prop :=
  i_payout i = o_payout r ∧ i_tx_hash i = o_tx r ∧
  (0 ≤ o_delta r < 2 ^ 52 → i_delta_units i = o_delta r) ∧ (0 ≤ o_nonce r < 2 ^ 52 → i_nonce i = o_nonce r).

Definition view_ok (v : View) : Prop :=
  match v_intent v with
  | None => v_rows v = []
  | Some i => v_rows v = [] ∨ ∃ r, v_rows v = [r] ∧ agrees i r
  end.
Definition lane_ok (L : PayLane) (d : Settle) : Prop := ∀ w, view_ok (view L w d).

Lemma view_ok_rows v : view_ok v → (List.length (v_rows v) ≤ 1)%nat.
Proof. unfold view_ok. case_match; [intros [->|(r & -> & _)]|intros ->]; cbn; lia. Qed.

Lemma moves_ok L w v d d' : lane_ok L d → view_ok v → moves L w v d d' → lane_ok L d'.
Proof. intros Hd Hv Hm x. rewrite (Hm x). by destruct (decide (x = w)). Qed.

Lemma view_stamped_ok v h : view_ok v → view_ok (view_stamped v h).
Proof.
  unfold view_ok, view_stamped. cbn. destruct (v_intent v) as [i|]; [|by intros ->; left].
  intros [->|(r & -> & Ha & Ht & Hd & Hn)]; [by left|]. right. exists (stamp h r). split; [done|].
  unfold agrees, stamp, stamp_intent; cbn. split; [done|]. split; [done|]. split; intros Hb.
  - rewrite Hd by done. apply reencode_small; [done|]. unfold two64. lia.
  - rewrite Hn by done. by apply reencode_int_small.
Qed.

Section lane.
Context (L : PayLane) {laws : PayLaneLaws L}.

(** What a successful lane operation does to the view of its worker. *)
Definition op_view (o : lane_op) (v v' : View) : Prop :=
  match o with
  | LOpen _ _ addr delta nonce => v_intent v = None ∧ delta ≠ 0 ∧ ∃ i r,
      i_delta_units i = delta ∧ i_payout i = trim_space addr ∧ i_tx_hash i = "" ∧ i_nonce i = nonce ∧
      o_delta r = delta ∧ o_payout r = trim_space addr ∧ o_nonce r = nonce ∧ o_tx r = "" ∧ v' = view_opened v i r
  | LAttach _ h => trim_space h ≠ "" ∧ v' = view_stamped v (trim_space h)
  | LClear _ _ => v' = view_closed v (v_paid v)
  | LApply _ _ _ _ settled _ _ => (pl_mono L = true → v_paid v ≤ settled) ∧ v' = view_closed v settled
  end.

Lemma lane_exec_moves o d u d' :
  lane_ok L d → lane_exec L o d = Ok (u, d') →
  ∃ v', op_view o (view L (lane_op_worker o) d) v' ∧ moves L (lane_op_worker o) v' d d'.
Proof using laws.
  intros Hd. pose proof (view_ok_rows _ (Hd (lane_op_worker o))) as Hr.
  destruct o; cbn [lane_exec lane_op_worker] in *; intros E.
  - apply law_open in E as (Hi & Hn & i & r & H1 & H2 & H3 & H4 & H5 & H6 & H7 & H8 & Hm).
    eexists; split; [|exact Hm]. cbn. split; [done|]. split; [done|]. by exists i, r.
  - apply law_attach in E as [Hh Hm]; [|done]. eexists; split; [|exact Hm]. done.
  - apply law_clear in E. eexists; split; [|exact E]. done.
  - apply law_apply in E as [Hh Hm]; [|done]. eexists; split; [|exact Hm]. done.
Qed.

Lemma op_view_ok o v v' : view_ok v → op_view o v v' → view_ok v'.
Proof.
  intros Hv. destruct o; cbn.
  - intros (Hi & _ & i & r & H1 & H2 & H3 & H4 & H5 & H6 & H7 & H8 & ->). unfold view_ok in *. rewrite Hi in Hv.
    cbn. rewrite Hv. right. exists r. split; [done|]. unfold agrees. split; [congruence|]. split; [congruence|].
    split; intros; congruence.
  - intros [_ ->]. by apply view_stamped_ok.
  - by intros ->.
  - by intros [_ ->].
Qed.

Lemma lane_exec_ok o d u d' : lane_ok L d → lane_exec L o d = Ok (u, d') → lane_ok L d'.
Proof using laws. intros Hd (v' & Hv & Hm)%lane_exec_moves; [|done]. eapply moves_ok; [done| |done]. by eapply op_view_ok. Qed.

Lemma quiet_ok {A} (m : tx Settle A) `{!Quiet L m} d a d' : lane_ok L d → m d = Ok (a, d') → lane_ok L d'.
Proof. intros Hd E w. rewrite (quiet d a d' E w). apply Hd. Qed.
End lane.

(** * Both lanes together *)

Definition lane_at (hmc : bool) : PayLane := if hmc then hmc_pay else sup_pay.
#[export] Instance lane_at_laws b : PayLaneLaws (lane_at b).
Proof. destruct b; exact _. Defined.

#[export] Instance lane_op_quiet (b : bool) (o : lane_op) : Quiet (lane_at (negb b)) (lane_exec (lane_at b) o).
Proof.
  destruct b, o; cbn [lane_exec lane_at negb pl_open pl_attach pl_clear pl_apply hmc_pay sup_pay]; try exact _.
  intros d a d' (n & d1 & E & [_ <-]%ret_ok)%bind_ok. by apply (quiet (L:=sup_pay) d n).
Qed.

(** [SetSettledSUP] moves the SUP watermark of one worker and nothing else the lanes show. *)
Lemma SetSettledSUP_moves w v a d u d' : SetSettledSUP w v a d = Ok (u, d') →
  moves sup_pay (trim_space w) (mkView (HMCToUnits v) (v_intent (view sup_pay (trim_space w) d))
    (v_rows (view sup_pay (trim_space w) d))) d d'.
Proof.
  unfold SetSettledSUP. intros H. inv_tx H.
  apply moves_intro; reads; at_self; try done; at_other; done.
Qed.

(** One operation: the lane and worker it is about, and the view it leaves there. *)
Lemma settle_exec_moves o d u d' :
  lane_ok hmc_pay d → lane_ok sup_pay d → settle_exec o d = Ok (u, d') →
  (∀ b x, view (lane_at b) x d' = view (lane_at b) x d) ∨
  ∃ b w v', (∀ x, view (lane_at (negb b)) x d' = view (lane_at (negb b)) x d) ∧ moves (lane_at b) w v' d d' ∧
    ((∃ o', op_view (lane_at b) o' (view (lane_at b) w d) v') ∨
     (b = false ∧ ∃ wid p addr, o = SettledSUP wid p addr ∧ w = trim_space wid ∧
      v' = mkView (HMCToUnits p) (v_intent (view sup_pay w d)) (v_rows (view sup_pay w d)))).
Proof.
  intros Hh Hs. destruct o; cbn [settle_exec]; intros E.
  - right. pose proof E as E'. apply (lane_exec_moves hmc_pay) in E as (v' & Hv & Hm); [|done].
    exists true, (lane_op_worker o), v'. split; [exact (quiet (Quiet:=lane_op_quiet true o) _ _ _ E')|].
    split; [done|]. left. by exists o.
  - right. pose proof E as E'. apply (lane_exec_moves sup_pay) in E as (v' & Hv & Hm); [|done].
    exists false, (lane_op_worker o), v'. split; [exact (quiet (Quiet:=lane_op_quiet false o) _ _ _ E')|].
    split; [done|]. left. by exists o.
  - right. exists false, (trim_space wid). eexists. split; [exact (quiet (L:=hmc_pay) _ _ _ E)|].
    split; [exact (SetSettledSUP_moves _ _ _ _ _ _ E)|]. right. split; [done|]. by eexists _, _, _.
  - left. intros [|]; exact (quiet _ _ _ E).
  - left. intros [|]; exact (quiet _ _ _ E).
  - left. intros [|]; exact (quiet _ _ _ E).
  - left. intros [|]; exact (quiet _ _ _ E).
Qed.

Lemma fresh_lane_ok b d : fresh_ledger d → lane_ok (lane_at b) d.
Proof.
  intros [H1 H2] w. unfold view_ok, view.
  destruct b; cbn; rewrite ?H1, ?H2; case_match; try done; by left.
Qed.

Lemma settle_exec_lane_ok o d u d' :
  (∀ b, lane_ok (lane_at b) d) → settle_exec o d = Ok (u, d') → ∀ b, lane_ok (lane_at b) d'.
Proof.
  intros Hd E. destruct (settle_exec_moves o d u d' (Hd true) (Hd false) E) as [Hq|(b & w & v' & Hq & Hm & Hv)].
  - intros b x. rewrite Hq. apply Hd.
  - intros b'. destruct (decide (b' = b)) as [->|Hb].
    + eapply moves_ok; [apply Hd| |exact Hm]. destruct Hv as [(o' & Hv)|(-> & wid & p & addr & -> & -> & ->)].
      * eapply op_view_ok; [|exact Hv]. apply Hd.
      * exact (Hd false (trim_space wid)).
    + assert (b' = negb b) as -> by (destruct b, b'; first [reflexivity|by destruct Hb]). intros x. rewrite Hq. apply Hd.
Qed.

Lemma settle_reachable_ok d0 d : settle_reachable d0 d → ∀ b, lane_ok (lane_at b) d.
Proof.
  induction 1 as [Hf|o d Hr IH Ho]; [intros b; by apply fresh_lane_ok|].
  unfold run. destruct (settle_exec o d) as [[u d']|e] eqn:E; [by eapply settle_exec_lane_ok|done].
Qed.

(** ** The abstract ledger *)

(** Units paid, and the amount and hash of the payout in flight. *)
Definition Promise : Type := Z * option (Z * string).
Definition promise (v : View) : Promise := (v_paid v, (λ i, (i_delta_units i, i_tx_hash i)) <$> v_intent v).

(** [sup]: the SUP lane never commits a lower watermark.  A stamp leaves an intent behind even where there was none, with no
    amount; a drop and a commit need none. *)
Inductive pay_step (sup : bool) : Promise → Promise → Prop :=
  | pay_stay s : pay_step sup s s
  | pay_open p delta : delta ≠ 0 → pay_step sup (p, None) (p, Some (delta, ""))
  | pay_stamp p o h : h ≠ "" → pay_step sup (p, o) (p, Some (reencode two64 (default 0 (fst <$> o)), h))
  | pay_drop p o : pay_step sup (p, o) (p, None)
  | pay_commit p p' o : (sup = true → p ≤ p') → pay_step sup (p, o) (p', None).

Lemma op_view_step b o v v' : op_view (lane_at b) o v v' → pay_step (negb b) (promise v) (promise v').
Proof.
  destruct o; cbn.
  - intros (Hi & Hn & i & r & H1 & H2 & H3 & _ & _ & _ & _ & _ & ->). unfold promise; cbn. rewrite Hi, H1, H3. cbn. by constructor.
  - intros [Hh ->]. unfold promise; cbn. destruct (v_intent v) as [i|]; cbn.
    + by apply (pay_stamp _ _ (Some (i_delta_units i, i_tx_hash i))).
    + by apply (pay_stamp _ _ None).
  - intros ->. constructor.
  - intros [Hp ->]. unfold promise; cbn. constructor. destruct b; [done|exact Hp].
Qed.

(** ** The journal *)

(** Units the journal says were paid in HMC to [w]. *)
Definition journal_units (w : string) (l : list JournalRow) : Z :=
  foldr (λ r acc, if String.eqb (j_kind r) "payout_applied" && String.eqb (j_worker r) w then j_units r + acc else acc) 0 l.

Lemma journal_units_snoc w l r :
  journal_units w (l ++ [r]) =
  journal_units w l + (if String.eqb (j_kind r) "payout_applied" && String.eqb (j_worker r) w then j_units r else 0).
Proof.
  induction l as [|x l IH]; unfold journal_units in *; cbn [app foldr]; [|rewrite IH];
    repeat match goal with |- context [if ?c then _ else _] => destruct c end; lia.
Qed.

#[local] Arguments journal_units : simpl never.

(** What an operation adds to the HMC watermark of [w] it adds to the journal. *)
Definition covered (w : string) (d d' : Settle) : Prop :=
  SettledUnits (worker w d') - SettledUnits (worker w d) ≤ journal_units w (s_journal d') - journal_units w (s_journal d).

Lemma covered_quiet w {A} (m : tx Settle A) `{!Quiet hmc_pay m} d a d' :
  m d = Ok (a, d') → journal_units w (s_journal d) ≤ journal_units w (s_journal d') → covered w d d'.
Proof.
  intros E Hj. unfold covered. pose proof (quiet d a d' E w) as Hv. apply (f_equal v_paid) in Hv. cbn in Hv. lia.
Qed.

(** The operations that do not write the journal. *)
Ltac same_journal := match goal with E : _ _ = Ok _ |- _ => inv_tx E; cbn; lia end.

Lemma covered_hmc w o d u d' : lane_ok hmc_pay d → lane_exec hmc_pay o d = Ok (u, d') → covered w d d'.
Proof.
  intros Hd E. destruct (lane_exec_moves hmc_pay _ _ _ _ Hd E) as (v' & Hv & Hm).
  specialize (Hm w). apply (f_equal v_paid) in Hm. cbn in Hm. unfold covered. rewrite Hm.
  destruct o; cbn [lane_exec hmc_pay pl_open pl_attach pl_clear pl_apply op_view] in E, Hv.
  - destruct Hv as (_ & _ & i & r & _ & _ & _ & _ & _ & _ & _ & _ & ->). unfold SetPendingUnits in E. inv_tx E.
    destruct (decide _) as [->|]; cbn; lia.
  - destruct Hv as [_ ->]. unfold AttachTxHash in E. inv_tx E. destruct (decide _) as [->|]; cbn; lia.
  - subst v'. unfold ClearPending in E. inv_tx E. destruct (decide _) as [->|]; cbn; lia.
  - destruct Hv as [_ ->]. unfold ApplySettleUnits in E. cbv zeta in E. inv_tx E. cbn [s_journal add_journal set_outbox upsert_worker set_workers].
    rewrite journal_units_snoc. cbn [j_kind j_worker j_units lane_op_worker].
    change (String.eqb "payout_applied" "payout_applied") with true. cbn [andb].
    destruct (decide (w = trim_space wid)) as [->|Hn].
    + rewrite decide_True, String.eqb_refl by done. cbn. case_match; b2p; lia.
    + rewrite decide_False, (proj2 (String.eqb_neq _ _)) by (done || congruence). cbn. lia.
Qed.

Lemma covered_other w o d u d' :
  match o with OnHMC _ => False | _ => True end → settle_wf o → settle_exec o d = Ok (u, d') → covered w d d'.
Proof.
  intros Ho Hw E. destruct o; [done|..]; cbn [settle_exec settle_wf] in *.
  - apply (covered_quiet (Quiet0:=lane_op_quiet false o) w _ _ _ _ E).
    destruct o; cbn [lane_exec sup_pay pl_open pl_attach pl_clear pl_apply lane_at] in E;
      cbv delta [SetPendingSUPUnits AttachSUPTxHash ClearPendingSUP ApplySettleSUPUnits] in E; cbv beta zeta in E; inv_tx E; try (cbn; lia).
    cbn [s_journal add_journal set_sup_outbox set_workers]. rewrite journal_units_snoc. cbn. lia.
  - apply (covered_quiet w _ _ _ _ E). unfold SetSettledSUP in E. same_journal.
  - apply (covered_quiet w _ _ _ _ E). unfold SetSessionAnchorHMC in E. same_journal.
  - apply (covered_quiet w _ _ _ _ E). unfold SetSessionAnchorSUP in E. same_journal.
  - apply (covered_quiet w _ _ _ _ E). unfold AppendLedger in E. apply bind_ok in E as ([] & d1 & H1 & H2).
    apply iter_sql_arg in H1 as ->. apply modify_ok in H2 as ->. cbn [s_journal add_journal]. rewrite journal_units_snoc.
    cbn [j_kind j_worker j_units]. case_match; lia.
  - apply (covered_quiet w _ _ _ _ E). unfold SetLastForceUnix in E. same_journal.
Qed.

(** * Properties *)

(** C30: At any moment in the life of a settlement ledger (any sequence of its operations from a created or
    migrated one, failed ones included), on the HMC side and on the SUP side, each worker has at most one
    pending outbox row; it has none when no intent is recorded; and the row records the recipient, hash,
    amount and nonce of the intent.  While an intent is recorded a second one is refused and changes nothing. *)
Theorem settle_single_intent d0 d b w :
  settle_reachable d0 d →
  view_ok (view (lane_at b) w d) ∧
  (∀ now wid addr delta nonce, trim_space wid = w → v_intent (view (lane_at b) w d) ≠ None →
    is_ok (outcome (pl_open (lane_at b) now wid addr delta nonce) d) = false ∧
    run (pl_open (lane_at b) now wid addr delta nonce) d = d).
Proof.
  intros Hr. split; [by eapply settle_reachable_ok|]. intros now wid addr delta nonce Hw Hi.
  unfold outcome, run. destruct (pl_open _ _ _ _ _ _ _) as [[u d']|e] eqn:E; [|done].
  apply law_open in E as [Hn _]. rewrite Hw in Hn. done.
Qed.

(** C29: The ledger refines its abstract account: at any moment in its life, from a created or migrated one on, one operation, successful or not, changes what it shows of at
    most one worker on one side (HMC or SUP), and that change is one step of the abstract account: open a payout only when
    none is in flight, stamp a hash (which writes the amount back through a JSON number, and records an intent without an
    amount if none was in flight), drop what is in
    flight, or commit, which sets the watermark to the caller's value and ends what is in flight, where the SUP side never
    commits a lower watermark.  The one exception is SetSettledSUP, the export merge's write: it sets the worker's SUP watermark to the value
    given, lower ones included, and leaves what is in flight. *)
Theorem settle_refines_promise d0 d o :
  settle_reachable d0 d →
  let d' := run (settle_exec o) d in
  ∃ b0 w0, ∀ b w,
    (pay_step (negb b) (promise (view (lane_at b) w d)) (promise (view (lane_at b) w d')) ∨
     ∃ wid p addr, o = SettledSUP wid p addr ∧ w = trim_space wid ∧ b = false ∧
       promise (view (lane_at b) w d') = (HMCToUnits p, (promise (view (lane_at b) w d)).2)) ∧
    ((b, w) ≠ (b0, w0) → view (lane_at b) w d' = view (lane_at b) w d).
Proof.
  intros Hr d'. pose proof (settle_reachable_ok _ _ Hr) as Hok. subst d'. unfold run.
  destruct (settle_exec o d) as [[u d']|e] eqn:E; [|exists true, ""; intros; split; [left; constructor|done]].
  destruct (settle_exec_moves o d u d' (Hok true) (Hok false) E) as [Hq|(b & w & v' & Hq & Hm & Hv)].
  - exists true, "". intros b w. rewrite Hq. split; [left; constructor|done].
  - exists b, w. intros b' w'. destruct (decide (b' = b)) as [->|Hb].
    + rewrite (Hm w'). destruct (decide (w' = w)) as [->|Hn]; [|split; [left; constructor|done]].
      split; [|by intros []]. destruct Hv as [(o' & Hv)|(-> & wid & p & addr & -> & -> & ->)].
      * left. by eapply op_view_step.
      * right. by exists wid, p, addr.
    + assert (b' = negb b) as -> by (destruct b, b'; first [reflexivity|by destruct Hb]). rewrite Hq.
      split; [left; constructor|done].
Qed.

(** The journal accounts for the watermark: over any sequence of ledger operations, the units credited to a worker as
    paid in HMC are at most the units of the payout rows journalled for that worker. *)
Theorem settle_journal_covers d0 d w :
  settle_reachable d0 d →
  SettledUnits (worker w d) - SettledUnits (worker w d0) ≤ journal_units w (s_journal d) - journal_units w (s_journal d0).
Proof.
  induction 1 as [Hf|o d Hr IH Ho]; [lia|]. unfold run.
  destruct (settle_exec o d) as [[u d']|e] eqn:E; [|done].
  assert (covered w d d'); [|unfold covered in *; lia].
  pose proof (settle_reachable_ok _ _ Hr true) as Hok.
  destruct o; try (by eapply covered_other in E). by eapply covered_hmc in E.
Qed.

(** ** An instance: one worker's intent is opened, stamped and applied *)

Definition toy_opened : Settle := run (settle_exec (OnHMC (LOpen 7 "w1" "addrA" 60 5))) empty_settle.
Definition toy_applied : Settle :=
  run (settle_exec (OnHMC (LApply 9 "w1" "addrA" "h1" 60 0 true))) (run (settle_exec (OnHMC (LAttach "w1" "h1"))) toy_opened).

Lemma toy_opened_reach : settle_reachable empty_settle toy_opened.
Proof. apply settle_next; [|done]. by apply settle_start. Qed.
Lemma toy_applied_reach : settle_reachable empty_settle toy_applied.
Proof. apply settle_next; [|done]. apply settle_next; [exact toy_opened_reach|done]. Qed.

Lemma settle_single_intent_witness :
  settle_reachable empty_settle toy_opened ∧ v_intent (view hmc_pay "w1" toy_opened) ≠ None ∧
  run (pl_open hmc_pay 8 "w1" "addrB" 10 6) toy_opened = toy_opened.
Proof.
  assert (Hi : v_intent (view (lane_at true) "w1" toy_opened) ≠ None) by (vm_compute; discriminate).
  split; [exact toy_opened_reach|]. split; [exact Hi|].
  exact (proj2 (proj2 (settle_single_intent empty_settle toy_opened true "w1" toy_opened_reach) 8 "w1" "addrB" 10 6 eq_refl Hi)).
Defined.

Lemma settle_refines_promise_witness :
  settle_reachable empty_settle toy_opened ∧
  promise (view (lane_at true) "w1" toy_opened) = (0, Some (60, "")) ∧
  pay_step false (promise (view (lane_at true) "w1" toy_opened))
    (promise (view (lane_at true) "w1" (run (settle_exec (OnHMC (LAttach "w1" "h1"))) toy_opened))).
Proof.
  split; [exact toy_opened_reach|]. split; [vm_compute; reflexivity|].
  destruct (settle_refines_promise empty_settle toy_opened (OnHMC (LAttach "w1" "h1")) toy_opened_reach) as (b0 & w0 & H).
  destruct (proj1 (H true "w1")) as [Hs|(wid & p & addr & Ho & _)]; [exact Hs|discriminate Ho].
Defined.

Lemma settle_journal_covers_witness :
  settle_reachable empty_settle toy_applied ∧ SettledUnits (worker "w1" toy_applied) = 60 ∧
  60 ≤ journal_units "w1" (s_journal toy_applied).
Proof.
  split; [exact toy_applied_reach|]. split; [vm_compute; reflexivity|].
  pose proof (settle_journal_covers empty_settle toy_applied "w1" toy_applied_reach) as H.
  change (SettledUnits (worker "w1" empty_settle)) with 0 in H. change (journal_units "w1" (s_journal empty_settle)) with 0 in H.
  change (SettledUnits (worker "w1" toy_applied)) with 60 in H. lia.
Defined.
