(* ===== verification/WorkerExport.v ===== *)
(** The settlement ledger's JSON mirror: the one-time migration from the legacy file and the merge
    that every export makes with the file it replaces.

    Source: internal/workersettle/store.go ([MigrateFromJSON], [exportWorkers], [ExportJSONToFile]).
    The file is what [json.Unmarshal] reads from it: [None] when it is missing, empty or not a JSON
    object.  Reading and writing the file succeed; Go visits the maps in any order, and the entries
    are independent of each other. *)
From S2P Require Import Prelude Float64 GoText GoNum Params Json WorkerSettle.

(** * The file *)

(** One entry of "workers"; an absent number is 0, as [anyFloat] reads it. *)
Record JsonEnt := mkEnt {
  je_settled_hmc : f64; je_settled_sup : f64; je_settled_units : Z; je_settled_sup_units : Z;
  je_payout : string; je_last_tx : string; je_last_settle : Z;
  je_anchor : f64; je_anchor_units : Z; je_anchor_sup : f64; je_anchor_sup_units : Z;
  je_pending : option Intent; je_pending_sup : option Intent;
}.
Record JsonDoc := mkDoc { jd_workers : gmap string JsonEnt; jd_force : Z }.

Definition ent_settled_sup (v : f64) (e : JsonEnt) : JsonEnt :=
  mkEnt (je_settled_hmc e) v (je_settled_units e) (je_settled_sup_units e) (je_payout e) (je_last_tx e)
    (je_last_settle e) (je_anchor e) (je_anchor_units e) (je_anchor_sup e) (je_anchor_sup_units e)
    (je_pending e) (je_pending_sup e).
Definition ent_anchor_sup (v : f64) (e : JsonEnt) : JsonEnt :=
  mkEnt (je_settled_hmc e) (je_settled_sup e) (je_settled_units e) (je_settled_sup_units e) (je_payout e) (je_last_tx e)
    (je_last_settle e) (je_anchor e) (je_anchor_units e) v (je_anchor_sup_units e)
    (je_pending e) (je_pending_sup e).
Definition ent_pending_sup (p : option Intent) (e : JsonEnt) : JsonEnt :=
  mkEnt (je_settled_hmc e) (je_settled_sup e) (je_settled_units e) (je_settled_sup_units e) (je_payout e) (je_last_tx e)
    (je_last_settle e) (je_anchor e) (je_anchor_units e) (je_anchor_sup e) (je_anchor_sup_units e)
    (je_pending e) p.

(** A value written back as it was read: its integers went through [any]. *)
Definition reencode_intent (p : Intent) : Intent := stamp_intent (i_tx_hash p) p.
Definition reencode_ent (e : JsonEnt) : JsonEnt :=
  mkEnt (je_settled_hmc e) (je_settled_sup e) (reencode two64 (je_settled_units e)) (reencode two64 (je_settled_sup_units e))
    (je_payout e) (je_last_tx e) (reencode_int (je_last_settle e))
    (je_anchor e) (reencode two64 (je_anchor_units e)) (je_anchor_sup e) (reencode two64 (je_anchor_sup_units e))
    (reencode_intent <$> je_pending e) (reencode_intent <$> je_pending_sup e).

(** * Migration *)

Definition migrated_row (e : JsonEnt) (r : WorkerRow) : WorkerRow :=
  mkWorker (HMCToUnits (je_settled_hmc e)) (HMCToUnits (je_settled_sup e)) (HMCToUnits (je_anchor e))
    (HMCToUnits (je_anchor_sup e)) (trim_space (je_payout e)) (trim_space (je_last_tx e)) (je_last_settle e)
    (je_pending e) (PendingSUPJSON r).

Definition migrate_entry (p : string * JsonEnt) : tx Settle unit :=
  let wid := trim_space p.1 in
  let e := p.2 in
  if String.eqb wid "" then ret tt
  else
    iter_tx sql_arg [HMCToUnits (je_settled_hmc e); HMCToUnits (je_settled_sup e); HMCToUnits (je_anchor e);
      HMCToUnits (je_anchor_sup e)] ;;;
    modify (upsert_worker wid (migrated_row e)).

(** [entries]: the "workers" of the file in the order Go visits them. *)
Definition MigrateFromJSON (jsonPath : string) (file : result (list (string * JsonEnt) * Z)) : tx Settle bool :=
  if String.eqb (trim_space jsonPath) "" then ret false
  else
    let* d := get in
    if s_migrated d then ret false
    else
      let* doc := lift file in
      iter_tx migrate_entry doc.1 ;;;
      modify (λ d, set_migrated (set_force doc.2 d)) ;;;
      ret true.

(** * Export *)

Definition export_row (r : WorkerRow) : JsonEnt :=
  let anchor u := if 0 <? u then UnitsToHMC u else f_of_Z 0 in
  mkEnt (UnitsToHMC (SettledUnits r)) (UnitsToHMC (SettledSUPUnits r)) (SettledUnits r) (SettledSUPUnits r)
    (PayoutAddress r) (LastTxHash r) (LastSettleUnix r)
    (anchor (SessionAnchorUnits r)) (SessionAnchorUnits r) (anchor (SessionAnchorSUPU r)) (SessionAnchorSUPU r)
    (reencode_intent <$> PendingJSON r) None.

(** The entry of a worker both the ledger and the old file know, and what the merge writes back. *)
Definition merge_sup (wid : string) (old e : JsonEnt) : tx Settle JsonEnt :=
  if f_ltb (je_settled_sup e) (je_settled_sup old) then
    attempt (SetSettledSUP wid (je_settled_sup old) (je_payout e)) ;;;
    ret (ent_settled_sup (je_settled_sup old) e)
  else ret e.
Definition merge_anchor (wid : string) (old e : JsonEnt) : tx Settle JsonEnt :=
  if f_ltb (je_anchor_sup e) (je_anchor_sup old) then
    attempt (SetSessionAnchorSUP wid (je_anchor_sup old) false) ;;;
    ret (ent_anchor_sup (je_anchor_sup old) e)
  else ret e.
Definition merge_entry (wid : string) (old : option JsonEnt) (e : JsonEnt) : tx Settle JsonEnt :=
  match old with
  | None => ret e
  | Some o =>
      let* e := merge_sup wid o e in
      let e := match je_pending_sup o with
               | Some p => ent_pending_sup (Some (reencode_intent p)) e
               | None => e
               end in
      merge_anchor wid o e
  end.

Fixpoint merge_entries (old : gmap string JsonEnt) (l : list (string * JsonEnt)) : tx Settle (gmap string JsonEnt) :=
  match l with
  | [] => ret ∅
  | (wid, e) :: l' =>
      let* e' := merge_entry wid (old !! wid) e in
      let* m := merge_entries old l' in
      ret (<[wid := e']> m)
  end.

Definition ExportJSONToFile (path : string) (file : option JsonDoc) : tx Settle JsonDoc :=
  guard (negb (String.eqb (trim_space path) "")) "workersettle: empty export path" ;;;
  let* d := get in
  guard (s_migrated d) "workersettle: refuse export before successful migrate" ;;;
  let old := match file with Some f => jd_workers f | None => ∅ end in
  let oldForce := match file with Some f => jd_force f | None => 0 end in
  let force := if (s_last_force d =? 0) && (0 <? oldForce) then oldForce else s_last_force d in
  guard (negb (bool_decide (s_workers d = ∅) && bool_decide (old ≠ ∅))) "workersettle: refuse empty export over non-empty JSON" ;;;
  let* merged := merge_entries old (map (λ p, (p.1, export_row p.2)) (map_to_list (s_workers d))) in
  ret (mkDoc (merged ∪ (reencode_ent <$> old)) force).
