(* ===== verification/WorkerRun.v ===== *)
(** One settlement pass: what the settler asks the chain node, what it sends, what it records.

    Sources: internal/workersettle/settler.go, resolve_pending.go, sup_settle.go.  Each HTTP answer
    is an argument ([Answers]): the node may give any answer at each call.  Waiting, logging, the
    file locks and the publish script are left out, and so is a cancelled context.  A turn is the
    body of the loop over workers; its state is the ledger, its JSON mirror and the transfers sent. *)
From S2P Require Import Prelude Float64 GoText GoNum Params Json WorkerSettle WorkerExport Transfers SupLedger.

(** * Deciding a stranded intent (resolve_pending.go) *)

Inductive strandedOutcome := strandedKeep | strandedPaid | strandedUnsent.
Definition strandedMaxScan : Z := 256.
Record strandedResult := mkStranded { sr_outcome : strandedOutcome; sr_hash : string; sr_nonce : Z; sr_reason : string }.
Definition keep (reason : string) (n : Z) : strandedResult := mkStranded strandedKeep "" n reason.

(** A row of /api/tx/by-nonce, and one of /api/tx/pool. *)
Record byNonceTx := mkByNonce { bn_hash : string; bn_status : string; bn_to : string; bn_amount : Z }.
Record poolTx := mkPoolTx { pt_hash : string; pt_from : string; pt_to : string; pt_amount : Z }.

Definition matches (to : string) (amount : Z) (t : byNonceTx) : bool := String.eqb (bn_to t) to && (bn_amount t =? amount).

Fixpoint findInflight (to : string) (amount : Z) (txs : list byNonceTx) : string :=
  match txs with
  | [] => ""
  | t :: txs' =>
      if matches to amount t && negb (String.eqb (bn_status t) "rejected") && negb (String.eqb (trim_space (bn_hash t)) "")
      then bn_hash t else findInflight to amount txs'
  end.
Definition findInflightTransfer (to : string) (amount : Z) (answer : result (list byNonceTx)) : result string :=
  match answer with Ok txs => Ok (findInflight to amount txs) | Err e => Err e end.

Definition in_pool (from to : string) (amount : Z) (t : poolTx) : bool :=
  String.eqb (pt_from t) from && String.eqb (pt_to t) to && (pt_amount t =? amount).
Definition poolHasTransfer (from to : string) (amount : Z) (answer : result (list poolTx)) : result bool :=
  match answer with Ok txs => Ok (existsb (in_pool from to amount) txs) | Err e => Err e end.

(** One nonce slot: the answer, or whether another included transfer takes it. *)
Fixpoint scan_slot (to : string) (amount n : Z) (taken : bool) (txs : list byNonceTx) : strandedResult + bool :=
  match txs with
  | [] => inr taken
  | t :: txs' =>
      if matches to amount t then
        if String.eqb (bn_status t) "included" then inl (mkStranded strandedPaid (bn_hash t) n "")
        else if String.eqb (bn_status t) "rejected" then scan_slot to amount n taken txs'
        else inl (keep "matching tx not included" n)
      else if String.eqb (bn_status t) "included" then
        if String.eqb (bn_to t) to then inl (keep "included transfer pays the same address a different amount" n)
        else scan_slot to amount n true txs'
      else scan_slot to amount n taken txs'
  end.

(** The nonces [n, n+1, ..., n+k-1]; [None] when every slot is taken. *)
Fixpoint scan_nonces (to : string) (amount : Z) (byNonce : Z → result (list byNonceTx)) (n : Z) (k : nat) : option strandedResult :=
  match k with
  | O => None
  | S k' =>
      match byNonce n with
      | Err _ => Some (keep "nonce lookup" 0)
      | Ok txs =>
          match scan_slot to amount n false txs with
          | inl r => Some r
          | inr false => Some (keep "nonce has no included transfer" n)
          | inr true => scan_nonces to amount byNonce (n + 1) k'
          end
      end
  end.

(** What the node answers about the payer. *)
Record NodeView := mkNodeView {
  nv_next_nonce : result Z;
  nv_by_nonce : Z → result (list byNonceTx);
  nv_pool : result (list poolTx);
}.

Definition intent_amount (p : Intent) : Z :=
  if i_delta_units p =? 0 then HMCToUnits (i_delta_hmc p) else i_delta_units p.

Definition resolveStrandedPending (payer to : string) (pend : Intent) (v : NodeView) : strandedResult :=
  let amount := intent_amount pend in
  let to := trim_space to in
  if (i_nonce pend <=? 0) || (amount =? 0) || String.eqb to "" then keep "intent has no nonce/amount/address" 0
  else
    let start := i_nonce pend in
    match nv_next_nonce v with
    | Err _ => keep "nonce lookup" 0
    | Ok next =>
        if next <? start then keep "payer next_nonce is behind intent nonce" 0
        else if (start <? next) && (strandedMaxScan <? next - start) then keep "nonce range too wide" 0
        else
          match scan_nonces to amount (nv_by_nonce v) start (Z.to_nat (next - start)) with
          | Some r => r
          | None =>
              match poolHasTransfer payer to amount (nv_pool v) with
              | Err _ => keep "pool lookup" 0
              | Ok true => keep "matching transfer pending in mempool" 0
              | Ok false => mkStranded strandedUnsent "" 0 ""
              end
          end
    end.

(** * Settings and answers *)

(** [strings.Split] at one byte, and [strings.Cut]. *)
Fixpoint split_at (c : ascii) (s cur : string) : list string :=
  match s with
  | EmptyString => [srev cur]
  | String a s' => if Ascii.eqb a c then srev cur :: split_at c s' "" else split_at c s' (String a cur)
  end.
Fixpoint cut_at (c : ascii) (s cur : string) : option (string * string) :=
  match s with
  | EmptyString => None
  | String a s' => if Ascii.eqb a c then Some (srev cur, s') else cut_at c s' (String a cur)
  end.
Definition comma : ascii := ascii_of_nat 44.
Definition equals : ascii := ascii_of_nat 61.

Fixpoint firstNonEmpty (vals : list string) : string :=
  match vals with
  | [] => ""
  | v :: vals' => if String.eqb (trim_space v) "" then firstNonEmpty vals' else trim_space v
  end.

Definition payout_entry (m : gmap string string) (part : string) : gmap string string :=
  match cut_at equals (trim_space part) "" with
  | None => m
  | Some (k, v) =>
      if String.eqb (trim_space k) "" || String.eqb (trim_space v) "" then m else <[trim_space k := trim_space v]> m
  end.
Definition parsePayoutMap (raw : string) : gmap string string := foldl payout_entry ∅ (split_at comma raw "").
Definition parseAllowlist (raw : string) : gset string :=
  foldl (λ m part, if String.eqb (trim_space part) "" then m else {[trim_space part]} ∪ m) ∅ (split_at comma raw "").

Record Config := mkConfig {
  StateJSON : string;
  MinSettleUnits : Z; DailyMinSettleUnits : Z; DailyForceIntervalSec : Z; ForceSettleAll : bool;
  WorkerPayoutMap : gmap string string; Allowlist : gset string;
  TreasuryReserveUnits : Z; MaxChunkUnits : Z; NonceRetries : Z;
  cfg_ClearPending : bool; ClearPendingForce : bool;
}.

(** One worker of the coordinator's stats. *)
Record workerAccrual := mkAccrual { PayoutHMC : f64; PayoutUnits : Z; wa_payout : string; AddressConflict : bool }.

(** The JSON of a send; absent fields are empty, and no answer at all is all empty. *)
Record SendResp := mkResp { r_tx_hash : string; r_ok : bool; r_status : string; r_code : string }.

(** Answers of one turn; [an_send i] is the i-th send and [an_retry_nonce i] the nonce looked up after it. *)
Record Answers := mkAnswers {
  an_recover_included : bool;
  an_view : NodeView;
  an_clear_nonce : result Z;
  an_balance : result Z;
  an_nonce : result Z;
  an_send : nat → SendResp;
  an_retry_nonce : nat → result Z;
  an_nonce_after : result Z;
  an_inflight : result (list byNonceTx);
  an_included : bool;
}.

Definition sentinel_hash (h : string) : bool := String.eqb h "" || String.eqb h "nonce-advanced" || String.eqb h "ok".

Definition txResponseOK (r : SendResp) : bool :=
  let txHash := trim_space (r_tx_hash r) in
  if sentinel_hash txHash then false
  else if r_ok r then true
  else
    let st := trim_space (r_status r) in
    String.eqb st "pending" || String.eqb st "accepted" || String.eqb st "included".

(** [verifyTxIncluded]: what the polling sees, unless the hash is empty or a placeholder. *)
Definition verifyTxIncluded (h : string) (seen : bool) : bool := if sentinel_hash (trim_space h) then false else seen.

(** * State of a pass *)

Record Transfer := mkTransfer { t_to : string; t_amount : Z; t_nonce : Z }.
Record Pass := mkPass {
  p_db : Settle; p_json : option JsonDoc; p_sent : list Transfer; p_settled : bool; p_payouts : Z;
}.

Definition with_db (d : Settle) (s : Pass) : Pass := mkPass d (p_json s) (p_sent s) (p_settled s) (p_payouts s).
Definition with_sent (l : list Transfer) (s : Pass) : Pass := mkPass (p_db s) (p_json s) (p_sent s ++ l) (p_settled s) (p_payouts s).
Definition mark_settled (n : Z) (s : Pass) : Pass := mkPass (p_db s) (p_json s) (p_sent s) true (p_payouts s + n).

(** A committed or rolled back operation, and one whose error is dropped ([_ = ...]). *)
Definition db_do {A} (m : tx Settle A) (s : Pass) : Pass * result A :=
  match m (p_db s) with Ok (a, d') => (with_db d' s, Ok a) | Err e => (s, Err e) end.
Definition db_try {A} (m : tx Settle A) (s : Pass) : Pass := (db_do m s).1.

Definition export (cfg : Config) (s : Pass) : Pass * bool :=
  match ExportJSONToFile (StateJSON cfg) (p_json s) (p_db s) with
  | Ok (doc, d') => (mkPass d' (Some doc) (p_sent s) (p_settled s) (p_payouts s), true)
  | Err _ => (s, false)
  end.
Definition export_try (cfg : Config) (s : Pass) : Pass := (export cfg s).1.

(** * Sending *)

Inductive SendOutcome := SendOK (r : SendResp) | SendAmbiguous (nonce : Z) | SendFailed.
Definition retriable (code : string) : bool := String.eqb code "pending_nonce_conflict" || String.eqb code "invalid_nonce".

(** The send and its retries on a nonce conflict: the outcome, the last nonce used and the nonces sent.
    [i] counts the sends made, [k] the retries left. *)
Fixpoint send_loop (an : Answers) (nonceBefore nonce : Z) (i k : nat) : SendOutcome * Z * list Z :=
  let resp := an_send an i in
  if txResponseOK resp then (SendOK resp, nonce, [nonce])
  else
    match k with
    | O => (SendFailed, nonce, [nonce])
    | S k' =>
        if negb (retriable (trim_space (r_code resp))) then (SendFailed, nonce, [nonce])
        else
          match an_retry_nonce an i with
          | Err _ => (SendFailed, nonce, [nonce])
          | Ok next =>
              if nonceBefore <? next then (SendAmbiguous next, nonce, [nonce])
              else
                let '(o, last, l) := send_loop an nonceBefore next (S i) k' in
                (o, last, nonce :: l)
          end
    end.

(** Eight tries to stamp the hash. *)
Fixpoint attach_retry (k : nat) (wid h : string) (s : Pass) : Pass * bool :=
  match k with
  | O => (s, false)
  | S k' =>
      match db_do (AttachTxHash wid h) s with
      | (s', Ok _) => (s', true)
      | (s', Err _) => attach_retry k' wid h s'
      end
  end.

(** * One worker's turn in [Run] (settler.go) *)

Section turn.
Context (cfg : Config) (now : Z) (payer wid : string).

Definition note_nonce (a b : Z) : string := "nonce " +:+ fmt_uint a +:+ "->" +:+ fmt_uint b.
Definition log_row (kind : string) (units : Z) (note : string) : tx Settle unit :=
  AppendLedger now kind wid units 0 0 0 0 0 note.

Definition toAddress (w : workerAccrual) : string :=
  let m := trim_space (default "" (WorkerPayoutMap cfg !! wid)) in
  if String.eqb m "" then trim_space (wa_payout w) else m.

Definition accrued_units (w : workerAccrual) : Z :=
  if (PayoutUnits w =? 0) && f_ltb (f_of_Z 0) (PayoutHMC w) then HMCToUnits (PayoutHMC w) else PayoutUnits w.

(** Store or clear the session anchor; [false] skips the worker. *)
Definition anchor_step (d : AccrualDelta) (s : Pass) : Pass * bool :=
  if NeedAnchor d then
    match db_do (SetSessionAnchorHMC wid (UnitsToHMC (NewAnchorUnits d)) false) s with
    | (s', Ok _) => (export_try cfg s', true)
    | (s', Err _) => (s', false)
    end
  else if ClearAnchor d then (db_try (SetSessionAnchorHMC wid (f_of_Z 0) true) s, true)
  else (s, true).

(** An intent with a hash: apply it once the chain includes it, never send again. *)
Definition recover (toAddr : string) (row : WorkerRow) (accrued : Z) (di : AccrualDelta) (pend : Intent)
    (an : Answers) (s : Pass) : Pass :=
  if verifyTxIncluded (i_tx_hash pend) (an_recover_included an) then
    let newSettled := u64 (SettledUnits row +
      (if i_delta_units pend =? 0 then HMCToUnits (i_delta_hmc pend) else i_delta_units pend)) in
    let clear := negb (Rebase di) in
    let anchor := if clear then 0 else accrued in
    let addr := firstNonEmpty [i_payout pend; toAddr] in
    match db_do (ApplySettleUnits now wid addr (i_tx_hash pend) newSettled anchor clear) s with
    | (s', Ok _) => mark_settled 0 (export_try cfg s')
    | (s', Err _) => s'
    end
  else if cfg_ClearPending cfg && ClearPendingForce cfg then export_try cfg (db_try (ClearPending now wid) s)
  else s.

(** An intent without a hash: decided from the chain, or kept. *)
Definition stranded (toAddr : string) (pend : Intent) (an : Answers) (s : Pass) : Pass :=
  let payTo := firstNonEmpty [i_payout pend; toAddr] in
  let res := resolveStrandedPending payer payTo pend (an_view an) in
  match sr_outcome res with
  | strandedPaid =>
      if TxHashKnown (sr_hash res) (p_db s) then s
      else
        match db_do (AttachTxHash wid (sr_hash res)) s with
        | (s', Ok _) =>
            export_try cfg (db_try (log_row "stranded_resolved_paid" (i_delta_units pend)
              ("tx=" +:+ sr_hash res +:+ " nonce=" +:+ fmt_uint (sr_nonce res))) s')
        | (s', Err _) => s'
        end
  | strandedUnsent =>
      match db_do (ClearPending now wid) s with
      | (s', Ok _) =>
          export_try cfg (db_try (log_row "stranded_resolved_unsent" (i_delta_units pend)
            ("intent nonce " +:+ fmt_int (i_nonce pend) +:+ ": every slot taken by another included transfer")) s')
      | (s', Err _) => s'
      end
  | strandedKeep =>
      if negb (cfg_ClearPending cfg) then s
      else
        let advanced := match an_clear_nonce an with Ok nNow => i_nonce pend <? i64 nNow | Err _ => false end in
        if negb (ClearPendingForce cfg) && (0 <? i_nonce pend) && advanced then s
        else export_try cfg (db_try (ClearPending now wid) s)
  end.

(** What follows a send that did not return a usable hash. *)
Definition not_sent (toAddr : string) (payUnits nonceBefore nonce : Z) (an : Answers) (s : Pass) : Pass :=
  let nonceAfter := match an_nonce_after an with Ok n => n | Err _ => 0 end in
  if nonceBefore <? nonceAfter then db_try (log_row "ambiguous_pending" payUnits (note_nonce nonceBefore nonceAfter)) s
  else
    match findInflightTransfer toAddr payUnits (an_inflight an) with
    | Err _ => export_try cfg s
    | Ok h =>
        if negb (String.eqb h "") then export_try cfg (db_try (AttachTxHash wid h) s)
        else export_try cfg (db_try (ClearPending now wid) s)
    end.

(** What follows an accepted send; [false]: the pass ends with an error. *)
Definition sent_ok (toAddr : string) (row : WorkerRow) (di : AccrualDelta) (payUnits : Z) (r : SendResp)
    (an : Answers) (s : Pass) : Pass * bool :=
  let txHash := trim_space (r_tx_hash r) in
  if String.eqb txHash "" then (db_try (log_row "missing_tx_hash" payUnits "ok response empty tx_hash") s, true)
  else
    match attach_retry 8 wid txHash s with
    | (s1, false) => (db_try (log_row "attach_tx_hash_failed" payUnits txHash) s1, true)
    | (s1, true) =>
        let s2 := export_try cfg s1 in
        if negb (verifyTxIncluded txHash (an_included an)) then (s2, true)
        else
          let newSettled := u64 (SettledUnits row + payUnits) in
          let clear := negb (Rebase di) in
          let anchorU := if clear then 0 else u64 (BaselineUnits di + payUnits) in
          match db_do (ApplySettleUnits now wid toAddr txHash newSettled anchorU clear) s2 with
          | (s3, Err _) => (s3, true)
          | (s3, Ok _) =>
              let '(s4, ok) := export cfg s3 in
              if ok then (mark_settled 1 s4, true) else (s4, false)
          end
    end.

(** No intent: record one, send, and settle or keep it. *)
Definition pay_worker (toAddr : string) (row : WorkerRow) (di : AccrualDelta) (an : Answers) (s : Pass) : Pass * bool :=
  match an_balance an with
  | Err _ => (s, true)
  | Ok bal =>
      let payUnits := CapChunk (DeltaUnits di) bal (TreasuryReserveUnits cfg) (MaxChunkUnits cfg) in
      if payUnits =? 0 then (s, true)
      else
        match an_nonce an with
        | Err _ => (s, true)
        | Ok nonce =>
            match db_do (SetPendingUnits now wid toAddr payUnits (i64 nonce)) s with
            | (s1, Err _) => (s1, true)
            | (s1, Ok _) =>
                match export cfg s1 with
                | (s2, false) => (s2, false)
                | (s2, true) =>
                    let '(o, last, nonces) := send_loop an nonce nonce 0 (Z.to_nat (NonceRetries cfg - 1)) in
                    let s3 := with_sent (map (mkTransfer toAddr payUnits) nonces) s2 in
                    match o with
                    | SendAmbiguous next =>
                        (db_try (log_row "ambiguous_pending" payUnits (note_nonce nonce next +:+ " conflict-retry")) s3, true)
                    | SendFailed => (not_sent toAddr payUnits nonce last an s3, true)
                    | SendOK r => sent_ok toAddr row di payUnits r an s3
                    end
                end
            end
        end
  end.

(** The body of the loop; [false] ends the pass with an error. *)
Definition settle_worker (force : bool) (w : workerAccrual) (an : Answers) (s : Pass) : Pass * bool :=
  if bool_decide (Allowlist cfg ≠ ∅) && bool_decide (wid ∉ Allowlist cfg) then (s, true)
  else if AddressConflict w then (s, true)
  else
    let toAddr := toAddress w in
    if String.eqb toAddr "" || String.eqb toAddr payer then (s, true)
    else
      match GetWorker wid (p_db s) with
      | Err _ => (s, true)
      | Ok row =>
          let accrued := accrued_units w in
          let di := ComputeAccrualDelta accrued (SettledUnits row) (SessionAnchorUnits row) in
          match anchor_step di s with
          | (s1, false) => (s1, true)
          | (s1, true) =>
              if negb (ShouldSettle (DeltaUnits di) (MinSettleUnits cfg) force (DailyMinSettleUnits cfg)) then (s1, true)
              else if DeltaUnits di =? 0 then (s1, true)
              else
                let pend := default no_intent (PendingJSON row) in
                if negb (String.eqb (i_tx_hash pend) "") then (recover toAddr row accrued di pend an s1, true)
                else if bool_decide (PendingJSON row ≠ None) then (stranded toAddr pend an s1, true)
                else pay_worker toAddr row di an s1
          end
      end.
End turn.

(** * The pass *)

(** The workers in the order Go visits the map, each with the answers of its turn. *)
Fixpoint settle_workers (cfg : Config) (now : Z) (payer : string) (force : bool)
    (ws : list (string * workerAccrual * Answers)) (s : Pass) : Pass * bool :=
  match ws with
  | [] => (s, true)
  | (wid, w, an) :: ws' =>
      match settle_worker cfg now payer wid force w an s with
      | (s', false) => (s', false)
      | (s', true) => settle_workers cfg now payer force ws' s'
      end
  end.

Definition force_mode (cfg : Config) (now : Z) (d : Settle) : bool :=
  ForceSettleAll cfg || ((0 <? DailyForceIntervalSec cfg) && (DailyForceIntervalSec cfg <=? now - GetMeta d)).

(** [Run] from the open ledger and the answered stats on; [false]: it returned an error. *)
Definition Run (cfg : Config) (now : Z) (payer : string) (ws : list (string * workerAccrual * Answers)) (s : Pass) : Pass * bool :=
  match export cfg s with
  | (s0, false) => (s0, false)
  | (s0, true) =>
      let force := force_mode cfg now (p_db s0) in
      if String.eqb payer "" then (s0, false)
      else
        match settle_workers cfg now payer force ws s0 with
        | (s1, false) => (s1, false)
        | (s1, true) =>
            if force && p_settled s1 then (export_try cfg (db_try (SetLastForceUnix now) s1), true) else (s1, true)
        end
  end.

(** * One worker's turn in [RunSUP] (sup_settle.go) *)

Record SUPConfig := mkSUPConfig {
  sc_json : string; sc_min : Z; sc_reserve : Z; sc_max_chunk : Z;
  sc_payout_map : gmap string string; sc_allow : gset string; sc_clear_pending : bool;
}.

(** The treasury reserve is at least the SUP fee the payer pays. *)
Definition sup_reserve (reserveUnits : Z) : Z :=
  if reserveUnits <? DefaultSUPTransferMinFee then DefaultSUPTransferMinFee else reserveUnits.

Record SUPAnswers := mkSUPAnswers {
  sa_clear_inflight : result (list poolTx);
  sa_clear_state : result (Z * Z);
  sa_recover : bool * bool;
  sa_state : result (Z * Z);
  sa_send : SendResp;
  sa_state_after : result (Z * Z);
  sa_inflight : result (list poolTx);
  sa_included : bool;
}.

Fixpoint sup_inflight (payer to : string) (amount : Z) (txs : list poolTx) : string :=
  match txs with
  | [] => ""
  | t :: txs' =>
      if in_pool payer to amount t && negb (String.eqb (trim_space (pt_hash t)) "") then pt_hash t
      else sup_inflight payer to amount txs'
  end.
Definition findSUPInflight (payer to : string) (amount : Z) (answer : result (list poolTx)) : result string :=
  match answer with Ok txs => Ok (sup_inflight payer to amount txs) | Err e => Err e end.

Section sup_turn.
Context (cfg : SUPConfig) (now : Z) (payer wid : string).

Definition sup_log (kind : string) (units : Z) (note : string) : tx Settle unit :=
  AppendLedger now kind wid units 0 0 0 0 0 note.

Definition sup_anchor_step (d : AccrualDelta) (s : Pass) : Pass * bool :=
  if NeedAnchor d then
    match db_do (SetSessionAnchorSUP wid (UnitsToHMC (NewAnchorUnits d)) false) s with
    | (s', Ok _) => (s', true)
    | (s', Err _) => (s', false)
    end
  else if ClearAnchor d then (db_try (SetSessionAnchorSUP wid (f_of_Z 0) true) s, true)
  else (s, true).

(** Manual clear of an intent without a hash: the mempool is read first, then the nonce. *)
Definition sup_clear (toAddr : string) (pend : Intent) (an : SUPAnswers) (s : Pass) : Pass :=
  let inflight := findSUPInflight payer (firstNonEmpty [i_payout pend; toAddr]) (i_delta_units pend) (sa_clear_inflight an) in
  match sa_clear_state an, inflight with
  | Ok (_, nNow), Ok h =>
      if (nNow <=? Z.max 0 (i_nonce pend)) && String.eqb h "" then db_try (ClearPendingSUP now wid) s else s
  | _, _ => s
  end.

Definition sup_apply (addr h : string) (settled anchor : Z) (di : AccrualDelta) (n : Z) (s : Pass) : Pass :=
  match db_do (ApplySettleSUPUnits now wid addr h settled anchor (negb (Rebase di))) s with
  | (s', Ok _) => mark_settled n s'
  | (s', Err _) => s'
  end.

Definition sup_recover (toAddr : string) (row : WorkerRow) (di : AccrualDelta) (pend : Intent) (an : SUPAnswers) (s : Pass) : Pass :=
  if String.eqb (i_tx_hash pend) "" then
    if sc_clear_pending cfg then sup_clear toAddr pend an s else s
  else
    let '(included, rejected) := sa_recover an in
    if rejected then
      db_try (sup_log "sup_pending_rejected" (i_delta_units pend) (i_tx_hash pend)) (db_try (ClearPendingSUP now wid) s)
    else if included then
      sup_apply (firstNonEmpty [i_payout pend; toAddr]) (i_tx_hash pend) (u64 (SettledSUPUnits row + i_delta_units pend))
        (u64 (BaselineUnits di + i_delta_units pend)) di 0 s
    else s.

Definition sup_not_sent (toAddr : string) (pay nonce : Z) (an : SUPAnswers) (s : Pass) : Pass :=
  let nonceAfter := match sa_state_after an with Ok (_, n) => n | Err _ => 0 end in
  if nonce <? nonceAfter then
    db_try (sup_log "sup_ambiguous_pending" pay (note_nonce nonce nonceAfter +:+ " code=" +:+ r_code (sa_send an))) s
  else
    match findSUPInflight payer toAddr pay (sa_inflight an) with
    | Err _ => s
    | Ok h => if negb (String.eqb h "") then db_try (AttachSUPTxHash wid h) s else db_try (ClearPendingSUP now wid) s
    end.

Definition sup_pay_worker (toAddr : string) (row : WorkerRow) (di : AccrualDelta) (an : SUPAnswers) (s : Pass) : Pass :=
  match sa_state an with
  | Err _ => s
  | Ok (bal, nonce) =>
      let pay := CapChunk (DeltaUnits di) bal (u64 (sup_reserve (sc_reserve cfg) + DefaultSUPTransferMinFee)) (sc_max_chunk cfg) in
      if pay =? 0 then s
      else
        match db_do (SetPendingSUPUnits now wid toAddr pay (i64 nonce)) s with
        | (s1, Err _) => s1
        | (s1, Ok _) =>
            let s2 := with_sent [mkTransfer toAddr pay nonce] s1 in
            if negb (txResponseOK (sa_send an)) then sup_not_sent toAddr pay nonce an s2
            else
              let txHash := trim_space (r_tx_hash (sa_send an)) in
              match db_do (AttachSUPTxHash wid txHash) s2 with
              | (s3, Err _) => s3
              | (s3, Ok _) =>
                  if negb (sa_included an) then s3
                  else sup_apply toAddr txHash (u64 (SettledSUPUnits row + pay)) (u64 (BaselineUnits di + pay)) di 1 s3
              end
        end
  end.

Definition settle_worker_sup (w : workerAccrual) (payoutSUP : f64) (an : SUPAnswers) (s : Pass) : Pass :=
  if bool_decide (sc_allow cfg ≠ ∅) && bool_decide (wid ∉ sc_allow cfg) then s
  else if AddressConflict w then s
  else
    let toAddr := firstNonEmpty [default "" (sc_payout_map cfg !! wid); wa_payout w] in
    if String.eqb toAddr "" || String.eqb toAddr payer then s
    else
      match GetWorker wid (p_db s) with
      | Err _ => s
      | Ok row =>
          let di := ComputeAccrualDelta (HMCToUnits payoutSUP) (SettledSUPUnits row) (SessionAnchorSUPU row) in
          match sup_anchor_step di s with
          | (s1, false) => s1
          | (s1, true) =>
              match PendingSUPJSON row with
              | Some pend => sup_recover toAddr row di pend an s1
              | None =>
                  if negb (ShouldSettle (DeltaUnits di) (sc_min cfg) false 0) || (DeltaUnits di =? 0) then s1
                  else sup_pay_worker toAddr row di an s1
              end
          end
      end.
End sup_turn.
