(* ===== verification/WorkerSafe.v ===== *)
(** The settler and the chain node together: one worker is never paid twice.

    A node keeps the payer's transfers with their fate.  A turn of the settler (WorkerRun) is run on
    answers that are true of the node while it moves on; between turns anything may happen that is
    not about this worker.  The invariant ties the worker's ledger row to the transfers to the
    worker's address. *)
From S2P Require Import Prelude Float64 GoText GoNum Params Json WorkerSettle WorkerStore WorkerExport WorkerRun.

(** * The node, as far as the payer's transfers go *)

Inductive fate := Pending | Included | Rejected.
#[export] Instance fate_eq_dec : EqDecision fate.
Proof. solve_decision. Defined.

Record NodeTx := mkNodeTx { x_to : string; x_amount : Z; x_nonce : Z; x_fate : fate }.
(** Transfers by hash, and the payer's next nonce. *)
Record Node := mkNode { n_txs : gmap string NodeTx; n_next : Z }.

Definition fated (f : fate) (x : NodeTx) : NodeTx := mkNodeTx (x_to x) (x_amount x) (x_nonce x) f.
(** A hash as the API shows it. *)
Definition hash_ok (h : string) : Prop := trim_space h = h ∧ sentinel_hash h = false.

Section node.
Context (A : string).

Inductive node_step : Node → Node → Prop :=
  | ns_include N h x : n_txs N !! h = Some x → x_fate x = Pending → x_nonce x = n_next N →
      node_step N (mkNode (<[h := fated Included x]> (n_txs N)) (n_next N + 1))
  | ns_reject N h x : n_txs N !! h = Some x → x_fate x = Pending →
      node_step N (mkNode (<[h := fated Rejected x]> (n_txs N)) (n_next N))
  | ns_other N h x : n_txs N !! h = None → x_to x ≠ A → x_fate x = Pending →
      node_step N (mkNode (<[h := x]> (n_txs N)) (n_next N)).
Definition node_steps : Node → Node → Prop := rtc node_step.

(** A send: refused, or accepted under a new hash.  An answer that carries a hash means accepted under it;
    a nonce conflict means refused; any other answer, or none, may mean either. *)
Inductive send_effect (r : SendResp) (t : Transfer) (N : Node) : Node → Prop :=
  | se_refused : txResponseOK r = false → send_effect r t N N
  | se_accepted h : n_txs N !! h = None → hash_ok h →
      (txResponseOK r = true → trim_space (r_tx_hash r) = h) →
      (txResponseOK r = false → retriable (trim_space (r_code r)) = false) →
      send_effect r t N (mkNode (<[h := mkNodeTx (t_to t) (t_amount t) (t_nonce t) Pending]> (n_txs N)) (n_next N)).

Inductive sends_true (an : Answers) : nat → list Transfer → Node → Node → Prop :=
  | st_nil i N : sends_true an i [] N N
  | st_cons i t l N N1 N2 N3 : send_effect (an_send an i) t N N1 → node_steps N1 N2 →
      (∀ m, an_retry_nonce an i = Ok m → m = n_next N2) → sends_true an (S i) l N2 N3 →
      sends_true an i (t :: l) N N3.

Definition fate_name (f : fate) : string :=
  match f with Pending => "pending" | Included => "included" | Rejected => "rejected" end.
Definition shown (h : string) (x : NodeTx) : byNonceTx := mkByNonce h (fate_name (x_fate x)) (x_to x) (x_amount x).

(** /api/tx/by-nonce lists the payer's transfers at that nonce. *)
Definition by_nonce_true (N : Node) (n : Z) (answer : result (list byNonceTx)) : Prop :=
  ∀ txs, answer = Ok txs →
    (∀ t, t ∈ txs → ∃ h x, n_txs N !! h = Some x ∧ x_nonce x = n ∧ t = shown h x) ∧
    (∀ h x, n_txs N !! h = Some x → x_nonce x = n → shown h x ∈ txs).
(** /api/tx/pool lists every pending transfer. *)
Definition pool_true (payer : string) (N : Node) (answer : result (list poolTx)) : Prop :=
  ∀ txs h x, answer = Ok txs → n_txs N !! h = Some x → x_fate x = Pending →
    mkPoolTx h payer (x_to x) (x_amount x) ∈ txs.
(** The resolver's reads are separate requests: the nonce is read at [N], each slot at some state in between, the mempool at [N'].
    The one thing asked of the node meanwhile is that it includes no transfer to [A] (resolve_race in WorkerProps shows
    what happens when it does). *)
Definition view_true (payer : string) (N N' : Node) (v : NodeView) : Prop :=
  node_steps N N' ∧ (∀ n, nv_next_nonce v = Ok n → n = n_next N) ∧
  (∀ n, ∃ Nn, node_steps N Nn ∧ node_steps Nn N' ∧ by_nonce_true Nn n (nv_by_nonce v n)) ∧
  pool_true payer N' (nv_pool v) ∧
  (∀ h x, n_txs N' !! h = Some x → x_to x = A → x_fate x = Included → n_txs N !! h = Some x).

Definition included (h : string) (N : Node) : Prop := ∃ x, n_txs N !! h = Some x ∧ x_fate x = Included.

(** The answers of a turn that found intent hash [h] and made the sends [sent], while the node went from [N] to [N']. *)
Inductive turn_true (payer h : string) (an : Answers) (sent : list Transfer) (N N' : Node) : Prop :=
  | turn_true_intro N0 N1 N2 N3 N4 :
      node_steps N N0 → view_true payer N0 N1 (an_view an) → (an_recover_included an = true → included h N1) →
      node_steps N1 N2 → (∀ n, an_nonce an = Ok n → n = n_next N2) →
      sends_true an 0 sent N2 N3 →
      node_steps N3 N4 → (∀ t, list.last sent = Some t → by_nonce_true N4 (t_nonce t) (an_inflight an)) →
      node_steps N4 N' →
      (an_included an = true → ∀ i, S i = List.length sent → included (trim_space (r_tx_hash (an_send an i))) N') →
      turn_true payer h an sent N N'.
End node.

(** * What the scan of a stranded intent decides *)

Section scan.
Context (to : string) (amount : Z).

(** A slot scanned to its end has only rejected transfers of the intent's shape. *)
Definition slot_clear (txs : list byNonceTx) : Prop :=
  ∀ t, t ∈ txs → matches to amount t = true → bn_status t = "rejected".

Lemma scan_slot_clear n taken txs b : scan_slot to amount n taken txs = inr b → slot_clear txs.
Proof.
  revert taken. induction txs as [|t txs IH]; intros taken H u Hu; [by apply elem_of_nil in Hu|]. cbn [scan_slot] in H.
  apply elem_of_cons in Hu as [->|Hu].
  - intros Hm. rewrite Hm in H. destruct (String.eqb (bn_status t) "included"); [done|].
    destruct (String.eqb (bn_status t) "rejected") eqn:E; [by apply String.eqb_eq|done].
  - repeat case_match; try done; by eapply IH.
Qed.

Lemma scan_slot_taken n txs : scan_slot to amount n false txs = inr true →
  ∃ t, t ∈ txs ∧ bn_status t = "included" ∧ bn_to t ≠ to.
Proof.
  induction txs as [|t txs IH]; cbn [scan_slot]; [done|]. intros H.
  destruct (matches to amount t); [repeat case_match; try done; destruct IH as (u & Hu & ?); [done|]; exists u; split; [by right|done]|].
  destruct (String.eqb (bn_status t) "included") eqn:E.
  - destruct (String.eqb (bn_to t) to) eqn:Et; [done|]. exists t. split; [by left|]. split; [by apply String.eqb_eq|by apply String.eqb_neq].
  - destruct IH as (u & Hu & ?); [done|]. exists u. split; [by right|done].
Qed.

Lemma scan_slot_stop n taken txs r : scan_slot to amount n taken txs = inl r →
  sr_outcome r = strandedKeep ∨
  (sr_outcome r = strandedPaid ∧ sr_nonce r = n ∧
   ∃ t, t ∈ txs ∧ matches to amount t = true ∧ bn_status t = "included" ∧ sr_hash r = bn_hash t).
Proof.
  revert taken. induction txs as [|t txs IH]; intros taken; cbn [scan_slot]; [done|]. intros H.
  assert (Hrest : ∀ tk, scan_slot to amount n tk txs = inl r → sr_outcome r = strandedKeep ∨
    (sr_outcome r = strandedPaid ∧ sr_nonce r = n ∧
     ∃ u, u ∈ t :: txs ∧ matches to amount u = true ∧ bn_status u = "included" ∧ sr_hash r = bn_hash u)).
  { intros tk Hr. destruct (IH tk Hr) as [|(Ho & Hn & u & Hu & Hrest)]; [by left|].
    right. do 2 (split; [done|]). exists u. split; [by right|done]. }
  destruct (matches to amount t) eqn:Em.
  - destruct (String.eqb (bn_status t) "included") eqn:E1.
    + injection H as <-. right. do 2 (split; [done|]). exists t. split; [by left|]. split; [done|]. split; [by apply String.eqb_eq|done].
    + destruct (String.eqb (bn_status t) "rejected"); [by eapply Hrest|]. injection H as <-. by left.
  - destruct (String.eqb (bn_status t) "included"); [|by eapply Hrest].
    destruct (String.eqb (bn_to t) to); [|by eapply Hrest]. injection H as <-. by left.
Qed.

Lemma scan_nonces_none byNonce n k : scan_nonces to amount byNonce n k = None →
  ∀ m, n ≤ m < n + Z.of_nat k → ∃ txs, byNonce m = Ok txs ∧ slot_clear txs ∧
    ∃ t, t ∈ txs ∧ bn_status t = "included" ∧ bn_to t ≠ to.
Proof.
  revert n. induction k as [|k IH]; intros n H m Hm; [lia|]. cbn [scan_nonces] in H.
  destruct (byNonce n) as [txs|] eqn:E; [|done].
  destruct (scan_slot to amount n false txs) as [r|[|]] eqn:Es; try done.
  destruct (decide (m = n)) as [->|Hn]; [|apply (IH (n + 1)); [done|lia]].
  exists txs. split; [done|]. split; [by eapply scan_slot_clear|by eapply scan_slot_taken].
Qed.

Lemma scan_nonces_some byNonce n k r : scan_nonces to amount byNonce n k = Some r →
  sr_outcome r = strandedKeep ∨
  (sr_outcome r = strandedPaid ∧ n ≤ sr_nonce r < n + Z.of_nat k ∧
   ∃ txs t, byNonce (sr_nonce r) = Ok txs ∧ t ∈ txs ∧ matches to amount t = true ∧ bn_status t = "included" ∧ sr_hash r = bn_hash t).
Proof.
  revert n. induction k as [|k IH]; intros n H; [done|]. cbn [scan_nonces] in H.
  destruct (byNonce n) as [txs|] eqn:E; [|injection H as <-; by left].
  destruct (scan_slot to amount n false txs) as [r'|[|]] eqn:Es.
  - injection H as <-. destruct (scan_slot_stop _ _ _ _ Es) as [|(Ho & Hn & t & Ht)]; [by left|].
    right. split; [done|]. split; [lia|]. rewrite Hn. by exists txs, t.
  - destruct (IH _ H) as [|(Ho & Hb & Hrest)]; [by left|]. right. split; [done|]. split; [lia|done].
  - injection H as <-. by left.
Qed.
End scan.

(** When the intent is given up as never sent. *)
Lemma resolve_unsent payer to pend v :
  sr_outcome (resolveStrandedPending payer to pend v) = strandedUnsent →
  ∃ next, nv_next_nonce v = Ok next ∧ 0 < i_nonce pend ≤ next ∧ next - i_nonce pend ≤ strandedMaxScan ∧
    (∀ m, i_nonce pend ≤ m < next → ∃ txs, nv_by_nonce v m = Ok txs ∧
      slot_clear (trim_space to) (intent_amount pend) txs ∧
      ∃ t, t ∈ txs ∧ bn_status t = "included" ∧ bn_to t ≠ trim_space to) ∧
    ∃ pool, nv_pool v = Ok pool ∧ existsb (in_pool payer (trim_space to) (intent_amount pend)) pool = false.
Proof.
  unfold resolveStrandedPending. destruct (_ || _) eqn:E0; [done|]. b2p.
  destruct (nv_next_nonce v) as [next|]; [|done]. destruct (next <? i_nonce pend) eqn:E1; [done|].
  destruct (_ && _) eqn:E2; [done|]. b2p.
  destruct (scan_nonces _ _ _ _ _) as [r|] eqn:E3.
  - intros Ho. apply scan_nonces_some in E3 as [|[? _]]; congruence.
  - destruct (nv_pool v) as [pool|]; cbn; [|done]. destruct (existsb _ pool) eqn:E4; [done|]. intros _.
    exists next. split; [done|]. split; [lia|]. split.
    { apply andb_false_iff in E2 as [E2|E2]; b2p; unfold strandedMaxScan in *; lia. }
    split; [|by exists pool]. intros m Hm. eapply scan_nonces_none; [exact E3|]. lia.
Qed.

(** When it is taken as paid. *)
Lemma resolve_paid payer to pend v :
  sr_outcome (resolveStrandedPending payer to pend v) = strandedPaid →
  ∃ txs t, nv_by_nonce v (sr_nonce (resolveStrandedPending payer to pend v)) = Ok txs ∧ t ∈ txs ∧
    bn_to t = trim_space to ∧ bn_amount t = intent_amount pend ∧ bn_status t = "included" ∧
    sr_hash (resolveStrandedPending payer to pend v) = bn_hash t ∧
    i_nonce pend ≤ sr_nonce (resolveStrandedPending payer to pend v).
Proof.
  unfold resolveStrandedPending. destruct (_ || _) eqn:E0; [done|].
  destruct (nv_next_nonce v) as [next|]; [|done]. destruct (next <? i_nonce pend) eqn:E1; [done|].
  destruct (_ && _) eqn:E2; [done|]. b2p.
  destruct (scan_nonces _ _ _ _ _) as [r|] eqn:E3.
  - intros Ho. apply scan_nonces_some in E3 as [|(_ & Hb & txs & t & Q1 & Q2 & Q3 & Q4 & Q5)]; [congruence|].
    unfold matches in Q3. b2p. exists txs, t. do 2 (split; [done|]).
    split; [by apply String.eqb_eq|]. split; [done|]. split; [done|]. split; [done|lia].
  - destruct (poolHasTransfer _ _ _ _) as [[|]|]; done.
Qed.

(** * Steps of the settler that the HMC lane does not see *)

Section quiet.
Context {L : PayLane}.

Lemma quiet_bind {A B} (m : tx Settle A) (f : A → tx Settle B) :
  Quiet L m → (∀ a, Quiet L (f a)) → Quiet L (bind m f).
Proof. intros Hm Hf d b d' (a & d1 & E1 & E2)%bind_ok x. rewrite (Hf a d1 b d' E2). apply (Hm d a d1 E1). Qed.

Lemma quiet_same {A} (m : tx Settle A) : (∀ d a d', m d = Ok (a, d') → d' = d) → Quiet L m.
Proof. intros H d a d' ->%H x. done. Qed.

#[export] Instance quiet_ret {A} (a : A) : Quiet L (ret a).
Proof. apply quiet_same. by intros d b d' [_ <-]%ret_ok. Qed.
#[export] Instance quiet_get : Quiet L get.
Proof. apply quiet_same. by intros d b d' [_ ->]%get_ok. Qed.
#[export] Instance quiet_guard b e : Quiet L (guard b e).
Proof. apply quiet_same. by intros d c d' [_ ->]%guard_ok. Qed.
#[export] Instance quiet_attempt {A} (m : tx Settle A) `{!Quiet L m} : Quiet L (attempt m).
Proof.
  intros d b d' E x. unfold attempt in E. destruct (m d) as [[a d1]|] eqn:Em; injection E as _ <-; [|done].
  exact (quiet d a d1 Em x).
Qed.
End quiet.
#[export] Hint Resolve quiet_bind : typeclass_instances.

(** An export is quiet on any lane that its two SUP copies leave alone. *)
Section quiet_export.
Context (L : PayLane) {Hs : ∀ w v a, Quiet L (SetSettledSUP w v a)} {Hk : ∀ w v c, Quiet L (SetSessionAnchorSUP w v c)}.
#[local] Set Default Proof Using "All".

Lemma quiet_merge_entries old l : Quiet L (merge_entries old l).
Proof.
  induction l as [|[wid e] l IH]; [exact _|]. cbn [merge_entries]. apply quiet_bind; [|intros; apply quiet_bind; [done|exact _]].
  unfold merge_entry. destruct (old !! wid); [|exact _]. unfold merge_sup, merge_anchor.
  apply quiet_bind; [destruct (f_ltb _ _); exact _|]. intros e1. destruct (f_ltb _ _); exact _.
Qed.
Lemma quiet_export path file : Quiet L (ExportJSONToFile path file).
Proof.
  unfold ExportJSONToFile. repeat (apply quiet_bind; [try exact _|intros ?]); try exact _. apply quiet_merge_entries.
Qed.
End quiet_export.
#[export] Instance hmc_quiet_export path file : Quiet hmc_pay (ExportJSONToFile path file).
Proof. apply quiet_export; exact _. Qed.

(** What the HMC lane shows of a worker in the middle of a pass. *)
Definition pview (x : string) (s : Pass) : View := view hmc_pay x (p_db s).

Lemma pview_db_do x {A} (m : tx Settle A) `{!Quiet hmc_pay m} s : pview x (db_do m s).1 = pview x s.
Proof. unfold db_do, pview. destruct (m (p_db s)) as [[a d']|] eqn:E; [|done]. exact (quiet _ _ _ E x). Qed.
Lemma pview_db_try x {A} (m : tx Settle A) `{!Quiet hmc_pay m} s : pview x (db_try m s) = pview x s.
Proof. exact (pview_db_do x m s). Qed.
Lemma pview_export x cfg s : pview x (export cfg s).1 = pview x s.
Proof.
  unfold export, pview. destruct (ExportJSONToFile _ _ _) as [[doc d']|] eqn:E; [|done].
  exact (quiet (L:=hmc_pay) _ _ _ E x).
Qed.
Lemma pview_export_try x cfg s : pview x (export_try cfg s) = pview x s.
Proof. apply pview_export. Qed.
Lemma pview_mark x n s : pview x (mark_settled n s) = pview x s.
Proof. done. Qed.
Lemma pview_sent x l s : pview x (with_sent l s) = pview x s.
Proof. done. Qed.
#[export] Instance hmc_quiet_log now wid kind units note : Quiet hmc_pay (log_row now wid kind units note).
Proof. unfold log_row. exact _. Qed.
Create Rewrite HintDb pview.
#[export] Hint Rewrite pview_export pview_export_try pview_mark pview_sent : pview.

Lemma pview_anchor_step x cfg wid di s : pview x (anchor_step cfg wid di s).1 = pview x s.
Proof.
  unfold anchor_step. destruct (NeedAnchor di).
  - pose proof (pview_db_do x (SetSessionAnchorHMC wid (UnitsToHMC (NewAnchorUnits di)) false) s) as H.
    destruct (db_do _ _) as [s' [a|e]]; cbn in *; by autorewrite with pview.
  - destruct (ClearAnchor di); [|done]. apply pview_db_try. exact _.
Qed.

(** * The invariant *)

Section inv.
Context (A : string).

Definition weight (x : NodeTx) : Z :=
  if String.eqb (x_to x) A && negb (bool_decide (x_fate x = Rejected)) then x_amount x else 0.
(** Units of the transfers to [A] that are, or may still be, in the chain. *)
Definition live_units (N : Node) : Z := msum weight (n_txs N).
Definition cur_units (cur : option string) (N : Node) : Z :=
  match cur with Some h => mval weight (n_txs N) h | None => 0 end.

(** The intent [i] and the transfer sent for it, if any. *)
Definition intent_inv (i : Intent) (N : Node) (cur : option string) : Prop :=
  0 < i_delta_units i < 2 ^ 52 ∧ 0 ≤ i_nonce i < 2 ^ 52 ∧ i_nonce i ≤ n_next N ∧ i_payout i = A ∧
  (i_tx_hash i = "" ∨ cur = Some (i_tx_hash i)) ∧
  ∀ h, cur = Some h →
    ∃ x, n_txs N !! h = Some x ∧ x_to x = A ∧ x_amount x = i_delta_units i ∧ x_nonce x = i_nonce i.

(** [cur] is the hash of the transfer in flight; every other live transfer to [A] is included and credited. *)
Record inv (paid0 : Z) (v : View) (N : Node) (cur : option string) : Prop := mkInv {
  inv_sum : live_units N - cur_units cur N = v_paid v - paid0;
  inv_paid : 0 ≤ v_paid v < two63;
  inv_rows : view_ok v;
  inv_others h x : n_txs N !! h = Some x → x_to x = A → x_fate x ≠ Rejected → cur ≠ Some h →
    x_fate x = Included ∧ ∀ i, v_intent v = Some i → x_nonce x < i_nonce i;
  inv_past h x : n_txs N !! h = Some x → x_fate x = Included → x_nonce x < n_next N;
  inv_hash h x : n_txs N !! h = Some x → x_to x = A → x_fate x ≠ Rejected → hash_ok h;
  inv_cur : match v_intent v with None => cur = None | Some i => intent_inv i N cur end;
}.

Lemma weight_fated_included x : x_fate x = Pending → weight (fated Included x) = weight x.
Proof. unfold weight. cbn. by intros ->. Qed.
Lemma weight_other x : x_to x ≠ A → weight x = 0.
Proof. unfold weight. intros H%String.eqb_neq. by rewrite H. Qed.
Lemma weight_rejected x : x_fate x = Rejected → weight x = 0.
Proof. unfold weight. intros H. rewrite bool_decide_true by done. cbn. by rewrite andb_false_r. Qed.

Lemma weight_live x : x_to x = A → x_fate x ≠ Rejected → weight x = x_amount x.
Proof. unfold weight. intros -> H. rewrite String.eqb_refl, bool_decide_false by done. done. Qed.

Lemma mval_insert_eq (f : NodeTx → Z) m (h : string) x : mval f (<[h := x]> m) h = f x.
Proof. unfold mval. by rewrite lookup_insert_eq. Qed.
Lemma mval_insert_ne (f : NodeTx → Z) m (h k : string) x : k ≠ h → mval f (<[k := x]> m) h = mval f m h.
Proof. intros H. unfold mval. by rewrite lookup_insert_ne. Qed.
Lemma mval_lookup (f : NodeTx → Z) m (h : string) x : m !! h = Some x → mval f m h = f x.
Proof. unfold mval. by intros ->. Qed.

Lemma cur_units_insert cur h x y N n :
  n_txs N !! h = Some x → weight y = weight x → cur_units cur (mkNode (<[h := y]> (n_txs N)) n) = cur_units cur N.
Proof.
  intros Hx Hw. unfold cur_units. destruct cur as [k|]; [|done]. cbn.
  destruct (decide (h = k)) as [->|Hn]; [|by apply mval_insert_ne]. by rewrite mval_insert_eq, (mval_lookup _ _ _ x).
Qed.

Lemma live_units_insert h x y N n :
  n_txs N !! h = Some x → live_units (mkNode (<[h := y]> (n_txs N)) n) = live_units N + weight y - weight x.
Proof. intros Hx. unfold live_units. cbn. by rewrite msum_insert, (mval_lookup _ _ _ x). Qed.

Lemma live_units_new h y N n :
  n_txs N !! h = None → live_units (mkNode (<[h := y]> (n_txs N)) n) = live_units N + weight y.
Proof. intros Hx. unfold live_units. cbn. rewrite msum_insert. unfold mval. rewrite Hx. lia. Qed.

(** The fate of a transfer that is already there changes; the rest of the node does not. *)
Lemma intent_inv_fate i N cur h x f n :
  n_txs N !! h = Some x → n_next N ≤ n → intent_inv i N cur →
  intent_inv i (mkNode (<[h := fated f x]> (n_txs N)) n) cur.
Proof.
  intros Hx Hn (H1 & H2 & H3 & H4 & H5 & H6). do 2 (split; [done|]). cbn. split; [lia|]. do 2 (split; [done|]).
  intros k (y & Hy & Hto & Ha & Hno)%H6. destruct (decide (h = k)) as [->|Hk].
  - simplify_map_eq. eexists. split; [done|]. done.
  - exists y. by rewrite lookup_insert_ne.
Qed.

Lemma inv_include paid0 v N cur h x :
  inv paid0 v N cur → n_txs N !! h = Some x → x_fate x = Pending → x_nonce x = n_next N →
  inv paid0 v (mkNode (<[h := fated Included x]> (n_txs N)) (n_next N + 1)) cur.
Proof.
  intros [Hs Hp Hr Ho Hpast Hh Hc] Hx Hf Hn. split; [|done|done|..]; cbn [n_txs n_next].
  - rewrite (live_units_insert h x), (cur_units_insert cur h x) by auto using weight_fated_included.
    rewrite weight_fated_included by done. lia.
  - intros k y [[<- <-]|[Hk Hy]]%lookup_insert_Some Hto Hfy Hcur; [|by eapply Ho].
    split; [done|]. destruct (Ho h x Hx Hto) as [E _]; congruence.
  - intros k y [[<- <-]|[Hk Hy]]%lookup_insert_Some Hfy; cbn; [lia|]. specialize (Hpast k y Hy Hfy). lia.
  - intros k y [[<- <-]|[Hk Hy]]%lookup_insert_Some Hto Hfy; [apply (Hh h x Hx Hto); congruence|by eapply Hh].
  - destruct (v_intent v); [|done]. apply intent_inv_fate; [done|lia|done].
Qed.

Lemma inv_reject paid0 v N cur h x :
  inv paid0 v N cur → n_txs N !! h = Some x → x_fate x = Pending →
  inv paid0 v (mkNode (<[h := fated Rejected x]> (n_txs N)) (n_next N)) cur.
Proof.
  intros [Hs Hp Hr Ho Hpast Hh Hc] Hx Hf. split; [|done|done|..]; cbn [n_txs n_next].
  - rewrite (live_units_insert h x), (weight_rejected (fated Rejected x)) by done.
    destruct (decide (cur = Some h)) as [->|Hcur].
    + cbn in *. rewrite mval_insert_eq, (weight_rejected (fated Rejected x)) by done. rewrite (mval_lookup _ _ _ x) in Hs by done. lia.
    + rewrite (weight_other x).
      * unfold cur_units in *. destruct cur as [k|]; [|lia]. cbn. rewrite mval_insert_ne by congruence. lia.
      * intros Hto. destruct (Ho h x Hx Hto) as [E _]; congruence.
  - intros k y [[<- <-]|[Hk Hy]]%lookup_insert_Some Hto Hfy Hcur; [done|by eapply Ho].
  - intros k y [[<- <-]|[Hk Hy]]%lookup_insert_Some Hfy; [done|by eapply Hpast].
  - intros k y [[<- <-]|[Hk Hy]]%lookup_insert_Some Hto Hfy; [done|by eapply Hh].
  - destruct (v_intent v); [|done]. apply intent_inv_fate; [done|lia|done].
Qed.

Lemma inv_new_other paid0 v N cur h x :
  inv paid0 v N cur → n_txs N !! h = None → x_to x ≠ A → x_fate x = Pending →
  inv paid0 v (mkNode (<[h := x]> (n_txs N)) (n_next N)) cur.
Proof.
  intros [Hs Hp Hr Ho Hpast Hh Hc] Hx Hto Hf.
  assert (Hne : ∀ k, cur = Some k → k ≠ h).
  { intros k -> ->. destruct (v_intent v) as [i|]; [|done]. destruct Hc as (_ & _ & _ & _ & _ & Hc).
    destruct (Hc h eq_refl) as (y & Hy & _). congruence. }
  split; [|done|done|..]; cbn [n_txs n_next].
  - rewrite live_units_new, (weight_other x) by done. unfold cur_units in *. destruct cur as [k|]; [|lia].
    cbn. rewrite mval_insert_ne by (intros ->; by eapply Hne). lia.
  - intros k y [[<- <-]|[Hk Hy]]%lookup_insert_Some Hty Hfy Hcur; [done|by eapply Ho].
  - intros k y [[<- <-]|[Hk Hy]]%lookup_insert_Some Hfy; [congruence|by eapply Hpast].
  - intros k y [[<- <-]|[Hk Hy]]%lookup_insert_Some Hty Hfy; [done|by eapply Hh].
  - destruct (v_intent v) as [i|]; [|done]. destruct Hc as (H1 & H2 & H3 & H4 & H5 & H6).
    do 5 (split; [done|]). intros k Hk. destruct (H6 k Hk) as (y & Hy & Hrest). exists y.
    cbn. rewrite lookup_insert_ne by (intros ->; by eapply Hne). done.
Qed.

Lemma inv_node_steps paid0 v N N' cur : inv paid0 v N cur → node_steps A N N' → inv paid0 v N' cur.
Proof.
  intros Hi Hr. induction Hr as [N|N N1 N2 H1 _ IH]; [done|]. apply IH. inversion H1; subst.
  - by apply inv_include.
  - by apply inv_reject.
  - by apply inv_new_other.
Qed.

(** A transfer the node has stays there; once it is included or rejected, it stays so. *)
Lemma node_steps_tx N N' h x : node_steps A N N' → n_txs N !! h = Some x →
  ∃ f, n_txs N' !! h = Some (fated f x) ∧ (x_fate x ≠ Pending → f = x_fate x).
Proof.
  intros Hr. revert x. induction Hr as [N|N N1 N2 H1 _ IH]; intros x Hx; [exists (x_fate x); by destruct x|].
  assert (Hkeep : n_txs N1 !! h = Some x ∨ x_fate x = Pending ∧ ∃ f, n_txs N1 !! h = Some (fated f x)).
  { inversion H1 as [? k y Hk Hp|? k y Hk Hp|? k y Hk Hto Hp]; subst; cbn [n_txs];
      (destruct (decide (k = h)) as [->|Hne]; [|left; by rewrite lookup_insert_ne]); try congruence;
      right; assert (y = x) as -> by congruence; (split; [done|]); eexists; by rewrite lookup_insert_eq. }
  destruct Hkeep as [Hk|[Hp [f Hk]]]; [by apply IH|]. destruct (IH _ Hk) as (g & Hg & _). exists g. by split.
Qed.

Lemma node_steps_next N N' : node_steps A N N' → n_next N ≤ n_next N'.
Proof. induction 1 as [N|N N1 N2 H1 _ IH]; [lia|]. inversion H1; subst; cbn in *; lia. Qed.

Lemma inv_close paid0 v N h i r :
  inv paid0 v N (Some h) → v_intent v = Some i → included h N → v_paid v + i_delta_units i < two63 → r = v_paid v + i_delta_units i →
  inv paid0 (view_closed v r) N None.
Proof.
  intros [Hs Hp Hr Ho Hpast Hh Hc] Hi (x & Hx & Hf) Hb ->. rewrite Hi in Hc.
  destruct Hc as (Hd & _ & _ & _ & _ & Hc). destruct (Hc h eq_refl) as (y & Hy & Hto & Ha & _).
  assert (y = x) as -> by congruence. split; cbn; try done.
  - rewrite <- Ha in *. cbn in Hs. rewrite (mval_lookup _ _ _ x) in Hs by done.
    rewrite weight_live in Hs by congruence. lia.
  - lia.
  - intros k z Hz Hzto Hzf _. destruct (decide (k = h)) as [->|Hk]; [split; [congruence|done]|].
    split; [|done]. apply (Ho k z); congruence.
Qed.

Lemma inv_drop paid0 v N cur :
  inv paid0 v N cur → (∀ h x, cur = Some h → n_txs N !! h = Some x → x_fate x = Rejected) →
  inv paid0 (view_closed v (v_paid v)) N None.
Proof.
  intros [Hs Hp Hr Ho Hpast Hh Hc] Hrej. split; cbn; try done.
  - destruct cur as [h|]; cbn in *; [|lia]. unfold mval in Hs. destruct (n_txs N !! h) as [x|] eqn:E; [|lia].
    rewrite weight_rejected in Hs by eauto. lia.
  - intros k z Hz Hzto Hzf _. split; [|done]. apply (Ho k z); try done. intros ->. by apply Hzf, (Hrej k).
Qed.

Lemma inv_open paid0 v N i r :
  inv paid0 v N None → v_intent v = None → view_ok (view_opened v i r) →
  0 < i_delta_units i < 2 ^ 52 → i_nonce i = n_next N → 0 ≤ n_next N < 2 ^ 52 → i_payout i = A → i_tx_hash i = "" →
  inv paid0 (view_opened v i r) N None.
Proof.
  intros [Hs Hp Hr Ho Hpast Hh Hc] Hi Hv Hd Hn Hb Hpay Hhash. split; cbn; try done.
  - intros h x Hx Hto Hf _. destruct (Ho h x Hx Hto Hf ltac:(done)) as [Hinc _]. split; [done|].
    intros ? [= <-]. rewrite Hn. by apply (Hpast h).
  - unfold intent_inv. repeat split; try lia; try done; auto.
Qed.

Lemma inv_stamp paid0 v N i h :
  inv paid0 v N (Some h) → v_intent v = Some i → inv paid0 (view_stamped v h) N (Some h).
Proof.
  intros [Hs Hp Hr Ho Hpast Hh Hc] Hi. rewrite Hi in Hc. unfold intent_inv in Hc.
  destruct Hc as (Hd & Hn & Hnx & Hpay & Hhash & Hc).
  assert (Ed : i_delta_units (stamp_intent h i) = i_delta_units i).
  { cbn. apply reencode_small; [lia|]. unfold two64. lia. }
  assert (En : i_nonce (stamp_intent h i) = i_nonce i) by (cbn; apply reencode_int_small; lia).
  split; try done.
  - by apply view_stamped_ok.
  - intros k x Hx Hto Hf Hcur. destruct (Ho k x Hx Hto Hf Hcur) as [Hinc Hlt]. split; [done|].
    cbn. rewrite Hi. cbn. intros ? [= <-]. rewrite En. by apply Hlt.
  - unfold view_stamped. cbn. rewrite Hi. cbn [default from_option id]. unfold intent_inv. rewrite Ed, En.
    do 4 (split; [done|]). split; [by right|done].
Qed.

Lemma inv_accept paid0 v N i h :
  inv paid0 v N None → v_intent v = Some i → i_tx_hash i = "" → n_txs N !! h = None → hash_ok h →
  inv paid0 v (mkNode (<[h := mkNodeTx A (i_delta_units i) (i_nonce i) Pending]> (n_txs N)) (n_next N)) (Some h).
Proof.
  intros [Hs Hp Hr Ho Hpast Hh Hc] Hi Hhash Hnew Hok. rewrite Hi in Hc.
  destruct Hc as (Hd & Hn & Hnx & Hpay & _ & _). split; [|done|done|..]; cbn [n_txs n_next].
  - rewrite live_units_new by done. cbn. rewrite mval_insert_eq. cbn in Hs. lia.
  - intros k x [[<- <-]|[Hk Hx]]%lookup_insert_Some Hto Hf Hcur; [done|]. by apply (Ho k x).
  - intros k x [[<- <-]|[Hk Hx]]%lookup_insert_Some Hf; [done|]. by apply (Hpast k).
  - intros k x [[<- <-]|[Hk Hx]]%lookup_insert_Some Hto Hf; [done|]. by apply (Hh k x).
  - rewrite Hi. unfold intent_inv. do 4 (split; [done|]). split; [by left|]. intros k [= <-]. eexists.
    cbn. by rewrite lookup_insert_eq.
Qed.
End inv.

(** * Ledger operations inside a pass *)

Section db_ops.
Context (wid : string).
#[local] Abbreviation V := (pview (trim_space wid)).

(** A failed operation leaves the pass; a successful one moves the view of [wid]. *)
Lemma do_cases {A} (m : tx Settle A) s (Q : View → Prop) :
  (∀ a d', m (p_db s) = Ok (a, d') → Q (view hmc_pay (trim_space wid) d')) →
  (∃ e, db_do m s = (s, Err e)) ∨ ∃ a s', db_do m s = (s', Ok a) ∧ Q (V s') ∧ p_sent s' = p_sent s.
Proof.
  intros H. unfold db_do. destruct (m (p_db s)) as [[a d']|e] eqn:E; [right|left; by eexists].
  exists a, (with_db d' s). split; [done|]. split; [|done]. by apply (H a d').
Qed.

Lemma do_apply now addr h settled anchor clear s : view_ok (V s) →
  (∃ e, db_do (ApplySettleUnits now wid addr h settled anchor clear) s = (s, Err e)) ∨
  ∃ a s', db_do (ApplySettleUnits now wid addr h settled anchor clear) s = (s', Ok a) ∧
    (V s' = view_closed (V s) settled ∧ settled < two63) ∧ p_sent s' = p_sent s.
Proof.
  intros Hv. apply (do_cases _ _ (λ v, v = view_closed (V s) settled ∧ settled < two63)). intros a d' E.
  split.
  - pose proof (law_apply (L:=hmc_pay) now wid addr h settled anchor clear (p_db s) a d' E (view_ok_rows _ Hv)) as [_ Hm].
    rewrite (Hm (trim_space wid)). by rewrite decide_True.
  - unfold ApplySettleUnits in E. inv_tx E. by b2p.
Qed.

Lemma do_clear now s :
  (∃ e, db_do (ClearPending now wid) s = (s, Err e)) ∨
  ∃ a s', db_do (ClearPending now wid) s = (s', Ok a) ∧ V s' = view_closed (V s) (v_paid (V s)) ∧ p_sent s' = p_sent s.
Proof.
  apply (do_cases _ _ (λ v, v = _)). intros a d' E.
  rewrite (law_clear (L:=hmc_pay) _ _ _ _ _ E (trim_space wid)). by rewrite decide_True.
Qed.

Lemma do_attach h s : view_ok (V s) → trim_space h = h →
  (∃ e, db_do (AttachTxHash wid h) s = (s, Err e)) ∨
  ∃ a s', db_do (AttachTxHash wid h) s = (s', Ok a) ∧ V s' = view_stamped (V s) h ∧ p_sent s' = p_sent s.
Proof.
  intros Hv Hh. apply (do_cases _ _ (λ v, v = _)). intros a d' E.
  destruct (law_attach (L:=hmc_pay) wid h (p_db s) a d' E (view_ok_rows _ Hv)) as [_ Hm].
  rewrite (Hm (trim_space wid)), decide_True, Hh by done. done.
Qed.

Lemma do_open now addr delta nonce s :
  (∃ e, db_do (SetPendingUnits now wid addr delta nonce) s = (s, Err e)) ∨
  ∃ a s', db_do (SetPendingUnits now wid addr delta nonce) s = (s', Ok a) ∧
    (v_intent (V s) = None ∧ ∃ i r, i_delta_units i = delta ∧ i_payout i = trim_space addr ∧ i_tx_hash i = "" ∧ i_nonce i = nonce ∧
      agrees i r ∧ V s' = view_opened (V s) i r) ∧ p_sent s' = p_sent s.
Proof.
  apply (do_cases _ _ (λ v, v_intent (V s) = None ∧ ∃ i r, _ ∧ _ ∧ _ ∧ _ ∧ _ ∧ v = _)). intros a d' E.
  destruct (law_open (L:=hmc_pay) now wid addr delta nonce (p_db s) tt d') as (Hn & _ & i & r & H1 & H2 & H3 & H4 & H5 & H6 & H7 & H8 & Hm).
  { cbn. by rewrite (bind_run _ _ _ _ _ E). }
  split; [done|]. exists i, r. do 4 (split; [done|]). split.
  - unfold agrees. split; [congruence|]. split; [congruence|]. split; intros; congruence.
  - rewrite (Hm (trim_space wid)). by rewrite decide_True.
Qed.

Lemma attach_retry_cases k h s : view_ok (V s) → trim_space h = h →
  (attach_retry k wid h s = (s, false)) ∨
  ∃ s', attach_retry k wid h s = (s', true) ∧ V s' = view_stamped (V s) h ∧ p_sent s' = p_sent s.
Proof.
  intros Hv Hh. induction k as [|k IH]; cbn [attach_retry]; [by left|].
  destruct (do_attach h s Hv Hh) as [[e ->]|(a & s' & -> & Hs)]; [done|]. right. by exists s'.
Qed.
End db_ops.

Lemma sent_db_try {A} (m : tx Settle A) s : p_sent (db_try m s) = p_sent s.
Proof. unfold db_try, db_do. by destruct (m (p_db s)) as [[a d']|]. Qed.
Lemma sent_export cfg s : p_sent (export cfg s).1 = p_sent s.
Proof. unfold export. by destruct (ExportJSONToFile _ _ _) as [[doc d']|]. Qed.
Lemma sent_export_try cfg s : p_sent (export_try cfg s) = p_sent s.
Proof. apply sent_export. Qed.
Lemma sent_mark n s : p_sent (mark_settled n s) = p_sent s.
Proof. done. Qed.
Lemma sent_anchor_step cfg wid di s : p_sent (anchor_step cfg wid di s).1 = p_sent s.
Proof.
  unfold anchor_step, db_do. destruct (NeedAnchor di).
  - destruct (SetSessionAnchorHMC _ _ _ _) as [[a d']|]; cbn; [by rewrite sent_export_try|done].
  - destruct (ClearAnchor di); [|done]. apply sent_db_try.
Qed.
#[export] Hint Rewrite @sent_db_try sent_export sent_export_try sent_mark sent_anchor_step : pview.

(** * One turn keeps the invariant *)

Section own_turn.
#[local] Set Default Proof Using "All".
Context (A : string) (cfg : Config) (now : Z) (payer wid : string) (paid0 : Z).
Context (HA : trim_space A = A) (HA0 : A ≠ "") (Hforce : cfg_ClearPending cfg = false) (Hchunk : 0 < MaxChunkUnits cfg < 2 ^ 52).
#[local] Abbreviation V := (pview (trim_space wid)).
#[local] Abbreviation ok v N := (∃ cur, inv A paid0 v N cur).

Lemma firstNonEmpty_payout i : i_payout i = A → firstNonEmpty [i_payout i; A] = A.
Proof.
  intros ->. cbn [firstNonEmpty]. rewrite HA. destruct (String.eqb A "") eqn:E; [|done]. apply String.eqb_eq in E. done.
Qed.

Lemma inv_lane paid v N cur : inv A paid v N cur → view_ok v.
Proof. apply inv_rows. Qed.

(** The watermark a payout of [d] units leads to does not wrap around. *)
Lemma watermark_small v d : 0 ≤ v < two63 → 0 < d < 2 ^ 52 → u64 (v + d) = v + d.
Proof. intros. apply u64_small. unfold two63, two64 in *. lia. Qed.

Lemma recover_keeps row accrued di an s N i :
  ok (V s) N → v_intent (V s) = Some i → i_tx_hash i ≠ "" → SettledUnits row = v_paid (V s) →
  (an_recover_included an = true → included (i_tx_hash i) N) →
  ok (V (recover cfg now wid A row accrued di i an s)) N ∧ p_sent (recover cfg now wid A row accrued di i an s) = p_sent s.
Proof.
  intros [cur Hinv] Hi Hh Hrow Htrue. unfold recover. unfold verifyTxIncluded.
  destruct (sentinel_hash _); [rewrite Hforce; by eauto|].
  destruct (an_recover_included an); [|rewrite Hforce; by eauto].
  pose proof (inv_cur _ _ _ _ _ Hinv) as Hc. rewrite Hi in Hc. destruct Hc as (Hd & _ & _ & _ & Hcur & _).
  destruct Hcur as [|Hcur]; [done|].
  set (n := u64 _). assert (Hn : n = v_paid (V s) + i_delta_units i).
  { unfold n. destruct (i_delta_units i =? 0) eqn:E; b2p; [lia|]. rewrite Hrow. apply watermark_small; [|done].
    by apply (inv_paid _ _ _ _ _ Hinv). }
  match goal with |- context [db_do (ApplySettleUnits _ _ ?a ?h ?s0 ?k ?c) s] =>
    destruct (do_apply wid now a h s0 k c s (inv_rows _ _ _ _ _ Hinv)) as [[e ->]|(u & s' & -> & [Hv Hb] & Hs)] end; [by eauto|].
  autorewrite with pview. split; [|done]. exists None. rewrite Hv. 
  apply (inv_close A _ _ _ (i_tx_hash i) i); try done; [by rewrite <- Hcur|by auto|lia].
Qed.

Lemma stranded_keeps an s N0 N i :
  ok (V s) N0 → v_intent (V s) = Some i → i_tx_hash i = "" → view_true A payer N0 N (an_view an) →
  ok (V (stranded cfg now payer wid A i an s)) N ∧ p_sent (stranded cfg now payer wid A i an s) = p_sent s.
Proof.
  intros [cur Hinv0] Hi Hh (Hwin & Hnext & Hby & Hpool & Hnoinc). unfold stranded.
  assert (Hinv : inv A paid0 (V s) N cur) by (by eapply inv_node_steps).
  pose proof (inv_cur _ _ _ _ _ Hinv) as Hc. rewrite Hi in Hc. destruct Hc as (Hd & Hn & Hnx & Hpay & _ & Hcur).
  rewrite firstNonEmpty_payout by done. set (v := an_view an) in *.
  assert (Ham : intent_amount i = i_delta_units i) by (unfold intent_amount; case_match; b2p; [lia|done]).
  destruct (sr_outcome (resolveStrandedPending payer A i v)) eqn:Eo.
  - rewrite Hforce. cbn. by eauto.
  - apply resolve_paid in Eo as (txs & t & Htxs & Ht & Hto & Hta & Hst & Hhash & Hge).
    set (res := resolveStrandedPending payer A i v) in *. clearbody res.
    destruct (TxHashKnown _ _); [by eauto|].
    destruct (Hby (sr_nonce res)) as (Nn & Hst1 & Hst2 & Hbn).
    destruct (proj1 (Hbn txs Htxs) t Ht) as (h & x & Hx & Hxn & ->). cbn in Hto, Hta, Hst, Hhash.
    rewrite HA in Hto. assert (Hf : x_fate x = Included) by (destruct (x_fate x); done).
    pose proof (inv_node_steps A _ _ _ _ _ Hinv0 Hst1) as Hinvn.
    assert (cur = Some h) as ->.
    { destruct (decide (cur = Some h)) as [|Hne]; [done|]. exfalso.
      destruct (inv_others _ _ _ _ _ Hinvn h x Hx Hto ltac:(congruence) Hne) as [_ Hlt]. specialize (Hlt i Hi). lia. }
    destruct (inv_hash _ _ _ _ _ Hinvn h x Hx Hto ltac:(congruence)) as [Htrim _].
    rewrite Hhash. destruct (do_attach wid h s (inv_rows _ _ _ _ _ Hinv) Htrim) as [[e ->]|(u & s' & -> & Hv & Hs)]; [by eauto|].
    autorewrite with pview. rewrite pview_db_try by exact _. split; [|done]. exists (Some h). rewrite Hv. by eapply inv_stamp.
  - apply resolve_unsent in Eo as (next & Hnx' & Hb & _ & Hslots & pool & Hp & Hnone).
    destruct (do_clear wid now s) as [[e ->]|(u & s' & -> & Hv & Hs)]; [by eauto|].
    autorewrite with pview. rewrite pview_db_try by exact _. split; [|done]. exists None. rewrite Hv. 
    eapply inv_drop; [done|]. intros h x -> Hx. destruct (Hcur h eq_refl) as (y & Hy & Hto & Hta & Hno).
    assert (y = x) as -> by congruence. specialize (Hnext next Hnx').
    destruct (x_fate x) eqn:Ef; [exfalso|exfalso|done].
    + pose proof (Hpool pool h x Hp Hx Ef) as Hin. apply list_elem_of_In in Hin.
      assert (C : existsb (in_pool payer (trim_space A) (intent_amount i)) pool = true).
      { apply existsb_exists. eexists. split; [exact Hin|]. unfold in_pool. cbn. rewrite HA, Hto, Hta, Ham, !String.eqb_refl, Z.eqb_refl. done. }
      congruence.
    + pose proof (Hnoinc h x Hx Hto Ef) as Hx0. pose proof (inv_past _ _ _ _ _ Hinv0 h x Hx0 Ef). destruct (Hslots (i_nonce i)) as (txs & Htxs & Hclear & _); [lia|].
      destruct (Hby (i_nonce i)) as (Nn & Hst1 & _ & Hbn).
      destruct (node_steps_tx A _ _ _ _ Hst1 Hx0) as (f & Hxn & Ex). rewrite Ef in Ex. rewrite (Ex ltac:(done)) in Hxn.
      pose proof (proj2 (Hbn _ Htxs) h _ Hxn Hno) as Hin.
      assert (Hm : matches (trim_space A) (intent_amount i) (shown h (fated Included x)) = true).
      { unfold matches. cbn. by rewrite HA, Hto, Hta, Ham, String.eqb_refl, Z.eqb_refl. }
      pose proof (Hclear _ Hin Hm) as C. done.
Qed.

(** ** Sending *)

(** While the intent [i] has no transfer yet, one send leaves at most one, and under the hash answered. *)
Lemma send_keeps r v N N1 i :
  inv A paid0 v N None → v_intent v = Some i → i_tx_hash i = "" →
  send_effect r (mkTransfer A (i_delta_units i) (i_nonce i)) N N1 →
  ∃ cur, inv A paid0 v N1 cur ∧
    (txResponseOK r = true → cur = Some (trim_space (r_tx_hash r)) ∧ hash_ok (trim_space (r_tx_hash r))) ∧
    (txResponseOK r = false → retriable (trim_space (r_code r)) = true → N1 = N).
Proof.
  intros Hinv Hi Hh He. inversion He as [Hno|h Hnew Hok Hhash Hcode]; subst.
  - exists None. split; [done|]. split; [congruence|done].
  - exists (Some h). split; [by apply inv_accept|]. cbn [t_to t_amount t_nonce]. split.
    + intros E. rewrite (Hhash E). done.
    + intros E1 E2. rewrite (Hcode E1) in E2. done.
Qed.

Lemma sends_keep an i nb k : ∀ j N N' o lst nonces v,
  inv A paid0 v N None → v_intent v = Some i → i_tx_hash i = "" → i_nonce i = nb →
  send_loop an nb nb j k = (o, lst, nonces) →
  sends_true A an j (map (mkTransfer A (i_delta_units i)) nonces) N N' →
  lst = nb ∧ list.last nonces = Some nb ∧ ∃ cur, inv A paid0 v N' cur ∧
    ∀ r, o = SendOK r → ∃ m, (j + List.length nonces)%nat = S m ∧ r = an_send an m ∧
      cur = Some (trim_space (r_tx_hash r)) ∧ hash_ok (trim_space (r_tx_hash r)).
Proof.
  induction k as [|k IH]; intros j N N' o lst nonces v Hinv Hi Hh Hn Hloop Hsends.
  - cbn [send_loop] in Hloop. assert (nonces = [nb] ∧ lst = nb) as [-> ->] by (by destruct (txResponseOK _); injection Hloop).
    cbn [map] in Hsends. inversion Hsends as [|? ? ? ? N1 N2 ? He Hst Hm Hrest]; subst. inversion Hrest; subst.
    destruct (send_keeps _ _ _ _ _ Hinv Hi Hh He) as (cur & Hcur & Hok & _).
    do 2 (split; [done|]). exists cur. split; [by eapply inv_node_steps|]. intros r ->. exists j.
    destruct (txResponseOK _) eqn:E; injection Hloop as Hr; [|done]. rewrite <- Hr.
    destruct (Hok eq_refl). split; [cbn; lia|done].
  - cbn [send_loop] in Hloop.
    assert (Hleaf : nonces = [nb] → lst = nb → (∀ r, o = SendOK r → txResponseOK (an_send an j) = true ∧ r = an_send an j) →
      lst = nb ∧ list.last nonces = Some nb ∧ ∃ cur, inv A paid0 v N' cur ∧
        ∀ r, o = SendOK r → ∃ m, (j + List.length nonces)%nat = S m ∧ r = an_send an m ∧
          cur = Some (trim_space (r_tx_hash r)) ∧ hash_ok (trim_space (r_tx_hash r))).
    { intros -> -> Ho. cbn [map] in Hsends. inversion Hsends as [|? ? ? ? N1 N2 ? He Hst Hm Hrest]; subst. inversion Hrest; subst.
      destruct (send_keeps _ _ _ _ _ Hinv Hi Hh He) as (cur & Hcur & Hok & _).
      do 2 (split; [done|]). exists cur. split; [by eapply inv_node_steps|]. intros r [E ->]%Ho. exists j.
      destruct (Hok E). split; [cbn; lia|done]. }
    destruct (txResponseOK (an_send an j)) eqn:E1.
    { injection Hloop as <- <- <-. apply Hleaf; [done|done|]. by intros r [= <-]. }
    destruct (negb (retriable _)) eqn:E2; [injection Hloop as <- <- <-; by apply Hleaf|]. b2p.
    destruct (an_retry_nonce an j) as [next|] eqn:E3; [|injection Hloop as <- <- <-; by apply Hleaf].
    destruct (nb <? next) eqn:E4; [injection Hloop as <- <- <-; by apply Hleaf|]. b2p.
    destruct (send_loop an nb next (S j) k) as [[o' lst'] l'] eqn:E5. injection Hloop as <- <- <-.
    cbn [map] in Hsends. inversion Hsends as [|? ? ? ? N1 N2 ? He Hst Hm Hrest]; subst.
    destruct (send_keeps _ _ _ _ _ Hinv Hi Hh He) as (cur & _ & _ & Hsame). rewrite (Hsame E1 E2) in Hst.
    assert (Hinv2 : inv A paid0 v N2 None) by (by eapply inv_node_steps).
    pose proof (inv_cur _ _ _ _ _ Hinv) as Hc. rewrite Hi in Hc. destruct Hc as (_ & _ & Hnx & _).
    apply node_steps_next in Hst. specialize (Hm next E3). assert (next = i_nonce i) as -> by lia.
    destruct (IH (S j) N2 N' o' lst' l' v Hinv2 Hi Hh eq_refl E5 Hrest) as (-> & Hl & cur' & Hcur' & Hok).
    split; [done|]. split; [by destruct l'|]. exists cur'. split; [done|]. intros r Hr.
    destruct (Hok r Hr) as (m & Hm' & Hrest'). exists m. split; [cbn; lia|done].
Qed.

Lemma last_map_transfer amt nonces nb :
  list.last nonces = Some nb → list.last (map (mkTransfer A amt) nonces) = Some (mkTransfer A amt nb).
Proof. intros H. change (map (mkTransfer A amt) nonces) with (mkTransfer A amt <$> nonces). rewrite fmap_last, H. done. Qed.

Lemma not_sent_keeps amt nb an s N i cur nonceA :
  inv A paid0 (V s) N cur → v_intent (V s) = Some i → i_tx_hash i = "" → i_delta_units i = amt → i_nonce i = nb →
  by_nonce_true N nb (an_inflight an) →
  ok (V (not_sent cfg now wid A amt nonceA nb an s)) N.
Proof.
  intros Hinv Hi Hh Hd Hn Hby. unfold not_sent. destruct (_ <? _).
  { rewrite pview_db_try by exact _. by eauto. }
  unfold findInflightTransfer. destruct (an_inflight an) as [txs|]; [|autorewrite with pview; by eauto].
  destruct (Hby txs eq_refl) as [Hsound Hcomplete].
  assert (Hfind : ∀ l, (∀ t, t ∈ l → t ∈ txs) →
    (findInflight A amt l = "" ∧ ∀ t, t ∈ l → matches A amt t = true → bn_status t ≠ "rejected" → trim_space (bn_hash t) = "") ∨
    ∃ h x, findInflight A amt l = h ∧ n_txs N !! h = Some x ∧ x_nonce x = nb ∧ x_to x = A ∧ x_fate x ≠ Rejected).
  { induction l as [|t l IHl]; intros Hl; [left; split; [done|]; by intros ? ?%elem_of_nil|]. cbn [findInflight].
    destruct (matches A amt t && negb (String.eqb (bn_status t) "rejected") && negb (String.eqb (trim_space (bn_hash t)) "")) eqn:E.
    - right. b2p. destruct (Hsound t (Hl t ltac:(by left))) as (h & x & Hx & Hxn & ->). exists h, x.
      split; [done|]. split; [done|]. split; [done|]. unfold matches in *. cbn in *. b2p.
      split; [by apply String.eqb_eq|]. intros C. match goal with H : (_ =? "rejected")%string = false |- _ => rewrite C in H; done end.
    - destruct (IHl ltac:(intros; apply Hl; by right)) as [[Hf Hall]|Hex]; [left|by right]. split; [done|].
      intros u [->|Hu]%elem_of_cons; [|by apply Hall]. intros Hm Hst. rewrite Hm in E. cbn in E.
      apply String.eqb_neq in Hst. rewrite Hst in E. cbn in E. b2p. by apply String.eqb_eq. }
  destruct (Hfind txs ltac:(done)) as [[-> Hall]|(h & x & -> & Hx & Hxn & Hto & Hf)].
  - cbn. autorewrite with pview. unfold db_try. destruct (do_clear wid now s) as [[e ->]|(u & s' & -> & Hv & _)]; [by eauto|].
    cbn. exists None. rewrite Hv. eapply inv_drop; [done|]. intros h x -> Hx.
    pose proof (inv_cur _ _ _ _ _ Hinv) as Hc. rewrite Hi in Hc. destruct Hc as (_ & _ & _ & _ & _ & Hc).
    destruct (Hc h eq_refl) as (y & Hy & Hto & Ha & Hno). assert (y = x) as -> by congruence.
    destruct (decide (x_fate x = Rejected)) as [|Hf]; [done|]. exfalso.
    destruct (inv_hash _ _ _ _ _ Hinv h x Hx Hto Hf) as [Htrim Hsen].
    assert (Hin : shown h x ∈ txs) by (apply Hcomplete; [done|congruence]).
    assert (trim_space (bn_hash (shown h x)) = "") as C.
    { apply Hall; [done| |cbn; by destruct (x_fate x)]. unfold matches. cbn. by rewrite Hto, Ha, Hd, String.eqb_refl, Z.eqb_refl. }
    change (trim_space h = "") in C. rewrite Htrim in C. by subst h.
  - destruct (inv_hash _ _ _ _ _ Hinv h x Hx Hto Hf) as [Htrim Hsen].
    assert (Hne : String.eqb h "" = false) by (unfold sentinel_hash in Hsen; by b2p). rewrite Hne. cbn.
    assert (cur = Some h) as ->.
    { destruct (decide (cur = Some h)) as [|Hc]; [done|]. exfalso.
      destruct (inv_others _ _ _ _ _ Hinv h x Hx Hto Hf Hc) as [_ Hlt]. specialize (Hlt i Hi). lia. }
    autorewrite with pview. unfold db_try.
    destruct (do_attach wid h s (inv_rows _ _ _ _ _ Hinv) Htrim) as [[e ->]|(u & s' & -> & Hv & _)]; [by eauto|].
    cbn. exists (Some h). rewrite Hv. by eapply inv_stamp.
Qed.

Lemma sent_ok_keeps row di pay r an s N i :
  inv A paid0 (V s) N (Some (trim_space (r_tx_hash r))) → v_intent (V s) = Some i → i_delta_units i = pay →
  hash_ok (trim_space (r_tx_hash r)) → SettledUnits row = v_paid (V s) →
  (an_included an = true → included (trim_space (r_tx_hash r)) N) →
  ok (V (sent_ok cfg now wid A row di pay r an s).1) N.
Proof.
  intros Hinv Hi Hd [Htrim Hsen] Hrow Htrue. unfold sent_ok. set (h := trim_space (r_tx_hash r)) in *. clearbody h.
  assert (Hne : String.eqb h "" = false) by (unfold sentinel_hash in Hsen; by b2p). rewrite Hne.
  destruct (attach_retry_cases wid 8 h s (inv_rows _ _ _ _ _ Hinv) Htrim) as [->|(s1 & -> & Hv & _)].
  { cbn [fst]. rewrite pview_db_try by exact _. by eauto. }
  pose proof (inv_stamp A paid0 _ _ _ _ Hinv Hi) as Hinv1. rewrite <- Hv in Hinv1.
  assert (Hv2 : V (export_try cfg s1) = V s1) by apply pview_export_try.
  set (s2 := export_try cfg s1) in *. clearbody s2. rewrite <- Hv2 in Hinv1. rewrite <- Hv2 in Hv.
  unfold verifyTxIncluded. rewrite Htrim, Hsen.
  destruct (an_included an); [|cbn; by eauto]. cbn [negb].
  assert (Hi1 : v_intent (V s2) = Some (stamp_intent h i)) by (rewrite Hv; unfold view_stamped; cbn [v_intent]; by rewrite Hi).
  pose proof (inv_cur _ _ _ _ _ Hinv) as Hc. rewrite Hi in Hc. destruct Hc as (Hb & _).
  assert (Hd1 : i_delta_units (stamp_intent h i) = pay).
  { cbn. rewrite reencode_small; [done|lia|]. unfold two64. lia. }
  assert (Hp : v_paid (V s2) = v_paid (V s)) by (rewrite Hv; done).
  assert (Hn : u64 (SettledUnits row + pay) = v_paid (V s2) + i_delta_units (stamp_intent h i)).
  { rewrite Hd1, Hp, Hrow, watermark_small; [done|apply (inv_paid _ _ _ _ _ Hinv)|lia]. }
  match goal with |- context [db_do (ApplySettleUnits _ _ ?a ?g ?s0 ?k ?c) s2] =>
    destruct (do_apply wid now a g s0 k c s2 (inv_rows _ _ _ _ _ Hinv1)) as [[e ->]|(u & s3 & -> & [Hv3 Hlt] & _)] end;
    [cbn; by eauto|].
  assert (Hok : ok (V s3) N).
  { exists None. rewrite Hv3. eapply inv_close; [exact Hinv1|exact Hi1|by apply Htrue|rewrite <- Hn; exact Hlt|exact Hn]. }
  pose proof (pview_export (trim_space wid) cfg s3) as He. destruct (export cfg s3) as [s4 [|]]; cbn [fst] in *;
    rewrite ?pview_mark, He; done.
Qed.

Lemma CapChunk_pos d bal res mx : 0 ≤ d → CapChunk d bal res mx ≠ 0 → 0 < mx → 0 < CapChunk d bal res mx ≤ mx.
Proof using. unfold CapChunk. intros. repeat case_match; b2p; try lia. Qed.

Lemma sent_db_do {B} (m : tx Settle B) s : p_sent (db_do m s).1 = p_sent s.
Proof using. exact (sent_db_try m s). Qed.

Lemma sent_attach_retry k h s : p_sent (attach_retry k wid h s).1 = p_sent s.
Proof using.
  revert s. induction k as [|k IH]; intros s; cbn [attach_retry]; [done|].
  pose proof (sent_db_do (AttachTxHash wid h) s) as E. destruct (db_do _ s) as [s' [a|e]]; cbn [fst] in *; [done|].
  by rewrite IH.
Qed.

Lemma sent_sent_ok row di pay r an s : p_sent (sent_ok cfg now wid A row di pay r an s).1 = p_sent s.
Proof using.
  unfold sent_ok. destruct (String.eqb _ ""); [cbn [fst]; apply sent_db_try|].
  pose proof (sent_attach_retry 8 (trim_space (r_tx_hash r)) s) as E1. destruct (attach_retry _ _ _ _) as [s1 [|]]; cbn [fst] in *;
    [|by rewrite sent_db_try].
  destruct (negb _); [cbn [fst]; by rewrite sent_export_try|]. cbv zeta.
  match goal with |- context [db_do ?m (export_try cfg s1)] => pose proof (sent_db_do m (export_try cfg s1)) as E2;
    destruct (db_do m (export_try cfg s1)) as [s3 [u|e]] end; cbn [fst] in *; rewrite sent_export_try in E2; [|congruence].
  pose proof (sent_export cfg s3) as E3. destruct (export cfg s3) as [s4 [|]]; cbn [fst] in *; rewrite ?sent_mark; congruence.
Qed.

Lemma sent_not_sent amt nb last an s : p_sent (not_sent cfg now wid A amt nb last an s) = p_sent s.
Proof using.
  unfold not_sent. destruct (_ <? _); [apply sent_db_try|]. destruct (findInflightTransfer _ _ _) as [h|]; [|apply sent_export_try].
  destruct (negb _); by rewrite sent_export_try, sent_db_try.
Qed.

Lemma pay_keeps row di an s N :
  ok (V s) N → v_intent (V s) = None → SettledUnits row = v_paid (V s) → 0 ≤ DeltaUnits di →
  0 ≤ n_next N < 2 ^ 52 → (∀ n, an_nonce an = Ok n → n = n_next N) →
  ∃ sent, p_sent (pay_worker cfg now wid A row di an s).1 = p_sent s ++ sent ∧
    ∀ N3 N4 N', sends_true A an 0 sent N N3 → node_steps A N3 N4 →
      (∀ t, list.last sent = Some t → by_nonce_true N4 (t_nonce t) (an_inflight an)) → node_steps A N4 N' →
      (an_included an = true → ∀ j, S j = List.length sent → included (trim_space (r_tx_hash (an_send an j))) N') →
      ok (V (pay_worker cfg now wid A row di an s).1) N'.
Proof.
  intros [cur Hinv] Hi Hrow Hdelta Hnb Hnonce.
  assert (cur = None) as -> by (pose proof (inv_cur _ _ _ _ _ Hinv) as Hc; by rewrite Hi in Hc).
  assert (Hstay : ∀ s', V s' = V s → p_sent s' = p_sent s → ∃ sent, p_sent s' = p_sent s ++ sent ∧
    ∀ N3 N4 N', sends_true A an 0 sent N N3 → node_steps A N3 N4 →
      (∀ t, list.last sent = Some t → by_nonce_true N4 (t_nonce t) (an_inflight an)) → node_steps A N4 N' →
      (an_included an = true → ∀ j, S j = List.length sent → included (trim_space (r_tx_hash (an_send an j))) N') → ok (V s') N').
  { intros s' Hv Hs. exists []. rewrite app_nil_r. split; [done|]. intros N3 N4 N' H1 H2 _ H3 _. inversion H1; subst.
    exists None. rewrite Hv. eapply inv_node_steps; [|exact H3]. eapply inv_node_steps; [exact Hinv|exact H2]. }
  unfold pay_worker. destruct (an_balance an) as [bal|]; [|by apply Hstay].
  set (pay := CapChunk _ _ _ _). destruct (pay =? 0) eqn:Epay; [by apply Hstay|]. b2p.
  destruct (an_nonce an) as [nonce|]; [|by apply Hstay]. specialize (Hnonce nonce eq_refl).
  assert (Hpay : 0 < pay < 2 ^ 52).
  { pose proof (CapChunk_pos (DeltaUnits di) bal (TreasuryReserveUnits cfg) (MaxChunkUnits cfg)) as C. fold pay in C. lia. }
  assert (Hn64 : i64 nonce = nonce) by (apply i64_small; unfold two63; lia). rewrite Hn64.
  destruct (do_open wid now A pay nonce s) as [[e ->]|(u & s1 & -> & [_ (i & r & Hd & Hpy & Hh & Hno & Hag & Hv)] & Hs1)];
    [by apply Hstay|].
  assert (Hinv1 : inv A paid0 (V s1) N None).
  { rewrite Hv. apply inv_open; try done; try lia; [|congruence].
    unfold view_ok, view_opened. cbn [v_intent v_rows]. right. exists r. pose proof (inv_rows _ _ _ _ _ Hinv) as Hr. unfold view_ok in Hr. rewrite Hi in Hr. by rewrite Hr. }
  assert (Hi1 : v_intent (V s1) = Some i) by (by rewrite Hv).
  assert (Hp1 : v_paid (V s1) = v_paid (V s)) by (by rewrite Hv).
  pose proof (pview_export (trim_space wid) cfg s1) as Ev2. pose proof (sent_export cfg s1) as Es2.
  destruct (export cfg s1) as [s2 [|]]; cbn [fst] in Ev2, Es2.
  2: { exists []. rewrite app_nil_r. split; [cbn; congruence|]. intros N3 N4 N' H1 H2 _ H3 _. inversion H1; subst.
       exists None. cbn [fst]. rewrite Ev2. eapply inv_node_steps; [|exact H3]. eapply inv_node_steps; [exact Hinv1|exact H2]. }
  destruct (send_loop an nonce nonce 0 _) as [[o lst] nonces] eqn:El.
  set (s3 := with_sent _ s2). assert (Ev3 : V s3 = V s1) by (unfold s3; by rewrite pview_sent).
  assert (Es3 : p_sent s3 = p_sent s ++ map (mkTransfer A pay) nonces) by (unfold s3; cbn; by rewrite Es2, Hs1).
  clearbody s3. exists (map (mkTransfer A pay) nonces). split.
  { destruct o; cbn [fst]; [by rewrite sent_sent_ok|by rewrite sent_db_try|by rewrite sent_not_sent]. }
  intros N3 N4 N' H1 H2 Hby H3 Hincl.
  rewrite <- Hd in H1. destruct (sends_keep an i nonce _ 0 N N3 o lst nonces (V s1) Hinv1 Hi1 Hh Hno El H1) as (-> & Hlast & cur & Hinv3 & Hok).
  rewrite <- Ev3 in Hinv3, Hi1, Hp1.
  assert (Hinv' : inv A paid0 (V s3) N' cur) by (eapply inv_node_steps; [eapply inv_node_steps; [exact Hinv3|exact H2]|exact H3]).
  destruct o as [rr|next|]; cbn [fst].
  - destruct (Hok rr eq_refl) as (m & Hm & -> & -> & Hhash). eapply sent_ok_keeps; try done; [congruence|].
    intros Hinc. apply Hincl; [done|]. rewrite length_map. lia.
  - rewrite pview_db_try by exact _. by eauto.
  - assert (Hok4 : ok (V (not_sent cfg now wid A pay nonce nonce an s3)) N4).
    { eapply not_sent_keeps; [eapply inv_node_steps; [exact Hinv3|exact H2]|exact Hi1|done|done|done|].
      apply (Hby (mkTransfer A pay nonce)). by apply last_map_transfer. }
    destruct Hok4 as [c Hc]. exists c. by eapply inv_node_steps.
Qed.

Lemma DeltaUnits_nonneg a b c : 0 ≤ DeltaUnits (ComputeAccrualDelta a b c).
Proof using. unfold ComputeAccrualDelta. repeat (case_match; cbn); b2p; lia. Qed.

Lemma sends_next an j sent N N' : sends_true A an j sent N N' → n_next N ≤ n_next N'.
Proof using.
  induction 1 as [|j t l N N1 N2 N3 He Hst Hm _ IH]; [lia|].
  apply node_steps_next in Hst. inversion He; subst; cbn in *; lia.
Qed.

Lemma sent_recover row accrued di i an s : p_sent (recover cfg now wid A row accrued di i an s) = p_sent s.
Proof.
  unfold recover. rewrite Hforce. cbn [andb]. destruct (verifyTxIncluded _ _); [|done]. cbv zeta.
  match goal with |- context [db_do ?m s] => pose proof (sent_db_do m s) as E; destruct (db_do m s) as [s' [u|e]] end; cbn [fst] in E;
    autorewrite with pview; done.
Qed.

Lemma sent_stranded i an s : p_sent (stranded cfg now payer wid A i an s) = p_sent s.
Proof.
  unfold stranded. cbv zeta. rewrite Hforce. cbn [negb]. destruct (sr_outcome _); [done| |].
  - destruct (TxHashKnown _ _); [done|]. pose proof (sent_db_do (AttachTxHash wid (sr_hash
      (resolveStrandedPending payer (firstNonEmpty [i_payout i; A]) i (an_view an)))) s) as E.
    destruct (db_do (AttachTxHash _ _) s) as [s' [u|e]]; cbn [fst] in E; autorewrite with pview; done.
  - pose proof (sent_db_do (ClearPending now wid) s) as E.
    destruct (db_do (ClearPending _ _) s) as [s' [u|e]]; cbn [fst] in E; autorewrite with pview; done.
Qed.

(** The hash of the intent of [wid], empty if there is none. *)
Definition intent_hash (v : View) : string := i_tx_hash (default no_intent (v_intent v)).

Lemma turn_keeps force w an s sent N N' :
  toAddress cfg wid w = A → ok (V s) N → 0 ≤ n_next N → n_next N' < 2 ^ 52 →
  let s' := (settle_worker cfg now payer wid force w an s).1 in
  p_sent s' = p_sent s ++ sent → turn_true A payer (intent_hash (V s)) an sent N N' → ok (V s') N'.
Proof.
  intros Hto [cur Hinv] Hn0 Hn1 s' Hsent [N0 N1 N2 N3 N4 Hst0 Hview Hrec Hst2 Hnonce Hsends Hst3 Hinf Hst4 Hincl].
  assert (Hquiet : p_sent s' = p_sent s → node_steps A N1 N').
  { intros E. rewrite E in Hsent. assert (sent = []) as -> by (by apply (app_inv_head (p_sent s)); rewrite app_nil_r).
    inversion Hsends; subst. transitivity N3; [done|]. by transitivity N4. }
  assert (Hinv0 : inv A paid0 (V s) N0 cur) by (by eapply inv_node_steps).
  assert (Hst1 : node_steps A N N1) by (transitivity N0; [done|apply Hview]).
  assert (Hinv1 : inv A paid0 (V s) N1 cur) by (exact (inv_node_steps _ _ _ _ _ _ Hinv Hst1)).
  assert (Hstay : V s' = V s → p_sent s' = p_sent s → ok (V s') N').
  { intros Hv Hs. exists cur. rewrite Hv. eapply inv_node_steps; [exact Hinv1|by apply Hquiet]. }
  subst s'. unfold settle_worker in *. cbv zeta in *. rewrite Hto in *.
  destruct (bool_decide _ && _); [by apply Hstay|]. destruct (AddressConflict w); [by apply Hstay|].
  destruct (_ || _); [by apply Hstay|].
  destruct (GetWorker wid (p_db s)) as [row|] eqn:Erow; [|by apply Hstay].
  unfold GetWorker in Erow. destruct (String.eqb _ ""); [done|]. apply ok_inj in Erow.
  set (di := ComputeAccrualDelta _ _ _) in *.
  pose proof (pview_anchor_step (trim_space wid) cfg wid di s) as Ev. pose proof (sent_anchor_step cfg wid di s) as Es.
  destruct (anchor_step cfg wid di s) as [s1 [|]]; cbn [fst] in Ev, Es; [|by apply Hstay].
  destruct (negb _); [by apply Hstay|]. destruct (DeltaUnits di =? 0); [by apply Hstay|].
  assert (Hrow : SettledUnits row = v_paid (V s1)) by (rewrite Ev, <- Erow; done).
  assert (Hpend : PendingJSON row = v_intent (V s1)) by (rewrite Ev, <- Erow; done).
  rewrite Hpend in *. unfold intent_hash in Hrec. rewrite <- Ev in *. rewrite <- Es in *.
  destruct (v_intent (V s1)) as [i|] eqn:Ei; cbn [default from_option id] in *.
  - destruct (negb (String.eqb (i_tx_hash i) "")) eqn:Eh; b2p; cbn [fst] in *.
    + apply String.eqb_neq in Eh.
      destruct (recover_keeps row (accrued_units w) di an s1 N1 i) as [[c Hc] _]; try done; [by eauto|].
      exists c. eapply inv_node_steps; [exact Hc|]. apply Hquiet. by apply sent_recover.
    + apply String.eqb_eq in Eh.
      destruct (stranded_keeps an s1 N0 N1 i) as [[c Hc] _]; try done; [by eauto|].
      exists c. eapply inv_node_steps; [exact Hc|]. apply Hquiet. by apply sent_stranded.
  - rewrite bool_decide_false in * by (intros C; by apply C). cbn [i_tx_hash no_intent] in *.
    change (negb (String.eqb "" "")) with false in *. cbv iota in *.
    pose proof (node_steps_next _ _ _ Hst1). pose proof (node_steps_next _ _ _ Hst2). pose proof (sends_next _ _ _ _ _ Hsends).
    pose proof (node_steps_next _ _ _ Hst3). pose proof (node_steps_next _ _ _ Hst4).
    destruct (pay_keeps row di an s1 N2) as (sent' & Hs' & Hk); try done.
    + exists cur. eapply inv_node_steps; [exact Hinv1|exact Hst2].
    + apply DeltaUnits_nonneg.
    + lia.
    + rewrite Hsent in Hs'. apply app_inv_head in Hs' as ->. by eapply Hk.
Qed.
End own_turn.

(** * Turns of other workers, and SUP turns, are not about this worker *)

Lemma quiet_intro_at x (d d' : Settle) :
  pending_rows x (s_outbox d') = pending_rows x (s_outbox d) → worker x d' = worker x d → view hmc_pay x d' = view hmc_pay x d.
Proof. intros Ho Hw. unfold view. cbn [pl_paid pl_intent pl_out hmc_pay]. by rewrite Ho, Hw. Qed.

Lemma apply_outbox_other wid txh now l x : x ≠ wid → pending_rows x (apply_outbox wid txh now l) = pending_rows x l.
Proof.
  intros Hx. unfold apply_outbox. set (mine := λ r, _).
  assert (Hmine : ∀ r, mine r = true → is_pending wid r = true) by (intros r Hr; unfold mine in Hr; by b2p).
  assert (Hf : ∀ r, is_pending x (finish "applied" txh now r) = false).
  { intros. unfold is_pending, finish; cbn. apply andb_false_iff. by right. }
  destruct (existsb mine l); apply (pending_rows_update_other _ wid); auto.
Qed.

Section elsewhere.
Context (wid x : string) (Hx : x ≠ trim_space wid).
#[local] Set Default Proof Using "All".

Lemma elsewhere_open now addr delta nonce s : pview x (db_do (SetPendingUnits now wid addr delta nonce) s).1 = pview x s.
Proof.
  unfold pview, db_do. destruct (SetPendingUnits _ _ _ _ _ _) as [[a d']|] eqn:E; [|done]. cbn.
  destruct (law_open (L:=hmc_pay) now wid addr delta nonce (p_db s) tt d') as (_ & _ & i & r & _ & _ & _ & _ & _ & _ & _ & _ & Hm).
  { cbn. by rewrite (bind_run _ _ _ _ _ E). }
  by rewrite (Hm x), decide_False.
Qed.
Lemma elsewhere_clear now s : pview x (db_do (ClearPending now wid) s).1 = pview x s.
Proof.
  unfold pview, db_do. destruct (ClearPending _ _ _) as [[a d']|] eqn:E; [|done]. cbn.
  rewrite (law_clear (L:=hmc_pay) _ _ _ _ _ E x). by rewrite decide_False.
Qed.
Lemma elsewhere_attach h s : pview x (db_do (AttachTxHash wid h) s).1 = pview x s.
Proof.
  unfold pview, db_do. destruct (AttachTxHash _ _ _) as [[a d']|] eqn:E; [|done]. unfold AttachTxHash in E. inv_tx E.
  apply quiet_intro_at; cbn [fst with_db p_db]; reads; [by apply pending_rows_stamp_other|].
  rewrite worker_update by eauto. by rewrite decide_False.
Qed.
Lemma elsewhere_apply now addr h st k c s : pview x (db_do (ApplySettleUnits now wid addr h st k c) s).1 = pview x s.
Proof.
  unfold pview, db_do. destruct (ApplySettleUnits _ _ _ _ _ _ _ _) as [[a d']|] eqn:E; [|done]. unfold ApplySettleUnits in E.
  cbv zeta in E. inv_tx E. apply quiet_intro_at; cbn [fst with_db p_db]; reads; [by apply apply_outbox_other|by rewrite decide_False].
Qed.
End elsewhere.

(** [rewrite] the view of [x] after each kind of step in turn. *)
Section other_turn.
Context (cfg : Config) (now : Z) (payer wid x : string) (Hx : x ≠ trim_space wid).
#[local] Set Default Proof Using "All".

Lemma elsewhere_attach_retry k h s : pview x (attach_retry k wid h s).1 = pview x s.
Proof.
  revert s. induction k as [|k IH]; intros s; cbn [attach_retry]; [done|].
  pose proof (elsewhere_attach wid x Hx h s) as E. destruct (db_do _ s) as [s' [a|e]]; cbn [fst] in *; [done|]. by rewrite IH.
Qed.

Lemma elsewhere_recover addr row accrued di i an s : pview x (recover cfg now wid addr row accrued di i an s) = pview x s.
Proof.
  unfold recover. destruct (verifyTxIncluded _ _); cbv zeta.
  - match goal with |- context [db_do (ApplySettleUnits _ _ ?a ?h ?t ?k ?c) s] =>
      pose proof (elsewhere_apply wid x Hx now a h t k c s) as E; destruct (db_do (ApplySettleUnits _ _ a h t k c) s) as [s' [u|e]] end;
      cbn [fst] in E; autorewrite with pview; done.
  - destruct (_ && _); [|done]. autorewrite with pview. apply (elsewhere_clear wid x Hx).
Qed.

Lemma elsewhere_stranded addr i an s : pview x (stranded cfg now payer wid addr i an s) = pview x s.
Proof.
  unfold stranded. cbv zeta. set (res := resolveStrandedPending _ _ _ _). destruct (sr_outcome res).
  - destruct (negb (cfg_ClearPending cfg)); [done|]. destruct (_ && _); [done|]. autorewrite with pview.
    apply (elsewhere_clear wid x Hx).
  - destruct (TxHashKnown _ _); [done|]. pose proof (elsewhere_attach wid x Hx (sr_hash res) s) as E.
    destruct (db_do _ s) as [s' [u|e]]; cbn [fst] in E; autorewrite with pview; [|done]. by rewrite pview_db_try by exact _.
  - pose proof (elsewhere_clear wid x Hx now s) as E.
    destruct (db_do _ s) as [s' [u|e]]; cbn [fst] in E; autorewrite with pview; [|done]. by rewrite pview_db_try by exact _.
Qed.

Lemma elsewhere_not_sent addr pay nb last an s : pview x (not_sent cfg now wid addr pay nb last an s) = pview x s.
Proof.
  unfold not_sent. destruct (_ <? _); [by rewrite pview_db_try by exact _|].
  destruct (findInflightTransfer _ _ _) as [h|]; [|by autorewrite with pview].
  destruct (negb _); autorewrite with pview; [apply (elsewhere_attach wid x Hx)|apply (elsewhere_clear wid x Hx)].
Qed.

Lemma elsewhere_sent_ok addr row di pay r an s : pview x (sent_ok cfg now wid addr row di pay r an s).1 = pview x s.
Proof.
  unfold sent_ok. destruct (String.eqb _ ""); [cbn [fst]; by rewrite pview_db_try by exact _|].
  pose proof (elsewhere_attach_retry 8 (trim_space (r_tx_hash r)) s) as E1. destruct (attach_retry _ _ _ _) as [s1 [|]]; cbn [fst] in *;
    [|by rewrite pview_db_try by exact _].
  destruct (negb _); [cbn [fst]; by rewrite pview_export_try|]. cbv zeta.
  match goal with |- context [db_do (ApplySettleUnits _ _ ?a ?h ?t ?k ?c) ?s2] =>
    pose proof (elsewhere_apply wid x Hx now a h t k c s2) as E2; destruct (db_do (ApplySettleUnits _ _ a h t k c) s2) as [s3 [u|e]] end;
    cbn [fst] in *; rewrite pview_export_try in E2; [|congruence].
  pose proof (pview_export x cfg s3) as E3. destruct (export cfg s3) as [s4 [|]]; cbn [fst] in *; rewrite ?pview_mark; congruence.
Qed.

Lemma elsewhere_pay addr row di an s : pview x (pay_worker cfg now wid addr row di an s).1 = pview x s.
Proof.
  unfold pay_worker. destruct (an_balance an) as [bal|]; [|done]. cbv zeta. destruct (_ =? 0); [done|].
  destruct (an_nonce an) as [nonce|]; [|done].
  match goal with |- context [db_do (SetPendingUnits _ _ ?a ?d ?n) s] => pose proof (elsewhere_open wid x Hx now a d n s) as E;
    destruct (db_do (SetPendingUnits _ _ a d n) s) as [s1 [u|e]] end; cbn [fst] in *; [|done].
  pose proof (pview_export x cfg s1) as E2. destruct (export cfg s1) as [s2 [|]]; cbn [fst] in *; [|congruence].
  destruct (send_loop _ _ _ _ _) as [[[r|n|] lst] nonces]; cbn [fst].
  - rewrite elsewhere_sent_ok, pview_sent. congruence.
  - rewrite pview_db_try by exact _. rewrite pview_sent. congruence.
  - rewrite elsewhere_not_sent, pview_sent. congruence.
Qed.

Lemma other_turn_view force w an s : pview x (settle_worker cfg now payer wid force w an s).1 = pview x s.
Proof.
  unfold settle_worker. cbv zeta. repeat match goal with |- context [if ?c then (s, true) else _] => destruct c; [done|] end.
  destruct (GetWorker wid (p_db s)) as [row|]; [|done]. set (di := ComputeAccrualDelta _ _ _).
  pose proof (pview_anchor_step x cfg wid di s) as Ev.
  destruct (anchor_step cfg wid di s) as [s1 [|]]; cbn [fst] in Ev; [|done].
  destruct (negb _); [done|]. destruct (_ =? 0); [done|].
  destruct (negb _); [cbn [fst]; by rewrite elsewhere_recover|].
  destruct (bool_decide _); [cbn [fst]; by rewrite elsewhere_stranded|]. by rewrite elsewhere_pay.
Qed.
End other_turn.

#[export] Instance hmc_quiet_sup_log now wid kind units note : Quiet hmc_pay (sup_log now wid kind units note).
Proof. unfold sup_log. exact _. Qed.

(** A SUP turn, of any worker. *)
Lemma sup_turn_view x cfg now payer wid w v an s : pview x (settle_worker_sup cfg now payer wid w v an s) = pview x s.
Proof.
  assert (Hap : ∀ addr h st k di n t, pview x (sup_apply now wid addr h st k di n t) = pview x t).
  { intros. unfold sup_apply. match goal with |- context [db_do ?m t] => pose proof (pview_db_do x m t) as E;
      destruct (db_do m t) as [t' [u|e]] end; cbn [fst] in E; rewrite ?pview_mark; done. }
  assert (Htry : ∀ {B} (m : tx Settle B) t, Quiet hmc_pay m → pview x (db_try m t) = pview x t) by (intros; by apply pview_db_try).
  unfold settle_worker_sup. cbv zeta.
  repeat match goal with |- context [if ?c then s else _] => destruct c; [done|] end.
  destruct (GetWorker wid (p_db s)) as [row|]; [|done]. set (di := ComputeAccrualDelta _ _ _).
  assert (Ea : pview x (sup_anchor_step wid di s).1 = pview x s).
  { unfold sup_anchor_step. destruct (NeedAnchor di).
    - pose proof (pview_db_do x (SetSessionAnchorSUP wid (UnitsToHMC (NewAnchorUnits di)) false) s) as E.
      destruct (db_do _ _) as [t' [u|e]]; exact E.
    - destruct (ClearAnchor di); [apply pview_db_try; exact _|done]. }
  destruct (sup_anchor_step wid di s) as [s1 [|]]; cbn [fst] in Ea; [|done]. rewrite <- Ea.
  destruct (PendingSUPJSON row) as [pend|].
  - unfold sup_recover. destruct (String.eqb _ "").
    + destruct (sc_clear_pending cfg); [|done]. unfold sup_clear. cbv zeta.
      destruct (sa_clear_state an) as [[b n]|]; [|done]. destruct (findSUPInflight _ _ _ _); [|done].
      destruct (_ && _); [|done]. apply Htry. exact _.
    + destruct (sa_recover an) as [[|] [|]]; try done; try (rewrite !Htry by exact _; done).
  - destruct (_ || _); [done|]. unfold sup_pay_worker. destruct (sa_state an) as [[bal nonce]|]; [|done]. cbv zeta.
    destruct (_ =? 0); [done|].
    match goal with |- context [db_do ?m s1] => pose proof (pview_db_do x m s1) as E; destruct (db_do m s1) as [s2 [u|e]] end;
      cbn [fst] in E; [|done]. rewrite <- E.
    destruct (negb _).
    + unfold sup_not_sent. cbv zeta. destruct (_ <? _); [by rewrite Htry by exact _|].
      destruct (findSUPInflight _ _ _ _); [|done]. destruct (negb _); by rewrite Htry by exact _.
    + match goal with |- context [db_do ?m (with_sent ?l s2)] => pose proof (pview_db_do x m (with_sent l s2)) as E2;
        destruct (db_do m (with_sent l s2)) as [s3 [u3|e3]] end; cbn [fst] in E2; [|by rewrite E2, pview_sent].
      destruct (negb _); [by rewrite E2, pview_sent|]. by rewrite Hap, E2, pview_sent.
Qed.

(** * The worker is paid once *)

Section pays_once.
Context (A : string) (cfg : Config) (payer wid : string).

(** The node and the pass: turns of this worker on true answers, and everything else. *)
Inductive settler_reach (s0 : Pass) (N0 : Node) : Pass → Node → Prop :=
  | sr_start : settler_reach s0 N0 s0 N0
  | sr_turn s N N' now force w an sent : settler_reach s0 N0 s N → toAddress cfg wid w = A →
      let s' := (settle_worker cfg now payer wid force w an s).1 in
      p_sent s' = p_sent s ++ sent → turn_true A payer (intent_hash (pview (trim_space wid) s)) an sent N N' →
      n_next N' < 2 ^ 52 → settler_reach s0 N0 s' N'
  | sr_other s N N' now force wid' w an : settler_reach s0 N0 s N → trim_space wid' ≠ trim_space wid → node_steps A N N' →
      settler_reach s0 N0 (settle_worker cfg now payer wid' force w an s).1 N'
  | sr_sup s N N' scfg now wid' w v an : settler_reach s0 N0 s N → node_steps A N N' →
      settler_reach s0 N0 (settle_worker_sup scfg now payer wid' w v an s) N'
  | sr_export s N N' : settler_reach s0 N0 s N → node_steps A N N' → settler_reach s0 N0 (export_try cfg s) N'.

(** No payout in flight, and every transfer to [A] that may count is included. *)
Definition settled_start (s : Pass) (N : Node) : Prop :=
  let v := pview (trim_space wid) s in
  v_intent v = None ∧ v_rows v = [] ∧ 0 ≤ v_paid v < two63 ∧ 0 ≤ n_next N ∧
  (∀ h x, n_txs N !! h = Some x → x_fate x = Included → x_nonce x < n_next N) ∧
  (∀ h x, n_txs N !! h = Some x → x_to x = A → x_fate x ≠ Rejected → x_fate x = Included ∧ hash_ok h).

Lemma settler_reach_inv s0 N0 s N :
  trim_space A = A → A ≠ "" → cfg_ClearPending cfg = false → 0 < MaxChunkUnits cfg < 2 ^ 52 →
  settled_start s0 N0 → settler_reach s0 N0 s N →
  0 ≤ n_next N ∧ ∃ cur, inv A (v_paid (pview (trim_space wid) s0) - live_units A N0) (pview (trim_space wid) s) N cur.
Proof.
  intros HA HA0 Hf Hc (Hi & Hr & Hp & Hn & Hpast & Hlive).
  assert (Hsame : ∀ s s' N N' p, pview (trim_space wid) s' = pview (trim_space wid) s → node_steps A N N' →
    (0 ≤ n_next N ∧ ∃ cur, inv A p (pview (trim_space wid) s) N cur) → 0 ≤ n_next N' ∧ ∃ cur, inv A p (pview (trim_space wid) s') N' cur).
  { intros s1 s2 N1 N2 p Ev Hst (Hn1 & cur & Hinv). split; [pose proof (node_steps_next _ _ _ Hst); lia|].
    exists cur. rewrite Ev. by eapply inv_node_steps. }
  induction 1 as [|s N N' now force w an sent _ [IHn IH] Hto s' Hs Ht Hb|s N N' now force wid' w an _ IH Hw Hst|s N N' scfg now wid' w v an _ IH Hst|s N N' _ IH Hst].
  - split; [done|]. exists None. split; try done.
    + cbn [cur_units]. lia.
    + unfold view_ok. by rewrite Hi.
    + intros h x Hx Hxto Hxf _. split; [by apply (Hlive h x)|]. rewrite Hi. done.
    + intros h x Hx Hxto Hxf. by apply (Hlive h x).
    + by rewrite Hi.
  - assert (Hnext : n_next N ≤ n_next N').
    { destruct Ht as [N1' N1 N2 N3 N4 H0 [H1 _] _ H2 _ H3 H4 _ H5 _].
      pose proof (node_steps_next _ _ _ H0). pose proof (node_steps_next _ _ _ H1). pose proof (node_steps_next _ _ _ H2).
      pose proof (sends_next _ _ _ _ _ _ H3). pose proof (node_steps_next _ _ _ H4). pose proof (node_steps_next _ _ _ H5). lia. }
    split; [lia|]. by eapply turn_keeps.
  - eapply Hsame; [|exact Hst|exact IH]. apply other_turn_view. congruence.
  - eapply Hsame; [|exact Hst|exact IH]. apply sup_turn_view.
  - eapply Hsame; [|exact Hst|exact IH]. apply pview_export_try.
Qed.

(** C3: The settler pays a worker once.  Let the worker's payout address [A] receive transfers of the payer from no one
    else, let the operator's clear switch be off, the limit of one payout and the payer's nonces stay below 2^52 and nothing be in
    flight at the start, and let the answers of the worker's own turns be true of the node
    when they are given: each request is answered at a moment of its own, a send may be lost after it was accepted, and
    transfers may be included or rejected between any two requests, with one exception: while a turn resolves an unstamped
    intent, no transfer to [A] is included between its first request, for the payer's nonce, and its last, for the mempool
    (with that, an intent that was paid can be taken for unsent: resolve_race in WorkerProps).  Then in every
    reachable state, whatever other workers' turns, SUP turns and exports run in between, and however often turns stop halfway, the units the node carries or
    may still carry to [A] grew by exactly the growth of the watermark, plus at most the one intent in flight. *)
Theorem settler_pays_once s0 N0 s N :
  trim_space A = A → A ≠ "" → cfg_ClearPending cfg = false → 0 < MaxChunkUnits cfg < 2 ^ 52 →
  settled_start s0 N0 → settler_reach s0 N0 s N →
  let grown := v_paid (pview (trim_space wid) s) - v_paid (pview (trim_space wid) s0) in
  let sent := live_units A N - live_units A N0 in
  match v_intent (pview (trim_space wid) s) with
  | None => sent = grown
  | Some i => sent = grown ∨ sent = grown + i_delta_units i
  end.
Proof.
  intros HA HA0 Hf Hc Hs Hr grown sent. destruct (settler_reach_inv _ _ _ _ HA HA0 Hf Hc Hs Hr) as [_ [cur Hinv]].
  pose proof (inv_sum _ _ _ _ _ Hinv) as Hsum. pose proof (inv_cur _ _ _ _ _ Hinv) as Hcur.
  destruct (v_intent _) as [i|]; [|subst cur; cbn [cur_units] in Hsum; subst grown sent; lia].
  destruct Hcur as (_ & _ & _ & _ & _ & Hcur). destruct cur as [h|]; [|left; cbn [cur_units] in Hsum; subst grown sent; lia].
  destruct (Hcur h eq_refl) as (x & Hx & Hto & Ha & _). cbn [cur_units] in Hsum. rewrite (mval_lookup _ _ _ x) in Hsum by done.
  destruct (decide (x_fate x = Rejected)) as [Hrej|Hrej].
  - left. rewrite weight_rejected in Hsum by done. subst grown sent. lia.
  - right. rewrite weight_live in Hsum by done. subst grown sent. lia.
Qed.
End pays_once.

(** ** An instance: one worker owed 60 units is paid and credited in one turn *)

Definition toy_settle_cfg : Config := mkConfig "state.json" 1 1 0 false ∅ ∅ 0 100 3 false false.
Definition toy_pass : Pass := mkPass (set_migrated empty_settle) None [] false 0.
Definition toy_accrual : workerAccrual := mkAccrual (f_of_Z 0) 60 "addrA" false.
Definition toy_answers : Answers :=
  mkAnswers false (mkNodeView (Err "") (λ _, Err "") (Err "")) (Err "") (Ok 1000) (Ok 5)
    (λ _, mkResp "h1" true "" "") (λ _, Err "") (Err "") (Err "") true.
Definition toy_node : Node := mkNode ∅ 5.
Definition toy_sent : Node := mkNode {["h1" := mkNodeTx "addrA" 60 5 Pending]} 5.
Definition toy_paid : Node := mkNode (<["h1" := fated Included (mkNodeTx "addrA" 60 5 Pending)]> (n_txs toy_sent)) 6.
Definition toy_after : Pass := (settle_worker toy_settle_cfg 7 "payer" "w1" false toy_accrual toy_answers toy_pass).1.

Example toy_after_sent : p_sent toy_after = [mkTransfer "addrA" 60 5].
Proof. vm_compute. reflexivity. Qed.
Example toy_after_paid : v_paid (pview "w1" toy_after) = 60 ∧ v_intent (pview "w1" toy_after) = None.
Proof. vm_compute. done. Qed.

Lemma toy_included : node_step "addrA" toy_sent toy_paid.
Proof. apply (ns_include "addrA" toy_sent "h1" (mkNodeTx "addrA" 60 5 Pending)); reflexivity. Qed.

Lemma toy_turn_true : turn_true "addrA" "payer" "" toy_answers [mkTransfer "addrA" 60 5] toy_node toy_paid.
Proof.
  apply (turn_true_intro _ _ _ _ _ _ _ toy_node toy_node toy_node toy_sent toy_paid).
  - apply rtc_refl.
  - split; [apply rtc_refl|]. split; [discriminate|]. split; [|split; [discriminate|]].
    + intros n. exists toy_node. do 2 (split; [apply rtc_refl|]). discriminate.
    + intros h x Hx. exfalso. exact (lookup_empty_Some h x Hx).
  - discriminate.
  - apply rtc_refl.
  - by intros n [= <-].
  - eapply (st_cons _ _ 0 _ [] _ toy_sent toy_sent); [|apply rtc_refl|discriminate|constructor].
    change toy_sent with (mkNode (<["h1" := mkNodeTx "addrA" 60 5 Pending]> (n_txs toy_node)) (n_next toy_node)).
    apply se_accepted; [done|split; reflexivity|done|discriminate].
  - apply rtc_once, toy_included.
  - discriminate.
  - apply rtc_refl.
  - intros _ i Hi. eexists. split; reflexivity.
Qed.

Lemma toy_reach : settler_reach "addrA" toy_settle_cfg "payer" "w1" toy_pass toy_node toy_after toy_paid.
Proof.
  apply (sr_turn _ _ _ _ _ _ toy_pass toy_node toy_paid 7 false toy_accrual toy_answers [mkTransfer "addrA" 60 5]).
  - constructor.
  - reflexivity.
  - exact toy_after_sent.
  - exact toy_turn_true.
  - reflexivity.
Qed.

Lemma settler_pays_once_witness :
  live_units "addrA" toy_paid - live_units "addrA" toy_node = 60 ∧
  settled_start "addrA" "w1" toy_pass toy_node ∧ settler_reach "addrA" toy_settle_cfg "payer" "w1" toy_pass toy_node toy_after toy_paid.
Proof.
  assert (Hs : settled_start "addrA" "w1" toy_pass toy_node).
  { split; [reflexivity|]. split; [reflexivity|]. split; [vm_compute; done|]. split; [vm_compute; done|].
    split; intros h x Hx; exfalso; exact (lookup_empty_Some h x Hx). }
  split; [|split; [exact Hs|exact toy_reach]].
  pose proof (settler_pays_once "addrA" toy_settle_cfg "payer" "w1" toy_pass toy_node toy_after toy_paid
    ltac:(reflexivity) ltac:(discriminate) ltac:(reflexivity) ltac:(vm_compute; done) Hs toy_reach) as H.
  cbv zeta in H. destruct toy_after_paid as [Hp Hi]. change (trim_space "w1") with "w1" in H. rewrite Hi, Hp in H. exact H.
Defined.
