(* ===== verification/WorkerProps.v ===== *)
(** Further properties of the settler: what one turn may pay, what the resolver decides, and four
    places where the settler does not do what its comments promise. *)
From S2P Require Import Prelude Float64 GoText GoNum Params Json WorkerSettle WorkerStore WorkerExport WorkerRun WorkerSafe.

(** * Amounts *)

(** The units owed are what accrued above the baseline.  Without a counter reset the baseline is the watermark; after one it is the
    session anchor, and the first look at the new session (or one below the anchor) anchors it and owes nothing.  After a
    payment of part of it, storing the new watermark and the new anchor leaves exactly the rest owed. *)
Theorem accrual_delta_exact a s k :
  0 ≤ a → 0 ≤ s → 0 ≤ k →
  let d := ComputeAccrualDelta a s k in
  (s ≤ a → DeltaUnits d = a - s) ∧
  (a < s → 0 < k ≤ a → DeltaUnits d = a - k) ∧
  (a < s → k = 0 ∨ a < k → DeltaUnits d = 0 ∧ NeedAnchor d = true ∧ NewAnchorUnits d = a) ∧
  (∀ pay, 0 < pay ≤ DeltaUnits d →
    DeltaUnits (ComputeAccrualDelta a (s + pay) (next_anchor d pay)) = DeltaUnits d - pay).
Proof.
  intros Ha Hs Hk d. repeat split; intros; try (by apply delta_after_payment);
    subst d; unfold ComputeAccrualDelta; repeat (case_match; cbn); b2p; try lia;
    repeat (match goal with H : (_ || _)%bool = true |- _ => apply orb_true_iff in H as [?|?]; b2p end); try lia; try done.
Qed.

Lemma accrual_delta_exact_witness :
  DeltaUnits (ComputeAccrualDelta 40 100 10) = 30 ∧
  DeltaUnits (ComputeAccrualDelta 40 (100 + 12) (next_anchor (ComputeAccrualDelta 40 100 10) 12)) = 18.
Proof.
  destruct (accrual_delta_exact 40 100 10 ltac:(lia) ltac:(lia) ltac:(lia)) as (_ & H1 & _ & H2).
  split; [apply H1; lia|]. rewrite H2; [rewrite H1; lia|]. rewrite H1; lia.
Defined.

(** * What one turn may send *)

Lemma send_loop_length an nb nonce i k : (List.length (send_loop an nb nonce i k).2 ≤ S k)%nat.
Proof.
  revert nonce i. induction k as [|k IH]; intros nonce i; cbn [send_loop].
  - destruct (txResponseOK _); cbn; lia.
  - destruct (txResponseOK _); [cbn; lia|]. destruct (negb _); [cbn; lia|]. destruct (an_retry_nonce an i) as [n|]; [|cbn; lia].
    destruct (_ <? _); [cbn; lia|]. specialize (IH n (S i)). destruct (send_loop _ _ _ _ _) as [[o l] ns]. cbn in *. lia.
Qed.

(** No send of the loop uses a nonce above the first. *)
Lemma send_loop_nonces an nb nonce i k : nonce ≤ nb → Forall (λ n, n ≤ nb) (send_loop an nb nonce i k).2.
Proof.
  revert nonce i. induction k as [|k IH]; intros nonce i Hn; cbn [send_loop].
  - destruct (txResponseOK _); by repeat constructor.
  - destruct (txResponseOK _); [by repeat constructor|]. destruct (negb _); [by repeat constructor|].
    destruct (an_retry_nonce an i) as [n|]; [|by repeat constructor]. destruct (nb <? n) eqn:E; [by repeat constructor|]. b2p.
    specialize (IH n (S i) E). destruct (send_loop _ _ _ _ _) as [[o l] ns]. cbn in *. by constructor.
Qed.

(** Any send made in a turn: to the worker, for at most what is owed and what the treasury can spare. *)
Definition send_within (cfg : Config) (addr : string) (owed bal n0 : Z) (t : Transfer) : Prop :=
  t_to t = addr ∧ 0 < t_amount t ≤ owed ∧ t_amount t ≤ bal - TreasuryReserveUnits cfg ∧
  t_amount t ≤ MaxChunkUnits cfg ∧ t_nonce t ≤ n0.

Section turn_sends.
Context (cfg : Config) (now : Z) (payer wid : string).

Lemma sent_recover_any addr row accrued di i an s : p_sent (recover cfg now wid addr row accrued di i an s) = p_sent s.
Proof.
  unfold recover. cbv zeta. destruct (verifyTxIncluded _ _).
  - match goal with |- context [db_do ?m s] => pose proof (sent_db_try m s) as E; unfold db_try in E; destruct (db_do m s) as [s' [u|e]] end;
      cbn [fst] in E; autorewrite with pview; done.
  - destruct (_ && _); by autorewrite with pview.
Qed.

Lemma sent_stranded_any addr i an s : p_sent (stranded cfg now payer wid addr i an s) = p_sent s.
Proof.
  unfold stranded. cbv zeta. set (res := resolveStrandedPending _ _ _ _). destruct (sr_outcome res).
  - destruct (negb _); [done|]. destruct (_ && _); [done|]. by autorewrite with pview.
  - destruct (TxHashKnown _ _); [done|]. pose proof (sent_db_try (AttachTxHash wid (sr_hash res)) s) as E. unfold db_try in E.
    destruct (db_do (AttachTxHash _ _) s) as [s' [u|e]]; cbn [fst] in E; autorewrite with pview; done.
  - pose proof (sent_db_try (ClearPending now wid) s) as E. unfold db_try in E.
    destruct (db_do (ClearPending _ _) s) as [s' [u|e]]; cbn [fst] in E; autorewrite with pview; done.
Qed.

Lemma sent_pay_within addr row di an s bal n0 :
  0 ≤ DeltaUnits di → 0 < MaxChunkUnits cfg → an_balance an = Ok bal → an_nonce an = Ok n0 →
  ∃ l, p_sent (pay_worker cfg now wid addr row di an s).1 = p_sent s ++ l ∧
    Z.of_nat (List.length l) ≤ Z.max 1 (NonceRetries cfg) ∧ Forall (send_within cfg addr (DeltaUnits di) bal n0) l.
Proof.
  intros Hd Hmx Hbal Hn0. assert (Hnil : ∀ s', p_sent s' = p_sent s → ∃ l, p_sent s' = p_sent s ++ l ∧
    Z.of_nat (List.length l) ≤ Z.max 1 (NonceRetries cfg) ∧ Forall (send_within cfg addr (DeltaUnits di) bal n0) l).
  { intros s' E. exists []. rewrite app_nil_r. split; [done|]. split; [cbn; lia|by constructor]. }
  unfold pay_worker. rewrite Hbal, Hn0. cbv zeta. set (pay := CapChunk _ _ _ _). destruct (pay =? 0) eqn:Ep; [by apply Hnil|]. b2p.
  pose proof (sent_db_try (SetPendingUnits now wid addr pay (i64 n0)) s) as E1. unfold db_try in E1.
  destruct (db_do _ s) as [s1 [u|e]]; cbn [fst] in *; [|by apply Hnil].
  pose proof (sent_export cfg s1) as E2. destruct (export cfg s1) as [s2 [|]]; cbn [fst] in *; [|apply Hnil; congruence].
  pose proof (send_loop_length an n0 n0 0 (Z.to_nat (NonceRetries cfg - 1))) as Hl.
  pose proof (send_loop_nonces an n0 n0 0 (Z.to_nat (NonceRetries cfg - 1)) ltac:(lia)) as Hn.
  destruct (send_loop _ _ _ _ _) as [[o lst] nonces]. cbn [snd] in *.
  exists (map (mkTransfer addr pay) nonces). split; [|split].
  - assert (Es : p_sent (with_sent (map (mkTransfer addr pay) nonces) s2) = p_sent s ++ map (mkTransfer addr pay) nonces)
      by (cbn [with_sent p_sent]; congruence).
    destruct o; cbn [fst]; [by rewrite sent_sent_ok|by rewrite sent_db_try|by rewrite sent_not_sent].
  - rewrite length_map. lia.
  - apply list.Forall_forall. intros t (n & -> & Hin)%list_elem_of_fmap. rewrite list.Forall_forall in Hn. specialize (Hn n Hin).
    unfold send_within. cbn. subst pay. unfold CapChunk in *. repeat case_match; b2p; repeat split; try lia.
Qed.
End turn_sends.

(** A turn sends money only for a worker without a recorded intent, only to the worker's address, and each send is for at
    most what is owed to the worker, what the treasury holds above its reserve, and the chunk limit; retries never use a nonce above the
    first, and there are at most as many sends as configured.  Nothing is assumed of the node's answers. *)
Theorem turn_sends_within cfg now payer wid force w an s :
  0 < MaxChunkUnits cfg →
  let row := worker (trim_space wid) (p_db s) in
  let owed := DeltaUnits (ComputeAccrualDelta (accrued_units w) (SettledUnits row) (SessionAnchorUnits row)) in
  ∃ l, p_sent (settle_worker cfg now payer wid force w an s).1 = p_sent s ++ l ∧
    Z.of_nat (List.length l) ≤ Z.max 1 (NonceRetries cfg) ∧
    (l ≠ [] → PendingJSON row = None ∧ ∃ bal n0, an_balance an = Ok bal ∧ an_nonce an = Ok n0 ∧
      Forall (send_within cfg (toAddress cfg wid w) owed bal n0) l).
Proof.
  intros Hmx row owed. assert (Hnil : ∀ s', p_sent s' = p_sent s → ∃ l, p_sent s' = p_sent s ++ l ∧
    Z.of_nat (List.length l) ≤ Z.max 1 (NonceRetries cfg) ∧ (l ≠ [] → PendingJSON row = None ∧ ∃ bal n0, an_balance an = Ok bal ∧
      an_nonce an = Ok n0 ∧ Forall (send_within cfg (toAddress cfg wid w) owed bal n0) l)).
  { intros s' E. exists []. rewrite app_nil_r. split; [done|]. split; [cbn; lia|done]. }
  unfold settle_worker. cbv zeta. repeat match goal with |- context [if ?c then (s, true) else _] => destruct c; [by apply Hnil|] end.
  unfold GetWorker. destruct (String.eqb (trim_space wid) ""); [by apply Hnil|]. fold row. fold owed.
  set (di := ComputeAccrualDelta _ _ _) in *. pose proof (sent_anchor_step cfg wid di s) as Es.
  destruct (anchor_step cfg wid di s) as [s1 [|]]; cbn [fst] in *; [|by apply Hnil].
  destruct (negb _); [by apply Hnil|]. destruct (_ =? 0); [by apply Hnil|].
  destruct (negb _); [apply Hnil; cbn [fst]; by rewrite sent_recover_any|].
  case_bool_decide as Hp; [apply Hnil; cbn [fst]; by rewrite sent_stranded_any|].
  destruct (an_balance an) as [bal|] eqn:Eb; [|apply Hnil; unfold pay_worker; by rewrite Eb].
  destruct (an_nonce an) as [n0|] eqn:En; [|apply Hnil; unfold pay_worker; rewrite Eb, En; cbv zeta; by destruct (_ =? 0)].
  destruct (sent_pay_within cfg now wid (toAddress cfg wid w) row di an s1 bal n0) as (l & Hs & Hl & Hf); try done.
  { unfold di. apply DeltaUnits_nonneg. }
  exists l. split; [by rewrite Hs, Es|]. split; [done|]. intros _.
  split; [exact Hp|]. by exists bal, n0.
Qed.

Lemma turn_sends_within_witness :
  0 < MaxChunkUnits toy_settle_cfg ∧
  ∃ l, p_sent toy_after = [] ++ l ∧ Z.of_nat (List.length l) ≤ 3.
Proof.
  split; [reflexivity|].
  destruct (turn_sends_within toy_settle_cfg 7 "payer" "w1" false toy_accrual toy_answers toy_pass ltac:(reflexivity)) as (l & H1 & H2 & _).
  exists l. split; [exact H1|exact H2].
Defined.

(** * The resolver *)

(** C35: The resolver gives an intent up as never sent only if the payer's nonce has reached the intent's by at most 256, every
    slot from there on holds an included transfer to somebody else and no live transfer of the intent's amount to its address, and
    the mempool shows none; it takes an intent as paid only for an included transfer of exactly that amount to that address at
    such a slot. *)
Theorem resolveStrandedPending_sound payer to i v :
  let r := resolveStrandedPending payer to i v in
  let addr := trim_space to in
  let amount := intent_amount i in
  (sr_outcome r = strandedUnsent → ∃ next pool, nv_next_nonce v = Ok next ∧ 0 < i_nonce i ≤ next ∧ next ≤ i_nonce i + 256 ∧
    nv_pool v = Ok pool ∧ (∀ t, t ∈ pool → in_pool payer addr amount t = false) ∧
    ∀ m, i_nonce i ≤ m < next → ∃ txs, nv_by_nonce v m = Ok txs ∧
      (∀ t, t ∈ txs → bn_to t = addr → bn_amount t = amount → bn_status t = "rejected") ∧
      ∃ t, t ∈ txs ∧ bn_status t = "included" ∧ bn_to t ≠ addr) ∧
  (sr_outcome r = strandedPaid → ∃ txs t, nv_by_nonce v (sr_nonce r) = Ok txs ∧ t ∈ txs ∧ bn_to t = addr ∧
    bn_amount t = amount ∧ bn_status t = "included" ∧ sr_hash r = bn_hash t ∧ i_nonce i ≤ sr_nonce r).
Proof.
  split; [|apply resolve_paid]. intros (next & Hn & Hb & Hmax & Hslots & pool & Hp & Hnone)%resolve_unsent.
  exists next, pool. do 2 (split; [done|]). split; [unfold strandedMaxScan in *; lia|]. split; [done|]. split.
  - intros t Ht. destruct (in_pool _ _ _ t) eqn:E; [|done]. rewrite <- Hnone. symmetry. apply existsb_exists.
    exists t. split; [by apply list_elem_of_In|done].
  - intros m Hm. destruct (Hslots m Hm) as (txs & Htxs & Hclear & Hex). exists txs. split; [done|]. split; [|done].
    intros t Ht Hto Ha. apply (Hclear t Ht). unfold matches. by rewrite Hto, Ha, String.eqb_refl, Z.eqb_refl.
Qed.

(** The resolver reads the payer's nonce before the mempool.  If the intent's own transfer is included between the two reads, the
    range to scan is empty and the mempool no longer holds it: every answer was true when given, the transfer
    is in the chain, and yet the intent is given up as never sent, to be paid again. *)
Theorem resolve_race :
  ∃ payer A i N1 N2 h x v,
    n_txs N1 !! h = Some x ∧ x_fate x = Pending ∧ x_to x = A ∧ x_amount x = i_delta_units i ∧ x_nonce x = i_nonce i ∧
    node_step A N1 N2 ∧ included h N2 ∧
    nv_next_nonce v = Ok (n_next N1) ∧ (∀ n, by_nonce_true N1 n (nv_by_nonce v n)) ∧ pool_true payer N2 (nv_pool v) ∧
    sr_outcome (resolveStrandedPending payer A i v) = strandedUnsent.
Proof.
  set (x := mkNodeTx "addrA" 60 5 Pending).
  exists "payer", "addrA", (mkIntent (f_of_Z 0) 60 "addrA" "" 5), toy_sent, toy_paid, "h1", x,
    (mkNodeView (Ok 5) (λ n, Ok (if n =? 5 then [shown "h1" x] else [])) (Ok [])).
  do 5 (split; [reflexivity|]). split; [exact toy_included|]. split; [eexists; split; reflexivity|].
  split; [reflexivity|]. split; [|split; [|vm_compute; reflexivity]].
  - intros n txs [= <-]. split.
    + intros t Ht. destruct (n =? 5) eqn:E; [|by apply elem_of_nil in Ht]. b2p. apply list_elem_of_singleton in Ht as ->.
      exists "h1", x. split; [reflexivity|]. split; [done|reflexivity].
    + intros h y Hy Hn. cbn in Hy. apply lookup_singleton_Some in Hy as [<- <-]. cbn in Hn. subst n. cbn. by left.
  - intros txs h y _ Hy Hf. cbn in Hy. apply lookup_insert_Some in Hy as [[<- <-]|[Hne Hy]]; [done|].
    apply lookup_singleton_Some in Hy as [? _]. done.
Qed.

(** The operator's clear switch drops an unstamped intent whose transfer the node has just reported in its mempool: the resolver
    keeps the intent, but the clear that follows only asks whether the nonce has advanced, which a pending transfer does
    not do.  The next turn may then send the payout again. *)
Theorem manual_clear_ignores_mempool cfg now payer wid addr i an s :
  cfg_ClearPending cfg = true → ClearPendingForce cfg = false → trim_space wid ≠ "" →
  an_clear_nonce an = Ok (i_nonce i) → - two63 ≤ i_nonce i < two63 →
  sr_outcome (resolveStrandedPending payer (firstNonEmpty [i_payout i; addr]) i (an_view an)) = strandedKeep →
  v_intent (pview (trim_space wid) (stranded cfg now payer wid addr i an s)) = None.
Proof.
  intros Hc Hf Hw Hn Hb Hk. unfold stranded. cbv zeta. rewrite Hk, Hc, Hf, Hn. cbn [negb].
  rewrite i64_small by done. rewrite Z.ltb_irrefl, andb_false_r. autorewrite with pview. unfold db_try.
  destruct (do_clear wid now s) as [[e E]|(u & s' & -> & Hv & _)].
  - exfalso. unfold db_do, ClearPending, bind, modify, guard in E. apply String.eqb_neq in Hw. rewrite Hw in E. cbn in E. congruence.
  - cbn [fst]. by rewrite Hv.
Qed.

(** A pass with an unstamped intent of 60 units at nonce 5. *)
Definition toy_pending : Pass :=
  with_db (run (SetPendingUnits 7 "w1" "addrA" 60 5) (p_db toy_pass)) toy_pass.
Definition toy_intent : Intent := mkIntent (UnitsToHMC 60) 60 "addrA" "" 5.
Definition clear_cfg : Config := mkConfig "state.json" 1 1 0 false ∅ ∅ 0 100 3 true false.
(** The node shows the transfer in its mempool and has not moved past the nonce. *)
Definition pool_answers : Answers :=
  mkAnswers false (mkNodeView (Ok 5) (λ _, Ok []) (Ok [mkPoolTx "h1" "payer" "addrA" 60])) (Ok 5) (Ok 1000) (Ok 5)
    (λ _, mkResp "" false "" "") (λ _, Err "") (Err "") (Err "") false.

Lemma manual_clear_ignores_mempool_witness :
  v_intent (pview "w1" toy_pending) = Some toy_intent ∧
  v_intent (pview "w1" (stranded clear_cfg 8 "payer" "w1" "addrA" toy_intent pool_answers toy_pending)) = None.
Proof.
  split; [vm_compute; reflexivity|].
  exact (manual_clear_ignores_mempool clear_cfg 8 "payer" "w1" "addrA" toy_intent pool_answers toy_pending
    ltac:(reflexivity) ltac:(reflexivity) ltac:(discriminate) ltac:(reflexivity) ltac:(vm_compute; split; congruence) ltac:(vm_compute; reflexivity)).
Defined.

(** * Lost remainders *)

Lemma ApplySettleUnits_row now wid addr h st k c d u d' :
  ApplySettleUnits now wid addr h st k c d = Ok (u, d') →
  SettledUnits (worker (trim_space wid) d') = st ∧
  SessionAnchorUnits (worker (trim_space wid) d') = if c then 0 else k.
Proof.
  unfold ApplySettleUnits. cbv zeta. intros E. inv_tx E. autorewrite with settle.
  rewrite decide_True by done. done.
Qed.

(** The HMC lane with the session anchor in place of the watermark: exports leave it alone too. *)
Definition anchor_lane : PayLane :=
  mkPayLane SessionAnchorUnits PendingJSON s_outbox (pl_open hmc_pay) AttachTxHash ClearPending ApplySettleUnits false.

Lemma anchor_quiet_SetSettledSUP w v a : Quiet anchor_lane (SetSettledSUP w v a).
Proof.
  intros d u d' H. unfold SetSettledSUP in H. inv_tx H. apply quiet_intro; [done|]. intros x. cbn [anchor_lane pl_paid pl_intent].
  autorewrite with settle. by destruct (decide (x = _)) as [->|].
Qed.
Lemma anchor_quiet_SetSessionAnchorSUP w v c : Quiet anchor_lane (SetSessionAnchorSUP w v c).
Proof.
  intros d u d' H. unfold SetSessionAnchorSUP in H. cbv zeta in H. inv_tx H; apply quiet_intro; try done; intros x;
    cbn [anchor_lane pl_paid pl_intent]; autorewrite with settle; by destruct (decide (x = _)) as [->|].
Qed.
Lemma export_try_anchor x cfg s : SessionAnchorUnits (worker x (p_db (export_try cfg s))) = SessionAnchorUnits (worker x (p_db s)).
Proof.
  unfold export_try, export. destruct (ExportJSONToFile _ _ _) as [[doc d']|] eqn:E; [|done]. cbn [fst p_db].
  pose proof (quiet_export anchor_lane (Hs:=anchor_quiet_SetSettledSUP) (Hk:=anchor_quiet_SetSessionAnchorSUP) _ _ _ _ _ E x) as H.
  by apply (f_equal v_paid) in H.
Qed.

(** Crash recovery during a session after a counter reset forgets what a partial payout left unpaid.  The normal path moves the anchor
    by what was paid ("never jump anchor to full accrued"); recovery of the same intent stores the full accrual as the anchor, so
    nothing is owed any more although only the intent's units were paid. *)
Theorem recover_forgets_remainder cfg now wid addr row accrued di i an s :
  Rebase di = true → trim_space wid ≠ "" → 0 ≤ accrued < two63 →
  SettledUnits row = SettledUnits (worker (trim_space wid) (p_db s)) →
  let settled := u64 (SettledUnits row + (if i_delta_units i =? 0 then HMCToUnits (i_delta_hmc i) else i_delta_units i)) in
  settled < two63 → settled - SettledUnits row < two63 → accrued < settled →
  verifyTxIncluded (i_tx_hash i) (an_recover_included an) = true →
  let row' := worker (trim_space wid) (p_db (recover cfg now wid addr row accrued di i an s)) in
  SettledUnits row' = settled ∧
  DeltaUnits (ComputeAccrualDelta accrued (SettledUnits row') (SessionAnchorUnits row')) = 0.
Proof.
  intros Hr Hw Ha Hrow settled Hs Hd Hlt Hv row'. subst row'. unfold recover. rewrite Hv, Hr. cbv zeta. fold settled. cbn [negb].
  destruct (db_do (ApplySettleUnits now wid _ (i_tx_hash i) settled accrued false) s) as [s' [u|e]] eqn:E.
  - unfold db_do in E. destruct (ApplySettleUnits _ _ _ _ _ _ _ _) as [[a d']|] eqn:Eop; [|done]. injection E as <- <-.
    pose proof (pview_export_try (trim_space wid) cfg (with_db d' s)) as Ev. apply (f_equal v_paid) in Ev. cbn [pview view v_paid pl_paid hmc_pay] in Ev.
    apply ApplySettleUnits_row in Eop as [E1 E2].
    change (p_db (mark_settled 0 (export_try cfg (with_db d' s)))) with (p_db (export_try cfg (with_db d' s))).
    rewrite export_try_anchor. unfold pview, view in Ev. cbn in Ev. cbn [with_db p_db]. rewrite E2.
    assert (E1' : SettledUnits (worker (trim_space wid) (p_db (export_try cfg (with_db d' s)))) = settled) by congruence.
    rewrite E1'. split; [done|]. unfold ComputeAccrualDelta. rewrite (proj2 (Z.ltb_lt _ _) Hlt).
    case_match; cbn; rewrite Z.ltb_irrefl; done.
  - exfalso. unfold db_do in E. destruct (ApplySettleUnits _ _ _ _ _ _ _ _) as [[a d']|] eqn:Eop; [done|].
    unfold ApplySettleUnits, bind, guard, get, sql_arg, modify in Eop. apply String.eqb_neq in Hw. rewrite Hw in Eop. cbn in Eop.
    rewrite <- Hrow in Eop. unfold guard in Eop.
    rewrite (proj2 (Z.ltb_lt settled two63) Hs), (proj2 (Z.ltb_lt accrued two63)) in Eop by lia.
    assert (Hdd : ((if SettledUnits row <? settled then settled - SettledUnits row else 0) <? two63) = true).
    { apply Z.ltb_lt. clearbody settled. unfold two63 in *. destruct (_ <? settled); lia. }
    rewrite Hdd in Eop. done.
Qed.

(** A worker credited 100 units whose counter restarted, anchored at 10, with a stamped intent of 12. *)
Definition reset_pass : Pass :=
  with_db (run (ApplySettleUnits 7 "w1" "addrA" "h0" 100 10 false ;;; SetPendingUnits 8 "w1" "addrA" 12 5 ;;;
    AttachTxHash "w1" "h1") (p_db toy_pass)) toy_pass.
Definition reset_intent : Intent := mkIntent (UnitsToHMC 12) 12 "addrA" "h1" 5.
Definition recover_answers : Answers :=
  mkAnswers true (mkNodeView (Err "") (λ _, Err "") (Err "")) (Err "") (Err "") (Err "")
    (λ _, mkResp "" false "" "") (λ _, Err "") (Err "") (Err "") false.

Lemma recover_forgets_remainder_witness :
  let row := worker "w1" (p_db reset_pass) in
  let di := ComputeAccrualDelta 40 (SettledUnits row) (SessionAnchorUnits row) in
  let row' := worker "w1" (p_db (recover toy_settle_cfg 9 "w1" "addrA" row 40 di reset_intent recover_answers reset_pass)) in
  DeltaUnits di = 30 ∧ PendingJSON row = Some reset_intent ∧
  SettledUnits row' = 112 ∧ DeltaUnits (ComputeAccrualDelta 40 (SettledUnits row') (SessionAnchorUnits row')) = 0.
Proof.
  cbv zeta. split; [vm_compute; reflexivity|]. split; [vm_compute; reflexivity|].
  exact (recover_forgets_remainder toy_settle_cfg 9 "w1" "addrA" (worker "w1" (p_db reset_pass)) 40
    (ComputeAccrualDelta 40 (SettledUnits (worker "w1" (p_db reset_pass))) (SessionAnchorUnits (worker "w1" (p_db reset_pass))))
    reset_intent recover_answers reset_pass ltac:(vm_compute; reflexivity) ltac:(discriminate) ltac:(vm_compute; split; congruence)
    ltac:(vm_compute; reflexivity) ltac:(vm_compute; reflexivity) ltac:(vm_compute; reflexivity) ltac:(vm_compute; reflexivity)
    ltac:(vm_compute; reflexivity)).
Defined.

(** A worker credited 100 SUP units in an earlier session, anchored at 40; the JSON mirror agrees. *)
Definition sup_reset_pass : Pass :=
  export_try toy_settle_cfg (with_db (run (ApplySettleSUPUnits 7 "w1" "addrA" "h0" 100 40 false) (p_db toy_pass)) toy_pass).
Definition sup_toy_cfg : SUPConfig := mkSUPConfig "state.json" 1 0 100 ∅ ∅ false.
Definition sup_no_answers : SUPAnswers :=
  mkSUPAnswers (Err "") (Err "") (false, false) (Err "") (mkResp "" false "" "") (Err "") (Err "") false.
Definition sup_turn_then_export (v : f64) (s : Pass) : Pass :=
  export_try toy_settle_cfg (settle_worker_sup sup_toy_cfg 8 "payer" "w1" toy_accrual v sup_no_answers s).

(** After a second restart of the coordinator's counter a worker's SUP accrual is stranded.  The turn anchors the new session at the lower accrual
    (5 units), as it does for HMC, but the export that ends the pass copies the higher anchor of the JSON file (40) back into
    the ledger; from then on every accrual up to 40 re-anchors and owes nothing, where 25 units are owed. *)
Theorem export_restores_sup_anchor :
  let s1 := settle_worker_sup sup_toy_cfg 8 "payer" "w1" toy_accrual (UnitsToHMC 5) sup_no_answers sup_reset_pass in
  let s2 := sup_turn_then_export (UnitsToHMC 5) sup_reset_pass in
  let owed s := DeltaUnits (ComputeAccrualDelta 30 (SettledSUPUnits (worker "w1" (p_db s))) (SessionAnchorSUPU (worker "w1" (p_db s)))) in
  SessionAnchorSUPU (worker "w1" (p_db s1)) = 5 ∧ owed s1 = 25 ∧
  SessionAnchorSUPU (worker "w1" (p_db s2)) = 40 ∧ owed s2 = 0 ∧
  (let s3 := sup_turn_then_export (UnitsToHMC 30) s2 in p_sent s3 = [] ∧ SessionAnchorSUPU (worker "w1" (p_db s3)) = 40).
Proof. vm_compute. repeat split; reflexivity. Qed.
