(* ===== verification/PoolCfg.v ===== *)
(** Configuration of pool campaigns and the decisions taken from it.

    Sources: internal/poolfuzz/config.go, settler.go, marketplace_filter.go, hunt_shard.go,
    hunt_engine.go, replay_policy.go, pool_exec.go, service.go (campaignClaimTier), lease_churn.go.
    A configuration is the decoded [config_json]; arrays, objects and null fall into the default
    branch of every reader and are one value [JOther]. *)
From S2P Require Import Prelude Float64 GoText GoNum Json.

Inductive jv := JS (s : string) | JB (b : bool) | JF (x : f64) | JOther.
Notation Cfg := (gmap string jv).

Definition str_in (s : string) (l : list string) : bool := existsb (String.eqb s) l.
Definition norm (s : string) : string := trim_space (to_lower s).
Definition norm' (s : string) : string := to_lower (trim_space s).

(** * Reading values (config.go, settler.go, settle_outbox.go, relay_settler.go) *)

Definition jsonString (v : option jv) : string :=
  match v with Some (JS s) => s | Some (JB b) => if b then "true" else "false" | _ => "" end.
Definition intFromJSON (v : option jv) : Z :=
  match v with Some (JF x) => f_to_int64 x | _ => 0 end.

Definition poolDistributed (cfg : Cfg) : bool :=
  existsb (λ k, str_in (norm (jsonString (cfg !! k))) ["1"; "true"; "yes"; "on"])
    ["pool_distributed"; "pool_workers"; "distributed_pool"]%string.

Definition escrowEnabled (cfg : Cfg) : bool :=
  match cfg !! "budget_hmc"%string with Some (JF x) => f_ltb (f_of_Z 0) x | _ => false end.

Definition truthy (v : jv) : bool :=
  match v with
  | JB b => b
  | JS s => str_in (norm s) ["1"; "true"; "yes"; "on"]
  | JF x => negb (f_eqb x (f_of_Z 0))
  | JOther => false
  end.
Definition configTruthyAny (cfg : Cfg) (key : string) : bool :=
  match cfg !! key with
  | Some (JS s) => str_in (norm' s) ["1"; "true"; "yes"; "on"]
  | Some v => truthy v
  | None => false
  end.

(** * What a campaign is *)

Definition IsHuntCampaign (cfg : Cfg) : bool :=
  equal_fold (trim_space (jsonString (cfg !! "work_kind"%string))) "hunt_shard"
  || equal_fold (trim_space (jsonString (cfg !! "campaign_type"%string))) "hunt".

Definition internal_gate_flag (cfg : Cfg) : bool :=
  match cfg !! "internal_gate"%string with
  | Some (JB b) => b
  | Some (JS x) => equal_fold (trim_space x) "true" || String.eqb (trim_space x) "1"
  | Some (JF x) => negb (f_eqb x (f_of_Z 0))
  | _ => false
  end.

Definition any_prefix (s : string) (ps : list string) : bool := existsb (has_prefix s) ps.

Definition IsInternalGateCampaign (id title ownerRef : string) (cfg : Cfg) : bool :=
  let id := norm id in let title := norm title in let ownerRef := norm ownerRef in
  let pr := norm (jsonString (cfg !! "payer_ref"%string)) in
  if String.eqb id "" && String.eqb title "" && String.eqb ownerRef "" then false
  else if internal_gate_flag cfg then true
  else any_prefix id ["pool-sync-gate"] || str_contains id "pool-sync-gate"
    || any_prefix id ["pool-sync-node-"] || has_suffix id "-probe" || str_contains id "-probe-"
    || any_prefix id ["campaign-gate-"; "probe-"; "probe"; "l1v4-"; "campaign-customer-up-"; "test-"; "verify-"]
    || str_contains title "penny" || str_contains title "customer smoke"
    || str_in title ["pool-sync-gate"; "probe"; "gate-audit"]
    || (str_contains title "pool sync" && str_contains title "gate")
    || any_prefix ownerRef ["gate:"; "tier-gate:"; "tier:"]
    || any_prefix title ["tier-gate"; "tier-debug"; "tier-audit"]
    || any_prefix pr ["gate:"] || any_prefix pr ["tier-gate:"; "tier:"].

Definition IsMarketplaceCampaign (status id title ownerRef : string) (cfg : Cfg) : bool :=
  str_in (norm status) ["planned"; "running"] && negb (IsInternalGateCampaign id title ownerRef cfg).

Definition IsPublicProgressVisible (status id title ownerRef : string) (cfg : Cfg) : bool :=
  negb (IsInternalGateCampaign id title ownerRef cfg) && poolDistributed cfg
  && str_in (norm status) ["planned"; "running"; "completed"; "cancelled"].

Definition IsActivelyDiggable (campaignStatus escrowStatus : string) (runsDone budgetRuns : Z) : bool :=
  str_in (norm campaignStatus) ["planned"; "running"]
  && negb (str_in (norm escrowStatus) ["closed"; "bounty_paid"])
  && negb ((0 <? budgetRuns) && (budgetRuns <=? runsDone)).

Inductive ClaimTier := TierCustomer | TierBootstrap | TierOther.
Definition campaignClaimTier (id title ownerRef : string) : ClaimTier :=
  let id := norm' id in let title := norm' title in let owner := norm' ownerRef in
  if str_contains id "bootstrap" || str_contains title "bootstrap" || has_prefix owner "bootstrap:" then TierBootstrap
  else if has_prefix id "hunt-customer-" || str_contains title "customer hunt" || has_prefix owner "customer:" then TierCustomer
  else if negb (String.eqb owner "")
    && negb (any_prefix owner ["qa:"; "e2e:"; "fleet:"; "diag:"; "test:"; "matrix:"; "founder:"]) then TierCustomer
  else TierOther.

(** * Bounties and engine pay *)

Definition bountySeverity (sev : string) : bool := str_in (norm sev) ["medium"; "high"; "critical"].
Definition huntBountyEligible (cfg : Cfg) (sev : string) : bool :=
  if IsHuntCampaign cfg then str_in (norm sev) ["critical"; "high"] else bountySeverity sev.

Inductive PayKind := PayNone | PayFloor | PayEdges | PayCrash.
Definition DecideHuntEnginePay (provenEdges seedsAccepted crashesOK minerEdges : Z) (minerEdgesOK : bool) : PayKind * bool :=
  if 0 <? crashesOK then (PayCrash, true)
  else if 0 <? provenEdges then (PayEdges, true)
  else if (0 <? seedsAccepted) && (provenEdges =? 0) then (PayFloor, false)
  else (PayFloor, false).

Definition huntEdgePayFloorOnly (cfg : Cfg) : bool :=
  equal_fold (trim_space (jsonString (cfg !! "hunt_edge_pay"%string))) "floor_only".

Definition DecideHuntEnginePayForConfig (cfg : Cfg) (provenEdges seedsAccepted crashesOK minerEdges : Z)
    (minerEdgesOK : bool) : PayKind * bool :=
  let '(kind, fullPay) := DecideHuntEnginePay provenEdges seedsAccepted crashesOK minerEdges minerEdgesOK in
  if negb (huntEdgePayFloorOnly cfg) then (kind, fullPay)
  else match kind with PayCrash => if fullPay then (kind, fullPay) else (PayFloor, false) | _ => (PayFloor, false) end.

Definition IsCrashClass (findingType : string) : bool :=
  let ft := norm findingType in
  if String.eqb ft "" then false
  else str_in ft ["crash"; "hang"; "timeout"; "timeout_hang"; "asan"; "ubsan"; "msan"; "tsan"; "memory"; "memory_error";
                  "leak"; "oom"; "segfault"; "sigsegv"; "abort"; "native_crash"; "heap_overflow"; "stack_overflow"; "use_after_free"]
    || existsb (str_contains ft) ["crash"; "hang"; "asan"; "ubsan"; "msan"; "tsan"; "segfault"; "sigsegv"; "oom"; "leak";
                                  "memory"; "timeout"; "abort"].

(** * Check semantics (fuzzengine/engine.go) *)

Inductive CheckSemantics := SemanticsPoWGate | SemanticsDetector.
(** [toString] of a float is a number, never one of the names. *)
Definition ParseCheckSemantics (cfg : Cfg) : CheckSemantics :=
  if str_in (norm (jsonString (cfg !! "check_semantics"%string))) ["detector"; "security"; "violation_detector"]
  then SemanticsDetector else SemanticsPoWGate.

(** [execErr] is whether the run trapped. *)
Definition EvalCheck (sem : CheckSemantics) (checkRet : Z) (execErr : bool) : bool * bool :=
  if execErr then (false, true)
  else match sem with
       | SemanticsDetector => if negb (checkRet =? 0) then (false, true) else (true, false)
       | SemanticsPoWGate => if checkRet =? 0 then (false, true) else (true, false)
       end.

(** * Settings and leases *)

Definition clamp_setting (raw : string) (dflt lo hi : Z) : Z :=
  let v := trim_space raw in
  if String.eqb v "" then dflt
  else match atoi v with Some n => if n <? lo then lo else if hi <? n then hi else n | None => dflt end.
Definition maxLeaseChurnAttempts (raw : string) : Z :=
  let v := trim_space raw in
  if String.eqb v "" then 8
  else match atoi v with None => 8 | Some n => if n <? 2 then 8 else if 64 <? n then 64 else n end.
Definition stalledNearDoneSec (raw : string) : Z :=
  let v := trim_space raw in
  if String.eqb v "" then 1800
  else match atoi v with None => 1800 | Some n => if n <? 120 then 1800 else if 86400 <? n then 86400 else n end.

(** [engine] is the lease of the coverage engine of a Hunt campaign, if it has one. *)
Definition leaseSecondsForConfig (cfg : Cfg) (engine : option Z) (execPer timeoutMS : Z) : Z :=
  let hunt := IsHuntCampaign cfg in
  match (if hunt then engine else None) with
  | Some eng =>
      let sec := Z.max (eng * 2) (eng + 120) in
      let sec := if sec <? 120 then 120 else sec in if 360 <? sec then 360 else sec
  | None =>
      let execPer := if execPer <? 1 then 1 else execPer in
      let timeoutMS := if hunt then 3000 else if timeoutMS <=? 0 then 300 else timeoutMS in
      let long := negb hunt && (32 <=? execPer) in
      let sec := Z.quot (execPer * timeoutMS) 1000 + (if long then 90 else 60) in
      let minSec := if long then 90 else 30 in
      if sec <? minSec then minSec
      else let maxSec := if hunt then 360 else 600 in if maxSec <? sec then maxSec else sec
  end.

(** * Hunt claims *)

Definition huntClaimRank (checkResult : Z) (trap : string) : Z :=
  let trap := trim_space trap in
  if negb (checkResult =? 0) && has_prefix trap "hunt_crash:" then 2
  else if negb (checkResult =? 0) && has_prefix trap "hunt_sanitizer:" then 1 else 0.
Definition huntClaimChanged (oldCR : Z) (oldTrap : string) (newCR : Z) (newTrap : string) : bool :=
  negb (oldCR =? newCR) || negb (String.eqb (trim_space oldTrap) (trim_space newTrap)).

(** Retry marker ["retry:N:msg"] in [last_error]. *)
Definition huntReplayMaxRetries : Z := 8.
Fixpoint upto_colon (s acc : string) : option string :=
  match s with
  | EmptyString => None
  | String c r => if (nat_of_ascii c =? 58)%nat then Some acc else upto_colon r (acc +:+ String c EmptyString)
  end.
Definition huntReplayRetryCount (lastError : string) : Z :=
  if negb (has_prefix lastError "retry:") then 0
  else match upto_colon (trim_prefix lastError "retry:") "" with
       | Some d => if String.eqb d "" then 0 else match atoi d with Some n => if n <? 0 then 0 else n | None => 0 end
       | None => 0
       end.
Definition huntReplayRetryable (err : string) : bool :=
  existsb (str_contains (to_lower err))
    ["sqlite_busy"; "database is locked"; "context deadline"; "context canceled"; "exec timeout"; "signal: killed";
     "text file busy"; "resource temporarily"; "poolfuzz: settle"; "finalize escrow"].

