(* ===== verification/PoolBase.v ===== *)
(** Tables of the coordinator's fuzz pool and the statements that change them.

    Sources: internal/store/sqlite.go (fuzz_campaigns, fuzz_work_items, fuzz_settle_outbox,
    fuzz_hunt_replay_queue, fuzz_findings), internal/poolfuzz/service.go (Service), hunt_engine.go.

    A pool operation is a sequence of SQL statements, each committed on its own, so an error keeps
    what was written before it: [act].  A table is the list of its rows in the order of their
    AUTOINCREMENT ids; [UPDATE ... WHERE] maps the list and returns the number of affected rows.
    Statements of this component do not fail; [Err] is an error the code itself returns. *)
From S2P Require Import Prelude PoolCfg.

(** * Rows *)

Inductive WorkStatus := WPending | WLeased | WReplay | WDone | WCancelled.
Inductive RunSt := RunNone | RunPending | RunQueued | RunPendingFloor | RunQueuedFloor | RunPaid.
Inductive FindSt := FindNone | FindPending | FindQueued | FindPaid.
Inductive ObSt := ObPending | ObApplied.
Inductive ReplaySt := RPending | RProcessing | RDone | RFailed.

#[global] Instance WorkStatus_dec : EqDecision WorkStatus. Proof. solve_decision. Defined.
#[global] Instance RunSt_dec : EqDecision RunSt. Proof. solve_decision. Defined.
#[global] Instance FindSt_dec : EqDecision FindSt. Proof. solve_decision. Defined.
#[global] Instance ObSt_dec : EqDecision ObSt. Proof. solve_decision. Defined.
#[global] Instance ReplaySt_dec : EqDecision ReplaySt. Proof. solve_decision. Defined.

Definition st_in {A} `{EqDecision A} (x : A) (l : list A) : bool := bool_decide (x ∈ l).
Definition run_open (r : RunSt) : bool := st_in r [RunPending; RunQueued; RunPendingFloor; RunQueuedFloor].
Definition is_floor (r : RunSt) : bool := st_in r [RunPendingFloor; RunQueuedFloor].
Definition find_open (f : FindSt) : bool := st_in f [FindPending; FindQueued].

Record Campaign := mkCampaign {
  c_id : string; c_type : string; c_status : string; c_title : string; c_desc : string; c_owner : string;
  c_budget_runs : Z; c_budget_seconds : Z; c_cfg : Cfg; c_runs_done : Z;
  c_created : Z; c_started : Z; c_completed : Z;
}.

(** The columns of a work item, by what they are for: the queue, the payment, the proofs. *)
Record QueueCols := mkQueue {
  q_status : WorkStatus; attempts : Z; last_error : string; lease_owner : string; lease_until : Z;
  result_ok : bool; duration_ms : Z; updated_at : Z;
}.
Record PayCols := mkPay {
  miner_address : string; run_status : RunSt; find_status : FindSt; find_severity : string;
  run_outbox : Z; find_outbox : Z;
}.
Record Proven := mkProven { p_seeds : Z; p_edges : Z; p_crashes : Z; p_engine : string; p_version : string }.
Definition no_proof : Proven := mkProven 0 0 0 "" "".

Record WorkItem := mkItem {
  w_id : Z; w_campaign : string; input_n : Z;
  w_q : QueueCols; w_pay : PayCols; w_expected : option (Z * string); is_canary : bool; w_proven : Proven;
}.
Definition w_status (w : WorkItem) : WorkStatus := q_status (w_q w).
Definition w_run (w : WorkItem) : RunSt := run_status (w_pay w).
Definition on_queue (f : QueueCols → QueueCols) (w : WorkItem) : WorkItem :=
  mkItem (w_id w) (w_campaign w) (input_n w) (f (w_q w)) (w_pay w) (w_expected w) (is_canary w) (w_proven w).
Definition on_pay (f : PayCols → PayCols) (w : WorkItem) : WorkItem :=
  mkItem (w_id w) (w_campaign w) (input_n w) (w_q w) (f (w_pay w)) (w_expected w) (is_canary w) (w_proven w).
Definition with_proven (p : Proven) (w : WorkItem) : WorkItem :=
  mkItem (w_id w) (w_campaign w) (input_n w) (w_q w) (w_pay w) (w_expected w) (is_canary w) p.
Definition with_expected (u : Z) (b : string) (w : WorkItem) : WorkItem :=
  mkItem (w_id w) (w_campaign w) (input_n w) (w_q w) (w_pay w) (Some (u, b)) (is_canary w) (w_proven w).
Definition with_canary (w : WorkItem) : WorkItem :=
  mkItem (w_id w) (w_campaign w) (input_n w) (w_q w) (w_pay w) (w_expected w) true (w_proven w).

(** One row of the settle outbox. *)
Record OutItem := mkOut {
  oi_id : Z; oi_campaign : string; oi_kind : string; oi_miner : string; oi_severity : string;
  oi_status : ObSt; oi_created : Z; oi_applied : Z; oi_work : Z;
}.
Definition oi_key (r : OutItem) : string * string * string * string * Z :=
  (oi_campaign r, oi_kind r, oi_miner r, oi_severity r, oi_work r).

Record ReplayRow := mkReplay {
  rr_id : Z; rr_campaign : string; rr_item : Z; rr_worker : string; rr_miner : string; rr_input : Z;
  rr_check : Z; rr_trap : string; rr_exec : Z; rr_duration : Z;
  rr_status : ReplaySt; rr_error : string; rr_verifier : string; rr_created : Z; rr_updated : Z;
}.
Definition on_job (st : ReplaySt) (err : string → string) (verifier : string → string) (now : Z) (r : ReplayRow) : ReplayRow :=
  mkReplay (rr_id r) (rr_campaign r) (rr_item r) (rr_worker r) (rr_miner r) (rr_input r) (rr_check r) (rr_trap r)
    (rr_exec r) (rr_duration r) st (err (rr_error r)) (verifier (rr_verifier r)) (rr_created r) now.

(** [f_miner], [f_worker] and [f_item] are the fields of [detail_json] that are read back; [f_item] is [item_id]. *)
Record Finding := mkFinding {
  f_id : string; f_campaign : string; f_type : string; f_sev : string; f_created : Z; f_miner : string; f_worker : string; f_item : Z;
}.

(** * The service: the database, and the counters and caches in memory *)

Record Pool := mkPool {
  campaigns : list Campaign; items : list WorkItem; item_seq : Z;
  outbox : list OutItem; outbox_seq : Z; replays : list ReplayRow; replay_seq : Z; findings : list Finding;
  lease_proven : gmap (string * Z) Proven;
  claimRR : Z; tickRR : Z; staleSweepN : Z;
  emptyClaimUntil : Z; sched : option (Z * list string * list string);
}.
Definition empty_pool : Pool := mkPool [] [] 0 [] 0 [] 0 [] ∅ 0 0 0 0 None.

Definition set_campaigns f (p : Pool) : Pool :=
  mkPool (f (campaigns p)) (items p) (item_seq p) (outbox p) (outbox_seq p) (replays p) (replay_seq p) (findings p)
    (lease_proven p) (claimRR p) (tickRR p) (staleSweepN p) (emptyClaimUntil p) (sched p).
Definition set_items f (p : Pool) : Pool :=
  mkPool (campaigns p) (f (items p)) (item_seq p) (outbox p) (outbox_seq p) (replays p) (replay_seq p) (findings p)
    (lease_proven p) (claimRR p) (tickRR p) (staleSweepN p) (emptyClaimUntil p) (sched p).
Definition set_item_seq n (p : Pool) : Pool :=
  mkPool (campaigns p) (items p) n (outbox p) (outbox_seq p) (replays p) (replay_seq p) (findings p)
    (lease_proven p) (claimRR p) (tickRR p) (staleSweepN p) (emptyClaimUntil p) (sched p).
Definition set_outbox f n (p : Pool) : Pool :=
  mkPool (campaigns p) (items p) (item_seq p) (f (outbox p)) n (replays p) (replay_seq p) (findings p)
    (lease_proven p) (claimRR p) (tickRR p) (staleSweepN p) (emptyClaimUntil p) (sched p).
Definition set_replays f n (p : Pool) : Pool :=
  mkPool (campaigns p) (items p) (item_seq p) (outbox p) (outbox_seq p) (f (replays p)) n (findings p)
    (lease_proven p) (claimRR p) (tickRR p) (staleSweepN p) (emptyClaimUntil p) (sched p).
Definition set_findings f (p : Pool) : Pool :=
  mkPool (campaigns p) (items p) (item_seq p) (outbox p) (outbox_seq p) (replays p) (replay_seq p) (f (findings p))
    (lease_proven p) (claimRR p) (tickRR p) (staleSweepN p) (emptyClaimUntil p) (sched p).
Definition set_mem m cr tr sw eu sc (p : Pool) : Pool :=
  mkPool (campaigns p) (items p) (item_seq p) (outbox p) (outbox_seq p) (replays p) (replay_seq p) (findings p)
    m cr tr sw eu sc.
Definition set_proven m (p : Pool) : Pool :=
  set_mem m (claimRR p) (tickRR p) (staleSweepN p) (emptyClaimUntil p) (sched p) p.
Definition set_claimRR n (p : Pool) : Pool :=
  set_mem (lease_proven p) n (tickRR p) (staleSweepN p) (emptyClaimUntil p) (sched p) p.
Definition set_tickRR n (p : Pool) : Pool :=
  set_mem (lease_proven p) (claimRR p) n (staleSweepN p) (emptyClaimUntil p) (sched p) p.
Definition set_sweep n (p : Pool) : Pool :=
  set_mem (lease_proven p) (claimRR p) (tickRR p) n (emptyClaimUntil p) (sched p) p.
Definition set_empty n (p : Pool) : Pool :=
  set_mem (lease_proven p) (claimRR p) (tickRR p) (staleSweepN p) n (sched p) p.
Definition set_sched c (p : Pool) : Pool :=
  set_mem (lease_proven p) (claimRR p) (tickRR p) (staleSweepN p) (emptyClaimUntil p) c p.

(** * Statements *)

Notation pool_act := (act Pool).

Definition upd {R} (test : R → bool) (f : R → R) (l : list R) : list R := map (λ r, if test r then f r else r) l.
Definition hits {R} (test : R → bool) (l : list R) : Z := Z.of_nat (length (List.filter test l)).

(** [UPDATE fuzz_work_items SET ... WHERE ...] and [RowsAffected]. *)
Definition update_items (test : WorkItem → bool) (f : WorkItem → WorkItem) : pool_act Z :=
  λ p, (Ok (hits test (items p)), set_items (upd test f) p).
Definition update_campaigns (test : Campaign → bool) (f : Campaign → Campaign) : pool_act Z :=
  λ p, (Ok (hits test (campaigns p)), set_campaigns (upd test f) p).
Definition update_outbox (test : OutItem → bool) (f : OutItem → OutItem) : pool_act Z :=
  λ p, (Ok (hits test (outbox p)), set_outbox (upd test f) (outbox_seq p) p).
Definition update_replays (test : ReplayRow → bool) (f : ReplayRow → ReplayRow) : pool_act Z :=
  λ p, (Ok (hits test (replays p)), set_replays (upd test f) (replay_seq p) p).

Definition campaign_is (cid : string) (c : Campaign) : bool := String.eqb (c_id c) cid.
Definition is_item (cid : string) (id : Z) (w : WorkItem) : bool := (w_id w =? id) && String.eqb (w_campaign w) cid.
Definition of_campaign (cid : string) (w : WorkItem) : bool := String.eqb (w_campaign w) cid.
Definition status_in (l : list WorkStatus) (w : WorkItem) : bool := st_in (w_status w) l.

Definition get_campaign (cid : string) (p : Pool) : option Campaign := List.find (campaign_is cid) (campaigns p).
Definition get_item (cid : string) (id : Z) (p : Pool) : option WorkItem := List.find (is_item cid id) (items p).
Definition count_items (test : WorkItem → bool) (p : Pool) : Z := hits test (items p).
Definition active (c : Campaign) : bool := str_in (c_status c) ["planned"; "running"].
(** [json_extract(config_json, '$.pool_distributed') IN (1, 'true', '1')] *)
Definition sql_pool_distributed (c : Campaign) : bool :=
  match c_cfg c !! "pool_distributed"%string with
  | Some (JB b) => b
  | Some (JS s) => str_in s ["true"; "1"]
  | Some (JF x) => Float64.f_eqb x (Float64.f_of_Z 1)
  | _ => false
  end.
