(* ===== verification/PoolOutbox.v ===== *)
(** The settle outbox: durable payments a coordinator owes through the origin nodes.

    Sources: internal/poolfuzz/settle_outbox.go, settler.go, relay_settler.go.  An HTTP answer of an
    origin node is an argument of the relay: whether it was a 200 whose body says ok. *)
From S2P Require Import Prelude PoolCfg GoText PoolBase.

(** * Rows *)

Definition same_key (cid kind miner sev : string) (item : Z) (r : OutItem) : bool :=
  String.eqb (oi_campaign r) cid && String.eqb (oi_kind r) kind && String.eqb (oi_miner r) miner
  && String.eqb (oi_severity r) sev && (oi_work r =? item).

(** One immediate transaction: the row of the key, inserted if there is none. *)
Definition enqueue_row (cid kind miner sev : string) (item now : Z) : pool_act Z := λ p,
  match List.find (same_key cid kind miner sev item) (outbox p) with
  | Some r => (Ok (oi_id r), p)
  | None => let id := outbox_seq p + 1 in
            (Ok id, set_outbox (λ l, l ++ [mkOut id cid kind miner sev ObPending now 0 item]) id p)
  end.

Definition EnqueueSettleOutbox (now : Z) (kind campaignID minerAddress severity : string) (workItemID : Z) : pool_act Z :=
  let kind := norm kind in let campaignID := trim_space campaignID in
  if String.eqb campaignID "" || String.eqb kind "" then afail "poolfuzz: settle outbox missing kind or campaign_id"
  else enqueue_row campaignID kind (trim_space minerAddress) (trim_space severity) (if workItemID <? 0 then 0 else workItemID) now.

Definition ob_pending (r : OutItem) : bool := st_in (oi_status r) [ObPending].
Definition ob_of (cid : string) (r : OutItem) : bool := String.eqb (oi_campaign r) cid.

Definition CountPendingSettleOutbox (campaignID : string) (p : Pool) : result Z :=
  let campaignID := trim_space campaignID in
  if String.eqb campaignID "" then Err "poolfuzz: campaign_id required"
  else Ok (hits (λ r, ob_pending r && ob_of campaignID r) (outbox p)).

Definition out_limit (limit : Z) : Z := if (limit <=? 0) || (500 <? limit) then 64 else limit.
Definition is_finalize (r : OutItem) : bool := String.eqb (oi_kind r) "finalize".
(** [ORDER BY CASE kind WHEN 'finalize' THEN 1 ELSE 0 END, id LIMIT n] *)
Definition pending_of (cid : string) (n : Z) (p : Pool) : list OutItem :=
  let l := List.filter (λ r, ob_pending r && ob_of cid r) (outbox p) in
  take (Z.to_nat n) (List.filter (λ r, negb (is_finalize r)) l ++ List.filter is_finalize l).

Definition ListPendingSettleOutboxForCampaign (campaignID : string) (limit : Z) (p : Pool) : result (list OutItem) :=
  let campaignID := trim_space campaignID in
  if String.eqb campaignID "" then Err "poolfuzz: campaign_id required"
  else Ok (pending_of campaignID (out_limit limit) p).

(** * The fair window over campaigns *)

Definition settleOutboxCampaignScanCap : Z := 512.
Definition settleOutboxCampaignWindow : Z := 32.

Fixpoint distinct (seen l : list string) : list string :=
  match l with
  | [] => []
  | x :: l' => if str_in x seen then distinct seen l' else x :: distinct (x :: seen) l'
  end.
(** [GROUP BY campaign_id ORDER BY MIN(id) LIMIT n] over the pending rows. *)
Definition pending_campaigns (p : Pool) : list string :=
  take (Z.to_nat settleOutboxCampaignScanCap) (distinct [] (map oi_campaign (List.filter ob_pending (outbox p)))).

(** A negative clock reading would be replaced by the current one; callers pass the current one. *)
Definition rotateCampaignWindow (camps : list string) (nowUnix window : Z) : list string :=
  let n := Z.of_nat (length camps) in
  if (window <=? 0) || (n =? 0) then []
  else if n <=? window then camps
  else let start := Z.rem (Z.quot nowUnix 30) n in
       map (λ i, nth (Z.to_nat (Z.rem (start + Z.of_nat i) n)) camps EmptyString) (seq 0 (Z.to_nat window)).

(** One pass of the round robin: at most one more row of every campaign. *)
Fixpoint fair_pass (limit perCamp : nat) (q : string → list OutItem) (order : list string)
    (idx : gmap string nat) (out : list OutItem) (progress : bool) : gmap string nat * list OutItem * bool :=
  match order with
  | [] => (idx, out, progress)
  | cid :: order' =>
      let taken := default 0%nat (idx !! cid) in
      if (perCamp <=? taken)%nat then fair_pass limit perCamp q order' idx out progress
      else match q cid !! taken with
           | None => fair_pass limit perCamp q order' idx out progress
           | Some it =>
               let out := out ++ [it] in let idx := <[cid := S taken]> idx in
               if (limit <=? length out)%nat then (idx, out, true)
               else fair_pass limit perCamp q order' idx out true
           end
  end.
(** Every pass but the last adds a row, so [limit] passes are enough. *)
Fixpoint fair_rounds (fuel limit perCamp : nat) (q : string → list OutItem) (order : list string)
    (idx : gmap string nat) (out : list OutItem) : list OutItem :=
  match fuel with
  | O => out
  | S k => if (limit <=? length out)%nat then out
           else let '(idx', out', progress) := fair_pass limit perCamp q order idx out false in
                if progress then fair_rounds k limit perCamp q order idx' out' else out'
  end.
Fixpoint fair_fill (limit : nat) (seen : gset Z) (items out : list OutItem) : list OutItem :=
  match items with
  | [] => out
  | it :: l => if bool_decide (oi_id it ∈ seen) then fair_fill limit seen l out
               else let out := out ++ [it] in if (limit <=? length out)%nat then out else fair_fill limit seen l out
  end.

Definition row_campaign (it : OutItem) : string := trim_space (oi_campaign it).
Definition queue_of (items : list OutItem) (cid : string) : list OutItem :=
  List.filter (λ it, String.eqb (row_campaign it) cid) items.
Definition cap_share (limit campaigns : Z) : Z :=
  let c := Z.quot limit (Z.min campaigns 8) in let c := if c <? 8 then 8 else c in if limit <? c then limit else c.

Definition fairSettleOutboxWindow (items : list OutItem) (limit : Z) : list OutItem :=
  let n := Z.of_nat (length items) in
  if (limit <=? 0) || (n =? 0) then []
  else if n <=? limit then items
  else
    let order := distinct [] (map row_campaign items) in
    let campaigns := Z.of_nat (length order) in
    let lim := Z.to_nat limit in
    if campaigns <=? 1 then take lim items
    else
      let perCamp := Z.to_nat (cap_share limit campaigns) in
      let out := fair_rounds (S lim) lim perCamp (queue_of items) order ∅ [] in
      if (length out <? lim)%nat then fair_fill lim (list_to_set (map oi_id out)) items out else out.

(** Rows are read campaign by campaign until twice the limit is reached. *)
Fixpoint collect (limit perCamp : Z) (camps : list string) (raw : list OutItem) (p : Pool) : list OutItem :=
  match camps with
  | [] => raw
  | cid :: camps' =>
      if String.eqb cid "" then collect limit perCamp camps' raw p
      else let raw := raw ++ pending_of cid perCamp p in
           if limit * 2 <=? Z.of_nat (length raw) then raw else collect limit perCamp camps' raw p
  end.
Definition campaign_share (limit : Z) (camps : list string) : Z :=
  let n := Z.of_nat (length camps) in if 1 <? n then cap_share limit n else limit.

Definition ListPendingSettleOutbox (now limit : Z) (p : Pool) : list OutItem :=
  let limit := out_limit limit in
  let camps := rotateCampaignWindow (map trim_space (pending_campaigns p)) now settleOutboxCampaignWindow in
  match camps with
  | [] => []
  | _ => fairSettleOutboxWindow (collect limit (campaign_share limit camps) camps [] p) limit
  end.

(** * Acknowledgement *)

Definition mark_run_paid (w : WorkItem) : WorkItem :=
  on_pay (λ c, mkPay (miner_address c) RunPaid (find_status c) (find_severity c) (run_outbox c) (find_outbox c)) w.
Definition mark_find_paid (w : WorkItem) : WorkItem :=
  on_pay (λ c, mkPay (miner_address c) (run_status c) FindPaid (find_severity c) (run_outbox c) (find_outbox c)) w.
Definition ob_set_applied (now : Z) (r : OutItem) : OutItem :=
  mkOut (oi_id r) (oi_campaign r) (oi_kind r) (oi_miner r) (oi_severity r) ObApplied (oi_created r) now (oi_work r).
Definition get_out (id : Z) (p : Pool) : option OutItem := List.find (λ r, oi_id r =? id) (outbox p).

Definition promote_ids (now id : Z) : pool_act unit :=
  update_items (λ w, (run_outbox (w_pay w) =? id) && run_open (w_run w)) mark_run_paid ;!;
  update_items (λ w, (find_outbox (w_pay w) =? id) && find_open (find_status (w_pay w))) mark_find_paid ;!; aret tt.

Definition ack_one (now : Z) (campaignID : string) (requireCampaign : bool) (id : Z) : pool_act Z :=
  if id <=? 0 then aret 0
  else
    let! aff := update_outbox (λ r, (oi_id r =? id) && ob_pending r && (negb requireCampaign || ob_of campaignID r)) (ob_set_applied now) in
    let! p := aget in
    match get_out id p with
    | Some r => if st_in (oi_status r) [ObApplied] && (negb requireCampaign || ob_of campaignID r)
                then promote_ids now id ;!; aret aff else aret aff
    | None => aret aff
    end.
Definition ackSettleOutbox (now : Z) (campaignID : string) (ids : list Z) (requireCampaign : bool) : pool_act Z :=
  acount (ack_one now campaignID requireCampaign) 0 ids.
Definition AckSettleOutbox (now : Z) (ids : list Z) : pool_act Z := ackSettleOutbox now "" ids false.

Definition CampaignConfig (campaignID : string) (p : Pool) : option Cfg := c_cfg <$> get_campaign (trim_space campaignID) p.
Definition CampaignIsOrdersPublish (campaignID : string) (p : Pool) : bool :=
  match CampaignConfig campaignID p with Some cfg => configTruthyAny cfg "orders_publish" | None => false end.
Definition AckSettleOutboxForOrdersPublish (now : Z) (campaignID : string) (ids : list Z) : pool_act Z :=
  let campaignID := trim_space campaignID in
  if String.eqb campaignID "" then afail "poolfuzz: campaign_id required for publish ack"
  else let! p := aget in
       if negb (CampaignIsOrdersPublish campaignID p) then afail "poolfuzz: campaign not orders_publish"
       else ackSettleOutbox now campaignID ids true.

Definition ob_applied (p : Pool) (id : Z) : bool :=
  existsb (λ r, (oi_id r =? id) && st_in (oi_status r) [ObApplied]) (outbox p).
(** The subquery reads the outbox as it is when the statement runs. *)
Definition PromoteAppliedSettleIntents (campaignID : string) : pool_act Z :=
  let campaignID := trim_space campaignID in
  let scope w := String.eqb campaignID "" || of_campaign campaignID w in
  let! p := aget in
  let! n := update_items (λ w, run_open (w_run w) && ob_applied p (run_outbox (w_pay w)) && scope w) mark_run_paid in
  let! m := update_items (λ w, find_open (find_status (w_pay w)) && ob_applied p (find_outbox (w_pay w)) && scope w) mark_find_paid in
  aret (n + m).

(** * Settlers *)

Record SettleResult := mkSettled { OutboxID : Z; Applied : bool }.

(** The [Settler] interface; the last argument of each payment is the outbox row to reuse. *)
Record Settler := mkSettler {
  PayRun : string → string → Z → Z → pool_act SettleResult;
  PayRunFloor : string → string → Z → Z → pool_act SettleResult;
  PayFinding : string → string → string → Z → Z → pool_act SettleResult;
  PayCrashBonus : string → string → Z → Z → pool_act SettleResult;
  Finalize : string → Z → pool_act SettleResult;
}.

Definition NoopSettler : Settler :=
  let ok := aret (mkSettled 0 true) in
  mkSettler (λ _ _ _ _, ok) (λ _ _ _ _, ok) (λ _ _ _ _ _, ok) (λ _ _ _ _, ok) (λ _ _, ok).

Record Relay := mkRelay {
  SkipInlineHTTP : bool;
  DefaultOrdersURL : string;      (** after [safeSettleBaseURL]; empty if it was refused *)
  base_is_loopback : bool;
  relay_token : string;
  origin_ok : OutItem → bool;     (** 200 and ok:true for the event of this row *)
}.

Definition resolveSettleBase (r : Relay) (campaignID : string) (p : Pool) : string * bool :=
  match CampaignConfig campaignID p with
  | None => (DefaultOrdersURL r, base_is_loopback r)
  | Some cfg =>
      match cfg !! "orders_settle_pull"%string with
      | Some v => if truthy v then (EmptyString, true) else (DefaultOrdersURL r, false)
      | None => (DefaultOrdersURL r, base_is_loopback r)
      end
  end.

Definition SettleOutboxStatus (id : Z) (p : Pool) : option ObSt :=
  if id <=? 0 then None else oi_status <$> get_out id p.

(** The posted body names the row; a lost or refused answer leaves the row pending. *)
Definition httpRelayOnce (r : Relay) (now : Z) (kind campaignID minerAddress severity : string) (outboxID item : Z) : pool_act SettleResult :=
  if origin_ok r (mkOut outboxID campaignID kind minerAddress severity ObPending 0 0 item)
  then AckSettleOutbox now [outboxID] ;!; aret (mkSettled outboxID true)
  else aret (mkSettled outboxID false).

Definition relay (r : Relay) (now : Z) (kind campaignID minerAddress severity : string) (workItemID reuseOutboxID : Z) : pool_act SettleResult :=
  let! p := aget in
  match (if 0 <? reuseOutboxID then SettleOutboxStatus reuseOutboxID p else None) with
  | Some ObApplied => aret (mkSettled reuseOutboxID true)
  | st =>
      let! outboxID := match st with
                       | Some ObPending => aret reuseOutboxID
                       | _ => EnqueueSettleOutbox now kind campaignID minerAddress severity workItemID
                       end in
      if SkipInlineHTTP r then aret (mkSettled outboxID false)
      else
        let! p := aget in
        let '(base, pull) := resolveSettleBase r campaignID p in
        if pull || String.eqb base "" || String.eqb (relay_token r) "" then aret (mkSettled outboxID false)
        else httpRelayOnce r now kind campaignID minerAddress severity outboxID workItemID
  end.

Definition RelaySettler (r : Relay) (now : Z) : Settler :=
  mkSettler (λ c m i o, relay r now "run" c m "" i o) (λ c m i o, relay r now "run_floor" c m "" i o)
    (λ c m s i o, relay r now "finding" c m s i o) (λ c m i o, relay r now "crash_bonus" c m "" i o)
    (λ c o, relay r now "finalize" c "" "" 0 o).

Definition is_close (kind : string) : bool := str_in (norm kind) ["finalize"; "close"].
Definition pays_first (l : list OutItem) : list OutItem :=
  List.filter (λ it, negb (is_close (oi_kind it))) l ++ List.filter (λ it, is_close (oi_kind it)) l.

(** Background drain: payments first; a campaign is not closed after a failed payment of the batch. *)
Fixpoint drain_rows (r : Relay) (now : Z) (l : list OutItem) (payFailed : gset string) (attempted applied : Z) : pool_act (Z * Z) :=
  match l with
  | [] => aret (attempted, applied)
  | it :: l' =>
      if is_close (oi_kind it) && bool_decide (oi_campaign it ∈ payFailed) then drain_rows r now l' payFailed attempted applied
      else
        let! p := aget in
        let '(base, pull) := resolveSettleBase r (oi_campaign it) p in
        if pull || String.eqb base "" || String.eqb (relay_token r) "" then drain_rows r now l' payFailed attempted applied
        else
          let! res := httpRelayOnce r now (oi_kind it) (oi_campaign it) (oi_miner it) (oi_severity it) (oi_id it) (oi_work it) in
          if Applied res then drain_rows r now l' payFailed (attempted + 1) (applied + 1)
          else drain_rows r now l' (if is_close (oi_kind it) then payFailed else {[oi_campaign it]} ∪ payFailed) (attempted + 1) applied
  end.
Definition DrainPendingSettleHTTP (r : Relay) (now limit : Z) : pool_act (Z * Z) :=
  let! p := aget in
  drain_rows r now (pays_first (ListPendingSettleOutbox now (if limit <=? 0 then 32 else limit) p)) ∅ 0 0.
