(* ===== verification/PoolVerify.v ===== *)
(** What the coordinator accepts from a worker: the verdict on a submitted work unit.

    Sources: internal/poolfuzz/replay_policy.go, clean_floor.go, hygiene_prove.go, canary.go
    (rejectCanaryMissIfNeeded), hunt_engine.go, hunt_shard.go (evalHunt...), service.go
    (evalSubmitCheck and the Dig branch of SubmitWithOutcome).

    Running a WASM check or a native harness, deriving inputs and merging corpora are arguments
    ([Runs]); the environment is a function from variable names to raw values. *)
From S2P Require Import Prelude PoolCfg GoText GoNum Json Address PoolBase.

(** Constants of the process environment. *)
Definition Getenv := string → string.
Definition setting (env : Getenv) (key : string) : string := norm (env key).
Definition is_off (v : string) : bool := str_in v ["0"; "false"; "no"; "off"].
Definition is_on (v : string) : bool := str_in v ["1"; "true"; "yes"; "on"].
(** On unless switched off by name. *)
Definition default_on (env : Getenv) (key : string) : bool := negb (is_off (setting env key)).
Definition poolFullReplayForced (env : Getenv) : bool := is_on (setting env "HACKME_POOL_FULL_REPLAY").
Definition hygieneProveEnabled (env : Getenv) : bool := default_on env "HACKME_POOL_HYGIENE_PROVE".
Definition cleanFloorEnabled (env : Getenv) : bool := default_on env "HACKME_POOL_CLEAN_FLOOR".
Definition HuntEngineEnabled (env : Getenv) : bool := default_on env "HACKME_HUNT_COVERAGE_ENGINE".
Definition huntReplayAsyncEnabled (env : Getenv) : bool := default_on env "HACKME_POOL_HUNT_REPLAY_ASYNC".
Definition huntEngineFloorPayRunEnabled (env : Getenv) : bool := default_on env "HACKME_HUNT_ENGINE_FLOOR_PAY_RUN".
Definition huntReplayEnabled (env : Getenv) : bool :=
  let v := setting env "HACKME_POOL_HUNT_REPLAY" in String.eqb v "" || is_on v.

(** * Requests and runs *)

Record SubmitRequest := mkSubmit {
  WorkerID : string; MinerAddress : string; CampaignID : string; ItemID : Z; InputN : Z; ActualInput : Z; InputBytes : string;
  CheckResult : Z; DurationMS : Z; Trap : string; SegmentExecDone : Z; EdgesTouched : Z; EdgesTouchedOK : bool;
  HuntEngine : string; EngineVersion : string;
}.
(** [req] as the coordinator rewrites it before it records anything. *)
Definition with_verdict (inputN u : Z) (b : string) (check : Z) (trap : string) (r : SubmitRequest) : SubmitRequest :=
  mkSubmit (WorkerID r) (MinerAddress r) (CampaignID r) (ItemID r) inputN u b check (DurationMS r) trap (SegmentExecDone r)
    (EdgesTouched r) (EdgesTouchedOK r) (HuntEngine r) (EngineVersion r).

(** [EvalSegment]: verdict of a chain of executions. *)
Record SegmentResult := mkSegment {
  sg_check : Z; sg_trap : string; sg_pass : bool; sg_record : bool; sg_u : Z; sg_b : string; ExecDone : Z; ExecExpected : Z;
}.
(** [hunt.ReplayShard] *)
Record ReplayReport := mkReport { rp_crash : bool; rp_security : bool; rp_trap : string; rp_input : string; rp_len : Z }.

Record Runs := mkRuns {
  ExecPerUnit : Cfg → Z; execCap : Z; huntIterationsPerShard : Cfg → Z; ParseMaxInputBytes : Cfg → Z;
  CoverageUsesWasmEdge : Cfg → bool; GuidedSchedulingEnabled : Cfg → bool;
  derivePoolInputs : Z → Cfg → Z * string; HuntShardInput : string → Z → Cfg → Z * string;
  ClampInputBytes : string → Cfg → string; wasm_valid : string → bool;
  run_check : string → Z → string → Z * option string;   (** result, or the text of a trap *)
  EvalSegment : string → Z → Cfg → SegmentResult;
  ReplayShard : string → Z → Cfg → string → result ReplayReport;
  crash_replay : string → Cfg → string → result (bool * string);
  EngineLeaseSec : Cfg → string → Z;
  edges_rate_high : bool;                                 (** auto mode of the clean floor *)
}.

Section verify.
Context `{Crypto} (env : Getenv) (R : Runs).

Definition PoolExecPerUnit (cfg : Cfg) : Z :=
  let n := ExecPerUnit R cfg in if negb (poolDistributed cfg) then n else if execCap R <? n then execCap R else n.

(** * Replay policy *)

Definition digPackageKey (cfg : Cfg) : string :=
  let pkg := norm (jsonString (cfg !! "dig_package"%string)) in
  if str_in pkg ["scan"; "starter"] then "scan" else if str_in pkg ["audit"; "pro"] then "audit"
  else if str_in pkg ["deep"; "enterprise"] then "deep"
  else
    let tier := norm (jsonString (cfg !! "depth_tier"%string)) in
    if str_in tier ["wasm_native"; "wasm+native"; "native"] then "audit"
    else if str_in tier ["bytes_corpus"; "bytes"; "tx_corpus"; "upstream_binary"; "tier_c"; "asan_binary"; "upstream"] then "deep"
    else "scan".

Definition poolReplaySamplePct (cfg : Cfg) : Z :=
  let pct k d := clamp_setting (env k) d 0 100 in
  if IsHuntCampaign cfg then pct "HACKME_POOL_REPLAY_SAMPLE_PCT_HUNT"%string 100
  else if String.eqb (digPackageKey cfg) "scan" then pct "HACKME_POOL_REPLAY_SAMPLE_PCT_SCAN"%string 1
  else if String.eqb (digPackageKey cfg) "deep" then pct "HACKME_POOL_REPLAY_SAMPLE_PCT_DEEP"%string 40
  else pct "HACKME_POOL_REPLAY_SAMPLE_PCT"%string 5.

Definition submitClaimsFinding (sem : CheckSemantics) (req : SubmitRequest) : bool :=
  if negb (String.eqb (trim_space (Trap req)) "") then true else (EvalCheck sem (CheckResult req) false).2.

(** The first four bytes of the digest, big-endian. *)
Definition digest_word (d : string) : Z :=
  match d with
  | String a (String b (String c (String e _))) =>
      ((Z.of_nat (nat_of_ascii a) * 256 + Z.of_nat (nat_of_ascii b)) * 256 + Z.of_nat (nat_of_ascii c)) * 256 + Z.of_nat (nat_of_ascii e)
  | _ => 0
  end.
Definition replaySampleHit (campaignID : string) (itemID pct : Z) : bool :=
  if pct <=? 0 then false else if 100 <=? pct then true
  else
    let seed := trim_space (env "HACKME_POOL_REPLAY_SAMPLE_SEED") in
    digest_word (sha256 (trim_space campaignID +:+ "|" +:+ fmt_int itemID +:+ "|" +:+ seed)) mod 100 <? pct.

Definition decidePoolReplay (cfg : Cfg) (sem : CheckSemantics) (req : SubmitRequest) (execPer : Z) : bool * string :=
  let hunt := IsHuntCampaign cfg in
  let claims := submitClaimsFinding sem req in
  let pct := poolReplaySamplePct cfg in
  if negb (poolDistributed cfg) then (true, "full")
  else if poolFullReplayForced env then (true, "always_env")
  else if (execPer <=? 1) && negb hunt then (true, "single_exec")
  else if hunt then
    if claims && default_on env "HACKME_POOL_REPLAY_CRASH_ALWAYS" then (true, "crash_claim")
    else if claims then (true, "finding_claim")
    else if replaySampleHit (CampaignID req) (ItemID req) pct then (true, "sample")
    else if 100 <=? pct then (true, "hunt_full") else (false, "hygiene_skip")
  else if claims then (true, if negb (String.eqb (trim_space (Trap req)) "") then "crash_claim" else "finding_claim")
  else if replaySampleHit (CampaignID req) (ItemID req) pct then (true, "sample")
  else (false, "hygiene_skip").

(** * Clean floor *)

Definition cleanEdgesRequireActive : bool :=
  let v := setting env "HACKME_POOL_CLEAN_EDGES_REQUIRE" in
  if String.eqb v "auto" then edges_rate_high R else negb (is_off v).

Definition checkCleanHygieneFloor (req : SubmitRequest) (execPer : Z) (cfg : Cfg) : result unit :=
  if negb (cleanFloorEnabled env) || (execPer <=? 1) then Ok tt
  else
    let bitmap := CoverageUsesWasmEdge R cfg in
    let minDur := clamp_setting (env "HACKME_POOL_CLEAN_MIN_DURATION_MS") 1 0 600000 in
    let msPer := clamp_setting (env "HACKME_POOL_CLEAN_MIN_MS_PER_EXEC") (if cleanEdgesRequireActive then 1 else 0) 0 1000 in
    let need := if 0 <? msPer then Z.max minDur (execPer * msPer) else minDur in
    if DurationMS req <? need then Err "poolfuzz: clean_floor: duration_ms below floor"
    else if negb bitmap then Ok tt
    else
      let pkg := norm (jsonString (cfg !! "dig_package"%string)) in
      let deep := str_in (if String.eqb pkg "" then digPackageKey cfg else pkg) ["deep"; "enterprise"] in
      let minEdges := if deep then clamp_setting (env "HACKME_POOL_CLEAN_MIN_EDGES_DEEP") 2 0 100000
                      else clamp_setting (env "HACKME_POOL_CLEAN_MIN_EDGES") 1 0 100000 in
      if minEdges <=? 0 then Ok tt
      else if negb (EdgesTouchedOK req) then
        if cleanEdgesRequireActive then Err "poolfuzz: clean_floor: edges_touched required for wasm_edge_bitmap CLEAN" else Ok tt
      else if EdgesTouched req <? minEdges then Err "poolfuzz: clean_floor: edges_touched below floor" else Ok tt.

(** * Dig: WASM checks *)

Definition wasmHexFromConfig (cfg : Cfg) : string := trim_space (jsonString (cfg !! "wasm_check_hex"%string)).
Definition is_trap (o : option string) : bool := match o with Some _ => true | None => false end.
Definition trap_text (o : option string) : string := default EmptyString o.

Record Verdict := mkVerdict { v_check : Z; v_trap : string; v_pass : bool; v_record : bool; v_u : Z; v_b : string }.

(** The verdict and whether the segment ran to its end. *)
Definition evalSubmitCheck (cfg : Cfg) (sem : CheckSemantics) (inputN inputU : Z) (inputB : string) : result (Verdict * bool) :=
  let wasm := wasmHexFromConfig cfg in
  if String.eqb wasm "" then
    if escrowEnabled cfg && negb (IsHuntCampaign cfg) then Err "poolfuzz: escrow campaign requires wasm_check_hex"
    else Ok (mkVerdict 0 "" true false inputU inputB, true)
  else if negb (wasm_valid R wasm) then Err "poolfuzz: invalid campaign wasm"
  else if PoolExecPerUnit cfg <=? 1 then
    let '(ret, err) := run_check R wasm inputU (ClampInputBytes R inputB cfg) in
    let '(pass, record) := EvalCheck sem (if is_trap err then 0 else ret) (is_trap err) in
    Ok (mkVerdict (if is_trap err then 0 else ret) (trap_text err) pass record inputU inputB, true)
  else
    let sg := EvalSegment R wasm inputN cfg in
    Ok (mkVerdict (sg_check sg) (sg_trap sg) (sg_pass sg) (sg_record sg)
          (if sg_record sg then sg_u sg else inputU) (if sg_record sg then sg_b sg else inputB),
        ExecDone sg =? ExecExpected sg).

Definition proveHygieneAnchorCheck (cfg : Cfg) (sem : CheckSemantics) (u : Z) (b : string) : result (Z * bool * bool) :=
  let wasm := wasmHexFromConfig cfg in
  if String.eqb wasm "" then Err "poolfuzz: Dig hygiene requires wasm_check_hex"
  else if negb (wasm_valid R wasm) then Err "poolfuzz: invalid campaign wasm"
  else
    let '(ret, err) := run_check R wasm u (ClampInputBytes R b cfg) in
    let check := if is_trap err then 0 else ret in
    let '(pass, record) := EvalCheck sem check (is_trap err) in Ok (check, pass, record).

Definition hygieneSegmentProveApplies (cfg : Cfg) (execPer : Z) : bool :=
  if IsHuntCampaign cfg || (execPer <=? 1) then false
  else
    let v := setting env "HACKME_POOL_HYGIENE_SEGMENT_PROVE" in
    if is_off v then false else if is_on v then true
    else if String.eqb (digPackageKey cfg) "deep" then true else escrowEnabled cfg.

Definition claims_crash (req : SubmitRequest) : bool :=
  negb (CheckResult req =? 0)
  && (has_prefix (trim_space (Trap req)) "hunt_crash:" || has_prefix (trim_space (Trap req)) "hunt_sanitizer:").

Definition rejectCanaryMissIfNeeded (canary : bool) (cfg : Cfg) (req : SubmitRequest) (u : Z) (b : string) : result unit :=
  if negb canary then Ok tt
  else if IsHuntCampaign cfg then
    if claims_crash req then Ok tt else Err "poolfuzz: canary_miss: Hunt CLEAN missed known crash seed"
  else
    let sem := ParseCheckSemantics cfg in
    if submitClaimsFinding sem req then Ok tt
    else
      let wasm := wasmHexFromConfig cfg in
      if String.eqb wasm "" then Err "poolfuzz: canary_miss: canary item missing wasm_check_hex"
      else
        let '(ret, err) := run_check R wasm u b in
        if (EvalCheck sem (if is_trap err then 0 else ret) (is_trap err)).2
        then Err "poolfuzz: canary_miss: CLEAN submit missed known challenge input" else Ok tt.

(** Without a full replay a clean claim is proved on the locked input, or on the whole segment. *)
Definition dig_hygiene (canary : bool) (cfg : Cfg) (sem : CheckSemantics) (req : SubmitRequest) (execPer inputN u : Z) (b : string)
    (reason : string) : result (Verdict * string) :=
  match checkCleanHygieneFloor req execPer cfg with
  | Err e => Err e
  | Ok _ =>
      match rejectCanaryMissIfNeeded canary cfg req u b with
      | Err e => Err e
      | Ok _ =>
          if negb (EvalCheck sem (CheckResult req) false).1 then Err "poolfuzz: hygiene_skip requires CLEAN check_result"
          else if negb (hygieneProveEnabled env) then Ok (mkVerdict (CheckResult req) "" true false u b, reason)
          else if hygieneSegmentProveApplies cfg execPer then
            match evalSubmitCheck cfg sem inputN u b with
            | Err e => Err e
            | Ok (v, complete) =>
                if negb (String.eqb (wasmHexFromConfig cfg) "") && (1 <? execPer) && negb complete
                then Err "poolfuzz: incomplete hygiene segment prove"
                else if v_record v || negb (v_pass v) then Err "poolfuzz: hygiene_segment_not_clean: coordinator segment prove rejected CLEAN claim"
                else Ok (mkVerdict (v_check v) "" true false u b, "hygiene_segment"%string)
            end
          else
            match proveHygieneAnchorCheck cfg sem u b with
            | Err e => Err e
            | Ok (check, pass, record) =>
                if record || negb pass then Err "poolfuzz: hygiene_anchor_not_clean: coordinator prove rejected CLEAN claim"
                else Ok (mkVerdict check "" true false u b, reason)
            end
      end
  end.

Definition dig_verdict (canary : bool) (cfg : Cfg) (req : SubmitRequest) (inputN u : Z) (b : string) : result (Verdict * string) :=
  let sem := ParseCheckSemantics cfg in
  let execPer := PoolExecPerUnit cfg in
  let '(full, reason) := decidePoolReplay cfg sem req execPer in
  if negb full then dig_hygiene canary cfg sem req execPer inputN u b reason
  else
    match evalSubmitCheck cfg sem inputN u b with
    | Err e => Err e
    | Ok (v, complete) =>
        if negb (String.eqb (wasmHexFromConfig cfg) "") && (1 <? execPer) && negb complete then Err "poolfuzz: incomplete segment replay"
        else if v_pass v && negb (v_record v) then
          match rejectCanaryMissIfNeeded canary cfg req u b with Err e => Err e | Ok _ => Ok (v, reason) end
        else Ok (v, reason)
    end.

(** * Hunt: native harness replays *)

Definition ParseHuntEngine (v : string) : string :=
  let v := norm' v in
  if str_in v [""; "auto"; "default"; "coverage"; "lf"; "libfuzzer"; "lib-fuzzer"; "lib_fuzzer"] then "libfuzzer"
  else if str_in v ["aflpp"; "afl++"; "afl"; "aflplusplus"] then "aflpp" else "byte".
Definition IsCoverageEngine (engine : string) : bool := str_in (ParseHuntEngine engine) ["libfuzzer"; "aflpp"].

Definition huntEngineSubmitMode (req : SubmitRequest) : bool :=
  let engine := trim_space (HuntEngine req) in
  HuntEngineEnabled env && negb (String.eqb engine "") && IsCoverageEngine engine.
Definition huntSubmitExecExpected (cfg : Cfg) (req : SubmitRequest) : Z :=
  if huntEngineSubmitMode req then 1 else huntIterationsPerShard R cfg.

Definition MinEngineLeaseSec : Z := 15.
Definition checkHuntEngineWallFloor (req : SubmitRequest) (cfg : Cfg) (serverWallMS : Z) : result unit :=
  if negb (huntEngineSubmitMode req) then Ok tt
  else
    let wallMS := Z.max serverWallMS 0 in
    let floor := let l := Z.max (EngineLeaseSec R cfg (HuntEngine req)) MinEngineLeaseSec in
                 Z.max (Z.quot (l * 1000 * 3) 4) (MinEngineLeaseSec * 1000) in
    let v := trim_space (env "HACKME_HUNT_ENGINE_MIN_WALL_MS") in
    let too_short n := if wallMS <? n then Err "poolfuzz: hunt_engine_wall_too_short"%string else Ok tt in
    if String.eqb v "" then too_short floor
    else if String.eqb v "0" || equal_fold v "off" || equal_fold v "false" then Ok tt
    else match atoi v with Some n => if 0 <? n then too_short n else too_short floor | None => too_short floor end.

(** Check result, trap, pass, finding, its input and original length. *)
Record HuntVerdict := mkHunt { h_check : Z; h_trap : string; h_pass : bool; h_record : bool; h_b : string; h_len : Z }.
Definition hunt_reject (trap : string) : HuntVerdict := mkHunt 0 trap false false "" 0.
Definition hunt_clean (trap : string) : HuntVerdict := mkHunt 0 trap true false "" 0.

Definition evalHuntSubmitTrusted (cfg : Cfg) (req : SubmitRequest) : Z * string * bool * bool :=
  if negb (SegmentExecDone req =? huntSubmitExecExpected cfg req) then (0, "", false, false)
  else
    let trap := trim_space (Trap req) in
    if (has_prefix trap "hunt_crash:" || has_prefix trap "hunt_sanitizer:") && negb (CheckResult req =? 0)
    then (CheckResult req, trap, true, true)
    else if negb (CheckResult req =? 0) then (CheckResult req, trap, false, false) else (0, "", true, false).

(** [proven] is the number of crashes already proved under this lease. *)
Definition evalHuntEngineSubmitCheck (cfg : Cfg) (req : SubmitRequest) (expectedB : string) (proven : Z) : result HuntVerdict :=
  let workerTrap := trim_space (Trap req) in
  if negb (claims_crash req) then
    Ok (if negb (CheckResult req =? 0) then hunt_reject workerTrap else hunt_clean "")
  else
    match crash_replay R (CampaignID req) cfg expectedB with
    | Err e => Err e
    | Ok (ok, replayTrap) =>
        if negb ok then
          Ok (if 0 <? proven then hunt_clean "" else hunt_reject "hunt_replay_reject:fake_crash")
        else if has_prefix workerTrap "hunt_crash:" then
          Ok (if has_prefix (trim_space replayTrap) "hunt_crash:" then mkHunt 1 replayTrap true true expectedB (str_len expectedB)
              else hunt_clean replayTrap)
        else Ok (mkHunt 0 replayTrap true true expectedB (str_len expectedB))
    end.

Definition replay_verdict (req : SubmitRequest) (expectedB : string) (rep : ReplayReport) : HuntVerdict :=
  let workerTrap := trim_space (Trap req) in
  let claims := claims_crash req in
  let fb := if String.eqb (rp_input rep) "" then expectedB else rp_input rep in
  let origLen := if (rp_len rep <=? 0) && (0 <? str_len fb) then str_len fb else rp_len rep in
  if rp_crash rep then
    if rp_security rep then
      if negb claims || negb (has_prefix workerTrap "hunt_crash:") then hunt_reject (rp_trap rep)
      else mkHunt 1 (rp_trap rep) true true fb origLen
    else if negb claims || negb (has_prefix workerTrap "hunt_sanitizer:") then hunt_clean (rp_trap rep)
    else mkHunt 0 (rp_trap rep) true true fb origLen
  else if claims && has_prefix workerTrap "hunt_crash:" then hunt_reject "hunt_replay_reject:fake_crash"
  else if claims && has_prefix workerTrap "hunt_sanitizer:" then hunt_reject "hunt_replay_reject:fake_sanitizer"
  else hunt_clean "".

Definition evalHuntSubmitCheck (cfg : Cfg) (req : SubmitRequest) (inputN : Z) (expectedB : string) (proven : Z) : result HuntVerdict :=
  if negb (SegmentExecDone req =? huntSubmitExecExpected cfg req) then Ok (hunt_reject "")
  else if huntEngineSubmitMode req then evalHuntEngineSubmitCheck cfg req expectedB proven
  else if negb (huntReplayEnabled env) then
    if escrowEnabled cfg then Err "poolfuzz: hunt replay required when escrow enabled (HACKME_POOL_HUNT_REPLAY=0)"
    else let '(cr, tr, p, rf) := evalHuntSubmitTrusted cfg req in
         Ok (if rf && (0 <? str_len expectedB) then mkHunt cr tr p rf expectedB (str_len expectedB) else mkHunt cr tr p rf "" 0)
  else if String.eqb (trim_space (jsonString (cfg !! "upstream_target_id"%string))) "" then Err "poolfuzz: hunt missing upstream_target_id"
  else match ReplayShard R (CampaignID req) inputN cfg expectedB with
       | Err e => Err ("poolfuzz: hunt replay: " +:+ e)
       | Ok rep => Ok (replay_verdict req expectedB rep)
       end.
End verify.
