(* ===== verification/PoolQueue.v ===== *)
(** The work queue of the fuzz pool: campaigns, work items, their settlement and progress.

    Sources: internal/poolfuzz/service.go, lease_churn.go, deferred_bounty.go, settle_replay.go.
    [now] is the clock reading of a call; several readings of one call are one argument.  Of the
    campaign summary that [recomputeProgress] writes, only [runs_done] is kept. *)
From S2P Require Import Prelude PoolCfg GoText GoNum Json PoolBase PoolOutbox.

(** * Column updates *)

Definition set_status (st : WorkStatus) (now : Z) (c : QueueCols) : QueueCols :=
  mkQueue st (attempts c) (last_error c) (lease_owner c) (lease_until c) (result_ok c) (duration_ms c) now.
Definition release_cols (now : Z) (c : QueueCols) : QueueCols :=
  mkQueue WPending (attempts c) (last_error c) "" 0 (result_ok c) (duration_ms c) now.
Definition revive_cols (now : Z) (c : QueueCols) : QueueCols :=
  mkQueue WPending 0 "" "" 0 (result_ok c) (duration_ms c) now.
Definition reclaim_cols (now : Z) (c : QueueCols) : QueueCols :=
  mkQueue WPending (attempts c + 1)
    (if String.eqb (trim_space (last_error c)) "" then "reclaimed_expired_lease" else last_error c)
    "" 0 (result_ok c) (duration_ms c) now.
Definition lease_cols (worker : string) (until now : Z) (c : QueueCols) : QueueCols :=
  mkQueue WLeased (attempts c) (last_error c) worker until (result_ok c) (duration_ms c) now.
Definition done_cols (ok : bool) (dur : Z) (err : string) (now : Z) (c : QueueCols) : QueueCols :=
  mkQueue WDone (attempts c + 1) err "" 0 ok dur now.

Definition set_run (r : RunSt) (ob : Z) (c : PayCols) : PayCols :=
  mkPay (miner_address c) r (find_status c) (find_severity c) ob (find_outbox c).
Definition set_find (f : FindSt) (ob : Z) (c : PayCols) : PayCols :=
  mkPay (miner_address c) (run_status c) f (find_severity c) (run_outbox c) ob.
Definition want_finding (sev : string) (c : PayCols) : PayCols :=
  mkPay (miner_address c) (run_status c) FindPending sev (run_outbox c) (find_outbox c).
Definition bind_run (miner : string) (r : RunSt) (c : PayCols) : PayCols :=
  mkPay miner (match r with RunNone => run_status c | _ => r end) (find_status c) (find_severity c) (run_outbox c) (find_outbox c).

Definition set_camp_status (st : string) (completed : Z → Z) (runs_done : Z) (c : Campaign) : Campaign :=
  mkCampaign (c_id c) (c_type c) st (c_title c) (c_desc c) (c_owner c) (c_budget_runs c) (c_budget_seconds c) (c_cfg c)
    runs_done (c_created c) (c_started c) (completed (c_completed c)).

Definition leased_by (worker : string) (w : WorkItem) : bool :=
  status_in [WLeased] w && String.eqb (lease_owner (w_q w)) worker.
Definition expired (now : Z) (w : WorkItem) : bool := status_in [WLeased] w && (lease_until (w_q w) <? now).
Definition in_flight : list WorkStatus := [WPending; WLeased; WReplay].
Definition b2Z (b : bool) : Z := if b then 1 else 0.
Definition the_campaign (cid : string) : pool_act Campaign :=
  let! p := aget in match get_campaign cid p with Some c => aret c | None => afail "sql: no rows in result set" end.

(** * Caches *)

Definition clearEmptyClaimCache : pool_act unit := amod (set_empty 0).
Definition invalidateSchedCache : pool_act unit := amod (λ p, set_empty 0 (set_sched None p)).
Definition lease_key (campaignID : string) (itemID : Z) : string * Z := (trim_space campaignID, itemID).
Definition clearLeaseProven (campaignID : string) (itemID : Z) : pool_act unit :=
  amod (λ p, set_proven (delete (lease_key campaignID itemID) (lease_proven p)) p).
Definition peekLeaseProven (campaignID : string) (itemID : Z) (p : Pool) : Proven :=
  default no_proof (lease_proven p !! lease_key campaignID itemID).

(** * Settlement of one item *)

Definition campaignAcceptsSettle (id : string) (p : Pool) : bool :=
  let id := trim_space id in
  if String.eqb id "" then false
  else match get_campaign id p with
       | Some c => str_in (norm (c_status c)) ["running"; "planned"; "completed"; "paused"]
       | None => false
       end.

Definition flush_run (St : Settler) (campaignID miner : string) (itemID : Z) (run : RunSt) (ob : Z) : pool_act unit :=
  if negb (run_open run) then aret tt
  else
    let! res := awrap "poolfuzz: settle run: "
      (if is_floor run then PayRunFloor St campaignID miner itemID ob else PayRun St campaignID miner itemID ob) in
    let next := if Applied res then RunPaid else if is_floor run then RunQueuedFloor else RunQueued in
    update_items (λ w, is_item campaignID itemID w && run_open (w_run w)) (on_pay (set_run next (OutboxID res))) ;!; aret tt.

Definition flush_find (St : Settler) (cfg : Cfg) (campaignID miner sev : string) (itemID : Z) (f : FindSt) (ob : Z) : pool_act unit :=
  if negb (find_open f) then aret tt
  else
    let open w := is_item campaignID itemID w && find_open (find_status (w_pay w)) in
    if huntBountyEligible cfg (trim_space sev) then
      let! res := awrap "poolfuzz: settle finding: " (PayFinding St campaignID miner (trim_space sev) itemID ob) in
      update_items open (on_pay (set_find (if Applied res then FindPaid else FindQueued) (OutboxID res))) ;!; aret tt
    else update_items open (on_pay (λ c, set_find FindPaid (find_outbox c) c)) ;!; aret tt.

(** The columns are read once, before any payment. *)
Definition flushPendingSettles (St : option Settler) (campaignID : string) (itemID : Z) (cfg : Cfg) : pool_act unit :=
  match St with
  | None => aret tt
  | Some St =>
      if negb (escrowEnabled cfg) then aret tt
      else
        let! p := aget in
        match get_item campaignID itemID p with
        | None => aret tt
        | Some w =>
            let c := w_pay w in let miner := trim_space (miner_address c) in
            if String.eqb miner "" then aret tt
            else flush_run St campaignID miner itemID (run_status c) (run_outbox c) ;!;
                 flush_find St cfg campaignID miner (find_severity c) itemID (find_status c) (find_outbox c)
        end
  end.

Definition unpaid_item (campaignID : string) (w : WorkItem) : bool :=
  of_campaign campaignID w && (run_open (w_run w) || find_open (find_status (w_pay w))).

Definition tryFinalizeEscrow (St : option Settler) (campaignID : string) : pool_act unit :=
  let campaignID := trim_space campaignID in
  match St with
  | None => aret tt
  | Some St =>
      if String.eqb campaignID "" then aret tt
      else
        PromoteAppliedSettleIntents campaignID ;!;
        let! p := aget in
        let! pending := alift (CountPendingSettleOutbox campaignID p) in
        if 0 <? pending then aret tt
        else if 0 <? count_items (unpaid_item campaignID) p then aret tt
        else awrap "poolfuzz: finalize escrow: " (Finalize St campaignID 0) ;!; aret tt
  end.

(** * Campaign progress *)

Definition done_in (campaignID : string) (w : WorkItem) : bool := of_campaign campaignID w && status_in [WDone] w.

Definition recomputeProgress (campaignID : string) (now : Z) : pool_act bool :=
  let! p := aget in
  let done := count_items (done_in campaignID) p in
  let! c := the_campaign campaignID in
  let over := ((0 <? c_budget_runs c) && (c_budget_runs c <=? done))
              || ((0 <? c_budget_seconds c) && (0 <? c_started c) && (c_budget_seconds c <=? now - c_started c)) in
  let next := if over then "completed"%string else norm (c_status c) in
  let completedAt := if over then now else 0 in
  update_campaigns (campaign_is campaignID)
    (set_camp_status next (λ old, if String.eqb next "completed" && (old =? 0) then completedAt else old) done) ;!;
  aret (String.eqb next "completed").

(** The tail of every completion: recount, and close the escrow of a campaign that is through. *)
Definition after_work (St : option Settler) (campaignID : string) (cfg : Cfg) (now : Z) : pool_act unit :=
  let! completed := recomputeProgress campaignID now in
  if completed && escrowEnabled cfg then tryFinalizeEscrow St campaignID else aret tt.

(** * Campaign lifecycle *)

Definition known_status (s : string) : bool := str_in s ["planned"; "running"; "paused"; "completed"; "cancelled"].

Definition SetCampaignStatus (now : Z) (id status : string) : pool_act unit :=
  let id := trim_space id in let status := norm status in
  if String.eqb id "" then afail "poolfuzz: campaign id required"
  else if negb (known_status status) then afail "poolfuzz: invalid status"
  else
    let completedAt := if str_in status ["completed"; "cancelled"] then now else 0 in
    let! aff := update_campaigns (campaign_is id)
      (λ c, set_camp_status status (λ old, if completedAt =? 0 then old else completedAt) (c_runs_done c) c) in
    if aff =? 0 then afail "poolfuzz: campaign not found"
    else
      (if str_in status ["completed"; "cancelled"; "paused"] then
         update_items (λ w, of_campaign id w && status_in in_flight w) (on_queue (set_status WCancelled now)) ;!;
         update_replays (λ r, String.eqb (rr_campaign r) id && st_in (rr_status r) [RPending; RProcessing])
           (on_job RFailed (λ _, "campaign " +:+ status) (λ _, "") now) ;!; aret tt
       else aret tt) ;!;
      invalidateSchedCache.

Definition reconcileActiveCampaignWork (campaignID : string) (now : Z) : pool_act unit :=
  let campaignID := trim_space campaignID in
  if String.eqb campaignID "" then afail "poolfuzz: campaign id required"
  else
    let! c := the_campaign campaignID in
    if negb (str_in (norm (c_status c)) ["planned"; "running"]) then aret tt
    else
      let! p := aget in
      let doneCnt := count_items (done_in campaignID) p in
      if (0 <? c_budget_runs c) && (c_budget_runs c <=? doneCnt) then
        let claimable := count_items (λ w, of_campaign campaignID w
          && (status_in [WPending] w || (status_in [WLeased] w && (now <=? lease_until (w_q w))))) p in
        if claimable =? 0 then SetCampaignStatus now campaignID "completed" else aret tt
      else
        (if negb (c_completed c =? 0)
         then update_campaigns (λ c, campaign_is campaignID c && active c) (λ c, set_camp_status (c_status c) (λ _, 0) (c_runs_done c) c) ;!; aret tt
         else aret tt) ;!;
        let! p := aget in
        if 0 <? count_items (λ w, of_campaign campaignID w && (status_in [WPending] w || expired now w)) p then aret tt
        else if count_items (λ w, of_campaign campaignID w && status_in [WCancelled] w) p =? 0 then aret tt
        else update_items (λ w, of_campaign campaignID w && status_in [WCancelled] w) (on_queue (revive_cols now)) ;!; aret tt.

(** * Creating work *)

Definition fresh_item (id : Z) (campaignID : string) (n now : Z) : WorkItem :=
  mkItem id campaignID n (mkQueue WPending 0 "" "" 0 false 0 now) (mkPay "" RunNone FindNone "" 0 0) None false no_proof.
(** [INSERT OR IGNORE] under the unique index on (campaign_id, input_n). *)
Definition insert_item (campaignID : string) (n now : Z) : pool_act unit := λ p,
  if existsb (λ w, of_campaign campaignID w && (input_n w =? n)) (items p) then (Ok tt, p)
  else let id := item_seq p + 1 in
       (Ok tt, set_item_seq id (set_items (λ l, l ++ [fresh_item id campaignID n now]) p)).

Definition queue_depth (cfg : Cfg) : Z :=
  let n := intFromJSON (cfg !! "queue_depth"%string) in if (0 <? n) && (n <=? 10000) then n else 128.

Definition EnsureWorkItems (campaignID : string) (now : Z) : pool_act unit :=
  let! c := the_campaign campaignID in
  if negb (active c) then afail "sql: no rows in result set"
  else
    let! p := aget in
    let existing := count_items (of_campaign campaignID) p in
    if c_budget_runs c <=? existing then aret tt
    else
      let toCreate := Z.min (c_budget_runs c - existing) (queue_depth (c_cfg c)) in
      afor (λ i, insert_item campaignID (existing + Z.of_nat i + 1) now) (seq 0 (Z.to_nat toCreate)) ;!;
      if 0 <? toCreate then clearEmptyClaimCache else aret tt.

(** [normalize] and [defaults] are the configuration presets of fuzzengine, fuzzingcli and hunt. *)
Definition RegisterCampaign (normalize : Cfg → string → Cfg) (defaults : Cfg → Cfg) (now : Z) (c : Campaign) : pool_act unit :=
  let id := trim_space (c_id c) in
  if String.eqb id "" then afail "poolfuzz: campaign id required"
  else
    let cfg := defaults (<["pool_distributed"%string := JB true]> (normalize (c_cfg c) (c_type c))) in
    let cfg := match cfg !! "auto_runner"%string with None => <["auto_runner"%string := JS "0"]> cfg | Some _ => cfg end in
    let status := let s := norm (c_status c) in if String.eqb s "" then "running"%string else s in
    let row := mkCampaign id (trim_space (c_type c)) status (trim_space (c_title c)) (trim_space (c_desc c)) (trim_space (c_owner c))
                 (c_budget_runs c) (c_budget_seconds c) cfg 0 now now 0 in
    let merge old := mkCampaign id (c_type row) status (c_title row) (c_desc row)
                       (if String.eqb (c_owner row) "" then c_owner old else c_owner row)
                       (c_budget_runs c) (c_budget_seconds c) cfg 0 (c_created old)
                       (if c_started old =? 0 then now else c_started old)
                       (if str_in status ["planned"; "running"] then 0 else c_completed old) in
    let! p := aget in
    (match get_campaign id p with
     | Some _ => update_campaigns (campaign_is id) merge ;!; aret tt
     | None => amod (set_campaigns (λ l, l ++ [row]))
     end) ;!;
    invalidateSchedCache ;!;
    if str_in status ["running"; "planned"] then reconcileActiveCampaignWork id now ;!; atry (EnsureWorkItems id now) else aret tt.

(** * Sweeps over campaigns *)

Definition bounded (limit hi dflt : Z) : Z := if (limit <=? 0) || (hi <? limit) then dflt else limit.
Definition min_age (minAgeSec lo dflt : Z) : Z := if minAgeSec <? lo then dflt else minAgeSec.
Fixpoint insert_created (c : Campaign) (l : list Campaign) : list Campaign :=
  match l with [] => [c] | d :: l' => if c_created c <? c_created d then c :: l else d :: insert_created c l' end.
Definition by_created (l : list Campaign) : list Campaign := foldl (λ acc c, insert_created c acc) [] l.

(** A sweep reads a snapshot of its rows first and stops at its limit of changes. *)
Fixpoint cancel_each (now limit n : Z) (l : list Campaign) : pool_act Z :=
  match l with
  | [] => aret n
  | c :: l' => SetCampaignStatus now (c_id c) "cancelled" ;!;
               if limit <=? n + 1 then aret (n + 1) else cancel_each now limit (n + 1) l'
  end.

Definition CancelInternalGateCampaigns (now limit : Z) : pool_act Z :=
  let limit := bounded limit 500 100 in
  let! p := aget in
  let rows := take (Z.to_nat (limit * 4)) (rev (by_created (List.filter (λ c, active c && sql_pool_distributed c) (campaigns p)))) in
  cancel_each now limit 0 (List.filter (λ c, IsInternalGateCampaign (c_id c) (c_title c) (c_owner c) (c_cfg c)) rows).

Definition old_enough (now age : Z) (c : Campaign) : bool := age <=? now - c_created c.

Definition CancelZeroProgressPoolCampaigns (now minAgeSec limit : Z) : pool_act Z :=
  let limit := bounded limit 500 200 in let age := min_age minAgeSec 0 3600 in
  let! p := aget in
  let rows := take (Z.to_nat (limit * 4))
    (by_created (List.filter (λ c, active c && sql_pool_distributed c && old_enough now age c) (campaigns p))) in
  cancel_each now limit 0 (List.filter (λ c, negb ((0 <? count_items (done_in (c_id c)) p) || (0 <? c_runs_done c))) rows).

(** All its items are expired leases: none done, none pending, none live. *)
Definition stuck_leases (now : Z) (p : Pool) (c : Campaign) : bool :=
  let n f := count_items (λ w, of_campaign (c_id c) w && f w) p in
  (n (status_in [WDone]) =? 0) && (n (status_in [WPending]) =? 0) && (0 <? n (status_in [WLeased]))
  && (n (λ w, status_in [WLeased] w && (now <=? lease_until (w_q w))) =? 0).
Definition CancelStuckExpiredLeaseCampaigns (now minAgeSec limit : Z) : pool_act Z :=
  let limit := bounded limit 200 50 in let age := min_age minAgeSec 60 3600 in
  let! p := aget in
  let rows := take (Z.to_nat limit) (by_created (List.filter (λ c, String.eqb (c_status c) "running" && sql_pool_distributed c
    && old_enough now age c && stuck_leases now p c) (campaigns p))) in
  cancel_each now (Z.of_nat (length rows)) 0 rows.

(** [harness cfg]: the harness is published and its content agrees with the configuration, or the lookup failed. *)
Definition CancelHuntCampaignsMissingHarness (harness : Cfg → bool) (now minAgeSec limit : Z) : pool_act Z :=
  let limit := bounded limit 200 50 in let age := min_age minAgeSec 60 900 in
  let! p := aget in
  let rows := take (Z.to_nat (limit * 4)) (by_created (List.filter (λ c, active c && String.eqb (to_lower (c_type c)) "hunt"
    && sql_pool_distributed c && old_enough now age c) (campaigns p))) in
  cancel_each now limit 0 (List.filter (λ c, IsHuntCampaign (c_cfg c)
    && negb (String.eqb (trim_space (jsonString (c_cfg c !! "harness_hash"%string))) "") && negb (harness (c_cfg c))) rows).

Definition CancelPendingOfFinishedCampaigns (now : Z) : pool_act Z :=
  let! p := aget in
  let finished w := existsb (λ c, campaign_is (w_campaign w) c && str_in (c_status c) ["completed"; "cancelled"]) (campaigns p) in
  let! n := update_items (λ w, status_in [WPending] w && finished w) (on_queue (set_status WCancelled now)) in
  (if 0 <? n then invalidateSchedCache else aret tt) ;!; aret n.

Definition ReclaimExpiredLeases (now : Z) : pool_act Z :=
  let! p := aget in
  let gone w := status_in [WLeased] w && (0 <? lease_until (w_q w)) && (lease_until (w_q w) <? now) in
  afor (λ w, clearLeaseProven (w_campaign w) (w_id w)) (List.filter gone (items p)) ;!;
  let! n := update_items gone (on_queue (reclaim_cols now)) in
  (if 0 <? n then clearEmptyClaimCache else aret tt) ;!; aret n.

(** A campaign the repair looks at: closed while active, through with its budget, or all work cancelled. *)
Definition zombie (p : Pool) (c : Campaign) : bool :=
  let n l := count_items (λ w, of_campaign (c_id c) w && status_in l w) p in
  let idle := n [WPending; WLeased] =? 0 in
  negb (c_completed c =? 0) || (idle && (c_budget_runs c <=? n [WDone]) && (0 <? c_budget_runs c))
  || (idle && (0 <? n [WCancelled]) && (n [WDone] <? c_budget_runs c)).
Definition repair_one (now : Z) (id : string) : pool_act unit :=
  reconcileActiveCampaignWork id now ;!;
  let! p := aget in
  match get_campaign id p with
  | Some c => if equal_fold (trim_space (c_status c)) "running" || equal_fold (trim_space (c_status c)) "planned"
              then EnsureWorkItems id now else aret tt
  | None => aret tt
  end.
Definition RepairZombiePoolCampaigns (now limit : Z) : pool_act Z :=
  let limit := bounded limit 100 20 in
  let! p := aget in
  let ids := take (Z.to_nat limit) (by_created (List.filter (λ c, active c && sql_pool_distributed c && zombie p c) (campaigns p))) in
  afor (λ c, repair_one now (c_id c)) ids ;!; aret (Z.of_nat (length ids)).

(** * Breaking lease churn *)

Definition forceCompleteWorkItem (St : option Settler) (campaignID : string) (itemID : Z) (pass : bool) (reason : string) (now : Z) : pool_act unit :=
  let reason := let r := trim_space reason in if String.eqb r "" then "force_complete"%string else r in
  let! aff := update_items (λ w, is_item campaignID itemID w && status_in in_flight w)
    (on_queue (λ c, done_cols pass (if 0 <? duration_ms c then duration_ms c else 0) reason now c)) in
  if aff =? 0 then aret tt
  else
    update_replays (λ r, String.eqb (rr_campaign r) campaignID && (rr_item r =? itemID) && st_in (rr_status r) [RPending; RProcessing])
      (on_job RFailed (λ _, reason) (λ v, v) now) ;!;
    let! p := aget in
    let cfg := default ∅ (c_cfg <$> get_campaign campaignID p) in
    (if escrowEnabled cfg then awrap ("poolfuzz: flush settle after " +:+ reason +:+ ": ") (flushPendingSettles St campaignID itemID cfg)
     else aret tt) ;!;
    let! completed := recomputeProgress campaignID now in
    (if completed && escrowEnabled cfg
     then awrap ("poolfuzz: finalize after " +:+ reason +:+ ": ") (tryFinalizeEscrow St campaignID) else aret tt) ;!;
    clearEmptyClaimCache.

Definition proved (w : WorkItem) : bool := (0 <? p_crashes (w_proven w)) || (0 <? p_edges (w_proven w)).
Definition force_all (St : option Settler) (reason : string) (now : Z) (l : list WorkItem) : pool_act Z :=
  afor (λ w, forceCompleteWorkItem St (w_campaign w) (w_id w) (proved w) reason now) l ;!; aret (Z.of_nat (length l)).

Fixpoint insert_updated (w : WorkItem) (l : list WorkItem) : list WorkItem :=
  match l with [] => [w] | v :: l' => if updated_at (w_q w) <? updated_at (w_q v) then w :: l else v :: insert_updated w l' end.
Definition by_updated (l : list WorkItem) : list WorkItem := foldl (λ acc w, insert_updated w acc) [] l.

Definition churned (maxAtt : Z) (p : Pool) (w : WorkItem) : bool :=
  existsb (λ c, campaign_is (w_campaign w) c && active c) (campaigns p) && status_in in_flight w && (maxAtt <=? attempts (w_q w)).
Definition ForceCompleteLeaseChurnItems (St : option Settler) (maxAtt now limit : Z) : pool_act Z :=
  let! p := aget in
  force_all St "lease_churn_exhausted" now
    (take (Z.to_nat (bounded limit 200 50)) (by_updated (List.filter (churned maxAtt p) (items p)))).

Definition last_done (cid : string) (p : Pool) : Z :=
  foldr (λ w m, Z.max (updated_at (w_q w)) m) 0 (List.filter (done_in cid) (items p)).
Definition near_done (staleSec now : Z) (p : Pool) (c : Campaign) : bool :=
  let remaining := c_budget_runs c - count_items (done_in (c_id c)) p in
  let last := last_done (c_id c) p in
  (1 <=? remaining) && (remaining <=? 2) && (0 <? last) && (staleSec <=? now - last).
Definition force_leftovers (St : option Settler) (now : Z) (c : Campaign) : pool_act Z :=
  let! p := aget in
  force_all St "stalled_near_done_force_complete" now
    (List.filter (λ w, of_campaign (c_id c) w && status_in in_flight w) (items p)).
Definition ForceCompleteStalledNearDoneCampaigns (St : option Settler) (staleSec now limit : Z) : pool_act Z :=
  let limit := bounded limit 100 30 in
  let! p := aget in
  let rows := take (Z.to_nat (limit * 4)) (by_created (List.filter (λ c, String.eqb (c_status c) "running" && (0 <? c_budget_runs c)
    && sql_pool_distributed c) (campaigns p))) in
  acount (force_leftovers St now) 0 (take (Z.to_nat limit) (List.filter (near_done staleSec now p) rows)).

(** * Deferred bounties and replay of settlements *)

(** [HMC-] and 16 more bytes. *)
Definition legacy_miner (a : string) : string := if has_prefix a "HMC-" && (str_len a =? 20) then a else EmptyString.
Definition workItemMinerAddress (campaignID : string) (itemID : Z) (p : Pool) : string :=
  if itemID <=? 0 then EmptyString
  else match get_item campaignID itemID p with Some w => legacy_miner (trim_space (miner_address (w_pay w))) | None => EmptyString end.

(** [payout] resolves a worker id to its payout address, [native] is the verdict of the native queue. *)
Definition finding_miner (payout : string → string) (f : Finding) : string :=
  let m := trim_space (f_miner f) in if String.eqb m "" then payout (f_worker f) else m.
Definition bounty_of (St : Settler) (payout : string → string) (native : Finding → bool) (requires_native : Cfg → bool) (f : Finding) : pool_act unit :=
  let! p := aget in
  match CampaignConfig (f_campaign f) p with
  | None => aret tt
  | Some cfg =>
      if negb (escrowEnabled cfg) || (requires_native cfg && negb (native f)) || negb (huntBountyEligible cfg (f_sev f)) then aret tt
      else
        let miner := let m := finding_miner payout f in
                     if String.eqb m "" then workItemMinerAddress (f_campaign f) (f_item f) p else m in
        if String.eqb miner "" then aret tt
        else
          let pay := if 0 <? f_item f then
              update_items (λ w, is_item (f_campaign f) (f_item f) w && st_in (find_status (w_pay w)) [FindNone])
                (on_pay (λ c, mkPay (if String.eqb (miner_address c) "" then miner else miner_address c) (run_status c) FindPending
                                (trim_space (f_sev f)) (run_outbox c) (find_outbox c))) ;!;
              flushPendingSettles (Some St) (f_campaign f) (f_item f) cfg
            else PayFinding St (f_campaign f) miner (f_sev f) 0 0 ;!; aret tt in
          λ p, match pay p with
               | (Err e, p') => if str_contains (to_lower e) "already paid" then (Ok tt, p') else (Err e, p')
               | r => r
               end
  end.
Fixpoint insert_found (f : Finding) (l : list Finding) : list Finding :=
  match l with [] => [f] | g :: l' => if f_created f <? f_created g then f :: l else g :: insert_found f l' end.
Definition flushDeferredBounties (St : option Settler) (payout : string → string) (native : Finding → bool) (requires_native : Cfg → bool) : pool_act unit :=
  match St with
  | None => aret tt
  | Some St =>
      let! p := aget in
      let paid f := existsb (λ r, ob_of (f_campaign f) r && String.eqb (oi_kind r) "finding" && st_in (oi_status r) [ObApplied]) (outbox p) in
      let rows := List.filter (λ f, native f && str_in (to_lower (f_sev f)) ["medium"; "high"; "critical"] && negb (paid f)) (findings p) in
      afor (bounty_of St payout native requires_native) (take 20 (foldl (λ acc f, insert_found f acc) [] rows))
  end.

(** The run rows of a finished campaign again, under their own kinds; then its first bounty and the finalize. *)
Definition replay_kind (r : RunSt) : option string :=
  match r with
  | RunPendingFloor | RunQueuedFloor => Some "run_floor"%string
  | RunPending | RunQueued => Some "run"%string
  | RunPaid | RunNone => None
  end.
Fixpoint replay_runs (now : Z) (campaignID : string) (l : list WorkItem) (n : Z) : pool_act Z :=
  match l with
  | [] => aret n
  | w :: l' =>
      let miner := legacy_miner (trim_space (miner_address (w_pay w))) in
      match replay_kind (w_run w) with
      | Some kind => if String.eqb miner "" then replay_runs now campaignID l' n
                     else EnqueueSettleOutbox now kind campaignID miner "" (w_id w) ;!; replay_runs now campaignID l' (n + 1)
      | None => replay_runs now campaignID l' n
      end
  end.
Definition replay_bounty (payout : string → string) (native : Finding → bool) (requires_native : Cfg → bool) (cfg : Cfg) (p : Pool) (f : Finding) : string :=
  if negb (huntBountyEligible cfg (f_sev f)) || (requires_native cfg && negb (native f)) then EmptyString
  else let m := legacy_miner (trim_space (f_miner f)) in
       let m := if String.eqb m "" then payout (f_worker f) else m in
       if String.eqb m "" then workItemMinerAddress (f_campaign f) (f_item f) p else m.
Definition ReplayCampaignSettles (payout : string → string) (native : Finding → bool) (requires_native : Cfg → bool) (now : Z) (campaignID : string) : pool_act (Z * Z * Z) :=
  let campaignID := trim_space campaignID in
  if String.eqb campaignID "" then afail "poolfuzz: campaign_id required"
  else
    let! p := aget in
    let rows := List.filter (done_in campaignID) (items p) in
    match rows with
    | [] => afail "poolfuzz: no completed work"
    | _ =>
        let! runs := replay_runs now campaignID rows 0 in
        let! c := the_campaign campaignID in
        let! p := aget in
        let found := foldl (λ acc f, insert_found f acc) [] (List.filter (λ f, String.eqb (f_campaign f) campaignID) (findings p)) in
        let! n := match List.find (λ f, negb (String.eqb (replay_bounty payout native requires_native (c_cfg c) p f) "")) found with
                  | Some f => EnqueueSettleOutbox now "finding" campaignID (replay_bounty payout native requires_native (c_cfg c) p f) (f_sev f) 0 ;!; aret 1
                  | None => aret 0
                  end in
        EnqueueSettleOutbox now "finalize" campaignID "" "" 0 ;!; aret (runs, n, 1)
    end.
