(* ===== verification/PoolClaim.v ===== *)
(** Leasing work to workers, and the periodic sweep.

    Sources: internal/poolfuzz/service.go (Claim..., ReleaseWorkLease, Tick), hunt_engine.go (lease
    proofs), guided.go (storeExpectedInputs through buildClaimedWork).

    Building the claim (inputs, corpus, canary) is an argument: it fails, or gives the inputs and
    whether they were locked on the item.  [harness] says whether the Hunt harness of a
    configuration is published with agreeing content. *)
From S2P Require Import Prelude PoolCfg GoText GoNum Json PoolBase PoolOutbox PoolQueue.

Record Built := mkBuilt { b_u : Z; b_b : string; b_locked : bool; b_canary : bool }.
Record ClaimedWork := mkClaimed { cw_id : string; cw_campaign : string; cw_item : Z; cw_input : Z; cw_u : Z; cw_b : string; cw_canary : bool }.

Record ClaimEnv := mkClaimEnv {
  SkipHunt : bool;
  harness : Cfg → bool;
  lease_seconds : Cfg → Z;
  build : string → Z → Z → Cfg → string → result Built;
  now_ms : Z;
  empty_ttl : Z;
}.

(** * Proofs made under a lease *)

Definition note_proven (campaignID : string) (itemID seeds edges crashes : Z) (engine version : string) : pool_act unit :=
  amod (λ p, let t := peekLeaseProven campaignID itemID p in
    set_proven (<[lease_key campaignID itemID := mkProven (p_seeds t + seeds) (p_edges t + edges) (p_crashes t + crashes)
      (if String.eqb engine "" then p_engine t else engine) (if String.eqb version "" then p_version t else version)]> (lease_proven p)) p).

Definition noteLeaseProvenPersist (campaignID : string) (itemID : Z) (leaseOwner : string) (seeds edges crashes : Z) (engine version : string) : pool_act unit :=
  let leaseOwner := trim_space leaseOwner in
  if (itemID <=? 0) || String.eqb leaseOwner "" then aret tt
  else
    let! aff := update_items (λ w, is_item campaignID itemID w && leased_by leaseOwner w)
      (λ w, let t := w_proven w in with_proven (mkProven (p_seeds t + seeds) (p_edges t + edges) (p_crashes t + crashes)
         (if String.eqb engine "" then p_engine t else engine) (if String.eqb version "" then p_version t else version)) w) in
    if aff =? 0 then aret tt
    else
      let! p := aget in
      match get_item campaignID itemID p with
      | Some w => if leased_by leaseOwner w then note_proven campaignID itemID seeds edges crashes engine version else aret tt
      | None => aret tt
      end.

Definition merge_proven (mem db : Proven) : Proven :=
  mkProven (Z.max (p_seeds db) (p_seeds mem)) (Z.max (p_edges db) (p_edges mem)) (Z.max (p_crashes db) (p_crashes mem))
    (if String.eqb (p_engine mem) "" then p_engine db else p_engine mem)
    (if String.eqb (p_version mem) "" then p_version db else p_version mem).
Definition takeLeaseProvenPersist (campaignID : string) (itemID : Z) : pool_act Proven :=
  let! p := aget in
  let mem := peekLeaseProven campaignID itemID p in
  clearLeaseProven campaignID itemID ;!;
  if itemID <=? 0 then aret mem
  else
    let! p := aget in
    aret (merge_proven mem (default no_proof (w_proven <$> get_item campaignID itemID p))).

Definition stampHuntProvenOnSubmit (campaignID : string) (itemID : Z) (leaseOwner : string) (proven : Proven) (engine version : string) : pool_act unit :=
  let leaseOwner := trim_space leaseOwner in
  if (itemID <=? 0) || String.eqb leaseOwner "" then aret tt
  else
    let eng := let e := trim_space engine in if String.eqb e "" then p_engine proven else e in
    let ver := let v := trim_space version in if String.eqb v "" then p_version proven else v in
    update_items (λ w, is_item campaignID itemID w && leased_by leaseOwner w)
      (with_proven (mkProven (p_seeds proven) (p_edges proven) (p_crashes proven) eng ver)) ;!; aret tt.

(** * Claiming *)

(** Store the locked inputs and the canary mark; both set [updated_at]. *)
Definition store_built (now : Z) (campaignID : string) (itemID : Z) (b : Built) : pool_act unit :=
  (if b_locked b then update_items (is_item campaignID itemID)
     (λ w, with_expected (b_u b) (b_b b) (on_queue (set_status (w_status w) now) w)) ;!; aret tt else aret tt) ;!;
  (if b_canary b then update_items (is_item campaignID itemID)
     (λ w, with_canary (on_queue (set_status (w_status w) now) w)) ;!; aret tt else aret tt).
Definition buildClaimedWork (e : ClaimEnv) (now : Z) (campaignID : string) (itemID n : Z) (cfg : Cfg) (workerID : string) : pool_act ClaimedWork :=
  let! b := alift (build e campaignID itemID n cfg workerID) in
  store_built now campaignID itemID b ;!;
  aret (mkClaimed (campaignID +:+ ":" +:+ fmt_int itemID) campaignID itemID n (b_u b) (b_b b) (b_canary b)).

Definition fresh_lease (workerID : string) (until now : Z) (w : WorkItem) : WorkItem :=
  with_proven no_proof (on_queue (lease_cols workerID until now) w).
Definition pending_item (cid : string) (w : WorkItem) : bool := of_campaign cid w && status_in [WPending] w.
(** [UPDATE ... WHERE id = (SELECT id ... ORDER BY id LIMIT 1)]: the oldest pending item. *)
Definition lease_oldest (workerID cid : string) (until now : Z) : pool_act Z :=
  let! p := aget in
  match List.find (pending_item cid) (items p) with
  | Some o => update_items (λ w, (w_id w =? w_id o) && pending_item cid w) (fresh_lease workerID until now)
  | None => aret 0
  end.
(** [ORDER BY updated_at DESC, id DESC LIMIT 1]: of the worker's leases in the campaign. *)
Definition latest (l : list WorkItem) : option WorkItem :=
  foldl (λ best w, match best with
                   | Some b => if updated_at (w_q b) <=? updated_at (w_q w) then Some w else best
                   | None => Some w
                   end) None l.

Definition claimable_campaign (e : ClaimEnv) (c : Campaign) : bool :=
  let cfg := c_cfg c in
  active c && poolDistributed cfg && negb (IsInternalGateCampaign (c_id c) (c_title c) (c_owner c) cfg)
  && negb (SkipHunt e && IsHuntCampaign cfg).
Definition hunt_ready (e : ClaimEnv) (cfg : Cfg) : bool :=
  negb (IsHuntCampaign cfg) || (negb (String.eqb (trim_space (jsonString (cfg !! "harness_hash"%string))) "") && harness e cfg).

Definition claimOnePendingInCampaign (e : ClaimEnv) (workerID cid : string) (now : Z) : pool_act (option ClaimedWork) :=
  let! p := aget in
  match get_campaign cid p with
  | None => aret None
  | Some c =>
      let cfg := c_cfg c in
      if negb (claimable_campaign e c && hunt_ready e cfg) then aret None
      else
        let! aff := lease_oldest workerID cid (now + lease_seconds e cfg) now in
        if aff =? 0 then aret None
        else
          let! p := aget in
          match latest (List.filter (λ w, of_campaign cid w && leased_by workerID w) (items p)) with
          | None => afail "sql: no rows in result set"
          | Some w =>
              clearEmptyClaimCache ;!;
              λ p, match buildClaimedWork e now cid (w_id w) (input_n w) cfg workerID p with
                   | (Ok work, p') => (Ok (Some work), p')
                   | (Err err, p') => (Err err, after (update_items (λ v, is_item cid (w_id w) v && leased_by workerID v)
                                                         (on_queue (release_cols now))) p')
                   end
          end
  end.
Fixpoint claim_first (e : ClaimEnv) (workerID : string) (now : Z) (ids : list string) : pool_act (option ClaimedWork) :=
  match ids with
  | [] => aret None
  | cid :: ids' => let! r := claimOnePendingInCampaign e workerID cid now in
                   match r with Some w => aret (Some w) | None => claim_first e workerID now ids' end
  end.

Definition filterIDsWithPendingWork (p : Pool) (ids : list string) : list string :=
  List.filter (λ cid, existsb (pending_item cid) (items p)) ids.
Definition nearCompleteCampaignIDs (p : Pool) : list string :=
  map c_id (List.filter (λ c, active c && (0 <? c_budget_runs c) && (c_budget_runs c - 32 <=? c_runs_done c)) (campaigns p)).

Fixpoint sql_lower (s : string) : string := match s with EmptyString => EmptyString | String a r => String (lower_ascii a) (sql_lower r) end.
Definition gate_id (id : string) : bool :=
  let id := sql_lower id in
  str_contains id "probe" || any_prefix id ["pool-sync-gate"; "pool-sync-node-"; "campaign-gate-"; "campaign-diag"].
Definition runnable (p : Pool) : list Campaign :=
  List.filter (λ c, poolDistributed (c_cfg c) && negb (IsInternalGateCampaign (c_id c) (c_title c) (c_owner c) (c_cfg c)))
    (by_created (List.filter (λ c, active c && negb (gate_id (c_id c))) (campaigns p))).
Definition tier_ids (p : Pool) (t : ClaimTier) : list string :=
  map c_id (List.filter (λ c, match t, campaignClaimTier (c_id c) (c_title c) (c_owner c) with
    | TierCustomer, TierCustomer | TierBootstrap, TierBootstrap | TierOther, TierOther => true | _, _ => false end) (runnable p)).
(** Customer campaigns, and the others before the bootstrap ones; cached for 750 ms. *)
Definition runnablePoolCampaignIDsByTier (nowms : Z) : pool_act (list string * list string) :=
  let! p := aget in
  match sched p with
  | Some (t, customers, rest) => if (nowms - t <? 750) && (1000 <=? t) then aret (customers, rest)
      else let r := (tier_ids p TierCustomer, tier_ids p TierOther ++ tier_ids p TierBootstrap) in
           amod (set_sched (Some (nowms, r.1, r.2))) ;!; aret r
  | None => let r := (tier_ids p TierCustomer, tier_ids p TierOther ++ tier_ids p TierBootstrap) in
            amod (set_sched (Some (nowms, r.1, r.2))) ;!; aret r
  end.

Fixpoint insert_until (w : WorkItem) (l : list WorkItem) : list WorkItem :=
  match l with [] => [w] | v :: l' => if lease_until (w_q w) <? lease_until (w_q v) then w :: l else v :: insert_until w l' end.
Definition by_until (l : list WorkItem) : list WorkItem := foldl (λ acc w, insert_until w acc) [] l.

(** Phase 3: take over an expired lease. *)
Fixpoint take_expired (e : ClaimEnv) (workerID : string) (now : Z) (l : list WorkItem) : pool_act (option ClaimedWork) :=
  match l with
  | [] => aret None
  | x :: l' =>
      let! p := aget in
      match get_campaign (w_campaign x) p with
      | None => take_expired e workerID now l'
      | Some c =>
          if negb (claimable_campaign e c) then take_expired e workerID now l'
          else
            clearLeaseProven (w_campaign x) (w_id x) ;!;
            let! aff := update_items (λ w, is_item (w_campaign x) (w_id x) w && expired now w)
              (fresh_lease workerID (now + lease_seconds e (c_cfg c)) now) in
            if aff =? 0 then take_expired e workerID now l'
            else clearEmptyClaimCache ;!;
                 let! work := buildClaimedWork e now (w_campaign x) (w_id x) (input_n x) (c_cfg c) workerID in aret (Some work)
      end
  end.

Definition rotate (start : Z) (ids : list string) : list string :=
  let n := Z.of_nat (length ids) in
  map (λ i, nth (Z.to_nat ((start + Z.of_nat i) mod n)) ids EmptyString) (seq 0 (length ids)).
Definition noteEmptyClaim (e : ClaimEnv) : pool_act unit := amod (set_empty (now_ms e + empty_ttl e)).

(** Phase 4: round robin over the other campaigns. *)
Definition claim_rest (e : ClaimEnv) (workerID : string) (now : Z) (rest : list string) : pool_act (option ClaimedWork) :=
  let miss : pool_act (option ClaimedWork) := (if SkipHunt e then aret tt else noteEmptyClaim e) ;!; aret None in
  match rest with
  | [] => miss
  | _ =>
      amod (λ p, set_claimRR (u64 (claimRR p + 1)) p) ;!;
      let! p := aget in
      let! r := claim_first e workerID now (rotate (claimRR p mod Z.of_nat (length rest)) rest) in
      match r with Some w => clearEmptyClaimCache ;!; aret (Some w) | None => miss end
  end.

Definition near_phase (e : ClaimEnv) (workerID : string) (now : Z) : pool_act (option ClaimedWork) :=
  let! p := aget in
  let near := nearCompleteCampaignIDs p in
  if (claimRR p mod 32 =? 0) && (0 <? Z.of_nat (length near)) && (Z.of_nat (length near) <=? 8)
  then claim_first e workerID now (filterIDsWithPendingWork p near) else aret None.

(** Each phase is tried when the one before found nothing. *)
Definition or_else {A} (m : pool_act (option A)) (k : pool_act (option A)) : pool_act (option A) :=
  let! r := m in match r with Some w => aret (Some w) | None => k end.

Definition ClaimWithOptions (e : ClaimEnv) (workerID : string) (now : Z) : pool_act (option ClaimedWork) :=
  let workerID := trim_space workerID in
  if String.eqb workerID "" then afail "poolfuzz: worker_id required"
  else
    let! p := aget in
    if now_ms e <? emptyClaimUntil p then aret None
    else
      let! ids := runnablePoolCampaignIDsByTier (now_ms e) in
      let! p := aget in
      let customers := filterIDsWithPendingWork p ids.1 in
      let rest := filterIDsWithPendingWork p ids.2 in
      or_else (claim_first e workerID now customers)
        (or_else (near_phase e workerID now)
          (let! p := aget in
           or_else (take_expired e workerID now (take (if SkipHunt e then 128%nat else 16%nat) (by_until (List.filter (expired now) (items p)))))
             (claim_rest e workerID now rest))).

Definition ReleaseWorkLease (now : Z) (campaignID : string) (itemID : Z) (workerID : string) : pool_act bool :=
  let campaignID := trim_space campaignID in let workerID := trim_space workerID in
  if String.eqb campaignID "" || (itemID <=? 0) || String.eqb workerID "" then afail "poolfuzz: release lease requires campaign_id, item_id, worker_id"
  else
    let! aff := update_items (λ w, is_item campaignID itemID w && leased_by workerID w)
      (λ w, with_proven no_proof (on_queue (release_cols now) w)) in
    if 0 <? aff then clearLeaseProven campaignID itemID ;!; clearEmptyClaimCache ;!; aret true else aret false.

(** * The periodic sweep *)

Record TickEnv := mkTickEnv {
  tick_settler : option Settler; churn_max : Z; stalled_sec : Z; tick_harness : Cfg → bool;
  tick_payout : string → string; tick_native : Finding → bool; tick_requires_native : Cfg → bool;
}.

Definition tick_campaign (now : Z) (id : string) : pool_act unit :=
  EnsureWorkItems id now ;!; reconcileActiveCampaignWork id now ;!; recomputeProgress id now ;!; aret tt.

Definition Tick (t : TickEnv) (now : Z) : pool_act unit :=
  ReclaimExpiredLeases now ;!;
  ForceCompleteLeaseChurnItems (tick_settler t) (churn_max t) now 50 ;!;
  amod (λ p, set_sweep (u64 (staleSweepN p + 1)) p) ;!;
  let! p := aget in
  (if staleSweepN p mod 12 =? 0 then
     CancelStuckExpiredLeaseCampaigns now 3600 50 ;!;
     CancelZeroProgressPoolCampaigns now 7200 100 ;!;
     CancelHuntCampaignsMissingHarness (tick_harness t) now 900 50 ;!;
     CancelPendingOfFinishedCampaigns now ;!;
     ForceCompleteStalledNearDoneCampaigns (tick_settler t) (stalled_sec t) now 30 ;!; aret tt
   else aret tt) ;!;
  let! p := aget in
  let ids := take 200 (by_created (List.filter active (campaigns p))) in
  RepairZombiePoolCampaigns now 10 ;!;
  let! p := aget in
  let pool := List.filter (λ id, poolDistributed (default ∅ (c_cfg <$> get_campaign id p))) (map c_id ids) in
  let deferred := atry (flushDeferredBounties (tick_settler t) (tick_payout t) (tick_native t) (tick_requires_native t)) in
  match pool with
  | [] => deferred
  | _ =>
      let n := Z.of_nat (length pool) in
      let! batch := (if n <=? 24 then aret pool
                     else amod (λ p, set_tickRR (u64 (tickRR p + 1)) p) ;!;
                          let! p := aget in aret (take 24 (rotate (tickRR p mod n) pool))) in
      afor (tick_campaign now) batch ;!; deferred
  end.
