(* ===== verification/PoolSubmit.v ===== *)
(** Accepting submitted work: Dig units, coverage-engine units, and Hunt shards verified by a queue
    of replays.

    Sources: internal/poolfuzz/service.go (SubmitWithOutcome, insertFinding), hunt_replay_async.go,
    guided.go (expectedInputsForSubmit), hunt_engine.go (huntEngineServerWallMS).

    Coverage and corpus bookkeeping, which no queue or payment column depends on, is left out. *)
From S2P Require Import Prelude PoolCfg GoText Json Address PoolBase PoolOutbox PoolQueue PoolVerify PoolClaim.

Record SubmitOutcome := mkOutcome { so_async : bool; ReplayStatus : string; QueueID : Z }.
Definition outcome_done : SubmitOutcome := mkOutcome false "done" 0.

Record SubmitEnv := mkSubmitEnv {
  s_env : Getenv; s_runs : Runs; s_settler : option Settler;
  classify : Cfg → SubmitRequest → string * string;       (** type and severity of a finding *)
  bounty_native : Cfg → string → bool;                    (** [bountyAllowed] of a finding id *)
}.

(** * Inputs the worker had to use *)

Definition expectedInputsForSubmit (R : Runs) (w : WorkItem) (cfg : Cfg) : result (Z * string) :=
  if IsHuntCampaign cfg then Ok (default (HuntShardInput R (w_campaign w) (input_n w) cfg) (w_expected w))
  else match w_expected w with
       | Some i => Ok i
       | None => if GuidedSchedulingEnabled R cfg then Err "poolfuzz: guided work item missing expected input (reclaim required)"
                 else Ok (derivePoolInputs R (input_n w) cfg)
       end.

Definition check_inputs (E : SubmitEnv) (cfg : Cfg) (req : SubmitRequest) (inputN u : Z) (b : string) : result unit :=
  let R := s_runs E in
  let execPer := if IsHuntCampaign cfg then huntSubmitExecExpected (s_env E) R cfg req else PoolExecPerUnit R cfg in
  if negb (InputN req =? 0) && negb (InputN req =? inputN) then Err "poolfuzz: input_n mismatch"
  else if negb (ActualInput req =? u) then Err "poolfuzz: actual_input mismatch"
  else if negb (String.eqb (InputBytes req) b)
  then Err (if String.eqb b "" then "poolfuzz: unexpected input_bytes" else "poolfuzz: input_bytes mismatch")%string
  else if ParseMaxInputBytes R cfg <? str_len b then Err "poolfuzz: input_bytes exceed max_input_bytes"
  else if 1 <? execPer then
    if negb (SegmentExecDone req =? execPer) then Err "poolfuzz: segment_exec_done mismatch" else Ok tt
  else if (0 <? SegmentExecDone req) && negb (SegmentExecDone req =? 1)
  then Err "poolfuzz: unexpected segment_exec_done for single-exec unit" else Ok tt.

(** * Findings *)

(** [WasmCheckInputParts]: the 16 bits after the opcode of an input. *)
Definition wasm_item (u : Z) : Z := Z.land (Z.shiftr u 8) 65535.
(** The first eight bytes, little-endian. *)
Fixpoint pack_bytes (n : nat) (s : string) : Z :=
  match n, s with
  | S k, String a r => Z.of_nat (nat_of_ascii a) + 256 * pack_bytes k r
  | _, _ => 0
  end.
Definition PackInputBytesToU64 (b : string) : Z := pack_bytes 8 b.

(** The number stored as [item_id] in the details is that of the input, not of the work item. *)
Definition insertFinding (E : SubmitEnv) (req : SubmitRequest) (cfg : Cfg) (now : Z) : pool_act (string * string * string) :=
  let '(ft, sev) := classify E cfg req in
  let id := "finding-pool-" +:+ CampaignID req +:+ "-" +:+ fmt_int (ItemID req) +:+ "-" +:+ fmt_int now in
  let! p := aget in
  (if existsb (λ f, String.eqb (f_id f) id) (findings p) then aret tt
   else amod (set_findings (λ l, l ++ [mkFinding id (CampaignID req) ft sev now (trim_space (MinerAddress req)) (WorkerID req) (wasm_item (ActualInput req))]))) ;!;
  aret (id, sev, ft).

(** An open bounty is noted on the item before the settlements are flushed. *)
Definition note_bounty (E : SubmitEnv) (cfg : Cfg) (req : SubmitRequest) (record : bool) (findingID sev : string) : pool_act unit :=
  if record && huntBountyEligible cfg sev && bounty_native E cfg findingID
  then update_items (is_item (CampaignID req) (ItemID req)) (on_pay (want_finding sev)) ;!; aret tt else aret tt.
Definition crash_bonus (St : Settler) (req : SubmitRequest) (record : bool) (ft : string) : pool_act unit :=
  let miner := trim_space (MinerAddress req) in
  if record && negb (String.eqb miner "") && IsCrashClass ft then
    λ p, match PayCrashBonus St (CampaignID req) miner 0 0 p with
         | (Ok _, p') => (Ok tt, p')
         | (Err e, p') => if existsb (str_contains (to_lower e)) ["already paid"; "depleted"; "closed"] then (Ok tt, p')
                          else (Err ("poolfuzz: settle crash bonus: " +:+ e), p')
         end
  else aret tt.

Definition run_stamp (floor : bool) : RunSt := if floor then RunPendingFloor else RunPending.

(** * Dig: the verdict is final at once *)

(** The request after the verdict; only the lease owner completes the item. *)
Definition submit_dig (E : SubmitEnv) (cfg : Cfg) (req : SubmitRequest) (v : Verdict) (status : string) (now : Z) : pool_act SubmitOutcome :=
  let workerID := trim_space (WorkerID req) in
  let cid := CampaignID req in let item := ItemID req in
  let minerBind := if v_pass v || v_record v then trim_space (MinerAddress req) else EmptyString in
  let! p := aget in
  let pays := match s_settler E with Some _ => escrowEnabled cfg && negb (String.eqb minerBind "") | None => false end in
  let stamp := if pays && (v_pass v || (negb (IsHuntCampaign cfg) && v_record v)) && campaignAcceptsSettle cid p then RunPending else RunNone in
  if String.eqb workerID "" then afail "poolfuzz: worker_id required"
  else
    let! aff := update_items (λ w, is_item cid item w && leased_by workerID w)
      (λ w, on_pay (bind_run minerBind stamp) (on_queue (done_cols (v_pass v) (DurationMS req) (trim_space (v_trap v)) now) w)) in
    if aff =? 0 then
      let! p := aget in
      match get_item cid item p with
      | None => afail "poolfuzz: work item not found"
      | Some w =>
          match w_status w with
          | WPending => afail "poolfuzz: work item not leased (claim first)"
          | WLeased => if negb (String.eqb (lease_owner (w_q w)) "") && negb (String.eqb (lease_owner (w_q w)) workerID)
                       then afail "poolfuzz: work item leased by another worker" else afail "poolfuzz: work item not leased by worker"
          | _ => flushPendingSettles (s_settler E) cid item cfg ;!; after_work (s_settler E) cid cfg now ;!; aret (mkOutcome false "" 0)
          end
      end
    else
      let! (findingID, sev, ft) := (if v_record v
        then insertFinding E (with_verdict (InputN req) (v_u v) (if String.eqb (v_b v) "" then InputBytes req else v_b v) (v_check v) (v_trap v) req) cfg now
        else aret ("", "", "")%string) in
      (match s_settler E with
       | Some St => if pays then
             note_bounty E cfg req (v_record v) findingID sev ;!;
             flushPendingSettles (s_settler E) cid item cfg ;!;
             crash_bonus St req (v_record v) ft
           else aret tt
       | None => aret tt
       end) ;!;
      after_work (s_settler E) cid cfg now ;!;
      aret (mkOutcome false status 0).

(** * Hunt: completing a shard *)

Record Finalize_params := mkFin {
  fp_req : SubmitRequest; fp_cfg : Cfg; fp_verdict : HuntVerdict; fp_from_replay : bool; fp_engine_mode : bool; fp_full_pay : bool;
}.

Definition finalizeHuntSubmit (E : SubmitEnv) (P : Finalize_params) (now : Z) : pool_act unit :=
  let req := fp_req P in let cfg := fp_cfg P in let v := fp_verdict P in
  let cid := CampaignID req in let item := ItemID req in
  let minerBind := if h_pass v || h_record v then trim_space (MinerAddress req) else EmptyString in
  let! p := aget in
  let pays := match s_settler E with Some _ => escrowEnabled cfg && negb (String.eqb minerBind "") | None => false end in
  let wantRun := pays && h_pass v && campaignAcceptsSettle cid p in
  let floor := fp_engine_mode P && negb (fp_full_pay P) && negb (h_record v) in
  let stamp := if wantRun && negb (floor && negb (huntEngineFloorPayRunEnabled (s_env E))) then run_stamp floor else RunNone in
  let! (findingID, sev, ft) := (if h_record v
    then insertFinding E (with_verdict (InputN req) (if String.eqb (h_b v) "" then ActualInput req else PackInputBytesToU64 (h_b v))
                            (if String.eqb (h_b v) "" then InputBytes req else h_b v)
                            (CheckResult req) (Trap req) req) cfg now
    else aret ("", "", "")%string) in
  let! aff := update_items (λ w, is_item cid item w && (if fp_from_replay P then status_in [WReplay] w else leased_by (WorkerID req) w))
    (λ w, on_pay (bind_run minerBind stamp) (on_queue (done_cols (h_pass v) (DurationMS req) (trim_space (Trap req)) now) w)) in
  if aff =? 0 then
    let! p := aget in
    match (w_status <$> get_item cid item p), s_settler E with
    | Some WDone, Some _ =>
        if escrowEnabled cfg then
          awrap "poolfuzz: settle flush: " (flushPendingSettles (s_settler E) cid item cfg) ;!;
          after_work (s_settler E) cid cfg now
        else afail "poolfuzz: hunt finalize: work item state changed"
    | _, _ => afail "poolfuzz: hunt finalize: work item state changed"
    end
  else
    (match s_settler E with
     | Some St => if pays then
           note_bounty E cfg req (h_record v) findingID sev ;!;
           awrap "poolfuzz: settle flush: " (flushPendingSettles (s_settler E) cid item cfg) ;!;
           crash_bonus St req (h_record v) ft
         else aret tt
     | None => aret tt
     end) ;!;
    after_work (s_settler E) cid cfg now.

(** * Hunt: the replay queue *)

(** [INSERT ... ON CONFLICT(campaign_id, item_id) DO UPDATE]: the first claim stays. *)
Definition requeue (worker : string) (now : Z) (r : ReplayRow) : ReplayRow :=
  let closed := st_in (rr_status r) [RDone; RFailed] in
  mkReplay (rr_id r) (rr_campaign r) (rr_item r) (if String.eqb (rr_worker r) "" then worker else rr_worker r) (rr_miner r)
    (rr_input r) (rr_check r) (rr_trap r) (rr_exec r) (rr_duration r)
    (if closed || st_in (rr_status r) [RProcessing] then rr_status r else RPending)
    (if closed then rr_error r else EmptyString) (rr_verifier r) (rr_created r) now.
Definition is_job (cid : string) (item : Z) (r : ReplayRow) : bool := String.eqb (rr_campaign r) cid && (rr_item r =? item).
Definition get_job (cid : string) (item : Z) (p : Pool) : option ReplayRow := List.find (is_job cid item) (replays p).

Definition ensureHuntReplayQueueRow (req : SubmitRequest) (inputN : Z) (miner : string) (now : Z) : pool_act Z := λ p,
  match get_job (CampaignID req) (ItemID req) p with
  | Some r => (Ok (rr_id r), set_replays (upd (is_job (CampaignID req) (ItemID req)) (requeue (WorkerID req) now)) (replay_seq p) p)
  | None =>
      let id := replay_seq p + 1 in
      (Ok id, set_replays (λ l, l ++ [mkReplay id (CampaignID req) (ItemID req) (WorkerID req) miner inputN (CheckResult req)
         (trim_space (Trap req)) (SegmentExecDone req) (DurationMS req) RPending "" "" now now]) id p)
  end.

(** A repeated submit of a shard that waits for its replay: refused unless nothing changes. *)
Definition resubmit_allowed (req : SubmitRequest) (job : option ReplayRow) : result unit :=
  let miner := trim_space (MinerAddress req) in
  let worker := default EmptyString (rr_worker <$> job) in
  let qminer := default EmptyString (rr_miner <$> job) in
  if negb (String.eqb worker "") && negb (String.eqb worker (trim_space (WorkerID req)))
  then Err "poolfuzz: hunt replay already claimed by another worker"
  else if negb (String.eqb qminer "") && negb (String.eqb miner "") && negb (String.eqb qminer miner)
  then Err "poolfuzz: hunt replay miner_address mismatch"
  else if String.eqb qminer "" && negb (String.eqb miner "") then Err "poolfuzz: hunt replay refuse miner_address bind after claim"
  else if huntClaimChanged (default 0 (rr_check <$> job)) (default EmptyString (rr_trap <$> job)) (CheckResult req) (Trap req)
  then Err "poolfuzz: hunt replay refuse claim change" else Ok tt.

(** One transaction: the whole operation rolls back on an error. *)
Definition enqueueHuntReplay (req : SubmitRequest) (inputN now : Z) : pool_act SubmitOutcome := λ p,
  let miner := trim_space (MinerAddress req) in
  let cid := CampaignID req in let item := ItemID req in
  let queued q := mkOutcome true "pending" q in
  let body : pool_act SubmitOutcome :=
    let! aff := update_items (λ w, is_item cid item w && leased_by (WorkerID req) w)
      (on_queue (λ c, mkQueue WReplay (attempts c) (last_error c) "" 0 (result_ok c) (DurationMS req) now)) in
    if aff =? 0 then
      let! p := aget in
      match w_status <$> get_item cid item p with
      | Some WReplay => alift (resubmit_allowed req (get_job cid item p)) ;!;
                        let! q := ensureHuntReplayQueueRow req inputN miner now in aret (queued q)
      | Some WDone | Some WCancelled => aret outcome_done
      | _ => afail "poolfuzz: work item not leased by worker"
      end
    else let! q := ensureHuntReplayQueueRow req inputN miner now in aret (queued q) in
  match body p with (Ok o, p') => (Ok o, p') | (Err e, _) => (Err e, p) end.

Definition huntReplayStaleProcessingSec : Z := 900.
Definition reclaimStaleHuntReplayJobs (now : Z) : pool_act unit :=
  update_replays (λ r, st_in (rr_status r) [RProcessing] && (rr_updated r <? now - huntReplayStaleProcessingSec))
    (on_job RPending (λ e, if String.eqb e "" then "reclaimed stale processing"%string else e) (λ _, "") now) ;!; aret tt.

(** Oldest pending row by creation time, then id; taken in one transaction. *)
Definition next_job (p : Pool) : option ReplayRow :=
  foldl (λ best r, match best with Some b => if rr_created r <? rr_created b then Some r else best | None => Some r end)
    None (List.filter (λ r, st_in (rr_status r) [RPending]) (replays p)).
Definition job_row (id : Z) (st : list ReplaySt) (r : ReplayRow) : bool := (rr_id r =? id) && st_in (rr_status r) st.
Definition take_job (verifier : string) (now : Z) : pool_act (option ReplayRow) :=
  let! p := aget in
  match next_job p with
  | None => aret None
  | Some j => update_replays (job_row (rr_id j) [RPending]) (on_job RProcessing (λ e, e) (λ _, verifier) now) ;!; aret (Some j)
  end.

Definition huntReplayStillOwned (id : Z) (verifier : string) (p : Pool) : bool :=
  existsb (λ r, job_row id [RProcessing] r && String.eqb (rr_verifier r) verifier) (replays p).
Definition touchHuntReplayJob (id now : Z) : pool_act unit :=
  update_replays (job_row id [RProcessing]) (on_job RProcessing (λ e, e) (λ v, v) now) ;!; aret tt.

Definition job_request (j : ReplayRow) (u : Z) (b : string) : SubmitRequest :=
  mkSubmit (rr_worker j) (rr_miner j) (rr_campaign j) (rr_item j) (rr_input j) u b (rr_check j) (rr_duration j) (rr_trap j)
    (rr_exec j) 0 false "" "".

(** The replay itself, up to its verdict; harness runs take long, so the job is checked again after it. *)
Definition start_job (E : SubmitEnv) (j : ReplayRow) (now : Z) : pool_act (Cfg * SubmitRequest * string) :=
  touchHuntReplayJob (rr_id j) now ;!;
  let! c := the_campaign (rr_campaign j) in
  if str_in (to_lower (trim_space (c_status c))) ["cancelled"; "paused"; "completed"] then
    update_items (λ w, is_item (rr_campaign j) (rr_item j) w && status_in [WReplay] w) (on_queue (set_status WCancelled now)) ;!;
    afail ("poolfuzz: campaign " +:+ c_status c)
  else if negb (IsHuntCampaign (c_cfg c)) then afail "poolfuzz: replay job not hunt campaign"
  else
    let! p := aget in
    match get_item (rr_campaign j) (rr_item j) p with
    | None => afail "poolfuzz: work item not found"
    | Some w =>
        let! (u, b) := alift (expectedInputsForSubmit (s_runs E) w (c_cfg c)) in
        touchHuntReplayJob (rr_id j) now ;!;
        aret (c_cfg c, job_request j u b, b)
    end.

Definition floor_gate (cfg : Cfg) (record : bool) : bool * bool :=
  if huntEdgePayFloorOnly cfg then (true, record) else (false, false).

Definition errHuntReplayLostOwnership : string := "poolfuzz: hunt replay lost ownership".
(** After the replay: [verdict] is what the harness runs gave. *)
Definition finish_job (E : SubmitEnv) (j : ReplayRow) (verifier : string) (cfg : Cfg) (req : SubmitRequest) (verdict : result HuntVerdict) (now : Z) : pool_act unit :=
  let! v := alift verdict in
  let! p := aget in
  if negb (huntReplayStillOwned (rr_id j) verifier p) then afail errHuntReplayLostOwnership
  else
    let '(mode, full) := floor_gate cfg (h_record v) in
    finalizeHuntSubmit E (mkFin (with_verdict (InputN req) (ActualInput req) (InputBytes req) (h_check v) (h_trap v) req) cfg v true mode full) now.

(** How the outcome of a job is written back; the second result is whether to go on with the queue. *)
Definition retry_job (j : ReplayRow) (err : string) (now : Z) : pool_act bool :=
  update_replays (job_row (rr_id j) [RProcessing])
    (on_job RPending (λ _, "retry:" +:+ fmt_int (huntReplayRetryCount (rr_error j) + 1) +:+ ":" +:+ err) (λ _, "") now) ;!; aret false.
Definition close_job (j : ReplayRow) (st : ReplaySt) (err : string) (now : Z) : pool_act bool :=
  update_replays (λ r, rr_id r =? rr_id j) (on_job st (λ _, err) (λ v, v) now) ;!; aret true.
Definition settle_job (j : ReplayRow) (outcome : result unit) (now : Z) : pool_act bool :=
  match outcome with
  | Ok _ => close_job j RDone "" now
  | Err err =>
      let! p := aget in
      let retry := huntReplayRetryable err && (huntReplayRetryCount (rr_error j) + 1 <=? huntReplayMaxRetries) in
      if retry then retry_job j err now
      else match w_status <$> get_item (rr_campaign j) (rr_item j) p with
           | Some WDone => close_job j RDone err now
           | _ => close_job j RFailed err now ;!;
                  update_items (λ w, is_item (rr_campaign j) (rr_item j) w && status_in [WReplay] w)
                    (on_queue (λ c, mkQueue WDone (attempts c) err (lease_owner c) (lease_until c) false (duration_ms c) now)) ;!;
                  aret true
           end
  end.

Definition runHuntReplayJob (E : SubmitEnv) (j : ReplayRow) (verifier : string) (now : Z) : pool_act unit :=
  let! (cfg, req, b) := start_job E j now in
  finish_job E j verifier cfg req (evalHuntSubmitCheck (s_env E) (s_runs E) cfg req (rr_input j) b 0) now.

(** [reclaim] is whether the throttled sweep of stale jobs is due. *)
Definition processNextHuntReplayJob (E : SubmitEnv) (verifier : string) (reclaim : bool) (now : Z) : pool_act bool :=
  (if reclaim then reclaimStaleHuntReplayJobs now else aret tt) ;!;
  let! oj := take_job verifier now in
  match oj with
  | None => aret false
  | Some j => λ p, let '(r, p') := runHuntReplayJob E j verifier now p in settle_job j r now p'
  end.

(** [for { ok := processNext(); if !ok { return } }]: drained, or out of fuel; [clock i] is the reading of pass [i] and
    whether the throttled reclaim was due.  The database errors that would end the loop early are not modelled. *)
Fixpoint DrainHuntReplayQueue (fuel : nat) (E : SubmitEnv) (clock : nat → bool * Z) (i : nat) : pool_act bool :=
  match fuel with
  | O => aret false
  | S k => let! ok := processNextHuntReplayJob E "drain" (clock i).1 (clock i).2 in
           if ok then DrainHuntReplayQueue k E clock (i + 1)%nat else aret true
  end.

(** * Submit *)

Definition huntEngineServerWallMS (w : WorkItem) (now : Z) : result Z :=
  match w_status w with
  | WLeased => let at_ := updated_at (w_q w) in Ok (if (at_ <=? 0) || (now <? at_) then 0 else (now - at_) * 1000)
  | _ => Err "poolfuzz: hunt_engine_wall: item not leased"
  end.

Definition submit_engine (E : SubmitEnv) (cfg : Cfg) (req : SubmitRequest) (w : WorkItem) (inputN u : Z) (b : string) (now : Z) : pool_act SubmitOutcome :=
  let! wall := alift (huntEngineServerWallMS w now) in
  alift (checkHuntEngineWallFloor (s_env E) (s_runs E) req cfg wall) ;!;
  let! p := aget in
  let! v := alift (evalHuntSubmitCheck (s_env E) (s_runs E) cfg req inputN b (p_crashes (peekLeaseProven (CampaignID req) (ItemID req) p))) in
  let req := with_verdict inputN u b (h_check v) (h_trap v) req in
  let! proven := takeLeaseProvenPersist (CampaignID req) (ItemID req) in
  stampHuntProvenOnSubmit (CampaignID req) (ItemID req) (WorkerID req) proven (HuntEngine req) (EngineVersion req) ;!;
  let '(_, full) := DecideHuntEnginePayForConfig cfg (p_edges proven) (p_seeds proven) (p_crashes proven) (EdgesTouched req) (EdgesTouchedOK req) in
  (if h_pass v && negb (h_record v) then alift (rejectCanaryMissIfNeeded (s_runs E) (is_canary w) cfg req u b) else aret tt) ;!;
  finalizeHuntSubmit E (mkFin req cfg v false true (if h_record v then true else full)) now ;!;
  aret outcome_done.

Definition submit_hunt_sync (E : SubmitEnv) (cfg : Cfg) (req : SubmitRequest) (w : WorkItem) (inputN u : Z) (b : string) (now : Z) : pool_act SubmitOutcome :=
  let! v := alift (evalHuntSubmitCheck (s_env E) (s_runs E) cfg req inputN b 0) in
  let req := with_verdict inputN u b (h_check v) (h_trap v) req in
  (if h_pass v && negb (h_record v) then alift (rejectCanaryMissIfNeeded (s_runs E) (is_canary w) cfg req u b) else aret tt) ;!;
  let '(mode, full) := floor_gate cfg (h_record v) in
  finalizeHuntSubmit E (mkFin req cfg v false mode full) now ;!;
  aret outcome_done.

Definition SubmitWithOutcome `{Crypto} (E : SubmitEnv) (req : SubmitRequest) (now : Z) : pool_act SubmitOutcome :=
  let! p := aget in
  let cfg := default ∅ (c_cfg <$> get_campaign (CampaignID req) p) in
  match get_item (CampaignID req) (ItemID req) p with
  | None => afail "sql: no rows in result set"
  | Some w =>
      let inputN := input_n w in
      let! (u, b) := alift (expectedInputsForSubmit (s_runs E) w cfg) in
      alift (check_inputs E cfg req inputN u b) ;!;
      if IsHuntCampaign cfg then
        if huntEngineSubmitMode (s_env E) req then submit_engine E cfg req w inputN u b now
        else if huntReplayAsyncEnabled (s_env E) && poolDistributed cfg then enqueueHuntReplay req inputN now
        else submit_hunt_sync E cfg req w inputN u b now
      else
        let! (v, status) := alift (dig_verdict (s_env E) (s_runs E) (is_canary w) cfg req inputN u b) in
        submit_dig E cfg (with_verdict inputN u b (v_check v) (v_trap v) req) v status now
  end.
