(* ===== verification/PoolFair.v ===== *)
(** The fair window of the settle outbox: what a batch of pending payments contains.

    The window never takes a row before an older one of the same campaign (so a finalize, which is
    read last, never overtakes a payment), it is full, and every campaign has a row in it as long as
    there are no more campaigns than places. *)
From S2P Require Import Prelude PoolCfg GoText PoolBase PoolOutbox.

(** * Lists filtered by campaign *)

Lemma queue_app l l' cid : queue_of (l ++ l') cid = queue_of l cid ++ queue_of l' cid.
Proof. apply List.filter_app. Qed.

Lemma queue_single it cid : queue_of [it] cid = if decide (row_campaign it = cid) then [it] else [].
Proof.
  unfold queue_of. cbn. destruct (String.eqb_spec (row_campaign it) cid); case_decide; congruence.
Qed.

Lemma queue_elem it l cid : it ∈ queue_of l cid ↔ it ∈ l ∧ row_campaign it = cid.
Proof. unfold queue_of. rewrite !list_elem_of_In, List.filter_In, String.eqb_eq. done. Qed.

Lemma str_in_elem s l : str_in s l = true ↔ s ∈ l.
Proof.
  unfold str_in. rewrite existsb_exists. setoid_rewrite String.eqb_eq. setoid_rewrite list_elem_of_In. split.
  - by intros (x & Hx & ->).
  - intros. by exists s.
Qed.

Lemma distinct_elem seen l x : x ∈ distinct seen l ↔ x ∈ l ∧ x ∉ seen.
Proof.
  revert seen. induction l as [|y l IH]; intros seen; cbn [distinct]; [set_solver|].
  destruct (str_in y seen) eqn:E.
  - rewrite IH. apply str_in_elem in E. set_solver.
  - assert (y ∉ seen) by (rewrite <- str_in_elem, E; done).
    rewrite !elem_of_cons, IH. destruct (decide (x = y)); set_solver.
Qed.

Lemma distinct_NoDup seen l : NoDup (distinct seen l).
Proof.
  revert seen. induction l as [|y l IH]; intros seen; cbn [distinct]; [constructor|].
  destruct (str_in y seen); [apply IH|]. constructor; [|apply IH]. rewrite distinct_elem. set_solver.
Qed.

(** * The round robin *)

(** [out] holds, of every campaign, exactly the rows counted by [idx], oldest first. *)
Definition taken (q : string → list OutItem) (idx : gmap string nat) (out : list OutItem) : Prop :=
  ∀ cid, queue_of out cid = take (default 0%nat (idx !! cid)) (q cid).

Section fair.
Context (q : string → list OutItem) (Hq : ∀ cid it, it ∈ q cid → row_campaign it = cid) (limit perCamp : nat).
#[local] Set Default Proof Using "All".

Lemma taken_snoc idx out cid it : taken q idx out → q cid !! default 0%nat (idx !! cid) = Some it →
  taken q (<[cid := S (default 0%nat (idx !! cid))]> idx) (out ++ [it]).
Proof.
  intros Ht Hn c. rewrite queue_app, Ht, queue_single.
  assert (row_campaign it = cid) as Hc by (eapply Hq, list_elem_of_lookup_2, Hn).
  destruct (decide (row_campaign it = c)) as [He|He].
  - assert (c = cid) as -> by congruence. rewrite lookup_insert_eq. cbn.
    symmetry. by apply take_S_r.
  - rewrite lookup_insert_ne by congruence. by rewrite app_nil_r.
Qed.

Lemma fair_pass_prefix order idx out b idx' out' b' :
  fair_pass limit perCamp q order idx out b = (idx', out', b') → out `prefix_of` out'.
Proof using.
  revert idx out b. induction order as [|cid order IH]; intros idx out b; cbn [fair_pass]; [by intros [= <- <- <-]|].
  destruct (perCamp <=? _)%nat; [by apply IH|]. destruct (q cid !! _) as [it|]; [|by apply IH].
  destruct (limit <=? _)%nat; [intros [= <- <- <-]; by eexists|].
  intros H. apply IH in H. etrans; [by eexists|exact H].
Qed.

Lemma fair_pass_taken order idx out b idx' out' b' : taken q idx out →
  fair_pass limit perCamp q order idx out b = (idx', out', b') → taken q idx' out'.
Proof.
  revert idx out b. induction order as [|cid order IH]; intros idx out b Ht; cbn [fair_pass].
  - intros [= <- <- <-]. done.
  - destruct (perCamp <=? _)%nat; [by apply IH|]. destruct (q cid !! _) as [it|] eqn:Hn; [|by apply IH].
    pose proof (taken_snoc _ _ _ _ Ht Hn) as Ht'. destruct (limit <=? _)%nat.
    + by intros [= <- <- <-].
    + by apply IH.
Qed.

Lemma fair_pass_length order idx out b idx' out' b' : (length out < limit)%nat →
  fair_pass limit perCamp q order idx out b = (idx', out', b') →
  (length out' ≤ limit)%nat ∧ (b' = true → b = true ∨ (length out < length out')%nat).
Proof.
  revert idx out b. induction order as [|cid order IH]; intros idx out b Hl; cbn [fair_pass].
  - intros [= <- <- <-]. split; [lia|by left].
  - destruct (perCamp <=? _)%nat; [by apply IH|]. destruct (q cid !! _) as [it|] eqn:Hn; [|by apply IH].
    assert (length (out ++ [it]) = S (length out)) as Hs by (rewrite length_app; cbn; lia).
    destruct (Nat.leb_spec limit (length (out ++ [it]))) as [Hb|Hb].
    + intros [= <- <- <-]. split; [lia|right; lia].
    + intros H. pose proof (prefix_length _ _ (fair_pass_prefix _ _ _ _ _ _ _ H)) as Hp. apply IH in H as [? _]; [|lia]. split; [done|right; lia].
Qed.

Lemma fair_pass_covers order idx out b idx' out' b' : NoDup order → (0 < perCamp)%nat →
  (∀ cid, cid ∈ order → idx !! cid = None ∧ q cid ≠ []) → (length out + length order ≤ limit)%nat →
  fair_pass limit perCamp q order idx out b = (idx', out', b') →
  ∀ cid, cid ∈ order → ∃ it, it ∈ out' ∧ row_campaign it = cid.
Proof.
  revert idx out b. induction order as [|cid order IH]; intros idx out b Hn Hp Hz Hl; cbn [fair_pass]; [set_solver|].
  apply list.NoDup_cons in Hn as [Hcid Hn]. destruct (Hz cid ltac:(left)) as [Hi Hne]. rewrite Hi. cbn [default].
  destruct (Nat.leb_spec perCamp 0); [lia|]. destruct (q cid) as [|it l] eqn:Hqc; [done|]. cbn [lookup list_lookup].
  assert (row_campaign it = cid) as Hrow by (apply Hq; rewrite Hqc; left).
  assert (length (out ++ [it]) = S (length out)) as Hs by (rewrite length_app; cbn; lia). cbn [length] in Hl.
  destruct (Nat.leb_spec limit (length (out ++ [it]))) as [Hb|Hb].
  - intros [= <- <- <-]. assert (order = []) as -> by (destruct order; cbn in *; [done|lia]).
    intros c [->|Hc]%elem_of_cons; [|set_solver]. exists it. split; [set_solver|done].
  - intros Hf. intros c [->|Hc]%elem_of_cons.
    + destruct (fair_pass_prefix _ _ _ _ _ _ _ Hf) as [k ->].
      exists it. split; [set_solver|done].
    + eapply IH; [done|done| |rewrite Hs; lia|exact Hf|exact Hc].
      intros c' Hc'. rewrite lookup_insert_ne by (intros ->; done). apply Hz. by right.
Qed.
End fair.

Section rounds.
Context (q : string → list OutItem) (Hq : ∀ cid it, it ∈ q cid → row_campaign it = cid) (limit perCamp : nat) (order : list string).
#[local] Set Default Proof Using "All".

Lemma fair_rounds_taken fuel idx out : taken q idx out → (length out ≤ limit)%nat →
  ∃ idx', taken q idx' (fair_rounds fuel limit perCamp q order idx out) ∧
    (length (fair_rounds fuel limit perCamp q order idx out) ≤ limit)%nat ∧
    out `prefix_of` fair_rounds fuel limit perCamp q order idx out.
Proof.
  revert idx out. induction fuel as [|k IH]; intros idx out Ht Hl; cbn [fair_rounds]; [by exists idx|].
  destruct (Nat.leb_spec limit (length out)); [by exists idx|].
  destruct (fair_pass _ _ _ _ _ _ _) as [[idx' out'] b] eqn:Hf.
  pose proof (fair_pass_taken q Hq _ _ _ _ _ _ _ _ _ Ht Hf) as Ht'.
  destruct (fair_pass_length q Hq _ _ _ _ _ _ _ _ _ H Hf) as [Hl' _].
  pose proof (fair_pass_prefix q _ _ _ _ _ _ _ _ _ Hf) as Hp.
  destruct b; [|by exists idx'].
  destruct (IH _ _ Ht' Hl') as (i & ? & ? & ?). exists i. split_and!; [done..|by etrans].
Qed.

(** Every round but the last adds a row: more fuel than [limit - length out] changes nothing. *)
Lemma fair_rounds_fuel k m idx out : (limit - length out < k)%nat →
  fair_rounds (k + m) limit perCamp q order idx out = fair_rounds k limit perCamp q order idx out.
Proof.
  revert idx out. induction k as [|k IH]; intros idx out Hk; [lia|]. cbn [fair_rounds Nat.add].
  destruct (Nat.leb_spec limit (length out)) as [|Hlt]; [done|].
  destruct (fair_pass _ _ _ _ _ _ _) as [[idx' out'] b] eqn:Hf.
  destruct (fair_pass_length q Hq _ _ _ _ _ _ _ _ _ Hlt Hf) as [? Hb].
  destruct b; [|done]. destruct (Hb eq_refl) as [|]; [done|]. apply IH. lia.
Qed.
End rounds.

(** * Filling up *)

Lemma fair_fill_out limit seen items out : (length out < limit)%nat →
  ∃ pre, pre `prefix_of` items ∧
    fair_fill limit seen items out = out ++ List.filter (λ it, negb (bool_decide (oi_id it ∈ seen))) pre ∧
    (length (fair_fill limit seen items out) ≤ limit)%nat ∧ (length (fair_fill limit seen items out) = limit ∨ pre = items).
Proof.
  revert out. induction items as [|it l IH]; intros out Hl; cbn [fair_fill].
  - exists []. cbn. rewrite app_nil_r. split_and!; [done..|lia|by right].
  - destruct (bool_decide (oi_id it ∈ seen)) eqn:Es.
    + destruct (IH out Hl) as (pre & Hp & E & Hle & Hor). exists (it :: pre). cbn. rewrite Es. cbn.
      split_and!; [by apply prefix_cons|done|done|]. destruct Hor as [| ->]; [by left|by right].
    + assert (length (out ++ [it]) = S (length out)) as Hs by (rewrite length_app; cbn; lia).
      destruct (Nat.leb_spec limit (length (out ++ [it]))) as [Hb|Hb].
      * exists [it]. cbn. rewrite Es. cbn. split_and!; [by apply prefix_cons, prefix_nil|done|lia|left; lia].
      * destruct (IH _ Hb) as (pre & Hp & E & Hle & Hor). exists (it :: pre). cbn. rewrite Es. cbn.
        split_and!; [by apply prefix_cons|by rewrite E, <- app_assoc|done|].
        destruct Hor as [| ->]; [by left|by right].
Qed.

Lemma queue_filter (f : OutItem → bool) l cid : queue_of (List.filter f l) cid = List.filter f (queue_of l cid).
Proof.
  unfold queue_of. induction l as [|x l IH]; cbn; [done|].
  destruct (f x) eqn:Ef, (String.eqb (row_campaign x) cid) eqn:Ec; cbn; rewrite ?Ef, ?Ec, IH; done.
Qed.

Lemma queue_prefix l l' cid : l `prefix_of` l' → queue_of l cid `prefix_of` queue_of l' cid.
Proof. intros [k ->]. rewrite queue_app. by eexists. Qed.

Lemma lfilter_all {A} (f : A → bool) l : (∀ x, x ∈ l → f x = true) → List.filter f l = l.
Proof. induction l as [|x l IH]; intros H; cbn; [done|]. rewrite (H x) by left. f_equal. apply IH. intros y Hy. apply H. by right. Qed.
Lemma lfilter_none {A} (f : A → bool) l : (∀ x, x ∈ l → f x = false) → List.filter f l = [].
Proof. induction l as [|x l IH]; intros H; cbn; [done|]. rewrite (H x) by left. apply IH. intros y Hy. apply H. by right. Qed.

(** The rows of a prefix that were not taken yet continue the taken ones. *)
Lemma take_then_rest (l : list OutItem) (k j : nat) (seen : gset Z) : NoDup (map oi_id l) →
  (∀ it, it ∈ l → oi_id it ∈ seen ↔ it ∈ take k l) →
  take k l ++ List.filter (λ it, negb (bool_decide (oi_id it ∈ seen))) (take j l) = take (k `max` j) l.
Proof.
  intros Hn Hs. set (f := λ it : OutItem, negb (bool_decide (oi_id it ∈ seen))).
  assert (NoDup l) as Hnl by (eapply NoDup_fmap_1; exact Hn).
  assert (∀ m, List.filter f (take m (take k l)) = []) as Hk.
  { intros m. apply lfilter_none. intros x Hx. apply subseteq_take in Hx. unfold f. apply negb_false_iff, bool_decide_eq_true.
    apply Hs; [by apply subseteq_take in Hx|done]. }
  assert (∀ m, List.filter f (take m (drop k l)) = take m (drop k l)) as Hd.
  { intros m. apply lfilter_all. intros x Hx. apply subseteq_take in Hx. unfold f. apply negb_true_iff, bool_decide_eq_false.
    intros Hi. apply Hs in Hi; [|by eapply subseteq_drop].
    rewrite <- (take_drop k l) in Hnl. apply list.NoDup_app in Hnl as (_ & Hdis & _). by eapply Hdis. }
  rewrite <- (take_drop k l) at 2. rewrite firstn_app, List.filter_app, Hk, Hd. cbn.
  destruct (decide (j ≤ k)%nat) as [Hjk|Hjk].
  - rewrite Nat.max_l by done. destruct (decide (k ≤ length l)%nat) as [Hkl|Hkl].
    + rewrite length_take, Nat.min_l by done. replace (j - k)%nat with 0%nat by lia. cbn. by rewrite app_nil_r.
    + rewrite (drop_ge l k) by lia. by rewrite take_nil, app_nil_r.
  - rewrite Nat.max_r by lia. destruct (decide (k ≤ length l)%nat) as [Hkl|Hkl].
    + rewrite length_take, Nat.min_l by done. rewrite <- (take_drop k l) at 3. rewrite firstn_app.
      rewrite (take_ge (take k l)) by (rewrite length_take; lia). by rewrite length_take, Nat.min_l by done.
    + rewrite (drop_ge l k), take_nil, app_nil_r by lia. by rewrite !take_ge by lia.
Qed.

(** * The window *)

Lemma taken_empty q : taken q ∅ [].
Proof. intros cid. by rewrite lookup_empty. Qed.

Lemma queue_row items cid it : it ∈ queue_of items cid → row_campaign it = cid.
Proof. by intros [_ ?]%queue_elem. Qed.

Lemma cap_share_pos limit n : 0 < limit → 1 < n → 0 < cap_share limit n ≤ limit.
Proof.
  intros. unfold cap_share. pose proof (Z.quot_pos limit (Z.min n 8) ltac:(lia) ltac:(lia)).
  destruct (Z.ltb_spec (Z.quot limit (Z.min n 8)) 8); destruct (Z.ltb_spec limit 8), (Z.ltb_spec limit (Z.quot limit (Z.min n 8))); lia.
Qed.

Lemma subset_queues l l' : (∀ cid, queue_of l cid `prefix_of` queue_of l' cid) → ∀ it, it ∈ l → it ∈ l'.
Proof.
  intros H it Hit. destruct (H (row_campaign it)) as [k Hk].
  assert (it ∈ queue_of l' (row_campaign it)) as Hq by (rewrite Hk, elem_of_app, queue_elem; by left).
  by apply queue_elem in Hq as [? _].
Qed.

Lemma nodup_map_filter {A B} (g : A → B) (f : A → bool) l : NoDup (map g l) → NoDup (map g (List.filter f l)).
Proof.
  induction l as [|x l IH]; cbn; [done|]. intros [Hx Hl]%list.NoDup_cons. destruct (f x); cbn; [|by apply IH].
  apply list.NoDup_cons. split; [|by apply IH]. intros (y & Hgy & Hy)%list_elem_of_fmap. apply Hx.
  apply list_elem_of_fmap. exists y. split; [done|]. apply list_elem_of_In, List.filter_In in Hy as [Hy _].
  by apply list_elem_of_In.
Qed.
Lemma nodup_filter {A} (f : A → bool) l : NoDup l → NoDup (List.filter f l).
Proof. intros H. rewrite <- (map_id (List.filter f l)). apply nodup_map_filter. by rewrite map_id. Qed.
Lemma nodup_map_inj {A B} (g : A → B) l x y : NoDup (map g l) → x ∈ l → y ∈ l → g x = g y → x = y.
Proof.
  intros Hn Hx Hy E. apply list_elem_of_lookup in Hx as [i Hi], Hy as [j Hj].
  assert (i = j) as ->; [|congruence]. eapply NoDup_lookup; [exact Hn| |].
  - rewrite list_lookup_fmap, Hi. reflexivity.
  - rewrite list_lookup_fmap, Hj, E. reflexivity.
Qed.
Lemma filter_split_length {A} (f : A → bool) l :
  length l = (length (List.filter f l) + length (List.filter (λ x, negb (f x)) l))%nat.
Proof. induction l as [|x l IH]; cbn; [done|]. destruct (f x); cbn; lia. Qed.

Section fill.
Context (items out0 : list OutItem) (idx : gmap string nat) (limit : nat) (Hn : NoDup (map oi_id items))
  (Ht : taken (queue_of items) idx out0) (Hl : (length out0 < limit ≤ length items)%nat).
#[local] Set Default Proof Using "All".
Let seen : gset Z := list_to_set (map oi_id out0).

Lemma out0_items it : it ∈ out0 → it ∈ items.
Proof.
  apply subset_queues. intros cid. rewrite Ht. exists (drop (default 0%nat (idx !! cid)) (queue_of items cid)).
  by rewrite take_drop.
Qed.

Lemma seen_out0 it : it ∈ items → oi_id it ∈ seen ↔ it ∈ out0.
Proof.
  intros Hi. unfold seen. rewrite elem_of_list_to_set, list_elem_of_fmap. split; [|by exists it].
  intros (x & Hx & Hxo). assert (it = x) as ->; [|done]. eapply nodup_map_inj; [exact Hn|done|by apply out0_items|done].
Qed.

(** Rows left out by the filter were taken before, and no more than those. *)
Lemma unseen_length : (length (List.filter (λ it, bool_decide (oi_id it ∈ seen)) items) ≤ length out0)%nat.
Proof.
  assert (NoDup items) as Hni by (eapply NoDup_fmap_1; exact Hn).
  apply submseteq_length, NoDup_submseteq.
  - apply (NoDup_fmap_1 oi_id). by apply nodup_map_filter.
  - intros x Hx. apply list_elem_of_In, List.filter_In in Hx as [Hx Hs]. apply list_elem_of_In in Hx.
    apply bool_decide_eq_true in Hs. by apply seen_out0.
Qed.

Lemma fair_fill_spec : let out := fair_fill limit seen items out0 in
  (∀ cid, queue_of out cid `prefix_of` queue_of items cid) ∧ length out = limit ∧ out0 `prefix_of` out.
Proof.
  intros out. destruct (fair_fill_out limit seen items out0) as (pre & Hpre & E & Hle & Hor); [lia|].
  fold out in E, Hle, Hor. split_and!.
  - intros cid. rewrite E, queue_app, queue_filter, Ht. destruct (queue_prefix _ _ cid Hpre) as [k Hk].
    replace (queue_of pre cid) with (take (length (queue_of pre cid)) (queue_of items cid)) by (by rewrite Hk, take_app_length).
    rewrite take_then_rest.
    + exists (drop (default 0%nat (idx !! cid) `max` length (queue_of pre cid)) (queue_of items cid)). by rewrite take_drop.
    + by apply nodup_map_filter.
    + intros it [Hi Hc]%queue_elem. rewrite <- Ht, queue_elem, seen_out0 by done. intuition.
  - destruct Hor as [|Hp]; [done|]. pose proof unseen_length as Hu.
    pose proof (filter_split_length (λ it, bool_decide (oi_id it ∈ seen)) items).
    rewrite E, Hp, length_app in Hle |- *. lia.
  - rewrite E. by eexists.
Qed.
End fill.

Section window.
Context (items : list OutItem) (limit : Z) (Hn : NoDup (map oi_id items)) (Hlim : 0 < limit).
#[local] Set Default Proof Using "All".
Let lim := Z.to_nat limit.
Let order := distinct [] (map row_campaign items).

Lemma order_queues cid : cid ∈ order → queue_of items cid ≠ [].
Proof.
  unfold order. rewrite distinct_elem, list_elem_of_fmap. intros [(it & -> & Hit) _] E.
  assert (it ∈ queue_of items (row_campaign it)) as Hq by (by apply queue_elem). rewrite E in Hq. set_solver.
Qed.

(** The rows after the first round, which gives every campaign a row if there is room for all. *)
Lemma rounds_cover perCamp : (0 < perCamp)%nat → (length order ≤ lim)%nat → ∀ it, it ∈ items →
  ∃ it', it' ∈ fair_rounds (S lim) lim perCamp (queue_of items) order ∅ [] ∧ row_campaign it' = row_campaign it.
Proof.
  intros Hp Ho it Hit. cbn [fair_rounds]. destruct (Nat.leb_spec lim (length (@nil OutItem))) as [H0|H0]; [cbn in H0; lia|].
  destruct (fair_pass _ _ _ _ _ _ _) as [[idx' out'] b] eqn:Hf.
  assert (∃ x, x ∈ out' ∧ row_campaign x = row_campaign it) as (x & Hx & Hrow).
  { apply (fair_pass_covers _ (queue_row items) lim perCamp order ∅ [] false idx' out' b); [apply distinct_NoDup|exact Hp| |exact Ho|exact Hf|].
    - intros c Hc. split; [apply lookup_empty|by apply order_queues].
    - unfold order. rewrite distinct_elem. split; [by apply list_elem_of_fmap_2|set_solver]. }
  exists x. split; [|done]. destruct b; [|done].
  pose proof (fair_pass_taken _ (queue_row items) _ _ _ _ _ _ _ _ _ (taken_empty _) Hf) as Ht'.
  pose proof (fair_pass_length _ (queue_row items) _ _ _ _ _ _ _ _ _ H0 Hf) as [Hle _].
  destruct (fair_rounds_taken _ (queue_row items) lim perCamp order lim idx' out' Ht' Hle) as (? & _ & _ & [k Hk]).
  rewrite Hk. set_solver.
Qed.

Lemma rounds_head perCamp it l : (0 < perCamp)%nat → items = it :: l →
  [it] `prefix_of` fair_rounds (S lim) lim perCamp (queue_of items) order ∅ [].
Proof.
  intros Hp Ei. cbn [fair_rounds]. destruct (Nat.leb_spec lim (length (@nil OutItem))) as [H0|H0]; [cbn in H0; lia|].
  destruct (fair_pass _ _ _ _ _ _ _) as [[idx' out'] b] eqn:Hf.
  assert ([it] `prefix_of` out') as H1.
  { revert Hf. unfold order. rewrite Ei. cbn [map distinct str_in existsb fair_pass]. rewrite lookup_empty. cbn [default].
    destruct (Nat.leb_spec perCamp 0); [lia|].
    assert (queue_of (it :: l) (row_campaign it) !! 0%nat = Some it) as -> by (unfold queue_of; cbn; by rewrite String.eqb_refl).
    cbn [app]. destruct (lim <=? length [it])%nat; [by intros [= <- <- <-]|]. apply fair_pass_prefix. }
  destruct b; [|done].
  pose proof (fair_pass_taken _ (queue_row items) _ _ _ _ _ _ _ _ _ (taken_empty _) Hf) as Ht'.
  pose proof (fair_pass_length _ (queue_row items) _ _ _ _ _ _ _ _ _ H0 Hf) as [Hle _].
  destruct (fair_rounds_taken _ (queue_row items) lim perCamp order lim idx' out' Ht' Hle) as (? & _ & _ & ?).
  by etrans.
Qed.

(** What the window promises. *)
Definition fair_promise (out : list OutItem) : Prop :=
  (∀ cid, queue_of out cid `prefix_of` queue_of items cid) ∧
  length out = Nat.min lim (length items) ∧
  (Z.of_nat (length order) ≤ limit → ∀ it, it ∈ items → ∃ it', it' ∈ out ∧ row_campaign it' = row_campaign it) ∧
  head out = head items.

Lemma few_campaigns : (length order ≤ 1)%nat → ∀ x y, x ∈ items → y ∈ items → row_campaign x = row_campaign y.
Proof.
  intros Ho x y Hx Hy. assert (∀ z, z ∈ items → row_campaign z ∈ order) as Hz.
  { intros z ?. unfold order. rewrite distinct_elem. split; [by apply list_elem_of_fmap_2|set_solver]. }
  pose proof (Hz x Hx) as H1. pose proof (Hz y Hy) as H2. destruct order as [|c [|]]; cbn in *; [set_solver| |lia].
  set_solver.
Qed.

Lemma fair_window_promise : fair_promise (fairSettleOutboxWindow items limit).
Proof.
  unfold fairSettleOutboxWindow. destruct (Z.leb_spec limit 0); [lia|].
  destruct (Z.eqb_spec (Z.of_nat (length items)) 0) as [H0|H0].
  { assert (items = []) as E by (apply nil_length_inv; lia). cbn. split_and!.
    - intros cid. apply prefix_nil.
    - rewrite E. cbn. lia.
    - rewrite E. intros _ it Hit. by apply not_elem_of_nil in Hit.
    - by rewrite E. }
  cbn [orb]. destruct (Z.leb_spec (Z.of_nat (length items)) limit) as [Hs|Hs].
  { split_and!; [done|unfold lim; lia|eauto|done]. }
  fold lim order. destruct (Z.leb_spec (Z.of_nat (length order)) 1) as [Hc|Hc].
  { assert (items = take lim items ++ drop lim items) as Htd by (by rewrite take_drop).
    split_and!.
    - intros cid. apply queue_prefix. by exists (drop lim items).
    - by rewrite length_take.
    - intros _ it Hit. assert (∃ x l, items = x :: l) as (x & l & E) by (clear -Hit; destruct items; [by apply not_elem_of_nil in Hit|eauto]).
      exists x. split.
      + rewrite E. destruct (Z.to_nat limit) eqn:El; [lia|]. cbn. left.
      + apply few_campaigns; [lia|rewrite E; left|done].
    - unfold lim. destruct (Z.to_nat limit) eqn:El; [lia|]. by destruct items. }
  pose proof (cap_share_pos limit (Z.of_nat (length order)) Hlim Hc) as Hshare.
  set (perCamp := Z.to_nat _). assert (0 < perCamp)%nat as Hp by (unfold perCamp; lia).
  destruct (fair_rounds_taken _ (queue_row items) lim perCamp order (S lim) ∅ [] (taken_empty _) ltac:(cbn; lia))
    as (idx & Ht & Hle & _).
  set (out := fair_rounds _ _ _ _ _ _ _) in *.
  assert (Z.of_nat (length order) ≤ limit → ∀ it, it ∈ items → ∃ it', it' ∈ out ∧ row_campaign it' = row_campaign it) as Hcov.
  { intros. apply rounds_cover; [done|unfold lim; lia|done]. }
  assert (head out = head items) as Hhd.
  { assert (∃ x l, items = x :: l) as (x & l & E) by (clear -H0; destruct items; [cbn in *; lia|eauto]).
    destruct (rounds_head perCamp x l Hp E) as [k Hk]. unfold out. rewrite Hk. by rewrite E. }
  destruct (Nat.ltb_spec (length out) lim) as [Hlt|Hge].
  - destruct (fair_fill_spec items out idx lim Hn Ht) as (Hq & Hlen & [k Hk]); [unfold lim in *; lia|].
    split_and!; [done|unfold lim in *; lia| |].
    + intros Ho it Hit. destruct (Hcov Ho it Hit) as (x & ? & ?). exists x. rewrite Hk. set_solver.
    + rewrite Hk. destruct out; [|done]. destruct (head items) eqn:Eh; [done|]. apply head_None in Eh.
      rewrite Eh in H0. by destruct H0.
  - split_and!; [|unfold lim in *; lia|done|done]. intros cid. rewrite Ht.
    exists (drop (default 0%nat (idx !! cid)) (queue_of items cid)). by rewrite take_drop.
Qed.
End window.

(** * The listing *)

Definition rows_of (per : Z) (p : Pool) (camps : list string) : list OutItem := concat (map (λ c, pending_of c per p) camps).

(** Whole campaigns are read, and reading stops once twice the limit is reached. *)
Lemma collect_used limit per camps raw p : (∀ c, c ∈ camps → c ≠ EmptyString) →
  ∃ used, used `prefix_of` camps ∧ collect limit per camps raw p = raw ++ rows_of per p used ∧
    (camps ≠ [] → used ≠ []) ∧
    (∀ u, u `prefix_of` used → u ≠ used → u = [] ∨ Z.of_nat (length (raw ++ rows_of per p u)) < limit * 2).
Proof.
  revert raw. induction camps as [|c l IH]; intros raw Hc; cbn [collect].
  - exists []. cbn. rewrite app_nil_r. split_and!; [done|done|done|]. intros u Hu ?. by apply prefix_nil_inv in Hu.
  - destruct (String.eqb_spec c EmptyString) as [->|_]; [by destruct (Hc EmptyString); [left|]|].
    destruct (Z.leb_spec (limit * 2) (Z.of_nat (length (raw ++ pending_of c per p)))) as [Hl|Hl].
    + exists [c]. cbn. rewrite app_nil_r. split_and!; [by apply prefix_cons, prefix_nil|done|done|].
      intros u Hu Hne. destruct u as [|x u]; [by left|]. apply prefix_cons_inv_2 in Hu as Hu'. apply prefix_cons_inv_1 in Hu as ->.
      apply prefix_nil_inv in Hu' as ->. done.
    + destruct (IH (raw ++ pending_of c per p)) as (used & Hp & E & Hne & Hu); [intros x Hx; apply Hc; by right|].
      exists (c :: used). cbn. rewrite E, <- app_assoc. split_and!; [by apply prefix_cons|done|done|].
      intros u Hpu Hneu. destruct u as [|x u]; [by left|]. right. apply prefix_cons_inv_2 in Hpu as Hpu'. apply prefix_cons_inv_1 in Hpu as ->.
      cbn. destruct (Hu u Hpu' ltac:(congruence)) as [->|Hlt].
      * cbn. by rewrite app_nil_r.
      * by rewrite app_assoc.
Qed.

(** Rows of the outbox have their own ids and trimmed campaign ids. *)
Definition outbox_ok (p : Pool) : Prop :=
  NoDup (map oi_id (outbox p)) ∧ ∀ r, r ∈ outbox p → trim_space (oi_campaign r) = oi_campaign r ∧ oi_campaign r ≠ EmptyString.

Definition pending_rows (cid : string) (p : Pool) : list OutItem := List.filter (λ r, ob_pending r && ob_of cid r) (outbox p).
(** The order of payment: what is pending, the finalize after everything else. *)
Definition due (cid : string) (p : Pool) : list OutItem :=
  List.filter (λ r, negb (is_finalize r)) (pending_rows cid p) ++ List.filter is_finalize (pending_rows cid p).

Lemma pending_of_due cid n p : pending_of cid n p = take (Z.to_nat n) (due cid p).
Proof. done. Qed.

Lemma filter_elem {A} (f : A → bool) l x : x ∈ List.filter f l ↔ x ∈ l ∧ f x = true.
Proof. rewrite !list_elem_of_In. apply List.filter_In. Qed.

Lemma due_elem cid p r : r ∈ due cid p ↔ r ∈ outbox p ∧ oi_campaign r = cid ∧ oi_status r = ObPending.
Proof.
  assert (r ∈ pending_rows cid p ↔ r ∈ outbox p ∧ oi_campaign r = cid ∧ oi_status r = ObPending) as E.
  { unfold pending_rows, ob_pending, ob_of, st_in. rewrite filter_elem, andb_true_iff, String.eqb_eq, bool_decide_eq_true, list_elem_of_singleton. tauto. }
  unfold due. rewrite elem_of_app, !filter_elem, E. destruct (is_finalize r); cbn; intuition congruence.
Qed.

Lemma due_NoDup cid p : outbox_ok p → NoDup (due cid p).
Proof.
  intros [Hn _]. assert (NoDup (pending_rows cid p)) as Hp by (apply nodup_filter, (NoDup_fmap_1 oi_id), Hn).
  unfold due. apply list.NoDup_app. split_and!; [by apply nodup_filter| |by apply nodup_filter].
  intros x [_ H1]%filter_elem [_ H2]%filter_elem. by rewrite H2 in H1.
Qed.

Lemma queue_due cid cid' p : outbox_ok p → queue_of (due cid' p) cid = if decide (cid' = cid) then due cid p else [].
Proof.
  intros [_ Hok]. unfold queue_of. case_decide as E; [subst; apply lfilter_all|apply lfilter_none].
  - intros x (Hx & <- & _)%due_elem. apply String.eqb_eq. by apply Hok.
  - intros x (Hx & <- & _)%due_elem. apply String.eqb_neq. intros H. apply E. rewrite <- H. symmetry. by apply Hok.
Qed.

Lemma queue_pending_of n cid cid' p : outbox_ok p →
  queue_of (pending_of cid' n p) cid = if decide (cid' = cid) then pending_of cid n p else [].
Proof.
  intros Hok. rewrite !pending_of_due. pose proof (queue_due cid cid' p Hok) as H.
  rewrite <- (take_drop (Z.to_nat n) (due cid' p)), queue_app in H. case_decide; subst.
  - apply lfilter_all. intros x Hx. assert (x ∈ queue_of (due cid p) cid) as Hq.
    { rewrite queue_due, decide_True by done. by eapply subseteq_take. }
    apply queue_elem in Hq as [_ ?]. by apply String.eqb_eq.
  - by apply app_nil in H as [? _].
Qed.

Lemma queue_rows per p camps cid : outbox_ok p → NoDup camps →
  queue_of (rows_of per p camps) cid = if decide (cid ∈ camps) then pending_of cid per p else [].
Proof.
  intros Hok. induction camps as [|c l IH]; intros Hn; [by rewrite decide_False by set_solver|].
  apply list.NoDup_cons in Hn as [Hc Hn]. unfold rows_of. cbn [map concat]. rewrite queue_app, queue_pending_of by done.
  fold (rows_of per p l). rewrite IH by done. destruct (decide (c = cid)) as [->|Hne].
  - rewrite (decide_False (P := cid ∈ l)), app_nil_r by done. by rewrite decide_True by left.
  - destruct (decide (cid ∈ l)); [rewrite decide_True by (by right)|rewrite decide_False by set_solver]; done.
Qed.

Lemma rows_elem per p camps it : it ∈ rows_of per p camps → it ∈ outbox p ∧ oi_campaign it ∈ camps ∧ oi_status it = ObPending.
Proof.
  unfold rows_of. rewrite list_elem_of_In, in_concat. intros (l & Hl & Hx).
  apply in_map_iff in Hl as (c & <- & Hc). apply list_elem_of_In in Hx, Hc.
  rewrite pending_of_due in Hx. apply subseteq_take, due_elem in Hx as (? & <- & ?). done.
Qed.

Lemma rows_NoDup per p camps : outbox_ok p → NoDup camps → NoDup (map oi_id (rows_of per p camps)).
Proof.
  intros Hok Hn. apply NoDup_fmap_2_strong.
  - intros x y [Hx _]%rows_elem [Hy _]%rows_elem. apply (nodup_map_inj oi_id (outbox p)); [apply Hok|done..].
  - induction camps as [|c l IH]; [constructor|]. apply list.NoDup_cons in Hn as [Hc Hn].
    unfold rows_of. cbn. apply list.NoDup_app. split_and!; [|intros x|by apply IH].
    + rewrite pending_of_due. eapply sublist_NoDup; [apply due_NoDup, Hok|]. apply sublist_take.
    + rewrite pending_of_due. intros (_ & Hxc & _)%subseteq_take%due_elem (_ & Hxl & _)%rows_elem. congruence.
Qed.

(** ** Campaigns in rotation *)

Definition settle_campaigns (now : Z) (p : Pool) : list string :=
  rotateCampaignWindow (map trim_space (pending_campaigns p)) now settleOutboxCampaignWindow.

Lemma pending_campaigns_ok p : outbox_ok p → NoDup (pending_campaigns p) ∧
  map trim_space (pending_campaigns p) = pending_campaigns p ∧
  ∀ c, c ∈ pending_campaigns p → c ≠ EmptyString ∧ due c p ≠ [].
Proof.
  intros [Hn Hok]. assert (∀ c, c ∈ pending_campaigns p → ∃ r, r ∈ outbox p ∧ oi_campaign r = c ∧ oi_status r = ObPending) as He.
  { intros c Hc. unfold pending_campaigns in Hc. apply subseteq_take, distinct_elem in Hc as [Hc _].
    apply list_elem_of_fmap in Hc as (r & -> & Hr). apply filter_elem in Hr as [Hr Hp]. exists r. split_and!; [done..|].
    unfold ob_pending, st_in in Hp. apply bool_decide_eq_true, list_elem_of_singleton in Hp. done. }
  split_and!.
  - unfold pending_campaigns. eapply sublist_NoDup; [apply distinct_NoDup|apply sublist_take].
  - rewrite <- (map_id (pending_campaigns p)) at 2. apply map_ext_in. intros c Hc%list_elem_of_In.
    apply He in Hc as (r & Hr & <- & _). by apply Hok.
  - intros c Hc. apply He in Hc as (r & Hr & <- & Hs). split; [by apply Hok|]. intros E.
    assert (r ∈ due (oi_campaign r) p) as Hd by (by apply due_elem). rewrite E in Hd. by apply not_elem_of_nil in Hd.
Qed.

Lemma rotate_ok camps now : NoDup camps → 0 ≤ now →
  NoDup (rotateCampaignWindow camps now 32) ∧ (∀ c, c ∈ rotateCampaignWindow camps now 32 → c ∈ camps).
Proof.
  intros Hn Hnow. unfold rotateCampaignWindow. set (n := Z.of_nat (length camps)).
  destruct (Z.eqb_spec n 0) as [H0|H0]; cbn [orb Z.leb].
  { cbn. split; [constructor|]. intros c Hc. by apply not_elem_of_nil in Hc. }
  change (32 <=? 0) with false. cbn [orb]. destruct (Z.leb_spec n 32); [done|].
  set (start := Z.rem (Z.quot now 30) n).
  assert (0 ≤ start < n) as Hs by (unfold start; rewrite Z.quot_div_nonneg by lia; apply Z.rem_bound_pos; [apply Z.div_pos; lia|lia]).
  assert (∀ i, (i < 32)%nat → ∃ c, camps !! Z.to_nat (Z.rem (start + Z.of_nat i) n) = Some c) as Hlk.
  { intros i Hi. apply lookup_lt_is_Some. pose proof (Z.rem_bound_pos (start + Z.of_nat i) n). lia. }
  assert (∀ i, (i < 32)%nat → camps !! Z.to_nat (Z.rem (start + Z.of_nat i) n)
                = Some (nth (Z.to_nat (Z.rem (start + Z.of_nat i) n)) camps EmptyString)) as Hnth.
  { intros i Hi. destruct (Hlk i Hi) as [c Hc]. rewrite Hc. f_equal. symmetry. by apply nth_lookup_Some. }
  split.
  - apply NoDup_fmap_2_strong; [|apply list.NoDup_seq || apply NoDup_seq].
    intros i j Hi%elem_of_seq Hj%elem_of_seq E. cbn in Hi, Hj.
    pose proof (Hnth i ltac:(lia)) as H1. rewrite E, <- (Hnth j ltac:(lia)) in H1.
    pose proof (Z.rem_bound_pos (start + Z.of_nat i) n ltac:(lia) ltac:(lia)).
    pose proof (Z.rem_bound_pos (start + Z.of_nat j) n ltac:(lia) ltac:(lia)).
    destruct (Hlk i ltac:(lia)) as [c Hc]. rewrite H1 in Hc.
    assert (Z.to_nat (Z.rem (start + Z.of_nat i) n) = Z.to_nat (Z.rem (start + Z.of_nat j) n)) as Heq.
    { eapply NoDup_lookup; [exact Hn| |exact Hc]. by rewrite H1. }
    rewrite !Z.rem_mod_nonneg in * by lia.
    assert ((start + Z.of_nat i) mod n = (start + Z.of_nat j) mod n) as Hm by lia.
    pose proof (Z.div_mod (start + Z.of_nat i) n ltac:(lia)). pose proof (Z.div_mod (start + Z.of_nat j) n ltac:(lia)).
    assert ((start + Z.of_nat i) / n = (start + Z.of_nat j) / n ∨ (start + Z.of_nat i) / n < (start + Z.of_nat j) / n ∨ (start + Z.of_nat j) / n < (start + Z.of_nat i) / n) as [|[|]] by lia; nia.
  - intros c (i & -> & Hi%elem_of_seq)%list_elem_of_fmap. eapply list_elem_of_lookup_2, Hnth. lia.
Qed.

Lemma settle_campaigns_ok now p : outbox_ok p → 0 ≤ now →
  NoDup (settle_campaigns now p) ∧ ∀ c, c ∈ settle_campaigns now p → c ∈ pending_campaigns p ∧ c ≠ EmptyString ∧ due c p ≠ [].
Proof.
  intros Hok Hnow. destruct (pending_campaigns_ok p Hok) as (Hn & Ht & Hd). unfold settle_campaigns. rewrite Ht.
  destruct (rotate_ok _ _ Hn Hnow) as [? Hin]. split; [done|]. intros c Hc%Hin. split; [done|by apply Hd].
Qed.

Lemma out_limit_pos limit : 0 < out_limit limit ≤ 500.
Proof. unfold out_limit. destruct (Z.leb_spec limit 0), (Z.ltb_spec 500 limit); cbn; lia. Qed.

Lemma share_pos limit camps : 0 < limit → 0 < campaign_share limit camps.
Proof.
  intros. unfold campaign_share. destruct (Z.ltb_spec 1 (Z.of_nat (length camps))); [|done].
  by apply cap_share_pos.
Qed.

(** The rows that a listing chooses from, and the promise of the window over them. *)
Lemma listing_spec now limit p : outbox_ok p → 0 ≤ now → settle_campaigns now p ≠ [] →
  ∃ used, used `prefix_of` settle_campaigns now p ∧ used ≠ [] ∧ NoDup used ∧
    let raw := rows_of (campaign_share (out_limit limit) (settle_campaigns now p)) p used in
    fair_promise raw (out_limit limit) (ListPendingSettleOutbox now limit p) ∧
    ∀ u, u `prefix_of` used → u ≠ used → u = [] ∨
      Z.of_nat (length (rows_of (campaign_share (out_limit limit) (settle_campaigns now p)) p u)) < out_limit limit * 2.
Proof.
  intros Hok Hnow Hne. destruct (settle_campaigns_ok now p Hok Hnow) as [Hn Hc].
  destruct (collect_used (out_limit limit) (campaign_share (out_limit limit) (settle_campaigns now p)) (settle_campaigns now p) [] p)
    as (used & Hp & E & Hu & Hstop); [by intros c [_ [? _]]%Hc|].
  assert (NoDup used) as Hnu by (destruct Hp as [k Hk]; rewrite Hk in Hn; by apply list.NoDup_app in Hn as [? _]).
  exists used. split_and!; [done|auto|done|]. cbv zeta. split; [|exact Hstop].
  cbn [app] in E. unfold ListPendingSettleOutbox. fold (settle_campaigns now p).
  destruct (settle_campaigns now p) as [|c l] eqn:Ec; [done|]. rewrite E.
  apply fair_window_promise; [by apply rows_NoDup|]. pose proof (out_limit_pos limit). lia.
Qed.

Lemma take_prefix_of {A} n (l : list A) : take n l `prefix_of` l.
Proof. exists (drop n l). by rewrite take_drop. Qed.

Lemma settle_first_due now limit p c l : outbox_ok p → 0 ≤ now → settle_campaigns now p = c :: l →
  head (ListPendingSettleOutbox now limit p) = head (due c p).
Proof.
  intros Hok Hnow Ec. destruct (listing_spec now limit p Hok Hnow) as (used & Hp & Hu & Hnu & (_ & _ & _ & ->) & _); [by rewrite Ec|].
  destruct used as [|c' used]; [done|]. rewrite Ec in Hp. apply prefix_cons_inv_1 in Hp as ->.
  unfold rows_of. cbn [map concat]. rewrite pending_of_due.
  pose proof (share_pos (out_limit limit) (settle_campaigns now p) ltac:(apply out_limit_pos)) as Hs.
  destruct (settle_campaigns_ok now p Hok Hnow) as [_ Hd]. destruct (Hd c) as (_ & _ & Hne); [rewrite Ec; left|].
  destruct (Z.to_nat _) eqn:En; [lia|]. by destruct (due c p).
Qed.

(** C21: a batch of pending payments holds, of every campaign, an initial part of what is due to it in the order of
    payment, so a finalize is never served before a payment of its campaign; it respects the limit; and as long as
    something is pending it starts with the oldest due row of the first campaign in rotation. *)
Theorem settle_batch_order now limit p : outbox_ok p → 0 ≤ now →
  let L := ListPendingSettleOutbox now limit p in
  (∀ cid, queue_of L cid `prefix_of` due cid p) ∧ Z.of_nat (length L) ≤ out_limit limit ∧
  (∀ c l, settle_campaigns now p = c :: l → head L = head (due c p)) ∧
  (settle_campaigns now p = [] → L = []).
Proof.
  intros Hok Hnow L. destruct (settle_campaigns now p) as [|c l] eqn:Ec.
  { assert (L = []) as -> by (unfold L, ListPendingSettleOutbox; fold (settle_campaigns now p); by rewrite Ec).
    pose proof (out_limit_pos limit). split_and!; [intros; apply prefix_nil|cbn; lia|done|done]. }
  destruct (listing_spec now limit p Hok Hnow) as (used & Hp & Hu & Hnu & (Hq & Hlen & _ & _) & _); [by rewrite Ec|].
  change (ListPendingSettleOutbox now limit p) with L in Hq, Hlen. pose proof (out_limit_pos limit).
  split_and!; [|lia|intros c' l' [= <- <-]; by eapply settle_first_due|done].
  intros cid. etrans; [apply Hq|]. rewrite queue_rows by done. case_decide; [apply take_prefix_of|apply prefix_nil].
Qed.

(** The start of the rotation moves by one campaign every thirty seconds. *)
Lemma settle_campaigns_head now p i c : outbox_ok p → 0 ≤ now → 32 < Z.of_nat (length (pending_campaigns p)) →
  (now / 30) mod Z.of_nat (length (pending_campaigns p)) = Z.of_nat i → pending_campaigns p !! i = Some c →
  ∃ l, settle_campaigns now p = c :: l.
Proof.
  intros Hok Hnow Hlen Hi Hc. destruct (pending_campaigns_ok p Hok) as (_ & Ht & _).
  unfold settle_campaigns. rewrite Ht. unfold rotateCampaignWindow. set (n := Z.of_nat (length (pending_campaigns p))) in *.
  change (settleOutboxCampaignWindow <=? 0) with false. destruct (Z.eqb_spec n 0); [lia|].
  destruct (Z.leb_spec n settleOutboxCampaignWindow) as [Hle|_]; [unfold settleOutboxCampaignWindow in Hle; lia|].
  change (Z.to_nat settleOutboxCampaignWindow) with 32%nat. cbn [orb seq map].
  eexists. f_equal. rewrite Z.quot_div_nonneg by lia. rewrite (Z.rem_mod_nonneg (now / 30) n) by (try (apply Z.div_pos); lia).
  rewrite Hi. change (Z.of_nat 0) with 0. rewrite Z.add_0_r, Z.rem_small.
  - rewrite Nat2Z.id. by apply nth_lookup_Some.
  - apply lookup_lt_Some in Hc. lia.
Qed.

(** with more pending campaigns than the window holds, each one has its turn: in the thirty-second epochs whose
    number is congruent to its position, the batch starts with the oldest row due to it, whatever the other campaigns
    have queued. *)
Theorem rotation_serves now limit p i c : outbox_ok p → 0 ≤ now → 32 < Z.of_nat (length (pending_campaigns p)) →
  pending_campaigns p !! i = Some c → (now / 30) mod Z.of_nat (length (pending_campaigns p)) = Z.of_nat i →
  head (ListPendingSettleOutbox now limit p) = head (due c p) ∧ due c p ≠ [].
Proof.
  intros Hok Hnow Hlen Hc Hi. destruct (settle_campaigns_head now p i c Hok Hnow Hlen Hi Hc) as [l El].
  split; [by eapply settle_first_due|]. apply pending_campaigns_ok; [done|]. by eapply list_elem_of_lookup_2.
Qed.

(** with at most 32 pending campaigns there is no rotation: when the first sixteen have eight undrained rows each,
    no batch of the 64-row drain, at any time, contains a row of a later campaign. *)
Theorem settle_batch_starves now p old rest c : outbox_ok p → 0 ≤ now → pending_campaigns p = old ++ rest →
  length old = 16%nat → (1 ≤ length rest ≤ 16)%nat → (∀ o, o ∈ old → (8 ≤ length (due o p))%nat) → c ∈ rest →
  queue_of (ListPendingSettleOutbox now 64 p) c = [].
Proof.
  intros Hok Hnow Epc Ho Hr Hold Hc. destruct (pending_campaigns_ok p Hok) as (Hn & Ht & _).
  assert (settle_campaigns now p = old ++ rest) as Es.
  { unfold settle_campaigns. rewrite Ht, Epc. unfold rotateCampaignWindow. rewrite length_app, Ho.
    change (settleOutboxCampaignWindow <=? 0) with false. destruct (Z.eqb_spec (Z.of_nat (16 + length rest)) 0); [lia|].
    destruct (Z.leb_spec (Z.of_nat (16 + length rest)) settleOutboxCampaignWindow) as [|Hlt]; [done|].
    unfold settleOutboxCampaignWindow in Hlt. lia. }
  destruct (listing_spec now 64 p Hok Hnow) as (used & Hp & Hu & Hnu & (Hq & _ & _ & _) & Hstop);
    [rewrite Es; destruct old; [cbn in Ho; lia|done]|].
  rewrite Es in Hp, Hq, Hstop. change (out_limit 64) with 64 in *.
  assert (campaign_share 64 (old ++ rest) = 8) as Esh.
  { unfold campaign_share. rewrite length_app, Ho. destruct (Z.ltb_spec 1 (Z.of_nat (16 + length rest))); [|lia].
    unfold cap_share. rewrite Z.min_r by lia. done. }
  rewrite Esh in *. rewrite Epc in Hn.
  assert (c ∉ used) as Hcu.
  { intros Hcu. destruct (prefix_weak_total old used (old ++ rest)) as [Hou|Huo]; [by eexists|done| |].
    - destruct (decide (old = used)) as [<-|Hne].
      + apply list.NoDup_app in Hn as (_ & Hdis & _). by eapply Hdis.
      + destruct (Hstop old Hou Hne) as [->|Hlt]; [cbn in Ho; lia|].
        assert (∀ l, (∀ o, o ∈ l → (8 ≤ length (due o p))%nat) → length (rows_of 8 p l) = (8 * length l)%nat) as Hl8.
        { clear. induction l as [|o l IH]; intros Hl; [done|]. unfold rows_of. cbn [map concat length]. rewrite length_app.
          fold (rows_of 8 p l). rewrite IH by (intros x Hx; apply Hl; by right). rewrite pending_of_due, length_take.
          specialize (Hl o ltac:(left)). change (Z.to_nat 8) with 8%nat. lia. }
        rewrite Hl8 in Hlt by done. rewrite Ho in Hlt. lia.
    - destruct Huo as [k Hk]. apply list.NoDup_app in Hn as (_ & Hdis & _). apply (Hdis c); [|done].
      rewrite Hk. set_solver. }
  specialize (Hq c). rewrite queue_rows, decide_False in Hq by done. by apply prefix_nil_inv in Hq.
Qed.

(** * Concrete instances *)

(** [per] pending rows for each of [n] campaigns. *)
Definition toy_row (per i : nat) : OutItem :=
  mkOut (Z.of_nat i + 1) ("camp-" +:+ String (ascii_of_nat (40 + i / per)) EmptyString) "run" "HMC-a" "" ObPending 1 0 (Z.of_nat i + 1).
Definition toy_outbox (n per : nat) : Pool := set_outbox (λ _, map (toy_row per) (seq 0 (n * per))) (Z.of_nat (n * per)) empty_pool.

Lemma toy_outbox_ok n per : forallb (λ r, String.eqb (trim_space (oi_campaign r)) (oi_campaign r)) (outbox (toy_outbox n per)) = true → outbox_ok (toy_outbox n per).
Proof.
  intros Hb. split.
  - cbn. rewrite map_map. apply (NoDup_fmap_2_strong (λ i, Z.of_nat i + 1)); [intros x y _ _ H; lia|apply NoDup_ListNoDup, seq_NoDup].
  - intros r Hr. split; [apply String.eqb_eq; rewrite forallb_forall in Hb; by apply Hb, list_elem_of_In|].
    cbn in Hr. by apply list_elem_of_fmap in Hr as (i & -> & _).
Qed.

Lemma settle_batch_order_witness : let L := ListPendingSettleOutbox 90 64 (toy_outbox 3 40) in length L = 63%nat ∧
  queue_of L "camp-)" `prefix_of` due "camp-)" (toy_outbox 3 40) ∧ Z.of_nat (length L) ≤ 64.
Proof.
  cbv zeta. split; [by vm_compute|].
  destruct (settle_batch_order 90 64 (toy_outbox 3 40)) as (H1 & H2 & _); [by apply toy_outbox_ok; vm_compute|done|]. split; [apply H1|exact H2].
Defined.

Lemma rotation_serves_witness : head (ListPendingSettleOutbox 1050 64 (toy_outbox 40 2)) = head (due "camp-K" (toy_outbox 40 2))
  ∧ due "camp-K" (toy_outbox 40 2) ≠ [].
Proof.
  apply (rotation_serves 1050 64 (toy_outbox 40 2) 35); [by apply toy_outbox_ok; vm_compute|done|by vm_compute|by vm_compute|by vm_compute].
Defined.

Lemma settle_batch_starves_witness : queue_of (ListPendingSettleOutbox 123456 64 (toy_outbox 17 8)) "camp-8" = [].
Proof.
  apply (settle_batch_starves 123456 (toy_outbox 17 8) (take 16 (pending_campaigns (toy_outbox 17 8))) ["camp-8"%string]);
    [by apply toy_outbox_ok; vm_compute|done|by vm_compute|by vm_compute|cbn; lia| |left].
  assert (forallb (λ o, (8 <=? length (due o (toy_outbox 17 8)))%nat) (take 16 (pending_campaigns (toy_outbox 17 8))) = true) as H by by vm_compute.
  intros o Ho%list_elem_of_In. rewrite forallb_forall in H. by apply Nat.leb_le, H.
Defined.
