(* ===== verification/PoolSteps.v ===== *)
(** The statements of the pool as one step relation, and the invariant they keep.

    Workers, verifiers and the sweep run concurrently and commit statement by statement.  [pool_step]
    is one statement of any of them: its guard is what the [WHERE] clause tests when it runs, plus
    facts an operation read earlier that no other statement can undo ([run_claim]).  So the
    invariant holds in every interleaving of the operations' statements; PoolOps shows that each
    operation is a path of such steps. *)
From S2P Require Import Prelude PoolCfg GoText PoolBase PoolOutbox PoolQueue PoolFair.

(** * One row *)

Definition run_kind (r : RunSt) : string := if is_floor r then "run_floor" else "run".
Definition is_run_kind (k : string) : bool := str_in k ["run"; "run_floor"].
Definition payee (w : WorkItem) : string := trim_space (miner_address (w_pay w)).
(** The row of the outbox that pays this item's run under [kind]. *)
Definition run_row (kind : string) (w : WorkItem) (r : OutItem) : Prop :=
  oi_key r = (w_campaign w, kind, payee w, EmptyString, w_id w).

Definition same_item (w w' : WorkItem) : Prop :=
  w_id w' = w_id w ∧ w_campaign w' = w_campaign w ∧ input_n w' = input_n w.
(** A finished item's result is not rewritten; only its time stamp may be. *)
Definition frozen (w w' : WorkItem) : Prop :=
  w_status w = WDone → w_status w' = WDone ∧ result_ok (w_q w') = result_ok (w_q w) ∧ attempts (w_q w') = attempts (w_q w)
    ∧ last_error (w_q w') = last_error (w_q w) ∧ duration_ms (w_q w') = duration_ms (w_q w).
Definition same_run (w w' : WorkItem) : Prop :=
  miner_address (w_pay w') = miner_address (w_pay w) ∧ w_run w' = w_run w ∧ run_outbox (w_pay w') = run_outbox (w_pay w).

Inductive item_move (p : Pool) (w : WorkItem) : WorkItem → Prop :=
  (** queue columns of an unfinished item, proofs, inputs, bounty columns *)
  | im_keep w' : same_item w w' → same_run w w' → frozen w w' → (w_status w' = WDone → w_status w = WDone) → item_move p w w'
  (** completion: the one moment at which a payee and a run intent are bound *)
  | im_done w' : same_item w w' → w_status w ≠ WDone → w_status w' = WDone → run_outbox (w_pay w') = run_outbox (w_pay w) →
      (w_run w' = w_run w ∨ (st_in (w_run w') [RunPending; RunPendingFloor] = true ∧ payee w' ≠ EmptyString)) → item_move p w w'
  (** settlement: the intent is linked to its row, and paid once the row is applied *)
  | im_linked next r : run_open (w_run w) = true → r ∈ outbox p → run_row (run_kind (w_run w)) w r →
      (next = RunPaid ∧ oi_status r = ObApplied ∨ run_open next = true ∧ is_floor next = is_floor (w_run w)) →
      item_move p w (on_pay (set_run next (oi_id r)) w)
  | im_paid r : run_open (w_run w) = true → r ∈ outbox p → oi_id r = run_outbox (w_pay w) → oi_status r = ObApplied →
      item_move p w (mark_run_paid w)
  (** a deferred bounty names the payee of an item that had none *)
  | im_payee m st sev : miner_address (w_pay w) = EmptyString →
      item_move p w (on_pay (λ c, mkPay m (run_status c) st sev (run_outbox c) (find_outbox c)) w).

(** What an operation may rely on after it read the run columns of [w]: no statement undoes it. *)
Definition run_claim (p : Pool) (w : WorkItem) (kind : string) : Prop :=
  (run_open (w_run w) = true ∧ kind = run_kind (w_run w))
  ∨ (w_run w = RunPaid ∧ ∃ r, r ∈ outbox p ∧ oi_id r = run_outbox (w_pay w) ∧ run_row kind w r).

(** * One statement *)

Definition trimmed (s : string) : Prop := trim_space s = s ∧ s ≠ EmptyString.

(** Everything but the items and the outbox. *)
Definition same_tables (p p' : Pool) : Prop :=
  items p' = items p ∧ item_seq p' = item_seq p ∧ outbox p' = outbox p ∧ outbox_seq p' = outbox_seq p.

(** Inputs are issued in order: the predecessor of a new one is there. *)
Definition has_input (p : Pool) (cid : string) (n : Z) : Prop := ∃ w, w ∈ items p ∧ w_campaign w = cid ∧ input_n w = n.
Definition reached (p : Pool) (cid : string) (n : Z) : Prop := n = 0 ∨ (0 < n ∧ has_input p cid n).

Inductive pool_step (p : Pool) : Pool → Prop :=
  | ps_items f : (∀ w, w ∈ items p → item_move p w (f w)) → pool_step p (set_items (map f) p)
  | ps_insert cid n now : trimmed cid → reached p cid (n - 1) → pool_step p (after (insert_item cid n now) p)
  | ps_pay w kind now : w ∈ items p → run_claim p w kind →
      pool_step p (after (enqueue_row (w_campaign w) kind (payee w) "" (w_id w) now) p)
  | ps_bill cid kind miner sev item now : trimmed cid → is_run_kind kind = false →
      pool_step p (after (enqueue_row cid kind miner sev item now) p)
  | ps_ack test now : pool_step p (set_outbox (upd test (ob_set_applied now)) (outbox_seq p) p)
  | ps_rest p' : same_tables p p' → (∀ c, c ∈ campaigns p' → trimmed (c_id c)) → pool_step p p'.

Inductive pool_reach : Pool → Prop :=
  | pr_init : pool_reach empty_pool
  | pr_step p p' : pool_reach p → pool_step p p' → pool_reach p'.

(** * The invariant *)

Definition pay_ok (p : Pool) (w : WorkItem) : Prop :=
  (w_status w ≠ WDone → w_run w = RunNone) ∧
  (w_run w ≠ RunNone → payee w ≠ EmptyString) ∧
  (w_run w = RunNone → run_outbox (w_pay w) = 0) ∧
  (run_open (w_run w) = true → run_outbox (w_pay w) ≠ 0 →
     ∃ r, r ∈ outbox p ∧ oi_id r = run_outbox (w_pay w) ∧ run_row (run_kind (w_run w)) w r) ∧
  (w_run w = RunPaid → ∃ r kind, r ∈ outbox p ∧ oi_id r = run_outbox (w_pay w) ∧ is_run_kind kind = true ∧ run_row kind w r
     ∧ oi_status r = ObApplied).

(** A run row belongs to a finished item, and is the only one of it. *)
Definition row_ok (p : Pool) (r : OutItem) : Prop :=
  is_run_kind (oi_kind r) = true → ∃ w, w ∈ items p ∧ w_run w ≠ RunNone ∧ run_row (oi_kind r) w r ∧
    (run_open (w_run w) = true → oi_kind r = run_kind (w_run w)) ∧ (w_run w = RunPaid → oi_id r = run_outbox (w_pay w)).

Record pool_ok (p : Pool) : Prop := mkPoolOk {
  ok_seqs : 0 ≤ item_seq p ∧ 0 ≤ outbox_seq p;
  ok_ids : NoDup (map w_id (items p));
  ok_seq : ∀ w, w ∈ items p → 0 < w_id w ≤ item_seq p;
  ok_inputs : NoDup (map (λ w, (w_campaign w, input_n w)) (items p));
  ok_dense : ∀ w, w ∈ items p → reached p (w_campaign w) (input_n w - 1);
  ok_camps : ∀ w, w ∈ items p → trimmed (w_campaign w);
  ok_pay : ∀ w, w ∈ items p → pay_ok p w;
  ok_out_ids : NoDup (map oi_id (outbox p));
  ok_out_seq : ∀ r, r ∈ outbox p → 0 < oi_id r ≤ outbox_seq p;
  ok_out_camp : ∀ r, r ∈ outbox p → trimmed (oi_campaign r);
  ok_keys : NoDup (map oi_key (outbox p));
  ok_rows : ∀ r, r ∈ outbox p → row_ok p r;
  ok_campaigns : ∀ c, c ∈ campaigns p → trimmed (c_id c);
}.

(** * Rows move *)

Lemma move_same p w w' : item_move p w w' → same_item w w'.
Proof. by destruct 1. Qed.

Lemma open_not_none r : run_open r = true → r ≠ RunNone.
Proof. by intros H ->. Qed.
Lemma open_not_paid r : run_open r = true → r ≠ RunPaid.
Proof. by intros H ->. Qed.
Lemma run_kind_is r : is_run_kind (run_kind r) = true.
Proof. unfold run_kind. by destruct (is_floor r). Qed.
Lemma run_cases r : r = RunNone ∨ r = RunPaid ∨ run_open r = true.
Proof. destruct r; auto. Qed.
Lemma stamp_open r : st_in r [RunPending; RunPendingFloor] = true → run_open r = true.
Proof. by destruct r. Qed.

Section move.
Context (p : Pool) (Hp : pool_ok p).
#[local] Set Default Proof Using "All".

Lemma out_id_inj r r' : r ∈ outbox p → r' ∈ outbox p → oi_id r = oi_id r' → r = r'.
Proof. apply nodup_map_inj, Hp. Qed.
Lemma out_key_inj r r' : r ∈ outbox p → r' ∈ outbox p → oi_key r = oi_key r' → r = r'.
Proof. apply nodup_map_inj, Hp. Qed.
Lemma out_id_pos r : r ∈ outbox p → oi_id r ≠ 0.
Proof. intros [? _]%(ok_out_seq _ Hp). lia. Qed.

(** The linked row of an open intent is the row with its id. *)
Lemma open_link w r : w ∈ items p → run_open (w_run w) = true → r ∈ outbox p → oi_id r = run_outbox (w_pay w) →
  run_row (run_kind (w_run w)) w r.
Proof.
  intros Hw Ho Hr Hid. destruct (ok_pay _ Hp w Hw) as (_ & _ & _ & H4 & _).
  destruct (H4 Ho) as (r' & Hr' & Hid' & Hk); [rewrite <- Hid; by apply out_id_pos|].
  by rewrite (out_id_inj r r') by congruence.
Qed.

Definition owns (r : OutItem) (w : WorkItem) : Prop :=
  w_run w ≠ RunNone ∧ run_row (oi_kind r) w r ∧ (run_open (w_run w) = true → oi_kind r = run_kind (w_run w))
  ∧ (w_run w = RunPaid → oi_id r = run_outbox (w_pay w)).

Lemma move_pay w w' : w ∈ items p → item_move p w w' → pay_ok p w'.
Proof.
  intros Hw H. pose proof (ok_pay _ Hp w Hw) as (H1 & H2 & H3 & H4 & H5). unfold pay_ok, payee, run_row in *.
  destruct H as [w' (Hi & Hc & Hn) (Hm & Hr & Ho) Hf Hd|w' (Hi & Hc & Hn) Hnd Hd Ho Hs|next r Hop Hr Hk Hnext|r Hop Hr Hid Hs|m st sev Hm].
  - unfold payee in *. rewrite Hm, Hr, Ho, Hi, Hc. split_and!; auto. intros Hnd. apply H1. intros E. by apply Hf in E as [? _].
  - assert (run_outbox (w_pay w') = 0) as Hz by (rewrite Ho; auto).
    destruct Hs as [Hs|[Hs Hpay]].
    + rewrite H1 in Hs by done. rewrite Hs. split_and!; [done|done|done|done|done].
    + split_and!; [by intros []|done|by intros E; rewrite E in Hs|by rewrite Hz|by intros E; rewrite E in Hs].
  - cbn. split_and!.
    + intros Hnd. apply open_not_none in Hop. by rewrite H1 in Hop.
    + intros _. by apply H2, open_not_none.
    + intros ->. destruct Hnext as [[? _]|[? _]]; done.
    + intros Hon _. destruct Hnext as [[-> _]|[_ Hf]]; [done|]. exists r. unfold w_run, run_kind. cbn. rewrite Hf. done.
    + intros Hpd. destruct Hnext as [[_ Ha]|[Hon _]]; [|by subst]. exists r, (run_kind (w_run w)). split_and!; [done..|apply run_kind_is|done|done].
  - cbn. split_and!; [|by intros _; apply H2, open_not_none|done|done|].
    + intros Hnd. apply open_not_none in Hop. by rewrite H1 in Hop.
    + intros _. exists r, (run_kind (w_run w)). split_and!; [done..|apply run_kind_is|by apply open_link|done].
  - assert (w_run w = RunNone) as E.
    { destruct (decide (w_run w = RunNone)) as [|Hne]; [done|]. apply H2 in Hne. by rewrite Hm in Hne. }
    unfold w_run in *. cbn. rewrite E in *. split_and!; auto; done.
Qed.

Lemma move_owns w w' r : w ∈ items p → r ∈ outbox p → item_move p w w' → owns r w → owns r w'.
Proof.
  intros Hw Hr H (Hne & Hk & Hop & Hpd). pose proof (ok_pay _ Hp w Hw) as (H1 & H2 & H3 & H4 & H5).
  destruct H as [w' (Hi & Hc & Hn) (Hm & Hrun & Ho) _ Hd|w' _ Hnd|next r' Hopen Hr' Hk' Hnext|r' Hopen Hr' Hid Hs|m st sev Hm].
  - unfold owns, run_row, payee. rewrite Hm, Hrun, Ho, Hi, Hc. done.
  - destruct Hne. by apply H1.
  - assert (r' = r) as -> by (apply out_key_inj; [done..|]; rewrite Hk, Hk', Hop; done).
    unfold owns, run_row, payee, w_run. cbn. split_and!; [|done| |done].
    + destruct Hnext as [[-> _]|[? _]]; [done|by apply open_not_none].
    + intros Hon. destruct Hnext as [[-> _]|[_ Hf]]; [done|]. rewrite Hop by done. unfold run_kind. by rewrite Hf.
  - assert (r' = r) as -> by (apply out_key_inj; [done..|]; rewrite Hk, (open_link w r'), Hop; done).
    split_and!; [done|done|done|done].
  - apply H2 in Hne. unfold payee in Hne. by rewrite Hm in Hne.
Qed.
End move.

(** * Every statement keeps the invariant *)

Lemma reached_mono p p' cid n : (∀ w, w ∈ items p → ∃ w', w' ∈ items p' ∧ same_item w w') → reached p cid n → reached p' cid n.
Proof.
  intros Hi [?|(? & w & Hw & <- & <-)]; [by left|right]. split; [done|]. destruct (Hi w Hw) as (w' & Hw' & _ & Hc & Hn). by exists w'.
Qed.

Lemma keep_items p f : pool_ok p → (∀ w, w ∈ items p → item_move p w (f w)) → pool_ok (set_items (map f) p).
Proof.
  intros Hp Hf. assert (∀ w', w' ∈ map f (items p) → ∃ w, w ∈ items p ∧ w' = f w ∧ item_move p w w') as Hin.
  { intros w' (w & -> & Hw)%list_elem_of_fmap. exists w. eauto. }
  assert (∀ w, In w (items p) → same_item w (f w)) as Hsame.
  { intros w Hw%list_elem_of_In. by apply (move_same p), Hf. }
  constructor; cbn; [apply Hp| | | | | | |apply Hp..| |apply Hp].
  - rewrite map_map, (map_ext_in _ w_id); [apply Hp|]. apply Hsame.
  - intros w' (w & Hw & _ & (-> & _ & _)%move_same)%Hin. by apply Hp.
  - rewrite map_map, (map_ext_in _ (λ w, (w_campaign w, input_n w))); [apply Hp|].
    intros w Hw. by destruct (Hsame w Hw) as (_ & -> & ->).
  - intros w' (w & Hw & _ & (_ & -> & ->)%move_same)%Hin. apply (reached_mono p); [|by apply Hp]. intros v Hv. exists (f v).
    split; [by apply list_elem_of_fmap_2|]. by apply (move_same p), Hf.
  - intros w' (w & Hw & _ & (_ & -> & _)%move_same)%Hin. by apply Hp.
  - intros w' (w & Hw & _ & Hm)%Hin. by eapply (move_pay p).
  - intros r Hr Hk. destruct (ok_rows _ Hp r Hr Hk) as (w & Hw & Ho). exists (f w). split; [by apply list_elem_of_fmap_2|].
    eapply (move_owns p); eauto.
Qed.

Lemma nodup_map_snoc {A B} (g : A → B) l x : NoDup (map g l) → (∀ y, y ∈ l → g y ≠ g x) → NoDup (map g (l ++ [x])).
Proof.
  intros Hn Hx. rewrite map_app. apply list.NoDup_app. split_and!; [done| |apply NoDup_singleton].
  intros z (y & Hz & Hy)%list_elem_of_fmap Hz'%list_elem_of_singleton. apply (Hx y Hy). congruence.
Qed.

Lemma pay_ok_new p w : w_run w = RunNone → run_outbox (w_pay w) = 0 → pay_ok p w.
Proof. intros E1 E2. unfold pay_ok. rewrite E1, E2. by split_and!. Qed.

Lemma keep_insert p cid n now : pool_ok p → trimmed cid → reached p cid (n - 1) → pool_ok (after (insert_item cid n now) p).
Proof.
  intros Hp Hc Hn. unfold after, insert_item. destruct (existsb _ _) eqn:Ex; [done|].
  destruct (ok_seqs _ Hp) as [Hseq Hout].
  assert (∀ w, w ∈ items p → (w_campaign w, input_n w) ≠ (cid, n)) as Hnew.
  { intros w Hw [= <- <-]. apply not_true_iff_false in Ex. apply Ex, existsb_exists. exists w.
    split; [by apply list_elem_of_In|]. unfold of_campaign. by rewrite String.eqb_refl, Z.eqb_refl. }
  assert (∀ w, w ∈ items p ++ [fresh_item (item_seq p + 1) cid n now] → w ∈ items p ∨ w = fresh_item (item_seq p + 1) cid n now) as Hin.
  { intros w [Hw|Hw%list_elem_of_singleton]%elem_of_app; auto. }
  constructor; cbn; [lia| | | | | | |apply Hp..| |apply Hp].
  - apply nodup_map_snoc; [apply Hp|]. intros w Hw%(ok_seq _ Hp). cbn. lia.
  - intros w [Hw%(ok_seq _ Hp)| ->]%Hin; cbn; lia.
  - apply nodup_map_snoc; [apply Hp|]. intros w Hw. by apply Hnew.
  - intros w Hw. apply (reached_mono p); [intros v Hv; exists v; split; [apply elem_of_app; by left|done]|].
    apply Hin in Hw as [Hw| ->]; [by apply Hp|done].
  - intros w [Hw| ->]%Hin; [by apply Hp|done].
  - intros w [Hw| ->]%Hin; [by apply Hp|by apply pay_ok_new].
  - intros r Hr Hk. destruct (ok_rows _ Hp r Hr Hk) as (w & Hw & Ho). exists w. split; [|done]. apply elem_of_app. by left.
Qed.

(** The key of a row that is already there, or the new row at the end. *)
Lemma enqueue_cases cid kind miner sev item now p :
  (∃ r, r ∈ outbox p ∧ oi_key r = (cid, kind, miner, sev, item) ∧ enqueue_row cid kind miner sev item now p = (Ok (oi_id r), p))
  ∨ ((∀ r, r ∈ outbox p → oi_key r ≠ (cid, kind, miner, sev, item)) ∧
     enqueue_row cid kind miner sev item now p = (Ok (outbox_seq p + 1),
       set_outbox (λ l, l ++ [mkOut (outbox_seq p + 1) cid kind miner sev ObPending now 0 item]) (outbox_seq p + 1) p)).
Proof.
  unfold enqueue_row. destruct (List.find _ _) as [r|] eqn:E.
  - left. exists r. apply find_some in E as [Hr%list_elem_of_In Hk]. split_and!; [done| |done].
    unfold same_key in Hk. unfold oi_key. rewrite !andb_true_iff, !String.eqb_eq, Z.eqb_eq in Hk. by destruct Hk as [[[[-> ->] ->] ->] ->].
  - right. split; [|done]. intros r Hr%list_elem_of_In [= <- <- <- <- <-]. pose proof (find_none _ _ E r Hr) as Hf.
    unfold same_key in Hf. by rewrite !String.eqb_refl, Z.eqb_refl in Hf.
Qed.

(** The rows of the outbox stay, and an applied one stays applied. *)
Definition grows (p p' : Pool) : Prop :=
  ∀ r, r ∈ outbox p → ∃ r', r' ∈ outbox p' ∧ oi_id r' = oi_id r ∧ oi_key r' = oi_key r ∧ (oi_status r = ObApplied → oi_status r' = ObApplied).

#[global] Instance grows_preorder : PreOrder grows.
Proof.
  split; [by intros p r Hr; exists r|]. intros p q s H1 H2 r (r' & Hr' & Hi' & Hk' & Ha')%H1.
  destruct (H2 r' Hr') as (r'' & Hr'' & Hi'' & Hk'' & Ha''). exists r''. split_and!; [done|congruence|congruence|auto].
Qed.

Lemma pay_ok_grows p p' w : grows p p' → pay_ok p w → pay_ok p' w.
Proof.
  intros Hg (H1 & H2 & H3 & H4 & H5). split_and!; [done..| |].
  - intros Ho Hz. destruct (H4 Ho Hz) as (r & (r' & Hr' & Hi & Hk & _)%Hg & Hid & Hrow). exists r'. unfold run_row in *.
    split_and!; congruence.
  - intros Hpd. destruct (H5 Hpd) as (r & kind & (r' & Hr' & Hi & Hk & Ha)%Hg & Hid & Hkind & Hrow & Hap). exists r', kind.
    unfold run_row in *. split_and!; [done|congruence|done|congruence|auto].
Qed.

Lemma grows_app p l n : grows p (set_outbox (λ l0, l0 ++ l) n p).
Proof. intros r Hr. exists r. cbn. split_and!; [apply elem_of_app; by left|done..]. Qed.

(** A new row: a payment of a run has its item; any other kind is free. *)
Lemma keep_row p cid kind miner sev item now : pool_ok p → trimmed cid →
  (∀ r, r ∈ outbox p → oi_key r ≠ (cid, kind, miner, sev, item)) →
  (is_run_kind kind = true → ∃ w, w ∈ items p ∧ run_open (w_run w) = true ∧ kind = run_kind (w_run w) ∧
     (cid, kind, miner, sev, item) = (w_campaign w, kind, payee w, EmptyString, w_id w)) →
  pool_ok (set_outbox (λ l, l ++ [mkOut (outbox_seq p + 1) cid kind miner sev ObPending now 0 item]) (outbox_seq p + 1) p).
Proof.
  intros Hp Hc Hnew Hown. destruct (ok_seqs _ Hp) as [Hseq Hout]. set (row := mkOut _ _ _ _ _ _ _ _ _).
  assert (∀ r, r ∈ outbox p ++ [row] → r ∈ outbox p ∨ r = row) as Hin.
  { intros w [Hw|Hw%list_elem_of_singleton]%elem_of_app; auto. }
  constructor; cbn; [lia|apply Hp|apply Hp|apply Hp|apply Hp|apply Hp| | | | | | |apply Hp].
  - intros w Hw. eapply pay_ok_grows; [apply grows_app|by apply Hp].
  - apply nodup_map_snoc; [apply Hp|]. intros w Hw%(ok_out_seq _ Hp). cbn. lia.
  - intros w [Hw%(ok_out_seq _ Hp)| ->]%Hin; cbn; lia.
  - intros w [Hw| ->]%Hin; [by apply Hp|done].
  - apply nodup_map_snoc; [apply Hp|done].
  - intros r [Hr| ->]%Hin; [by apply (ok_rows _ Hp)|]. intros Hk. destruct (Hown Hk) as (w & Hw & Ho & Hkind & Hkey).
    exists w. split_and!; [done|by apply open_not_none|done|done|]. intros E. by rewrite E in Ho.
Qed.

Lemma keep_pay p w kind now : pool_ok p → w ∈ items p → run_claim p w kind →
  pool_ok (after (enqueue_row (w_campaign w) kind (payee w) "" (w_id w) now) p).
Proof.
  intros Hp Hw Hcl. unfold after. destruct (enqueue_cases (w_campaign w) kind (payee w) "" (w_id w) now p) as [(r & _ & _ & ->)|[Hnew ->]]; [done|].
  apply keep_row; [done|by apply Hp|done|]. intros _. exists w. destruct Hcl as [[Ho ->]|(_ & r & Hr & _ & Hrow)]; [by split_and!|].
  by destruct (Hnew r Hr).
Qed.

Lemma keep_bill p cid kind miner sev item now : pool_ok p → trimmed cid → is_run_kind kind = false →
  pool_ok (after (enqueue_row cid kind miner sev item now) p).
Proof.
  intros Hp Hc Hk. unfold after. destruct (enqueue_cases cid kind miner sev item now p) as [(r & _ & _ & ->)|[Hnew ->]]; [done|].
  apply keep_row; [done..|]. by rewrite Hk.
Qed.

Lemma ack_same (test : OutItem → bool) now r : let r' := if test r then ob_set_applied now r else r in
  oi_id r' = oi_id r ∧ oi_key r' = oi_key r ∧ oi_campaign r' = oi_campaign r ∧ oi_kind r' = oi_kind r ∧ (oi_status r = ObApplied → oi_status r' = ObApplied).
Proof. by destruct (test r). Qed.

Lemma ack_grows p test now : grows p (set_outbox (upd test (ob_set_applied now)) (outbox_seq p) p).
Proof.
  intros r Hr. eexists. split; [by apply list_elem_of_fmap_2|]. destruct (ack_same test now r) as (? & ? & _ & _ & ?). by split_and!.
Qed.

Lemma keep_ack p test now : pool_ok p → pool_ok (set_outbox (upd test (ob_set_applied now)) (outbox_seq p) p).
Proof.
  intros Hp. assert (∀ r', r' ∈ upd test (ob_set_applied now) (outbox p) → ∃ r, r ∈ outbox p ∧ oi_id r' = oi_id r ∧ oi_key r' = oi_key r
    ∧ oi_campaign r' = oi_campaign r ∧ oi_kind r' = oi_kind r) as Hin.
  { intros r' (r & -> & Hr)%list_elem_of_fmap. exists r. destruct (ack_same test now r) as (? & ? & ? & ? & ?). by split_and!. }
  constructor; cbn; [apply Hp|apply Hp|apply Hp|apply Hp|apply Hp|apply Hp| | | | | | |apply Hp].
  - intros w Hw. eapply pay_ok_grows; [apply ack_grows|by apply Hp].
  - unfold upd. rewrite map_map, (map_ext _ oi_id); [apply Hp|]. intros r. apply ack_same.
  - intros r' (r & Hr & -> & _)%Hin. by apply Hp.
  - intros r' (r & Hr & _ & _ & -> & _)%Hin. by apply Hp.
  - unfold upd. rewrite map_map, (map_ext _ oi_key); [apply Hp|]. intros r. apply ack_same.
  - intros r' (r & Hr & Hi & Hk & _ & Hkind)%Hin Hrk. rewrite Hkind in Hrk. destruct (ok_rows _ Hp r Hr Hrk) as (w & Hw & Hne & Hrow & Ho & Hpd).
    exists w. rewrite Hkind, Hi. unfold run_row in *. rewrite Hk. by split_and!.
Qed.

Lemma keep_rest p p' : pool_ok p → same_tables p p' → (∀ c, c ∈ campaigns p' → trimmed (c_id c)) → pool_ok p'.
Proof.
  intros Hp (E1 & E2 & E3 & E4) Hc.
  constructor; rewrite ?E1, ?E2, ?E3, ?E4; [apply Hp|apply Hp|apply Hp|apply Hp| |apply Hp| |apply Hp|apply Hp|apply Hp|apply Hp| |done].
  - intros w Hw. apply (reached_mono p); [intros v Hv; exists v; by rewrite E1|by apply Hp].
  - intros w Hw. apply (pay_ok_grows p); [|by apply Hp]. intros r Hr. exists r. by rewrite E3.
  - intros r Hr Hk. destruct (ok_rows _ Hp r Hr Hk) as (w & Hw). exists w. by rewrite E1.
Qed.

Lemma step_ok p p' : pool_ok p → pool_step p p' → pool_ok p'.
Proof.
  intros Hp []; [by apply keep_items|by apply keep_insert|by apply keep_pay|by apply keep_bill|by apply keep_ack|by eapply keep_rest].
Qed.

Lemma init_ok : pool_ok empty_pool.
Proof. constructor; cbn; try (by constructor); try (by intros x Hx%not_elem_of_nil); lia. Qed.

Lemma reach_ok p : pool_reach p → pool_ok p.
Proof. induction 1; [apply init_ok|by eapply step_ok]. Qed.

(** * The inputs of a campaign *)

(** A list without repetitions that has the predecessor of each of its numbers is 1..n. *)
Lemma dense_range (l : list Z) : NoDup l → (∀ n, n ∈ l → n - 1 = 0 ∨ 0 < n - 1 ∧ n - 1 ∈ l) →
  ∀ n, n ∈ l ↔ 1 ≤ n ≤ Z.of_nat (length l).
Proof.
  intros Hd Hl. set (m := foldr Z.max 0 l).
  assert (∀ n, n ∈ l → 1 ≤ n ≤ m) as Hle.
  { intros n Hn. split; [destruct (Hl n Hn); lia|]. unfold m. clear -Hn. induction Hn; cbn; lia. }
  assert (∀ k : nat, ∀ n, n ∈ l → Z.of_nat k < n → n - Z.of_nat k ∈ l) as Hdown.
  { induction k as [|k IH]; intros n Hn Hk; [by replace (n - Z.of_nat 0) with n by lia|].
    destruct (Hl _ (IH n Hn ltac:(lia))) as [?|[_ Hx]]; [lia|]. by replace (n - Z.of_nat (S k)) with (n - Z.of_nat k - 1) by lia. }
  assert (l = [] ∨ m ∈ l) as Hm.
  { assert (∀ n, n ∈ l → 1 ≤ n) as H1 by (intros n [? _]%Hle; done). unfold m. clear -H1.
    induction l as [|x l IH]; [by left|right]. cbn. destruct IH as [-> |Hin]; [intros n Hn; apply H1; by right| |].
    - cbn. replace (Z.max x 0) with x; [left|]. pose proof (H1 x ltac:(left)). lia.
    - destruct (Z.max_spec x (foldr Z.max 0 l)) as [[_ ->]|[_ ->]]; [by right|left]. }
  assert (l ≡ₚ seqZ 1 m) as Hp.
  { apply NoDup_Permutation; [done|apply NoDup_seqZ|]. intros n. rewrite elem_of_seqZ. split; [intros Hn%Hle; lia|].
    intros Hn. destruct Hm as [-> |Hm]; [cbn in *; lia|]. replace n with (m - Z.of_nat (Z.to_nat (m - n))) by lia. apply Hdown; [done|lia]. }
  assert (Z.of_nat (length l) = m) as ->.
  { rewrite Hp, length_seqZ. destruct Hm as [E|Hm%Hle]; [unfold m; rewrite E; done|lia]. }
  intros n. rewrite Hp, elem_of_seqZ. lia.
Qed.

Lemma inputs_exact p cid n : pool_ok p → has_input p cid n ↔ 1 ≤ n ≤ count_items (of_campaign cid) p.
Proof.
  intros Hp. set (l := map input_n (List.filter (of_campaign cid) (items p))).
  assert (∀ k, has_input p cid k ↔ k ∈ l) as Hin.
  { intros k. unfold l. rewrite list_elem_of_fmap. split.
    - intros (w & Hw & <- & <-). exists w. split; [done|]. apply list_elem_of_In, filter_In. split; [by apply list_elem_of_In|apply String.eqb_refl].
    - intros (w & -> & [Hw E]%list_elem_of_In%filter_In). exists w. apply String.eqb_eq in E. split_and!; [by apply list_elem_of_In|done|done]. }
  assert (count_items (of_campaign cid) p = Z.of_nat (length l)) as -> by (unfold l; by rewrite length_map).
  rewrite Hin. apply dense_range.
  - unfold l. pose proof (ok_inputs _ Hp) as Hn. clear -Hn. induction (items p) as [|w ws IH]; [constructor|]. cbn in Hn.
    apply list.NoDup_cons in Hn as [Hx Hn]. cbn. unfold of_campaign at 1. destruct (String.eqb_spec (w_campaign w) cid) as [E|]; [|by apply IH].
    cbn. constructor; [|by apply IH]. intros (v & Hv & [Hin E']%list_elem_of_In%filter_In)%list_elem_of_fmap. apply String.eqb_eq in E'.
    apply Hx, list_elem_of_fmap. exists v. split; [congruence|by apply list_elem_of_In].
  - intros k (w & Hw & Hc & Hk)%Hin. destruct (ok_dense _ Hp w Hw) as [?|[H1 H2]]; [left; congruence|right]. rewrite Hc, Hk in *. by rewrite <- Hin.
Qed.

Lemma reach_outbox_ok p : pool_reach p → outbox_ok p.
Proof. intros Hr. pose proof (reach_ok _ Hr) as Hp. split; [apply Hp|]. intros r Hr'. by apply (ok_out_camp _ Hp). Qed.
