(* ===== verification/PoolPaths.v ===== *)
(** Operations as paths of statements.

    [Paths m]: run from a reachable state, [m] commits a sequence of [pool_step]s, whether it
    answers or fails.  The class is closed under the constructs of [act]; this file has the
    statements, the settlements and the operations on the queue (internal/poolfuzz/service.go,
    settle_outbox.go, relay_settler.go, lease_churn.go, deferred_bounty.go, settle_replay.go). *)
From S2P Require Import Prelude PoolCfg GoText GoNum Json PoolBase PoolOutbox PoolQueue PoolFair PoolSteps.

(** * What a later statement may rely on *)

Lemma step_grows p p' : pool_step p p' → grows p p'.
Proof.
  assert (∀ cid kind miner sev item now, grows p (after (enqueue_row cid kind miner sev item now) p)) as Hrow.
  { intros. unfold after. destruct (enqueue_cases cid kind miner sev item now p) as [(r & _ & _ & ->)|[_ ->]]; [reflexivity|apply grows_app]. }
  destruct 1 as [| |? ? ? ? ?|? ? ? ? ? ? ? ?|test now|p' (_ & _ & E & _) _]; [|  |done|done|apply ack_grows|].
  - intros r Hr. by exists r.
  - intros r Hr. exists r. unfold after, insert_item. by destruct (existsb _ _).
  - intros r Hr. exists r. by rewrite E.
Qed.

(** The same work item, later. *)
Definition later (w w' : WorkItem) : Prop := w_id w' = w_id w ∧ w_campaign w' = w_campaign w ∧ payee w' = payee w.

Lemma claim_grows p p' w kind : grows p p' → run_claim p w kind → run_claim p' w kind.
Proof.
  intros Hg [Ho|(Hpd & r & (r' & Hr' & Hi & Hk & _)%Hg & Hid & Hrow)]; [by left|right]. split; [done|]. exists r'.
  unfold run_row in *. split_and!; congruence.
Qed.

Lemma claim_move p w w' kind : pool_ok p → w ∈ items p → item_move p w w' → run_claim p w kind → later w w' ∧ run_claim p w' kind.
Proof.
  intros Hp Hw H Hcl. pose proof (ok_pay _ Hp w Hw) as (H1 & H2 & _).
  assert (w_run w ≠ RunNone) as Hne by (destruct Hcl as [[Ho _]|[-> _]]; [by apply open_not_none|done]).
  unfold later, run_claim, run_row, payee in *.
  destruct H as [w' (Hi & Hc & Hn) (Hm & Hrun & Ho) _ _|w' _ Hnd|next r Hopen Hr Hk Hnext|r Hopen Hr Hid Hs|m st sev Hm].
  - rewrite Hm, Hrun, Ho, Hi, Hc. done.
  - destruct Hne. by apply H1.
  - split; [done|]. destruct Hcl as [[_ ->]|[E _]]; [|by rewrite E in Hopen]. cbn.
    destruct Hnext as [[-> Hap]|[Hon Hf]]; [right; split; [done|by exists r]|left]. unfold w_run, run_kind in *. cbn. by rewrite Hf.
  - split; [done|]. destruct Hcl as [[_ ->]|[E _]]; [|by rewrite E in Hopen]. right. split; [done|]. exists r.
    split_and!; [done|done|]. by apply (open_link p Hp w r).
  - apply H2 in Hne. by rewrite Hm in Hne.
Qed.

Lemma claim_step p p' w kind : pool_ok p → pool_step p p' → w ∈ items p → run_claim p w kind →
  ∃ w', w' ∈ items p' ∧ later w w' ∧ run_claim p' w' kind.
Proof.
  intros Hp Hs Hw Hcl. pose proof (claim_grows _ _ _ _ (step_grows _ _ Hs) Hcl) as Hcl'.
  assert (∀ l, items p' = items p ++ l → ∃ w', w' ∈ items p' ∧ later w w' ∧ run_claim p' w' kind) as Hkeep.
  { intros l E. exists w. rewrite E. split_and!; [apply elem_of_app; by left|done|done]. }
  assert (∀ cid k miner sev item now, items (after (enqueue_row cid k miner sev item now) p) = items p ++ []) as Henq.
  { intros. rewrite app_nil_r. unfold after, enqueue_row. by destruct (List.find _ _). }
  destruct Hs as [f Hf|cid n now Hc|v kind' now Hv Hk'|cid k' miner sev item now Hc Hk'|test now|p' (E & _) _].
  - exists (f w). cbn. destruct (claim_move p w (f w) kind) as [Hl Hcl2]; auto.
    split_and!; [by apply list_elem_of_fmap_2|done|]. eapply claim_grows; [|exact Hcl2]. intros r Hr. by exists r.
  - unfold after, insert_item in *. destruct (existsb _ _); [eapply (Hkeep []); by rewrite app_nil_r|by eapply Hkeep].
  - eapply Hkeep, Henq.
  - eapply Hkeep, Henq.
  - apply (Hkeep []). by rewrite app_nil_r.
  - apply (Hkeep []). by rewrite app_nil_r.
Qed.

Definition path : relation Pool := rtc pool_step.

Lemma path_reach p p' : pool_reach p → path p p' → pool_reach p'.
Proof. intros Hr H. induction H as [|p q r Hs H IH]; [done|]. apply IH. by eapply pr_step. Qed.
Lemma path_grows p p' : path p p' → grows p p'.
Proof. induction 1 as [|p q r Hs H IH]; [done|]. etrans; [by apply step_grows|done]. Qed.

(** What was read about the run of [w] holds whatever was committed since. *)
Lemma claim_path p p' w kind : pool_reach p → path p p' → w ∈ items p → run_claim p w kind →
  ∃ w', w' ∈ items p' ∧ later w w' ∧ run_claim p' w' kind.
Proof.
  intros Hr H. revert w Hr. induction H as [p|p q r Hs H IH]; intros w Hr Hw Hcl; [by exists w|].
  destruct (claim_step p q w kind) as (w1 & Hw1 & (E1 & E2 & E3) & Hcl1); [by apply reach_ok|done..|].
  destruct (IH w1) as (w2 & Hw2 & (F1 & F2 & F3) & Hcl2); [by eapply pr_step|done..|]. exists w2. split_and!; [done|split_and!; congruence|done].
Qed.

(** * The class *)

Definition paths_at {A} (m : pool_act A) (p : Pool) : Prop := pool_reach p → path p (after m p).
Class Paths {A} (m : pool_act A) : Prop := paths p : paths_at m p.

Lemma paths_bind_at {A B} (m : pool_act A) (f : A → pool_act B) p :
  paths_at m p → (∀ a, answer m p = Ok a → paths_at (f a) (after m p)) → paths_at (abind m f) p.
Proof.
  unfold paths_at, after, answer, abind. intros Hm Hf Hr. specialize (Hm Hr). destruct (m p) as [[a|e] p']; cbn in *; [|done].
  etrans; [done|]. apply Hf; [done|by eapply path_reach].
Qed.

Lemma paths_id_at {A} (m : pool_act A) p : after m p = p → paths_at m p.
Proof. unfold paths_at. by intros ->. Qed.
#[global] Instance paths_ret {A} (a : A) : Paths (aret a).
Proof. intros p. by apply paths_id_at. Qed.
#[global] Instance paths_fail {A} e : Paths (afail (A := A) e).
Proof. intros p. by apply paths_id_at. Qed.
#[global] Instance paths_lift {A} (r : result A) : Paths (alift r).
Proof. intros p. by apply paths_id_at. Qed.
#[global] Instance paths_guard b e : Paths (aguard b e).
Proof. destruct b; apply _. Qed.
#[global] Instance paths_bind {A B} (m : pool_act A) (f : A → pool_act B) : Paths m → (∀ a, Paths (f a)) → Paths (abind m f).
Proof. intros Hm Hf p. apply paths_bind_at; [apply Hm|]. intros a _. apply Hf. Qed.
#[global] Instance paths_get : Paths (A := Pool) aget.
Proof. intros p. by apply paths_id_at. Qed.
#[global] Instance paths_try {A} (m : pool_act A) : Paths m → Paths (atry m).
Proof. intros Hm p. apply Hm. Qed.
#[global] Instance paths_wrap {A} pre (m : pool_act A) : Paths m → Paths (awrap pre m).
Proof. intros Hm p Hr. specialize (Hm p Hr). unfold after, awrap in *. by destruct (m p) as [[a|e] p']. Qed.
#[global] Instance paths_if {A} (b : bool) (m k : pool_act A) : Paths m → Paths k → Paths (if b then m else k).
Proof. by destruct b. Qed.
#[global] Instance paths_for {A} (f : A → pool_act unit) l : (∀ x, Paths (f x)) → Paths (afor f l).
Proof. intros Hf. induction l; cbn; apply _. Qed.
#[global] Instance paths_count {A} (f : A → pool_act Z) n l : (∀ x, Paths (f x)) → Paths (acount f n l).
Proof. intros Hf. revert n. induction l; cbn; intros n; apply _. Qed.
Lemma paths_get_at {A} (f : Pool → pool_act A) : (∀ p, paths_at (f p) p) → Paths (abind aget f).
Proof. intros Hf p. apply paths_bind_at; [apply paths_get|]. by intros q [= <-]. Qed.

(** Instances are found by the name of an operation, never through its body. *)
#[global] Typeclasses Opaque aret afail alift aguard abind aget amod atry awrap afor acount
  update_items update_campaigns update_outbox update_replays
  enqueue_row EnqueueSettleOutbox promote_ids ack_one ackSettleOutbox AckSettleOutbox AckSettleOutboxForOrdersPublish
  PromoteAppliedSettleIntents httpRelayOnce relay drain_rows DrainPendingSettleHTTP
  the_campaign clearEmptyClaimCache invalidateSchedCache clearLeaseProven flush_run flush_find flushPendingSettles
  tryFinalizeEscrow recomputeProgress after_work SetCampaignStatus reconcileActiveCampaignWork insert_item EnsureWorkItems
  RegisterCampaign cancel_each CancelInternalGateCampaigns CancelZeroProgressPoolCampaigns CancelStuckExpiredLeaseCampaigns
  CancelHuntCampaignsMissingHarness CancelPendingOfFinishedCampaigns ReclaimExpiredLeases repair_one RepairZombiePoolCampaigns
  forceCompleteWorkItem force_all ForceCompleteLeaseChurnItems force_leftovers ForceCompleteStalledNearDoneCampaigns
  bounty_of flushDeferredBounties replay_runs ReplayCampaignSettles.

(** * Statements *)

Lemma paths_rest {A} (m : pool_act A) : (∀ p, pool_ok p → same_tables p (after m p) ∧ ∀ c, c ∈ campaigns (after m p) → trimmed (c_id c)) → Paths m.
Proof. intros Hm p Hr. destruct (Hm p) as [Ht Hc]; [by apply reach_ok|]. apply rtc_once. by apply ps_rest. Qed.

Lemma paths_mem f : (∀ p, same_tables p (f p) ∧ campaigns (f p) = campaigns p) → Paths (amod f).
Proof. intros Hf. apply paths_rest. intros p Hp. destruct (Hf p) as [Ht Hc]. split; [done|]. cbn. rewrite Hc. apply Hp. Qed.

#[global] Instance paths_set_empty f : Paths (amod (λ p, set_empty (f p) p)).
Proof. by apply paths_mem. Qed.
#[global] Instance paths_set_empty' n : Paths (amod (set_empty n)).
Proof. by apply paths_mem. Qed.
#[global] Instance paths_invalidate : Paths invalidateSchedCache.
Proof. by apply paths_mem. Qed.
#[global] Instance paths_set_sched c : Paths (amod (set_sched c)).
Proof. by apply paths_mem. Qed.
#[global] Instance paths_set_proven f : Paths (amod (λ p, set_proven (f p) p)).
Proof. by apply paths_mem. Qed.
#[global] Instance paths_claimRR f : Paths (amod (λ p, set_claimRR (f p) p)).
Proof. by apply paths_mem. Qed.
#[global] Instance paths_tickRR f : Paths (amod (λ p, set_tickRR (f p) p)).
Proof. by apply paths_mem. Qed.
#[global] Instance paths_sweep f : Paths (amod (λ p, set_sweep (f p) p)).
Proof. by apply paths_mem. Qed.
#[global] Instance paths_findings f : Paths (amod (set_findings f)).
Proof. by apply paths_mem. Qed.
#[global] Instance paths_replays test f : Paths (update_replays test f).
Proof. apply paths_rest. intros p Hp. split; [done|apply Hp]. Qed.

Lemma paths_campaigns test f : (∀ c, trimmed (c_id c) → trimmed (c_id (f c))) → Paths (update_campaigns test f).
Proof.
  intros Hf. apply paths_rest. intros p Hp. split; [done|]. intros c' (c & -> & Hc)%list_elem_of_fmap.
  apply (ok_campaigns _ Hp) in Hc. destruct (test c); auto.
Qed.
#[global] Instance paths_camp_status test st completed n : Paths (update_campaigns test (set_camp_status st completed n)).
Proof. by apply paths_campaigns. Qed.
#[global] Instance paths_camp_status' test st completed n : Paths (update_campaigns test (λ c, set_camp_status (st c) (completed c) (n c) c)).
Proof. by apply paths_campaigns. Qed.

#[global] Instance paths_ack_row test now : Paths (update_outbox test (ob_set_applied now)).
Proof. intros p Hr. apply rtc_once, ps_ack. Qed.

Lemma move_refl p w : item_move p w w.
Proof. by apply im_keep. Qed.

Lemma paths_items_at test f p : (∀ w, pool_ok p → w ∈ items p → test w = true → item_move p w (f w)) → paths_at (update_items test f) p.
Proof.
  intros Hf Hr. apply rtc_once, (ps_items p (λ w, if test w then f w else w)). intros w Hw.
  destruct (test w) eqn:Ht; [by apply Hf; [apply reach_ok|..]|apply move_refl].
Qed.
Lemma paths_items test f : (∀ p w, w ∈ items p → test w = true → item_move p w (f w)) → Paths (update_items test f).
Proof. intros Hf p. apply paths_items_at. auto. Qed.

(** * Settlement *)

Lemma find_item cid id p w : get_item cid id p = Some w → w ∈ items p ∧ w_id w = id ∧ w_campaign w = cid.
Proof. intros [Hw%list_elem_of_In H]%find_some. unfold is_item in H. apply andb_true_iff in H as [H%Z.eqb_eq ->%String.eqb_eq]. done. Qed.
Lemma find_out id p r : get_out id p = Some r → r ∈ outbox p ∧ oi_id r = id.
Proof. intros [Hr%list_elem_of_In H%Z.eqb_eq]%find_some. done. Qed.
Lemma out_found p r : pool_ok p → r ∈ outbox p → get_out (oi_id r) p = Some r.
Proof.
  intros Hp Hr. unfold get_out. destruct (List.find _ _) as [r'|] eqn:E.
  - apply find_some in E as [Hr'%list_elem_of_In Hid%Z.eqb_eq]. f_equal. by apply (out_id_inj p Hp).
  - apply list_elem_of_In in Hr. pose proof (find_none _ _ E r Hr) as Hf. cbn in Hf. by rewrite Z.eqb_refl in Hf.
Qed.
Lemma item_inj p w w' : pool_ok p → w ∈ items p → w' ∈ items p → w_id w = w_id w' → w = w'.
Proof. intros Hp. apply nodup_map_inj, Hp. Qed.

Lemma is_applied r : st_in (oi_status r) [ObApplied] = true → oi_status r = ObApplied.
Proof. by destruct (oi_status r). Qed.

Lemma paths_promote now id r p : r ∈ outbox p → oi_id r = id → oi_status r = ObApplied → paths_at (promote_ids now id) p.
Proof.
  intros Hr <- Ha. apply paths_bind_at.
  - apply paths_items_at. intros w _ Hw [E%Z.eqb_eq Ho]%andb_true_iff. by eapply im_paid.
  - intros _ _. apply paths_bind; [|apply _]. apply paths_items. intros q w Hw _. by apply im_keep.
Qed.

(** [ack_one] after its first statement. *)
Definition ack_promote (now : Z) (cid : string) (req : bool) (id aff : Z) : pool_act Z :=
  let! p := aget in
  match get_out id p with
  | Some r => if st_in (oi_status r) [ObApplied] && (negb req || ob_of cid r) then promote_ids now id ;!; aret aff else aret aff
  | None => aret aff
  end.
#[global] Instance paths_ack_promote now cid req id aff : Paths (ack_promote now cid req id aff).
Proof.
  apply paths_get_at. intros p.
  destruct (get_out id p) as [r|] eqn:Hr; [|by apply paths_id_at]. apply find_out in Hr as [Hr Hid].
  destruct (_ && _) eqn:Ha; [|by apply paths_id_at]. apply andb_true_iff in Ha as [Ha%is_applied _].
  apply paths_bind_at; [by apply (paths_promote now id r)|]. intros _ _. apply paths_ret.
Qed.
#[global] Instance paths_ack_one now cid req id : Paths (ack_one now cid req id).
Proof. apply paths_if; [apply _|]. apply paths_bind; [apply _|]. intros aff. apply paths_ack_promote. Qed.
#[global] Instance paths_ack now ids : Paths (AckSettleOutbox now ids).
Proof. unfold AckSettleOutbox, ackSettleOutbox. apply _. Qed.
#[global] Instance paths_ack_pull now cid ids : Paths (AckSettleOutboxForOrdersPublish now cid ids).
Proof. unfold AckSettleOutboxForOrdersPublish, ackSettleOutbox. apply _. Qed.

Definition applied_row (p : Pool) (r : OutItem) : Prop :=
  ∃ r', r' ∈ outbox p ∧ oi_id r' = oi_id r ∧ oi_key r' = oi_key r ∧ oi_status r' = ObApplied.

Lemma ack_applied now p r : pool_reach p → r ∈ outbox p → applied_row (after (AckSettleOutbox now [oi_id r]) p) r.
Proof.
  intros Hp Hr. set (m := update_outbox (λ x, (oi_id x =? oi_id r) && ob_pending x && (negb false || ob_of "" x)) (ob_set_applied now)).
  assert (∃ r1, r1 ∈ outbox (after m p) ∧ oi_id r1 = oi_id r ∧ oi_key r1 = oi_key r ∧ oi_status r1 = ObApplied) as (r1 & Hr1 & Hi & Hk & Ha).
  { eexists. split; [apply list_elem_of_fmap_2, Hr|]. rewrite Z.eqb_refl. unfold ob_pending. destruct (oi_status r) eqn:E; cbn; rewrite ?E; done. }
  set (aff := hits (λ x, (oi_id x =? oi_id r) && ob_pending x && (negb false || ob_of "" x)) (outbox p)).
  destruct (path_grows (after m p) (after (AckSettleOutbox now [oi_id r]) p)) with r1 as (r2 & Hr2 & Hi2 & Hk2 & Ha2); [|done|].
  - pose proof (ok_out_seq _ (reach_ok _ Hp) r Hr) as Hpos.
    assert (after (AckSettleOutbox now [oi_id r]) p = after (abind (ack_promote now "" false (oi_id r) aff) (λ k, aret (0 + k))) (after m p)) as ->.
    { unfold AckSettleOutbox, ackSettleOutbox. cbn [acount]. unfold ack_one. by replace (oi_id r <=? 0) with false by lia. }
    apply paths_bind; [apply _..|]. apply (path_reach p); [done|]. by apply (paths (m := m)).
  - exists r2. split_and!; [done|congruence|congruence|auto].
Qed.

(** The row an operation was answered for the run of [w]. *)
Definition run_answered (p : Pool) (w : WorkItem) (kind : string) (id : Z) (ap : bool) : Prop :=
  ∃ r, r ∈ outbox p ∧ oi_id r = id ∧ run_row kind w r ∧ (ap = true → oi_status r = ObApplied).

Lemma run_kind_cases kind : is_run_kind kind = true → kind = "run"%string ∨ kind = "run_floor"%string.
Proof. unfold is_run_kind. cbn. rewrite orb_false_r, orb_true_iff, !String.eqb_eq. naive_solver. Qed.

Lemma enqueue_run now p w kind : pool_reach p → w ∈ items p → run_claim p w kind → is_run_kind kind = true →
  let m := EnqueueSettleOutbox now kind (w_campaign w) (payee w) "" (w_id w) in
  path p (after m p) ∧ ∃ id, answer m p = Ok id ∧ run_answered (after m p) w kind id false.
Proof.
  intros Hp Hw Hcl Hk m. pose proof (reach_ok _ Hp) as Hok. destruct (ok_camps _ Hok w Hw) as [Ht Hne]. pose proof (ok_seq _ Hok w Hw) as Hid.
  assert (m = enqueue_row (w_campaign w) kind (payee w) "" (w_id w) now) as ->.
  { unfold m, EnqueueSettleOutbox. rewrite Ht. apply String.eqb_neq in Hne. rewrite Hne. replace (w_id w <? 0) with false by lia.
    unfold payee. rewrite trim_space_idem. by destruct (run_kind_cases kind Hk) as [-> | ->]. }
  split; [by apply rtc_once, ps_pay|]. unfold after, answer.
  destruct (enqueue_cases (w_campaign w) kind (payee w) "" (w_id w) now p) as [(r & Hr & Hkey & ->)|[_ ->]]; eexists; (split; [done|]).
  - exists r. by split_and!.
  - eexists. split; [apply elem_of_app; right; by apply list_elem_of_singleton|]. by split_and!.
Qed.

Lemma paths_enqueue now kind cid miner sev item : is_run_kind (norm kind) = false → Paths (EnqueueSettleOutbox now kind cid miner sev item).
Proof.
  intros Hk p. unfold EnqueueSettleOutbox. destruct (_ || _) eqn:E; [by apply paths_id_at|]. apply orb_false_iff in E as [E%String.eqb_neq _].
  intros Hr. apply rtc_once, ps_bill; [|done]. split; [apply trim_space_idem|done].
Qed.

(** * The contract of a settler, and its implementation by the relay *)

Class SettlerLaw (St : Settler) : Prop := {
  law_run p w : pool_reach p → w ∈ items p → run_open (w_run w) = true → payee w ≠ EmptyString →
    let m := (if is_floor (w_run w) then PayRunFloor St else PayRun St) (w_campaign w) (payee w) (w_id w) (run_outbox (w_pay w)) in
    path p (after m p) ∧ ∀ res, answer m p = Ok res → run_answered (after m p) w (run_kind (w_run w)) (OutboxID res) (Applied res);
  law_finding c m s i o :: Paths (PayFinding St c m s i o);
  law_bonus c m i o :: Paths (PayCrashBonus St c m i o);
  law_finalize c o :: Paths (Finalize St c o);
}.

#[global] Instance paths_http r now kind cid miner sev ob item : Paths (httpRelayOnce r now kind cid miner sev ob item).
Proof. unfold httpRelayOnce. apply _. Qed.

Lemma paths_relay r now kind cid miner sev item ob : is_run_kind (norm kind) = false → Paths (relay r now kind cid miner sev item ob).
Proof.
  intros Hk. pose proof (λ c, paths_enqueue now kind c miner sev item Hk) as He. unfold relay. apply paths_bind; [apply _|]. intros p.
  destruct (if 0 <? ob then _ else _) as [[]|]; try apply _.
  - apply paths_bind; [apply _|]. intros id. apply paths_if; [apply _|]. apply paths_bind; [apply _|]. intros q.
    destruct (resolveSettleBase r cid q). apply _.
  - apply paths_bind; [apply He|]. intros id. apply paths_if; [apply _|]. apply paths_bind; [apply _|]. intros q.
    destruct (resolveSettleBase r cid q). apply _.
Qed.

(** The tail of [relay], once the row is known: post it unless the campaign is pulled. *)
Definition relay_post (r : Relay) (now : Z) (kind cid miner : string) (item id : Z) : pool_act SettleResult :=
  if SkipInlineHTTP r then aret (mkSettled id false)
  else
    let! p := aget in
    let '(base, pull) := resolveSettleBase r cid p in
    if pull || String.eqb base "" || String.eqb (relay_token r) "" then aret (mkSettled id false)
    else httpRelayOnce r now kind cid miner "" id item.

Lemma relay_post_run r now kind cid miner item id p w : pool_reach p → run_answered p w kind id false →
  let m := relay_post r now kind cid miner item id in
  path p (after m p) ∧ ∀ res, answer m p = Ok res → run_answered (after m p) w kind (OutboxID res) (Applied res).
Proof.
  intros Hp (row & Hr & <- & Hrow & _) m.
  assert (∀ q, path p q → run_answered q w kind (oi_id row) false) as Hno.
  { intros q Hq. destruct (path_grows _ _ Hq row Hr) as (r' & Hr' & Hi & Hk & _). exists r'. unfold run_row in *. split_and!; congruence. }
  unfold m, relay_post. destruct (SkipInlineHTTP r); [split; [done|]; intros res [= <-]; by apply Hno|].
  rewrite (after_bind _ _ _ p) by done. rewrite (answer_bind _ _ _ p) by done. change (after aget p) with p.
  destruct (resolveSettleBase r cid p) as [base pull]. destruct (_ || _); [split; [done|]; intros res [= <-]; by apply Hno|].
  unfold httpRelayOnce. destruct (origin_ok r _); [|split; [done|]; intros res [= <-]; by apply Hno].
  set (ack := AckSettleOutbox now [oi_id row]).
  assert (path p (after ack p)) as Hpath by (by apply (paths (m := ack))).
  unfold after, answer, abind. destruct (ack p) as [[a|e] q] eqn:E; cbn; [|split; [by unfold after in Hpath; rewrite E in Hpath|done]].
  assert (q = after ack p) as -> by (unfold after; by rewrite E).
  split; [done|]. intros res [= <-]. destruct (ack_applied now p row Hp Hr) as (r' & Hr' & Hi & Hk & Ha).
  exists r'. unfold run_row in *. split_and!; [done|done|congruence|done].
Qed.

Lemma relay_run r now p w kind : pool_reach p → w ∈ items p → run_open (w_run w) = true → kind = run_kind (w_run w) →
  let m := relay r now kind (w_campaign w) (payee w) "" (w_id w) (run_outbox (w_pay w)) in
  path p (after m p) ∧ ∀ res, answer m p = Ok res → run_answered (after m p) w kind (OutboxID res) (Applied res).
Proof.
  intros Hp Hw Ho Hk m. pose proof (reach_ok _ Hp) as Hok. set (ob := run_outbox (w_pay w)).
  unfold m, relay. rewrite (after_bind _ _ _ p), (answer_bind _ _ _ p) by done. change (after aget p) with p.
  assert (∀ x : pool_act Z, path p (after x p) → (∃ id, answer x p = Ok id ∧ run_answered (after x p) w kind id false) →
    let y := abind x (relay_post r now kind (w_campaign w) (payee w) (w_id w)) in
    path p (after y p) ∧ ∀ res, answer y p = Ok res → run_answered (after y p) w kind (OutboxID res) (Applied res)) as Hpost.
  { intros x Hx (id & Hid & Hans). cbv zeta. rewrite (after_bind _ _ _ id), (answer_bind _ _ _ id) by done.
    destruct (relay_post_run r now kind (w_campaign w) (payee w) (w_id w) id (after x p) w) as [H1 H2]; [by eapply path_reach|done|].
    split; [by etrans|done]. }
  assert (∀ row, get_out ob p = Some row → run_answered p w kind ob (bool_decide (oi_status row = ObApplied))) as Hlink.
  { intros row [Hr Hid]%find_out. exists row. split_and!; [done|done|subst kind; by apply (open_link p Hok)|by intros ?%bool_decide_eq_true]. }
  assert (path p (after (EnqueueSettleOutbox now kind (w_campaign w) (payee w) "" (w_id w)) p) ∧
    ∃ id, answer (EnqueueSettleOutbox now kind (w_campaign w) (payee w) "" (w_id w)) p = Ok id ∧
      run_answered (after (EnqueueSettleOutbox now kind (w_campaign w) (payee w) "" (w_id w)) p) w kind id false) as [He1 He2].
  { apply enqueue_run; [done|done|by left|]. rewrite Hk. apply run_kind_is. }
  unfold SettleOutboxStatus. fold ob. destruct (0 <? ob) eqn:Hz; [|exact (Hpost _ He1 He2)]. replace (ob <=? 0) with false by lia.
  destruct (get_out ob p) as [row|] eqn:Hg; cbn [fmap option_fmap option_map]; [|exact (Hpost _ He1 He2)].
  specialize (Hlink row eq_refl). destruct (oi_status row); [|split; [done|]; by intros res [= <-]].
  refine (Hpost (aret ob) _ _); [done|]. exists ob. split; [done|]. destruct Hlink as (x & ? & ? & ? & _). by exists x.
Qed.

#[global] Instance relay_law r now : SettlerLaw (RelaySettler r now).
Proof.
  split; cbn; [|intros; by apply paths_relay..]. intros p w Hp Hw Ho _. unfold run_kind. destruct (is_floor (w_run w)) eqn:E;
    apply relay_run; try done; unfold run_kind; by rewrite E.
Qed.

(** * Settling one item *)

Lemma run_kind_floor a b : run_kind a = run_kind b → is_floor a = is_floor b.
Proof. unfold run_kind. by destruct (is_floor a), (is_floor b). Qed.

Section settle.
Context (St : Settler) `{!SettlerLaw St}.
#[local] Set Default Proof Using "Type*".

Lemma paths_flush_run w p : w ∈ items p → payee w ≠ EmptyString →
  paths_at (flush_run St (w_campaign w) (payee w) (w_id w) (w_run w) (run_outbox (w_pay w))) p.
Proof.
  intros Hw Hpay Hp. unfold flush_run. destruct (run_open (w_run w)) eqn:Ho; [|done]. cbn [negb].
  destruct (law_run p w Hp Hw Ho Hpay) as [Hpath Hans].
  set (m := (if is_floor (w_run w) then _ else _) _ _ _ _) in Hpath, Hans.
  assert ((if is_floor (w_run w) then PayRunFloor St (w_campaign w) (payee w) (w_id w) (run_outbox (w_pay w))
          else PayRun St (w_campaign w) (payee w) (w_id w) (run_outbox (w_pay w))) = m) as -> by (unfold m; by destruct (is_floor _)).
  unfold after, answer, awrap, abind in *. destruct (m p) as [[res|e] q]; cbn in *; [|done].
  specialize (Hans res eq_refl). etrans; [exact Hpath|]. assert (pool_reach q) as Hq by (by eapply path_reach).
  set (next := if Applied res then RunPaid else _). eapply (paths_items_at _ _ q); [|done].
  intros w1 Hok Hw1 [Hi Ho1]%andb_true_iff. apply andb_true_iff in Hi as [Hi%Z.eqb_eq _].
  destruct (claim_path p q w (run_kind (w_run w))) as (w2 & Hw2 & (E1 & E2 & E3) & Hcl); [done|done|done|by left|].
  assert (w2 = w1) as -> by (apply (item_inj q); [done..|congruence]).
  destruct Hcl as [[_ Hk]|[E _]]; [|by rewrite E in Ho1].
  destruct Hans as (r & Hr & Hid & Hrow & Hap). rewrite <- Hid. eapply im_linked; [done|done| |].
  - unfold run_row in *. rewrite <- Hk, E1, E2, E3. done.
  - apply run_kind_floor in Hk. rewrite <- Hk. destruct (Applied res); [left; auto|right]. by destruct (is_floor (w_run w)).
Qed.

#[global] Instance paths_flush_find cfg cid miner sev item f ob : Paths (flush_find St cfg cid miner sev item f ob).
Proof.
  unfold flush_find. destruct (negb _); [apply _|]. destruct (huntBountyEligible _ _); [|
    apply paths_bind; [|apply _]; apply paths_items; intros p w _ _; by apply im_keep].
  apply paths_bind; [apply _|]. intros res. apply paths_bind; [|apply _]. apply paths_items. intros p w _ _. by apply im_keep.
Qed.
End settle.

(** The settler of a call, if it has one. *)
Class OptLaw (St : option Settler) : Prop := opt_law S : St = Some S → SettlerLaw S.

#[global] Instance opt_law_none : OptLaw None.
Proof. done. Qed.
#[global] Instance opt_law_relay r now : OptLaw (Some (RelaySettler r now)).
Proof. intros S [= <-]. apply _. Qed.

Section ops.
Context (St : option Settler) `{!OptLaw St}.
#[local] Set Default Proof Using "Type*".

#[global] Instance paths_flush cid item cfg : Paths (flushPendingSettles St cid item cfg).
Proof.
  destruct St as [S0|] eqn:E; [|apply paths_ret]. pose proof (OptLaw0 S0 eq_refl) as HS. unfold flushPendingSettles.
  apply paths_if; [apply _|]. apply paths_get_at. intros p.
  destruct (get_item cid item p) as [w|] eqn:Hw; [|apply paths_ret]. apply find_item in Hw as (Hw & <- & <-).
  change (trim_space (miner_address (w_pay w))) with (payee w). destruct (String.eqb_spec (payee w) "") as [|Hne]; [apply paths_ret|].
  apply paths_bind_at; [by apply paths_flush_run|]. intros _ _. by apply paths_flush_find.
Qed.

#[global] Instance paths_promote_all cid : Paths (PromoteAppliedSettleIntents cid).
Proof.
  unfold PromoteAppliedSettleIntents. apply paths_get_at. intros p. apply paths_bind_at.
  - apply paths_items_at. intros w _ Hw [[Ho Ha]%andb_true_iff _]%andb_true_iff. unfold ob_applied in Ha.
    apply existsb_exists in Ha as (r & Hr%list_elem_of_In & [Hi%Z.eqb_eq Ha]%andb_true_iff). by eapply im_paid; [| | |apply is_applied].
  - intros n _. apply paths_bind; [|apply _]. apply paths_items. intros q w Hw _. by apply im_keep.
Qed.

#[global] Instance paths_finalize cid : Paths (tryFinalizeEscrow St cid).
Proof.
  destruct St as [S0|] eqn:E; [|apply paths_ret]. pose proof (OptLaw0 S0 eq_refl) as HS. unfold tryFinalizeEscrow. apply _.
Qed.

Lemma paths_the_campaign {A} cid (f : Campaign → pool_act A) : (∀ c, trimmed (c_id c) → c_id c = cid → Paths (f c)) →
  Paths (abind (the_campaign cid) f).
Proof.
  intros Hf p Hr. unfold the_campaign, after, abind. cbn. destruct (get_campaign cid p) as [c|] eqn:Hc; [|done]. cbn.
  apply find_some in Hc as [Hc%list_elem_of_In E%String.eqb_eq]. apply (Hf c); [|done|done]. by apply (ok_campaigns _ (reach_ok _ Hr)).
Qed.
#[global] Instance paths_get_the_campaign cid : Paths (the_campaign cid).
Proof. unfold the_campaign. apply paths_bind; [apply _|]. intros p. destruct (get_campaign cid p); apply _. Qed.

#[global] Instance paths_recompute cid now : Paths (recomputeProgress cid now).
Proof. unfold recomputeProgress. apply _. Qed.
#[global] Instance paths_after_work cid cfg now : Paths (after_work St cid cfg now).
Proof. unfold after_work. apply _. Qed.
End ops.

(** * Queue columns *)

(** A statement on the queue columns of items that are not finished, and stay so. *)
Lemma move_open p w f : w_status w ≠ WDone → q_status (f (w_q w)) ≠ WDone → item_move p w (on_queue f w).
Proof. intros H1 H2. apply im_keep; [done|done|by intros E|by intros E]. Qed.
(** Completion without a payment. *)
Lemma move_closed p w f : w_status w ≠ WDone → q_status (f (w_q w)) = WDone → item_move p w (on_queue f w).
Proof. intros H1 H2. apply im_done; [done|done|done|done|by left]. Qed.

Lemma status_not_done l w : status_in l w = true → st_in WDone l = false → w_status w ≠ WDone.
Proof. unfold status_in. intros H Hd E. by rewrite E, Hd in H. Qed.

Lemma paths_queue test f : (∀ w, test w = true → w_status w ≠ WDone) → (∀ c, q_status (f c) ≠ WDone) → Paths (update_items test (on_queue f)).
Proof. intros Ht Hf. apply paths_items. intros p w _ H. apply move_open; [by apply Ht|apply Hf]. Qed.

(** The statuses a [WHERE] clause admits. *)
Ltac not_done :=
  intros;
  repeat match goal with H : (_ && _) = true |- _ => apply andb_true_iff in H as [? ?] end;
  unfold expired, leased_by in *;
  repeat match goal with H : (_ && _) = true |- _ => apply andb_true_iff in H as [? ?] end;
  match goal with H : status_in _ ?w = true |- w_status ?w ≠ WDone => exact (status_not_done _ w H eq_refl) end.

#[global] Instance paths_clear campaignID item : Paths (clearLeaseProven campaignID item).
Proof. apply paths_set_proven. Qed.
#[global] Instance paths_clear_empty : Paths clearEmptyClaimCache.
Proof. apply paths_set_empty'. Qed.

#[global] Instance paths_set_campaign now id st : Paths (SetCampaignStatus now id st).
Proof.
  unfold SetCampaignStatus. apply paths_if; [apply _|]. apply paths_if; [apply _|]. apply paths_bind; [apply _|]. intros aff.
  apply paths_if; [apply _|]. apply paths_bind; [|intros; apply _]. apply paths_if; [|apply _].
  apply paths_bind; [apply paths_queue; [not_done|done]|intros _]. apply _.
Qed.

#[global] Instance paths_reconcile cid now : Paths (reconcileActiveCampaignWork cid now).
Proof.
  unfold reconcileActiveCampaignWork. apply paths_if; [apply _|]. apply paths_bind; [apply _|]. intros c. apply paths_if; [apply _|].
  apply paths_bind; [apply _|]. intros p. apply paths_if; [apply _|]. apply paths_bind; [apply _|]. intros _.
  apply paths_bind; [apply _|]. intros q. apply paths_if; [apply _|]. apply paths_if; [apply _|].
  apply paths_bind; [apply paths_queue; [not_done|done]|apply _].
Qed.

(** [EnsureWorkItems] inserts the inputs after those it counted, in order. *)
Lemma insert_has cid n now p : has_input (after (insert_item cid n now) p) cid n.
Proof.
  unfold after, insert_item. destruct (existsb _ _) eqn:E.
  - apply existsb_exists in E as (w & Hw%list_elem_of_In & [Hc%String.eqb_eq Hn%Z.eqb_eq]%andb_true_iff). by exists w.
  - exists (fresh_item (item_seq p + 1) cid n now). split_and!; [|done|done]. apply elem_of_app. right. by apply list_elem_of_singleton.
Qed.
Lemma paths_inserts cid now k n p : trimmed cid → 0 ≤ n → reached p cid n →
  paths_at (afor (λ i, insert_item cid (n + Z.of_nat i + 1) now) (seq 0 k)) p.
Proof.
  intros Hc Hn. assert (∀ k a p, reached p cid (n + Z.of_nat a) → paths_at (afor (λ i, insert_item cid (n + Z.of_nat i + 1) now) (seq a k)) p) as H.
  { clear p k. induction k as [|k IH]; intros a p Hr; [by apply paths_id_at|]. cbn. apply paths_bind_at.
    - intros _. apply rtc_once, ps_insert; [done|]. by replace (n + Z.of_nat a + 1 - 1) with (n + Z.of_nat a) by lia.
    - intros _ _. apply IH. right. split; [lia|]. replace (n + Z.of_nat (S a)) with (n + Z.of_nat a + 1) by lia. apply insert_has. }
  intros Hr. apply H. by replace (n + Z.of_nat 0) with n by lia.
Qed.
#[global] Instance paths_ensure cid now : Paths (EnsureWorkItems cid now).
Proof.
  apply paths_the_campaign. intros c Ht <-. apply paths_if; [apply _|]. apply paths_get_at. intros q.
  cbv zeta. destruct (c_budget_runs c <=? _); [by apply paths_id_at|]. apply paths_bind_at; [|intros _ _; by destruct (_ <? _); [apply paths_clear_empty|apply paths_ret]].
  intros Hq. assert (0 ≤ count_items (of_campaign (c_id c)) q) as Hpos by (unfold count_items, hits; lia).
  apply paths_inserts; [done|done| |done].
  destruct (decide (count_items (of_campaign (c_id c)) q = 0)) as [E|Hne]; [by left|right]. split; [lia|].
  apply inputs_exact; [by apply reach_ok|lia].
Qed.

Lemma paths_new_campaign c : trimmed (c_id c) → Paths (amod (set_campaigns (λ l, l ++ [c]))).
Proof.
  intros Hc. apply paths_rest. intros p Hp. split; [done|]. cbn.
  intros c' [H| ->%list_elem_of_singleton]%elem_of_app; [by apply Hp|done].
Qed.
#[global] Instance paths_register normalize defaults now c : Paths (RegisterCampaign normalize defaults now c).
Proof.
  unfold RegisterCampaign. destruct (String.eqb_spec (trim_space (c_id c)) "") as [|Hne]; [apply _|].
  assert (trimmed (trim_space (c_id c))) as Ht by (split; [apply trim_space_idem|done]).
  apply paths_bind; [apply _|]. intros p. apply paths_bind; [|intros; apply _].
  destruct (get_campaign _ _); [apply paths_bind; [by apply paths_campaigns|apply _]|by apply paths_new_campaign].
Qed.

#[global] Instance paths_cancel_each now limit n l : Paths (cancel_each now limit n l).
Proof. revert n. induction l; cbn; apply _. Qed.
#[global] Instance paths_cancel_gate now limit : Paths (CancelInternalGateCampaigns now limit).
Proof. unfold CancelInternalGateCampaigns. apply _. Qed.
#[global] Instance paths_cancel_zero now age limit : Paths (CancelZeroProgressPoolCampaigns now age limit).
Proof. unfold CancelZeroProgressPoolCampaigns. apply _. Qed.
#[global] Instance paths_cancel_stuck now age limit : Paths (CancelStuckExpiredLeaseCampaigns now age limit).
Proof. unfold CancelStuckExpiredLeaseCampaigns. apply _. Qed.
#[global] Instance paths_cancel_harness h now age limit : Paths (CancelHuntCampaignsMissingHarness h now age limit).
Proof. unfold CancelHuntCampaignsMissingHarness. apply _. Qed.
#[global] Instance paths_cancel_finished now : Paths (CancelPendingOfFinishedCampaigns now).
Proof.
  unfold CancelPendingOfFinishedCampaigns. apply paths_bind; [apply _|]. intros p. apply paths_bind; [|intros; apply _].
  apply paths_queue; [not_done|done].
Qed.
#[global] Instance paths_reclaim now : Paths (ReclaimExpiredLeases now).
Proof.
  unfold ReclaimExpiredLeases. apply paths_bind; [apply _|]. intros p. apply paths_bind; [apply _|]. intros _.
  apply paths_bind; [|intros; apply _]. apply paths_queue; [not_done|done].
Qed.
#[global] Instance paths_repair now limit : Paths (RepairZombiePoolCampaigns now limit).
Proof.
  unfold RepairZombiePoolCampaigns. apply paths_bind; [apply _|]. intros p. apply paths_bind; [|apply _]. apply paths_for. intros c.
  unfold repair_one. apply paths_bind; [apply _|]. intros _. apply paths_bind; [apply _|]. intros q. destruct (get_campaign _ _); apply _.
Qed.

(** * The drain *)

#[global] Instance paths_drain r now limit : Paths (DrainPendingSettleHTTP r now limit).
Proof.
  unfold DrainPendingSettleHTTP. apply paths_bind; [apply _|]. intros p. generalize (pays_first (ListPendingSettleOutbox now (if limit <=? 0 then 32 else limit) p)) as l.
  intros l. generalize 0 at 2. generalize 0. generalize (∅ : gset string). induction l as [|it l IH]; intros failed n k; cbn [drain_rows]; [apply _|]. apply paths_if; [done|].
  apply paths_bind; [apply _|]. intros q. destruct (resolveSettleBase r (oi_campaign it) q). apply paths_if; [done|].
  apply paths_bind; [apply _|]. intros res. by apply paths_if.
Qed.
