(* ===== verification/PoolOps.v ===== *)
(** Every operation of the pool is a path of statements.

    Breaking lease churn, deferred bounties, settlement replay, claims, submits, the verification
    queue and the sweep; then the operations as one type, [run_op], whose histories stay inside
    [pool_reach] (internal/poolfuzz/service.go, lease_churn.go, deferred_bounty.go,
    settle_replay.go, hunt_replay_async.go, settle_outbox.go). *)
From S2P Require Import Prelude PoolCfg GoText GoNum Json Address PoolBase PoolOutbox PoolQueue PoolVerify PoolClaim PoolSubmit PoolFair PoolSteps PoolPaths.

#[global] Typeclasses Opaque note_proven noteLeaseProvenPersist takeLeaseProvenPersist stampHuntProvenOnSubmit store_built buildClaimedWork
  lease_oldest claimOnePendingInCampaign claim_first runnablePoolCampaignIDsByTier take_expired noteEmptyClaim claim_rest near_phase
  or_else ClaimWithOptions ReleaseWorkLease tick_campaign Tick insertFinding note_bounty crash_bonus submit_dig finalizeHuntSubmit
  ensureHuntReplayQueueRow enqueueHuntReplay reclaimStaleHuntReplayJobs take_job touchHuntReplayJob start_job finish_job retry_job
  close_job settle_job runHuntReplayJob processNextHuntReplayJob submit_engine submit_hunt_sync SubmitWithOutcome.

(** * Settlements outside a submit *)

Section ops.
Context (St : option Settler) `{!OptLaw St}.
#[local] Set Default Proof Using "Type*".

#[global] Instance paths_force_item cid item pass reason now : Paths (forceCompleteWorkItem St cid item pass reason now).
Proof.
  unfold forceCompleteWorkItem. cbv zeta. apply paths_bind.
  - apply paths_items. intros p w _ Ht. apply move_closed; [not_done|done].
  - intros aff. apply _.
Qed.
#[global] Instance paths_force_all reason now l : Paths (force_all St reason now l).
Proof. unfold force_all. apply _. Qed.
#[global] Instance paths_churn maxAtt now limit : Paths (ForceCompleteLeaseChurnItems St maxAtt now limit).
Proof. unfold ForceCompleteLeaseChurnItems. apply _. Qed.
#[global] Instance paths_stalled stale now limit : Paths (ForceCompleteStalledNearDoneCampaigns St stale now limit).
Proof.
  unfold ForceCompleteStalledNearDoneCampaigns. apply paths_bind; [apply _|]. intros p. apply paths_count. intros c.
  unfold force_leftovers. apply _.
Qed.

Lemma paths_note_payee cid item miner sev : Paths (update_items (λ w, is_item cid item w && st_in (find_status (w_pay w)) [FindNone])
  (on_pay (λ c, mkPay (if String.eqb (miner_address c) "" then miner else miner_address c) (run_status c) FindPending sev (run_outbox c) (find_outbox c)))).
Proof.
  apply paths_items. intros p w _ _. destruct (String.eqb_spec (miner_address (w_pay w)) "") as [E|Hne].
  - unfold on_pay. rewrite E. cbn. by apply (im_payee p w miner FindPending sev).
  - apply String.eqb_neq in Hne. unfold on_pay. rewrite Hne. by apply im_keep.
Qed.

#[global] Instance paths_bounties payout native req : Paths (flushDeferredBounties St payout native req).
Proof.
  destruct St as [S0|] eqn:E; [|apply paths_ret]. pose proof (OptLaw0 S0 eq_refl) as HS. unfold flushDeferredBounties.
  assert (OptLaw (Some S0)) as HO by (by intros S1 [= <-]).
  apply paths_bind; [apply _|]. intros p. apply paths_for. intros f. unfold bounty_of. apply paths_bind; [apply _|]. intros q.
  destruct (CampaignConfig _ q) as [cfg|]; [|apply _]. apply paths_if; [apply _|]. apply paths_if; [apply _|].
  set (pay := (if 0 <? f_item f then _ else _)).
  assert (Paths pay) as Hpay.
  { apply paths_if; [|apply _]. apply paths_bind; [apply paths_note_payee|]. intros _. apply _. }
  intros r Hr. specialize (Hpay r Hr). unfold after in *. destruct (pay r) as [[[]|e] r']; [done|]. by destruct (str_contains _ _).
Qed.
End ops.

(** The rows that are replayed were read before the first enqueue; their claims still hold. *)
Lemma legacy_payee w : String.eqb (legacy_miner (payee w)) "" = false → legacy_miner (payee w) = payee w.
Proof. unfold legacy_miner. by destruct (_ && _). Qed.
Lemma replay_kind_open r kind : replay_kind r = Some kind → run_open r = true ∧ kind = run_kind r.
Proof. by destruct r; intros [= <-]. Qed.

Lemma paths_replay_runs now cid l n p : (∀ w, w ∈ l → w_campaign w = cid ∧ ∃ w', w' ∈ items p ∧ later w w' ∧
    ∀ kind, replay_kind (w_run w) = Some kind → run_claim p w' kind) → paths_at (replay_runs now cid l n) p.
Proof.
  revert n p. induction l as [|w l IH]; intros n p Hl; [by apply paths_id_at|]. cbn [replay_runs].
  change (trim_space (miner_address (w_pay w))) with (payee w).
  assert (∀ x, x ∈ l → x ∈ w :: l) as Hsub by (intros; by apply list_elem_of_further).
  destruct (replay_kind (w_run w)) as [kind|] eqn:Hk; [|apply IH; auto].
  destruct (String.eqb (legacy_miner (payee w)) "") eqn:Hm; [apply IH; auto|]. apply legacy_payee in Hm. rewrite Hm.
  intros Hp. destruct (Hl w) as (<- & w' & Hw' & (E1 & E2 & E3) & Hcl); [apply list_elem_of_here|].
  assert (is_run_kind kind = true) as Hkind by (apply replay_kind_open in Hk as [_ ->]; apply run_kind_is).
  destruct (enqueue_run now p w' kind Hp Hw' (Hcl kind Hk) Hkind) as [Hpath (id & Hid & _)]. rewrite E1, E2, E3 in Hpath, Hid.
  apply paths_bind_at; [by intros _| |done]. intros id' _. apply IH. intros x Hx. destruct (Hl x (Hsub x Hx)) as (Ex & x' & Hx' & (F1 & F2 & F3) & Hclx).
  split; [done|]. destruct (replay_kind (w_run x)) as [k|] eqn:Hkx.
  - destruct (claim_path p _ x' k Hp Hpath Hx' (Hclx k eq_refl)) as (x'' & Hx'' & (G1 & G2 & G3) & Hc''). exists x''.
    split_and!; [done|split_and!; congruence|]. by intros ? [= <-].
  - assert (∃ x'', x'' ∈ items (after (EnqueueSettleOutbox now kind (w_campaign w) (payee w) "" (w_id w)) p) ∧ later x' x'') as (x'' & Hx'' & G1 & G2 & G3).
    { exists x'. split; [|done]. replace (items (after _ p)) with (items p); [done|]. unfold EnqueueSettleOutbox, enqueue_row, after.
      destruct (_ || _); [done|]. by destruct (List.find _ _). }
    exists x''. split_and!; [done|split_and!; congruence|done].
Qed.

#[global] Instance paths_replay_settles payout native req now cid : Paths (ReplayCampaignSettles payout native req now cid).
Proof.
  unfold ReplayCampaignSettles. apply paths_if; [apply _|]. apply paths_get_at. intros p.
  destruct (List.filter _ (items p)) as [|w0 l0] eqn:Hrows; [by apply paths_id_at|]. rewrite <- Hrows. clear Hrows.
  apply paths_bind_at.
  - apply paths_replay_runs. intros w Hw%list_elem_of_In. apply filter_In in Hw as [Hw%list_elem_of_In [Hc%String.eqb_eq _]%andb_true_iff].
    split; [done|]. exists w. split_and!; [done|done|]. intros kind Hk. left. by apply replay_kind_open.
  - intros runs _. apply paths_bind; [apply _|]. intros c. apply paths_bind; [apply _|]. intros q.
    apply paths_bind; [|intros n; apply paths_bind; [by apply paths_enqueue|apply _]].
    destruct (List.find _ _); [|apply _]. apply paths_bind; [by apply paths_enqueue|apply _].
Qed.

(** * Claims *)

#[global] Instance paths_note_lease cid item owner seeds edges crashes engine version :
  Paths (noteLeaseProvenPersist cid item owner seeds edges crashes engine version).
Proof.
  unfold noteLeaseProvenPersist, note_proven. apply paths_if; [apply _|]. apply paths_bind; [by apply paths_items; intros p w _ _; apply im_keep|].
  intros aff. apply paths_if; [apply _|]. apply paths_bind; [apply _|]. intros p. destruct (get_item cid item p); apply _.
Qed.
#[global] Instance paths_take_lease cid item : Paths (takeLeaseProvenPersist cid item).
Proof. unfold takeLeaseProvenPersist. apply _. Qed.
#[global] Instance paths_stamp cid item owner pr engine version : Paths (stampHuntProvenOnSubmit cid item owner pr engine version).
Proof. unfold stampHuntProvenOnSubmit. apply paths_if; [apply _|]. apply paths_bind; [by apply paths_items; intros p w _ _; apply im_keep|apply _]. Qed.

#[global] Instance paths_build e now cid item n cfg worker : Paths (buildClaimedWork e now cid item n cfg worker).
Proof.
  unfold buildClaimedWork, store_built. apply paths_bind; [apply _|]. intros b. apply paths_bind; [|intros; apply _].
  apply paths_bind; [|intros _]; (apply paths_if; [|apply _]; apply paths_bind; [|apply _]; apply paths_items; intros p w _ _; by apply im_keep).
Qed.

Lemma paths_lease test worker until now : (∀ w, test w = true → w_status w ≠ WDone) → Paths (update_items test (fresh_lease worker until now)).
Proof. intros Ht. apply paths_items. intros p w _ H%Ht. by apply im_keep; [done|done|intros E|intros E]. Qed.

#[global] Instance paths_lease_oldest worker cid until now : Paths (lease_oldest worker cid until now).
Proof.
  unfold lease_oldest. apply paths_bind; [apply _|]. intros p. destruct (List.find _ _) as [o|]; [|apply _].
  apply paths_lease. unfold pending_item. not_done.
Qed.

#[global] Instance paths_claim_one e worker cid now : Paths (claimOnePendingInCampaign e worker cid now).
Proof.
  unfold claimOnePendingInCampaign. apply paths_bind; [apply _|]. intros p. destruct (get_campaign cid p) as [c|]; [|apply _].
  apply paths_if; [apply _|]. apply paths_bind; [apply _|]. intros aff. apply paths_if; [apply _|]. apply paths_bind; [apply _|]. intros q.
  destruct (latest _) as [w|]; [|apply _]. apply paths_bind; [apply _|]. intros _ r Hr.
  pose proof (paths (m := buildClaimedWork e now cid (w_id w) (input_n w) (c_cfg c) worker) r Hr) as Hb. unfold after in *.
  destruct (buildClaimedWork _ _ _ _ _ _ _ r) as [[work|err] r']; [done|]. cbn in *. etrans; [exact Hb|].
  apply (paths_queue (λ v, is_item cid (w_id w) v && leased_by worker v) (release_cols now)); [not_done|done|by eapply path_reach].
Qed.
#[global] Instance paths_claim_first e worker now ids : Paths (claim_first e worker now ids).
Proof. induction ids as [|cid ids IH]; cbn; [apply _|]. apply paths_bind; [apply _|]. intros [w|]; apply _. Qed.
#[global] Instance paths_runnable nowms : Paths (runnablePoolCampaignIDsByTier nowms).
Proof. unfold runnablePoolCampaignIDsByTier. apply paths_bind; [apply _|]. intros p. destruct (sched p) as [[[t cs] rs]|]; apply _. Qed.
#[global] Instance paths_take_expired e worker now l : Paths (take_expired e worker now l).
Proof.
  induction l as [|x l IH]; cbn [take_expired]; [apply _|]. apply paths_bind; [apply _|]. intros p. destruct (get_campaign _ p) as [c|]; [|apply _].
  apply paths_if; [apply _|]. apply paths_bind; [apply _|]. intros _. apply paths_bind; [apply paths_lease; not_done|]. intros aff. apply _.
Qed.
Lemma paths_or_else {A} (m k : pool_act (option A)) : Paths m → Paths k → Paths (or_else m k).
Proof. intros Hm Hk. apply paths_bind; [done|]. intros [w|]; apply _. Qed.
#[global] Instance paths_claim_rest e worker now rest : Paths (claim_rest e worker now rest).
Proof.
  unfold claim_rest, noteEmptyClaim. destruct rest; [apply _|]. apply paths_bind; [apply _|]. intros _. apply paths_bind; [apply _|]. intros p.
  apply paths_bind; [apply _|]. intros [w|]; apply _.
Qed.
#[global] Instance paths_claim e worker now : Paths (ClaimWithOptions e worker now).
Proof.
  unfold ClaimWithOptions, near_phase. apply paths_if; [apply _|]. apply paths_bind; [apply _|]. intros p. apply paths_if; [apply _|].
  apply paths_bind; [apply _|]. intros ids. apply paths_bind; [apply _|]. intros q.
  apply paths_or_else; [apply _|]. apply paths_or_else; [|].
  { apply paths_bind; [apply _|]. intros r. apply _. }
  apply paths_bind; [apply _|]. intros r. apply paths_or_else; apply _.
Qed.
#[global] Instance paths_release now cid item worker : Paths (ReleaseWorkLease now cid item worker).
Proof.
  unfold ReleaseWorkLease. apply paths_if; [apply _|]. apply paths_bind; [|intros; apply _]. apply paths_items. intros p w _ H.
  assert (w_status w ≠ WDone) as Hn by not_done. by apply im_keep; [done|done|intros E|intros E].
Qed.

(** * The sweep *)

Lemma paths_tick t now : OptLaw (tick_settler t) → Paths (Tick t now).
Proof.
  intros Ht. unfold Tick, tick_campaign. repeat (apply paths_bind; [apply _|intros ?]).
  destruct (List.filter _ _); [apply _|]. apply paths_bind; [apply _|]. intros batch. apply paths_bind; [|intros; apply _].
  apply paths_for. intros id. apply _.
Qed.

(** * Submits *)

#[global] Instance paths_insert_finding E req cfg now : Paths (insertFinding E req cfg now).
Proof. unfold insertFinding. destruct (classify E cfg req). apply _. Qed.
#[global] Instance paths_note_bounty E cfg req record fid sev : Paths (note_bounty E cfg req record fid sev).
Proof. unfold note_bounty. apply paths_if; [|apply _]. apply paths_bind; [by apply paths_items; intros p w _ _; apply im_keep|apply _]. Qed.
Lemma paths_crash_bonus St req record ft : SettlerLaw St → Paths (crash_bonus St req record ft).
Proof.
  intros HS. unfold crash_bonus. apply paths_if; [|apply _]. intros p Hp.
  pose proof (law_bonus (CampaignID req) (trim_space (MinerAddress req)) 0 0 p Hp) as Hm. unfold after in *.
  destruct (PayCrashBonus _ _ _ _ _ p) as [[r|e] q]; [done|]. by destruct (existsb _ _).
Qed.

(** Completion and payee in one statement; an intent is stamped only for a payee. *)
Lemma paths_complete test miner run ok dur err now : (∀ w, test w = true → w_status w ≠ WDone) →
  (run = RunNone ∨ st_in run [RunPending; RunPendingFloor] = true ∧ trim_space miner ≠ EmptyString) →
  Paths (update_items test (λ w, on_pay (bind_run miner run) (on_queue (done_cols ok dur err now) w))).
Proof.
  intros Ht Hrun. apply paths_items. intros p w _ H. apply im_done; [done|by apply Ht|done|done|]. unfold w_run, payee. cbn.
  destruct Hrun as [-> |[Hs Hm]]; [by left|right]. by destruct run.
Qed.

Definition stamped (pays : bool) (run : RunSt) : Prop := run = RunNone ∨ pays = true ∧ st_in run [RunPending; RunPendingFloor] = true.

Lemma stamped_payee (St : option Settler) esc miner run : stamped (match St with Some _ => esc && negb (String.eqb miner "") | None => false end) run →
  trim_space miner = miner → run = RunNone ∨ st_in run [RunPending; RunPendingFloor] = true ∧ trim_space miner ≠ EmptyString.
Proof.
  intros [?|[Hp Hs]] Ht; [by left|right]. split; [done|]. rewrite Ht. destruct St; [|done].
  apply andb_true_iff in Hp as [_ Hn%negb_true_iff%String.eqb_neq]. done.
Qed.
Lemma bind_trim (b : bool) m : trim_space (if b then trim_space m else EmptyString) = (if b then trim_space m else EmptyString).
Proof. destruct b; [apply trim_space_idem|done]. Qed.

Section submit.
Context (E : SubmitEnv) `{!OptLaw (s_settler E)}.
#[local] Set Default Proof Using "Type*".

#[global] Instance paths_dig cfg req v status now : Paths (submit_dig E cfg req v status now).
Proof.
  unfold submit_dig. apply paths_bind; [apply _|]. intros p. cbv zeta. apply paths_if; [apply _|]. apply paths_bind.
  - apply paths_complete; [not_done|]. apply (stamped_payee (s_settler E) (escrowEnabled cfg)); [|apply bind_trim].
    destruct (match s_settler E with Some _ => _ | None => false end) eqn:Hpays; cbn; [|by left]. 
    destruct (_ && campaignAcceptsSettle _ _); [right|left]; done.
  - intros aff. apply paths_if.
    + apply paths_bind; [apply _|]. intros q. destruct (get_item _ _ q) as [w|]; [|apply _]. destruct (w_status w); apply _.
    + apply paths_bind; [apply _|]. intros [[fid sev] ft]. apply paths_bind; [|intros; apply _]. 
      destruct (s_settler E) as [S0|] eqn:HS; [|apply _]. apply paths_if; [|apply _]. 
      apply paths_bind; [apply _|]. intros _. apply paths_bind; [apply _|]. intros _. apply paths_crash_bonus. by apply OptLaw0.
Qed.

#[global] Instance paths_finalize_hunt P now : Paths (finalizeHuntSubmit E P now).
Proof.
  unfold finalizeHuntSubmit. apply paths_bind; [apply _|]. intros p. cbv zeta. apply paths_bind; [apply _|]. intros [[fid sev] ft]. apply paths_bind.
  - apply paths_complete; [|].
    + intros w [_ H]%andb_true_iff. destruct (fp_from_replay P); not_done.
    + apply (stamped_payee (s_settler E) (escrowEnabled (fp_cfg P))); [|apply bind_trim].
      destruct (match s_settler E with Some _ => _ | None => false end) eqn:Hpays; cbn; [|by left].
      match goal with |- stamped _ (if ?b then run_stamp ?f else _) => destruct b, f; (by left) || (by right) end.
  - intros aff. apply paths_if.
    + apply paths_bind; [apply _|]. intros q. destruct (w_status <$> get_item _ _ q) as [[]|]; try apply _.
      destruct (s_settler E) as [S0|] eqn:HS; [|apply _]. apply _.
    + apply paths_bind; [|intros; apply _]. destruct (s_settler E) as [S0|] eqn:HS; [|apply _]. apply paths_if; [|apply _].
      apply paths_bind; [apply _|]. intros _. apply paths_bind; [apply _|]. intros _. apply paths_crash_bonus. by apply OptLaw0.
Qed.

#[global] Instance paths_ensure_row req n miner now : Paths (ensureHuntReplayQueueRow req n miner now).
Proof. apply paths_rest. intros p Hp. unfold after, ensureHuntReplayQueueRow. destruct (get_job _ _ p); (split; [done|apply Hp]). Qed.
#[global] Instance paths_enqueue_replay req n now : Paths (enqueueHuntReplay req n now).
Proof.
  intros p Hp. unfold enqueueHuntReplay. cbv zeta.
  match goal with |- path p (after (λ q, match ?b q with _ => _ end) p) => set (body := b); assert (Paths body) as Hb end.
  { unfold body. apply paths_bind; [apply paths_queue; [not_done|done]|]. intros aff. apply paths_if; [|apply _].
    apply paths_bind; [apply _|]. intros q. destruct (w_status <$> get_item _ _ q) as [[]|]; apply _. }
  specialize (Hb p Hp). unfold after in *. by destruct (body p) as [[o|e] q].
Qed.

#[global] Instance paths_start j now : Paths (start_job E j now).
Proof.
  unfold start_job, touchHuntReplayJob. apply paths_bind; [apply _|]. intros _. apply paths_bind; [apply _|]. intros c. apply paths_if.
  - apply paths_bind; [apply paths_queue; [not_done|done]|apply _].
  - apply paths_if; [apply _|]. apply paths_bind; [apply _|]. intros q. destruct (get_item _ _ q) as [w|]; [|apply _].
    apply paths_bind; [apply _|]. intros [u b]. apply _.
Qed.
#[global] Instance paths_finish j verifier cfg req verdict now : Paths (finish_job E j verifier cfg req verdict now).
Proof.
  unfold finish_job. apply paths_bind; [apply _|]. intros v. apply paths_bind; [apply _|]. intros q. apply paths_if; [apply _|].
  destruct (floor_gate cfg (h_record v)). apply _.
Qed.
#[global] Instance paths_settle_job j outcome now : Paths (settle_job j outcome now).
Proof.
  unfold settle_job, retry_job, close_job. destruct outcome as [[]|err]; [apply _|]. apply paths_bind; [apply _|]. intros q. apply paths_if; [apply _|].
  assert (∀ k : pool_act bool, Paths k → Paths (update_items (λ w, is_item (rr_campaign j) (rr_item j) w && status_in [WReplay] w)
    (on_queue (λ c, mkQueue WDone (attempts c) err (lease_owner c) (lease_until c) false (duration_ms c) now)) ;!; k)) as Hclose.
  { intros k Hk. apply paths_bind; [|by intros]. apply paths_items. intros p w _ H. apply move_closed; [not_done|done]. }
  destruct (w_status <$> get_item _ _ q) as [[]|]; try apply _; (apply paths_bind; [apply _|]; intros _; apply Hclose; apply _).
Qed.
#[global] Instance paths_run_job j verifier now : Paths (runHuntReplayJob E j verifier now).
Proof. unfold runHuntReplayJob. apply paths_bind; [apply _|]. intros [[cfg req] b]. apply _. Qed.
#[global] Instance paths_next_job verifier reclaim now : Paths (processNextHuntReplayJob E verifier reclaim now).
Proof.
  unfold processNextHuntReplayJob, reclaimStaleHuntReplayJobs, take_job. apply paths_bind; [apply _|]. intros _. apply paths_bind.
  { apply paths_bind; [apply _|]. intros q. destruct (next_job q); apply _. }
  intros [j|]; [|apply _]. intros p Hp. pose proof (paths_run_job j verifier now p Hp) as Hrun. unfold after in *.
  destruct (runHuntReplayJob E j verifier now p) as [r q]. cbn in *. etrans; [exact Hrun|]. apply paths_settle_job. by eapply path_reach.
Qed.

#[global] Instance paths_engine cfg req w n u b now : Paths (submit_engine E cfg req w n u b now).
Proof.
  unfold submit_engine. apply paths_bind; [apply _|]. intros wall. apply paths_bind; [apply _|]. intros _. apply paths_bind; [apply _|]. intros q.
  apply paths_bind; [apply _|]. intros v. cbv zeta. apply paths_bind; [apply _|]. intros pr. apply paths_bind; [apply _|]. intros _.
  destruct (DecideHuntEnginePayForConfig _ _ _ _ _ _) as [k full]. apply _.
Qed.
#[global] Instance paths_sync cfg req w n u b now : Paths (submit_hunt_sync E cfg req w n u b now).
Proof.
  unfold submit_hunt_sync. apply paths_bind; [apply _|]. intros v. cbv zeta. apply paths_bind; [apply _|]. intros _.
  destruct (floor_gate cfg (h_record v)). apply _.
Qed.
#[global] Instance paths_submit `{Crypto} req now : Paths (SubmitWithOutcome E req now).
Proof.
  unfold SubmitWithOutcome. apply paths_bind; [apply _|]. intros p. cbv zeta. destruct (get_item _ _ p) as [w|]; [|apply _].
  apply paths_bind; [apply _|]. intros [u b]. apply paths_bind; [apply _|]. intros _. apply paths_if.
  - apply paths_if; [apply _|]. apply paths_if; apply _.
  - apply paths_bind; [apply _|]. intros [v status]. apply _.
Qed.
End submit.

(** * Histories *)

(** One operation with its inputs, its clock reading and the answers of everything outside. *)
Inductive PoolOp :=
  | OpRegister (normalize : Cfg → string → Cfg) (defaults : Cfg → Cfg) (now : Z) (c : Campaign)
  | OpSetStatus (now : Z) (id status : string)
  | OpEnsure (id : string) (now : Z)
  | OpClaim (e : ClaimEnv) (worker : string) (now : Z)
  | OpNote (cid : string) (item : Z) (owner : string) (seeds edges crashes : Z) (engine version : string)
  | OpRelease (now : Z) (cid : string) (item : Z) (worker : string)
  | OpSubmit (E : SubmitEnv) (r : option Relay) (req : SubmitRequest) (now : Z)
  | OpReplay (E : SubmitEnv) (r : option Relay) (verifier : string) (reclaim : bool) (now : Z)
  | OpTick (t : TickEnv) (r : option Relay) (now : Z)
  | OpCancelGates (now limit : Z)
  | OpAck (now : Z) (ids : list Z)
  | OpAckPublish (now : Z) (cid : string) (ids : list Z)
  | OpDrain (r : Relay) (now limit : Z)
  | OpReplaySettles (payout : string → string) (native : Finding → bool) (req : Cfg → bool) (now : Z) (cid : string).

Definition settler_of (r : option Relay) (now : Z) : option Settler := (λ x, RelaySettler x now) <$> r.
Definition env_with (St : option Settler) (E : SubmitEnv) : SubmitEnv := mkSubmitEnv (s_env E) (s_runs E) St (classify E) (bounty_native E).
Definition tick_with (St : option Settler) (t : TickEnv) : TickEnv :=
  mkTickEnv St (churn_max t) (stalled_sec t) (tick_harness t) (tick_payout t) (tick_native t) (tick_requires_native t).

(** The state an operation leaves behind, whatever it answers. *)
Definition run_op `{Crypto} (o : PoolOp) : Pool → Pool :=
  match o with
  | OpRegister normalize defaults now c => after (RegisterCampaign normalize defaults now c)
  | OpSetStatus now id status => after (SetCampaignStatus now id status)
  | OpEnsure id now => after (EnsureWorkItems id now)
  | OpClaim e worker now => after (ClaimWithOptions e worker now)
  | OpNote cid item owner seeds edges crashes engine version => after (noteLeaseProvenPersist cid item owner seeds edges crashes engine version)
  | OpRelease now cid item worker => after (ReleaseWorkLease now cid item worker)
  | OpSubmit E r req now => after (SubmitWithOutcome (env_with (settler_of r now) E) req now)
  | OpReplay E r verifier reclaim now => after (processNextHuntReplayJob (env_with (settler_of r now) E) verifier reclaim now)
  | OpTick t r now => after (Tick (tick_with (settler_of r now) t) now)
  | OpCancelGates now limit => after (CancelInternalGateCampaigns now limit)
  | OpAck now ids => after (AckSettleOutbox now ids)
  | OpAckPublish now cid ids => after (AckSettleOutboxForOrdersPublish now cid ids)
  | OpDrain r now limit => after (DrainPendingSettleHTTP r now limit)
  | OpReplaySettles payout native req now cid => after (ReplayCampaignSettles payout native req now cid)
  end.
Definition run_ops `{Crypto} (os : list PoolOp) (p : Pool) : Pool := foldl (λ q o, run_op o q) p os.

#[global] Instance opt_law_of r now : OptLaw (settler_of r now).
Proof. destruct r; apply _. Qed.

Lemma op_path `{Crypto} o p : pool_reach p → path p (run_op o p).
Proof.
  destruct o; cbn [run_op]; try exact (paths p).
  apply (paths (Paths := paths_tick (tick_with _ _) now _)).
Qed.
Lemma ops_path `{Crypto} os p : pool_reach p → path p (run_ops os p).
Proof.
  revert p. induction os as [|o os IH]; intros p Hp; [done|]. cbn. etrans; [by apply op_path|]. apply IH.
  by eapply path_reach, op_path.
Qed.
Lemma ops_reach `{Crypto} os : pool_reach (run_ops os empty_pool).
Proof. eapply path_reach, ops_path; apply pr_init. Qed.
