(* ===== verification/PoolToy.v ===== *)
(** A small pool, run: the concrete histories the properties of the pool are applied to. *)
From S2P Require Import Prelude Float64 PoolCfg GoText GoNum Json Address PoolBase PoolOutbox PoolQueue PoolVerify PoolClaim PoolSubmit PoolFair PoolSteps PoolPaths PoolOps.

#[local] Existing Instance toy_crypto.

(** A WASM check that passes on every input, and a harness that never crashes. *)
Definition toy_runs : Runs :=
  mkRuns (λ _, 1) 64 (λ _, 1) (λ _, 64) (λ _, false) (λ _, false) (λ _ _, (0, EmptyString)) (λ _ _ _, (0, EmptyString)) (λ b _, b)
    (λ _, true) (λ _ _ _, (1, None)) (λ _ _ _, mkSegment 0 "" true false 0 "" 1 1)
    (λ _ _ _ _, Ok (mkReport false false "" "" 0)) (λ _ _ _, Ok (false, EmptyString)) (λ _ _, 15) false.
Definition toy_env : SubmitEnv := mkSubmitEnv (λ _, EmptyString) toy_runs None (λ _ _, ("crash", "high")%string) (λ _ _, true).

Definition toy_cfg : Cfg := list_to_map [("budget_hmc", JF (f_of_Z 5)); ("wasm_check_hex", JS "00")]%string.
Definition toy_dig : Campaign := mkCampaign "dig-1" "dig" "" "a campaign" "" "customer:1" 10 100 toy_cfg 0 0 0 0.
Definition toy_register : PoolOp := OpRegister (λ c _, c) (λ c, c) 1000 toy_dig.
Definition toy_claim_env : ClaimEnv := mkClaimEnv false (λ _, true) (λ _, 60) (λ _ _ _ _ _, Ok (mkBuilt 0 "" false false)) 1000000 0.
Definition toy_claim (worker : string) (now : Z) : PoolOp := OpClaim toy_claim_env worker now.
Definition toy_relay (ok : OutItem → bool) : Relay := mkRelay false "https://origin.example" false "token" ok.
Definition toy_req (worker : string) (item : Z) : SubmitRequest :=
  mkSubmit worker ("HMC-" +:+ worker) "dig-1" item 0 0 "" 0 5 "" 0 0 false "" "".
Definition toy_submit (r : option Relay) (worker : string) (item now : Z) : PoolOp := OpSubmit toy_env r (toy_req worker item) now.

Definition toy_history : list PoolOp :=
  [toy_register; toy_claim "a" 1001; toy_claim "b" 1002; toy_submit (Some (toy_relay (λ _, true))) "a" 1 1150;
   toy_submit (Some (toy_relay (λ _, false))) "b" 2 1151].
Definition toy_pool (n : nat) : Pool := run_ops (take n toy_history) empty_pool.

Lemma toy_pool_S n o : toy_history !! n = Some o → toy_pool (S n) = run_op o (toy_pool n).
Proof. intros H. unfold toy_pool, run_ops. by rewrite (take_S_r _ _ o H), foldl_app. Qed.
Lemma toy_pool_reach n : pool_reach (toy_pool n).
Proof. apply ops_reach. Qed.
Lemma toy_path n o : toy_history !! n = Some o → path (toy_pool n) (toy_pool (S n)).
Proof. intros H. rewrite (toy_pool_S n o H). apply op_path, toy_pool_reach. Qed.

(** Members by position. *)
Lemma nth_mem {A} (l : list A) n d : Nat.ltb n (length l) = true → nth n l d ∈ l.
Proof. intros H%Nat.ltb_lt. by apply list_elem_of_In, nth_In. Qed.

Definition no_item : WorkItem := fresh_item 0 "" 0 0.
Definition no_row : OutItem := mkOut 0 "" "" "" "" ObPending 0 0 0.

(** A worker's older lease, and a reclaimed item. *)
Definition toy_tick (now : Z) : PoolOp := OpTick (mkTickEnv None 8 1800 (λ _, true) (λ _, EmptyString) (λ _, false) (λ _, false)) None now.
Definition toy_reclaim : list PoolOp := [toy_register; toy_claim "a" 1001; toy_claim "b" 1062; toy_tick 1062].

(** A Hunt campaign whose first shard two verifiers replay, the second after the first one's job was reclaimed. *)
Definition toy_hunt : Campaign :=
  mkCampaign "hunt-1" "hunt" "" "a hunt" "" "customer:1" 10 0
    (list_to_map [("work_kind", JS "hunt_shard"); ("harness_hash", JS "aa"); ("upstream_target_id", JS "t"); ("budget_hmc", JF (f_of_Z 5))]%string) 0 0 0 0.
Definition toy_job_req : SubmitRequest := mkSubmit "a" "HMC-a" "hunt-1" 1 0 0 "" 0 5 "" 1 0 false "" "".
Definition toy_hunt_ops : list PoolOp :=
  [OpRegister (λ c _, c) (λ c, c) 1000 toy_hunt; toy_claim "a" 1001; OpSubmit toy_env None toy_job_req 1010].
(** [verifier] has taken the next job and replays it. *)
Definition toy_taken (verifier : string) (now : Z) (p : Pool) : Pool := after (take_job verifier now) p.
Definition toy_replaying : Pool := toy_taken "v2" 2000 (after (reclaimStaleHuntReplayJobs 2000) (toy_taken "v1" 1020 (run_ops toy_hunt_ops empty_pool))).

(** A finding of item 1 on an input whose middle bits read 2, bounty due once its native run is confirmed; the sweep then
    settles it. *)
Definition toy_find_runs : Runs :=
  mkRuns (λ _, 1) 64 (λ _, 1) (λ _, 64) (λ _, false) (λ _, false) (λ n _, ((if n =? 1 then 512 else 0), EmptyString)) (λ _ _ _, (0, EmptyString)) (λ b _, b)
    (λ _, true) (λ _ u _, ((if u =? 512 then 0 else 1), None)) (λ _ _ _, mkSegment 0 "" true false 0 "" 1 1)
    (λ _ _ _ _, Ok (mkReport false false "" "" 0)) (λ _ _ _, Ok (false, EmptyString)) (λ _ _, 15) false.
Definition toy_find_env : SubmitEnv := mkSubmitEnv (λ _, EmptyString) toy_find_runs None (λ _ _, ("overflow", "high")%string) (λ _ _, false).
Definition toy_find_req (worker : string) (item u : Z) : SubmitRequest :=
  mkSubmit worker ("HMC-000000000000000" +:+ worker) "dig-1" item 0 u "" 0 5 "" 0 0 false "" "".
Definition toy_bounty_tick (now : Z) : PoolOp :=
  OpTick (mkTickEnv None 8 1800 (λ _, true) (λ _, EmptyString) (λ _, true) (λ _, true)) (Some (toy_relay (λ _, true))) now.
Definition toy_bounty_ops : list PoolOp :=
  [toy_register; toy_claim "a" 1001; toy_claim "b" 1002; OpSubmit toy_find_env (Some (toy_relay (λ _, true))) (toy_find_req "a" 1 512) 1010;
   OpSubmit toy_find_env (Some (toy_relay (λ _, true))) (toy_find_req "b" 2 0) 1011; toy_bounty_tick 1020].
