(* ===== verification/PoolDrain.v ===== *)
(** The loop over the verification queue ends (internal/poolfuzz/hunt_replay_async.go:
    DrainHuntReplayQueue, and the inner loop of huntReplayWorkerLoop).

    [KeepsJobs m]: [m] adds no verification job and changes no job's status.  Every operation a job
    runs has this property; a job that was worked off is closed, so the number of open jobs falls
    with every pass that asks for another one. *)
From S2P Require Import Prelude PoolCfg GoText GoNum Json Address PoolBase PoolOutbox PoolQueue PoolVerify PoolClaim PoolSubmit PoolFair PoolSteps PoolPaths PoolOps PoolToy.

Definition jobs (p : Pool) : list (Z * ReplaySt) := map (λ r, (rr_id r, rr_status r)) (replays p).
Definition job_open (x : Z * ReplaySt) : bool := st_in x.2 [RPending; RProcessing].
Definition open_jobs (p : Pool) : nat := length (List.filter job_open (jobs p)).

Class KeepsJobs {A} (m : pool_act A) : Prop := keeps_jobs p : jobs (after m p) = jobs p.

#[global] Instance kj_ret {A} (a : A) : KeepsJobs (aret a).
Proof. done. Qed.
#[global] Instance kj_fail {A} e : KeepsJobs (afail (A := A) e).
Proof. done. Qed.
#[global] Instance kj_lift {A} (r : result A) : KeepsJobs (alift r).
Proof. done. Qed.
#[global] Instance kj_get : KeepsJobs (A := Pool) aget.
Proof. done. Qed.
#[global] Instance kj_bind {A B} (m : pool_act A) (f : A → pool_act B) : KeepsJobs m → (∀ a, KeepsJobs (f a)) → KeepsJobs (abind m f).
Proof.
  intros Hm Hf p. specialize (Hm p). unfold after, abind in *. destruct (m p) as [[a|e] q]; cbn in *; [|done]. rewrite <- Hm. apply Hf.
Qed.
#[global] Instance kj_wrap {A} pre (m : pool_act A) : KeepsJobs m → KeepsJobs (awrap pre m).
Proof. intros Hm p. specialize (Hm p). unfold after, awrap in *. by destruct (m p) as [[a|e] q]. Qed.
#[global] Instance kj_if {A} (b : bool) (m k : pool_act A) : KeepsJobs m → KeepsJobs k → KeepsJobs (if b then m else k).
Proof. by destruct b. Qed.
#[global] Instance kj_count {A} (f : A → pool_act Z) n l : (∀ x, KeepsJobs (f x)) → KeepsJobs (acount f n l).
Proof. intros Hf. revert n. induction l; cbn; intros n; apply _. Qed.
#[global] Instance kj_items test f : KeepsJobs (update_items test f).
Proof. done. Qed.
#[global] Instance kj_campaigns test f : KeepsJobs (update_campaigns test f).
Proof. done. Qed.
#[global] Instance kj_outbox test f : KeepsJobs (update_outbox test f).
Proof. done. Qed.
#[global] Instance kj_findings f : KeepsJobs (amod (set_findings f)).
Proof. done. Qed.
#[global] Instance kj_touch id now : KeepsJobs (touchHuntReplayJob id now).
Proof.
  intros p. unfold touchHuntReplayJob, jobs. cbn. unfold upd. rewrite map_map. apply map_ext. intros r. unfold job_row.
  destruct (_ && _) eqn:E; [|done]. apply andb_true_iff in E as [_ E]. cbn. by destruct (rr_status r).
Qed.

(** * Settlement *)

#[global] Instance kj_enqueue now kind cid miner sev item : KeepsJobs (EnqueueSettleOutbox now kind cid miner sev item).
Proof. intros p. unfold EnqueueSettleOutbox, enqueue_row, after. destruct (_ || _); [done|]. by destruct (List.find _ _). Qed.
#[global] Instance kj_ack now ids : KeepsJobs (AckSettleOutbox now ids).
Proof.
  unfold AckSettleOutbox, ackSettleOutbox. apply kj_count. intros id. unfold ack_one, promote_ids. apply kj_if; [apply _|].
  apply kj_bind; [apply _|]. intros aff. apply kj_bind; [apply _|]. intros q. destruct (get_out id q); apply _.
Qed.
#[global] Instance kj_relay r now kind cid miner sev item ob : KeepsJobs (relay r now kind cid miner sev item ob).
Proof.
  unfold relay, httpRelayOnce. apply kj_bind; [apply _|]. intros p. destruct (if 0 <? ob then _ else _) as [[]|]; try apply _;
    (apply kj_bind; [apply _|]; intros id; apply kj_if; [apply _|]; apply kj_bind; [apply _|]; intros q; destruct (resolveSettleBase r cid q); apply _).
Qed.

Class JobLaw (St : Settler) : Prop := {
  jl_run c m i o :: KeepsJobs (PayRun St c m i o);
  jl_floor c m i o :: KeepsJobs (PayRunFloor St c m i o);
  jl_finding c m s i o :: KeepsJobs (PayFinding St c m s i o);
  jl_bonus c m i o :: KeepsJobs (PayCrashBonus St c m i o);
  jl_finalize c o :: KeepsJobs (Finalize St c o);
}.
#[global] Instance relay_job_law r now : JobLaw (RelaySettler r now).
Proof. split; cbn; apply _. Qed.
Class OptJobLaw (St : option Settler) : Prop := opt_job_law S0 : St = Some S0 → JobLaw S0.
#[global] Instance opt_job_law_of r now : OptJobLaw (settler_of r now).
Proof. intros S0. destruct r; cbn; [intros [= <-]; apply _|done]. Qed.

Section ops.
Context (St : option Settler) `{!OptJobLaw St}.
#[local] Set Default Proof Using "Type*".

#[global] Instance kj_flush cid item cfg : KeepsJobs (flushPendingSettles St cid item cfg).
Proof.
  destruct St as [S0|] eqn:E; [|apply kj_ret]. pose proof (OptJobLaw0 S0 eq_refl) as HS. unfold flushPendingSettles.
  apply kj_if; [apply _|]. apply kj_bind; [apply _|]. intros p. destruct (get_item cid item p) as [w|]; [|apply _].
  cbv zeta. apply kj_if; [apply _|]. unfold flush_run, flush_find. apply kj_bind; [|intros _]; (apply kj_if; [apply _|]); cbv zeta.
  - apply kj_bind; [apply kj_wrap; destruct (is_floor _); apply _|]. intros res. apply _.
  - apply kj_if; [|apply _]. apply kj_bind; [apply _|]. intros res. apply _.
Qed.
#[global] Instance kj_finalize cid : KeepsJobs (tryFinalizeEscrow St cid).
Proof.
  destruct St as [S0|] eqn:E; [|apply kj_ret]. pose proof (OptJobLaw0 S0 eq_refl) as HS. unfold tryFinalizeEscrow.
  apply kj_if; [apply _|]. apply kj_bind; [unfold PromoteAppliedSettleIntents; apply _|]. intros _. apply _.
Qed.
#[global] Instance kj_campaign cid : KeepsJobs (the_campaign cid).
Proof. unfold the_campaign. apply kj_bind; [apply _|]. intros p. destruct (get_campaign cid p); apply _. Qed.
#[global] Instance kj_after_work cid cfg now : KeepsJobs (after_work St cid cfg now).
Proof. unfold after_work, recomputeProgress. apply kj_bind; [apply _|]. intros done. apply _. Qed.
End ops.

Section job.
Context (E : SubmitEnv) `{!OptJobLaw (s_settler E)}.
#[local] Set Default Proof Using "Type*".

#[global] Instance kj_insert_finding req cfg now : KeepsJobs (insertFinding E req cfg now).
Proof. unfold insertFinding. destruct (classify E cfg req). apply _. Qed.
Lemma kj_crash_bonus S0 req record ft : JobLaw S0 → KeepsJobs (crash_bonus S0 req record ft).
Proof.
  intros HS. unfold crash_bonus. apply kj_if; [|apply _]. intros p.
  pose proof (jl_bonus (CampaignID req) (trim_space (MinerAddress req)) 0 0 p) as Hm. unfold after in *.
  destruct (PayCrashBonus _ _ _ _ _ p) as [[r|e] q]; [done|]. by destruct (existsb _ _).
Qed.
#[global] Instance kj_hunt P now : KeepsJobs (finalizeHuntSubmit E P now).
Proof.
  unfold finalizeHuntSubmit. apply kj_bind; [apply _|]. intros p. cbv zeta. apply kj_bind; [apply _|]. intros [[fid sev] ft].
  apply kj_bind; [apply _|]. intros aff. apply kj_if.
  - apply kj_bind; [apply _|]. intros q. destruct (w_status <$> get_item _ _ q) as [[]|]; try apply _.
    destruct (s_settler E) as [S0|] eqn:HS; [|apply _]. apply _.
  - apply kj_bind; [|intros; apply _]. destruct (s_settler E) as [S0|] eqn:HS; [|apply _]. apply kj_if; [|apply _].
    apply kj_bind; [unfold note_bounty; apply _|]. intros _. apply kj_bind; [apply _|]. intros _. apply kj_crash_bonus. by apply OptJobLaw0.
Qed.
#[global] Instance kj_run_job j verifier now : KeepsJobs (runHuntReplayJob E j verifier now).
Proof.
  unfold runHuntReplayJob, start_job, finish_job. apply kj_bind.
  - apply kj_bind; [apply _|]. intros _. apply kj_bind; [apply _|]. intros c. apply kj_if; [apply _|]. apply kj_if; [apply _|].
    apply kj_bind; [apply _|]. intros q. destruct (get_item _ _ q) as [w|]; [|apply _]. apply kj_bind; [apply _|]. intros [u b]. apply _.
  - intros [[cfg req] b]. apply kj_bind; [apply _|]. intros v. apply kj_bind; [apply _|]. intros q. apply kj_if; [apply _|].
    destruct (floor_gate cfg (h_record v)). apply _.
Qed.

(** * Open jobs *)

Definition open1 (r : ReplayRow) : nat := if st_in (rr_status r) [RPending; RProcessing] then 1 else 0.
Lemma open_sum p : open_jobs p = sum_list_with open1 (replays p).
Proof.
  unfold open_jobs, jobs. induction (replays p) as [|r l IH]; [done|]. cbn [map List.filter sum_list_with]. rewrite <- IH.
  unfold open1, job_open at 1. cbn [snd]. by destruct (st_in (rr_status r) _).
Qed.
Lemma sum_upd test f l : (∀ r, test r = true → (open1 (f r) ≤ open1 r)%nat) → (sum_list_with open1 (upd test f l) ≤ sum_list_with open1 l)%nat.
Proof.
  intros Hf. unfold upd. induction l as [|r l IH]; [done|]. cbn. pose proof (Hf r) as Hr. destruct (test r); [specialize (Hr eq_refl)|]; lia.
Qed.

Lemma open_close j st err now p : st_in st [RPending; RProcessing] = false → (rr_id j, RProcessing) ∈ jobs p →
  (open_jobs (after (close_job j st err now) p) < open_jobs p)%nat.
Proof.
  intros Hst (r & [= Hid Hpr] & Hr)%list_elem_of_fmap. rewrite !open_sum. cbn. apply list_elem_of_split in Hr as (l1 & l2 & ->).
  set (f := on_job st (λ _, err) (λ v, v) now). set (test := λ r0, rr_id r0 =? rr_id j).
  assert (∀ x, open1 (f x) = 0%nat) as Hf by (intros x; unfold open1, f; cbn; by rewrite Hst).
  pose proof (sum_upd test f l1 ltac:(intros; rewrite Hf; lia)) as H1. pose proof (sum_upd test f l2 ltac:(intros; rewrite Hf; lia)) as H2.
  change (upd _ _ (l1 ++ r :: l2)) with (upd test f (l1 ++ r :: l2)). unfold upd in *. rewrite map_app, !sum_list_with_app. cbn.
  assert (test r = true) as -> by (unfold test; rewrite Hid; apply Z.eqb_refl). rewrite Hf.
  assert (open1 r = 1%nat) as -> by (unfold open1; by rewrite <- Hpr). lia.
Qed.

Lemma next_job_in p j : next_job p = Some j → j ∈ replays p ∧ rr_status j = RPending.
Proof.
  unfold next_job. set (l := List.filter _ _). assert (∀ l o, foldl (λ best r, match best with Some b => if rr_created r <? rr_created b then Some r else best | None => Some r end) o l = Some j →
    o = Some j ∨ j ∈ l) as H.
  { clear l. induction l as [|x l IH]; intros o E0; [by left|]. cbn in E0. apply IH in E0 as [E0|E0]; [|right; by right].
    destruct o as [b|]; [destruct (_ <? _)|]; first [by left|injection E0 as ->; right; left]. }
  intros [?|Hj%list_elem_of_In]%H; [done|]. apply filter_In in Hj as [Hj%list_elem_of_In Hs]. split; [done|]. by destruct (rr_status j).
Qed.

Lemma open_reclaim now p : (open_jobs (after (reclaimStaleHuntReplayJobs now) p) ≤ open_jobs p)%nat.
Proof.
  rewrite !open_sum. cbn. apply sum_upd. intros r Ht. apply andb_true_iff in Ht as [Ht _]. unfold open1. cbn. by destruct (rr_status r).
Qed.
Lemma open_take verifier now p : (open_jobs (after (take_job verifier now) p) ≤ open_jobs p)%nat ∧
  ∀ j, answer (take_job verifier now) p = Ok (Some j) → (rr_id j, RProcessing) ∈ jobs (after (take_job verifier now) p).
Proof.
  unfold take_job. rewrite (after_bind _ _ _ p), (answer_bind _ _ _ p) by done. change (after aget p) with p.
  destruct (next_job p) as [j|] eqn:Hj; [|split; [done|done]]. apply next_job_in in Hj as [Hj Hs]. split.
  - rewrite !open_sum. cbn. apply sum_upd. intros r Ht. unfold job_row in Ht. apply andb_true_iff in Ht as [_ Ht]. unfold open1. cbn. by destruct (rr_status r).
  - intros j' [= <-]. cbn. unfold jobs. cbn. apply list_elem_of_fmap. exists (on_job RProcessing (λ e, e) (λ _, verifier) now j). split; [done|].
    apply list_elem_of_fmap. exists j. split; [|done]. unfold job_row. by rewrite Z.eqb_refl, Hs.
Qed.

Lemma settle_closes j r now p : (rr_id j, RProcessing) ∈ jobs p →
  (open_jobs (after (settle_job j r now) p) ≤ open_jobs p)%nat ∧
  ∃ ok, answer (settle_job j r now) p = Ok ok ∧ (ok = true → (open_jobs (after (settle_job j r now) p) < open_jobs p)%nat).
Proof.
  intros Hin. unfold settle_job. destruct r as [[]|err].
  { pose proof (open_close j RDone "" now p eq_refl Hin). split; [lia|]. by exists true. }
  rewrite (after_bind _ _ _ p), (answer_bind _ _ _ p) by done. change (after aget p) with p. destruct (huntReplayRetryable err && _).
  - split; [|by exists false]. rewrite !open_sum. cbn. apply sum_upd. intros x Ht. unfold job_row in Ht. apply andb_true_iff in Ht as [_ Ht].
    unfold open1. cbn. by destruct (rr_status x).
  - pose proof (open_close j RDone err now p eq_refl Hin) as HD. pose proof (open_close j RFailed err now p eq_refl Hin) as HF.
    set (f := on_queue _). set (k := update_items _ f ;!; aret true).
    assert (∀ q, open_jobs (after k q) = open_jobs q ∧ answer k q = Ok true) as Hk by done.
    assert ((open_jobs (after (close_job j RFailed err now ;!; k) p) < open_jobs p)%nat ∧ answer (close_job j RFailed err now ;!; k) p = Ok true) as [H1 H2].
    { rewrite (after_bind _ _ _ true), (answer_bind _ _ _ true) by done. destruct (Hk (after (close_job j RFailed err now) p)) as [-> ->]. done. }
    destruct (w_status <$> get_item _ _ p) as [[]|]; (split; [lia|]); exists true; split; try done; intros _; lia.
Qed.

(** A pass that asks for another one has closed a job. *)
Lemma next_closes verifier reclaim now p :
  (open_jobs (after (processNextHuntReplayJob E verifier reclaim now) p) ≤ open_jobs p)%nat ∧
  ∃ ok, answer (processNextHuntReplayJob E verifier reclaim now) p = Ok ok ∧
    (ok = true → (open_jobs (after (processNextHuntReplayJob E verifier reclaim now) p) < open_jobs p)%nat).
Proof.
  unfold processNextHuntReplayJob. set (m1 := if reclaim then _ else _).
  assert ((open_jobs (after m1 p) ≤ open_jobs p)%nat ∧ answer m1 p = Ok tt) as [H1 A1] by (unfold m1; destruct reclaim; split; [apply open_reclaim|done..]).
  rewrite (after_bind _ _ _ _ A1), (answer_bind _ _ _ _ A1). set (p1 := after m1 p) in *.
  destruct (open_take verifier now p1) as [H2 Hin]. assert (∃ oj, answer (take_job verifier now) p1 = Ok oj) as [oj A2].
  { unfold take_job, answer, abind, aget. destruct (next_job p1); by eexists. }
  rewrite (after_bind _ _ _ _ A2), (answer_bind _ _ _ _ A2). set (p2 := after (take_job verifier now) p1) in *.
  destruct oj as [j|]; [|split; [cbn; lia|]; by exists false]. specialize (Hin j A2).
  pose proof (kj_run_job j verifier now p2) as H3. unfold after, answer in *. destruct (runHuntReplayJob E j verifier now p2) as [r p3]. cbn in H3.
  assert (open_jobs p3 = open_jobs p2) as H4 by (unfold open_jobs; by rewrite H3). rewrite <- H3 in Hin.
  destruct (settle_closes j r now p3 Hin) as (H5 & ok & A5 & Hlt). unfold after, answer in *. split; [lia|]. exists ok. split; [done|].
  intros E1. specialize (Hlt E1). lia.
Qed.

(** Enough passes drain the queue. *)
Lemma drain_ends clock fuel : ∀ i p, (open_jobs p < fuel)%nat → answer (DrainHuntReplayQueue fuel E clock i) p = Ok true.
Proof.
  induction fuel as [|k IH]; intros i p Hk; [lia|]. cbn [DrainHuntReplayQueue].
  destruct (next_closes "drain" (clock i).1 (clock i).2 p) as (_ & ok & Hok & Hlt). rewrite (answer_bind _ _ _ _ Hok).
  destruct ok; [|done]. apply IH. specialize (Hlt eq_refl). lia.
Qed.
End job.

(** C27: draining the verification queue ends: one pass more than there are open jobs is enough, whatever the jobs' replays
    answer, whether their payments fail, and however many stale jobs are reclaimed meanwhile; and the number of open jobs
    is never larger afterwards. *)
Theorem DrainHuntReplayQueue_terminates E r clock i p now : s_settler E = settler_of r now →
  answer (DrainHuntReplayQueue (S (open_jobs p)) E clock i) p = Ok true ∧
  ∀ verifier reclaim t, (open_jobs (after (processNextHuntReplayJob E verifier reclaim t) p) ≤ open_jobs p)%nat.
Proof.
  intros HE. assert (OptJobLaw (s_settler E)) as HL by (rewrite HE; apply _). split; [apply drain_ends; [done|lia]|].
  intros verifier reclaim t. by destruct (next_closes E verifier reclaim t p).
Qed.

(** The job of [toy_hunt_ops], replayed and closed. *)
Lemma DrainHuntReplayQueue_terminates_witness : let p := run_ops (H := toy_crypto) toy_hunt_ops empty_pool in
  open_jobs p = 1%nat ∧ answer (DrainHuntReplayQueue 2 toy_env (λ _, (true, 2000)) 0) p = Ok true ∧
  w_status <$> get_item "hunt-1" 1 (after (DrainHuntReplayQueue 2 toy_env (λ _, (true, 2000)) 0) p) = Some WDone.
Proof.
  cbv zeta. split; [by vm_compute|]. split; [|by vm_compute].
  apply (DrainHuntReplayQueue_terminates toy_env None (λ _, (true, 2000)) 0 (run_ops (H := toy_crypto) toy_hunt_ops empty_pool) 2000). done.
Defined.
