(* ===== verification/PoolLease.v ===== *)
(** Claims respect leases (internal/poolfuzz/service.go: Claim...): what a claim may change, and
    what an answered claim means, phase by phase. *)
From S2P Require Import Prelude PoolCfg GoText GoNum Json PoolBase PoolOutbox PoolQueue PoolClaim PoolFair PoolSteps PoolPaths PoolOps.

(** Rows keep their identity along a path. *)
Lemma item_step p p' w : pool_step p p' → w ∈ items p → ∃ w', w' ∈ items p' ∧ same_item w w'.
Proof.
  intros Hs Hw. assert (same_item w w) as Hrefl by done.
  assert (∀ l, items p' = items p ++ l → ∃ w', w' ∈ items p' ∧ same_item w w') as Hkeep.
  { intros l ->. exists w. split; [apply elem_of_app; by left|done]. }
  destruct Hs as [f Hf|cid n now Hc _|v kind now Hv Hk|cid k miner sev item now Hc Hk|test now|p' (E & _) _].
  - exists (f w). split; [by apply list_elem_of_fmap_2|]. by eapply move_same, Hf.
  - unfold after, insert_item in *. destruct (existsb _ _); [apply (Hkeep []); by rewrite app_nil_r|by eapply Hkeep].
  - apply (Hkeep []). rewrite app_nil_r. unfold after, enqueue_row. by destruct (List.find _ _).
  - apply (Hkeep []). rewrite app_nil_r. unfold after, enqueue_row. by destruct (List.find _ _).
  - apply (Hkeep []). by rewrite app_nil_r.
  - apply (Hkeep []). by rewrite app_nil_r.
Qed.
Lemma item_path p p' w : path p p' → w ∈ items p → ∃ w', w' ∈ items p' ∧ same_item w w'.
Proof.
  intros H. revert w. induction H as [p|p q r Hs H IH]; intros w Hw; [by exists w|].
  destruct (item_step p q w Hs Hw) as (w1 & Hw1 & (E1 & E2 & E3)). destruct (IH w1 Hw1) as (w2 & Hw2 & (F1 & F2 & F3)).
  exists w2. split; [done|]. split_and!; congruence.
Qed.

Section lease.
Context (worker : string) (now : Z).

(** Not for this claim to touch: not pending, no expired lease, not a lease of the worker itself. *)
Definition kept (w : WorkItem) : Prop := w_status w ≠ WPending ∧ expired now w = false ∧ leased_by worker w = false.
Definition keeps (p p' : Pool) : Prop := ∀ w, w ∈ items p → kept w → w ∈ items p'.
Definition leased_to (p : Pool) (cw : ClaimedWork) : Prop :=
  ∃ w, w ∈ items p ∧ w_id w = cw_item cw ∧ w_campaign w = cw_campaign cw ∧ input_n w = cw_input cw ∧ leased_by worker w = true.
Definition claim_at (m : pool_act (option ClaimedWork)) (p : Pool) : Prop :=
  pool_reach p → keeps p (after m p) ∧ ∀ cw, answer m p = Ok (Some cw) → leased_to (after m p) cw.

#[local] Instance keeps_preorder : PreOrder keeps.
Proof. split; [by intros p w|]. intros p q r H1 H2 w Hw Hk. by apply H2; [apply H1|]. Qed.

Lemma keeps_same p p' : items p' = items p → keeps p p'.
Proof. intros E w Hw _. by rewrite E. Qed.
Lemma keeps_update test f p : (∀ x, x ∈ items p → kept x → test x = false) → keeps p (after (update_items test f) p).
Proof. intros Ht w Hw Hk. apply list_elem_of_fmap. exists w. by rewrite Ht. Qed.

(** Nothing is claimed before [k]. *)
Lemma claim_bind {A} (m : pool_act A) (f : A → pool_act (option ClaimedWork)) p :
  Paths m → keeps p (after m p) → (∀ a, answer m p = Ok a → claim_at (f a) (after m p)) → claim_at (abind m f) p.
Proof.
  intros Hm Hk Hf Hr. pose proof (path_reach _ _ Hr (Hm p Hr)) as Hr'. unfold claim_at, after, answer, abind in *.
  destruct (m p) as [[a|e] q]; cbn in *; [|done]. destruct (Hf a eq_refl Hr') as [H1 H2]. split; [by etrans|done].
Qed.
Lemma claim_get (f : Pool → pool_act (option ClaimedWork)) p : claim_at (f p) p → claim_at (abind aget f) p.
Proof. intros Hf. apply claim_bind; [apply _|by apply keeps_same|]. by intros q [= <-]. Qed.
Lemma claim_none p : claim_at (aret None) p.
Proof. intros _. split; [by apply keeps_same|done]. Qed.
Lemma claim_or_else m k p : Paths m → claim_at m p → (keeps p (after m p) → claim_at k (after m p)) → claim_at (or_else m k) p.
Proof.
  intros Hm Hc Hk Hr. pose proof (path_reach _ _ Hr (Hm p Hr)) as Hr'. destruct (Hc Hr) as [H1 H2]. specialize (Hk H1 Hr').
  unfold or_else, after, answer, abind in *. destruct (m p) as [[[cw|]|e] q]; cbn in *; [|destruct Hk as [K1 K2]; split; [by etrans|done]|done].
  split; [done|]. intros cw' [= <-]. by apply H2.
Qed.
(** Memory only. *)
Lemma claim_mem f (k : pool_act (option ClaimedWork)) p : Paths (amod f) → (∀ q, items (f q) = items q) → claim_at k (f p) → claim_at (amod f ;!; k) p.
Proof. intros Hp Hf Hk. apply claim_bind; [done|apply keeps_same, Hf|]. intros [] _. exact Hk. Qed.

(** * One campaign *)

Lemma owned_not_kept p cid w x : pool_ok p → w ∈ items p → w_campaign w = cid → leased_by worker w = true →
  x ∈ items p → kept x → is_item cid (w_id w) x = false.
Proof.
  intros Hp Hw <- Hl Hx (_ & _ & Hn). unfold is_item. destruct (Z.eqb_spec (w_id x) (w_id w)) as [E|]; [|done].
  apply (item_inj p) in E; [|done..]. congruence.
Qed.

(** Storing the built inputs touches the leased item only, and leaves it leased. *)
Lemma store_mark p cid w f : pool_ok p → w ∈ items p → w_campaign w = cid → leased_by worker w = true →
  (∀ x, leased_by worker (f x) = leased_by worker x ∧ same_item x (f x)) →
  let q := after (update_items (is_item cid (w_id w)) f) p in
  keeps p q ∧ f w ∈ items q ∧ w_id (f w) = w_id w ∧ w_campaign (f w) = cid ∧ input_n (f w) = input_n w ∧ leased_by worker (f w) = true.
Proof.
  intros Hp Hw Hc Hl Hf q. destruct (Hf w) as [E (E1 & E2 & E3)]. split_and!; [|  |done|congruence|done|congruence].
  - apply keeps_update. intros x Hx. by eapply owned_not_kept.
  - apply list_elem_of_fmap. exists w. split; [|done]. unfold is_item. rewrite Z.eqb_refl, Hc, String.eqb_refl. done.
Qed.

Lemma mark_locked u b x : leased_by worker (with_expected u b (on_queue (set_status (w_status x) now) x)) = leased_by worker x
  ∧ same_item x (with_expected u b (on_queue (set_status (w_status x) now) x)).
Proof. by unfold leased_by, status_in, w_status. Qed.
Lemma mark_canary x : leased_by worker (with_canary (on_queue (set_status (w_status x) now) x)) = leased_by worker x
  ∧ same_item x (with_canary (on_queue (set_status (w_status x) now) x)).
Proof. by unfold leased_by, status_in, w_status. Qed.

Lemma store_keeps b p cid w : pool_reach p → w ∈ items p → w_campaign w = cid → leased_by worker w = true →
  let q := after (store_built now cid (w_id w) b) p in
  answer (store_built now cid (w_id w) b) p = Ok tt ∧ keeps p q ∧
  ∃ w', w' ∈ items q ∧ w_id w' = w_id w ∧ w_campaign w' = cid ∧ input_n w' = input_n w ∧ leased_by worker w' = true.
Proof.
  intros Hr Hw Hc Hl. cbv zeta.
  set (m1 := if b_locked b then update_items (is_item cid (w_id w)) (λ w, with_expected (b_u b) (b_b b) (on_queue (set_status (w_status w) now) w)) ;!; aret tt else aret tt).
  set (m2 := if b_canary b then update_items (is_item cid (w_id w)) (λ w, with_canary (on_queue (set_status (w_status w) now) w)) ;!; aret tt else aret tt).
  assert (answer m1 p = Ok tt ∧ keeps p (after m1 p) ∧ pool_reach (after m1 p) ∧
    ∃ w1, w1 ∈ items (after m1 p) ∧ w_id w1 = w_id w ∧ w_campaign w1 = cid ∧ input_n w1 = input_n w ∧ leased_by worker w1 = true) as (A1 & K1 & R1 & w1 & Hw1 & I1 & C1 & N1 & L1).
  { unfold m1. destruct (b_locked b).
    - destruct (store_mark p cid w (λ w, with_expected (b_u b) (b_b b) (on_queue (set_status (w_status w) now) w)) (reach_ok _ Hr) Hw Hc Hl (mark_locked _ _))
        as (K & Hin & ?). split_and!; [done|done| |by eexists].
      eapply path_reach; [done|]. apply paths_items; [|done]. intros p0 w0 _ _. by apply im_keep.
    - split_and!; [done|by apply keeps_same|done|by exists w]. }
  change (store_built now cid (w_id w) b) with (m1 ;!; m2). rewrite (after_bind _ _ _ tt A1), (answer_bind _ _ _ tt A1).
  unfold m2. destruct (b_canary b); [|split_and!; [done|done|by exists w1]]. rewrite <- I1.
  destruct (store_mark (after m1 p) cid w1 (λ w, with_canary (on_queue (set_status (w_status w) now) w)) (reach_ok _ R1) Hw1 C1 L1 mark_canary)
    as (K & Hin & E1 & E2 & E3 & E4). split_and!; [done|etrans; [exact K1|exact K]|].
  eexists. split; [exact Hin|]. split_and!; [done|done|congruence|done].
Qed.

Lemma build_claim e cid cfg p w : w ∈ items p → w_campaign w = cid → leased_by worker w = true →
  claim_at (λ q, match buildClaimedWork e now cid (w_id w) (input_n w) cfg worker q with
                 | (Ok work, q') => (Ok (Some work), q')
                 | (Err err, q') => (Err err, after (update_items (λ v, is_item cid (w_id w) v && leased_by worker v) (on_queue (release_cols now))) q')
                 end) p.
Proof.
  intros Hw Hc Hl Hr. unfold after at 1 2 3, answer. unfold buildClaimedWork, abind at 1, alift.
  destruct (build e cid (w_id w) (input_n w) cfg worker) as [b|err]; cbn [fst snd].
  - destruct (store_keeps b p cid w Hr Hw Hc Hl) as (HA & HK & w' & Hin & E1 & E2 & E3 & E4).
    unfold abind, answer, after in *. destruct (store_built now cid (w_id w) b p) as [r q]; cbn in *. subst r. cbn.
    split; [done|]. intros cw [= <-]. exists w'. by split_and!.
  - split; [|done]. apply keeps_update. intros x Hx (_ & _ & Hn). by rewrite Hn, andb_false_r.
Qed.

Lemma latest_in l w : latest l = Some w → w ∈ l.
Proof.
  unfold latest. assert (∀ l o, foldl (λ best w, match best with Some b => if updated_at (w_q b) <=? updated_at (w_q w) then Some w else best | None => Some w end) o l = Some w →
    o = Some w ∨ w ∈ l) as H; [|intros E; by apply H in E as [|]].
  clear l. induction l as [|x l IH]; intros o E; [by left|]. cbn in E. apply IH in E as [E|E]; [|right; by right].
  destruct o as [b|]; [destruct (_ <=? _)|]; first [by left|injection E as ->; right; left].
Qed.

Lemma claim_one e cid p : claim_at (claimOnePendingInCampaign e worker cid now) p.
Proof.
  unfold claimOnePendingInCampaign. apply claim_get. destruct (get_campaign cid p) as [c|]; [|apply claim_none].
  destruct (negb _); [apply claim_none|]. apply claim_bind; [apply _| |].
  - unfold lease_oldest. rewrite (after_bind _ _ _ p) by done. change (after aget p) with p. destruct (List.find (pending_item cid) _) as [o|]; [|by apply keeps_same]. apply keeps_update. intros x _ (Hn & _).
    unfold pending_item, status_in. destruct (w_status x); try done; by rewrite !andb_false_r.
  - intros aff _. destruct (aff =? 0); [apply claim_none|]. apply claim_get.
    destruct (latest _) as [w|] eqn:El; [|intros _; split; [by apply keeps_same|done]].
    apply latest_in, list_elem_of_In, filter_In in El as [Hw%list_elem_of_In [Hc%String.eqb_eq Hl]%andb_true_iff].
    apply claim_mem; [apply _|done|]. by apply build_claim.
Qed.

Lemma claim_first_at e ids p : claim_at (claim_first e worker now ids) p.
Proof.
  revert p. induction ids as [|cid ids IH]; intros p; [apply claim_none|]. cbn [claim_first].
  apply (claim_or_else _ (claim_first e worker now ids)); [apply _|apply claim_one|]. intros _. apply IH.
Qed.

(** * Expired leases *)

Lemma take_expired_at e l p : (∀ x, x ∈ l → ∃ w, w ∈ items p ∧ same_item x w) → claim_at (take_expired e worker now l) p.
Proof.
  revert p. induction l as [|x l IH]; intros p Hl; [apply claim_none|]. cbn [take_expired].
  assert (∀ q, items q = items p → ∀ y, y ∈ l → ∃ w, w ∈ items q ∧ same_item y w) as Hl'.
  { intros q -> y Hy. apply Hl. by apply list_elem_of_further. }
  apply claim_get. destruct (get_campaign (w_campaign x) p) as [c|]; [|by apply IH, Hl'].
  destruct (negb _); [by apply IH, Hl'|]. apply claim_mem; [apply paths_set_proven|done|]. set (p1 := set_proven _ p).
  set (test := λ w, is_item (w_campaign x) (w_id x) w && expired now w). set (f := fresh_lease worker (now + lease_seconds e (c_cfg c)) now).
  apply claim_bind; [apply paths_lease; unfold test; not_done| |].
  - apply keeps_update. intros y _ (_ & He & _). unfold test. by rewrite He, andb_false_r.
  - intros aff [= <-]. change (items p1) with (items p). destruct (hits test (items p) =? 0) eqn:Hz.
    { apply Z.eqb_eq in Hz. apply IH, Hl'. cbn. unfold upd. rewrite <- (map_id (items p)) at 2.
      apply map_ext_in. intros y Hy%list_elem_of_In. unfold hits in Hz.
      destruct (test y) eqn:Ht; [|done]. assert (In y (List.filter test (items p))) as Hin by (apply filter_In; split; [by apply list_elem_of_In|done]).
      destruct (List.filter test (items p)); [done|cbn in Hz; lia]. }
    apply Z.eqb_neq in Hz. assert (∃ y, y ∈ items p ∧ test y = true) as (y & Hy & Ht).
    { unfold hits in Hz. destruct (List.filter test (items p)) as [|y l'] eqn:El; [done|]. exists y.
      assert (In y (y :: l')) as Hin by by left. rewrite <- El in Hin. apply filter_In in Hin as [Hin Ht]. split; [by apply list_elem_of_In|done]. }
    apply claim_mem; [apply _|done|].
    intros Hr. destruct (Hl x) as (w & Hw & (E1 & E2 & E3)); [apply list_elem_of_here|].
    assert (y = w) as ->.
    { unfold test, is_item in Ht. rewrite !andb_true_iff, Z.eqb_eq in Ht. destruct Ht as [[Hid _] _]. pose proof (ok_ids _ (reach_ok _ Hr)) as Hn.
      cbn in Hn. unfold upd in Hn. rewrite map_map, (map_ext_in _ w_id) in Hn; [|intros z _; by destruct (test z)].
      eapply (nodup_map_inj w_id); [exact Hn|done|done|congruence]. }
    set (q := set_empty 0 _) in *. assert (f w ∈ items q) as Hf.
    { unfold q. cbn. apply list_elem_of_fmap. exists w. split; [by rewrite Ht|done]. }
    destruct (build_claim e (w_campaign x) (c_cfg c) q (f w) Hf) as [K A]; [done|unfold leased_by; cbn; by rewrite String.eqb_refl|done|].
    change (w_id (f w)) with (w_id w) in *. change (input_n (f w)) with (input_n w) in *. rewrite E1, E3 in K, A.
    unfold after, answer, abind in *. destruct (buildClaimedWork _ _ _ _ _ _ _ q) as [[work|err] q'] eqn:Eb; cbn in *; [done|]. split; [|done].
    (* the item stays leased when building fails *)
    unfold buildClaimedWork, abind, alift in Eb. destruct (build _ _ _ _ _ _) as [b|err']; [|injection Eb as _ <-; by apply keeps_same].
    destruct (store_keeps b q (w_campaign x) (f w) Hr Hf) as (HA & _); [done|unfold leased_by; cbn; by rewrite String.eqb_refl|].
    unfold answer in HA. change (w_id (f w)) with (w_id w) in HA. rewrite E1 in HA. by destruct (store_built _ _ _ _ q) as [[|] ?].
Qed.

Lemma by_until_in l x : x ∈ by_until l → x ∈ l.
Proof.
  unfold by_until. assert (∀ l acc, x ∈ foldl (λ acc w, insert_until w acc) acc l → x ∈ acc ∨ x ∈ l) as H.
  { clear l. induction l as [|y l IH]; intros acc Hx; [by left|]. cbn in Hx. apply IH in Hx as [Hx|Hx]; [|right; by right].
    assert (x = y ∨ x ∈ acc) as [-> |]; [|right; left|by left]. clear -Hx. induction acc as [|a acc IH]; cbn in Hx; [left; by apply list_elem_of_singleton|].
    destruct (_ <? _); apply elem_of_cons in Hx as [?|Hx]; subst; [by left|by right|right; left|]. destruct (IH Hx); [by left|right; by right]. }
  intros [Hx%not_elem_of_nil|Hx]%H; done.
Qed.

Lemma claim_rest_at e rest p : claim_at (claim_rest e worker now rest) p.
Proof.
  assert (∀ q, claim_at ((if SkipHunt e then aret tt else noteEmptyClaim e) ;!; aret None) q) as Hmiss.
  { intros q. unfold noteEmptyClaim. destruct (SkipHunt e); [apply claim_bind; [apply _|by apply keeps_same|intros; apply claim_none]|].
    apply claim_mem; [apply _|done|apply claim_none]. }
  unfold claim_rest. destruct rest as [|r0 rest]; [apply Hmiss|]. apply claim_mem; [apply _|done|]. apply claim_get.
  set (p1 := set_claimRR _ p). set (ids := rotate _ _). intros Hr. destruct (claim_first_at e ids p1 Hr) as [K A].
  pose proof (path_reach _ _ Hr (paths (m := claim_first e worker now ids) p1 Hr)) as Hr'.
  unfold after, answer, abind in *. destruct (claim_first e worker now ids p1) as [[[cw|]|err] q]; cbn in *; [|destruct (Hmiss q Hr') as [K' A']; split; [by etrans|done]|done].
  split; [done|]. intros cw' [= <-]. destruct (A cw eq_refl) as (w & Hw & ?). by exists w.
Qed.

Lemma claim_all_at e p : trim_space worker = worker → claim_at (ClaimWithOptions e worker now) p.
Proof.
  intros Ht. unfold ClaimWithOptions. rewrite Ht. destruct (String.eqb worker ""); [intros _; split; [by apply keeps_same|done]|].
  apply claim_get. destruct (_ <? _); [apply claim_none|]. apply claim_bind; [apply _| |].
  { apply keeps_same. unfold runnablePoolCampaignIDsByTier, after, abind, aget. destruct (sched p) as [[[t cs] rs]|]; [destruct (_ && _)|]; done. }
  intros [cs rs] _. set (p1 := after _ p). apply claim_get. apply claim_or_else; [apply _|apply claim_first_at|]. intros _.
  set (p2 := after _ p1). apply claim_or_else; [unfold near_phase; apply _| |].
  { unfold near_phase. apply claim_get. destruct (_ && _); [apply claim_first_at|apply claim_none]. }
  intros _. set (p3 := after _ p2). apply claim_get. apply claim_or_else; [apply _| |intros _; apply claim_rest_at].
  apply take_expired_at. intros x Hx. exists x. split; [|done].
  assert (x ∈ by_until (List.filter (expired now) (items p3))) as Hin by (eapply elem_of_take in Hx as (i & Hi & _); by eapply list_elem_of_lookup_2).
  apply by_until_in, list_elem_of_In, filter_In in Hin as [Hin _]. by apply list_elem_of_In.
Qed.
End lease.
