(* ===== verification/PoolProps.v ===== *)
(** What the pool promises: payments bound once, results final, leases respected, work issued in
    order, escrow closed after its payments, and verdicts that rest on the coordinator's own runs.

    The statements about states hold for every interleaving of the operations' statements
    ([pool_reach], PoolSteps); [ops_refine_steps] is that the operations are such interleavings. *)
From S2P Require Import Prelude PoolCfg GoText GoNum Json Address PoolBase PoolOutbox PoolQueue PoolVerify PoolClaim PoolSubmit PoolFair PoolSteps PoolPaths PoolOps PoolLease PoolToy.

(** * Every operation is a path of statements *)

(** C5: every operation of the pool, on every input and with every answer of the workers, the harness runs and the
    origin nodes, commits a sequence of the statements of the step relation, also when it fails midway; so every
    history stays inside the reachable states, and keeps their invariant. *)
Theorem ops_refine_steps `{Crypto} os p : pool_reach p → path p (run_ops os p) ∧ pool_ok (run_ops os p).
Proof. intros Hp. pose proof (ops_path os p Hp) as H1. split; [done|]. by eapply reach_ok, path_reach. Qed.

(** * Payments *)

Lemma payable_done p w : pool_ok p → w ∈ items p → w_run w ≠ RunNone → w_status w = WDone.
Proof.
  intros Hp Hw Hne. destruct (ok_pay _ Hp w Hw) as [H1 _]. destruct (decide (w_status w = WDone)) as [|Hd]; [done|]. by destruct Hne; apply H1.
Qed.

(** C4: a work item has at most one row that pays its run, full or floor, whatever workers, verifiers and sweeps do
    concurrently; the row belongs to a finished item and names the payee bound to it at completion. *)
Theorem one_run_row_per_item p r1 r2 : pool_reach p → r1 ∈ outbox p → r2 ∈ outbox p →
  is_run_kind (oi_kind r1) = true → is_run_kind (oi_kind r2) = true → oi_work r1 = oi_work r2 →
  r1 = r2 ∧ ∃ w, w ∈ items p ∧ w_id w = oi_work r1 ∧ w_campaign w = oi_campaign r1 ∧ w_status w = WDone ∧ payee w = oi_miner r1 ∧ oi_miner r1 ≠ EmptyString.
Proof.
  intros Hr H1 H2 K1 K2 E. pose proof (reach_ok _ Hr) as Hp.
  destruct (ok_rows _ Hp r1 H1 K1) as (w1 & Hw1 & Hne & Hrow1 & Ho1 & Hd1). destruct (ok_rows _ Hp r2 H2 K2) as (w2 & Hw2 & _ & Hrow2 & Ho2 & Hd2).
  assert (oi_key r1 = (oi_campaign r1, oi_kind r1, oi_miner r1, oi_severity r1, oi_work r1)) as Ek1 by done.
  assert (oi_key r2 = (oi_campaign r2, oi_kind r2, oi_miner r2, oi_severity r2, oi_work r2)) as Ek2 by done.
  assert (w2 = w1) as -> by (apply (item_inj p); [done..|]; unfold run_row in *; congruence).
  split.
  - destruct (run_cases (w_run w1)) as [Hn|[Hpd|Ho]]; [done| |].
    + apply (out_id_inj p Hp); [done..|]. by rewrite Hd1, Hd2.
    + apply (out_key_inj p Hp); [done..|]. unfold run_row in *. by rewrite Hrow1, Hrow2, Ho1, Ho2.
  - exists w1. assert (payee w1 = oi_miner r1) as Em by (unfold run_row in *; congruence).
    split_and!; [done|unfold run_row in *; congruence|unfold run_row in *; congruence|by apply (payable_done p)|done|].
    rewrite <- Em. by apply (ok_pay _ Hp w1 Hw1).
Qed.

(** an item is marked paid only when the row that pays its run was acknowledged by an origin node, and that row
    names the item's campaign, its payee and the item. *)
Theorem paid_run_was_applied p w : pool_reach p → w ∈ items p → w_run w = RunPaid →
  ∃ r, r ∈ outbox p ∧ oi_id r = run_outbox (w_pay w) ∧ oi_status r = ObApplied ∧ is_run_kind (oi_kind r) = true ∧
    oi_campaign r = w_campaign w ∧ oi_miner r = payee w ∧ oi_work r = w_id w ∧ payee w ≠ EmptyString.
Proof.
  intros Hr Hw Hpd. pose proof (reach_ok _ Hr) as Hp. destruct (ok_pay _ Hp w Hw) as (_ & Hpay & _ & _ & H5).
  destruct (H5 Hpd) as (r & kind & Hin & Hid & Hk & Hrow & Ha). exists r. injection Hrow as Ec Ek Em _ Ew.
  split_and!; [done|done|done|by rewrite Ek|done|done|done|]. apply Hpay. by rewrite Hpd.
Qed.

(** * Results *)

(** What is fixed once an item is finished. *)
Definition settled_as (w w' : WorkItem) : Prop :=
  same_item w w' ∧ w_status w' = WDone ∧ result_ok (w_q w') = result_ok (w_q w) ∧ last_error (w_q w') = last_error (w_q w)
  ∧ attempts (w_q w') = attempts (w_q w) ∧ duration_ms (w_q w') = duration_ms (w_q w)
  ∧ (w_run w = RunNone → w_run w' = RunNone)
  ∧ (w_run w ≠ RunNone → payee w' = payee w ∧ w_run w' ≠ RunNone ∧ (w_run w = RunPaid → w_run w' = RunPaid)).

#[global] Instance settled_preorder : PreOrder (λ w w', w_status w = WDone → settled_as w w').
Proof.
  split; [by intros w Hd|]. intros w1 w2 w3 H1 H2 Hd. destruct (H1 Hd) as ((I1 & I2 & I3) & D & A & B & C & F & G & K).
  destruct (H2 D) as ((J1 & J2 & J3) & D' & A' & B' & C' & F' & G' & K').
  unfold settled_as, same_item. split_and!; try congruence; [auto|].
  intros Hne. destruct (K Hne) as (P1 & P2 & P3). destruct (K' P2) as (Q1 & Q2 & Q3). split_and!; [congruence|done|auto].
Qed.

Lemma settled_move p w w' : pool_ok p → w ∈ items p → item_move p w w' → w_status w = WDone → settled_as w w'.
Proof.
  intros Hp Hw H Hd. pose proof (ok_pay _ Hp w Hw) as (_ & H2 & _). pose proof (move_same _ _ _ H) as Hs. unfold settled_as, payee.
  destruct H as [w' _ (Hm & Hrun & Ho) Hf _|w' _ Hnd|next r Hopen Hr Hk Hnext|r Hopen Hr Hid Ha|m st sev Hm].
  - destruct (Hf Hd) as (? & ? & ? & ? & ?). rewrite Hm, Hrun. by split_and!.
  - done.
  - split_and!; [done..| |].
    + intros E. by rewrite E in Hopen.
    + intros _. split_and!; [done| |intros E; by rewrite E in Hopen]. unfold w_run. cbn. destruct Hnext as [[-> _]|[Hn _]]; [done|by apply open_not_none].
  - split_and!; [done..| |done]. intros E. by rewrite E in Hopen.
  - split_and!; [done..|]. intros Hne. apply H2 in Hne. unfold payee in Hne. by rewrite Hm in Hne.
Qed.

Lemma settled_step p p' w : pool_ok p → pool_step p p' → w ∈ items p → w_status w = WDone → ∃ w', w' ∈ items p' ∧ settled_as w w'.
Proof.
  intros Hp Hs Hw Hd. assert (settled_as w w) as Hrefl by done.
  assert (∀ l, items p' = items p ++ l → ∃ w', w' ∈ items p' ∧ settled_as w w') as Hkeep.
  { intros l ->. exists w. split; [apply elem_of_app; by left|done]. }
  destruct Hs as [f Hf|cid n now Hc _|v kind now Hv Hk|cid k miner sev item now Hc Hk|test now|p' (E & _) _].
  - exists (f w). split; [by apply list_elem_of_fmap_2|]. eapply (settled_move p); auto.
  - unfold after, insert_item in *. destruct (existsb _ _); [apply (Hkeep []); by rewrite app_nil_r|by eapply Hkeep].
  - apply (Hkeep []). rewrite app_nil_r. unfold after, enqueue_row. by destruct (List.find _ _).
  - apply (Hkeep []). rewrite app_nil_r. unfold after, enqueue_row. by destruct (List.find _ _).
  - apply (Hkeep []). by rewrite app_nil_r.
  - apply (Hkeep []). by rewrite app_nil_r.
Qed.

(** C6: a finished item is final: whatever is committed afterwards, its verdict, error, attempts and duration do not
    change, its payee is not rebound, an item that ended without a payment intent never gets one, and a paid one is
    never unpaid. *)
Theorem finished_item_final p p' w : pool_reach p → path p p' → w ∈ items p → w_status w = WDone → ∃ w', w' ∈ items p' ∧ settled_as w w'.
Proof.
  intros Hr H. revert w Hr. induction H as [p|p q r Hs H IH]; intros w Hr Hw Hd; [by exists w|].
  destruct (settled_step p q w) as (w1 & Hw1 & S1); [by apply reach_ok|done..|].
  destruct (IH w1) as (w2 & Hw2 & S2); [by eapply pr_step|done|apply S1|]. exists w2. split; [done|].
  destruct settled_preorder as [_ Ht]. apply (Ht w w1 w2); [done| |done]. by intros _.
Qed.

(** * Issuing work *)

Notation issued cid p := (count_items (of_campaign cid) p).

Lemma insert_next p cid now : pool_ok p →
  insert_item cid (issued cid p + 1) now p =
    (Ok tt, set_item_seq (item_seq p + 1) (set_items (λ l, l ++ [fresh_item (item_seq p + 1) cid (issued cid p + 1) now]) p)).
Proof.
  intros Hp. unfold insert_item. destruct (existsb _ _) eqn:E; [|done].
  apply existsb_exists in E as (w & Hw%list_elem_of_In & [Hc%String.eqb_eq Hn%Z.eqb_eq]%andb_true_iff).
  assert (has_input p cid (issued cid p + 1)) as H by (by exists w). apply inputs_exact in H; [lia|done].
Qed.
Lemma issued_snoc p cid n m now : issued cid (set_item_seq m (set_items (λ l, l ++ [fresh_item m cid n now]) p)) = issued cid p + 1.
Proof.
  unfold count_items, hits. cbn [items set_item_seq set_items]. rewrite List.filter_app, length_app, Nat2Z.inj_add. f_equal.
  cbn. unfold of_campaign. cbn. by rewrite String.eqb_refl.
Qed.

Lemma inserts_exact cid now k : ∀ a p n, trimmed cid → pool_ok p → issued cid p = n + Z.of_nat a →
  ∃ p', afor (λ i, insert_item cid (n + Z.of_nat i + 1) now) (seq a k) p = (Ok tt, p') ∧
    items p' = items p ++ map (λ i, fresh_item (item_seq p + Z.of_nat i + 1) cid (n + Z.of_nat (a + i) + 1) now) (seq 0 k) ∧ campaigns p' = campaigns p.
Proof.
  induction k as [|k IH]; intros a p n Hc Hp Hn; [exists p; cbn; by rewrite app_nil_r|].
  cbn [seq afor]. pose proof (insert_next p cid now Hp) as Hi. rewrite Hn in Hi. unfold abind. rewrite Hi.
  pose proof (issued_snoc p cid (n + Z.of_nat a + 1) (item_seq p + 1) now) as Hs.
  assert (reached p cid (n + Z.of_nat a + 1 - 1)) as Hr.
  { destruct (decide (n + Z.of_nat a = 0)) as [E|Hne]; [left; lia|right]. assert (0 ≤ issued cid p) by (unfold count_items, hits; lia).
    split; [lia|]. apply inputs_exact; [done|lia]. }
  pose proof (keep_insert p cid _ now Hp Hc Hr) as Hk. unfold after in Hk. rewrite Hi in Hk. cbn [snd] in Hk.
  set (q := set_item_seq (item_seq p + 1) _) in *. destruct (IH (S a) q n) as (p' & -> & Hit & Hca); [done|done|rewrite Hs; lia|].
  exists p'. split_and!; [done| |done]. rewrite Hit. cbn [seq map]. cbn [items q set_item_seq set_items]. rewrite <- app_assoc. f_equal. cbn [app].
  f_equal; [f_equal; lia|]. rewrite <- seq_shift, map_map. apply map_ext. intros i. cbn [item_seq q set_item_seq]. f_equal; lia.
Qed.

(** issuing work for an active campaign adds exactly the next inputs, each once and pending: up to [queue_depth]
    more, never beyond the budget of runs; afterwards the inputs of the campaign are 1 to that number without a gap. *)
Theorem EnsureWorkItems_exact p cid c now : pool_reach p → get_campaign cid p = Some c → active c = true →
  let p' := after (EnsureWorkItems cid now) p in let n := issued cid p in
  let k := Z.to_nat (Z.min (c_budget_runs c - n) (queue_depth (c_cfg c))) in
  answer (EnsureWorkItems cid now) p = Ok tt ∧
  items p' = items p ++ map (λ i, fresh_item (item_seq p + Z.of_nat i + 1) cid (n + Z.of_nat i + 1) now) (seq 0 k) ∧
  issued cid p' = Z.max n (Z.min (c_budget_runs c) (n + queue_depth (c_cfg c))) ∧
  ∀ m, has_input p' cid m ↔ 1 ≤ m ≤ issued cid p'.
Proof.
  intros Hr Hg Ha. cbv zeta. pose proof (reach_ok _ Hr) as Hp.
  assert (1 ≤ queue_depth (c_cfg c)) as Hd by (unfold queue_depth; destruct ((0 <? _) && _) eqn:E; [apply andb_true_iff in E as [E%Z.ltb_lt _]; lia|lia]).
  assert (trimmed cid) as Hc.
  { apply find_some in Hg as [Hin%list_elem_of_In <-%String.eqb_eq]. by apply (ok_campaigns _ Hp). }
  assert (pool_ok (after (EnsureWorkItems cid now) p)) as Hok by (eapply reach_ok, path_reach; [done|by apply (paths (m := EnsureWorkItems cid now))]).
  set (n := issued cid p) in *. set (k := Z.to_nat _).
  assert (∃ p', EnsureWorkItems cid now p = (Ok tt, p') ∧
    items p' = items p ++ map (λ i, fresh_item (item_seq p + Z.of_nat i + 1) cid (n + Z.of_nat i + 1) now) (seq 0 k)) as (p' & E & Hit).
  { unfold EnsureWorkItems, the_campaign, abind at 1 2. cbn [aget]. rewrite Hg. cbn [aret]. rewrite Ha. cbn [negb]. unfold abind at 1. cbn [aget].
    fold n. destruct (Z.leb_spec (c_budget_runs c) n) as [Hle|Hgt].
    { exists p. unfold k. replace (Z.to_nat _) with 0%nat by lia. cbn. by rewrite app_nil_r. }
    fold k. destruct (inserts_exact cid now k 0 p n Hc Hp) as (p1 & E1 & Hit & _); [unfold n; lia|].
    unfold abind. cbv zeta. fold k. rewrite E1. exists (set_empty 0 p1). replace (0 <? _) with true by lia. split; [done|]. cbn. exact Hit. }
  unfold after, answer in *. rewrite E in *. cbn [fst snd] in *. split_and!; [done|done| |].
  - assert (issued cid p' = n + Z.of_nat k) as ->; [|unfold k; lia]. unfold n, count_items, hits. rewrite Hit, List.filter_app, length_app.
    rewrite (lfilter_all (of_campaign cid) (map _ _)), length_map, length_seq; [lia|].
    intros w (i & -> & _)%list_elem_of_fmap. apply String.eqb_refl.
  - intros m. by apply inputs_exact.
Qed.

(** * Closing an escrow *)

(** Nothing of the campaign is owed: every row acknowledged, every intent paid. *)
Definition all_settled (cid : string) (p : Pool) : Prop :=
  (∀ r, r ∈ outbox p → oi_campaign r = cid → oi_status r = ObApplied) ∧
  (∀ w, w ∈ items p → w_campaign w = cid → run_open (w_run w) = false ∧ find_open (find_status (w_pay w)) = false).

Lemma hits_zero {R} (test : R → bool) l : hits test l = 0 ↔ ∀ x, x ∈ l → test x = false.
Proof.
  unfold hits. split.
  - intros H x Hx%list_elem_of_In. apply not_true_iff_false. intros Ht. assert (In x (List.filter test l)) as Hin by (by apply filter_In).
    destruct (List.filter test l); [done|cbn in H; lia].
  - intros H. by rewrite lfilter_none.
Qed.

Lemma all_settled_counts cid p : all_settled cid p ↔ hits (λ r, ob_pending r && ob_of cid r) (outbox p) = 0 ∧ count_items (unpaid_item cid) p = 0.
Proof.
  unfold all_settled, count_items. rewrite !hits_zero. f_equiv; apply forall_proper; intros x; unfold ob_of, ob_pending, unpaid_item, of_campaign; split.
  - intros H Hx. destruct (String.eqb_spec (oi_campaign x) cid) as [E|]; [|apply andb_false_r]. by rewrite (H Hx E).
  - intros H Hx E. specialize (H Hx). rewrite E, String.eqb_refl, andb_true_r in H. by destruct (oi_status x).
  - intros H Hx. destruct (String.eqb_spec (w_campaign x) cid) as [E|]; [|done]. by destruct (H Hx E) as [-> ->].
  - intros H Hx E. specialize (H Hx). rewrite E, String.eqb_refl in H. cbn in H. by apply orb_false_iff in H.
Qed.

#[global] Instance paths_relay_post r now kind cid miner item id : Paths (relay_post r now kind cid miner item id).
Proof.
  unfold relay_post. apply paths_if; [apply _|]. apply paths_bind; [apply _|]. intros q. destruct (resolveSettleBase r cid q). apply _.
Qed.

(** Closing does not look at work that is still out: in a campaign that ends by its time budget the escrow is closed
    at the origin while a second worker holds a lease, and the run this worker then completes in time is accepted and
    owed in a row after the finalize row. *)
Theorem finalize_before_run : let p := toy_pool 4 in let q := toy_pool 5 in pool_reach p ∧ path p q ∧
  ∃ f r w w', f ∈ outbox p ∧ oi_kind f = "finalize"%string ∧ oi_status f = ObApplied ∧
    w ∈ items p ∧ w_campaign w = oi_campaign f ∧ w_status w = WLeased ∧ lease_owner (w_q w) = "b"%string ∧
    w' ∈ items q ∧ w_id w' = w_id w ∧ result_ok (w_q w') = true ∧ w_run w' = RunQueued ∧
    r ∈ outbox q ∧ run_row "run" w' r ∧ oi_id f < oi_id r ∧ oi_status r = ObPending.
Proof.
  cbv zeta. split; [apply toy_pool_reach|]. split; [by eapply (toy_path 4)|].
  exists (nth 1 (outbox (toy_pool 4)) no_row), (nth 2 (outbox (toy_pool 5)) no_row),
    (nth 1 (items (toy_pool 4)) no_item), (nth 1 (items (toy_pool 5)) no_item).
  split_and!; first [by vm_compute|apply nth_mem; by vm_compute].
Qed.

(** C18: with the relay settler, in any state of a pool, what the gate of [tryFinalizeEscrow] counts, and nothing else, decides: after the rows already acknowledged are
    booked, either the campaign has an outbox row that is not acknowledged or an item with an open payment stamp, and nothing more is
    committed, or it has neither and its finalize row is in the outbox afterwards. Work still leased or waiting for its replay has
    no stamp and is not waited for, although the comments at service.go:356 and 395 rely on that: there is a history in which the
    escrow is closed at the origin while a worker of the campaign holds a lease, and the run it then completes is owed in a row
    behind the finalize row. *)
Theorem tryFinalizeEscrow_exact r now cid p : pool_reach p → trimmed cid →
  let p1 := after (PromoteAppliedSettleIntents cid) p in let q := after (tryFinalizeEscrow (Some (RelaySettler r now)) cid) p in
  (¬ all_settled cid p1 → q = p1) ∧
  (all_settled cid p1 → ∃ f, f ∈ outbox q ∧ oi_key f = (cid, "finalize", "", "", 0)%string) ∧
  ∃ p2 q2 f2 r2 w w', pool_reach p2 ∧ path p2 q2 ∧
    f2 ∈ outbox p2 ∧ oi_kind f2 = "finalize"%string ∧ oi_status f2 = ObApplied ∧
    w ∈ items p2 ∧ w_campaign w = oi_campaign f2 ∧ w_status w = WLeased ∧
    w' ∈ items q2 ∧ w_id w' = w_id w ∧ r2 ∈ outbox q2 ∧ run_row "run" w' r2 ∧ oi_id f2 < oi_id r2 ∧ oi_status r2 = ObPending.
Proof.
  intros Hr [Ht Hne] p1 q. cut (((¬ all_settled cid p1 → q = p1) ∧ (all_settled cid p1 → ∃ f, f ∈ outbox q ∧ oi_key f = (cid, "finalize", "", "", 0)%string))).
  { intros [H1 H2]. do 2 (split; [done|]). clear H1 H2. destruct finalize_before_run as (H1 & H2 & f & b & w & w' & ? & ? & ? & ? & ? & ? & _ & ? & ? & _ & _ & ? & ? & ? & ?).
    exists (toy_pool 4), (toy_pool 5), f, b, w, w'. clear Hr. repeat (split; [assumption|]). assumption. }
  assert (pool_reach p1) as Hr1 by (eapply path_reach; [done|by apply (paths_promote_all cid)]).
  rewrite all_settled_counts. unfold q, tryFinalizeEscrow. rewrite Ht. apply String.eqb_neq in Hne as Hnb. rewrite Hnb.
  assert (∃ k, answer (PromoteAppliedSettleIntents cid) p = Ok k) as [k Hk].
  { unfold PromoteAppliedSettleIntents, answer, abind, update_items, aget. cbn. by eexists. }
  rewrite (after_bind _ _ _ k) by done. fold p1. rewrite (after_bind _ _ _ p1) by done. change (after aget p1) with p1.
  unfold CountPendingSettleOutbox. rewrite Ht, Hnb. rewrite (after_bind _ _ _ (hits (λ r, ob_pending r && ob_of cid r) (outbox p1))) by done.
  change (after (alift _) p1) with p1. set (a := hits _ _). set (b := count_items _ _).
  assert (0 ≤ a ∧ 0 ≤ b) as [Ha Hb] by (unfold a, b, count_items, hits; lia). split.
  - intros Hn. destruct (Z.ltb_spec 0 a); [done|]. destruct (Z.ltb_spec 0 b); [done|]. destruct Hn. lia.
  - intros [-> ->]. cbn [Z.ltb Z.compare]. 
    assert (∃ f, f ∈ outbox (after (Finalize (RelaySettler r now) cid 0) p1) ∧ oi_key f = (cid, "finalize", "", "", 0)%string) as (f & Hf & Hkey).
    { change (Finalize (RelaySettler r now) cid 0) with (abind aget (λ _ : Pool, abind (EnqueueSettleOutbox now "finalize" cid "" "" 0) (relay_post r now "finalize" cid "" 0))).
      rewrite (after_bind _ _ _ p1) by done. change (after aget p1) with p1.
      assert (EnqueueSettleOutbox now "finalize" cid "" "" 0 = enqueue_row cid "finalize" "" "" 0 now) as ->.
      { unfold EnqueueSettleOutbox. rewrite Ht. change (norm "finalize") with "finalize"%string. by rewrite Hnb. }
      assert (∃ id g, answer (enqueue_row cid "finalize" "" "" 0 now) p1 = Ok id ∧ g ∈ outbox (after (enqueue_row cid "finalize" "" "" 0 now) p1)
        ∧ oi_key g = (cid, "finalize", "", "", 0)%string) as (id & g & Hid & Hg & Hkey).
      { unfold answer, after. destruct (enqueue_cases cid "finalize" "" "" 0 now p1) as [(g & Hg & Hkg & ->)|[_ ->]].
        - by exists (oi_id g), g.
        - eexists _, _. split_and!; [done|apply elem_of_app; right; by apply list_elem_of_singleton|done]. }
      rewrite (after_bind _ _ _ id) by done. assert (path p1 (after (enqueue_row cid "finalize" "" "" 0 now) p1)) as Hp.
      { apply rtc_once, ps_bill; [by apply String.eqb_neq in Hnb|done]. }
      destruct (path_grows (after (enqueue_row cid "finalize" "" "" 0 now) p1) _ (paths (m := relay_post r now "finalize" cid "" 0 id) _ (path_reach _ _ Hr1 Hp)) g Hg)
        as (g' & Hg' & _ & Hkg' & _). exists g'. split; [done|congruence]. }
    exists f. split; [|done]. unfold after, awrap, abind in *. by destruct (Finalize (RelaySettler r now) cid 0 p1) as [[x|e] s].
Qed.

(** * Verification of Hunt shards *)

(** a verifier whose job was reclaimed and given to a peer does not step back quietly: although it commits no
    verdict, writing back its loss of the job finishes the shard as failed, without a payment intent, and takes the
    job from every verifier, so the peer that owns it cannot complete it either. *)
Theorem stale_verifier_fails_shard E j stale peer cfg req v now p w : pool_reach p →
  huntReplayStillOwned (rr_id j) peer p = true → huntReplayStillOwned (rr_id j) stale p = false →
  get_item (rr_campaign j) (rr_item j) p = Some w → w_status w = WReplay →
  finish_job E j stale cfg req (Ok v) now p = (Err errHuntReplayLostOwnership, p) ∧
  let q := after (settle_job j (Err errHuntReplayLostOwnership) now) p in
  (∃ w', get_item (rr_campaign j) (rr_item j) q = Some w' ∧ w_status w' = WDone ∧ result_ok (w_q w') = false ∧ w_run w' = RunNone) ∧
  (∀ verifier, huntReplayStillOwned (rr_id j) verifier q = false) ∧
  (∀ cfg' req' v', answer (finish_job E j peer cfg' req' (Ok v') now) q = Err errHuntReplayLostOwnership).
Proof.
  intros Hr Hpeer Hstale Hw Hst. pose proof (reach_ok _ Hr) as Hp.
  assert (w_run w = RunNone) as Hrun.
  { apply find_item in Hw as (Hw & _). destruct (ok_pay _ Hp w Hw) as [H1 _]. apply H1. by rewrite Hst. }
  split; [unfold finish_job, abind; cbn; by rewrite Hstale|]. cbv zeta.
  set (fail := on_queue (λ c, mkQueue WDone (attempts c) errHuntReplayLostOwnership (lease_owner c) (lease_until c) false (duration_ms c) now)).
  set (q := after _ p).
  assert (items q = upd (λ w, is_item (rr_campaign j) (rr_item j) w && status_in [WReplay] w) fail (items p) ∧
    replays q = upd (λ r, rr_id r =? rr_id j) (on_job RFailed (λ _, errHuntReplayLostOwnership) (λ v, v) now) (replays p)) as [Hi Hj].
  { unfold q, settle_job, after, abind, aget. replace (huntReplayRetryable errHuntReplayLostOwnership) with false by by vm_compute.
    cbn [andb]. rewrite Hw. cbn [fmap option_fmap option_map]. rewrite Hst. done. }
  assert (∀ verifier, huntReplayStillOwned (rr_id j) verifier q = false) as Hnone.
  { intros verifier. unfold huntReplayStillOwned. rewrite Hj. clear. induction (replays p) as [|r l IH]; [done|].
    cbn [upd map existsb]. fold (upd (λ r0, rr_id r0 =? rr_id j) (on_job RFailed (λ _, errHuntReplayLostOwnership) (λ v, v) now) l). rewrite IH, orb_false_r.
    unfold job_row. destruct (Z.eqb_spec (rr_id r) (rr_id j)) as [E|Hne]; cbn; [by rewrite andb_false_r|]. apply Z.eqb_neq in Hne. by rewrite Hne. }
  split_and!; [|done|by intros; unfold finish_job, answer, abind; cbn; rewrite Hnone].
  exists (fail w). split_and!; [|done|done|done]. unfold get_item in *. rewrite Hi. clear -Hw Hst.
  induction (items p) as [|x l IH]; [done|]. cbn in *. destruct (is_item (rr_campaign j) (rr_item j) x) eqn:Ex.
  - injection Hw as ->. assert (status_in [WReplay] w = true) as -> by (unfold status_in; by rewrite Hst). cbn [andb].
    change (is_item (rr_campaign j) (rr_item j) (fail w)) with (is_item (rr_campaign j) (rr_item j) w). by rewrite Ex.
  - cbn. rewrite Ex. by apply IH.
Qed.

(** * Claims *)

(** C17: a claim, in whichever of its phases it succeeds or fails, leaves every item as it is that is not pending, has no
    expired lease and is not leased by the claiming worker itself, so the live leases of the others survive; and the
    work it answers is an item of that number and input, leased to the worker. *)
Theorem claim_respects_leases e worker now p : pool_reach p → let m := ClaimWithOptions e worker now in
  (∀ w, w ∈ items p → w_status w ≠ WPending → expired now w = false → leased_by (trim_space worker) w = false → w ∈ items (after m p)) ∧
  (∀ cw, answer m p = Ok (Some cw) → ∃ w, w ∈ items (after m p) ∧ w_id w = cw_item cw ∧ w_campaign w = cw_campaign cw ∧
     input_n w = cw_input cw ∧ w_status w = WLeased ∧ lease_owner (w_q w) = trim_space worker).
Proof.
  intros Hr. cbv zeta. assert (ClaimWithOptions e worker now = ClaimWithOptions e (trim_space worker) now) as ->.
  { unfold ClaimWithOptions. by rewrite trim_space_idem. }
  destruct (claim_all_at (trim_space worker) now e p (trim_space_idem _) Hr) as [K A]. split; [intros w Hw H1 H2 H3; by apply K|].
  intros cw Hcw. destruct (A cw Hcw) as (w & Hw & E1 & E2 & E3 & [E4 E5%String.eqb_eq]%andb_true_iff). exists w. split_and!; try done.
  unfold status_in in E4. by destruct (w_status w).
Qed.

(** the work answered need not be the work just leased: a worker that holds an item leased in the same second gets
    that item a second time, while the older item the claim leased to it is never handed out. *)
Theorem claim_answers_other_lease : let p := run_ops (H := toy_crypto) toy_reclaim empty_pool in let m := ClaimWithOptions toy_claim_env "b" 1062 in
  pool_reach p ∧ ∃ w w' x cw, w ∈ items p ∧ w_status w = WPending ∧ w' ∈ items (after m p) ∧ w_id w' = w_id w ∧
    leased_by "b" w' = true ∧ lease_until (w_q w') = 1122 ∧
    x ∈ items p ∧ leased_by "b" x = true ∧ w_id w < w_id x ∧
    answer m p = Ok (Some cw) ∧ cw_item cw = w_id x.
Proof.
  cbv zeta. split; [apply ops_reach|]. set (p := run_ops toy_reclaim empty_pool). set (m := ClaimWithOptions _ _ _).
  exists (nth 0 (items p) no_item), (nth 0 (items (after m p)) no_item), (nth 1 (items p) no_item), (mkClaimed "dig-1:2" "dig-1" 2 2 0 "" false).
  split_and!; first [by vm_compute|apply nth_mem; by vm_compute].
Qed.

(** * Verdicts *)

(** C19: with an escrow behind the campaign, a Hunt finding is recorded only when the worker claimed a crash and the
    coordinator's own run of the harness crashed, and then it passes. Outside engine submit mode that run is the replay of the
    shard and its crash is of the class claimed, a security one for a crash claim and another one for a sanitizer claim; in
    engine submit mode the input is replayed and any crash of it will do, whichever of the two was claimed. *)
Theorem hunt_finding_reproduced env R cfg req n b proven v : escrowEnabled cfg = true →
  evalHuntSubmitCheck env R cfg req n b proven = Ok v → h_record v = true →
  claims_crash req = true ∧ h_pass v = true ∧
  if huntEngineSubmitMode env req then ∃ trap, crash_replay R (CampaignID req) cfg b = Ok (true, trap)
  else ∃ rep, ReplayShard R (CampaignID req) n cfg b = Ok rep ∧ rp_crash rep = true ∧
    has_prefix (trim_space (Trap req)) (if rp_security rep then "hunt_crash:" else "hunt_sanitizer:") = true.
Proof.
  intros He. unfold evalHuntSubmitCheck. destruct (negb (SegmentExecDone req =? _)); [by intros [= <-]|].
  destruct (huntEngineSubmitMode env req).
  - unfold evalHuntEngineSubmitCheck. destruct (claims_crash req); cbn [negb]; [|by destruct (_ =? _); intros [= <-]].
    destruct (crash_replay R _ cfg b) as [[ok trap]|e]; [|done]. destruct ok; cbn [negb]; [|by destruct (_ <? _); intros [= <-]].
    destruct (has_prefix (trim_space (Trap req)) "hunt_crash:"); [destruct (has_prefix _ _)|]; intros [= <-] Hrec; try done; split_and!; try done; by exists trap.
  - rewrite He. destruct (negb (huntReplayEnabled env)); [done|]. destruct (String.eqb _ ""); [done|].
    destruct (ReplayShard R _ n cfg b) as [rep|e]; [|done]. intros [= <-]. unfold replay_verdict.
    destruct (claims_crash req), (rp_crash rep) eqn:Hc, (rp_security rep) eqn:Hs, (has_prefix (trim_space (Trap req)) "hunt_crash:") eqn:H1,
      (has_prefix (trim_space (Trap req)) "hunt_sanitizer:") eqn:H2; cbn; intros Hrec; try done; split_and!; try done; exists rep; by rewrite Hs.
Qed.

(** C20: a Dig result is never what the worker says: with clean claims proved (the default) and a check configured, the
    verdict is that of the coordinator's own run of the check, over the whole unit, and then to its end, or on the input the
    worker was bound to, where only a clean run is accepted. *)
Theorem dig_verdict_executed `{Crypto} env R canary cfg req n u b v st : hygieneProveEnabled env = true → wasmHexFromConfig cfg ≠ EmptyString →
  dig_verdict env R canary cfg req n u b = Ok (v, st) →
  (∃ sv ended, evalSubmitCheck R cfg (ParseCheckSemantics cfg) n u b = Ok (sv, ended) ∧ (1 < PoolExecPerUnit R cfg → ended = true) ∧
     v_check v = v_check sv ∧ v_pass v = v_pass sv ∧ v_record v = v_record sv) ∨
  (run_check R (wasmHexFromConfig cfg) u (ClampInputBytes R b cfg) = (v_check v, None) ∧ v_pass v = true ∧ v_record v = false ∧
     EvalCheck (ParseCheckSemantics cfg) (v_check v) false = (true, false)).
Proof.
  intros Hh Hw. apply String.eqb_neq in Hw. unfold dig_verdict. destruct (decidePoolReplay env cfg _ req _) as [full reason]. destruct full; cbn [negb].
  - destruct (evalSubmitCheck R cfg _ n u b) as [[sv ended]|e]; [|done]. rewrite Hw. cbn [negb andb].
    destruct (Z.ltb_spec 1 (PoolExecPerUnit R cfg)) as [Hx|Hx], ended; cbn [negb andb]; try done;
      (destruct (v_pass sv && negb (v_record sv)); [destruct (rejectCanaryMissIfNeeded _ _ _ _ _ _); [|done]|]);
      intros [= <- <-]; left; eexists sv, _; split_and!; try done; lia.
  - unfold dig_hygiene. destruct (checkCleanHygieneFloor _ _ _ _ _); [|done]. destruct (rejectCanaryMissIfNeeded _ _ _ _ _ _); [|done].
    destruct (negb (EvalCheck _ _ _).1); [done|]. rewrite Hh. cbn [negb]. destruct (hygieneSegmentProveApplies env cfg _).
    + destruct (evalSubmitCheck R cfg _ n u b) as [[sv ended]|e]; [|done]. rewrite Hw. cbn [negb andb].
      destruct (Z.ltb_spec 1 (PoolExecPerUnit R cfg)) as [Hx|Hx], ended; cbn [negb andb]; try done;
        (destruct (v_record sv) eqn:E1, (v_pass sv) eqn:E2; cbn; try done); intros [= <- <-]; left; eexists sv, _; split_and!; try done; lia.
    + unfold proveHygieneAnchorCheck. rewrite Hw. destruct (negb (wasm_valid _ _)); [done|].
      destruct (run_check R _ u _) as [ret [trap|]] eqn:Hrun; cbn [is_trap]; [done|].
      destruct (EvalCheck _ ret false) as [[] []] eqn:Hev; cbn; try done. intros [= <- <-]. right. by split_and!.
Qed.

(** * Deferred bounties *)

(** the bounty of a finding that is confirmed after its submit can go to another miner: the sweep takes the item
    number of the fuzzed input, which is what the finding stores, for a work item, so the payment is booked on the
    item of that number; here the worker whose own check was clean is paid for the other one's finding. *)
Theorem deferred_bounty_pays_another : let p := run_ops (H := toy_crypto) toy_bounty_ops empty_pool in
  pool_reach p ∧ ∃ f w w' r, f ∈ findings p ∧ w ∈ items p ∧ w' ∈ items p ∧ r ∈ outbox p ∧
    f_id f = "finding-pool-dig-1-1-1010"%string ∧ w_id w = 1 ∧ result_ok (w_q w) = false ∧ f_miner f = payee w ∧
    w_id w' = 2 ∧ result_ok (w_q w') = true ∧ payee w' ≠ f_miner f ∧
    oi_kind r = "finding"%string ∧ oi_status r = ObApplied ∧ oi_work r = w_id w' ∧ oi_miner r = payee w' ∧
    List.filter (λ x, String.eqb (oi_kind x) "finding") (outbox p) = [r].
Proof.
  cbv zeta. split; [apply ops_reach|]. set (p := run_ops toy_bounty_ops empty_pool).
  exists (nth 0 (findings p) (mkFinding "" "" "" "" 0 "" "" 0)), (nth 0 (items p) no_item), (nth 1 (items p) no_item), (nth 2 (outbox p) no_row).
  split_and!; first [by vm_compute|apply nth_mem; by vm_compute].
Qed.

(** * Concrete instances *)

#[local] Existing Instance toy_crypto.

Lemma ops_refine_steps_witness : path empty_pool (toy_pool 5) ∧ pool_ok (toy_pool 5).
Proof. apply (ops_refine_steps (H := toy_crypto) toy_history empty_pool pr_init). Defined.

(** The run of item 1, paid by row 1. *)
Lemma one_run_row_per_item_witness : let r := nth 0 (outbox (toy_pool 5)) no_row in oi_work r = 1 ∧
  r = r ∧ ∃ w, w ∈ items (toy_pool 5) ∧ w_id w = oi_work r ∧ w_campaign w = oi_campaign r ∧ w_status w = WDone ∧ payee w = oi_miner r ∧ oi_miner r ≠ EmptyString.
Proof.
  cbv zeta. split; [by vm_compute|]. apply (one_run_row_per_item (toy_pool 5)); [apply toy_pool_reach|apply nth_mem; by vm_compute..|by vm_compute|by vm_compute|done].
Defined.

Lemma paid_run_was_applied_witness : let w := nth 0 (items (toy_pool 5)) no_item in
  ∃ r, r ∈ outbox (toy_pool 5) ∧ oi_id r = run_outbox (w_pay w) ∧ oi_status r = ObApplied ∧ is_run_kind (oi_kind r) = true ∧
    oi_campaign r = w_campaign w ∧ oi_miner r = payee w ∧ oi_work r = w_id w ∧ payee w ≠ EmptyString.
Proof. cbv zeta. apply (paid_run_was_applied (toy_pool 5)); [apply toy_pool_reach|apply nth_mem; by vm_compute|by vm_compute]. Defined.

Lemma finished_item_final_witness : let w := nth 0 (items (toy_pool 4)) no_item in w_run w = RunPaid ∧ ∃ w', w' ∈ items (toy_pool 5) ∧ settled_as w w'.
Proof.
  cbv zeta. split; [by vm_compute|]. apply (finished_item_final (toy_pool 4)); [apply toy_pool_reach|by eapply (toy_path 4)|apply nth_mem; by vm_compute|by vm_compute].
Defined.

Lemma EnsureWorkItems_exact_witness : let p := toy_pool 1 in ∃ c, get_campaign "dig-1" p = Some c ∧
  issued "dig-1" (after (EnsureWorkItems "dig-1" 1001) p) = 10 ∧ c_budget_runs c = 10.
Proof.
  cbv zeta. destruct (get_campaign "dig-1" (toy_pool 1)) as [c|] eqn:E; [|by vm_compute in E]. exists c. split; [done|].
  assert (active c = true ∧ c_budget_runs c = 10 ∧ queue_depth (c_cfg c) = 128) as (Ha & Hb & Hd) by (vm_compute in E; injection E as <-; by vm_compute).
  destruct (EnsureWorkItems_exact (toy_pool 1) "dig-1" c 1001 (toy_pool_reach 1) E Ha) as (_ & _ & -> & _). rewrite Hb, Hd. split; [by vm_compute|done].
Defined.

Lemma tryFinalizeEscrow_exact_witness : let q := after (tryFinalizeEscrow (Some (RelaySettler (toy_relay (λ _, true)) 1)) "dig-1") (toy_pool 1) in
  ∃ f, f ∈ outbox q ∧ oi_key f = ("dig-1", "finalize", "", "", 0)%string.
Proof.
  cbv zeta. apply (proj1 (proj2 (tryFinalizeEscrow_exact (toy_relay (λ _, true)) 1 "dig-1" (toy_pool 1) (toy_pool_reach 1) ltac:(by split)))).
  apply all_settled_counts. by vm_compute.
Defined.

Lemma toy_replaying_reach : pool_reach toy_replaying.
Proof.
  unfold toy_replaying, toy_taken. assert (∀ v now, Paths (take_job v now)) as Ht.
  { intros v now. unfold take_job. apply paths_bind; [apply _|]. intros q. destruct (next_job q); apply _. }
  assert (pool_reach (after (take_job "v1" 1020) (run_ops (H := toy_crypto) toy_hunt_ops empty_pool))) as H1 by (eapply path_reach; [apply ops_reach|by apply Ht, ops_reach]).
  assert (Paths (reclaimStaleHuntReplayJobs 2000)) as Hc by (unfold reclaimStaleHuntReplayJobs; apply _).
  assert (pool_reach (after (reclaimStaleHuntReplayJobs 2000) (after (take_job "v1" 1020) (run_ops (H := toy_crypto) toy_hunt_ops empty_pool)))) as H2
    by (eapply path_reach; [exact H1|by apply Hc]).
  eapply path_reach; [exact H2|by apply Ht].
Qed.

Lemma stale_verifier_fails_shard_witness : let j := nth 0 (replays toy_replaying) (mkReplay 0 "" 0 "" "" 0 0 "" 0 0 RPending "" "" 0 0) in
  ∃ w', get_item (rr_campaign j) (rr_item j) (after (settle_job j (Err errHuntReplayLostOwnership) 2100) toy_replaying) = Some w' ∧
    w_status w' = WDone ∧ result_ok (w_q w') = false ∧ w_run w' = RunNone.
Proof.
  cbv zeta. apply (stale_verifier_fails_shard toy_env _ "v1" "v2" ∅ toy_job_req (hunt_clean "") 2100 toy_replaying (nth 0 (items toy_replaying) no_item));
    [apply toy_replaying_reach|by vm_compute..].
Defined.

Lemma claim_respects_leases_witness : let m := ClaimWithOptions toy_claim_env "c" 1003 in
  let w := nth 0 (items (toy_pool 3)) no_item in w ∈ items (after m (toy_pool 3)).
Proof.
  cbv zeta. apply (claim_respects_leases toy_claim_env "c" 1003 (toy_pool 3) (toy_pool_reach 3)); [apply nth_mem; by vm_compute|by vm_compute..].
Defined.

Definition toy_crash_req : SubmitRequest := mkSubmit "a" "HMC-a" "hunt-1" 1 0 0 "" 1 5 "hunt_crash:overflow" 1 0 false "" "".
Definition toy_crash_runs : Runs :=
  mkRuns (λ _, 1) 64 (λ _, 1) (λ _, 64) (λ _, false) (λ _, false) (λ _ _, (0, EmptyString)) (λ _ _ _, (0, EmptyString)) (λ b _, b)
    (λ _, true) (λ _ _ _, (1, None)) (λ _ _ _, mkSegment 0 "" true false 0 "" 1 1)
    (λ _ _ _ _, Ok (mkReport true true "hunt_crash:overflow" "AB" 2)) (λ _ _ _, Ok (false, EmptyString)) (λ _ _, 15) false.
Lemma hunt_finding_reproduced_witness : ∃ rep, ReplayShard toy_crash_runs "hunt-1" 1 (c_cfg toy_hunt) "" = Ok rep ∧ rp_crash rep = true ∧
    has_prefix (trim_space (Trap toy_crash_req)) (if rp_security rep then "hunt_crash:" else "hunt_sanitizer:") = true.
Proof.
  apply (hunt_finding_reproduced (λ _, EmptyString) toy_crash_runs (c_cfg toy_hunt) toy_crash_req 1 "" 0 (mkHunt 1 "hunt_crash:overflow" true true "AB" 2)); by vm_compute.
Defined.

Lemma dig_verdict_executed_witness :
  (∃ sv ended, evalSubmitCheck toy_runs toy_cfg (ParseCheckSemantics toy_cfg) 1 0 "" = Ok (sv, ended) ∧ (1 < PoolExecPerUnit toy_runs toy_cfg → ended = true) ∧
     1 = v_check sv ∧ true = v_pass sv ∧ false = v_record sv) ∨
  (run_check toy_runs (wasmHexFromConfig toy_cfg) 0 (ClampInputBytes toy_runs "" toy_cfg) = (1, None) ∧ true = true ∧ false = false ∧
     EvalCheck (ParseCheckSemantics toy_cfg) 1 false = (true, false)).
Proof.
  apply (dig_verdict_executed (H := toy_crypto) (λ _, EmptyString) toy_runs false toy_cfg (toy_req "a" 1) 1 0 "" (mkVerdict 1 "" true false 0 "") "full");
    [by vm_compute|by vm_compute|by vm_compute].
Defined.
