(* ===== verification/CoordShares.v ===== *)
(** Shares, prices and limits of the work coordinator: the pure rules of a submit.

    Sources: cmd/coordinator: shares.go, share_price.go, pool_budget.go, abuse_guard.go, sup_accrual.go,
    found_audit.go, and the hash-rate estimates of work.go.

    What the process reads from its environment is in [WorkCfg].  The logarithms of the found-rate
    audit are parameters ([GoMath]): the audit compares them with fixed bounds only. *)
From S2P Require Import Prelude Float64 GoText Params Retarget.

(** * Settings *)

Record SupPolicy := mkSupPolicy {
  sup_enabled : bool; RateOfHMC : f64; StreakSec : Z; StreakBonus : f64; DailyCapRatio : f64;
  RequireHybrid : bool; StaleRateMax : f64; ReducedMult : f64;
}.
Inductive AuditMode := AuditOff | AuditLog | AuditOn.
Inductive RelayMode := RelayOff | RelayDry | RelayOn | RelayBlocked.

Record WorkCfg := mkWorkCfg {
  defaultBatch : Z; maxClaimBatch : Z; leaseSec : Z; leaseWorkSec : f64;
  rewardAuto : bool; foundBonus : f64; payoutFoundOnly : bool;
  attemptRecheckPct : Z; attemptRecheckBudget : Z;
  shareDivisor : Z; shareStrict : bool; shareRateMin : f64; shareRateMinExpected : f64; shareRateReject : bool;
  claimPerMin : Z; submitPerMin : Z; banSec : Z; badStrikesToBan : Z;
  maxWorkers : Z; maxActiveLeases : Z; maxActiveLeasesPerWorker : Z; maxDedupEntries : Z;
  hybridSignerEnabled : bool; hybridSignerStrict : bool; hybridRequireFoundSig : bool; claimRequirePubKey : bool;
  supPolicy : SupPolicy; auditMode : AuditMode; relayMode : RelayMode; probe_configured : bool;
  sharePriceEMA : bool; emaAlpha : f64;
  dailyBudget : option f64; blockSec : f64; burstSec : Z;   (** HACKME_COORDINATOR_POOL_DAILY_BUDGET_HMC if set *)
}.

Definition f0 : f64 := f_of_Z 0.
Definition f1 : f64 := f_of_Z 1.
Definition f_pos (a : f64) : bool := f_ltb f0 a.
Definition f_min (a b : f64) : f64 := if f_ltb b a then b else a.   (** [if a > b { a = b }] *)

Definition f_max0 (a : f64) : f64 := if f_ltb a f0 then f0 else a.

(** * Shares *)

Definition maxSharesPerSubmit : nat := 128.
Definition targetSharesPerLease : Z := 32.
Definition shareHarvestScanCap : Z := 256 * 1024.
Definition shareHashBudget : Z := 4 * 2 ^ 20.

Definition softShareScanAttempts (attempts : Z) (strict : bool) : Z :=
  let capN := if strict then shareHashBudget else shareHarvestScanCap in
  if attempts <=? capN then attempts else capN.

Definition shareModFor (targetMod divisor : Z) : Z :=
  if (divisor <? 2) || (targetMod =? 0) then 0
  else let sm := targetMod / divisor in if sm <? 1 then 1 else sm.

Definition shareModForLease (targetMod divisor batch : Z) : Z :=
  let sm := shareModFor targetMod divisor in
  if batch =? 0 then sm
  else
    let leaseSM := let l := batch / targetSharesPerLease in if l <? 1 then 1 else l in
    if (sm =? 0) || (sm <? leaseSM) then leaseSM else if batch <=? sm then leaseSM else sm.

Definition expectedSharesForMod (attempts shareMod : Z) : f64 :=
  if (attempts =? 0) || (shareMod =? 0) then f0 else f_div (f_of_Z attempts) (f_of_Z shareMod).

Definition validFoundNonceV1 (foundNonce targetMod : Z) : bool :=
  if targetMod =? 0 then false else PohEval foundNonce mod targetMod =? 0.
Definition validFoundNoncePoH `{PoHHash} (foundNonce targetMod formulaVersion : Z) (prevHash minerAddress : string) : bool :=
  if targetMod =? 0 then false
  else if 3 <=? formulaVersion then
    if String.eqb (trim_space prevHash) "" || String.eqb (trim_space minerAddress) "" then false
    else PohWorkBlake3 prevHash minerAddress foundNonce mod targetMod =? 0
  else validFoundNonceV1 foundNonce targetMod.

(** The loop of [validateShareNonces]: at most 128 shares, each nonce once, in range, with valid work. *)
Fixpoint collect_shares (ok : Z → bool) (base end_ : Z) (seen : gset Z) (n : nat) (l : list Z) : list Z :=
  match n, l with
  | O, _ | _, [] => []
  | S n', x :: l' =>
      if bool_decide (x ∈ seen) then collect_shares ok base end_ seen n l'
      else let seen := {[ x ]} ∪ seen in
           if (x <? base) || (end_ <=? x) || negb (ok x) then collect_shares ok base end_ seen n l'
           else x :: collect_shares ok base end_ seen n' l'
  end.
Definition range_end (base batch : Z) : Z := let e := u64 (base + batch) in if e <? base then two64 - 1 else e.
Definition validateShareNonces `{PoHHash} (shares : list Z) (base batch shareMod formulaVersion : Z) (prevHash minerAddress : string) : list Z :=
  if (shareMod =? 0) || (batch =? 0) then []
  else collect_shares (λ n, validFoundNoncePoH n shareMod formulaVersion prevHash minerAddress) base (range_end base batch)
         ∅ maxSharesPerSubmit shares.

(** [for nonce := base; nonce < end; nonce++]: some nonce of the scanned part is a hit. *)
Definition leaseHasUnreportedFound `{PoHHash} (base count mod_ formulaVersion : Z) (prevHash minerAddress : string) (budget : Z) : bool :=
  if (count =? 0) || (mod_ =? 0) || (budget =? 0) then false
  else
    let e := range_end base (if budget <? count then budget else count) in
    existsb (λ i, validFoundNoncePoH (base + Z.of_nat i) mod_ formulaVersion prevHash minerAddress) (seq 0 (Z.to_nat (e - base))).

(** * Prices *)

Definition rewardPerShareAt (base : f64) (shareMod targetMod : Z) : f64 :=
  if (shareMod =? 0) || (targetMod =? 0) || f_leb base f0 then f0
  else f_div (f_mul base (f_of_Z shareMod)) (f_of_Z targetMod).
Definition rewardPerShareUnits (base : f64) (shareMod targetMod : Z) : Z := HMCToUnits (rewardPerShareAt base shareMod targetMod).
Definition rewardPerHashHMC (base : f64) (targetMod : Z) : f64 :=
  if f_leb base f0 || (targetMod =? 0) then f0 else f_div base (f_of_Z targetMod).

(** [ema] is the per-hash average kept so far, 0 for none; the pay of one share and the next average. *)
Definition observeSharePrice (cfg : WorkCfg) (ema base : f64) (targetMod shareMod : Z) : Z * f64 :=
  let instant := rewardPerShareUnits base shareMod targetMod in
  if (instant =? 0) || (shareMod =? 0) || (targetMod =? 0) then (instant, ema)
  else
    let perHash := rewardPerHashHMC base targetMod in
    if f_leb perHash f0 then (instant, ema)
    else
      let ema := if f_leb ema f0 then perHash
                 else let e := f_add (f_mul (emaAlpha cfg) perHash) (f_mul (f_sub f1 (emaAlpha cfg)) ema) in
                      if f_leb e f0 then perHash else e in
      let pay := if sharePriceEMA cfg && f_pos ema
                 then let p := HMCToUnits (f_mul ema (f_of_Z shareMod)) in if p =? 0 then instant else p
                 else instant in
      (pay, ema).

(** * Limits of a submit *)

Definition clampPaidAttempts (cfg : WorkCfg) (attempts batch : Z) : Z :=
  if attempts =? 0 then 0
  else
    let cap := if batch =? 0 then defaultBatch cfg else batch in
    let cap := if (0 <? maxClaimBatch cfg) && (maxClaimBatch cfg <? cap) then maxClaimBatch cfg else cap in
    if (0 <? cap) && (cap <? attempts) then cap else attempts.

Definition f105 : f64 := lit 105 100.
Definition maxSubmitHMCForBatch (cfg : WorkCfg) (targetMod : Z) (base rewardPerM : f64) (batch : Z) : f64 :=
  let payBatch := if batch =? 0 then defaultBatch cfg else batch in
  let payBatch := if (0 <? maxClaimBatch cfg) && (maxClaimBatch cfg <? payBatch) then maxClaimBatch cfg else payBatch in
  let bonus := f_mul (foundBonus cfg) f105 in
  let ceil := f_add (f_mul (f_mul (f_div (f_of_Z payBatch) (f_of_Z 1000000)) rewardPerM) f105) bonus in
  if shareStrict cfg && f_pos base && (2 <=? shareDivisor cfg) then
    let sm := shareModForLease targetMod (shareDivisor cfg) payBatch in
    let shareCeil := f_add (f_mul (f_mul (f_of_Z targetSharesPerLease) (rewardPerShareAt base sm targetMod)) f105) bonus in
    let blockCap := f_add (f_mul base (f_of_Z 2)) bonus in
    let shareCeil := f_min shareCeil blockCap in
    if f_pos shareCeil && f_ltb shareCeil ceil then shareCeil else ceil
  else ceil.

(** * The budget of a day *)

Definition utcDayID (unix : Z) : Z := Z.quot unix 86400.

Record Budget := mkBudget { b_day : Z; b_accrued : f64; b_segStart : Z; b_segRate : f64; b_base : f64 }.

Definition poolDailyBudgetHMC (cfg : WorkCfg) (base : f64) : f64 :=
  match dailyBudget cfg with
  | Some x => x
  | None => let base := if f_leb base f0 then lit 1 100 else base in f_mul base (f_div (f_of_Z 86400) (blockSec cfg))
  end.

Definition poolBudgetSegUnlocked (cfg : WorkCfg) (base rate : f64) (segStart now : Z) : f64 :=
  if f_leb rate f0 then base
  else
    let dayEnd := (Z.quot now 86400 + 1) * 86400 in
    let segStart := if segStart <=? 0 then Z.quot now 86400 * 86400 else segStart in
    let segStart := if now <? segStart then now else segStart in
    let u := f_add base (f_mul rate (f_of_Z (now - segStart + burstSec cfg))) in
    let dayTotal := f_add base (f_mul rate (f_of_Z (dayEnd - segStart))) in
    f_min u dayTotal.

Definition resetPoolPayDayIfNeeded (now : Z) (b : Budget) : Budget :=
  if b_day b =? utcDayID now then b else mkBudget (utcDayID now) f0 (b_segStart b) (b_segRate b) (b_base b).

Definition syncPoolPaySegment (budget : f64) (now : Z) (b : Budget) : Budget :=
  let rate := f_div budget (f_of_Z 86400) in
  let dayStart := Z.quot now 86400 * 86400 in
  if (b_segStart b <? dayStart) || f_leb (b_segRate b) f0 then mkBudget (b_day b) (b_accrued b) dayStart rate f0
  else if f_eqb rate (b_segRate b) then b
  else mkBudget (b_day b) (b_accrued b) now rate (f_add (b_base b) (f_mul (b_segRate b) (f_of_Z (now - b_segStart b)))).

Definition unlocked (cfg : WorkCfg) (now : Z) (b : Budget) : f64 := poolBudgetSegUnlocked cfg (b_base b) (b_segRate b) (b_segStart b) now.

(** The payout cut to what the schedule has unlocked and not yet accrued. *)
Definition applyPoolDailyBudget (cfg : WorkCfg) (base payout : f64) (now : Z) (b : Budget) : f64 * Budget :=
  if f_leb payout f0 then (payout, b)
  else
    let budget := poolDailyBudgetHMC cfg base in
    if f_leb budget f0 then (payout, b)
    else
      let b := syncPoolPaySegment budget now (resetPoolPayDayIfNeeded now b) in
      let remain := f_sub (unlocked cfg now b) (b_accrued b) in
      if f_leb remain f0 then (f0, b)
      else
        let payout := f_min payout remain in
        (payout, mkBudget (b_day b) (f_add (b_accrued b) payout) (b_segStart b) (b_segRate b) (b_base b)).

(** * The found-rate audit *)

Class GoMath := { m_log : f64 → f64; m_exp : f64 → f64; m_expm1 : f64 → f64; m_lgamma : f64 → f64 }.

Record Audit := mkAudit { au_expected : f64; au_actual : f64; au_flagged : bool }.
Definition no_audit : Audit := mkAudit f0 f0 false.

Definition foundAuditMinExpected : f64 := f_of_Z 30.
Definition foundAuditMaxRatio : f64 := lit 2 10.
Definition foundAuditMaxLogP : f64 := f_neg (lit 207 10).
Definition foundAuditWindow : f64 := f_of_Z 200.

(** ln P(X ≤ k) of a Poisson variable; [None] is minus infinity. *)
Definition poissonLogCDF `{GoMath} (k : Z) (lambda : f64) : option f64 :=
  if k <? 0 then None
  else if f_leb lambda f0 then Some f0
  else
    let term i := f_sub (f_sub (f_mul (f_of_Z (Z.of_nat i)) (m_log lambda)) lambda) (m_lgamma (f_of_Z (Z.of_nat i + 1))) in
    let terms := map term (seq 0 (Z.to_nat k + 1)) in
    let maxT := match terms with [] => f0 | t :: l => foldl (λ m x, if f_ltb m x then x else m) t l end in
    let sum := foldl (λ s t, f_add s (m_exp (f_sub t maxT))) f0 terms in
    Some (f_add maxT (m_log sum)).

Definition foundRateSuspicious `{GoMath} (expected actual : f64) : bool :=
  if f_ltb expected foundAuditMinExpected || f_ltb (f_mul expected foundAuditMaxRatio) actual then false
  else match poissonLogCDF (f_trunc actual) expected with
       | None => true
       | Some p => f_ltb p foundAuditMaxLogP
       end.

Definition foundAuditKey (signerAddr workerID : string) : string :=
  let a := trim_space signerAddr in
  if String.eqb a "" then "wid:" +:+ trim_space workerID else "addr:" +:+ to_upper a.

(** [noteFoundAuditHitLocked] and [undoFoundAuditHitLocked] on one entry. *)
Definition audit_hit (a : Audit) : Audit := mkAudit (au_expected a) (f_add (au_actual a) f1) (au_flagged a).
Definition audit_undo (a : Audit) : Audit :=
  if f_ltb (au_actual a) f1 then a else mkAudit (au_expected a) (f_sub (au_actual a) f1) (au_flagged a).

(** [noteFoundAuditWorkLocked] on one entry: verdict, and the entry kept. *)
Definition f_half (a : f64) : f64 := f_div_pow2 a 1.
Definition audit_work `{GoMath} (nShares shareMod leaseMod : Z) (a : Audit) : bool * Audit :=
  let lambda := f_div (f_mul (f_of_Z nShares) (f_of_Z shareMod)) (f_of_Z leaseMod) in
  let e := f_add (au_expected a) (f_neg (m_expm1 (f_neg lambda))) in
  let '(e, act) := if f_ltb foundAuditWindow e then (f_half e, f_half (au_actual a)) else (e, au_actual a) in
  let s := foundRateSuspicious e act in
  (s, mkAudit e act s).

(** * SUP *)

Record SupMeta := mkSupMeta { CleanSince : Z; RollingAccepts : Z; RollingStale : Z }.
Definition no_sup_meta : SupMeta := mkSupMeta 0 0 0.
Record AbuseState := mkAbuse { MinuteUnix : Z; ClaimCount : Z; SubmitCount : Z; BadStrikes : Z; BannedUntil : Z }.
Definition no_abuse : AbuseState := mkAbuse 0 0 0 0 0.

(** [st] is the abuse entry of the worker, if there is one. *)
Definition supQualityMult (P : SupPolicy) (st : option AbuseState) (meta : SupMeta) (now : Z) : f64 :=
  if match st with Some a => (now <? BannedUntil a) || (0 <? BadStrikes a) | None => false end then f0
  else
    let total := u64 (RollingAccepts meta + RollingStale meta) in
    let '(stale, total) := if 2000 <? total then (u64 (RollingStale meta * 2000) / total, 2000) else (RollingStale meta, total) in
    let mult := if (20 <? total) && f_ltb (StaleRateMax P) (f_div (f_of_Z stale) (f_of_Z total)) then ReducedMult P else f1 in
    let mult := if (0 <? CleanSince meta) && (StreakSec P <=? now - CleanSince meta) then f_add mult (StreakBonus P) else mult in
    f_min mult (lit 15 10).

Definition supV2Ratio (supPerBlock base : f64) : option f64 :=
  if f_leb supPerBlock f0 || f_leb base f0 then None
  else let r := f_div supPerBlock base in if f_leb r f0 || f_ltb f1 r then None else Some r.

Record SupDay := mkSupDay { sd_day : Z; sd_sup : f64; sd_hmc : f64 }.
Definition resetSupDayIfNeeded (now : Z) (d : SupDay) : SupDay :=
  if sd_day d =? utcDayID now then d else mkSupDay (utcDayID now) f0 f0.

(** The SUP of one submit, and the day and streak it leaves. *)
Definition computeSUPAccrual (P : SupPolicy) (v2 : option f64) (mintRetired : bool) (abuse : option AbuseState)
    (workerID : string) (workHMC : f64) (hybridSigned : bool) (now : Z) (meta : SupMeta) (d : SupDay) : f64 * SupMeta * SupDay :=
  if negb (sup_enabled P) || String.eqb workerID "" || f_leb workHMC f0 || (RequireHybrid P && negb hybridSigned)
     || match abuse with Some a => now <? BannedUntil a | None => false end then (f0, meta, d)
  else
    let mult := supQualityMult P abuse meta now in
    if f_leb mult f0 then (f0, meta, d)
    else
      match v2, mintRetired with
      | None, true => (f0, meta, d)
      | _, _ =>
          let '(rate, capRatio, mult) := match v2 with Some r => (r, r, f_min mult f1) | None => (RateOfHMC P, DailyCapRatio P, mult) end in
          let sup := f_mul (f_mul workHMC rate) mult in
          if f_leb sup f0 then (f0, meta, d)
          else
            let d := resetSupDayIfNeeded now d in
            let d := mkSupDay (sd_day d) (sd_sup d) (f_add (sd_hmc d) workHMC) in
            let capped := f_pos capRatio && f_pos (sd_hmc d) in
            let cap := f_mul (sd_hmc d) capRatio in
            if capped && f_leb cap (sd_sup d) then (f0, meta, d)
            else
              let sup := if capped && f_ltb cap (f_add (sd_sup d) sup) then f_sub cap (sd_sup d) else sup in
              if f_leb sup f0 then (f0, meta, d)
              else (sup, mkSupMeta (if CleanSince meta =? 0 then now else CleanSince meta) (u64 (RollingAccepts meta + 1)) (RollingStale meta),
                    mkSupDay (sd_day d) (f_add (sd_sup d) sup) (sd_hmc d))
      end.

(** * Hash rates *)

Definition maxWorkerHashrateGHS : f64 := f_of_Z 512.
Definition f1e9 : f64 := f_of_Z 1000000000.
Definition clampWorkerHashrateGHS (ghs : f64) : f64 := if f_leb ghs f0 then f0 else f_min ghs maxWorkerHashrateGHS.

Definition smoothWorkerHashrateGHS (prev sample : f64) : f64 :=
  let sample := clampWorkerHashrateGHS sample in
  if f_leb sample f0 then clampWorkerHashrateGHS prev
  else if f_leb prev f0 then sample
  else if f_leb (f_of_Z 10) prev && f_leb (lit 5 100) sample && f_ltb (f_mul sample (f_of_Z 20)) prev then sample
  else
    let alpha := if f_ltb (f_mul prev (lit 18 10)) sample then lit 55 100 else lit 35 100 in
    let alpha := if f_ltb (f_of_Z 5) sample && f_ltb prev (f_mul sample (lit 15 100)) then lit 82 100 else alpha in
    clampWorkerHashrateGHS (f_add (f_mul alpha sample) (f_mul (f_sub f1 alpha) prev)).

Definition shareImpliedGHS (nShares shareMod : Z) (wallSec : f64) : f64 :=
  if (nShares <=? 0) || (shareMod =? 0) || f_ltb wallSec (lit 5 100) then f0
  else if (nShares <? 2) && (2 ^ 28 <=? shareMod) then f0
  else clampWorkerHashrateGHS (f_div (f_div (f_mul (f_of_Z nShares) (f_of_Z shareMod)) wallSec) f1e9).

Definition honestWallHashrateGHS (batch : Z) (wallSec prevGH : f64) : f64 :=
  if (batch =? 0) || f_ltb wallSec (lit 5 100) then f0
  else
    let ceiling := f_min (if f_ltb prevGH (lit 5 10) then f_of_Z 12 else prevGH) maxWorkerHashrateGHS in
    let maxHashes := f_mul (f_mul (f_mul ceiling f1e9) wallSec) (lit 125 100) in
    clampWorkerHashrateGHS (f_div (f_div (f_min (f_of_Z batch) maxHashes) wallSec) f1e9).

Definition workerHashrateGHSForSubmit (reported : f64) (batch issuedAt now issuedAtMs nowMs : Z) (last : f64) (formulaVersion : Z) : f64 :=
  let secWall := if (0 <? issuedAt) && (issuedAt <=? now) then f_of_Z (now - issuedAt) else f0 in
  let msWall := if (0 <? issuedAtMs) && (0 <? nowMs) && (issuedAtMs <=? nowMs) then f_div (f_of_Z (nowMs - issuedAtMs)) (f_of_Z 1000) else f0 in
  let wall :=
    if batch <=? 0 then f0
    else if f_leb f1 secWall && (f_leb msWall f0 || f_ltb msWall (lit 5 10)) then secWall
    else if f_pos msWall then (if f_ltb msWall (lit 1 1000) then lit 1 1000 else msWall)
    else if f_pos secWall then (if f_ltb secWall (lit 5 100) then lit 5 100 else secWall)
    else f0 in
  let wallGH := if f_pos wall then clampWorkerHashrateGHS (f_div (f_div (f_of_Z batch) wall) f1e9) else f0 in
  let rep := clampWorkerHashrateGHS reported in
  if f_pos rep then
    if f_pos wallGH && f_leb f1 wall && f_ltb (f_mul wallGH (if 3 <=? formulaVersion then lit 15 10 else lit 25 10)) rep then wallGH else rep
  else if f_pos wallGH then wallGH else clampWorkerHashrateGHS last.
