(* ===== verification/CoordBase.v ===== *)
(** The work coordinator: its state, worker identity and the gates in front of claims and submits.

    Sources: cmd/coordinator: work.go (workManager), work_dedup.go, abuse_guard.go.

    The manager keeps its state in memory under one mutex; [Mgr] groups it by what changes together.
    The durable accrual rows and counters that only feed statistics are left out; of the durable
    store, the payout locks are kept.  [act] steps are critical sections. *)
From S2P Require Import Prelude Float64 GoText GoNum Json Params Address Retarget CoordShares.

(** * State *)

Record Lease := mkLease {
  l_worker : string; l_issued : Z; l_issuedMs : Z; l_expires : Z; l_reissues : Z; l_mod : Z; l_shareMod : Z;
  l_prev : string; l_addr : string; l_formula : Z; l_height : Z; l_order : bool;
}.
Record WStat := mkWStat {
  AcceptedRanges : Z; AcceptedHits : Z; AcceptedAtt : Z; PayoutHMC : f64; PayoutUnits : Z; PayoutSUP : f64;
  PayoutAddress : string; SignedSubmits : Z; LastGHS : f64; PeakGHS : f64; LastSeen : Z; LastPoHSeen : Z; LastIP : string;
  ShareExpected : f64; ShareAccepted : Z; ShareRateLow : bool;
}.
Definition no_stat : WStat := mkWStat 0 0 0 f0 0 f0 "" 0 f0 f0 0 0 "" f0 0 false.
Definition with_address (a : string) (s : WStat) : WStat :=
  mkWStat (AcceptedRanges s) (AcceptedHits s) (AcceptedAtt s) (PayoutHMC s) (PayoutUnits s) (PayoutSUP s) a (SignedSubmits s)
    (LastGHS s) (PeakGHS s) (LastSeen s) (LastPoHSeen s) (LastIP s) (ShareExpected s) (ShareAccepted s) (ShareRateLow s).
Definition with_shares (e : f64) (n : Z) (low : bool) (s : WStat) : WStat :=
  mkWStat (AcceptedRanges s) (AcceptedHits s) (AcceptedAtt s) (PayoutHMC s) (PayoutUnits s) (PayoutSUP s) (PayoutAddress s)
    (SignedSubmits s) (LastGHS s) (PeakGHS s) (LastSeen s) (LastPoHSeen s) (LastIP s) e n low.
Definition with_ip (ip : string) (now : Z) (s : WStat) : WStat :=
  mkWStat (AcceptedRanges s) (AcceptedHits s) (AcceptedAtt s) (PayoutHMC s) (PayoutUnits s) (PayoutSUP s) (PayoutAddress s)
    (SignedSubmits s) (LastGHS s) (PeakGHS s) (if LastSeen s =? 0 then now else LastSeen s) (LastPoHSeen s) ip
    (ShareExpected s) (ShareAccepted s) (ShareRateLow s).

(** What is refreshed from the node, and the pool's own difficulty. *)
Record TipView := mkTip {
  targetMod : Z; tipHash : string; tipHeight : Z; pohFormulaVersion : Z;
  baseRewardHMC : f64; supPerBlock : f64; supAdminMintRetired : bool;
  rewardPerM : f64;   (** HMC per million attempts *)
}.
(** A new difficulty of the pool's own; with [rewardAuto] the price per attempt follows it. *)
Definition set_mod (auto : bool) (m : Z) (t : TipView) : TipView :=
  if m =? targetMod t then t
  else
    let perM := if auto && f_pos (baseRewardHMC t)
                then f_max0 (f_div (f_mul (baseRewardHMC t) (f_of_Z 1000000)) (f_of_Z m)) else rewardPerM t in
    mkTip m (tipHash t) (tipHeight t) (pohFormulaVersion t) (baseRewardHMC t) (supPerBlock t) (supAdminMintRetired t) perM.
Record Seen := mkSeen {
  seen_hashes : gset string; seen_founds : gset Z; seen_nonces : gset string; seen_payloads : gset string; nonce_max : gmap string Z;
}.
Record Pay := mkPay {
  supMeta : gmap string SupMeta; supDay : SupDay; budget : Budget; ema : f64; audits : gmap string Audit;
  totalAttempts : Z; totalHMC : f64; totalSUP : f64;
}.
Definition key : Type := Z * Z.   (** base nonce and batch size *)
Record Mgr := mkMgr {
  tip : TipView; nextNonce : Z; active : gmap key Lease; workers : gmap string WStat; seen : Seen; pay : Pay;
  abuse : gmap string AbuseState; ipAbuse : gmap string AbuseState; lastPrune : Z;
  locks : gmap string string;   (** worker_payout_lock *)
}.

Definition set_tip (f : TipView → TipView) (m : Mgr) : Mgr :=
  mkMgr (f (tip m)) (nextNonce m) (active m) (workers m) (seen m) (pay m) (abuse m) (ipAbuse m) (lastPrune m) (locks m).
Definition set_next (n : Z) (m : Mgr) : Mgr :=
  mkMgr (tip m) n (active m) (workers m) (seen m) (pay m) (abuse m) (ipAbuse m) (lastPrune m) (locks m).
Definition set_active (f : gmap key Lease → gmap key Lease) (m : Mgr) : Mgr :=
  mkMgr (tip m) (nextNonce m) (f (active m)) (workers m) (seen m) (pay m) (abuse m) (ipAbuse m) (lastPrune m) (locks m).
Definition set_workers (f : gmap string WStat → gmap string WStat) (m : Mgr) : Mgr :=
  mkMgr (tip m) (nextNonce m) (active m) (f (workers m)) (seen m) (pay m) (abuse m) (ipAbuse m) (lastPrune m) (locks m).
Definition set_seen (f : Seen → Seen) (m : Mgr) : Mgr :=
  mkMgr (tip m) (nextNonce m) (active m) (workers m) (f (seen m)) (pay m) (abuse m) (ipAbuse m) (lastPrune m) (locks m).
Definition set_pay (f : Pay → Pay) (m : Mgr) : Mgr :=
  mkMgr (tip m) (nextNonce m) (active m) (workers m) (seen m) (f (pay m)) (abuse m) (ipAbuse m) (lastPrune m) (locks m).
Definition set_abuse (f : gmap string AbuseState → gmap string AbuseState) (m : Mgr) : Mgr :=
  mkMgr (tip m) (nextNonce m) (active m) (workers m) (seen m) (pay m) (f (abuse m)) (ipAbuse m) (lastPrune m) (locks m).
Definition set_ipAbuse (f : gmap string AbuseState → gmap string AbuseState) (m : Mgr) : Mgr :=
  mkMgr (tip m) (nextNonce m) (active m) (workers m) (seen m) (pay m) (abuse m) (f (ipAbuse m)) (lastPrune m) (locks m).
Definition set_prune (t : Z) (m : Mgr) : Mgr :=
  mkMgr (tip m) (nextNonce m) (active m) (workers m) (seen m) (pay m) (abuse m) (ipAbuse m) t (locks m).
Definition set_locks (f : gmap string string → gmap string string) (m : Mgr) : Mgr :=
  mkMgr (tip m) (nextNonce m) (active m) (workers m) (seen m) (pay m) (abuse m) (ipAbuse m) (lastPrune m) (f (locks m)).

Definition stat_of (id : string) (m : Mgr) : WStat := default no_stat (workers m !! id).
Definition abuse_of (id : string) (m : Mgr) : AbuseState := default no_abuse (abuse m !! id).
Definition ip_of (ip : string) (m : Mgr) : AbuseState := default no_abuse (ipAbuse m !! ip).

(** * Payout identity *)

Definition deriveAddressFromPubHex `{Crypto} (pubHex : string) : option string :=
  let pubHex := trim_space pubHex in
  if String.eqb pubHex "" then None
  else match decode_hex_len 32 pubHex with
       | Some pub => Some ("HMC-" +:+ str_prefix 16 (hex_encode (sha256 pub)))
       | None => None
       end.

Definition payoutAddressLockedReason (locked submitted : string) : string :=
  let locked := trim_space locked in let submitted := trim_space submitted in
  if String.eqb locked "" && String.eqb submitted "" then "payout_address_locked"
  else "payout_address_locked:locked=" +:+ locked +:+ ":submitted=" +:+ submitted.

(** The binding in memory, else the durable one, which is then kept in memory. *)
Definition lockedPayoutAddress (workerID : string) : act Mgr string := λ m,
  let workerID := trim_space workerID in
  let locked := trim_space (PayoutAddress (stat_of workerID m)) in
  if negb (String.eqb locked "") || String.eqb workerID "" then (Ok locked, m)
  else
    let addr := trim_space (default EmptyString (locks m !! workerID)) in
    if String.eqb addr "" then (Ok EmptyString, m)
    else (Ok addr, set_workers (λ w, <[workerID := with_address addr (stat_of workerID m)]> w) m).

Definition persistPayoutLock (workerID addr : string) (m : Mgr) : Mgr :=
  let workerID := trim_space workerID in let addr := trim_space addr in
  if String.eqb workerID "" || String.eqb addr "" then m
  else match locks m !! workerID with Some _ => m | None => set_locks (λ l, <[workerID := addr]> l) m end.

Definition full_house (cfg : WorkCfg) (m : Mgr) : bool := maxWorkers cfg <=? Z.of_nat (size (workers m)).

Definition notePayoutLock (cfg : WorkCfg) (workerID addr : string) (m : Mgr) : Mgr :=
  let workerID := trim_space workerID in let addr := trim_space addr in
  if String.eqb workerID "" || String.eqb addr "" then m
  else if negb (bool_decide (is_Some (workers m !! workerID))) && (0 <? maxWorkers cfg) && full_house cfg m then m
  else
    let cur := trim_space (PayoutAddress (stat_of workerID m)) in
    let m := if String.eqb cur "" then set_workers (λ w, <[workerID := with_address addr (stat_of workerID m)]> w) m else m in
    if equal_fold (if String.eqb cur "" then addr else cur) addr then persistPayoutLock workerID addr m else m.

(** [checkMinerIdentity] with [createLock] false: what claims and releases call. *)
Definition checkMinerIdentity `{Crypto} (cfg : WorkCfg) (workerID pubHex addrHint : string) : act Mgr unit :=
  let pubHex := trim_space pubHex in let addrHint := trim_space addrHint in
  let! locked := lockedPayoutAddress workerID in
  if claimRequirePubKey cfg && hybridSignerEnabled cfg && String.eqb pubHex "" then afail "claim_pubkey_required"
  else if String.eqb pubHex "" then
    aguard (String.eqb addrHint "" || String.eqb locked "" || equal_fold locked addrHint) (payoutAddressLockedReason locked addrHint)
  else match deriveAddressFromPubHex pubHex with
       | None => afail "invalid_pubkey"
       | Some derived =>
           if negb (String.eqb addrHint "") && negb (equal_fold addrHint derived) then afail "pubkey_address_mismatch"
           else aguard (String.eqb locked "" || equal_fold locked derived) (payoutAddressLockedReason locked derived)
       end.

Definition bindClaimPayoutFromPub `{Crypto} (cfg : WorkCfg) (workerID pubHex : string) (m : Mgr) : Mgr :=
  match deriveAddressFromPubHex pubHex with Some a => notePayoutLock cfg workerID a m | None => m end.

(** The admin's unbinding; [_, _ = true] when there was a binding. *)
Definition clearPayoutLock (workerID : string) : act Mgr bool :=
  let workerID := trim_space workerID in
  if String.eqb workerID "" then aret false
  else
    let! prev := lockedPayoutAddress workerID in
    let! m := aget in
    let had := bool_decide (is_Some (locks m !! workerID)) || negb (String.eqb (trim_space (PayoutAddress (stat_of workerID m))) "") in
    amod (λ m, let m := set_locks (delete workerID) m in
               if String.eqb (trim_space (PayoutAddress (stat_of workerID m))) "" then m
               else set_workers (λ w, <[workerID := with_address "" (stat_of workerID m)]> w) m) ;!;
    aret (had || negb (String.eqb prev "")).

(** * Bans and rates *)

Definition coordinatorPermabanUntil : Z := 2 ^ 62 - 1.

Definition isHardPermabanned (workerID ip : string) (m : Mgr) : bool :=
  (coordinatorPermabanUntil <=? BannedUntil (abuse_of (trim_space workerID) m))
  || (negb (String.eqb (trim_space ip) "") && (coordinatorPermabanUntil <=? BannedUntil (ip_of (trim_space ip) m))).

Definition permaban (cfg : WorkCfg) : AbuseState := mkAbuse 0 0 0 (badStrikesToBan cfg) coordinatorPermabanUntil.
Definition permabanWorker (cfg : WorkCfg) (workerID ip : string) (m : Mgr) : Mgr :=
  let workerID := trim_space workerID in
  let ip := if negb (String.eqb workerID "") && String.eqb ip "" then LastIP (stat_of workerID m) else ip in
  let m := if String.eqb workerID "" then m else set_abuse (λ a, <[workerID := permaban cfg]> a) m in
  let ip := trim_space ip in
  if String.eqb ip "" then m else set_ipAbuse (λ a, <[ip := permaban cfg]> a) m.

Definition stale_abuse (now : Z) (s : AbuseState) : bool :=
  negb (now <? BannedUntil s) && negb (0 <? BadStrikes s) && (MinuteUnix s <=? Z.quot now 60 - 10).
Definition pruneAbuseState (now : Z) (m : Mgr) : Mgr :=
  if now - lastPrune m <? 60 then m
  else set_ipAbuse (filter (λ p, stale_abuse now p.2 = false)) (set_abuse (filter (λ p, stale_abuse now p.2 = false)) (set_prune now m)).

Definition allowRateSlot (s : AbuseState) (now limit : Z) (claim : bool) : AbuseState * bool :=
  if now <? BannedUntil s then (s, false)
  else
    let minute := Z.quot now 60 in
    let s := if MinuteUnix s =? minute then s else mkAbuse minute 0 0 (BadStrikes s) (BannedUntil s) in
    if claim then (mkAbuse (MinuteUnix s) (ClaimCount s + 1) (SubmitCount s) (BadStrikes s) (BannedUntil s), ClaimCount s + 1 <=? limit)
    else (mkAbuse (MinuteUnix s) (ClaimCount s) (SubmitCount s + 1) (BadStrikes s) (BannedUntil s), SubmitCount s + 1 <=? limit).

Definition workerRateLimitPerMin (workerID : string) (globalMax : Z) (m : Mgr) : Z :=
  let globalMax := if globalMax <? 1 then 1 else globalMax in
  let gh := LastGHS (stat_of workerID m) in let peak := PeakGHS (stat_of workerID m) in
  let gh := if f_ltb (f_mul gh (lit 115 100)) peak then f_mul peak (lit 82 100) else gh in
  if f_leb gh f0 then
    if globalMax <=? 20 then globalMax else let lim := Z.quot globalMax 6 in if lim <? 12 then 12 else lim
  else
    let lim := f_trunc (f_mul gh (f_of_Z 15)) in
    let lim := if f_ltb gh f1 then (if lim <? 2 then 2 else lim) else if lim <? 20 then 20 else lim in
    let lim := if globalMax <? lim then globalMax else lim in
    if (120 <=? globalMax) && (lim <? 120) then 120 else lim.

(** [chargeClaimWorkerLocked] and [chargeSubmitWorkerLocked]: the slot of the declared worker. *)
Definition charge_worker (cfg : WorkCfg) (claim : bool) (workerID : string) (now : Z) : act Mgr unit :=
  let perMin := if claim then claimPerMin cfg else submitPerMin cfg in
  if perMin <=? 0 then aret tt
  else
    amod (pruneAbuseState now) ;!;
    let! m := aget in
    let '(s, ok) := allowRateSlot (abuse_of workerID m) now (workerRateLimitPerMin workerID perMin m) claim in
    amod (set_abuse (λ a, <[workerID := s]> a)) ;!;
    aguard ok (if claim then "claim_rate_limited" else "submit_rate_limited").

(** [allowClaimPeer] and [allowSubmitPeer]: bans, and the slot of the peer address. *)
Definition allow_peer (cfg : WorkCfg) (claim : bool) (workerID ip : string) (now : Z) : act Mgr unit :=
  let perMin := if claim then claimPerMin cfg else submitPerMin cfg in
  amod (pruneAbuseState now) ;!;
  let! m := aget in
  if isHardPermabanned workerID ip m then afail "worker_permabanned"
  else if now <? BannedUntil (abuse_of workerID m) then afail "worker_temporarily_banned"
  else if perMin <=? 0 then aret tt
  else if String.eqb ip "" then aret tt
  else if now <? BannedUntil (ip_of ip m) then afail "worker_temporarily_banned"
  else
    let '(s, ok) := allowRateSlot (ip_of ip m) now (workerRateLimitPerMin workerID perMin m * 4) claim in
    amod (set_ipAbuse (λ a, <[ip := s]> a)) ;!;
    aguard ok (if claim then "claim_rate_limited" else "submit_rate_limited").

(** Strikes for a refused submit: the worker's only where its lease is needed to get that far. *)
Definition strikes (reason : string) : bool * bool :=
  let among l := existsb (String.eqb reason) l in
  if among ["work_id_mismatch"; "range_leased_to_another_worker"] then (false, true)
  else if among ["found_nonce_out_of_range"; "result_hash_required_for_found"; "duplicate_found_nonce"] then (true, true)
  else if among ["invalid_signature"; "invalid_pubkey"; "pubkey_address_mismatch"; "missing_signature_fields"; "signature_required";
              "found_signature_required"; "duplicate_signed_payload"; "unsupported_sig_alg"] then (false, true)
  else if among ["batch_size_too_large"; "impossible_found_rate"] then (true, true)
  else (false, false).
Definition applyStrike (cfg : WorkCfg) (now : Z) (s : AbuseState) : AbuseState :=
  if badStrikesToBan cfg <=? BadStrikes s + 1 then mkAbuse (MinuteUnix s) (ClaimCount s) (SubmitCount s) 0 (now + banSec cfg)
  else mkAbuse (MinuteUnix s) (ClaimCount s) (SubmitCount s) (BadStrikes s + 1) (BannedUntil s).
Definition markSubmitOutcome (cfg : WorkCfg) (workerID ip reason : string) (now : Z) (m : Mgr) : Mgr :=
  let '(w, i) := strikes reason in
  let m := if w && negb (String.eqb workerID "") then set_abuse (λ a, <[workerID := applyStrike cfg now (abuse_of workerID m)]> a) m else m in
  if i && negb (String.eqb (trim_space ip) "") then set_ipAbuse (λ a, <[ip := applyStrike cfg now (ip_of ip m)]> a) m else m.

Definition noteWorkerStale (workerID : string) (m : Mgr) : Mgr :=
  if String.eqb workerID "" then m
  else set_pay (λ p, let s := default no_sup_meta (supMeta p !! workerID) in
    mkPay (<[workerID := mkSupMeta 0 (RollingAccepts s) (u64 (RollingStale s + 1))]> (supMeta p)) (supDay p) (budget p) (ema p) (audits p)
      (totalAttempts p) (totalHMC p) (totalSUP p)) m.

Definition noteWorkerClientIP (workerID ip : string) (now : Z) (m : Mgr) : Mgr :=
  let workerID := trim_space workerID in let ip := trim_space ip in
  if String.eqb workerID "" || String.eqb ip "" then m
  else set_workers (λ w, <[workerID := with_ip ip now (stat_of workerID m)]> w) m.

(** * Removing workers *)

Definition add_totals (hmc sup : f64) (att : Z) (p : Pay) : Pay :=
  mkPay (supMeta p) (supDay p) (budget p) (ema p) (audits p) (u64 (totalAttempts p + att)) (f_add (totalHMC p) hmc) (f_add (totalSUP p) sup).
(** What a removed row had accrued leaves the totals; [att] only on revocation. *)
Definition drop_totals (s : WStat) (att : bool) (p : Pay) : Pay :=
  mkPay (supMeta p) (supDay p) (budget p) (ema p) (audits p)
    (if att then (if AcceptedAtt s <=? totalAttempts p then totalAttempts p - AcceptedAtt s else 0) else totalAttempts p)
    (if att && f_leb (PayoutHMC s) f0 then totalHMC p else f_max0 (f_sub (totalHMC p) (PayoutHMC s)))
    (if att && f_leb (PayoutSUP s) f0 then totalSUP p else f_max0 (f_sub (totalSUP p) (PayoutSUP s))).

(** The durable accrual of the worker goes with it (not modelled). *)
Definition revokeWorker (cfg : WorkCfg) (workerID ip : string) (ban : bool) (m : Mgr) : Mgr :=
  let workerID := trim_space workerID in
  if String.eqb workerID "" then m
  else match workers m !! workerID with
       | None => if ban then permabanWorker cfg workerID ip m else m
       | Some s =>
           let m := set_pay (drop_totals s true) m in
           let m := set_active (filter (λ p, l_worker p.2 ≠ workerID)) m in
           let ip := if String.eqb ip "" then LastIP s else ip in
           let m := set_workers (delete workerID) m in
           if ban then permabanWorker cfg workerID ip m else m
       end.

Definition prunable (prefix : string) (staleSec : Z) (ignorePayout : bool) (now : Z) (m : Mgr) (p : string * WStat) : bool :=
  (String.eqb prefix "" || has_prefix p.1 prefix)
  && negb (existsb (λ q, String.eqb (l_worker q.2) p.1) (map_to_list (active m)))
  && ((LastSeen p.2 <=? 0) || (staleSec <? now - LastSeen p.2))
  && (ignorePayout || negb ((0 <? PayoutUnits p.2) || f_pos (PayoutHMC p.2) || f_pos (PayoutSUP p.2))).
Definition prune_one (m : Mgr) (p : string * WStat) : Mgr :=
  set_abuse (delete p.1) (set_workers (delete p.1) (set_pay (drop_totals p.2 false) m)).
Definition pruneStaleWorkers (prefix : string) (staleSec : Z) (ignorePayout : bool) (now : Z) (m : Mgr) : Mgr :=
  foldl prune_one m (filter (λ p, prunable (trim_space prefix) staleSec ignorePayout now m p = true) (map_to_list (workers m))).
