(* ===== verification/CoordWork.v ===== *)
(** Claiming nonce ranges and submitting them.

    Source: cmd/coordinator/work.go (claim, submit, the claim handler of addWorkRoutes), orders_pool.go.

    A submit that relays a found block gives up the mutex around the relay.  It is therefore three
    parts: [submit_enter] up to the relay, [baseline_resume] or [order_resume] after it, and
    [submit_pay]; other operations may come between the first and the second.  The answers of the
    node, the order probe and its module, the random draw of the recheck and the choice Go's map
    iteration makes are arguments; so is the difficulty the retargets leave ([retarget]). *)
From S2P Require Import Prelude Float64 GoText GoNum Json Params Address Retarget CoordShares CoordBase.

(** The element an iteration stops at: any of [l]. *)
Definition any_of {A} `{EqDecision A} (pick : list A → A) (l : list A) : option A :=
  match l with [] => None | x :: _ => let y := pick l in if bool_decide (y ∈ l) then Some y else Some x end.
(** [for k := range m { delete(m, k); break }] when the set is full. *)
Definition make_room {A} `{Countable A} (pick : list A → A) (limit : Z) (s : gset A) : gset A :=
  if limit <=? Z.of_nat (size s) then match any_of pick (elements s) with Some x => s ∖ {[ x ]} | None => s end else s.

Record Picks := mkPicks { pick_key : list key → key; pick_str : list string → string; pick_nonce : list Z → Z }.

(** * Claims *)

Section claim.
Context `{ChainParams} (cfg : WorkCfg).

Definition resolvedPoHFormulaVersion (t : TipView) : Z :=
  if 3 <=? pohFormulaVersion t then pohFormulaVersion t
  else if 0 <? tipHeight t then PoHFormulaVersionForIndex (tipHeight t + 1)
  else if 0 <? pohFormulaVersion t then pohFormulaVersion t else 1.

Definition blake3BootstrapBatch : Z := 2 ^ 29.
Definition adaptClaimBatch (workerID : string) (batch : Z) (m : Mgr) : Z :=
  let batch := if batch =? 0 then defaultBatch cfg else batch in
  let workSec := if f_ltb (leaseWorkSec cfg) f1 then f_of_Z 3 else leaseWorkSec cfg in
  let gh := LastGHS (stat_of workerID m) in
  let hashes := f_trunc (f_mul (f_mul gh f1e9) workSec) in
  let batch :=
    if 3 <=? resolvedPoHFormulaVersion (tip m) then
      let batch := if f_leb (lit 1 100) gh
                   then Z.max batch (if hashes <? defaultBatch cfg then defaultBatch cfg else hashes)
                   else if batch <? blake3BootstrapBatch then blake3BootstrapBatch else batch in
      if f_leb (lit 5 10) gh && (batch <=? blake3BootstrapBatch * 2) then
        let grow := if batch * 2 * 2 <? hashes then u64 (batch * 4) else u64 (batch * 2) in
        Z.max (Z.max batch grow) hashes
      else batch
    else batch in
  let batch := if (0 <? maxClaimBatch cfg) && (maxClaimBatch cfg <? batch) then maxClaimBatch cfg else batch in
  if (0 <? defaultBatch cfg) && (batch <? defaultBatch cfg) then defaultBatch cfg else batch.

Definition lease_share_mod (targetMod batch : Z) : Z :=
  if 2 <=? shareDivisor cfg then shareModForLease targetMod (shareDivisor cfg) batch else 0.

Definition expired_of (batch now : Z) (m : Mgr) : list key :=
  map fst (filter (λ p : key * Lease, p.1.2 = batch ∧ l_expires p.2 ≤ now) (map_to_list (active m))).
Definition purgeExpiredLeases (now : Z) (m : Mgr) : Mgr := set_active (filter (λ p, now < l_expires p.2)) m.

Record Claimed := mkClaimed { c_base : Z; c_size : Z; c_until : Z; c_mod : Z; c_reissued : bool }.

Definition reissue (m : Mgr) (workerID : string) (batch now : Z) (r : Lease) : Lease :=
  mkLease workerID (l_issued r) (l_issuedMs r) (now + leaseSec cfg) (u64 (l_reissues r + 1)) (targetMod (tip m))
    (lease_share_mod (targetMod (tip m)) batch) (trim_space (tipHash (tip m))) (trim_space (PayoutAddress (stat_of workerID m)))
    (resolvedPoHFormulaVersion (tip m)) (tipHeight (tip m)) (l_order r).
Definition fresh_lease (m : Mgr) (workerID : string) (batch now nowMs : Z) : Lease :=
  mkLease workerID now nowMs (now + leaseSec cfg) 0 (targetMod (tip m)) (lease_share_mod (targetMod (tip m)) batch)
    (trim_space (tipHash (tip m))) (trim_space (PayoutAddress (stat_of workerID m)))
    (resolvedPoHFormulaVersion (tip m)) (tipHeight (tip m)) false.

Definition leases_of (workerID : string) (now : Z) (m : Mgr) : Z :=
  Z.of_nat (length (filter (λ p : key * Lease, l_worker p.2 = workerID ∧ now < l_expires p.2) (map_to_list (active m)))).

(** [start] is the random aligned offset of a first range; [refresh] what the node answered to the prefetch. *)
Definition claim (P : Picks) (refresh : TipView → TipView) (start nowMs now : Z) (workerID : string) (batch : Z) : act Mgr Claimed :=
  if negb (batch =? 0) && (0 <? maxClaimBatch cfg) && (maxClaimBatch cfg <? batch) then afail "batch_size_too_large"
  else
    let! m := aget in
    let batch := adaptClaimBatch workerID batch m in
    if (0 <? maxClaimBatch cfg) && (maxClaimBatch cfg <? batch) then afail "batch_size_too_large"
    else
      amod (set_tip refresh) ;!;
      let! m := aget in
      if negb (bool_decide (is_Some (workers m !! workerID))) && full_house cfg m then afail "too_many_workers"
      else if maxActiveLeases cfg <=? Z.of_nat (size (active m)) then afail "too_many_active_leases"
      else if (0 <? maxActiveLeasesPerWorker cfg) && (maxActiveLeasesPerWorker cfg <=? leases_of workerID now m) then afail "too_many_worker_leases"
      else if shareStrict cfg && (String.eqb (trim_space (tipHash (tip m))) "" || (tipHeight (tip m) =? 0)) then afail "tip_unavailable"
      else
        match any_of (pick_key P) (expired_of batch now m) with
        | Some k =>
            match active m !! k with
            | Some r =>
                amod (set_active (λ a, <[k := reissue m workerID batch now r]> a)) ;!;
                aret (mkClaimed k.1 k.2 (now + leaseSec cfg) (targetMod (tip m)) true)
            | None => afail "unreachable"
            end
        | None =>
            amod (purgeExpiredLeases now) ;!;
            let next := if nextNonce m =? 0 then start else nextNonce m in
            if two64 - 1 - next <? batch then afail "nonce_space_exhausted"
            else
              amod (λ m, set_active (λ a, <[(next, batch) := fresh_lease m workerID batch now nowMs]> a) (set_next (next + batch) m)) ;!;
              aret (mkClaimed next batch (now + leaseSec cfg) (targetMod (tip m)) false)
        end.
End claim.

(** * What the claim handler does around it *)

Record OrderSnap := mkOrderSnap { o_id : string; o_wasm : string; o_mod : Z }.
Definition no_order : OrderSnap := mkOrderSnap "" "" 0.

Definition on_lease (k : key) (f : Lease → Lease) (m : Mgr) : Mgr :=
  match active m !! k with Some r => set_active (λ a, <[k := f r]> a) m | None => m end.
Definition drop_lease (k : key) (m : Mgr) : Mgr := set_active (delete k) m.
Definition with_mod (n : Z) (r : Lease) : Lease :=
  mkLease (l_worker r) (l_issued r) (l_issuedMs r) (l_expires r) (l_reissues r) n (l_shareMod r) (l_prev r) (l_addr r) (l_formula r) (l_height r) (l_order r).
Definition with_order (b : bool) (r : Lease) : Lease :=
  mkLease (l_worker r) (l_issued r) (l_issuedMs r) (l_expires r) (l_reissues r) (l_mod r) (l_shareMod r) (l_prev r) (l_addr r) (l_formula r) (l_height r) b.
Definition stamp_miner `{ChainParams} (t : TipView) (addr : string) (r : Lease) : Lease :=
  let fv := if 0 <? l_formula r then l_formula r
            else if 0 <? pohFormulaVersion t then pohFormulaVersion t
            else if 0 <? tipHeight t then PoHFormulaVersionForIndex (tipHeight t + 1) else pohFormulaVersion t in
  mkLease (l_worker r) (l_issued r) (l_issuedMs r) (l_expires r) (l_reissues r) (l_mod r) (l_shareMod r)
    (if String.eqb (l_prev r) "" then trim_space (tipHash t) else l_prev r) addr fv (l_height r) (l_order r).

Record ClaimReply := mkReply { cr_claimed : Claimed; cr_mod : Z; cr_shareMod : Z; cr_prev : string; cr_addr : string; cr_formula : Z; cr_order : string }.

Section handler.
Context `{ChainParams} `{Crypto} (cfg : WorkCfg).

(** [orders1] and [orders2] are the order snapshots, if the scheduler was in order mode at the two places it is asked. *)
Definition handle_claim (P : Picks) (refresh : TipView → TipView) (start nowMs now : Z) (orders1 orders2 : option OrderSnap)
    (workerID pubHex addrHint ip : string) (batch : Z) : act Mgr ClaimReply :=
  checkMinerIdentity cfg workerID pubHex addrHint ;!;
  allow_peer cfg true workerID ip now ;!;
  let! c := claim cfg P refresh start nowMs now workerID batch in
  let k := (c_base c, c_size c) in
  let stamped := match orders1 with Some o => negb (String.eqb (o_id o) "") && (0 <? o_mod o) | None => false end in
  let! m := aget in
  let mod1 := match orders1, active m !! k with Some o, Some _ => if stamped then o_mod o else c_mod c | _, _ => c_mod c end in
  (if stamped then amod (on_lease k (with_mod mod1)) else aret tt) ;!;
  amod (bindClaimPayoutFromPub cfg workerID pubHex) ;!;
  let! m := aget in
  let bound := trim_space (PayoutAddress (stat_of workerID m)) in
  let bound := if String.eqb bound "" then trim_space addrHint else bound in
  (if String.eqb bound "" then aret tt else amod (on_lease k (stamp_miner (tip m) bound))) ;!;
  let! m := aget in
  let r := active m !! k in
  let prev := let p := default EmptyString (l_prev <$> r) in if String.eqb p "" then trim_space (tipHash (tip m)) else p in
  let fv := let f := default 1 (l_formula <$> r) in
            if 0 <? f then f else if 0 <? pohFormulaVersion (tip m) then pohFormulaVersion (tip m) else resolvedPoHFormulaVersion (tip m) in
  if (3 <=? fv) && String.eqb (trim_space prev) "" then amod (drop_lease k) ;!; afail "tip_hash_unavailable"
  else
    (λ m, match charge_worker cfg true workerID now m with (Err e, m) => (Err e, drop_lease k m) | x => x end) ;!;
    amod (noteWorkerClientIP workerID ip now) ;!;
    let shareOut := if 2 <=? shareDivisor cfg then shareModForLease mod1 (shareDivisor cfg) (c_size c) else 0 in
    let reply mod_ o := mkReply c mod_ shareOut prev (default bound (l_addr <$> r)) fv o in
    match orders2 with
    | Some o =>
        if String.eqb (o_id o) "" then aret (reply mod1 EmptyString)
        else
          let mod2 := if 0 <? o_mod o then o_mod o else mod1 in
          amod (on_lease k (λ r, with_order (negb (String.eqb (trim_space (o_wasm o)) "")) (if 0 <? o_mod o then with_mod mod2 r else r))) ;!;
          aret (reply mod2 (o_id o))
    | None => aret (reply mod1 EmptyString)
    end.
End handler.
