(* ===== verification/CoordSubmit.v ===== *)
(** Submitting a claimed range: [workManager.submit] cut where it gives up its mutex.

    Sources: cmd/coordinator: work.go (submit, validateHybridSignature, canonicalSubmitBytes, recordFoundDedupLocked),
    found_audit.go, orders_pool.go; internal/worksubmit.

    [submit_enter] is the code up to a relay; a relay first takes the lease out of the open ones and
    then runs without the mutex; [baseline_resume] and [order_resume] are what follows it, and
    [submit_pay] is the rest.  A [Ticket] is what the goroutine holds in between.  The pieces are
    critical sections: any other operation of the manager may come between the first and the second. *)
From S2P Require Import Prelude Float64 GoText GoNum Json Params Address Retarget CoordShares CoordBase CoordWork.

Record Req := mkReq {
  WorkerID : string; BaseNonce : Z; BatchSize : Z; WorkID : string; Attempts : Z; Found : bool; FoundNonce : Z;
  ResultHash : string; ProofHash : string; HashrateGHS : f64; MinerAddress : string; MinerPubKey : string; MinerSig : string;
  MinerSigAlg : string; SubmitNonce : Z; OrderTaskID : string; WasmGatePass : bool; ShareNonces : list Z;
}.
Definition key_of (r : Req) : key := (BaseNonce r, BatchSize r).
Definition without_found (r : Req) : Req :=
  mkReq (WorkerID r) (BaseNonce r) (BatchSize r) (WorkID r) (Attempts r) false 0 "" (ProofHash r) (HashrateGHS r) (MinerAddress r)
    (MinerPubKey r) (MinerSig r) (MinerSigAlg r) (SubmitNonce r) (OrderTaskID r) (WasmGatePass r) (ShareNonces r).

(** What one call draws from outside: map iteration, the recheck roll, the difficulty its retargets leave, the clock. *)
Record Draws := mkDraws { picks : Picks; roll : bool; foundRetarget : Z → Z; loadRetarget : Z → Z; clock : Z; clockMs : Z }.

(** * Signatures *)

Definition buildWorkID (workerID : string) (base batch : Z) : string := workerID +:+ ":" +:+ fmt_uint base +:+ "+" +:+ fmt_uint batch.

Definition CanonicalJSON (workerID : string) (base batch : Z) (workID : string) (attempts : Z) (found : bool) (foundNonce : Z)
    (resultHash proofHash : string) (submitNonce : Z) : string :=
  jobject [jmember "worker_id" (json_string workerID); jmember "base_nonce" (fmt_uint base); jmember "batch_size" (fmt_uint batch);
           jmember "work_id" (json_string workID); jmember "attempts" (fmt_uint attempts);
           jmember "found" (if found then "true" else "false"); jmember "found_nonce" (fmt_uint foundNonce);
           jmember "result_hash" (json_string resultHash); jmember "proof_hash" (json_string proofHash);
           jmember "submit_nonce" (fmt_uint submitNonce)].
Definition canonicalSubmitBytes (r : Req) : string :=
  CanonicalJSON (trim_space (WorkerID r)) (BaseNonce r) (BatchSize r) (trim_space (WorkID r)) (Attempts r) (Found r) (FoundNonce r)
    (trim_space (to_lower (ResultHash r))) (trim_space (to_lower (ProofHash r))) (SubmitNonce r).

Definition submitNonceScope (signerAddr workerID : string) : string :=
  let wid := trim_space workerID in if String.eqb wid "" then signerAddr else signerAddr +:+ "|" +:+ wid.
Definition nonce_key (signer : string) (r : Req) : string := submitNonceScope signer (WorkerID r) +:+ ":" +:+ fmt_uint (SubmitNonce r).

Section signature.
Context `{Crypto} (cfg : WorkCfg).

Definition payload_key (r : Req) : string :=
  hex_encode (sha256 (canonicalSubmitBytes r +:+ default EmptyString (hex_decode (trim_space (MinerSig r))))).

(** [Ok ""] for a submit without signature fields where they may be left out. *)
Definition validateHybridSignature (s : Seen) (r : Req) : result string :=
  let pubHex := trim_space (MinerPubKey r) in let sigHex := trim_space (MinerSig r) in let addr := trim_space (MinerAddress r) in
  let bare := String.eqb pubHex "" && String.eqb sigHex "" && String.eqb addr "" && (SubmitNonce r =? 0) in
  if negb (hybridSignerEnabled cfg) then Ok EmptyString
  else if bare && hybridSignerStrict cfg then Err "signature_required"
  else if Found r && bare && hybridRequireFoundSig cfg then Err "found_signature_required"
  else if bare then Ok EmptyString
  else if String.eqb pubHex "" || String.eqb sigHex "" || (SubmitNonce r =? 0) then Err "missing_signature_fields"
  else if negb (String.eqb (trim_space (to_lower (MinerSigAlg r))) "" || String.eqb (trim_space (to_lower (MinerSigAlg r))) "ed25519") then Err "unsupported_sig_alg"
  else match deriveAddressFromPubHex pubHex, decode_hex_len 32 pubHex with
       | Some derived, Some pub =>
           if negb (String.eqb addr "") && negb (equal_fold addr derived) then Err "pubkey_address_mismatch"
           else match decode_hex_len 64 sigHex with
                | None => Err "invalid_signature"
                | Some sig =>
                    let scope := submitNonceScope derived (WorkerID r) in
                    if negb (ed25519_verify pub (canonicalSubmitBytes r) sig) then Err "invalid_signature"
                    else if match nonce_max s !! scope with Some n => SubmitNonce r <=? n | None => false end then Err "replay"
                    else if bool_decide (nonce_key derived r ∈ seen_nonces s) then Err "replay"
                    else if bool_decide ((derived +:+ ":" +:+ fmt_uint (SubmitNonce r)) ∈ seen_nonces s) && String.eqb (trim_space (WorkerID r)) "" then Err "replay"
                    else if bool_decide (payload_key r ∈ seen_payloads s) then Err "duplicate_signed_payload"
                    else Ok derived
                end
       | _, _ => Err "invalid_pubkey"
       end.

(** What an accepted signed submit leaves; [r] as the miner signed it. *)
Definition record_signed (P : Picks) (signer : string) (r : Req) (s : Seen) : Seen :=
  mkSeen (seen_hashes s) (seen_founds s)
    ({[ nonce_key signer r ]} ∪ make_room (pick_str P) (maxDedupEntries cfg) (seen_nonces s))
    ({[ payload_key r ]} ∪ make_room (pick_str P) (maxDedupEntries cfg) (seen_payloads s))
    (<[submitNonceScope signer (WorkerID r) := SubmitNonce r]> (nonce_max s)).

Definition recordFoundDedupLocked (E : Draws) (foundNonce : Z) (hash : string) (m : Mgr) : Mgr :=
  let s := seen m in
  let hs := if String.eqb hash "" || bool_decide (hash ∈ seen_hashes s) then seen_hashes s
            else {[ hash ]} ∪ make_room (pick_str (picks E)) (maxDedupEntries cfg) (seen_hashes s) in
  let fresh := negb (bool_decide (foundNonce ∈ seen_founds s)) in
  let fs := if fresh then {[ foundNonce ]} ∪ make_room (pick_nonce (picks E)) (maxDedupEntries cfg) (seen_founds s) else seen_founds s in
  let m := set_seen (λ s, mkSeen hs fs (seen_nonces s) (seen_payloads s) (nonce_max s)) m in
  if fresh then set_tip (λ t, set_mod (rewardAuto cfg) (foundRetarget E (targetMod t)) t) m else m.
End signature.

(** * Up to the relay *)

Record Ticket := mkTicket {
  t_req : Req; t_signed : Req; t_lease : Lease; t_mod : Z; t_hash : string; t_signer : string; t_credit : bool;
  t_issued : Z; t_chain : bool;
}.
Inductive Gate := Direct | Baseline | Order.

Section submit.
Context `{ChainParams} `{PoHHash} `{Crypto} `{GoMath} (cfg : WorkCfg).

Definition lease_addr (rec : Lease) (signer : string) (r : Req) : string :=
  let a := trim_space (l_addr rec) in
  let a := if String.eqb a "" then trim_space signer else a in
  if String.eqb a "" then trim_space (MinerAddress r) else a.
Definition lease_formula (t : TipView) (rec : Lease) : Z := if l_formula rec <=? 0 then resolvedPoHFormulaVersion t else l_formula rec.
Definition lease_target (t : TipView) (rec : Lease) : Z := if 0 <? l_mod rec then l_mod rec else targetMod t.

Definition foundStaleForLease (t : TipView) (rec : Lease) : bool :=
  (3 <=? lease_formula t rec) && negb (String.eqb (trim_space (l_prev rec)) "") && negb (String.eqb (trim_space (tipHash t)) "")
  && negb (equal_fold (trim_space (l_prev rec)) (trim_space (tipHash t))).
Definition staleFoundProven (t : TipView) (rec : Lease) (r : Req) (signer : string) (leaseMod : Z) : bool :=
  if (leaseMod =? 0) || (FoundNonce r <? BaseNonce r) || (BatchSize r <=? FoundNonce r - BaseNonce r) then false
  else negb (String.eqb (lease_addr rec signer r) "")
       && validFoundNoncePoH (FoundNonce r) leaseMod (lease_formula t rec) (trim_space (l_prev rec)) (lease_addr rec signer r).

(** A history of finding in every range, with more attempts than a lease explains. *)
Definition impossible_found_rate (m : Mgr) (rec : Lease) (r : Req) : bool :=
  let prev := stat_of (WorkerID r) m in
  let avg := if 0 <? AcceptedRanges prev then AcceptedAtt prev / AcceptedRanges prev else 0 in
  let modForExpect := lease_target (tip m) rec in
  let expectOK := (0 <? modForExpect) && (modForExpect / 2 <=? avg) in
  let suspiciousAvg := u64 (defaultBatch cfg * 2) in
  let suspiciousAvg := if (0 <? maxClaimBatch cfg) && (u64 (maxClaimBatch cfg * 2) <? suspiciousAvg) then u64 (maxClaimBatch cfg * 2) else suspiciousAvg in
  negb expectOK && (10 <=? AcceptedRanges prev) && (AcceptedRanges prev <=? AcceptedHits prev) && (suspiciousAvg <? avg).

Definition close_expired (k : key) (workerID : string) : act Mgr unit :=
  amod (drop_lease k) ;!; amod (noteWorkerStale workerID) ;!; afail "lease_expired".

(** Whose lease it is, who signs, and whether the lease is alive: [work.go] up to the found checks. *)
Definition enter_checks (E : Draws) (r : Req) : act Mgr (Lease * string) :=
  let k := key_of r in
  let! m := aget in
  match active m !! k with
  | None => afail "unknown_or_already_closed_range"
  | Some rec =>
      aguard (String.eqb (l_worker rec) (WorkerID r)) "range_leased_to_another_worker" ;!;
      aguard (let wid := trim_space (WorkID r) in String.eqb wid "" || String.eqb wid (buildWorkID (WorkerID r) (BaseNonce r) (BatchSize r))) "work_id_mismatch" ;!;
      let! signer := alift (validateHybridSignature cfg (seen m) r) in
      let locked := trim_space (PayoutAddress (stat_of (WorkerID r) m)) in
      aguard (String.eqb signer "" || String.eqb locked "" || equal_fold locked signer) (payoutAddressLockedReason locked signer) ;!;
      (if l_expires rec <? clock E then close_expired k (WorkerID r) else aret tt) ;!;
      charge_worker cfg false (WorkerID r) (clock E) ;!;
      (if (0 <? maxClaimBatch cfg) && (maxClaimBatch cfg <? BatchSize r)
       then amod (λ m, permabanWorker cfg (WorkerID r) "" (drop_lease k m)) ;!; afail "batch_size_too_large" else aret tt) ;!;
      let! m := aget in
      (if Found r && impossible_found_rate m rec r
       then amod (λ m, permabanWorker cfg (WorkerID r) (LastIP (stat_of (WorkerID r) m)) (drop_lease k m)) ;!; afail "impossible_found_rate" else aret tt) ;!;
      aret (rec, signer)
  end.

(** The reported block itself; the key of its result hash. *)
Definition check_found (m : Mgr) (rec : Lease) (signer : string) (leaseMod : Z) (r : Req) : result string :=
  let rangeEnd := u64 (BaseNonce r + BatchSize r) in
  let prev := trim_space (l_prev rec) in let addr := lease_addr rec signer r in
  let fv := lease_formula (tip m) rec in let curTip := trim_space (tipHash (tip m)) in
  let hash := trim_space (to_lower (ResultHash r)) in
  if bool_decide (FoundNonce r ∈ seen_founds (seen m)) then Err "duplicate_found_nonce"
  else if rangeEnd <? BaseNonce r then Err "invalid_nonce_range"
  else if (FoundNonce r <? BaseNonce r) || (rangeEnd <=? FoundNonce r) then Err "found_nonce_out_of_range"
  else if String.eqb (trim_space (ResultHash r)) "" then Err "result_hash_required_for_found"
  else if String.eqb curTip "" then Err "tip_hash_unavailable"
  else if (3 <=? fv) && String.eqb prev "" then Err "prev_hash_required_for_blake3"
  else if (3 <=? fv) && negb (equal_fold prev curTip) then Err "stale_prev_hash"
  else if (3 <=? fv) && String.eqb addr "" then Err "miner_address_required_for_blake3"
  else if negb (validFoundNoncePoH (FoundNonce r) leaseMod fv prev addr) then Err "found_nonce_invalid_for_target_mod"
  else if negb (String.eqb hash "") && bool_decide (hash ∈ seen_hashes (seen m)) then Err "duplicate_result_hash"
  else Ok hash.

Definition relay_enabled : bool := match relayMode cfg with RelayDry | RelayOn => true | _ => false end.
Definition gate_of (signer : string) (r : Req) : Gate :=
  let order := trim_space (OrderTaskID r) in
  if Found r && (WasmGatePass r || negb (String.eqb order "")) then Order
  else if Found r && negb (String.eqb signer "") && relay_enabled then Baseline else Direct.

(** A relay takes the lease out of the open ones before the mutex is given up. *)
Definition submit_enter (E : Draws) (r : Req) : act Mgr (Ticket * Gate) :=
  let! (rec, signer) := enter_checks E r in
  let! m := aget in
  let leaseMod := lease_target (tip m) rec in
  let stale := Found r && foundStaleForLease (tip m) rec in
  let proven := stale && staleFoundProven (tip m) rec r signer leaseMod in
  let r' := if stale then without_found r else r in
  let! hash := alift (if Found r' then check_found m rec signer leaseMod r' else Ok EmptyString) in
  let T := mkTicket r' r rec leaseMod hash signer (proven || Found r') (l_issued rec) false in
  match gate_of signer r' with
  | Direct => aret (T, Direct)
  | g => amod (drop_lease (key_of r)) ;!; aret (T, g)
  end.

(** * After a relay *)

Record Live := mkLive { live_tip : string; live_mod : option Z; mod_min : Z; mod_max : Z }.
Definition clampTargetMod (minM maxM u : Z) : Z := let u := if u <? minM then minM else u in if maxM <? u then maxM else u.

(** The difficulty to relay a baseline block with, or why it is not relayed. *)
Definition baseline_target (t : TipView) (T : Ticket) (probeOK : bool) (snap : OrderSnap) (L : Live) : result Z :=
  let rec := t_lease T in
  let prev := trim_space (l_prev rec) in
  let addr := let a := trim_space (l_addr rec) in if String.eqb a "" then trim_space (t_signer T) else a in
  if negb probeOK && probe_configured cfg then Err "orders_probe_unavailable"
  else if negb (String.eqb (o_id snap) "") then Err "active_order_requires_wasm_found"
  else if String.eqb addr "" then Err "baseline_relay_miner_missing"
  else match relayMode cfg with
       | RelayOn =>
           if negb (String.eqb (live_tip L) "") && negb (String.eqb prev "") && negb (equal_fold prev (live_tip L)) then Err "stale_tip_before_baseline_relay"
           else match live_mod L with
                | Some lm =>
                    if 0 <? lm then
                      let lm := clampTargetMod (mod_min L) (mod_max L) lm in
                      let tip := if String.eqb (live_tip L) "" then prev else live_tip L in
                      if validFoundNoncePoH (FoundNonce (t_req T)) lm (lease_formula t rec) tip addr then Ok lm else Err "found_invalid_for_live_chain_mod"
                    else Ok (t_mod T)
                | None => Ok (t_mod T)
                end
       | _ => Ok (t_mod T)
       end.

Definition restore_lease (k : key) (rec : Lease) (now : Z) (m : Mgr) : Mgr :=
  match active m !! k with
  | Some _ => m
  | None => if now <=? l_expires rec then set_active (λ a, <[k := rec]> a) m else m
  end.

(** The lease a submit goes on with once it is back under the mutex. *)
Definition refetch (k : key) (workerID : string) (now : Z) : act Mgr Lease :=
  let! m := aget in
  match active m !! k with
  | None => afail "unknown_or_already_closed_range"
  | Some rec =>
      aguard (String.eqb (l_worker rec) workerID) "range_leased_to_another_worker" ;!;
      (if l_expires rec <? now then close_expired k workerID else aret tt) ;!;
      aret rec
  end.

(** [minted]: the relay was tried and the node took the block (or would, in a dry run). *)
Definition baseline_resume (E : Draws) (T : Ticket) (minted : bool) : act Mgr Ticket :=
  let r := t_req T in let k := key_of r in
  if minted then
    amod (recordFoundDedupLocked cfg E (FoundNonce r) (t_hash T)) ;!;
    aret (mkTicket r (t_signed T) (t_lease T) (t_mod T) (t_hash T) (t_signer T) (t_credit T) (t_issued T) true)
  else
    amod (restore_lease k (t_lease T) (clock E)) ;!;
    let! rec := refetch k (WorkerID r) (clock E) in
    aret (mkTicket (without_found r) (t_signed T) rec (t_mod T) "" (t_signer T) (t_credit T) (l_issued rec) false).

(** What the order path decides without the mutex: a refusal, or whether the chain took the block. *)
Definition order_verdict (T : Ticket) (snap : OrderSnap) (wasm_gate : OrderSnap → Z → option string)
    (relay : string → Z → Z → string → result unit) : result bool :=
  let r := t_req T in let order := trim_space (OrderTaskID r) in
  let gated := negb (String.eqb (o_id snap) "") && negb (String.eqb (trim_space (o_wasm snap)) "") in
  if gated && negb (WasmGatePass r) then Err "wasm_gate_required"
  else match (if gated then wasm_gate snap (FoundNonce r) else None) with
       | Some why => Err why
       | None =>
           if gated && negb (String.eqb order "") && negb (String.eqb order (o_id snap)) then Err "order_task_mismatch"
           else if Found r && WasmGatePass r && negb (String.eqb order "") && negb (String.eqb (t_signer T) "") && String.eqb (o_id snap) order then
             match relay (t_signer T) (FoundNonce r) (if 0 <? o_mod snap then o_mod snap else t_mod T) order with
             | Ok _ => Ok true
             | Err why => Err ("order_chain_solve_failed:" +:+ why)
             end
           else Ok false
       end.

Definition order_resume (E : Draws) (T : Ticket) (verdict : result bool) : act Mgr Ticket :=
  let r := t_req T in let k := key_of r in
  match verdict with
  | Err why => amod (restore_lease k (t_lease T) (clock E)) ;!; afail why
  | Ok true =>
      amod (recordFoundDedupLocked cfg E (FoundNonce r) (t_hash T)) ;!;
      aret (mkTicket r (t_signed T) (t_lease T) (t_mod T) (t_hash T) (t_signer T) (t_credit T) (l_issued (t_lease T)) true)
  | Ok false =>
      amod (restore_lease k (t_lease T) (clock E)) ;!;
      let! rec := refetch k (WorkerID r) (clock E) in
      let! m := aget in
      aguard (negb (bool_decide (FoundNonce r ∈ seen_founds (seen m)))) "duplicate_found_nonce" ;!;
      aguard (String.eqb (t_hash T) "" || negb (bool_decide (t_hash T ∈ seen_hashes (seen m)))) "duplicate_result_hash" ;!;
      aret (mkTicket r (t_signed T) rec (t_mod T) (t_hash T) (t_signer T) (t_credit T) (l_issued rec) false)
  end.
End submit.
