(* ===== verification/CoordPay.v ===== *)
(** What a submit is paid: the last part of [workManager.submit].

    Sources: cmd/coordinator: work.go (submit, from the verified shares on), found_audit.go, sup_accrual.go.

    Counters that only feed statistics, the durable copy of the accruals and the sample of delivered
    work the pool's difficulty follows are left out; the difficulty itself comes back as
    [loadRetarget].  Uses what [CoordSubmit] hands over in a [Ticket]. *)
From S2P Require Import Prelude Float64 GoText GoNum Json Params Address Retarget CoordShares CoordBase CoordWork CoordSubmit.

Definition with_audits (f : gmap string Audit → gmap string Audit) (p : Pay) : Pay :=
  mkPay (supMeta p) (supDay p) (budget p) (ema p) (f (audits p)) (totalAttempts p) (totalHMC p) (totalSUP p).
Definition with_ema (e : f64) (p : Pay) : Pay :=
  mkPay (supMeta p) (supDay p) (budget p) e (audits p) (totalAttempts p) (totalHMC p) (totalSUP p).
Definition with_budget (b : Budget) (p : Pay) : Pay :=
  mkPay (supMeta p) (supDay p) b (ema p) (audits p) (totalAttempts p) (totalHMC p) (totalSUP p).
Definition with_sup (ms : gmap string SupMeta) (d : SupDay) (p : Pay) : Pay :=
  mkPay ms d (budget p) (ema p) (audits p) (totalAttempts p) (totalHMC p) (totalSUP p).

Section pay.
Context `{ChainParams} `{PoHHash} `{Crypto} `{GoMath} (cfg : WorkCfg).

(** * Shares *)

Definition paid_attempts (r : Req) : Z :=
  let a := if Attempts r =? 0 then BatchSize r else Attempts r in
  clampPaidAttempts cfg (if BatchSize r <? a then BatchSize r else a) (BatchSize r).
Definition share_mod (rec : Lease) (r : Req) : Z :=
  if (l_shareMod rec =? 0) && (2 <=? shareDivisor cfg) then shareModForLease (l_mod rec) (shareDivisor cfg) (BatchSize r) else l_shareMod rec.
(** Formulas without real work count only on a lease issued before the activation of the Blake3 one. *)
Definition weak_formula (t : TipView) (rec : Lease) : bool :=
  (lease_formula t rec <? 3) && ((l_height rec =? 0) || (3 <=? PoHFormulaVersionForIndex (l_height rec + 1))).
Definition valid_shares (t : TipView) (rec : Lease) (signer : string) (r : Req) : list Z :=
  if weak_formula t rec then []
  else validateShareNonces (ShareNonces r) (BaseNonce r) (BatchSize r) (share_mod rec r) (lease_formula t rec)
         (trim_space (l_prev rec)) (lease_addr rec signer r).

Definition share_rate (sm attempts : Z) (n : nat) (r : Req) : act Mgr unit :=
  if negb ((2 <=? shareDivisor cfg) && (0 <? sm) && negb (Found r)) then aret tt
  else
    let! m := aget in
    let ws := stat_of (WorkerID r) m in
    let scanned := if shareStrict cfg then attempts else softShareScanAttempts attempts false in
    let e := f_add (ShareExpected ws) (expectedSharesForMod scanned sm) in
    let acc := u64 (ShareAccepted ws + Z.of_nat n) in
    let judged := f_pos (shareRateMin cfg) && f_leb (shareRateMinExpected cfg) e in
    let low := f_ltb (f_div (f_of_Z acc) e) (shareRateMin cfg) in
    amod (set_workers (λ w, <[WorkerID r := with_shares e acc (if judged then low else ShareRateLow ws) ws]> w)) ;!;
    aguard (negb (judged && low && shareRateReject cfg)) "share_rate_low".

Definition recheck (E : Draws) (t : TipView) (T : Ticket) (useShares : bool) (attempts : Z) : bool :=
  let r := t_req T in let rec := t_lease T in
  negb useShares && negb (Found r) && negb (payoutFoundOnly cfg) && (0 <? attemptRecheckPct cfg) && (0 <? attempts) && roll E
  && leaseHasUnreportedFound (BaseNonce r) attempts (t_mod T) (lease_formula t rec) (trim_space (l_prev rec))
       (lease_addr rec (t_signer T) r) (if attemptRecheckBudget cfg =? 0 then 4096 else attemptRecheckBudget cfg).

(** * The found-rate audit *)

Definition audit_of (k : string) (m : Mgr) : Audit := default no_audit (audits (pay m) !! k).
Definition audit_on : bool := match auditMode cfg with AuditOff => false | _ => true end.
Definition audit_enforced : bool := match auditMode cfg with AuditOn => true | _ => false end.
Definition put_audit (k : string) (a : Audit) (m : Mgr) : Mgr := set_pay (with_audits (<[k := a]>)) m.
Definition noteFoundAuditHit (k : string) (m : Mgr) : Mgr := if audit_on then put_audit k (audit_hit (audit_of k m)) m else m.
Definition undoFoundAuditHit (k : string) (m : Mgr) : Mgr :=
  if audit_on then match audits (pay m) !! k with Some a => put_audit k (audit_undo a) m | None => m end else m.
Definition noteFoundAuditWork (k : string) (n sm leaseMod : Z) : act Mgr bool := λ m,
  if negb audit_on || (n <=? 0) || (sm =? 0) || (leaseMod =? 0) then (Ok false, m)
  else let '(s, a) := audit_work n sm leaseMod (audit_of k m) in (Ok s, put_audit k a m).

Definition audit_gate (T : Ticket) (useShares : bool) (n sm : Z) : act Mgr unit :=
  let k := foundAuditKey (t_signer T) (WorkerID (t_req T)) in
  (if t_credit T then amod (noteFoundAuditHit k) else aret tt) ;!;
  let! low := (if useShares && negb (l_order (t_lease T)) then noteFoundAuditWork k n sm (t_mod T) else aret false) in
  if low && audit_enforced
  then (if t_credit T then amod (undoFoundAuditHit k) else aret tt) ;!; afail "found_rate_too_low_update_miner"
  else aret tt.

(** * Rates and attempts *)

Definition wall_sec (E : Draws) (T : Ticket) : f64 :=
  if (0 <? l_issuedMs (t_lease T)) && (l_issuedMs (t_lease T) <=? clockMs E) then f_div (f_of_Z (clockMs E - l_issuedMs (t_lease T))) (f_of_Z 1000)
  else if (0 <? t_issued T) && (t_issued T <=? clock E) then f_of_Z (clock E - t_issued T) else f0.
Definition honest_rate (t : TipView) (T : Ticket) (useShares : bool) : bool := (3 <=? lease_formula t (t_lease T)) || useShares || shareStrict cfg.
Definition raw_rate (E : Draws) (t : TipView) (T : Ticket) (useShares : bool) (n sm : Z) (prevGH : f64) : f64 :=
  let r := t_req T in
  let reported := clampWorkerHashrateGHS (HashrateGHS r) in
  let wall := wall_sec E T in
  if honest_rate t T useShares then
    let wallGH := honestWallHashrateGHS (BatchSize r) wall prevGH in
    let raw := if (0 <? n) && (0 <? sm) then shareImpliedGHS n sm wall else f0 in
    let raw := if f_leb raw f0 && f_leb (lit 5 100) wall && f_pos wallGH then wallGH else raw in
    let raw := if f_pos reported && f_ltb (f_mul reported (lit 135 100)) raw && f_leb (lit 5 10) reported then reported else raw in
    if Found r && (n =? 0) && f_pos raw && f_ltb prevGH (lit 5 10) then f0 else raw
  else workerHashrateGHSForSubmit reported (BatchSize r) (t_issued T) (clock E) (l_issuedMs (t_lease T)) (clockMs E) prevGH (lease_formula t (t_lease T)).
Definition credited_rate (E : Draws) (t : TipView) (T : Ticket) (useShares : bool) (n sm : Z) (prevGH : f64) : f64 :=
  let raw := raw_rate E t T useShares n sm prevGH in
  let gh := smoothWorkerHashrateGHS prevGH raw in
  let honest := honest_rate t T useShares in
  let gh := if honest && f_pos raw && f_leb (f_of_Z 10) prevGH && (f_ltb (f_mul raw (f_of_Z 20)) prevGH || f_ltb raw (lit 5 100)) then raw else gh in
  if negb honest && Found (t_req T) && f_leb (clampWorkerHashrateGHS (HashrateGHS (t_req T))) f0 then f0 else gh.

Definition credited_attempts (E : Draws) (T : Ticket) (useShares : bool) (attempts n sm : Z) (gh : f64) : Z :=
  let batch := BatchSize (t_req T) in
  if useShares then clampPaidAttempts cfg (if 0 <? u64 (n * sm) then u64 (n * sm) else attempts) batch
  else if shareStrict cfg then 0
  else
    let a :=
      if f_pos gh then
        let ia := if t_issued T <=? 0 then clock E - leaseSec cfg else t_issued T in
        let elapsed := let e := f_of_Z (clock E - ia) in if f_ltb e (lit 25 100) then lit 25 100 else e in
        let maxCred := f_trunc (f_mul (f_mul (f_mul gh f1e9) elapsed) (lit 115 100)) in
        if (0 <? maxCred) && (maxCred <? attempts) then maxCred else attempts
      else 0 in
    clampPaidAttempts cfg a batch.

(** * The payout *)

Definition attempt_pay (t : TipView) (paid : Z) : f64 := f_mul (f_div (f_of_Z paid) (f_of_Z 1000000)) (rewardPerM t).
(** Before its limits, with the price average it leaves. *)
Definition gross_payout (t : TipView) (T : Ticket) (useShares : bool) (valid : list Z) (sm paid : Z) (e : f64) : f64 * f64 * f64 :=
  let r := t_req T in
  let bonus := Found r && negb (t_chain T) in
  if useShares then
    let '(price, e) := observeSharePrice cfg e (baseRewardHMC t) (l_mod (t_lease T)) sm in
    let work := UnitsToHMC (u64 (Z.of_nat (length valid) * price)) in
    (if bonus && negb (bool_decide (FoundNonce r ∈ valid)) then f_add work (foundBonus cfg) else work, work, e)
  else if shareStrict cfg then (if bonus then foundBonus cfg else f0, f0, e)
  else (if bonus then f_add (attempt_pay t paid) (foundBonus cfg) else attempt_pay t paid, attempt_pay t paid, e).
Definition capped_payout (t : TipView) (batch : Z) (gross : f64) : f64 :=
  f_min (f_max0 gross) (maxSubmitHMCForBatch cfg (targetMod t) (baseRewardHMC t) (rewardPerM t) batch).

Definition credit_stat (E : Draws) (t : TipView) (T : Ticket) (attempts : Z) (gh payout sup : f64) (s : WStat) : WStat :=
  let r := t_req T in let signed := negb (String.eqb (t_signer T) "") in
  mkWStat (u64 (AcceptedRanges s + 1)) (if Found r then u64 (AcceptedHits s + 1) else AcceptedHits s) (u64 (AcceptedAtt s + attempts))
    (f_add (PayoutHMC s) payout) (u64 (PayoutUnits s + HMCToUnits payout)) (if f_pos sup then f_add (PayoutSUP s) sup else PayoutSUP s)
    (if signed && String.eqb (trim_space (PayoutAddress s)) "" then t_signer T else PayoutAddress s)
    (if signed then u64 (SignedSubmits s + 1) else SignedSubmits s)
    (if f_pos gh then gh else LastGHS s)
    (if f_pos gh then
       if f_ltb (PeakGHS s) gh then gh
       else if (3 <=? lease_formula t (t_lease T)) && f_ltb (f_mul gh (f_of_Z 20)) (PeakGHS s) then gh else PeakGHS s
     else PeakGHS s)
    (clock E) (if f_pos gh then clock E else LastPoHSeen s) (LastIP s) (ShareExpected s) (ShareAccepted s) (ShareRateLow s).

(** SUP for the work that was credited. *)
Definition accrue_sup (E : Draws) (workerID signer : string) (work : f64) (m : Mgr) : f64 * Mgr :=
  let t := tip m in
  let '(sup, meta, d) := computeSUPAccrual (supPolicy cfg) (supV2Ratio (supPerBlock t) (baseRewardHMC t)) (supAdminMintRetired t)
      (abuse m !! workerID) workerID work (negb (String.eqb signer "")) (clock E) (default no_sup_meta (supMeta (pay m) !! workerID)) (supDay (pay m)) in
  (sup, set_pay (λ p, with_sup (if f_pos sup then <[workerID := meta]> (supMeta p) else supMeta p) d p) m).

(** * From the shares to the end *)

(** The refusals that leave the lease open. *)
Definition pay_checks (E : Draws) (T : Ticket) : act Mgr (list Z * bool) :=
  let r := t_req T in
  let! m := aget in
  let sm := share_mod (t_lease T) r in
  let valid := valid_shares (tip m) (t_lease T) (t_signer T) r in
  let attempts := paid_attempts r in
  aguard (negb ((2 <=? shareDivisor cfg) && shareStrict cfg && bool_decide (valid = []) && negb (Found r))) "shares_required" ;!;
  let useShares := shareStrict cfg && (2 <=? shareDivisor cfg) && negb (bool_decide (valid = [])) in
  share_rate sm attempts (length valid) r ;!;
  aguard (negb (recheck E (tip m) T useShares attempts)) "missed_found_unreported" ;!;
  audit_gate T useShares (Z.of_nat (length valid)) sm ;!;
  aret (valid, useShares).

(** The lease is closed and what must not be accepted twice is remembered. *)
Definition consume (E : Draws) (T : Ticket) (m : Mgr) : Mgr :=
  let r := t_req T in
  let m := drop_lease (key_of r) m in
  let m := if String.eqb (t_signer T) "" then m else set_seen (record_signed cfg (picks E) (t_signer T) (t_signed T)) m in
  if Found r && negb (t_chain T) then recordFoundDedupLocked cfg E (FoundNonce r) (t_hash T) m else m.

Definition credit (E : Draws) (T : Ticket) (valid : list Z) (useShares : bool) : act Mgr f64 := λ m,
  let r := t_req T in let w := WorkerID r in let t := tip m in
  let sm := share_mod (t_lease T) r in let n := Z.of_nat (length valid) in
  let gh := credited_rate E t T useShares n sm (LastGHS (stat_of w m)) in
  let attempts := credited_attempts E T useShares (paid_attempts r) n sm gh in
  let paid := if payoutFoundOnly cfg && negb (Found r) then 0 else attempts in
  let '(gross, work, e) := gross_payout t T useShares valid sm paid (ema (pay m)) in
  let '(payout, b) := applyPoolDailyBudget cfg (baseRewardHMC t) (capped_payout t (BatchSize r) gross) (clock E) (budget (pay m)) in
  let m := set_pay (λ p, with_budget b (with_ema e p)) m in
  let '(sup, m) := accrue_sup E w (t_signer T) (f_min work payout) m in
  let s := stat_of (trim_space w) m in
  let m := if negb (String.eqb (t_signer T) "") && String.eqb (trim_space (PayoutAddress s)) "" then persistPayoutLock w (t_signer T) m else m in
  let m := set_workers (<[w := credit_stat E t T attempts gh payout sup s]>) m in
  let m := set_pay (add_totals payout (if f_pos sup then sup else f0) attempts) m in
  (Ok payout, set_tip (λ t, set_mod (rewardAuto cfg) (loadRetarget E (targetMod t)) t) m).

Definition submit_pay (E : Draws) (T : Ticket) : act Mgr f64 :=
  let! (valid, useShares) := pay_checks E T in
  amod (consume E T) ;!;
  credit E T valid useShares.

(** * The whole call *)

(** [workManager.submit] without anything coming in between; [minted] and [verdict] are the outcome of the relay. *)
Definition submit (E E' : Draws) (minted : Ticket → bool) (verdict : Ticket → result bool) (r : Req) : act Mgr f64 :=
  let! (T, g) := submit_enter cfg E r in
  match g with
  | Direct => submit_pay E T
  | Baseline => let! T' := baseline_resume cfg E' T (minted T) in submit_pay E' T'
  | Order => let! T' := order_resume cfg E' T (verdict T) in submit_pay E' T'
  end.

(** What the handler does when [submit] is back. *)
Definition submit_done (E : Draws) (r : Req) (ip : string) (res : result f64) (m : Mgr) : Mgr :=
  let m := markSubmitOutcome cfg (WorkerID r) ip (match res with Ok _ => EmptyString | Err why => why end) (clock E) m in
  match res with Ok _ => noteWorkerClientIP (WorkerID r) ip (clock E) m | Err _ => m end.
Definition handle_submit (E E' : Draws) (minted : Ticket → bool) (verdict : Ticket → result bool) (ip : string) (r : Req) : act Mgr f64 :=
  allow_peer cfg false (WorkerID r) ip (clock E) ;!;
  λ m, let '(res, m) := submit E E' minted verdict r m in (res, submit_done E r ip res m).
End pay.
