(* ===== verification/CoordSafe.v ===== *)
(** The work coordinator over time: its critical sections in any order, with the submits that wait for a relay.

    Sources: cmd/coordinator/work.go, abuse_guard.go.

    [step] is one critical section; a submit that relays leaves its [Ticket] in flight between two of
    them.  [shrinks] is what every operation but a fresh claim does to the open leases. *)
From S2P Require Import Prelude Float64 GoText GoNum Json Params Address Retarget CoordShares CoordBase CoordWork CoordSubmit CoordPay.

(** * What an operation does to the open leases *)

Definition shrinks (m m' : Mgr) : Prop := nextNonce m' = nextNonce m ∧ dom (active m') ⊆ dom (active m).
#[global] Instance shrinks_preorder : PreOrder shrinks.
Proof. split; [by intros m|intros m1 m2 m3 [] []; split; [congruence|set_solver]]. Qed.
Lemma shrinks_same m m' : nextNonce m' = nextNonce m → active m' = active m → shrinks m m'.
Proof. intros H1 H2. split; [done|]. by rewrite H2. Qed.

Create HintDb coord.
#[export] Hint Extern 0 (shrinks ?m ?m) => reflexivity : coord.

(** Setters: everything but [set_next] and [set_active] keeps the leases. *)
Ltac keep_same := intros; apply shrinks_same; reflexivity.
Lemma shrinks_tip f m : shrinks m (set_tip f m). Proof. keep_same. Qed.
Lemma shrinks_workers f m : shrinks m (set_workers f m). Proof. keep_same. Qed.
Lemma shrinks_seen f m : shrinks m (set_seen f m). Proof. keep_same. Qed.
Lemma shrinks_pay f m : shrinks m (set_pay f m). Proof. keep_same. Qed.
Lemma shrinks_abuse f m : shrinks m (set_abuse f m). Proof. keep_same. Qed.
Lemma shrinks_ip f m : shrinks m (set_ipAbuse f m). Proof. keep_same. Qed.
Lemma shrinks_prune t m : shrinks m (set_prune t m). Proof. keep_same. Qed.
Lemma shrinks_locks f m : shrinks m (set_locks f m). Proof. keep_same. Qed.
Lemma shrinks_active f m : dom (f (active m)) ⊆ dom (active m) → shrinks m (set_active f m).
Proof. by split. Qed.
Lemma shrinks_drop k m : shrinks m (drop_lease k m).
Proof. apply shrinks_active. set_solver. Qed.
#[export] Hint Resolve shrinks_tip shrinks_workers shrinks_seen shrinks_pay shrinks_abuse shrinks_ip shrinks_prune shrinks_locks shrinks_drop : coord.

(** A chain of setters, with case distinctions. *)
Ltac keep :=
  repeat (progress cbv zeta || case_match); simplify_eq;
  repeat first [ solve [auto with coord]
               | match goal with |- shrinks ?m (?f ?x ?m1) => etrans; [|solve [auto with coord]] end
               | match goal with |- shrinks ?m (?f ?m1) => etrans; [|solve [auto with coord]] end ].

Lemma shrinks_on_lease k f m : shrinks m (on_lease k f m).
Proof. unfold on_lease. case_match eqn:E; [|done]. apply shrinks_active. apply elem_of_dom_2 in E. set_solver. Qed.
Lemma shrinks_purge now m : shrinks m (purgeExpiredLeases now m).
Proof. apply shrinks_active, dom_filter_subseteq. Qed.
Lemma shrinks_persist w a m : shrinks m (persistPayoutLock w a m).
Proof. unfold persistPayoutLock. keep. Qed.
#[export] Hint Resolve shrinks_on_lease shrinks_purge shrinks_persist : coord.
Lemma shrinks_note_lock cfg w a m : shrinks m (notePayoutLock cfg w a m).
Proof. unfold notePayoutLock. keep. Qed.
#[export] Hint Resolve shrinks_note_lock : coord.
Lemma shrinks_bind_pub `{Crypto} cfg w p m : shrinks m (bindClaimPayoutFromPub cfg w p m).
Proof. unfold bindClaimPayoutFromPub. keep. Qed.
Lemma shrinks_permaban cfg w ip m : shrinks m (permabanWorker cfg w ip m).
Proof. unfold permabanWorker. keep. Qed.
Lemma shrinks_prune_abuse now m : shrinks m (pruneAbuseState now m).
Proof. unfold pruneAbuseState. keep. Qed.
Lemma shrinks_outcome cfg w ip why now m : shrinks m (markSubmitOutcome cfg w ip why now m).
Proof. unfold markSubmitOutcome. keep. Qed.
Lemma shrinks_stale w m : shrinks m (noteWorkerStale w m).
Proof. unfold noteWorkerStale. keep. Qed.
Lemma shrinks_client_ip w ip now m : shrinks m (noteWorkerClientIP w ip now m).
Proof. unfold noteWorkerClientIP. keep. Qed.
#[export] Hint Resolve shrinks_bind_pub shrinks_permaban shrinks_prune_abuse shrinks_outcome shrinks_stale shrinks_client_ip : coord.
Lemma shrinks_revoke cfg w ip ban m : shrinks m (revokeWorker cfg w ip ban m).
Proof.
  unfold revokeWorker. cbv zeta. destruct (String.eqb _ _); [done|]. case_match; [|keep].
  trans (set_workers (delete (trim_space w)) (set_active (filter (λ p, l_worker p.2 ≠ trim_space w)) (set_pay (drop_totals w0 true) m))).
  - etrans; [|apply shrinks_workers]. etrans; [apply shrinks_pay|]. apply shrinks_active, dom_filter_subseteq.
  - keep.
Qed.
Lemma shrinks_prune_workers pre sec ign now m : shrinks m (pruneStaleWorkers pre sec ign now m).
Proof.
  unfold pruneStaleWorkers. generalize (filter (λ p, prunable (trim_space pre) sec ign now m p = true) (map_to_list (workers m))).
  intros l. revert m. induction l as [|p l IH]; intros m; [done|]. cbn. etrans; [|apply IH]. unfold prune_one. keep.
Qed.
Lemma shrinks_found `{Crypto} cfg E n h m : shrinks m (recordFoundDedupLocked cfg E n h m).
Proof. unfold recordFoundDedupLocked. keep. Qed.
#[export] Hint Resolve shrinks_revoke shrinks_prune_workers shrinks_found : coord.

(** ** Of monadic operations *)

Definition keeps {A} (a : act Mgr A) : Prop := ∀ m, shrinks m (after a m).
Lemma keeps_ret {A} (x : A) : keeps (aret x). Proof. done. Qed.
Lemma keeps_fail {A} e : keeps (A := A) (afail e). Proof. done. Qed.
Lemma keeps_get : keeps aget. Proof. done. Qed.
Lemma keeps_guard b e : keeps (aguard b e). Proof. by destruct b. Qed.
Lemma keeps_lift {A} (r : result A) : keeps (alift r). Proof. done. Qed.
Lemma keeps_mod f : (∀ m, shrinks m (f m)) → keeps (amod f). Proof. intros Hf m. apply Hf. Qed.
Lemma keeps_bind {A B} (a : act Mgr A) (f : A → act Mgr B) : keeps a → (∀ x, keeps (f x)) → keeps (abind a f).
Proof.
  intros Ha Hf m. unfold after, abind. specialize (Ha m). unfold after in Ha. destruct (a m) as [[x|e] m1]; cbn in *; [|done].
  etrans; [exact Ha|apply Hf].
Qed.
Ltac keeps :=
  repeat first
    [ apply keeps_ret | apply keeps_fail | apply keeps_get | apply keeps_guard | apply keeps_lift
    | solve [auto with coord]
    | apply keeps_mod; intros; solve [auto with coord | keep]
    | apply keeps_bind; [|intros]
    | case_match ].

Lemma keeps_at {A} (a : act Mgr A) m r m' : keeps a → a m = (r, m') → shrinks m m'.
Proof. intros Ha E. specialize (Ha m). unfold after in Ha. by rewrite E in Ha. Qed.
Section ops.
Context `{ChainParams} `{PoHHash} `{Crypto} `{GoMath} (cfg : WorkCfg).

Lemma keeps_locked w : keeps (lockedPayoutAddress w).
Proof. intros m. unfold lockedPayoutAddress, after. cbv zeta. repeat case_match; cbn [snd]; auto with coord. Qed.
Lemma keeps_identity w p h : keeps (checkMinerIdentity cfg w p h).
Proof. unfold checkMinerIdentity. apply keeps_bind; [apply keeps_locked|intros]. keeps. Qed.
Lemma keeps_unlock w : keeps (clearPayoutLock w).
Proof. unfold clearPayoutLock. cbv zeta. case_match; [keeps|]. apply keeps_bind; [apply keeps_locked|intros]. keeps. Qed.
Lemma keeps_charge b w now : keeps (charge_worker cfg b w now).
Proof. unfold charge_worker. keeps. Qed.
Lemma keeps_peer b w ip now : keeps (allow_peer cfg b w ip now).
Proof. unfold allow_peer. keeps. Qed.
#[local] Hint Resolve keeps_charge : coord.

(** ** Submitting *)

Lemma enter_checks_keeps E r : keeps (enter_checks cfg E r).
Proof. unfold enter_checks, close_expired. keeps. Qed.
Lemma enter_checks_ok E r m rec signer m' :
  enter_checks cfg E r m = (Ok (rec, signer), m') →
  active m !! key_of r = Some rec ∧ l_worker rec = WorkerID r ∧ clock E ≤ l_expires rec ∧ active m' = active m ∧
  validateHybridSignature cfg (seen m) r = Ok signer.
Proof.
  unfold enter_checks. intros Hrun. run_ok. destruct (active m !! key_of r) as [rec'|] eqn:Erec; [|done]. run_ok.
  destruct (l_expires rec' <? clock E) eqn:Eexp; unfold close_expired in *; run_ok.
  assert (Hch : ∀ b w now p x q, charge_worker cfg b w now p = (Ok x, q) → active q = active p).
  { clear. intros b w now p x q. unfold charge_worker. destruct (_ <=? 0); intros; run_ok; [done|].
    destruct (allowRateSlot _ _ _ _) as [s ok]. run_ok. destruct s; cbn. unfold pruneAbuseState. by destruct (now - lastPrune p <? 60). }
  match goal with Hc : charge_worker _ _ _ _ _ = _ |- _ => apply Hch in Hc end. destruct (_ && (maxClaimBatch cfg <? BatchSize r)); run_ok.
  destruct (Found r && _); run_ok. simplify_eq.
  split; [done|]. split; [by apply String.eqb_eq|]. split; [lia|]. done.
Qed.

Lemma submit_enter_keeps E r : keeps (submit_enter cfg E r).
Proof.
  unfold submit_enter. apply keeps_bind; [apply enter_checks_keeps|intros [rec signer]]. apply keeps_bind; [keeps|intros m].
  apply keeps_bind; [apply keeps_lift|intros h]. case_match; keeps.
Qed.
Lemma gate_found signer r : gate_of cfg signer r ≠ Direct → Found r = true.
Proof. unfold gate_of. by destruct (Found r). Qed.
Lemma key_without_found r : key_of (without_found r) = key_of r.
Proof. done. Qed.
(** What the ticket of a submit past its checks says. *)
Lemma submit_enter_ok E r m T g m' :
  submit_enter cfg E r m = (Ok (T, g), m') →
  active m !! key_of r = Some (t_lease T) ∧ l_worker (t_lease T) = WorkerID r ∧ key_of (t_req T) = key_of r ∧
  WorkerID (t_req T) = WorkerID r ∧ active m' = match g with Direct => active m | _ => delete (key_of r) (active m) end ∧
  ShareNonces (t_req T) = ShareNonces r.
Proof.
  unfold submit_enter. intros Hrun. run_ok. destruct x as [rec signer]. run_ok.
  match goal with Hc : enter_checks _ _ _ _ = _ |- _ => apply enter_checks_ok in Hc as (Hl & Hw & _ & Ha & _) end.
  set (r' := if Found r && foundStaleForLease (tip _) rec then without_found r else r) in *.
  assert (key_of r' = key_of r ∧ WorkerID r' = WorkerID r ∧ ShareNonces r' = ShareNonces r) as (Hk & Hw' & Hs) by (unfold r'; by destruct (Found r && _)).
  destruct (gate_of cfg signer r'); run_ok; simplify_eq; cbn; rewrite ?Ha; unfold key_of in *; split_and!; congruence.
Qed.

Lemma refetch_keeps k w now : keeps (refetch k w now).
Proof. unfold refetch, close_expired. keeps. Qed.
Lemma refetch_ok k w now m rec m' :
  refetch k w now m = (Ok rec, m') → active m !! k = Some rec ∧ l_worker rec = w ∧ m' = m.
Proof.
  unfold refetch, close_expired. intros Hrun. run_ok. destruct (active m !! k) as [rec'|] eqn:E; [|done]. run_ok.
  destruct (l_expires rec' <? now); run_ok. simplify_eq. split; [done|]. split; [by apply String.eqb_eq|done].
Qed.
(** ** Paying *)

Lemma keeps_audit_gate T u n sm : keeps (audit_gate cfg T u n sm).
Proof.
  unfold audit_gate, noteFoundAuditWork, put_audit.
  assert (∀ k, keeps (amod (noteFoundAuditHit cfg k))) by (intros k; apply keeps_mod; intros; unfold noteFoundAuditHit, put_audit; keep).
  assert (∀ k, keeps (amod (undoFoundAuditHit cfg k))) by (intros k; apply keeps_mod; intros; unfold undoFoundAuditHit, put_audit; keep).
  apply keeps_bind; [case_match; [done|keeps]|intros _]. apply keeps_bind; [|intros low; repeat case_match; keeps].
  case_match; [|keeps]. intros m. unfold after. case_match; cbn; [done|]. case_match; cbn. auto with coord.
Qed.
Lemma keeps_share_rate sm a n r : keeps (share_rate cfg sm a n r).
Proof. unfold share_rate. keeps. Qed.
#[local] Hint Resolve keeps_audit_gate keeps_share_rate : coord.
Lemma pay_checks_keeps E T : keeps (pay_checks cfg E T).
Proof. unfold pay_checks. cbv zeta. keeps. Qed.

Lemma accrue_sup_same E w sg f m : (accrue_sup cfg E w sg f m).2 = set_pay (λ p, pay (accrue_sup cfg E w sg f m).2) m.
Proof. unfold accrue_sup. cbv zeta. by case_match; case_match. Qed.
Lemma credit_same E T v u m : ∃ m', credit cfg E T v u m = (Ok (default f0 (match answer (credit cfg E T v u) m with Ok p => Some p | _ => None end)), m')
  ∧ active m' = active m ∧ nextNonce m' = nextNonce m.
Proof.
  unfold credit, answer. cbv zeta. destruct (gross_payout _ _ _ _ _ _ _ _) as [[gross work] e].
  destruct (applyPoolDailyBudget _ _ _ _ _) as [payout b].
  destruct (accrue_sup _ _ _ _ _ _) as [sup m1] eqn:Ea. cbn.
  assert (active m1 = active m ∧ nextNonce m1 = nextNonce m) as [Ha Hn].
  { pose proof (accrue_sup_same E (WorkerID (t_req T)) (t_signer T) (f_min work payout) (set_pay (λ p, with_budget b (with_ema e p)) m)) as Hs.
    rewrite Ea in Hs. cbn in Hs. rewrite Hs. done. }
  eexists. split; [reflexivity|]. unfold persistPayoutLock. by repeat case_match; cbn; rewrite ?Ha, ?Hn.
Qed.
Lemma consume_active E T m : dom (active (consume cfg E T m)) ⊆ dom (active m) ∖ {[ key_of (t_req T) ]} ∧ nextNonce (consume cfg E T m) = nextNonce m.
Proof.
  unfold consume.
  set (m1 := if String.eqb (t_signer T) "" then drop_lease (key_of (t_req T)) m else _).
  assert (dom (active m1) = dom (active m) ∖ {[ key_of (t_req T) ]} ∧ nextNonce m1 = nextNonce m) as [Hd Hn].
  { unfold m1. destruct (String.eqb _ _); cbn; by rewrite dom_delete_L. }
  fold m1. case_match; [|by rewrite Hd].
  destruct (shrinks_found cfg E (FoundNonce (t_req T)) (t_hash T) m1) as [Hn' Hd']. rewrite <- Hd, Hn'; done.
Qed.
(** Whatever it answers, a submit only closes leases; paying closes its own. *)
Lemma submit_pay_keeps E T : keeps (submit_pay cfg E T).
Proof.
  unfold submit_pay. apply keeps_bind; [apply pay_checks_keeps|intros [v u]]. apply keeps_bind.
  - apply keeps_mod. intros m. destruct (consume_active E T m). split; [done|set_solver].
  - intros _ m. destruct (credit_same E T v u m) as (m' & Hc & Ha & Hn). unfold after. rewrite Hc. by apply shrinks_same.
Qed.
Lemma submit_pay_ok E T m v m' : submit_pay cfg E T m = (Ok v, m') → key_of (t_req T) ∉ dom (active m').
Proof.
  unfold submit_pay. intros Hrun. run_ok. destruct x as [valid u]. run_ok.
  match type of Hrun with credit _ _ _ _ _ ?q = _ => destruct (credit_same E T valid u q) as (m2 & Hc & Ha & _); rewrite Hc in Hrun;
    injection Hrun as _ <-; rewrite Ha; destruct (consume_active E T m0); set_solver end.
Qed.

(** ** Coming back from a relay *)

(** A refused submit may put its own lease back. *)
Definition restores (k : key) (m m' : Mgr) : Prop := nextNonce m' = nextNonce m ∧ dom (active m') ⊆ {[ k ]} ∪ dom (active m).
Definition keeps_but {A} (k : key) (a : act Mgr A) : Prop := ∀ m, restores k m (after a m).
Lemma keeps_keeps_but {A} k (a : act Mgr A) : keeps a → keeps_but k a.
Proof. intros Ha m. destruct (Ha m). split; [done|set_solver]. Qed.
Lemma keeps_but_bind {A B} k (a : act Mgr A) (f : A → act Mgr B) : keeps_but k a → (∀ x, keeps_but k (f x)) → keeps_but k (abind a f).
Proof.
  intros Ha Hf m. unfold after, abind. destruct (Ha m) as [Hn Hd]. unfold after in *. destruct (a m) as [[x|e] m1]; cbn in *; [|done].
  destruct (Hf x m1) as [Hn' Hd']. unfold after in *. split; [congruence|set_solver].
Qed.
Lemma keeps_but_restore k rec now : keeps_but k (amod (restore_lease k rec now)).
Proof.
  intros m. unfold restore_lease, after. cbn. case_match; [split; set_solver|]. case_match; [|split; set_solver].
  split; [done|]. cbn. set_solver.
Qed.
Lemma baseline_resume_but E T b : keeps_but (key_of (t_req T)) (baseline_resume cfg E T b).
Proof.
  unfold baseline_resume. cbv zeta. destruct b; [apply keeps_keeps_but; keeps|].
  apply keeps_but_bind; [apply keeps_but_restore|intros _]. apply keeps_keeps_but, keeps_bind; [apply refetch_keeps|intros; keeps].
Qed.
Lemma order_resume_but E T v : keeps_but (key_of (t_req T)) (order_resume cfg E T v).
Proof.
  unfold order_resume. cbv zeta. destruct v as [[]|why]; [apply keeps_keeps_but; keeps| |];
    (apply keeps_but_bind; [apply keeps_but_restore|intros _]; apply keeps_keeps_but); [|keeps].
  apply keeps_bind; [apply refetch_keeps|intros; keeps].
Qed.
Lemma baseline_resume_req E T b m T' m' :
  baseline_resume cfg E T b m = (Ok T', m') →
  key_of (t_req T') = key_of (t_req T) ∧ WorkerID (t_req T') = WorkerID (t_req T) ∧
  ShareNonces (t_req T') = ShareNonces (t_req T) ∧ (t_lease T' = t_lease T ∨ active m' !! key_of (t_req T) = Some (t_lease T')).
Proof.
  unfold baseline_resume. intros Hrun. destruct b; run_ok; [subst; by auto|].
  match goal with Hc : refetch _ _ _ _ = _ |- _ => apply refetch_ok in Hc as (Hl & Hw & ->) end. subst. cbn. by auto.
Qed.
Lemma order_resume_req E T v m T' m' :
  order_resume cfg E T v m = (Ok T', m') →
  key_of (t_req T') = key_of (t_req T) ∧ WorkerID (t_req T') = WorkerID (t_req T) ∧
  ShareNonces (t_req T') = ShareNonces (t_req T) ∧ (t_lease T' = t_lease T ∨ active m' !! key_of (t_req T) = Some (t_lease T')).
Proof.
  unfold order_resume. intros Hrun. destruct v as [[]|why]; run_ok; [subst; by auto|].
  match goal with Hc : refetch _ _ _ _ = _ |- _ => apply refetch_ok in Hc as (Hl & Hw & ->) end. subst. cbn. by auto.
Qed.

(** ** Claiming *)

(** A claim hands out an open range again, or one past all ranges so far. *)
Lemma adapt_pos w b m : 0 < defaultBatch cfg → 0 < adaptClaimBatch cfg w b m.
Proof. intros Hd. unfold adaptClaimBatch. cbv zeta. repeat case_match; lia. Qed.
Definition fresh_range (m m' : Mgr) : Prop := ∃ base size,
  nextNonce m ≤ base ∧ 0 < size ∧ nextNonce m' = base + size ∧ dom (active m') ⊆ {[ (base, size) ]} ∪ dom (active m).
Lemma claim_shape P refresh start nowMs now w b m :
  0 < defaultBatch cfg → 0 ≤ start →
  shrinks m (after (claim cfg P refresh start nowMs now w b) m) ∨ fresh_range m (after (claim cfg P refresh start nowMs now w b) m).
Proof.
  intros Hd Hs. unfold claim, abind, aget, amod, afail, aret, after. cbv zeta.
  repeat match goal with |- context [if ?c then _ else _] => destruct c; [left; first [done|apply shrinks_tip]|] end.
  set (size := adaptClaimBatch cfg w b m). set (m1 := set_tip refresh m).
  change (nextNonce m1) with (nextNonce m). set (base := if nextNonce m =? 0 then start else nextNonce m).
  destruct (any_of (pick_key P) (expired_of size now m1)) as [k|]; [left|].
  - destruct (active m1 !! k) as [r|] eqn:Er; [|done]. apply elem_of_dom_2 in Er. split; [done|]. cbn in *. set_solver.
  - destruct (two64 - 1 - base <? size); [left; cbn; etrans; [apply (shrinks_tip refresh)|apply shrinks_purge]|right].
    exists base, size. split; [unfold base; destruct (Z.eqb_spec (nextNonce m) 0); lia|]. split; [by apply adapt_pos|]. split; [done|].
    cbn. pose proof (dom_filter_subseteq (λ p : key * Lease, now < l_expires p.2) (active m)). set_solver.
Qed.
End ops.

(** * The coordinator as a transition system *)

(** A paid submit: its range and the shares it was paid for. *)
Record Paid := mkPaid { p_key : key; p_worker : string; p_shares : list Z; p_hmc : f64 }.
Record Sys := mkSys { mgr : Mgr; flight : list (Ticket * Gate); paid : list Paid }.

Section system.
Context `{ChainParams} `{PoHHash} `{Crypto} `{GoMath} (cfg : WorkCfg).

Definition paid_for (T : Ticket) (E : Draws) (m : Mgr) (v : f64) : Paid :=
  mkPaid (key_of (t_req T)) (WorkerID (t_req T)) (valid_shares cfg (tip m) (t_lease T) (t_signer T) (t_req T)) v.

(** The rest of a submit that comes back: its outcome is [minted] or the verdict of the order path. *)
Inductive Outcome := Minted (b : bool) | Verdict (v : result bool).
Definition resume (E : Draws) (T : Ticket) (o : Outcome) : act Mgr Ticket :=
  match o with Minted b => baseline_resume cfg E T b | Verdict v => order_resume cfg E T v end.
Definition outcome_ok (g : Gate) (o : Outcome) : bool :=
  match g, o with Baseline, Minted _ | Order, Verdict _ => true | _, _ => false end.

Inductive step : Sys → Sys → Prop :=
(** [claim], at any time and whatever the node answers *)
| step_claim P refresh start nowMs now w b s : 0 ≤ start →
    step s (mkSys (after (claim cfg P refresh start nowMs now w b) (mgr s)) (flight s) (paid s))
(** the handler's stamps on the lease it just gave out, and its withdrawal *)
| step_stamp k f s : step s (mkSys (on_lease k f (mgr s)) (flight s) (paid s))
| step_drop k s : step s (mkSys (drop_lease k (mgr s)) (flight s) (paid s))
(** identity, bans and rates, bookkeeping of the handlers, the admin's interventions, the view of the node *)
| step_identity w p h s : step s (mkSys (after (checkMinerIdentity cfg w p h) (mgr s)) (flight s) (paid s))
| step_bind w p s : step s (mkSys (bindClaimPayoutFromPub cfg w p (mgr s)) (flight s) (paid s))
| step_peer b w ip now s : step s (mkSys (after (allow_peer cfg b w ip now) (mgr s)) (flight s) (paid s))
| step_charge b w now s : step s (mkSys (after (charge_worker cfg b w now) (mgr s)) (flight s) (paid s))
| step_ip w ip now s : step s (mkSys (noteWorkerClientIP w ip now (mgr s)) (flight s) (paid s))
| step_done E r ip res s : step s (mkSys (submit_done cfg E r ip res (mgr s)) (flight s) (paid s))
| step_unlock w s : step s (mkSys (after (clearPayoutLock w) (mgr s)) (flight s) (paid s))
| step_revoke w ip ban s : step s (mkSys (revokeWorker cfg w ip ban (mgr s)) (flight s) (paid s))
| step_prune pre sec ign now s : step s (mkSys (pruneStaleWorkers pre sec ign now (mgr s)) (flight s) (paid s))
| step_tip f s : step s (mkSys (set_tip f (mgr s)) (flight s) (paid s))
(** a submit that is refused, goes to a relay, or is paid at once *)
| step_refused E r why m' s : submit_enter cfg E r (mgr s) = (Err why, m') → step s (mkSys m' (flight s) (paid s))
| step_relay E r T g m' s : submit_enter cfg E r (mgr s) = (Ok (T, g), m') → g ≠ Direct → step s (mkSys m' ((T, g) :: flight s) (paid s))
| step_unpaid E r T m1 why m' s : submit_enter cfg E r (mgr s) = (Ok (T, Direct), m1) → submit_pay cfg E T m1 = (Err why, m') →
    step s (mkSys m' (flight s) (paid s))
| step_paid E r T m1 v m' s : submit_enter cfg E r (mgr s) = (Ok (T, Direct), m1) → submit_pay cfg E T m1 = (Ok v, m') →
    step s (mkSys m' (flight s) (paid_for T E m1 v :: paid s))
(** one that comes back from its relay *)
| step_back_refused E T g o l1 l2 x m' s : flight s = l1 ++ (T, g) :: l2 → outcome_ok g o = true →
    (let! T' := resume E T o in submit_pay cfg E T') (mgr s) = (Err x, m') → step s (mkSys m' (l1 ++ l2) (paid s))
| step_back_paid E T g o l1 l2 T' m1 v m' s : flight s = l1 ++ (T, g) :: l2 → outcome_ok g o = true →
    resume E T o (mgr s) = (Ok T', m1) → submit_pay cfg E T' m1 = (Ok v, m') →
    step s (mkSys m' (l1 ++ l2) (paid_for T' E m1 v :: paid s)).

Definition fresh_start (m : Mgr) : Sys := mkSys m [] [].
Inductive reachable : Sys → Prop :=
| reach_start m : active m = ∅ → nextNonce m = 0 → reachable (fresh_start m)
| reach_step s s' : reachable s → step s s' → reachable s'.

(** How many of the open, relaying and paid ranges a nonce is in. *)
Definition covers (x : Z) (k : key) : Prop := k.1 ≤ x < k.1 + k.2.
#[global] Instance covers_dec x k : Decision (covers x k) := _.
Definition open_on (x : Z) (m : Mgr) : nat := size (filter (covers x) (dom (active m))).
Definition flying_on (x : Z) (l : list (Ticket * Gate)) : nat := length (filter (λ p, covers x (key_of (t_req p.1))) l).
Definition paid_on (x : Z) (l : list Paid) : nat := length (filter (λ p, covers x (p_key p)) l).
Definition weight (x : Z) (s : Sys) : nat := open_on x (mgr s) + flying_on x (flight s) + paid_on x (paid s).
(** ** Weights *)

Definition on (x : Z) (k : key) : nat := if decide (covers x k) then 1 else 0.

Lemma open_le x m m' : dom (active m') ⊆ dom (active m) → (open_on x m' ≤ open_on x m)%nat.
Proof. intros Hd. unfold open_on. apply subseteq_size. set_solver. Qed.
Lemma open_but x k m m' : dom (active m') ⊆ {[ k ]} ∪ dom (active m) → (open_on x m' ≤ open_on x m + on x k)%nat.
Proof.
  intros Hd. unfold open_on, on. destruct (decide (covers x k)) as [Hc|Hc].
  - trans (size ({[ k ]} ∪ filter (covers x) (dom (active m)))).
    + apply subseteq_size. set_solver.
    + pose proof (size_union_alt ({[ k ]} : gset key) (filter (covers x) (dom (active m)))) as Hs. rewrite size_singleton in Hs.
      assert (size (filter (covers x) (dom (active m)) ∖ {[ k ]}) ≤ size (filter (covers x) (dom (active m))))%nat by (apply subseteq_size; set_solver).
      lia.
  - rewrite Nat.add_0_r. apply subseteq_size. set_solver.
Qed.
Lemma open_lost x k m m' : dom (active m') ⊆ dom (active m) ∖ {[ k ]} → k ∈ dom (active m) → (open_on x m' + on x k ≤ open_on x m)%nat.
Proof.
  intros Hd Hk. unfold open_on, on. destruct (decide (covers x k)) as [Hc|Hc].
  - trans (size ((filter (covers x) (dom (active m)) ∖ {[ k ]}) ∪ {[ k ]})).
    + rewrite size_union by set_solver. rewrite size_singleton. apply Nat.add_le_mono_r, subseteq_size. set_solver.
    + apply subseteq_size. set_solver.
  - rewrite Nat.add_0_r. apply subseteq_size. set_solver.
Qed.
Lemma flying_mid x l1 l2 T g : flying_on x (l1 ++ (T, g) :: l2) = (flying_on x (l1 ++ l2) + on x (key_of (t_req T)))%nat.
Proof. unfold flying_on, on. rewrite !list.filter_app, filter_cons. cbn. destruct (decide _); rewrite !length_app; cbn; lia. Qed.
Lemma flying_cons x l T g : flying_on x ((T, g) :: l) = (flying_on x l + on x (key_of (t_req T)))%nat.
Proof. apply (flying_mid x []). Qed.
Lemma paid_cons x l p : paid_on x (p :: l) = (paid_on x l + on x (p_key p))%nat.
Proof. unfold paid_on, on. rewrite filter_cons. destruct (decide _); cbn; lia. Qed.

(** ** Shares of one submit *)

Lemma collect_ok ok base e seen n l :
  NoDup (collect_shares ok base e seen n l) ∧
  Forall (λ x, (x ∉ seen) ∧ base ≤ x < e ∧ ok x = true) (collect_shares ok base e seen n l).
Proof.
  revert seen n. induction l as [|x l IH]; intros seen [|n]; cbn; try (split; constructor).
  destruct (bool_decide (x ∈ seen)) eqn:Ex; [apply IH|]. apply bool_decide_eq_false in Ex.
  assert (Hw : ∀ n', NoDup (collect_shares ok base e ({[x]} ∪ seen) n' l) ∧
    Forall (λ y, y ≠ x ∧ (y ∉ seen) ∧ base ≤ y < e ∧ ok y = true) (collect_shares ok base e ({[x]} ∪ seen) n' l)).
  { intros n'. destruct (IH ({[x]} ∪ seen) n') as [Hn Hf]. split; [done|]. eapply Forall_impl; [|exact Hf]. cbn. set_solver. }
  destruct ((x <? base) || (e <=? x) || negb (ok x)) eqn:Eb.
  - destruct (Hw (S n)) as [Hn Hf]. split; [done|]. eapply Forall_impl; [|exact Hf]. cbn. tauto.
  - destruct (Hw n) as [Hn Hf]. split.
    + constructor; [|done]. intros Hin. rewrite list.Forall_forall in Hf. by destruct (Hf x Hin).
    + constructor; [|eapply Forall_impl; [|exact Hf]; cbn; tauto].
      apply orb_false_iff in Eb as [Eb Ek]. apply orb_false_iff in Eb as [Eb1 Eb2]. apply negb_false_iff in Ek. split; [done|]. split; [lia|done].
Qed.
Lemma collect_length ok base e seen n l : (length (collect_shares ok base e seen n l) ≤ n)%nat.
Proof. revert seen n. induction l as [|x l IH]; intros seen [|n]; cbn; try lia. repeat case_match; cbn; try apply IH. specialize (IH ({[x]} ∪ seen) n). lia. Qed.

(** Distinct nonces of the range, with work at the share difficulty for the lease's tip and miner. *)
Lemma valid_shares_ok t rec signer r :
  NoDup (valid_shares cfg t rec signer r) ∧
  Forall (λ x, BaseNonce r ≤ x < range_end (BaseNonce r) (BatchSize r) ∧
    validFoundNoncePoH x (share_mod cfg rec r) (lease_formula t rec) (trim_space (l_prev rec)) (lease_addr rec signer r) = true)
    (valid_shares cfg t rec signer r).
Proof.
  unfold valid_shares, validateShareNonces. repeat case_match; try (split; constructor).
  destruct (collect_ok (λ n, validFoundNoncePoH n (share_mod cfg rec r) (lease_formula t rec) (trim_space (l_prev rec)) (lease_addr rec signer r))
    (BaseNonce r) (range_end (BaseNonce r) (BatchSize r)) ∅ maxSharesPerSubmit (ShareNonces r)) as [Hn Hf].
  split; [done|]. eapply Forall_impl; [|exact Hf]. cbn. tauto.
Qed.
(** ** The invariant *)

Definition wf_key (k : key) : Prop := 0 ≤ k.1 ∧ 0 < k.2.
Definition wf_paid (p : Paid) : Prop := NoDup (p_shares p) ∧ Forall (λ x, covers x (p_key p)) (p_shares p).
Record safe (s : Sys) : Prop := mkSafe {
  safe_once : ∀ x, (weight x s ≤ 1)%nat;
  safe_next : ∀ x, nextNonce (mgr s) ≤ x → weight x s = 0%nat;
  safe_pos : 0 ≤ nextNonce (mgr s);
  safe_open : ∀ k, k ∈ dom (active (mgr s)) → wf_key k;
  safe_flight : Forall (λ p, wf_key (key_of (t_req p.1))) (flight s);
  safe_paid : Forall wf_paid (paid s);
}.

(** A step that hands out no new range. *)
Lemma safe_move s m' fl pd :
  safe s → nextNonce m' = nextNonce (mgr s) → (∀ x, (weight x (mkSys m' fl pd) ≤ weight x s)%nat) →
  (∀ k, k ∈ dom (active m') → wf_key k) → Forall (λ p, wf_key (key_of (t_req p.1))) fl → Forall wf_paid pd → safe (mkSys m' fl pd).
Proof.
  intros [I1 I2 I3 I4 I5 I6] Hn Hw Hk Hf Hp. split; cbn; rewrite ?Hn; try done.
  - intros x. specialize (I1 x). specialize (Hw x). lia.
  - intros x Hx. specialize (I2 x Hx). specialize (Hw x). lia.
Qed.
Lemma safe_shrinks s m' : safe s → shrinks (mgr s) m' → safe (mkSys m' (flight s) (paid s)).
Proof.
  intros Hs [Hn Hd]. apply (safe_move s); try done; try apply Hs.
  - intros x. unfold weight. cbn [mgr flight paid]. pose proof (open_le x _ _ Hd). lia.
  - intros k Hk. apply Hs, Hd, Hk.
Qed.
Lemma safe_fresh s m' : safe s → fresh_range (mgr s) m' → safe (mkSys m' (flight s) (paid s)).
Proof.
  intros [I1 I2 I3 I4 I5 I6] (b & z & Hb & Hz & Hn & Hd).
  assert (Hx : ∀ x, (weight x (mkSys m' (flight s) (paid s)) ≤ weight x s + on x (b, z))%nat)
    by (intros x; unfold weight; cbn [mgr flight paid]; pose proof (open_but x _ _ _ Hd); lia).
  assert (Hon : ∀ x, on x (b, z) = 0%nat ∨ b ≤ x < b + z ∧ on x (b, z) = 1%nat)
    by (intros x; unfold on; destruct (decide (covers x (b, z))); by auto).
  split; cbn; rewrite ?Hn; try done; try lia.
  - intros x. specialize (I1 x). specialize (Hx x). destruct (Hon x) as [E|[Hr E]]; [lia|]. rewrite (I2 x ltac:(lia)) in Hx. lia.
  - intros x Hlt. specialize (Hx x). destruct (Hon x) as [E|[Hr E]]; [|lia]. rewrite (I2 x ltac:(lia)) in Hx. lia.
  - intros k Hk. specialize (Hd k Hk). apply elem_of_union in Hd as [->%elem_of_singleton|Hd]; [split; cbn; lia|by apply I4].
Qed.

Lemma range_end_le b z : 0 ≤ b → 0 ≤ z → range_end b z ≤ b + z.
Proof.
  intros Hb Hz. unfold range_end, u64. pose proof (Z.mod_le (b + z) two64 ltac:(lia) ltac:(done)).
  destruct (Z.ltb_spec ((b + z) mod two64) b) as [Hlt|]; [|done].
  destruct (decide (b + z < two64)); [rewrite Z.mod_small in Hlt by lia; lia|lia].
Qed.
Lemma wf_paid_for T E m v : wf_key (key_of (t_req T)) → wf_paid (paid_for T E m v).
Proof.
  intros [Hb Hz]. destruct (valid_shares_ok (tip m) (t_lease T) (t_signer T) (t_req T)) as [Hn Hf]. split; [done|].
  cbn in *. eapply Forall_impl; [|exact Hf]. cbn. intros x [Hr _].
  pose proof (range_end_le (BaseNonce (t_req T)) (BatchSize (t_req T)) Hb ltac:(lia)). unfold covers. cbn. lia.
Qed.

(** A submit that comes back and is paid does not leave its lease open. *)
Lemma resume_but E T o : keeps_but (key_of (t_req T)) (resume E T o).
Proof. destruct o; [apply baseline_resume_but|apply order_resume_but]. Qed.
Lemma resume_key E T o m T' m' : resume E T o m = (Ok T', m') → key_of (t_req T') = key_of (t_req T).
Proof. destruct o; intros Hr; [apply baseline_resume_req in Hr|apply order_resume_req in Hr]; tauto. Qed.
Lemma keeps_but_at {A} k (a : act Mgr A) m r m' : keeps_but k a → a m = (r, m') → restores k m m'.
Proof. intros Ha E. specialize (Ha m). unfold after in Ha. by rewrite E in Ha. Qed.

(** The remaining steps, one by one. *)
Lemma safe_relay E r T g m' s : safe s → submit_enter cfg E r (mgr s) = (Ok (T, g), m') → g ≠ Direct → safe (mkSys m' ((T, g) :: flight s) (paid s)).
Proof.
  intros Hs He Hg. pose proof (keeps_at _ _ _ _ (submit_enter_keeps cfg E r) He) as [Hn Hd].
  apply submit_enter_ok in He as (Hl & _ & Hk & _ & Ha & _). apply elem_of_dom_2 in Hl.
  assert (Hdel : dom (active m') ⊆ dom (active (mgr s)) ∖ {[ key_of r ]}) by (destruct g; [done|by rewrite Ha, dom_delete_L..]).
  apply (safe_move s); try done; try apply Hs.
  - intros x. unfold weight. cbn [mgr flight paid]. rewrite flying_cons, Hk. pose proof (open_lost x _ _ _ Hdel Hl). lia.
  - intros k Hin. apply Hs, Hd, Hin.
  - constructor; [cbn; rewrite Hk; by apply Hs|apply Hs].
Qed.
Lemma safe_pay E r T m1 v m' s : safe s → submit_enter cfg E r (mgr s) = (Ok (T, Direct), m1) → submit_pay cfg E T m1 = (Ok v, m') →
  safe (mkSys m' (flight s) (paid_for T E m1 v :: paid s)).
Proof.
  intros Hs He Hp. pose proof (keeps_at _ _ _ _ (submit_pay_keeps cfg E T) Hp) as [Hn Hd]. pose proof (submit_pay_ok _ _ _ _ _ _ Hp) as Hgone.
  pose proof (keeps_at _ _ _ _ (submit_enter_keeps cfg E r) He) as [Hn1 Hd1].
  apply submit_enter_ok in He as (Hl & _ & Hk & _ & Ha & _). apply elem_of_dom_2 in Hl. rewrite Hk in Hgone.
  assert (Hdel : dom (active m') ⊆ dom (active (mgr s)) ∖ {[ key_of r ]}) by set_solver.
  apply (safe_move s); try done; try apply Hs; [congruence| | |].
  - intros x. unfold weight. cbn [mgr flight paid]. rewrite paid_cons. cbn [p_key paid_for]. rewrite Hk. pose proof (open_lost x _ _ _ Hdel Hl). lia.
  - intros k Hin. apply Hs, Hd1, Hd, Hin.
  - constructor; [|apply Hs]. apply wf_paid_for. rewrite Hk. by apply Hs.
Qed.
Lemma back_flight s T g l1 l2 : safe s → flight s = l1 ++ (T, g) :: l2 →
  wf_key (key_of (t_req T)) ∧ Forall (λ p, wf_key (key_of (t_req p.1))) (l1 ++ l2) ∧
  ∀ x, flying_on x (flight s) = (flying_on x (l1 ++ l2) + on x (key_of (t_req T)))%nat.
Proof.
  intros Hs Hf. pose proof (safe_flight s Hs) as Ha. rewrite Hf in Ha |- *. apply list.Forall_app in Ha as [Ha1 Ha2].
  apply list.Forall_cons in Ha2 as [Ha2 Ha3]. split; [done|]. split; [by apply list.Forall_app|]. intros x. apply flying_mid.
Qed.
Lemma safe_back_refused E T g o l1 l2 m1 (x : result f64) s : safe s → flight s = l1 ++ (T, g) :: l2 →
  (let! T' := resume E T o in submit_pay cfg E T') (mgr s) = (x, m1) → safe (mkSys m1 (l1 ++ l2) (paid s)).
Proof.
  intros Hs Hf Hr. destruct (back_flight s T g l1 l2 Hs Hf) as (Hk & Hw & Hx).
  assert (Hb : restores (key_of (t_req T)) (mgr s) m1).
  { eapply keeps_but_at; [|exact Hr]. apply keeps_but_bind; [apply resume_but|intros; apply keeps_keeps_but, submit_pay_keeps]. }
  destruct Hb as [Hn Hd]. apply (safe_move s); try done; try apply Hs.
  - intros y. unfold weight. cbn [mgr flight paid]. rewrite Hx. pose proof (open_but y _ _ _ Hd). lia.
  - intros k Hin. specialize (Hd k Hin). apply elem_of_union in Hd as [->%elem_of_singleton|Hd]; [done|by apply Hs].
Qed.
Lemma safe_back_paid E T g o l1 l2 T' m1 v m' s : safe s → flight s = l1 ++ (T, g) :: l2 →
  resume E T o (mgr s) = (Ok T', m1) → submit_pay cfg E T' m1 = (Ok v, m') → safe (mkSys m' (l1 ++ l2) (paid_for T' E m1 v :: paid s)).
Proof.
  intros Hs Hf Hr Hp. destruct (back_flight s T g l1 l2 Hs Hf) as (Hk & Hw & Hx).
  pose proof (keeps_but_at _ _ _ _ _ (resume_but E T o) Hr) as [Hn1 Hd1]. apply resume_key in Hr.
  pose proof (keeps_at _ _ _ _ (submit_pay_keeps cfg E T') Hp) as [Hn Hd]. pose proof (submit_pay_ok _ _ _ _ _ _ Hp) as Hgone. rewrite Hr in Hgone.
  assert (Hsub : dom (active m') ⊆ dom (active (mgr s))) by set_solver.
  apply (safe_move s); try done; [congruence| | |].
  - intros y. unfold weight. cbn [mgr flight paid]. rewrite Hx, paid_cons. cbn [p_key paid_for]. rewrite Hr. pose proof (open_le y _ _ Hsub). lia.
  - intros k Hin. apply Hs, Hsub, Hin.
  - constructor; [|apply Hs]. apply wf_paid_for. by rewrite Hr.
Qed.

Lemma safe_step s s' : 0 < defaultBatch cfg → step s s' → safe s → safe s'.
Proof.
  intros Hpos Hst Hs. destruct Hst; try (apply safe_shrinks; [done|by auto with coord]).
  - destruct (claim_shape cfg P refresh start nowMs now w b (mgr s)); [done|done|by apply safe_shrinks|by apply safe_fresh].
  - apply safe_shrinks; [done|apply keeps_identity].
  - apply safe_shrinks; [done|apply keeps_peer].
  - apply safe_shrinks; [done|apply keeps_charge].
  - apply safe_shrinks; [done|]. unfold submit_done. case_match; keep.
  - apply safe_shrinks; [done|apply keeps_unlock].
  - apply safe_shrinks; [done|]. eapply keeps_at; [apply submit_enter_keeps|done].
  - by eapply safe_relay.
  - apply safe_shrinks; [done|]. etrans; [eapply keeps_at; [apply submit_enter_keeps|done]|eapply keeps_at; [apply submit_pay_keeps|done]].
  - by eapply safe_pay.
  - by eapply safe_back_refused.
  - by eapply safe_back_paid.
Qed.
Lemma reachable_safe s : 0 < defaultBatch cfg → reachable s → safe s.
Proof.
  intros Hpos. induction 1 as [m Ha Hn|s s' _ IH Hst]; [|by eapply safe_step].
  assert (Ho : ∀ x, weight x (fresh_start m) = 0%nat).
  { intros x. unfold weight, open_on. cbn [mgr fresh_start]. rewrite Ha, dom_empty_L.
    assert (filter (covers x) (∅ : gset key) = ∅) as -> by set_solver. reflexivity. }
  split; cbn [mgr flight paid fresh_start]; rewrite ?Hn; try done.
  - intros x. rewrite Ho. lia.
  - intros k. rewrite Ha, dom_empty_L. set_solver.
Qed.
End system.
