(* ===== verification/CoordProps.v ===== *)
(** What the work coordinator guarantees, and where it does not do what it means to.

    Source: cmd/coordinator/work.go.  The theorems are about the operations of [CoordWork],
    [CoordSubmit] and [CoordPay] and about every interleaving of them ([CoordSafe.step]). *)
From Stdlib Require Import QArith.
From S2P Require Import Prelude Float64 GoText GoNum Json Params Address Retarget CoordShares CoordBase CoordWork CoordSubmit CoordPay CoordSafe.
#[local] Open Scope Z_scope.

(** * Ranges and shares are paid once *)

Lemma paid_on_elem x p l : p ∈ l → covers x (p_key p) → (1 ≤ paid_on x l)%nat.
Proof.
  intros [l1 [l2 ->]]%list_elem_of_split Hc. unfold paid_on. rewrite list.filter_app, filter_cons, decide_True by done.
  rewrite length_app. cbn. lia.
Qed.
Lemma paid_disjoint l : (∀ x, (paid_on x l ≤ 1)%nat) → Forall wf_paid l → NoDup (concat (map p_shares l)).
Proof.
  induction l as [|p l IH]; intros Ho Hf; [constructor|]. apply list.Forall_cons in Hf as [[Hn Hc] Hf]. cbn.
  assert (Ho' : ∀ x, (paid_on x l ≤ 1)%nat) by (intros x; specialize (Ho x); rewrite paid_cons in Ho; lia).
  apply list.NoDup_app. split; [done|]. split; [|by apply IH].
  intros x Hx Hx'. rewrite list.Forall_forall in Hc. specialize (Hc x Hx).
  apply list_elem_of_In, in_concat in Hx' as (ys & Hys & Hx'). apply in_map_iff in Hys as (q & <- & Hq).
  apply list_elem_of_In in Hq, Hx'. rewrite list.Forall_forall in Hf. destruct (Hf q Hq) as [_ Hcq].
  rewrite list.Forall_forall in Hcq. specialize (Ho x). rewrite paid_cons in Ho. unfold on in Ho. rewrite decide_True in Ho by done.
  pose proof (paid_on_elem x q l Hq (Hcq x Hx')). lia.
Qed.

Section props.
Context `{ChainParams} `{PoHHash} `{Crypto} `{GoMath} (cfg : WorkCfg).

(** C7: no work is paid twice, whatever order the coordinator's critical sections run in: claims and
    reissues, submits, relays that give up the mutex and come back, refusals that put a lease back,
    bans and revocations.  In every state reached from an empty manager no nonce is in two paid ranges,
    all shares that were paid for, over all submits and workers, are different nonces, and no range
    that was paid is open again.  [defaultBatch] is positive in every configuration the code builds. *)
Theorem shares_paid_once s : 0 < defaultBatch cfg → reachable cfg s →
  NoDup (concat (map p_shares (paid s))) ∧ (∀ x, (paid_on x (paid s) ≤ 1)%nat) ∧
  ∀ p x k, p ∈ paid s → covers x (p_key p) → k ∈ dom (active (mgr s)) → ¬ covers x k.
Proof.
  intros Hd Hr. apply reachable_safe in Hr as [I1 _ _ _ _ I6]; [|done]. unfold weight in I1.
  assert (Ho : ∀ x, (paid_on x (paid s) ≤ 1)%nat) by (intros x; specialize (I1 x); lia).
  split; [by apply paid_disjoint|]. split; [done|]. intros p x k Hp Hx Hk Hc. specialize (I1 x).
  pose proof (paid_on_elem x p _ Hp Hx). assert (1 ≤ open_on x (mgr s))%nat; [|lia].
  unfold open_on. rewrite <- (size_singleton (C := gset key) k). apply subseteq_size. set_solver.
Qed.

(** The different elements of a list in their first order, less those seen. *)
Fixpoint nub (seen : gset Z) (l : list Z) : list Z :=
  match l with [] => [] | x :: l => if bool_decide (x ∈ seen) then nub seen l else x :: nub ({[ x ]} ∪ seen) l end.
Lemma nub_elem seen l x : x ∈ nub seen l ↔ x ∈ l ∧ x ∉ seen.
Proof.
  revert seen. induction l as [|y l IH]; intros seen; cbn; [set_solver|].
  case_bool_decide; [rewrite IH|rewrite elem_of_cons, IH]; rewrite elem_of_cons; destruct (decide (x = y)); set_solver.
Qed.
Lemma collect_nub ok base e seen n l :
  collect_shares ok base e seen n l = take n (filter (λ x, base ≤ x < e ∧ ok x = true) (nub seen l)).
Proof.
  revert seen n. induction l as [|x l IH]; intros seen [|n]; cbn; try done. case_bool_decide; [apply IH|].
  rewrite filter_cons. destruct ((x <? base) || (e <=? x) || negb (ok x)) eqn:Eb.
  - rewrite decide_False; [apply IH|]. intros [Hr Ho]. rewrite Ho in Eb. cbn in Eb. lia.
  - rewrite decide_True; [cbn; by rewrite IH|]. destruct (ok x); [split; [lia|done]|]. cbn in Eb. lia.
Qed.

(** C25: the shares that count are exactly the right ones.  A share list is reduced to its different
    nonces, of those to the ones inside the leased range whose proof of hash, for the tip and the
    miner of the lease, is divisible by the share difficulty, and of those the first 128 are taken:
    no valid share is lost otherwise, and a wrong one takes no place from a right one. *)
Theorem share_list_exact shares base batch sm fv prev addr :
  validateShareNonces shares base batch sm fv prev addr =
  (if (sm =? 0) || (batch =? 0) then []
   else take 128 (filter (λ x, base ≤ x < range_end base batch ∧ validFoundNoncePoH x sm fv prev addr = true) (nub ∅ shares))) ∧
  NoDup (nub ∅ shares) ∧ ∀ x, x ∈ nub ∅ shares ↔ x ∈ shares.
Proof.
  split; [|split].
  - unfold validateShareNonces. case_match; [done|]. apply collect_nub.
  - generalize (∅ : gset Z). induction shares as [|x l IH]; intros seen; cbn; [constructor|]. case_bool_decide; [apply IH|].
    constructor; [|apply IH]. rewrite nub_elem. set_solver.
  - intros x. rewrite nub_elem. set_solver.
Qed.

(** * What a submit is paid *)

Lemma f_leb_min a b : f_leb (f_min a b) b = true.
Proof. unfold f_min. destruct (f_ltb b a) eqn:E; [apply f_leb_spec; apply Qle_refl|]. by apply f_ltb_false, f_leb_spec in E. Qed.
Lemma f_leb_refl a : f_leb a a = true.
Proof. apply f_leb_spec, Qle_refl. Qed.
Lemma f_leb_trans a b c : f_leb a b = true → f_leb b c = true → f_leb a c = true.
Proof. rewrite !f_leb_spec. apply Qle_trans. Qed.
Lemma f_min_l a b : f_leb (f_min a b) a = true.
Proof. unfold f_min. destruct (f_ltb b a) eqn:E; [|apply f_leb_refl]. apply f_ltb_spec in E. apply f_leb_spec. by apply Qlt_le_weak. Qed.
Lemma f_leb_total a b : f_leb a b = false → f_leb b a = true.
Proof. rewrite f_leb_false, f_leb_spec. apply Qlt_le_weak. Qed.

(** The budget of the day as the accrual sees it. *)
Definition day_budget (base : f64) (now : Z) (b : Budget) : Budget :=
  syncPoolPaySegment (poolDailyBudgetHMC cfg base) now (resetPoolPayDayIfNeeded now b).

Lemma budget_bound base p now b :
  let '(v, b') := applyPoolDailyBudget cfg base p now b in
  f_leb v p = true ∧
  (f_pos v = true → f_pos (poolDailyBudgetHMC cfg base) = true →
   f_leb v (f_sub (unlocked cfg now (day_budget base now b)) (b_accrued (day_budget base now b))) = true ∧
   b_accrued b' = f_add (b_accrued (day_budget base now b)) v).
Proof.
  unfold applyPoolDailyBudget, f_pos. cbv zeta. fold (day_budget base now b).
  destruct (f_leb p f0) eqn:Ep; [split; [apply f_leb_refl|]|].
  { intros Hv. apply f_leb_spec, f_ltb_false in Ep. congruence. }
  destruct (f_leb (poolDailyBudgetHMC cfg base) f0) eqn:Eb; [split; [apply f_leb_refl|]|].
  { intros _ Hb. apply f_leb_spec, f_ltb_false in Eb. congruence. }
  destruct (f_leb (f_sub _ _) f0) eqn:Er.
  - split; [by apply f_leb_total|]. intros Hv. exfalso. revert Hv. by vm_compute.
  - split; [apply f_min_l|]. intros _ _. split; [apply f_leb_min|done].
Qed.
Lemma accrue_sup_frame E w sg f m : workers (accrue_sup cfg E w sg f m).2 = workers m ∧ budget (pay (accrue_sup cfg E w sg f m).2) = budget (pay m).
Proof. unfold accrue_sup. cbv zeta. by destruct (computeSUPAccrual _ _ _ _ _ _ _ _ _ _) as [[sup meta] d]. Qed.
Lemma persist_frame w a m : workers (persistPayoutLock w a m) = workers m ∧ pay (persistPayoutLock w a m) = pay m.
Proof. unfold persistPayoutLock. cbv zeta. by repeat case_match. Qed.

Lemma stat_of_put w st f g m : stat_of w (set_tip g (set_pay f (set_workers <[w := st]> m))) = st.
Proof. unfold stat_of. cbn. by rewrite lookup_insert_eq. Qed.

(** C26: what one accepted submit accrues.  The last part of a submit always answers, whatever came
    before it.  What it pays is at most the ceiling [maxSubmitHMCForBatch] sets for its batch at the prices and the
    difficulty of the moment, and it is exactly what is added to the worker's balance, in coins and in
    units.  When the pool has a budget for the day and the payout is positive, the payout is also at most what the schedule of
    the day has unlocked and other submits have not used, and it is what is added to the day's used budget. *)
Theorem payout_bounded E T valid u m :
  ∃ v m', credit cfg E T valid u m = (Ok v, m') ∧
  f_leb v (maxSubmitHMCForBatch cfg (targetMod (tip m)) (baseRewardHMC (tip m)) (rewardPerM (tip m)) (BatchSize (t_req T))) = true ∧
  (let b := day_budget (baseRewardHMC (tip m)) (clock E) (budget (pay m)) in
   f_pos v = true → f_pos (poolDailyBudgetHMC cfg (baseRewardHMC (tip m))) = true →
   f_leb v (f_sub (unlocked cfg (clock E) b) (b_accrued b)) = true ∧ b_accrued (budget (pay m')) = f_add (b_accrued b) v) ∧
  (let before := stat_of (trim_space (WorkerID (t_req T))) m in let after := stat_of (WorkerID (t_req T)) m' in
   PayoutHMC after = f_add (PayoutHMC before) v ∧ PayoutUnits after = u64 (PayoutUnits before + HMCToUnits v)).
Proof.
  unfold credit. cbv zeta. destruct (gross_payout _ _ _ _ _ _ _ _) as [[gross work] e].
  set (p := capped_payout cfg (tip m) (BatchSize (t_req T)) gross).
  pose proof (budget_bound (baseRewardHMC (tip m)) p (clock E) (budget (pay m))) as Hb.
  destruct (applyPoolDailyBudget _ _ _ _ _) as [v b]. destruct Hb as [Hv Hb].
  set (m1 := set_pay _ m). pose proof (accrue_sup_frame E (WorkerID (t_req T)) (t_signer T) (f_min work v) m1) as [Hw Hp].
  destruct (accrue_sup _ _ _ _ _ _) as [sup m2]. cbn [snd] in Hw, Hp.
  eexists v, _. split; [reflexivity|]. split; [|split].
  - eapply f_leb_trans; [exact Hv|apply f_leb_min].
  - intros H3 H4. destruct (Hb H3 H4) as [Hl Ha]. split; [done|].
    destruct (negb _ && _); cbn; [rewrite (proj2 (persist_frame _ _ _))|]; by rewrite Hp.
  - assert (Hst : ∀ x, stat_of x m2 = stat_of x m) by (intros x; unfold stat_of; by rewrite Hw).
    rewrite stat_of_put, Hst. by split.
Qed.

(** * A cap that expired leases fill *)

(** C38: a manager whose open leases have reached their limit refuses every claim, of any worker and for any batch,
    and leaves its leases and its next range as they are, however long ago all of those leases expired: a claim takes
    expired leases over, or purges them, only after the test against the limit.  A known worker that asks for the default
    batch is told that there are too many active leases. *)
Theorem expired_leases_block_claims P refresh start nowMs now w b m :
  maxActiveLeases cfg ≤ Z.of_nat (size (active m)) →
  ∃ e m', claim cfg P refresh start nowMs now w b m = (Err e, m') ∧ (m' = m ∨ m' = set_tip refresh m) ∧
    active m' = active m ∧ nextNonce m' = nextNonce m ∧
    e ∈ ["too_many_active_leases"; "batch_size_too_large"; "too_many_workers"] ∧
    ((maxClaimBatch cfg = 0 ∨ defaultBatch cfg ≤ maxClaimBatch cfg) → is_Some (workers m !! w) → b = 0 → e = "too_many_active_leases").
Proof.
  intros Hfull. unfold claim, abind, aget, amod, afail. cbv zeta.
  destruct (negb (b =? 0) && _ && _) eqn:E1.
  { exists "batch_size_too_large", m. split_and!; try done; [by left|set_solver|]. intros _ _ ->. done. }
  destruct ((0 <? maxClaimBatch cfg) && (maxClaimBatch cfg <? adaptClaimBatch cfg w b m)) eqn:E2.
  { exists "batch_size_too_large", m. split_and!; try done; [by left|set_solver|]. intros Hb _ ->. exfalso. revert E2.
    unfold adaptClaimBatch. cbv zeta. repeat case_match; lia. }
  change (workers (set_tip refresh m)) with (workers m). destruct (negb (bool_decide (is_Some (workers m !! w))) && _) eqn:E3.
  { exists "too_many_workers", (set_tip refresh m). split_and!; try done; [by right|set_solver|]. intros _ Hw _. by rewrite bool_decide_true in E3. }
  change (active (set_tip refresh m)) with (active m). destruct (Z.leb_spec (maxActiveLeases cfg) (Z.of_nat (size (active m)))); [|lia].
  exists "too_many_active_leases", (set_tip refresh m). split_and!; try done; [by right|set_solver].
Qed.

(** * Signed submits that come back late *)

(** What the signature gate asks of its memory, for a request that is signed as it should be. *)
Lemma hybrid_gate s s' r signer : signer ≠ "" → validateHybridSignature cfg s r = Ok signer →
  validateHybridSignature cfg s' r =
    if match nonce_max s' !! submitNonceScope signer (WorkerID r) with Some n => SubmitNonce r <=? n | None => false end then Err "replay"
    else if bool_decide (nonce_key signer r ∈ seen_nonces s') then Err "replay"
    else if bool_decide (payload_key r ∈ seen_payloads s') then Err "duplicate_signed_payload" else Ok signer.
Proof.
  intros Hs. unfold validateHybridSignature. cbv zeta. set (bare := _ && (SubmitNonce r =? 0)).
  destruct (negb (hybridSignerEnabled cfg)); [congruence|]. destruct (bare && _); [done|]. destruct (Found r && _ && _); [done|].
  destruct bare; [congruence|]. destruct (_ || _ || _); [done|]. destruct (negb (_ || _)); [done|].
  destruct (deriveAddressFromPubHex _) as [derived|]; [|done]. destruct (decode_hex_len 32 _) as [pub|]; [|done].
  destruct (negb _ && _); [done|]. destruct (decode_hex_len 64 _) as [sig|]; [|done]. destruct (negb _); [done|].
  intros Hv. assert (derived = signer) as ->.
  { revert Hv. destruct (match nonce_max s !! _ with Some _ => _ | None => _ end); [done|].
    destruct (bool_decide _); [done|]. destruct (_ && _); [done|]. destruct (bool_decide _); [done|]. by intros [= ->]. }
  destruct (match nonce_max s' !! _ with Some _ => _ | None => _ end); [done|].
  destruct (decide (nonce_key signer r ∈ seen_nonces s')) as [Hn|Hn]; [by rewrite !(bool_decide_true (nonce_key _ _ ∈ _))|].
  rewrite !(bool_decide_false (nonce_key _ _ ∈ _)) by done.
  destruct (String.eqb (trim_space (WorkerID r)) "") eqn:Ew; [|by rewrite andb_false_r].
  rewrite bool_decide_false; [done|]. unfold nonce_key, submitNonceScope in Hn. cbv zeta in Hn. by rewrite Ew in Hn.
Qed.

(** C37: the replay guard of a signer can go back.  A submit that returns from its relay sets the
    highest accepted nonce of its signer and worker to its own, also when a submit with a higher nonce [n]
    was accepted while it was out.  So a properly signed request of the same signer and worker with a nonce in between, refused as a replay until
    then, passes the signature gate afterwards, unless that very nonce or that very payload is among those remembered. *)
Theorem late_relay_lowers_nonce E T m v m' n :
  t_signer T ≠ "" → nonce_max (seen m) !! submitNonceScope (t_signer T) (WorkerID (t_signed T)) = Some n → SubmitNonce (t_signed T) < n →
  submit_pay cfg E T m = (Ok v, m') →
  nonce_max (seen m') !! submitNonceScope (t_signer T) (WorkerID (t_signed T)) = Some (SubmitNonce (t_signed T)) ∧
  ∀ r fresh, validateHybridSignature cfg fresh r = Ok (t_signer T) →
    submitNonceScope (t_signer T) (WorkerID r) = submitNonceScope (t_signer T) (WorkerID (t_signed T)) →
    SubmitNonce (t_signed T) < SubmitNonce r ≤ n →
    validateHybridSignature cfg (seen m) r = Err "replay" ∧
    (nonce_key (t_signer T) r ∉ seen_nonces (seen m') → payload_key r ∉ seen_payloads (seen m') →
     validateHybridSignature cfg (seen m') r = Ok (t_signer T)).
Proof.
  intros Hs Hn _ Hp. cut (nonce_max (seen m') !! submitNonceScope (t_signer T) (WorkerID (t_signed T)) = Some (SubmitNonce (t_signed T))).
  { intros Hl. split; [done|]. intros r fresh Hv Hsc [Hlo Hhi]. split.
    - rewrite (hybrid_gate fresh _ _ _ Hs Hv), Hsc, Hn. by destruct (Z.leb_spec (SubmitNonce r) n); [|lia].
    - intros Hk Hpl. rewrite (hybrid_gate fresh _ _ _ Hs Hv), Hsc, Hl, !bool_decide_false by done.
      by destruct (Z.leb_spec (SubmitNonce r) (SubmitNonce (t_signed T))); [lia|]. }
  clear Hn. unfold submit_pay in Hp. run_ok. destruct x as [valid u]. run_ok.
  assert (Hc : seen m' = seen (consume cfg E T m0)).
  { revert Hp. unfold credit. cbv zeta. destruct (gross_payout _ _ _ _ _ _ _ _) as [[gross work] e].
    destruct (applyPoolDailyBudget _ _ _ _ _) as [q b]. destruct (accrue_sup _ _ _ _ _ _) as [sup m2] eqn:Ea. intros [= _ <-].
    pose proof (accrue_sup_same cfg E (WorkerID (t_req T)) (t_signer T) (f_min work q) (set_pay (λ p, with_budget b (with_ema e p)) (consume cfg E T m0))) as Hx.
    rewrite Ea in Hx. cbn [snd] in Hx. rewrite Hx. unfold persistPayoutLock. by repeat case_match. }
  rewrite Hc. unfold consume. apply String.eqb_neq in Hs. rewrite Hs.
  case_match; [|cbn; by rewrite lookup_insert_eq]. unfold recordFoundDedupLocked. cbv zeta. case_match; cbn; by rewrite lookup_insert_eq.
Qed.

(** * Order leases *)

Lemma claim_ok P refresh start nowMs now w b m c m' : claim cfg P refresh start nowMs now w b m = (Ok c, m') →
  ∃ rec, active m' !! (c_base c, c_size c) = Some rec ∧ l_shareMod rec = lease_share_mod cfg (c_mod c) (c_size c).
Proof.
  unfold claim. destruct (_ && (maxClaimBatch cfg <? b)); [done|]. intros Hrun. run_ok. destruct (_ && (maxClaimBatch cfg <? _)); [done|]. run_ok.
  set (m1 := set_tip refresh m) in *. set (z := adaptClaimBatch cfg w b m) in *. clearbody z m1.
  repeat match type of Hrun with (if ?c then _ else _) _ = _ => destruct c; [done|] end.
  destruct (any_of (pick_key P) (expired_of z now m1)) as [k|] eqn:Ek.
  - assert (Hk : k ∈ expired_of z now m1).
    { unfold any_of in Ek. destruct (expired_of z now m1) as [|k0 l]; [done|]. case_bool_decide; simplify_eq; [done|by left]. }
    unfold expired_of in Hk. apply list_elem_of_fmap in Hk as ([k' r'] & -> & Hk). apply list_elem_of_filter in Hk as [[Hz _] Hk].
    apply elem_of_map_to_list in Hk. destruct k' as [kb kz]. cbn in *. subst z. rewrite Hk in Hrun. run_ok. subst. cbn.
    eexists. rewrite lookup_insert_eq. split; [done|]. done.
  - run_ok. case_match; run_ok. subst. cbn. eexists. rewrite lookup_insert_eq. split; [done|]. done.
Qed.
Lemma on_lease_at k f m rec : active m !! k = Some rec → active (on_lease k f m) !! k = Some (f rec).
Proof. intros Hk. unfold on_lease. rewrite Hk. cbn. by rewrite lookup_insert_eq. Qed.
Lemma bind_same w p m : active (bindClaimPayoutFromPub cfg w p m) = active m.
Proof. unfold bindClaimPayoutFromPub, notePayoutLock, persistPayoutLock. cbv zeta. by repeat case_match. Qed.
Lemma charge_same b w now m x m' : charge_worker cfg b w now m = (Ok x, m') → active m' = active m.
Proof.
  unfold charge_worker. destruct (_ <=? 0); intros; run_ok; [done|]. destruct (allowRateSlot _ _ _ _) as [s ok]. run_ok.
  destruct s; cbn. unfold pruneAbuseState. by destruct (now - lastPrune m <? 60).
Qed.

(** the shares an order claim asks for are not the ones it will be paid for.  In order mode the
    handler puts the order's difficulty into the lease and advertises a share difficulty derived from
    it, but leaves the lease's own share difficulty at what the claim derived from the pool's
    difficulty, and submits are checked against that one. *)
Theorem order_lease_share_mod P refresh start nowMs now o w pub hint ip b m rep m' :
  o_id o ≠ "" → 0 < o_mod o → 2 ≤ shareDivisor cfg →
  handle_claim cfg P refresh start nowMs now (Some o) (Some o) w pub hint ip b m = (Ok rep, m') →
  cr_mod rep = o_mod o ∧
  cr_shareMod rep = shareModForLease (o_mod o) (shareDivisor cfg) (c_size (cr_claimed rep)) ∧
  ∃ rec, active m' !! (c_base (cr_claimed rep), c_size (cr_claimed rep)) = Some rec ∧ l_mod rec = o_mod o ∧
    l_shareMod rec = shareModForLease (c_mod (cr_claimed rep)) (shareDivisor cfg) (c_size (cr_claimed rep)).
Proof.
  intros Hid Hmod Hdiv. apply String.eqb_neq in Hid. unfold handle_claim. rewrite Hid, (proj2 (Z.ltb_lt 0 (o_mod o)) Hmod). cbn [negb andb].
  rewrite (proj2 (Z.leb_le 2 (shareDivisor cfg)) Hdiv). intros Hrun. run_ok.
  match goal with Hc : claim _ _ _ _ _ _ _ _ _ = (Ok ?c, ?q) |- _ => apply claim_ok in Hc as (rec & Hrec & Hsm); rename c into cl, q into mc end.
  rewrite Hrec in *. unfold lease_share_mod in Hsm. rewrite (proj2 (Z.leb_le 2 (shareDivisor cfg)) Hdiv) in Hsm.
  set (k := (c_base cl, c_size cl)) in *.
  assert (Hk : ∃ r, active m7 !! k = Some r ∧ l_shareMod r = l_shareMod rec).
  { pose proof (on_lease_at k (with_mod (o_mod o)) mc rec Hrec) as Hl. rewrite <- (bind_same w pub) in Hl.
    match goal with Hm : (if ?c then aret () else _) _ = (_, m7) |- _ => destruct c; run_ok; subst end.
    - eexists. split; [exact Hl|done].
    - eexists. split; [apply on_lease_at; exact Hl|done]. }
  destruct Hk as (r7 & Hk7 & Hs7). destruct (_ && _); run_ok.
  match goal with Hm : (let (_, _) := charge_worker _ _ _ _ _ in _) = _ |- _ => destruct (charge_worker cfg true w now m7) as [[y|e] q] eqn:Hch; [|done]; injection Hm as _ <- end.
  apply charge_same in Hch. subst. cbn. split; [done|]. split; [done|].
  exists (with_order (negb (String.eqb (trim_space (o_wasm o)) "")) (with_mod (o_mod o) r7)). split; [|cbn; by rewrite Hs7].
  apply (on_lease_at k (λ r, with_order (negb (String.eqb (trim_space (o_wasm o)) "")) (with_mod (o_mod o) r)) _ r7). 
  assert (active (noteWorkerClientIP w ip now q) = active q) as -> by (unfold noteWorkerClientIP; cbv zeta; destruct (_ || _); reflexivity). by rewrite Hch.
Qed.
End props.

(** * Concrete runs *)

Section toy.
#[local] Instance toy_params : ChainParams := {| v2_height := 1; asert_height := 1; v3_height := 1; v2_chain_id := "t" |}.
#[local] Instance toy_hash : PoHHash := {| blake3_sum256 := toy_sha256; blake3_sum256_length := toy_sha256_length |}.
#[local] Instance toy_math : GoMath := {| m_log := λ x, x; m_exp := λ x, x; m_expm1 := λ x, x; m_lgamma := λ x, x |}.
#[local] Existing Instance toy_crypto.

(** Strict share pay, half the difficulty per share, at most 1024 nonces a range. *)
Definition toy_cfg_of (leases : Z) : WorkCfg :=
  mkWorkCfg 1024 1024 90 (f_of_Z 3) false f0 false 0 0 2 true f0 f0 false 0 0 60 5 100 leases 0 1000
    true false false false (mkSupPolicy false f0 0 f0 f0 false f0 f0) AuditOff RelayDry false false (lit 1 10) (Some (f_of_Z 86400)) (f_of_Z 60) 600.
Definition toy_cfg : WorkCfg := toy_cfg_of 100.
Definition toy_tip : TipView := mkTip 64 "@@@@@@@@" 10 3 f1 f0 false (f_of_Z 10000).
Definition toy_mgr : Mgr :=
  mkMgr toy_tip 0 ∅ ∅ (mkSeen ∅ ∅ ∅ ∅ ∅) (mkPay ∅ (mkSupDay 0 f0 f0) (mkBudget 0 f0 0 f0 f0) f0 ∅ 0 f0 f0) ∅ ∅ 0 ∅.
Definition toy_draws : Draws := mkDraws (mkPicks (λ _, (0, 0)) (λ _, EmptyString) (λ _, 0)) false id id 1000 1000000.
Definition toy_claim : act Mgr Claimed := claim toy_cfg (picks toy_draws) id (2 ^ 40) 990000 990 "w" 0.
Definition toy_req (base : Z) (found : bool) (nonce : Z) (shares : list Z) : Req :=
  mkReq "w" base 1024 "" 0 found (if found then base + 7 else 0) (if found then "h" else "") "" f0 "" (toy_key "a")
    (toy_key "a" +:+ toy_key "a") "" nonce "" false shares.

Definition toy_one : Mgr := Eval vm_compute in after toy_claim toy_mgr.
Definition toy_claimed : Mgr := Eval vm_compute in after toy_claim toy_one.
Lemma toy_claims : after toy_claim toy_mgr = toy_one ∧ after toy_claim toy_one = toy_claimed ∧
  map fst (map_to_list (active toy_claimed)) = [(2 ^ 40 + 1024, 1024); (2 ^ 40, 1024)].
Proof. vm_compute. repeat split. Qed.

(** The first range goes to a relay, the second is paid, then the first comes back. *)
Definition toy_first : Req := toy_req (2 ^ 40) true 10 [2 ^ 40 + 3; 2 ^ 40 + 3; 5].
Definition toy_second : Req := toy_req (2 ^ 40 + 1024) false 20 [2 ^ 40 + 1025; 2 ^ 40 + 1026].
Definition no_lease : Lease := mkLease "" 0 0 0 0 0 0 "" "" 0 0 false.
Definition no_ticket : Ticket := mkTicket toy_first toy_first no_lease 0 "" "" false 0 false.
Definition got {A} (d : A) (r : result A) : A := match r with Ok x => x | Err _ => d end.
Definition toy_out : Mgr := Eval vm_compute in after (submit_enter toy_cfg toy_draws toy_first) toy_claimed.
Definition toy_flight : Ticket := Eval vm_compute in (got (no_ticket, Direct) (answer (submit_enter toy_cfg toy_draws toy_first) toy_claimed)).1.
Definition toy_direct : Ticket := Eval vm_compute in (got (no_ticket, Direct) (answer (submit_enter toy_cfg toy_draws toy_second) toy_out)).1.
Definition toy_entered : Mgr := Eval vm_compute in after (submit_enter toy_cfg toy_draws toy_second) toy_out.
Definition toy_pay1 : f64 := Eval vm_compute in got f0 (answer (submit_pay toy_cfg toy_draws toy_direct) toy_entered).
Definition toy_between : Mgr := Eval vm_compute in after (submit_pay toy_cfg toy_draws toy_direct) toy_entered.
Definition toy_returned : Ticket := Eval vm_compute in got no_ticket (answer (resume toy_cfg toy_draws toy_flight (Minted true)) toy_between).
Definition toy_late : Mgr := Eval vm_compute in after (resume toy_cfg toy_draws toy_flight (Minted true)) toy_between.
Definition toy_pay2 : f64 := Eval vm_compute in got f0 (answer (submit_pay toy_cfg toy_draws toy_returned) toy_late).
Definition toy_end : Mgr := Eval vm_compute in after (submit_pay toy_cfg toy_draws toy_returned) toy_late.

Lemma toy_enter_first : submit_enter toy_cfg toy_draws toy_first toy_claimed = (Ok (toy_flight, Baseline), toy_out).
Proof. vm_compute. reflexivity. Qed.
Lemma toy_enter_second : submit_enter toy_cfg toy_draws toy_second toy_out = (Ok (toy_direct, Direct), toy_entered).
Proof. vm_compute. reflexivity. Qed.
Lemma toy_pay_second : submit_pay toy_cfg toy_draws toy_direct toy_entered = (Ok toy_pay1, toy_between).
Proof. vm_compute. reflexivity. Qed.
Lemma toy_come_back : resume toy_cfg toy_draws toy_flight (Minted true) toy_between = (Ok toy_returned, toy_late).
Proof. vm_compute. reflexivity. Qed.
Lemma toy_pay_first : submit_pay toy_cfg toy_draws toy_returned toy_late = (Ok toy_pay2, toy_end).
Proof. vm_compute. reflexivity. Qed.

Definition toy_paid1 : Paid := paid_for toy_cfg toy_direct toy_draws toy_entered toy_pay1.
Definition toy_paid2 : Paid := paid_for toy_cfg toy_returned toy_draws toy_late toy_pay2.
Definition toy_mid : Sys := mkSys toy_between [(toy_flight, Baseline)] [toy_paid1].
Definition toy_sys : Sys := mkSys toy_end [] [toy_paid2; toy_paid1].

Lemma toy_claimed_reachable : reachable toy_cfg (fresh_start toy_claimed).
Proof.
  destruct toy_claims as (H1 & H2 & _).
  assert (Hc : ∀ m m', after toy_claim m = m' → step toy_cfg (fresh_start m) (fresh_start m')).
  { intros m m' <-. exact (step_claim toy_cfg (picks toy_draws) id (2 ^ 40) 990000 990 "w" 0 (fresh_start m) ltac:(done)). }
  apply (reach_step toy_cfg (fresh_start toy_one)); [|by apply Hc].
  apply (reach_step toy_cfg (fresh_start toy_mgr)); [by apply reach_start|by apply Hc].
Qed.
Lemma toy_mid_reachable : reachable toy_cfg toy_mid.
Proof.
  apply (reach_step toy_cfg (mkSys toy_out [(toy_flight, Baseline)] [])).
  - apply (reach_step toy_cfg (fresh_start toy_claimed)); [exact toy_claimed_reachable|].
    exact (step_relay toy_cfg _ _ _ _ _ (fresh_start toy_claimed) toy_enter_first ltac:(discriminate)).
  - exact (step_paid toy_cfg _ _ _ _ _ _ (mkSys toy_out [(toy_flight, Baseline)] []) toy_enter_second toy_pay_second).
Qed.
Lemma toy_sys_reachable : reachable toy_cfg toy_sys.
Proof.
  apply (reach_step toy_cfg toy_mid); [apply toy_mid_reachable|].
  exact (step_back_paid toy_cfg toy_draws toy_flight Baseline (Minted true) [] [] toy_returned toy_late _ toy_end toy_mid eq_refl eq_refl toy_come_back toy_pay_first).
Qed.

Lemma shares_paid_once_witness :
  0 < defaultBatch toy_cfg ∧ reachable toy_cfg toy_sys ∧ NoDup (concat (map p_shares (paid toy_sys))) ∧
  concat (map p_shares (paid toy_sys)) = [2 ^ 40 + 3; 2 ^ 40 + 1025; 2 ^ 40 + 1026].
Proof.
  assert (Hd : 0 < defaultBatch toy_cfg) by (cbn; lia).
  split; [exact Hd|]. split; [apply toy_sys_reachable|]. split; [apply (shares_paid_once toy_cfg toy_sys Hd toy_sys_reachable)|vm_compute; reflexivity].
Defined.

Lemma expired_leases_block_claims_witness :
  ∃ m, size (active m) = 2%nat ∧ forallb (λ p, l_expires p.2 <? 5000000) (map_to_list (active m)) = true ∧
  ∃ e m', claim (toy_cfg_of 2) (picks toy_draws) id 0 5000000000 5000000 "someone" 512 m = (Err e, m') ∧ active m' = active m.
Proof.
  exists toy_claimed. split; [vm_compute; reflexivity|]. split; [vm_compute; reflexivity|].
  destruct (expired_leases_block_claims (toy_cfg_of 2) (picks toy_draws) id 0 5000000000 5000000 "someone" 512 toy_claimed)
    as (e & m' & Hc & _ & Ha & _); [vm_compute; discriminate|].
  exists e, m'. split; [exact Hc|exact Ha].
Defined.

(** A third submit of the same miner, with a nonce between the two. *)
Definition toy_third : Req := toy_req 5120 false 15 [].
Definition no_seen : Seen := mkSeen ∅ ∅ ∅ ∅ ∅.
Lemma late_relay_lowers_nonce_witness :
  let scope := submitNonceScope (t_signer toy_returned) "w" in
  nonce_max (seen toy_late) !! scope = Some 20 ∧ nonce_max (seen toy_end) !! scope = Some 10 ∧
  validateHybridSignature toy_cfg (seen toy_late) toy_third = Err "replay" ∧
  validateHybridSignature toy_cfg (seen toy_end) toy_third = Ok (t_signer toy_returned).
Proof.
  destruct (late_relay_lowers_nonce toy_cfg toy_draws toy_returned toy_late toy_pay2 toy_end 20
    ltac:(vm_compute; discriminate) ltac:(vm_compute; reflexivity) ltac:(vm_compute; reflexivity) toy_pay_first) as [Hl Hr].
  destruct (Hr toy_third no_seen ltac:(vm_compute; reflexivity) ltac:(vm_compute; reflexivity) ltac:(vm_compute; split; [reflexivity|discriminate]))
    as [Hbefore Hafter].
  split; [vm_compute; reflexivity|]. split; [exact Hl|]. split; [exact Hbefore|]. apply Hafter; apply (bool_decide_unpack _); vm_compute; exact I.
Defined.

Definition toy_order : OrderSnap := mkOrderSnap "o1" "00" 200.
Definition toy_order_claim : act Mgr ClaimReply :=
  handle_claim toy_cfg (picks toy_draws) id (2 ^ 40) 990000 990 (Some toy_order) (Some toy_order) "w" (toy_key "a") "" "ip" 0.
Definition toy_reply : ClaimReply := Eval vm_compute in got (mkReply (mkClaimed 0 0 0 0 false) 0 0 "" "" 0 "") (answer toy_order_claim toy_mgr).
Definition toy_ordered : Mgr := Eval vm_compute in after toy_order_claim toy_mgr.
Lemma order_lease_share_mod_witness :
  toy_order_claim toy_mgr = (Ok toy_reply, toy_ordered) ∧ cr_shareMod toy_reply = 100 ∧
  ∃ rec, active toy_ordered !! (2 ^ 40, 1024) = Some rec ∧ l_mod rec = 200 ∧ l_shareMod rec = 32.
Proof.
  assert (Hr : toy_order_claim toy_mgr = (Ok toy_reply, toy_ordered)) by (vm_compute; reflexivity).
  split; [exact Hr|]. split; [vm_compute; reflexivity|].
  destruct (order_lease_share_mod toy_cfg (picks toy_draws) id (2 ^ 40) 990000 990 toy_order "w" (toy_key "a") "" "ip" 0 toy_mgr toy_reply
    toy_ordered ltac:(discriminate) ltac:(cbn; lia) ltac:(cbn; lia) Hr) as (_ & _ & rec & Hk & Hm & Hs).
  exists rec. split; [|split; [exact Hm|]].
  - assert ((c_base (cr_claimed toy_reply), c_size (cr_claimed toy_reply)) = (2 ^ 40, 1024)) as <- by (vm_compute; reflexivity). exact Hk.
  - rewrite Hs. vm_compute. reflexivity.
Defined.
End toy.
