(* ===== verification/HmsSeal.v ===== *)
(** The HMS lane: its pure rules.

    Sources: internal/hms: seal.go, manifest.go, challenge.go, ids.go, rewards.go, hexutil.go, the
    limits of abuse.go.

    Byte arrays are byte strings.  [big.Int] values are [Z]; a [big.Float] is an [f64] whose rounding
    precision is an argument. *)
From S2P Require Import Prelude Float64 GoText GoNum Json Address CoordShares.

(** * Big-endian bytes *)

(** [new(big.Int).SetBytes] *)
Fixpoint be_acc (acc : Z) (s : string) : Z :=
  match s with EmptyString => acc | String a r => be_acc (256 * acc + Z.of_nat (nat_of_ascii a)) r end.
Definition be_value (s : string) : Z := be_acc 0 s.
(** The low [n] bytes, most significant first; two's complement for a negative number. *)
Fixpoint be_fixed (n : nat) (z : Z) (acc : string) : string :=
  match n with O => acc | S n => be_fixed n (z / 256) (String (ascii_of_nat (Z.to_nat (z mod 256))) acc) end.
(** [binary.BigEndian.PutUint64] *)
Definition be64 (z : Z) : string := be_fixed 8 z EmptyString.
Definition bit_len (z : Z) : Z := if z =? 0 then 0 else Z.log2 (Z.abs z) + 1.
(** [big.Int.Bytes]: no leading zero. *)
Definition big_bytes (z : Z) : string := be_fixed (Z.to_nat ((bit_len z + 7) / 8)) (Z.abs z) EmptyString.
(** [copy] of a source into a fresh array of [n] bytes. *)
Definition copy_to (n : nat) (s : string) : string := str_take n (s +:+ zeros n).

(** * Proof-of-hash seals *)

Section seal.
Context `{Crypto}.

Definition SealHash (epochID : Z) (manifestRoot poolID : string) (nonce : Z) : string :=
  sha256 (be64 epochID +:+ manifestRoot +:+ poolID +:+ be64 nonce).
End seal.

Fixpoint below (hash target : string) : bool :=
  match hash, target with
  | String a h, String b t =>
      if (nat_of_ascii a <? nat_of_ascii b)%nat then true
      else if (nat_of_ascii b <? nat_of_ascii a)%nat then false else below h t
  | _, _ => false
  end.
Definition HashBelowTarget (hash target : string) : bool :=
  if negb (str_len hash =? 32) || negb (str_len target =? 32) then false else below hash target.

(** Round the exact value [m * 2^e] to [p] bits, to nearest even. *)
Definition round_prec (p m e : Z) : f64 :=
  let k := Z.log2 (Z.abs m) - (p - 1) in
  if k <=? 0 then F64 m e else F64 (Z.sgn m * rne (Z.abs m) (2 ^ k)) (e + k).

Definition seal_ratio (actualSec desiredSec : Z) (clamp : f64) : f64 :=
  let ratio := f_div (f_of_Z actualSec) (f_of_Z desiredSec) in
  let ratio := if f_ltb ratio (f_div f1 clamp) then f_div f1 clamp else ratio in
  if f_ltb clamp ratio then clamp else ratio.

(** The product is a [big.Float] with the precision [SetInt] gave the old target: its bit length, at
    least 64. *)
Definition seal_adjusted (cur : Z) (ratio : f64) : Z :=
  let adj := f_trunc (round_prec (Z.max 64 (bit_len cur)) (cur * mant ratio) (expo ratio)) in
  if 256 <? bit_len adj then 2 ^ 256 - 1 else adj.

Definition RetargetSeal (oldTarget : string) (actualSec desiredSec : Z) (clamp : f64) : string :=
  let out := copy_to 32 oldTarget in
  if (desiredSec <=? 0) || (actualSec <=? 0) || negb (str_len oldTarget =? 32) then out
  else
    let b := big_bytes (seal_adjusted (be_value oldTarget) (seal_ratio actualSec desiredSec clamp)) in
    str_take (32 - String.length b) out +:+ b.

Definition ClampRatio (actual desired : Z) (clamp : f64) : f64 :=
  if (desired <=? 0) || (actual <=? 0) then f1
  else
    let r := f_div (f_of_Z actual) (f_of_Z desired) in
    if f_ltb r (f_div f1 clamp) then f_div f1 clamp else if f_ltb clamp r then clamp else r.

(** * Manifest *)

Section manifest.
Context `{Crypto}.

(** [if len(x) == 32 { Write(x) } else { sum := sha256.Sum256(x); Write(sum) }] *)
Definition digest_or_hash (ct : string) : string := if str_len ct =? 32 then ct else sha256 ct.

Definition LeafHash (chunkID ciphertextSHA256 : string) (size : Z) (erasureMeta : string) : string :=
  sha256 (sha256 (chunkID +:+ digest_or_hash ciphertextSHA256 +:+ be64 size +:+ erasureMeta)).

Definition pairHash (a b : string) : string := sha256 (sha256 (a +:+ b)).

Fixpoint next_level (level : list string) : list string :=
  match level with
  | a :: b :: r => pairHash a b :: next_level r
  | [a] => [pairHash a a]
  | [] => []
  end.
(** [for len(level) > 1]; as many passes as there are leaves are enough ([merkle_fuel]). *)
Fixpoint merkle (fuel : nat) (level : list string) : list string :=
  match fuel with
  | O => level
  | S fuel => if (1 <? length level)%nat then merkle fuel (next_level level) else level
  end.
Definition MerkleRoot (leaves : list string) : string :=
  match leaves with
  | [] => zeros 32
  | _ => List.hd EmptyString (merkle (length leaves) leaves)
  end.

(** * Proofs of storage *)

Definition ProofBinding (epochID : Z) (workerID chunkID : string) (sectorOffset : Z) (ciphertextSHA256 : string) : string :=
  sha256 (sha256 (be64 epochID +:+ workerID +:+ chunkID +:+ be64 sectorOffset +:+ digest_or_hash ciphertextSHA256)).

Definition ExpectedProofHash (binding sectorProof : string) : string := sha256 (sha256 (binding +:+ sectorProof)).

Fixpoint str_drop (n : nat) (s : string) : string :=
  match n, s with S n', String _ s' => str_drop n' s' | _, _ => s end.

(** Offsets are below 2^63 ([sectorOffset]). *)
Definition SectorProofFromCiphertext (ciphertext : string) (offset : Z) : string :=
  if str_len ciphertext =? 0 then zeros 32
  else
    let start := if str_len ciphertext <=? offset then 0 else offset in
    let stop := Z.min (start + 32) (str_len ciphertext) in
    sha256 (copy_to 32 (str_take (Z.to_nat (stop - start)) (str_drop (Z.to_nat start) ciphertext))).
End manifest.

(** [ob] is the random number of eight bytes. *)
Definition sectorOffset (size ob : Z) : Z := if size <=? 32 then 0 else ob mod (size - 32).

(** * Identifiers *)

Definition alnum (a : ascii) : bool :=
  in_range 48 57 a || in_range 65 90 a || in_range 97 122 a.
Definition id_char (a : ascii) : bool :=
  alnum a || in_range 45 46 a || in_range 95 95 a.
Definition workerIDPattern (s : string) : bool :=
  match s with
  | EmptyString => false
  | String a r => alnum a && all_chars id_char r && (str_len r <=? 62)
  end.
Definition slash_char (a : ascii) : bool := in_range 47 47 a || in_range 92 92 a.

Definition ValidateWorkerID (workerID : string) : result unit :=
  let workerID := trim_space workerID in
  if String.eqb workerID "" then Err "worker_id required"
  else if str_contains workerID ".." || any_char slash_char workerID then Err "worker_id path characters rejected"
  else if negb (workerIDPattern workerID) then Err "worker_id must be alphanumeric (._- allowed, max 63)"
  else Ok tt.

Definition ValidateChunkID (chunkID : string) : result unit :=
  let chunkID := trim_space chunkID in
  if String.eqb chunkID "" then Err "chunk_id required"
  else if str_contains chunkID ".." || any_char slash_char chunkID then Err "chunk_id path characters rejected"
  else if 128 <? str_len chunkID then Err "chunk_id too long"
  else Ok tt.

(** * Hexadecimal settings *)

Definition decodeHex (s : string) : option string := hex_decode (trim_space (trim_prefix (to_lower s) "0x")).
Definition decodeHex32 (s fallback : string) : string :=
  if String.eqb (trim_space s) "" then copy_to 32 fallback
  else match decodeHex s with
       | None => copy_to 32 fallback
       | Some b =>
           if str_len b =? 0 then copy_to 32 fallback
           else let b := str_drop (String.length b - 32) b in zeros (32 - String.length b) +:+ b
       end.

(** * Seal rewards *)

Definition HMSUnitsPerCoin : Z := 100000000.
Definition SealEpochBaseBudgetHMS : f64 := lit 1 100.
Definition SealWinnerShareRate : f64 := lit 75 100.

Record SealPayoutLine := mkLine {
  WorkerID : string; WinnerUnits : Z; ParticipationUnits : Z; TotalUnits : Z; SharesOK : Z;
}.

Definition hmsToUnits (hms : f64) : Z :=
  if f_leb hms f0 then 0
  else let u := f_round (f_mul hms (f_of_Z HMSUnitsPerCoin)) in if u <? 0 then 0 else u.

Definition SealEpochBudgetFromPrepaidUnits (prepaidUnits : Z) : Z :=
  let base := hmsToUnits SealEpochBaseBudgetHMS in
  if prepaidUnits =? 0 then base else u64 (base + prepaidUnits / 100).
Definition SealEpochBudgetUnits (prepaidHMCSum : f64) : Z :=
  SealEpochBudgetFromPrepaidUnits
    (if f_ltb f0 prepaidHMCSum then f_round (f_mul prepaidHMCSum (f_of_Z HMSUnitsPerCoin)) else 0).

Definition trimWorkerID (wid : string) : string := trim_space wid.

Record sharePart := mkPart { sp_worker : string; sp_floor : Z; sp_frac : f64 }.

(** One worker's exact part of the pool, as the code computes it. *)
Definition raw_part (partPool totalShares n : Z) : f64 :=
  f_div (f_mul (f_of_Z partPool) (f_of_Z n)) (f_of_Z totalShares).
Definition share_part (partPool totalShares : Z) (wid : string) (n : Z) : sharePart :=
  let raw := raw_part partPool totalShares n in
  let floor := f_trunc raw in
  mkPart wid floor (f_sub raw (f_of_Z floor)).
Definition share_parts (partPool totalShares : Z) (shares : list (string * Z)) : list sharePart :=
  omap (λ p, let wid := trimWorkerID p.1 in
             if String.eqb wid "" || (p.2 =? 0) then None else Some (share_part partPool totalShares wid p.2)) shares.

Definition better (p q : sharePart) : bool :=
  f_ltb (sp_frac q) (sp_frac p) || (f_eqb (sp_frac p) (sp_frac q) && String.ltb (sp_worker p) (sp_worker q)).
(** [for i := 1; ...]: the index of the best part; [cur] is [parts[best]]. *)
Fixpoint best_from (i best : nat) (cur : sharePart) (rest : list sharePart) : nat :=
  match rest with
  | [] => best
  | p :: r => if better p cur then best_from (S i) i p r else best_from (S i) best cur r
  end.
Definition best_part (parts : list sharePart) : nat :=
  match parts with [] => O | p :: r => best_from 1 0 p r end.
Definition bump (p : sharePart) : sharePart := mkPart (sp_worker p) (sp_floor p + 1) f0.
(** [for assigned < partPool && len(parts) > 0]: [n] passes. *)
Fixpoint spread (n : nat) (parts : list sharePart) : list sharePart :=
  match n with O => parts | S n => spread n (alter bump (best_part parts) parts) end.

Definition total_shares (shares : list (string * Z)) : Z :=
  foldl (λ acc p, if String.eqb (trimWorkerID p.1) "" then acc else u64 (acc + p.2)) 0 shares.
Definition shares_of (shares : list (string * Z)) (wid : string) : Z :=
  default 0 (list_to_map (M := gmap string Z) shares !! wid).

Definition ensure (wid : string) (m : gmap string SealPayoutLine) : SealPayoutLine :=
  default (mkLine wid 0 0 0 0) (m !! wid).
Definition winner_line (winnerID : string) (units : Z) : gmap string SealPayoutLine :=
  {[ winnerID := mkLine winnerID units 0 0 0 ]}.
Definition add_part (shares : list (string * Z)) (m : gmap string SealPayoutLine) (p : sharePart) : gmap string SealPayoutLine :=
  let line := ensure (sp_worker p) m in
  <[ sp_worker p := mkLine (WorkerID line) (WinnerUnits line) (sp_floor p) (TotalUnits line) (shares_of shares (sp_worker p)) ]> m.
Definition total_line (l : SealPayoutLine) : SealPayoutLine :=
  mkLine (WorkerID l) (WinnerUnits l) (ParticipationUnits l) (u64 (WinnerUnits l + ParticipationUnits l)) (SharesOK l).
Definition sole_winner (winnerID : string) (budgetUnits : Z) : gmap string SealPayoutLine :=
  {[ winnerID := mkLine winnerID budgetUnits 0 budgetUnits 0 ]}.

(** [sharesOK] is the map's entries in the order its [range] visits them; the lines come by worker. *)
Definition ComputeSealEpochPayouts (budgetUnits : Z) (winnerID : string) (sharesOK : list (string * Z))
  : result (gmap string SealPayoutLine) :=
  let winnerID := trimWorkerID winnerID in
  if budgetUnits =? 0 then Err "seal budget must be > 0"
  else if String.eqb winnerID "" then Err "seal winner required"
  else if (length sharesOK =? 0)%nat then Ok (sole_winner winnerID budgetUnits)
  else if total_shares sharesOK =? 0 then Ok (sole_winner winnerID budgetUnits)
  else
    let winnerUnits := f_trunc (f_mul (f_of_Z budgetUnits) SealWinnerShareRate) in
    let partPool := u64 (budgetUnits - winnerUnits) in
    let parts := share_parts partPool (total_shares sharesOK) sharesOK in
    let assigned := foldl (λ acc p, u64 (acc + sp_floor p)) 0 parts in
    let parts := spread (Z.to_nat (partPool - assigned)) parts in
    let byWorker := foldl (add_part sharesOK) (winner_line winnerID winnerUnits) parts in
    let out := total_line <$> byWorker in
    if negb (u64 (msum TotalUnits out) =? budgetUnits) then Err "seal payout drift: sum=%d budget=%d"
    else Ok out.

(** * Rate limits *)

Record AbuseGuard := mkGuard { byKey : gmap string (list Z); limit : Z; window : Z }.
Definition NewAbuseGuard (lim win : Z) : AbuseGuard :=
  mkGuard ∅ (if lim <? 1 then 60 else lim) (if win <? 1000000000 then 60000000000 else win).

Definition Allow (now : Z) (key : string) (g : AbuseGuard) : bool * AbuseGuard :=
  let kept := filter (λ t, now - window g ≤ t) (default [] (byKey g !! key)) in
  if limit g <=? Z.of_nat (length kept) then (false, mkGuard (<[key := kept]> (byKey g)) (limit g) (window g))
  else (true, mkGuard (<[key := kept ++ [now]]> (byKey g)) (limit g) (window g)).
Definition AllowHTTP (now1 now2 : Z) (ip workerID : string) (g : AbuseGuard) : bool * AbuseGuard :=
  match Allow now1 (ip +:+ "|" +:+ trim_space workerID) g with
  | (false, g) => (false, g)
  | (true, g) => if String.eqb workerID "" then (true, g) else Allow now2 ("w:" +:+ workerID) g
  end.
