(* ===== verification/HmsBase.v ===== *)
(** The HMS lane: configuration, tables, signed messages, and the checks its operations share.

    Sources: internal/hms: config.go, db.go, coordinator.go, sign.go, capacity.go, market_health.go,
    market_replication.go, ssrf.go; internal/pathsafe.

    [Db] groups the tables of the lane's database with the files of the market and the peers the
    Stratum registry keeps in memory.  Rows a query reads without an ORDER BY come in the order of
    insertion.  One operation takes one reading of the clock, in seconds. *)
From S2P Require Import Prelude Float64 GoText GoNum Json Address CoordShares HmsSeal.

(** * Environment *)

Record Config := mkConfig {
  PoolID : string; EpochDuration : Z; FreezeAfter : Z; SealWindow : Z;   (** durations in seconds *)
  MinQuotaGB : Z; MaxQuotaGB : Z; MaxStrikes : Z; ChallengeTTL : Z; WorkerOnlineSec : Z; RepairIntervalSec : Z;
  HealthSlashStreak : Z; InitialSealTarget : string; DesiredSealSec : Z; SealRetargetClamp : f64;
}.

(** [os.Getenv] *)
Definition environ : Type := string → string.

Definition envInt (env : environ) (key : string) (def : Z) : Z :=
  let v := trim_space (env key) in
  if String.eqb v "" then def else default def (atoi v).
Definition envTruthy (env : environ) (key : string) : bool :=
  let v := trim_space (to_lower (env key)) in
  String.eqb v "1" || String.eqb v "true" || String.eqb v "yes" || String.eqb v "on".
(** A duration of [n] seconds; [time.Duration] counts nanoseconds in an [int64]. *)
Definition seconds (n : Z) : Z := Z.quot (i64 (n * 1000000000)) 1000000000.
Definition positive_or (n def : Z) : Z := if 0 <? n then n else def.

Definition defaultSealTarget : string := zeros 2 +:+ byte1 15 +:+ byte1 255 +:+ zeros 28.

Definition ConfigFromEnv (env : environ) : Config :=
  let maxStrikes := envInt env "HMS_MAX_STRIKES" 3 in
  let pool := trim_space (env "HMS_POOL_ID") in
  mkConfig (if String.eqb pool "" then "hackme-official" else pool)
    (seconds (positive_or (envInt env "HMS_EPOCH_SECONDS" 3600) 3600))
    (seconds (positive_or (envInt env "HMS_FREEZE_AFTER_SEC" 3000) 3000))
    (seconds (positive_or (envInt env "HMS_SEAL_WINDOW_SEC" 600) 600))
    (envInt env "HMS_MIN_QUOTA_GB" 50) (envInt env "HMS_MAX_QUOTA_GB" 16384) maxStrikes
    (seconds (positive_or (envInt env "HMS_CHALLENGE_TTL_SEC" 900) 900))
    (positive_or (envInt env "HMS_WORKER_ONLINE_SEC" 300) 300)
    (envInt env "HMS_REPAIR_INTERVAL_SEC" 30) (envInt env "HMS_HEALTH_SLASH_STREAK" maxStrikes)
    (decodeHex32 (env "HMS_INITIAL_SEAL_TARGET") defaultSealTarget)
    (envInt env "HMS_DESIRED_SEAL_SEC" 600) (f_of_Z 4).

Definition stratumInsecureEnabled (env : environ) : bool := String.eqb (trim_space (env "HMS_STRATUM_INSECURE")) "1".

(** What the package asks of others: [net/url], the resolver, the address classes of [net.IP]; and
    whether the SQLite driver stores a nil byte slice as NULL. *)
Record Url := mkUrl { u_scheme : string; u_user : bool; u_hostname : string; u_bare : string }.
Record Ip := mkIp { ip_unspecified : bool; ip_multicast : bool; ip_linklocal : bool; ip_169_254 : bool; ip_loopback : bool; ip_private : bool }.
Class Net := {
  url_parse : string → option Url;   (** [u_bare]: the URL printed without path, query and fragment *)
  parse_ip : string → option Ip;
  lookup_ip : string → option (list Ip);
  nil_is_null : bool;
}.

(** * Endpoints of storage workers *)

Definition strip_any_of (cs : list ascii) (s : string) : string := strip_while (String.length s) (map (λ a, String a EmptyString) cs) s.
Definition trim_right_of (cs : list ascii) (s : string) : string := srev (strip_any_of cs (srev s)).
Definition trim_of (cs : list ascii) (s : string) : string := trim_right_of cs (strip_any_of cs s).
Definition slash : ascii := ascii_of_nat 47.
Definition brackets : list ascii := [ascii_of_nat 91; ascii_of_nat 93].

Definition ipUnsafeForEgress (ip : Ip) (allowPrivate : bool) : bool :=
  ip_unspecified ip || ip_multicast ip || ip_linklocal ip || ip_169_254 ip
  || (negb allowPrivate && (ip_loopback ip || ip_private ip)).

Section net.
Context `{Net}.

Definition assertHostSafeForEgress (host : string) (allowPrivate : bool) : result unit :=
  let host := trim_space (trim_of brackets host) in
  if String.eqb host "" then Err "empty host"
  else match parse_ip host with
  | Some ip => if ipUnsafeForEgress ip allowPrivate then Err "endpoint host resolves to blocked address class" else Ok tt
  | None =>
      match lookup_ip host with
      | None => Err "endpoint host dns lookup failed"
      | Some [] => Err "endpoint host dns returned no addresses"
      | Some ips => if existsb (λ ip, ipUnsafeForEgress ip allowPrivate) ips
                    then Err "endpoint host resolves to blocked address class" else Ok tt
      end
  end.
Definition allowPrivateEndpoints (env : environ) : bool :=
  envTruthy env "HMS_ALLOW_PRIVATE_ENDPOINTS" || envTruthy env "HACKME_HMS_ALLOW_PRIVATE_ENDPOINTS".
Definition ValidateWorkerEndpointURL (env : environ) (raw : string) : result string :=
  let raw := trim_space (trim_right_of [slash] raw) in
  if String.eqb raw "" then Ok ""
  else match url_parse raw with
  | None => Err "invalid endpoint url"
  | Some u =>
      if negb (String.eqb (u_scheme u) "http") && negb (String.eqb (u_scheme u) "https")
      then Err "endpoint url scheme must be http or https"
      else if u_user u then Err "endpoint url must not include userinfo"
      else let host := trim_space (u_hostname u) in
      if String.eqb host "" then Err "endpoint url missing host"
      else rbind (assertHostSafeForEgress host (allowPrivateEndpoints env))
             (λ _, Ok (trim_right_of [slash] (u_bare u)))
  end.
End net.

(** * Tables *)

Record Worker := mkWorker {
  w_role : string; w_pub : string; w_quota : Z; w_strikes : Z; w_banned : Z; w_seen : Z; w_created : Z; w_endpoint : string;
}.
Record Chunk := mkChunk {
  ch_id : string; ch_ct : string; ch_size : Z; ch_meta : string; ch_worker : string; ch_epoch : Z; ch_created : Z;
}.
(** [ManifestRoot] is empty while it is NULL. *)
Record Epoch := mkEpoch {
  EpochID : Z; StartedUnix : Z; FreezeUnix : Z; SealEndUnix : Z; ManifestRoot : string; SealTarget : string;
  SealNonce : Z; SealWorkerID : string; Sealed : bool; SealFoundUnix : Z; PayoutsEnabled : bool;
  SealBudgetUnits : Z; PayoutsFinalized : bool;
}.
Record Challenge := mkChal {
  c_epoch : Z; c_worker : string; c_chunk : string; c_offset : Z; c_expected : string; c_sector : string; c_expires : Z;
  c_answered : bool; c_ok : bool;
}.
Record Payout := mkPayout { p_winner : Z; p_part : Z; p_total : Z; p_shares : Z; p_finalized : Z }.
Record Warm := mkWarm { wa_units : Z; wa_shares : Z; wa_updated : Z }.
Record Peer := mkPeer {
  pe_worker : string; pe_remote : string; pe_connected : Z; pe_seen : Z; pe_th : f64; pe_ok : Z; pe_fail : Z;
  pe_times : list Z; pe_mode : string;
}.

Record StorageOrder := mkOrder {
  Label : string; ClientRef : string; UploadToken : string; SizePlanBytes : Z; BytesUploaded : Z; ChunkCount : Z; Status : string;
  QuoteHash : string; PrepaidHMC : f64; RetentionDays : Z; PaymentID : string; HealthStatus : string; HealthDetail : string;
  AlertUnix : Z; CreatedUnix : Z; UpdatedUnix : Z;
}.
Record OrderChunk := mkOChunk {
  oc_chunk : string; oc_worker : string; oc_size : Z; oc_ct : string; oc_replicas : Z; oc_created : Z;
}.
Record Health := mkHealth { healthy : bool; fail_count : Z; slashed : bool; last_ok : Z }.
Record Repair := mkRepair { rp_order : string; rp_index : Z; rp_chunk : string; rp_from : string; rp_to : string; rp_bytes : Z; rp_created : Z }.
(** A file below one of the two roots: root, worker directory, file name. *)
Definition path : Type := string * string * string.

(** [epochs] is in descending order of its key. *)
Record LaneDb := mkLane {
  epochs : list Epoch; challenges : gmap string Challenge; nonces : gmap (Z * Z) string;
  shares : gmap (Z * string) (Z * Z); payouts : gmap (Z * string) Payout; warm : gmap string Warm;
  peers : gmap string Peer;
}.
Record MarketDb := mkMarket {
  orders : gmap string StorageOrder; order_chunks : gmap (string * Z) OrderChunk;
  replicas : gmap (string * Z) (list string); health : gmap (string * Z * string) Health; repairs : list Repair;
  files : gmap path string;
}.
Record Db := mkDb { workers : gmap string Worker; chunks : list Chunk; lane : LaneDb; market : MarketDb }.

Definition empty_db : Db := mkDb ∅ [] (mkLane [] ∅ ∅ ∅ ∅ ∅ ∅) (mkMarket ∅ ∅ ∅ ∅ [] ∅).

Definition set_workers (f : gmap string Worker → gmap string Worker) (d : Db) : Db := mkDb (f (workers d)) (chunks d) (lane d) (market d).
Definition set_chunks (f : list Chunk → list Chunk) (d : Db) : Db := mkDb (workers d) (f (chunks d)) (lane d) (market d).
Definition set_lane (f : LaneDb → LaneDb) (d : Db) : Db := mkDb (workers d) (chunks d) (f (lane d)) (market d).
Definition set_market (f : MarketDb → MarketDb) (d : Db) : Db := mkDb (workers d) (chunks d) (lane d) (f (market d)).

Definition set_epochs (f : list Epoch → list Epoch) : Db → Db :=
  set_lane (λ l, mkLane (f (epochs l)) (challenges l) (nonces l) (shares l) (payouts l) (warm l) (peers l)).
Definition set_challenges (f : gmap string Challenge → gmap string Challenge) : Db → Db :=
  set_lane (λ l, mkLane (epochs l) (f (challenges l)) (nonces l) (shares l) (payouts l) (warm l) (peers l)).
Definition set_nonces (f : gmap (Z * Z) string → gmap (Z * Z) string) : Db → Db :=
  set_lane (λ l, mkLane (epochs l) (challenges l) (f (nonces l)) (shares l) (payouts l) (warm l) (peers l)).
Definition set_shares (f : gmap (Z * string) (Z * Z) → gmap (Z * string) (Z * Z)) : Db → Db :=
  set_lane (λ l, mkLane (epochs l) (challenges l) (nonces l) (f (shares l)) (payouts l) (warm l) (peers l)).
Definition set_payouts (f : gmap (Z * string) Payout → gmap (Z * string) Payout) : Db → Db :=
  set_lane (λ l, mkLane (epochs l) (challenges l) (nonces l) (shares l) (f (payouts l)) (warm l) (peers l)).
Definition set_warm (f : gmap string Warm → gmap string Warm) : Db → Db :=
  set_lane (λ l, mkLane (epochs l) (challenges l) (nonces l) (shares l) (payouts l) (f (warm l)) (peers l)).
Definition set_peers (f : gmap string Peer → gmap string Peer) : Db → Db :=
  set_lane (λ l, mkLane (epochs l) (challenges l) (nonces l) (shares l) (payouts l) (warm l) (f (peers l))).

Definition set_orders (f : gmap string StorageOrder → gmap string StorageOrder) : Db → Db :=
  set_market (λ m, mkMarket (f (orders m)) (order_chunks m) (replicas m) (health m) (repairs m) (files m)).
Definition set_order_chunks (f : gmap (string * Z) OrderChunk → gmap (string * Z) OrderChunk) : Db → Db :=
  set_market (λ m, mkMarket (orders m) (f (order_chunks m)) (replicas m) (health m) (repairs m) (files m)).
Definition set_replicas (f : gmap (string * Z) (list string) → gmap (string * Z) (list string)) : Db → Db :=
  set_market (λ m, mkMarket (orders m) (order_chunks m) (f (replicas m)) (health m) (repairs m) (files m)).
Definition set_health (f : gmap (string * Z * string) Health → gmap (string * Z * string) Health) : Db → Db :=
  set_market (λ m, mkMarket (orders m) (order_chunks m) (replicas m) (f (health m)) (repairs m) (files m)).
Definition set_repairs (f : list Repair → list Repair) : Db → Db :=
  set_market (λ m, mkMarket (orders m) (order_chunks m) (replicas m) (health m) (f (repairs m)) (files m)).
Definition set_files (f : gmap path string → gmap path string) : Db → Db :=
  set_market (λ m, mkMarket (orders m) (order_chunks m) (replicas m) (health m) (repairs m) (f (files m))).

Definition chunk_of (id : string) (d : Db) : option Chunk := List.find (λ c, String.eqb (ch_id c) id) (chunks d).
(** [UPDATE hms_epochs ... WHERE epoch_id=?] *)
Definition on_epoch (id : Z) (f : Epoch → Epoch) : Db → Db :=
  set_epochs (map (λ e, if EpochID e =? id then f e else e)).
Definition on_worker (id : string) (f : Worker → Worker) : Db → Db := set_workers (alter f id).
(** Writes of integers the driver refuses from 2^63 on. *)
Definition sql_uint {S} (v : Z) : act S unit := aguard ((0 <=? v) && (v <? two63)) "uint64 values with high bit set are not supported".

(** * Signed messages *)

Record StorageSubmitPayload := mkStorageSubmit { s_worker : string; s_challenge : string; s_epoch : Z; s_proof : string }.
Record SealSubmitPayload := mkSealSubmit { z_worker : string; z_epoch : Z; z_nonce : Z }.

Section sign.
Context `{Crypto}.

Definition validateWorkerPubkeyHex (pubHex : string) : result unit :=
  match hex_decode (trim_space pubHex) with
  | Some raw => if str_len raw =? 32 then Ok tt else Err "invalid worker pubkey"
  | None => Err "invalid worker pubkey"
  end.

Definition verifyEd25519 (pubHex body sigHex : string) : result unit :=
  match hex_decode (trim_space pubHex) with
  | None => Err "invalid worker pubkey"
  | Some pub =>
      if negb (str_len pub =? 32) then Err "invalid worker pubkey"
      else match hex_decode (trim_space sigHex) with
      | None => Err "invalid signature"
      | Some sig =>
          if negb (str_len sig =? 64) then Err "invalid signature"
          else if ed25519_verify pub body sig then Ok tt else Err "signature verify failed"
      end
  end.

Definition VerifyStorageSubmit (p : StorageSubmitPayload) (pubHex sigHex : string) : result unit :=
  verifyEd25519 pubHex
    (jobject [jmember "worker_id" (json_string (trim_space (s_worker p))); jmember "challenge_id" (json_string (trim_space (s_challenge p)));
              jmember "epoch_id" (fmt_int (s_epoch p)); jmember "proof_hex" (json_string (s_proof p))]) sigHex.
Definition VerifySealSubmit (p : SealSubmitPayload) (pubHex sigHex : string) : result unit :=
  verifyEd25519 pubHex
    (jobject [jmember "worker_id" (json_string (trim_space (z_worker p))); jmember "epoch_id" (fmt_int (z_epoch p));
              jmember "nonce" (fmt_uint (z_nonce p))]) sigHex.
End sign.

(** * Workers *)

Definition registeredPubkey (workerID : string) (d : Db) : result string :=
  match workers d !! trimWorkerID workerID with
  | None => Err "worker not registered"
  | Some w => let pub := trim_space (w_pub w) in if String.eqb pub "" then Err "worker pubkey missing" else Ok pub
  end.
Definition workerBanned (workerID : string) (epochID : Z) (d : Db) : bool :=
  match workers d !! workerID with Some w => epochID <? w_banned w | None => false end.
Definition addStrike (cfg : Config) (workerID : string) (epochID : Z) : Db → Db :=
  on_worker workerID (λ w, mkWorker (w_role w) (w_pub w) (w_quota w) (w_strikes w + 1)
    (if MaxStrikes cfg <=? w_strikes w + 1 then epochID + 1 else w_banned w) (w_seen w) (w_created w) (w_endpoint w)).
Definition touch_worker (now : Z) (w : Worker) : Worker :=
  mkWorker (w_role w) (w_pub w) (w_quota w) (w_strikes w) (w_banned w) now (w_created w) (w_endpoint w).

Definition workerOnlineCutoff (cfg : Config) (now : Z) : Z :=
  now - (if WorkerOnlineSec cfg <=? 0 then 300 else WorkerOnlineSec cfg).
Definition workerOnline (cfg : Config) (now : Z) (workerID : string) (d : Db) : bool :=
  match workers d !! workerID with Some w => workerOnlineCutoff cfg now <=? w_seen w | None => false end.

(** * Files of the market *)

Definition marketStorageRoot (env : environ) : string :=
  let v := trim_space (env "HMS_MARKET_STORAGE_ROOT") in
  if negb (String.eqb v "") then v else trim_space (env "HACKME_STORAGE_ROOT").
Definition marketDataRoot (env : environ) : string :=
  let v := trim_space (env "HMS_MARKET_DATA_DIR") in
  if negb (String.eqb v "") then v else "data/hms_market".

(** [name] is the chunk id with the suffix [.dat].  For a worker and a chunk id that validate,
    [filepath.Base] is the trimmed name and the cleaned path lies below the root. *)
Definition filepathJoinMarket (root workerID chunkID : string) : option path :=
  let root := trim_space root in
  if String.eqb root "" then None
  else if negb (is_ok (ValidateWorkerID workerID)) then None
  else if negb (is_ok (ValidateChunkID chunkID)) then None
  else Some (root, trim_space workerID, trim_space (chunkID +:+ ".dat")).

(** [pathsafe.Allow] and [AbsRE] on a joined path: every segment is made of [A-Za-z0-9._+-].
    [abs_ok] says it of the root made absolute. *)
Definition path_char (a : ascii) : bool := id_char a || in_range 43 43 a.
Definition pathAllowed (abs_ok : string → bool) (p : path) : bool :=
  let '(root, worker, name) := p in abs_ok root && all_chars path_char worker && all_chars path_char name.

Definition market_paths (env : environ) (workerID chunkID : string) : list path :=
  omap id [filepathJoinMarket (marketStorageRoot env) workerID chunkID; filepathJoinMarket (marketDataRoot env) workerID chunkID].

Definition readMarketChunkFile (env : environ) (workerID chunkID : string) (d : Db) : result string :=
  match omap (λ p, files (market d) !! p) (market_paths env workerID chunkID) with
  | b :: _ => Ok b
  | [] => Err "chunk file missing for worker %s"
  end.

Section files.
Context `{Crypto} (env : environ) (abs_ok : string → bool).

Fixpoint first_verified (want : string) (saw : bool) (ps : list path) (d : Db) : result string :=
  match ps with
  | [] => Err (if saw then "chunk %s ciphertext hash mismatch" else "chunk file missing for worker %s")
  | p :: ps =>
      if negb (pathAllowed abs_ok p) then first_verified want saw ps d
      else match files (market d) !! p with
      | None => first_verified want saw ps d
      | Some b => if String.eqb (sha256 b) want then Ok b else first_verified want true ps d
      end
  end.
Definition readVerifiedMarketChunkFile (workerID chunkID : string) (d : Db) : result string :=
  match chunk_of chunkID d with
  | None => Err "sql: no rows in result set"
  | Some c =>
      if negb (str_len (ch_ct c) =? 32) then Err "chunk %s has no registered ciphertext hash"
      else first_verified (ch_ct c) false (market_paths env workerID chunkID) d
  end.
Definition replicaFileOK (workerID chunkID : string) (d : Db) : bool := is_ok (readVerifiedMarketChunkFile workerID chunkID d).
End files.

(** * Health of replicas *)

Definition slash_streak (cfg : Config) : Z :=
  let streak := if HealthSlashStreak cfg <=? 0 then MaxStrikes cfg else HealthSlashStreak cfg in
  if streak <=? 0 then 3 else streak.

Definition recordReplicaHealth (cfg : Config) (now : Z) (orderID : string) (chunkIndex : Z) (workerID : string) (ok : bool) : Db → Db :=
  set_health (λ t, let k := (orderID, chunkIndex, workerID) in
    <[ k := match t !! k with
            | None => if ok then mkHealth true 0 false now else mkHealth false 1 false 0
            | Some h => if ok then mkHealth true 0 (slashed h) now
                        else mkHealth false (fail_count h + 1)
                               (if slash_streak cfg <=? fail_count h + 1 then true else slashed h) (last_ok h)
            end ]> t).
Definition order_chunk_of (chunkID : string) (d : Db) : option (string * Z) :=
  fst <$> List.find (λ kv, String.eqb (oc_chunk kv.2) chunkID) (map_to_list (order_chunks (market d))).
Definition recordStorageProofFailure (cfg : Config) (now : Z) (workerID chunkID : string) (d : Db) : Db :=
  match order_chunk_of chunkID d with
  | None => d
  | Some (orderID, chunkIndex) => recordReplicaHealth cfg now orderID chunkIndex workerID false d
  end.
