(* ===== verification/HmsLane.v ===== *)
(** The HMS lane: epochs, storage and seal workers, challenges, seals, shares and payouts.

    Sources: internal/hms: coordinator.go, settlement.go, warm.go, stratum_registry.go, stratum.go. *)
From S2P Require Import Prelude Float64 GoText GoNum Json Address CoordShares HmsSeal HmsBase.

Section lane.
Context `{Crypto} `{Net} (cfg : Config) (env : environ) (abs_ok : string → bool).

(** * Epochs *)

Definition startNextEpoch (now : Z) : act Db Epoch :=
  let! d := aget in
  let prevTarget := match epochs (lane d) with e :: _ => SealTarget e | [] => "" end in
  let prevTarget := if str_len prevTarget =? 32 then prevTarget else InitialSealTarget cfg in
  let lastID := match epochs (lane d) with e :: _ => EpochID e | [] => 0 end in
  let freeze := now + FreezeAfter cfg in
  let ep := mkEpoch (lastID + 1) now freeze (freeze + SealWindow cfg) "" prevTarget 0 "" false 0 false 0 false in
  amod (set_epochs (cons ep)) ;!;
  aret ep.

Definition ensureEpoch (now : Z) : act Db Epoch :=
  let! d := aget in
  match epochs (lane d) with ep :: _ => aret ep | [] => startNextEpoch now end.

(** [chunk_id NOT LIKE 'ord-%']: LIKE does not tell ASCII cases apart. *)
Definition in_manifest (epochID : Z) (c : Chunk) : bool :=
  (ch_epoch c =? epochID) && negb (has_prefix (to_lower (str_take 4 (ch_id c))) "ord-").
Definition leaf (c : Chunk) : string := LeafHash (ch_id c) (ch_ct c) (ch_size c) (ch_meta c).
Definition buildManifest (epochID : Z) (d : Db) : string :=
  MerkleRoot (map leaf (filter (λ c, in_manifest epochID c = true) (chunks d))).

Definition with_manifest (root : string) (e : Epoch) : Epoch :=
  mkEpoch (EpochID e) (StartedUnix e) (FreezeUnix e) (SealEndUnix e) root (SealTarget e) (SealNonce e) (SealWorkerID e)
    (Sealed e) (SealFoundUnix e) (PayoutsEnabled e) (SealBudgetUnits e) (PayoutsFinalized e).
Definition with_enabled (b : bool) (e : Epoch) : Epoch :=
  mkEpoch (EpochID e) (StartedUnix e) (FreezeUnix e) (SealEndUnix e) (ManifestRoot e) (SealTarget e) (SealNonce e) (SealWorkerID e)
    (Sealed e) (SealFoundUnix e) b (SealBudgetUnits e) (PayoutsFinalized e).

Definition no_manifest (e : Epoch) : bool := str_len (ManifestRoot e) =? 0.

Definition tickEpoch (now : Z) : act Db unit :=
  let! ep := ensureEpoch now in
  if (FreezeUnix ep <=? now) && no_manifest ep then
    let! d := aget in
    let root := buildManifest (EpochID ep) d in
    amod (on_epoch (EpochID ep) (λ e, with_enabled false (with_manifest root e)))
  else if (SealEndUnix ep <=? now) && negb (Sealed ep) then aret tt
  else
    (if (SealEndUnix ep <=? now) && Sealed ep then
       amod (on_epoch (EpochID ep) (with_enabled true)) ;!; atry (startNextEpoch now)
     else aret tt) ;!;
    (if (SealEndUnix ep + EpochDuration cfg <=? now) && negb (Sealed ep) then atry (startNextEpoch now) else aret tt).

(** * Registration *)

Definition ValidateQuota (quotaGB : Z) : result unit :=
  if quotaGB <? MinQuotaGB cfg then Err "quota below minimum %d GB"
  else if MaxQuotaGB cfg <? quotaGB then Err "quota above maximum %d GB"
  else Ok tt.

Definition RegisterStorageWorkerEndpoint (now : Z) (workerID pubHex : string) (quotaGB : Z) (endpointURL : string) : act Db unit :=
  let workerID := trimWorkerID workerID in
  let pubHex := trim_space (to_lower pubHex) in
  alift (ValidateWorkerID workerID) ;!;
  alift (ValidateQuota quotaGB) ;!;
  alift (validateWorkerPubkeyHex pubHex) ;!;
  let! ep := alift (ValidateWorkerEndpointURL env endpointURL) in
  let! d := aget in
  match workers d !! workerID with
  | Some w =>
      aguard (equal_fold (trim_space (w_pub w)) pubHex) "worker pubkey immutable — already registered with different key" ;!;
      aguard (workerOnlineCutoff cfg now <=? w_seen w) "worker offline — heartbeat required before quota update" ;!;
      amod (on_worker workerID (λ w, mkWorker "storage" (w_pub w) quotaGB (w_strikes w) (w_banned w) now (w_created w) ep))
  | None => amod (set_workers (insert workerID (mkWorker "storage" pubHex quotaGB 0 0 now now ep)))
  end.

Definition RegisterSealWorker (now : Z) (workerID pubHex : string) : act Db unit :=
  let workerID := trimWorkerID workerID in
  let pubHex := trim_space (to_lower pubHex) in
  alift (ValidateWorkerID workerID) ;!;
  alift (validateWorkerPubkeyHex pubHex) ;!;
  let! d := aget in
  match workers d !! workerID with
  | Some w =>
      aguard (equal_fold (trim_space (w_pub w)) pubHex) "worker pubkey immutable — already registered with different key" ;!;
      amod (on_worker workerID (λ w, mkWorker "seal" (w_pub w) (w_quota w) (w_strikes w) (w_banned w) now (w_created w) (w_endpoint w)))
  | None => amod (set_workers (insert workerID (mkWorker "seal" pubHex 0 0 0 now now "")))
  end.

(** * Chunks and challenges *)

(** The code holds no lock between the checks and the insert: these are its two halves. *)
Definition assign_check (now : Z) (workerID : string) : act Db Epoch :=
  let! ep := ensureEpoch now in
  aguard (now <? FreezeUnix ep) "epoch frozen: no new chunks" ;!;
  let! d := aget in
  aguard (negb (workerBanned workerID (EpochID ep) d)) "worker banned for epoch" ;!;
  aret ep.
(** [now] is the time of the check. *)
Definition assign_insert (now : Z) (chunkID workerID ciphertextSHA256 : string) (size : Z) (erasureMeta : string) (ep : Epoch) : act Db unit :=
  let! d := aget in
  sql_uint size ;!;
  match chunk_of chunkID d with
  | Some _ => aret tt
  | None => amod (set_chunks (λ t, t ++ [mkChunk chunkID ciphertextSHA256 size erasureMeta workerID (EpochID ep) now]))
  end.

Definition AssignChunk (now : Z) (chunkID workerID ciphertextSHA256 : string) (size : Z) (erasureMeta : string) : act Db unit :=
  let! ep := assign_check now workerID in
  assign_insert now chunkID workerID ciphertextSHA256 size erasureMeta ep.

(** [rnd]: which of the worker's chunks [ORDER BY RANDOM()] puts first. *)
Definition random_chunk (rnd : nat) (workerID : string) (d : Db) : option Chunk :=
  let mine := filter (λ c, ch_worker c = workerID) (chunks d) in
  mine !! (rnd mod length mine)%nat.

Record ChallengeView := mkView { v_challenge : string; v_epoch : Z; v_chunk : string; v_offset : Z; v_expires : Z; v_binding : string }.

Definition IssueChallenge (now : Z) (rnd : nat) (ob : Z) (workerID : string) : act Db ChallengeView :=
  let! ep := ensureEpoch now in
  aguard (now <? FreezeUnix ep) "challenges only during ingest phase" ;!;
  let! d := aget in
  aguard (negb (workerBanned workerID (EpochID ep) d)) "worker banned" ;!;
  match random_chunk rnd workerID d with
  | None => afail "no chunks assigned to worker"
  | Some c =>
      let offset := sectorOffset (ch_size c) ob in
      let binding := ProofBinding (EpochID ep) workerID (ch_id c) offset (ch_ct c) in
      let! sectorExpected :=
        match readVerifiedMarketChunkFile env abs_ok workerID (ch_id c) d with
        | Ok b => aret (if str_len b =? 0 then "" else SectorProofFromCiphertext b offset)
        | Err _ => amod (recordStorageProofFailure cfg now workerID (ch_id c)) ;!; aret ""
        end in
      let chID := fmt_int (EpochID ep) +:+ "-" +:+ workerID +:+ "-" +:+ hex_encode (be64 ob) in
      aguard (negb (nil_is_null && String.eqb sectorExpected "")) "NOT NULL constraint failed: hms_challenges.sector_proof_expected" ;!;
      aguard (negb (bool_decide (is_Some (challenges (lane d) !! chID)))) "UNIQUE constraint failed: hms_challenges.challenge_id" ;!;
      amod (set_challenges (insert chID
        (mkChal (EpochID ep) workerID (ch_id c) offset binding sectorExpected (now + ChallengeTTL cfg) false false))) ;!;
      aret (mkView chID (EpochID ep) (ch_id c) offset (now + ChallengeTTL cfg) binding)
  end.

Definition answered (ok : bool) (c : Challenge) : Challenge :=
  mkChal (c_epoch c) (c_worker c) (c_chunk c) (c_offset c) (c_expected c) (c_sector c) (c_expires c) true ok.

Definition markStorageChallengeFailed (now : Z) (workerID chunkID : string) (epochID : Z) (challengeID : string) : act Db unit :=
  amod (addStrike cfg workerID epochID) ;!;
  amod (set_challenges (alter (answered false) challengeID)) ;!;
  amod (recordStorageProofFailure cfg now workerID chunkID).

Definition relax_worker (now : Z) (w : Worker) : Worker :=
  mkWorker (w_role w) (w_pub w) (w_quota w) (if 0 <? w_strikes w then w_strikes w - 1 else 0) (w_banned w) now (w_created w) (w_endpoint w).

(** The sector as it was read when the challenge was issued, else as the holder's file shows it now. *)
Definition sector_verified (c : Challenge) (sector : string) (d : Db) : bool :=
  (str_len (c_sector c) =? 32) && String.eqb sector (c_sector c)
  || match chunk_of (c_chunk c) d with
     | None => false
     | Some ch =>
         match readVerifiedMarketChunkFile env abs_ok (ch_worker ch) (c_chunk c) d with
         | Ok b => negb (str_len b =? 0) && String.eqb sector (SectorProofFromCiphertext b (c_offset c))
         | Err _ => false
         end
     end.

(** [proof] is the handler's decoding of the same field. *)
Definition SubmitStorageProof (now : Z) (p : StorageSubmitPayload) (pubHex sigHex proof : string) : act Db unit :=
  let! d := aget in
  let! reg := alift (registeredPubkey (s_worker p) d) in
  let pubHex := trim_space pubHex in
  aguard (String.eqb pubHex "" || equal_fold pubHex reg) "pubkey does not match registered worker" ;!;
  alift (VerifyStorageSubmit p reg sigHex) ;!;
  match challenges (lane d) !! s_challenge p with
  | None => afail "sql: no rows in result set"
  | Some c =>
      let failed := markStorageChallengeFailed now (s_worker p) (c_chunk c) (c_epoch c) (s_challenge p) in
      aguard (negb (c_answered c)) "challenge already answered" ;!;
      if c_expires c <? now then failed ;!; afail "challenge expired"
      else
        let decoded := match hex_decode (trim_space (s_proof p)) with Some b => if str_len b =? 32 then Some b else None | None => None end in
        match (match decoded with Some b => Some b | None => if str_len proof =? 32 then Some proof else None end) with
        | None => failed ;!; afail "invalid proof_hex (want 32-byte sector hash)"
        | Some sector =>
            match chunk_of (c_chunk c) d with
            | None => afail "sql: no rows in result set"
            | Some ch =>
                if negb (String.eqb (c_expected c) (ProofBinding (c_epoch c) (s_worker p) (c_chunk c) (c_offset c) (ch_ct ch)))
                then failed ;!; afail "challenge binding mismatch"
                else if negb (sector_verified c sector d) then failed ;!; afail "sector proof mismatch"
                else amod (set_challenges (alter (answered true) (s_challenge p))) ;!;
                     amod (on_worker (s_worker p) (relax_worker now))
            end
        end
  end.

(** * Seals *)

Record SealWorkView := mkSealWork { sw_epoch : Z; sw_root : string; sw_target : string; sw_pool : string; sw_end : Z }.

Definition seal_view (ep : Epoch) : SealWorkView :=
  mkSealWork (EpochID ep) (hex_encode (copy_to 32 (ManifestRoot ep))) (hex_encode (SealTarget ep)) (PoolID cfg) (SealEndUnix ep).
(** The epoch with its manifest, built when no tick has done so. *)
Definition manifest_of (ep : Epoch) : act Db Epoch :=
  if no_manifest ep then
    let! d := aget in
    let root := buildManifest (EpochID ep) d in
    amod (on_epoch (EpochID ep) (with_manifest root)) ;!;
    aret (with_manifest root ep)
  else aret ep.

Definition SealWork (now : Z) : act Db SealWorkView :=
  let! ep := ensureEpoch now in
  aguard (FreezeUnix ep <=? now) "seal window not open" ;!;
  aguard (now <? SealEndUnix ep) "seal window closed" ;!;
  let! ep := manifest_of ep in
  aret (seal_view ep).

Definition sealed_by (p : SealSubmitPayload) (now : Z) (target : string) (e : Epoch) : Epoch :=
  mkEpoch (EpochID e) (StartedUnix e) (FreezeUnix e) (SealEndUnix e) (ManifestRoot e) target (z_nonce p) (z_worker p)
    true now true (SealBudgetUnits e) (PayoutsFinalized e).

Definition submitSealCore (now : Z) (p : SealSubmitPayload) : act Db unit :=
  let! ep := ensureEpoch now in
  aguard ((FreezeUnix ep <=? now) && (now <? SealEndUnix ep)) "outside seal window" ;!;
  aguard (negb (Sealed ep)) "epoch already sealed" ;!;
  aguard (negb (no_manifest ep)) "manifest not ready" ;!;
  aguard ((z_epoch p =? 0) || (z_epoch p =? EpochID ep)) "epoch mismatch" ;!;
  let p := mkSealSubmit (z_worker p) (EpochID ep) (z_nonce p) in
  let hash := SealHash (z_epoch p) (copy_to 32 (ManifestRoot ep)) (PoolID cfg) (z_nonce p) in
  aguard (HashBelowTarget hash (SealTarget ep)) "nonce does not meet target" ;!;
  sql_uint (z_nonce p) ;!;
  let! d := aget in
  aguard (negb (bool_decide (is_Some (nonces (lane d) !! (z_epoch p, z_nonce p))))) "UNIQUE constraint failed: hms_seal_nonces" ;!;
  amod (set_nonces (insert (z_epoch p, z_nonce p) (z_worker p))) ;!;
  let actualSec := Z.max 1 (now - FreezeUnix ep) in
  let newTarget := RetargetSeal (SealTarget ep) actualSec (DesiredSealSec cfg) (SealRetargetClamp cfg) in
  amod (on_epoch (z_epoch p) (λ e, if Sealed e then e else sealed_by p now newTarget e)) ;!;
  amod (on_worker (z_worker p) (touch_worker now)).

Definition SubmitSeal (now : Z) (p : SealSubmitPayload) (pubHex sigHex : string) : act Db unit :=
  let p := mkSealSubmit (trimWorkerID (z_worker p)) (z_epoch p) (z_nonce p) in
  let sigHex := trim_space sigHex in
  let pubHex := trim_space pubHex in
  (if negb (String.eqb sigHex "") then
     let! d := aget in
     let! reg := alift (registeredPubkey (z_worker p) d) in
     aguard (String.eqb pubHex "" || equal_fold pubHex reg) "pubkey does not match registered worker" ;!;
     alift (VerifySealSubmit p reg sigHex)
   else aguard (String.eqb pubHex "" && stratumInsecureEnabled env) "signature required") ;!;
  submitSealCore now p.

Definition SubmitSealFromStratum (now : Z) (p : SealSubmitPayload) (hmacAuthorized : bool) : act Db unit :=
  if hmacAuthorized || stratumInsecureEnabled env then submitSealCore now p else afail "signature required".

(** * Shares, budget and payouts *)

Definition add_shares (k : Z * string) (ok fail : Z) : Db → Db :=
  set_shares (λ t, let '(a, b) := default (0, 0) (t !! k) in <[ k := (a + ok, b + fail) ]> t).

Definition RecordSealShare (epochID : Z) (workerID : string) (ok : bool) : act Db unit :=
  let workerID := trimWorkerID workerID in
  if (epochID <=? 0) || String.eqb workerID "" then aret tt
  else amod (add_shares (epochID, workerID) (if ok then 1 else 0) (if ok then 0 else 1)).

Definition SharesByWorker (d : Db) : gmap string (Z * Z) :=
  map_fold (λ _ p out, let wid := trim_space (pe_worker p) in
    if String.eqb wid "" then out
    else let '(a, b) := default (0, 0) (out !! wid) in <[ wid := (u64 (a + pe_ok p), u64 (b + pe_fail p)) ]> out) ∅ (peers (lane d)).

Definition flush_one (epochID : Z) (p : string * (Z * Z)) : act Db unit :=
  let '(workerID, (ok, fail)) := p in
  if (ok =? 0) && (fail =? 0) then aret tt
  else sql_uint ok ;!; sql_uint fail ;!; amod (add_shares (epochID, workerID) ok fail).
Definition FlushStratumShares (epochID : Z) : act Db unit :=
  if epochID <=? 0 then aret tt
  else let! d := aget in afor (flush_one epochID) (map_to_list (SharesByWorker d)).

(** [SELECT MIN(ch.epoch_id)] over the chunks of an order. *)
Definition min_opt (a : option Z) (x : Z) : option Z := Some (match a with None => x | Some y => Z.min y x end).
Definition order_epochs (orderID : string) (d : Db) : list Z :=
  omap (λ kv, if String.eqb kv.1.1 orderID then ch_epoch <$> chunk_of (oc_chunk kv.2) d else None)
       (map_to_list (order_chunks (market d))).
Definition first_epoch (orderID : string) (d : Db) : option Z := foldl min_opt None (order_epochs orderID d).
(** [ROUND(o.prepaid_hmc * 100000000)]; sums of such values are exact below 2^53. *)
Definition prepaid_units (o : StorageOrder) : Z := f_round (f_mul (PrepaidHMC o) (f_of_Z 100000000)).
Definition sql_trim (s : string) : string := trim_of [ascii_of_nat 32] s.
Definition counts_for (epochID : Z) (d : Db) (kv : string * StorageOrder) : bool :=
  f_ltb f0 (PrepaidHMC kv.2) && negb (String.eqb (sql_trim (PaymentID kv.2)) "")
  && bool_decide (first_epoch kv.1 d = Some epochID).
Definition epochPrepaidUnits (epochID : Z) (d : Db) : Z :=
  foldr (λ kv acc, (if counts_for epochID d kv then prepaid_units kv.2 else 0) + acc) 0 (map_to_list (orders (market d))).

Definition loadSealShares (epochID : Z) (d : Db) : list (string * Z) :=
  map_to_list (map_fold (λ k v out, if (k.1 =? epochID) && (0 <? v.1) then <[ trimWorkerID k.2 := v.1 ]> out else out)
    (∅ : gmap string Z) (shares (lane d))).

Definition load_line (p : (Z * string) * Payout) : SealPayoutLine :=
  mkLine p.1.2 (p_winner p.2) (p_part p.2) (p_total p.2) (p_shares p.2).
Definition loadEpochPayouts (epochID : Z) (d : Db) : gmap string SealPayoutLine :=
  list_to_map (map (λ p, (p.1.2, load_line p)) (filter (λ p, p.1.1 = epochID) (map_to_list (payouts (lane d))))).

Definition finalize_epoch (budget : Z) (e : Epoch) : Epoch :=
  mkEpoch (EpochID e) (StartedUnix e) (FreezeUnix e) (SealEndUnix e) (ManifestRoot e) (SealTarget e) (SealNonce e) (SealWorkerID e)
    (Sealed e) (SealFoundUnix e) (PayoutsEnabled e) budget true.
Definition insert_payout (now epochID : Z) (l : SealPayoutLine) : Db → Db :=
  set_payouts (λ t, match t !! (epochID, WorkerID l) with
    | Some _ => t
    | None => <[ (epochID, WorkerID l) := mkPayout (WinnerUnits l) (ParticipationUnits l) (TotalUnits l) (SharesOK l) now ]> t
    end).
(** The transaction: values the driver refuses roll all of it back. *)
Definition payable_line (l : SealPayoutLine) : bool :=
  (WinnerUnits l <? two63) && (ParticipationUnits l <? two63) && (TotalUnits l <? two63).

Definition FinalizeEpochSealPayouts (now epochID : Z) : act Db (gmap string SealPayoutLine) :=
  let! d := aget in
  match List.find (λ e, EpochID e =? epochID) (epochs (lane d)) with
  | None => afail "sql: no rows in result set"
  | Some ep =>
      aguard (Sealed ep) "epoch not sealed" ;!;
      if PayoutsFinalized ep then aret (loadEpochPayouts epochID d)
      else
        FlushStratumShares epochID ;!;
        let! d := aget in
        let budget := SealEpochBudgetFromPrepaidUnits (epochPrepaidUnits epochID d) in
        let! lines := alift (ComputeSealEpochPayouts budget (SealWorkerID ep) (loadSealShares epochID d)) in
        let ls := (map_to_list lines).*2 in
        aguard ((budget <? two63) && forallb payable_line ls) "uint64 values with high bit set are not supported" ;!;
        amod (on_epoch epochID (finalize_epoch budget)) ;!;
        amod (λ d, foldl (λ d l, insert_payout now epochID l d) d ls) ;!;
        aret lines
  end.

(** A replica slashed for lost market data, or a challenge failed in the epoch, forfeits it. *)
Definition WorkerEligibleForStoragePayout (workerID : string) (d : Db) : bool :=
  forallb (λ kv, negb (String.eqb kv.1.2 workerID && slashed kv.2)) (map_to_list (health (market d))).
Definition WorkerEpochStorageEligible (workerID : string) (epochID : Z) (d : Db) : bool :=
  WorkerEligibleForStoragePayout workerID d
  && forallb (λ kv, negb (String.eqb (c_worker kv.2) workerID && (c_epoch kv.2 =? epochID) && c_answered kv.2 && negb (c_ok kv.2)))
       (map_to_list (challenges (lane d))).

(** * Warm work *)

Definition WarmJobRotateSec : Z := 300.
Definition WarmShareAccrualUnits : Z := 500.
Definition WarmHMSPerTHPerHour : f64 := lit 1 1000000.
Definition warmManifestRoot (slot : Z) : string := sha256 ("hms-warm-manifest|hackme-official|" +:+ fmt_int slot).
Definition warmTarget : string := zeros 2 +:+ byte1 255 +:+ byte1 255 +:+ zeros 28.
Definition currentWarmSlot (now : Z) : Z := Z.quot now WarmJobRotateSec.

Inductive StratumJob := WarmJob (slot : Z) (root target pool : string) | SealJob (v : SealWorkView).
Definition warmWorkPackage (slot : Z) : StratumJob :=
  WarmJob slot (hex_encode (warmManifestRoot slot)) (hex_encode warmTarget) (PoolID cfg).
Definition StratumWork (now : Z) : act Db StratumJob :=
  let! ep := ensureEpoch now in
  if (FreezeUnix ep <=? now) && (now <? SealEndUnix ep) && negb (Sealed ep)
  then let! ep := manifest_of ep in aret (SealJob (seal_view ep))
  else aret (warmWorkPackage (currentWarmSlot now)).

Definition EnsureStratumWorker (now : Z) (workerID : string) : act Db unit :=
  let workerID := trimWorkerID workerID in
  if String.eqb workerID "" then aret tt
  else amod (set_workers (λ t, match t !! workerID with
    | None => <[ workerID := mkWorker "seal" "" 0 0 0 now now "" ]> t
    | Some w => <[ workerID := mkWorker "seal" (w_pub w) (w_quota w) (w_strikes w) (w_banned w) now (w_created w) (w_endpoint w) ]> t
    end)).

Definition addWarmAccrual (now : Z) (workerID : string) (units : Z) (countShare : bool) : act Db unit :=
  if units =? 0 then aret tt
  else
    sql_uint units ;!;
    let n := if countShare then 1 else 0 in
    amod (set_warm (λ t, <[ workerID := match t !! workerID with
                            | None => mkWarm units n now
                            | Some a => mkWarm (wa_units a + units) (wa_shares a + n) now
                            end ]> t)).
Definition RecordWarmShare (slot : Z) (workerID : string) : act Db unit := amod (add_shares (- slot, workerID) 1 0).

Definition SubmitWarmShare (now : Z) (workerID : string) (slot nonce : Z) : act Db unit :=
  let workerID := trimWorkerID workerID in
  aguard (negb (String.eqb workerID "")) "worker_id required" ;!;
  let hash := SealHash slot (warmManifestRoot slot) (PoolID cfg) nonce in
  aguard (HashBelowTarget hash warmTarget) "warm share below target" ;!;
  atry (EnsureStratumWorker now workerID) ;!;
  addWarmAccrual now workerID WarmShareAccrualUnits true ;!;
  atry (RecordWarmShare slot workerID).

(** * The Stratum registry *)

Definition stratumSubmitWindowSec : Z := 60.
Definition minSubmitsForHashrate : nat := 3.
Definition stratumHashrateSmoothing : f64 := lit 35 100.

Definition Connect (now : Z) (id remote workerID : string) : Db → Db :=
  set_peers (insert id (mkPeer (trim_space workerID) remote now now f0 0 0 [] "")).
Definition Disconnect (id : string) : Db → Db := set_peers (delete id).
Definition Touch (now : Z) (id workerID : string) : Db → Db :=
  set_peers (alter (λ p, let w := trim_space workerID in
    mkPeer (if String.eqb w "" then pe_worker p else w) (pe_remote p) (pe_connected p) now (pe_th p) (pe_ok p) (pe_fail p) (pe_times p) (pe_mode p)) id).
Definition SetWorkMode (id mode : string) : Db → Db :=
  set_peers (alter (λ p, mkPeer (pe_worker p) (pe_remote p) (pe_connected p) (pe_seen p) (pe_th p) (pe_ok p) (pe_fail p) (pe_times p) mode) id).
Definition RecordShare (now : Z) (id : string) (ok : bool) : Db → Db :=
  set_peers (alter (λ p, mkPeer (pe_worker p) (pe_remote p) (pe_connected p) now (pe_th p)
    (if ok then u64 (pe_ok p + 1) else pe_ok p) (if ok then pe_fail p else u64 (pe_fail p + 1)) (pe_times p) (pe_mode p)) id).

Fixpoint drop_before (cutoff : Z) (times : list Z) : list Z :=
  match times with t :: r => if t <? cutoff then drop_before cutoff r else times | [] => [] end.
Definition appendRecentSubmit (times : list Z) (now : Z) : list Z :=
  let times := drop_before (now - stratumSubmitWindowSec) (times ++ [now]) in
  drop (length times - 512) times.
Definition instantTHFromSubmits (times : list Z) (now : Z) : f64 :=
  let recent := filter (λ t, now - stratumSubmitWindowSec ≤ t) times in
  if (length times <? minSubmitsForHashrate)%nat || (length recent <? minSubmitsForHashrate)%nat then f0
  else
    let span := Z.max 1 (now - foldl Z.min now recent) in
    f_div (f_mul (f_div (f_of_Z (Z.of_nat (length recent))) (f_of_Z span)) (f_of_Z 4294967296)) (f_of_Z 1000000000000).
Definition refreshMeasuredTH (now : Z) (p : Peer) : Peer :=
  let instant := instantTHFromSubmits (pe_times p) now in
  if f_leb instant f0 then p
  else
    let th := if f_leb (pe_th p) f0 then instant
              else f_add (f_mul stratumHashrateSmoothing instant) (f_mul (lit 65 100) (pe_th p)) in
    mkPeer (pe_worker p) (pe_remote p) (pe_connected p) (pe_seen p) th (pe_ok p) (pe_fail p) (pe_times p) (pe_mode p).
Definition RecordSubmit (now : Z) (id : string) : Db → Db :=
  set_peers (alter (λ p, refreshMeasuredTH now
    (mkPeer (pe_worker p) (pe_remote p) (pe_connected p) now (pe_th p) (pe_ok p) (pe_fail p) (appendRecentSubmit (pe_times p) now) (pe_mode p))) id).
Definition submitsPerMin (p : Peer) (now : Z) : f64 :=
  let n := Z.of_nat (length (filter (λ t, now - stratumSubmitWindowSec ≤ t) (pe_times p))) in
  if n =? 0 then f0 else f_mul (f_div (f_of_Z n) (f_of_Z stratumSubmitWindowSec)) (f_of_Z 60).

(** [EffectiveTHByWorker] refreshes the peers it reads. *)
Definition measuredPeerTH (now : Z) (p : Peer) : f64 :=
  if stratumSubmitWindowSec <? now - pe_seen p then f0
  else let p := refreshMeasuredTH now p in if f_ltb (pe_th p) f0 then f0 else pe_th p.
Definition EffectiveTHByWorker (now : Z) (d : Db) : gmap string f64 :=
  map_fold (λ _ p out, let wid := trim_space (pe_worker p) in
    if (stratumSubmitWindowSec <? now - pe_seen p) || String.eqb wid "" then out
    else let th := measuredPeerTH now p in
         if f_ltb (default f0 (out !! wid)) th then <[ wid := th ]> out else out) ∅ (peers (lane d)).
Definition refresh_peers (now : Z) : Db → Db :=
  set_peers (fmap (λ p, if (stratumSubmitWindowSec <? now - pe_seen p) || String.eqb (trim_space (pe_worker p)) "" then p
                        else refreshMeasuredTH now p)).
Definition tickWarmTimeAccrual (now : Z) (elapsedSec : f64) : act Db unit :=
  if f_leb elapsedSec f0 then aret tt
  else
    let! d := aget in
    let ths := map_to_list (EffectiveTHByWorker now d) in
    amod (refresh_peers now) ;!;
    afor (λ p : string * f64,
      if f_leb p.2 f0 then aret tt
      else
        let units := hmsToUnits (f_mul (f_mul p.2 WarmHMSPerTHPerHour) (f_div elapsedSec (f_of_Z 3600))) in
        if units =? 0 then aret tt else atry (addWarmAccrual now p.1 units false)) ths.
End lane.
