(* ===== verification/HmsStore.v ===== *)
(** The HMS storage market: prices, capacity, orders, uploads, replicas, repair and downloads.

    Sources: internal/hms: pricing.go, capacity.go, market.go, market_replication.go, market_health.go,
    remote_push.go, upload_token.go, payment_proof.go, http.go ([complete]). *)
From S2P Require Import Prelude Float64 GoText GoNum Json Address CoordShares GoSort HmsSeal HmsBase HmsLane.

(** * Prices *)

Definition MarketPlatformFeeRate : f64 := lit 5 100.
Definition MarketBurnRate : f64 := lit 10 100.
Definition MarketMinPrepaidHMC : f64 := lit 1 100.
Definition StorageHMCPerGBMonth : f64 := lit 2 1000.
Definition MarketDefaultRetentionDays : Z := 30.
Definition MarketMinRetentionDays : Z := 7.
Definition MarketMaxRetentionDays : Z := 365.
Definition MarketMinBillableBytes : Z := 1.
Definition MarketMaxBillableBytes : Z := Z.shiftl 16 40.
Definition maxMarketChunkBytes : Z := Z.shiftl 8 20.

Definition roundHMC (v : f64) : f64 := f_div (f_of_Z (f_round (f_mul v (f_of_Z 100000000)))) (f_of_Z 100000000).

(** [%.<k>f] of a value that is not negative: the exact value rounded to [k] decimals, ties to even. *)
Fixpoint pad_digits (k : nat) (n : Z) (acc : string) : string :=
  match k with O => acc | S k => pad_digits k (n / 10) (String (digit (n mod 10)) acc) end.
Definition fmt_fixed (k : nat) (a : f64) : string :=
  let scaled := mant a * 10 ^ Z.of_nat k in
  let n := if 0 <=? expo a then scaled * 2 ^ expo a else rne scaled (2 ^ (- expo a)) in
  fmt_uint (n / 10 ^ Z.of_nat k) +:+ "." +:+ pad_digits k (n mod 10 ^ Z.of_nat k) "".

Record MarketQuote := mkQuote {
  q_SizeBytes : Z; q_RetentionDays : Z; StorageGB : f64; GBMonths : f64; StorageSubtotalHMC : f64; PlatformFeeHMC : f64;
  BurnHMC : f64; TotalDebitHMC : f64; PolicyHash : string; q_QuoteHash : string;
}.

Section price.
Context `{Crypto}.

Definition marketPolicyWire : string :=
  "storage_hmc_per_gb_month=" +:+ fmt_fixed 9 StorageHMCPerGBMonth +:+ ";platform_fee_rate=" +:+ fmt_fixed 6 MarketPlatformFeeRate
  +:+ ";burn_rate=" +:+ fmt_fixed 6 MarketBurnRate +:+ ";min_prepaid_hmc=" +:+ fmt_fixed 6 MarketMinPrepaidHMC
  +:+ ";default_retention_days=" +:+ fmt_int MarketDefaultRetentionDays +:+ ";min_retention_days=" +:+ fmt_int MarketMinRetentionDays
  +:+ ";max_retention_days=" +:+ fmt_int MarketMaxRetentionDays.
Definition marketPolicyHash : string := hex_encode (sha256 marketPolicyWire).

Definition quoteHash (q : MarketQuote) : string :=
  hex_encode (sha256 ("size=" +:+ fmt_int (q_SizeBytes q) +:+ ";ret=" +:+ fmt_int (q_RetentionDays q)
    +:+ ";storage=" +:+ fmt_fixed 9 (StorageSubtotalHMC q) +:+ ";fee=" +:+ fmt_fixed 9 (PlatformFeeHMC q)
    +:+ ";burn=" +:+ fmt_fixed 9 (BurnHMC q) +:+ ";total=" +:+ fmt_fixed 9 (TotalDebitHMC q) +:+ ";policy=" +:+ PolicyHash q)).

Definition minBillableGB : f64 := f_of_Z 5.
Definition QuoteStorageOrder (sizeBytes retentionDays : Z) : result MarketQuote :=
  if sizeBytes <? MarketMinBillableBytes then Err "size_bytes below minimum %d"
  else if MarketMaxBillableBytes <? sizeBytes then Err "size_bytes above maximum %d"
  else
    let retentionDays := if retentionDays <=? 0 then MarketDefaultRetentionDays else retentionDays in
    if (retentionDays <? MarketMinRetentionDays) || (MarketMaxRetentionDays <? retentionDays) then Err "retention_days must be %d..%d"
    else
      let gb := f_div (f_of_Z sizeBytes) (f_of_Z 1073741824) in
      let gb := if f_ltb gb minBillableGB then minBillableGB else gb in
      let gbMonths := f_mul gb (f_div (f_of_Z retentionDays) (f_of_Z 30)) in
      let storage := roundHMC (f_mul gbMonths StorageHMCPerGBMonth) in
      let storage := if f_leb storage f0 then roundHMC (lit 1 105) else storage in
      let fee := roundHMC (f_mul storage MarketPlatformFeeRate) in
      let burn := roundHMC (f_mul storage MarketBurnRate) in
      let total := roundHMC (f_add storage fee) in
      if f_ltb (f_add total (lit 1 1000000000000)) MarketMinPrepaidHMC then Err "quote below min prepaid %.4f HMC"
      else
        let q := mkQuote sizeBytes retentionDays (roundHMC gb) (roundHMC gbMonths) storage fee burn total marketPolicyHash "" in
        Ok (mkQuote sizeBytes retentionDays (roundHMC gb) (roundHMC gbMonths) storage fee burn total marketPolicyHash (quoteHash q)).
Definition VerifyQuoteHash (sizeBytes retentionDays : Z) (hash : string) : result MarketQuote :=
  rbind (QuoteStorageOrder sizeBytes retentionDays) (λ q,
    if negb (String.eqb (q_QuoteHash q) (trim_space hash)) then Err "quote_hash mismatch (repriced — use fresh /api/market/quote)" else Ok q).

(** * Upload tokens and payment proofs *)

Definition hashUploadToken (token : string) : string := hex_encode (sha256 token).
Definition looksHashedUploadToken (stored : string) : bool :=
  let stored := trim_space (to_lower stored) in
  (str_len stored =? 64) && bool_decide (is_Some (hex_decode stored)).
Definition allowLegacyPlaintextUploadToken (env : environ) : bool :=
  envTruthy env "HMS_ALLOW_LEGACY_PLAINTEXT" || envTruthy env "ALLOW_LEGACY_PLAINTEXT" || envTruthy env "HACKME_HMS_ALLOW_LEGACY_PLAINTEXT".
Definition matchUploadToken (env : environ) (stored presented : string) : result unit :=
  let presented := trim_space presented in
  let stored := trim_space stored in
  if String.eqb presented "" then Err "upload token required"
  else if String.eqb stored "" then Err "invalid upload token"
  else if looksHashedUploadToken stored then
    if String.eqb (to_lower (hashUploadToken presented)) (to_lower stored) then Ok tt else Err "invalid upload token"
  else if negb (allowLegacyPlaintextUploadToken env)
  then Err "legacy plaintext upload token rejected (set ALLOW_LEGACY_PLAINTEXT=1)"
  else if String.eqb stored presented then Ok tt else Err "invalid upload token".

Definition first_setting (env : environ) (keys : list string) : string :=
  foldr (λ k r, let v := trim_space (env k) in if String.eqb v "" then r else v) "" keys.
Definition MarketPaymentHMACSecret (env : environ) : string := trim_space (env "HMS_MARKET_PAYMENT_HMAC_SECRET").
Definition MarketCoordinatorID (env : environ) : string :=
  let v := first_setting env ["HMS_MARKET_COORDINATOR_ID"; "HACKME_HMS_COORDINATOR_ID"; "HMS_COORDINATOR_ID"] in
  if String.eqb v "" then "local" else v.

(** [hmac.New(sha256.New, key)]: block size 64. *)
Fixpoint xor_bytes (n : nat) (s : string) : string :=
  match s with
  | EmptyString => EmptyString
  | String a r => String (ascii_of_nat (Nat.lxor (nat_of_ascii a) n)) (xor_bytes n r)
  end.
Definition hmac_sha256 (key msg : string) : string :=
  let key := copy_to 64 (if (64 <? String.length key)%nat then sha256 key else key) in
  sha256 (xor_bytes 92 key +:+ sha256 (xor_bytes 54 key +:+ msg)).

Definition SignMarketPaymentProof (env : environ) (paymentID quoteHash : string) (totalDebitHMC : f64) : result string :=
  let secret := MarketPaymentHMACSecret env in
  if String.eqb secret "" then Err "hms: payment HMAC secret not configured"
  else
    let paymentID := trim_space paymentID in
    let quoteHash := trim_space (to_lower quoteHash) in
    if String.eqb paymentID "" || String.eqb quoteHash "" then Err "hms: payment_id and quote_hash required for proof"
    else Ok (hex_encode (hmac_sha256 secret
      (MarketCoordinatorID env +:+ "|" +:+ paymentID +:+ "|" +:+ quoteHash +:+ "|" +:+ fmt_fixed 8 totalDebitHMC))).
Definition VerifyMarketPaymentProof (env : environ) (paymentID quoteHash proof : string) (totalDebitHMC : f64) : result unit :=
  rbind (SignMarketPaymentProof env paymentID quoteHash totalDebitHMC) (λ want,
    let got := trim_space (to_lower proof) in
    if String.eqb got "" then Err "payment_proof required"
    else if String.eqb got (to_lower want) then Ok tt else Err "payment_proof invalid").
End price.

Definition PilotPaymentSkipAllowed (env : environ) : bool :=
  String.eqb (trim_space (env "HMS_MARKET_SKIP_PAYMENT")) "1" && envTruthy env "HMS_COORDINATOR_ALLOW_INSECURE".

(** [stratumPasswordOK] *)
Definition stratumPasswordOK `{Crypto} (workerID password secret : string) : bool :=
  let workerID := trim_space workerID in
  let password := trim_space (to_lower password) in
  if String.eqb workerID "" || String.eqb password "" || String.eqb secret "" then false
  else String.eqb password (hex_encode (hmac_sha256 secret workerID)).

(** * Capacity *)

Definition marketReplicaCount (env : environ) : Z :=
  let n := default 0 (atoi (trim_space (env "HMS_MARKET_REPLICAS"))) in
  let n := if n <? 1 then 2 else n in if 5 <? n then 5 else n.

Record CapacitySnapshot := mkCap { TotalQuotaBytes : Z; UsedBytes : Z; FreeBytes : Z; OnlineWorkers : Z; TotalWorkers : Z }.

Definition used_bytes (workerID : string) (d : Db) : Z :=
  foldr (λ c acc, (if String.eqb (ch_worker c) workerID then ch_size c else 0) + acc) 0 (chunks d).
Definition storage_worker (w : Worker) : bool := String.eqb (w_role w) "storage" && (0 <? w_quota w).
Definition online_storage (cfg : Config) (now : Z) (w : Worker) : bool := storage_worker w && (workerOnlineCutoff cfg now <=? w_seen w).
Definition NetworkCapacity (cfg : Config) (now : Z) (d : Db) : CapacitySnapshot :=
  foldl (λ s kv,
    let quotaBytes := i64 (w_quota kv.2 * 1073741824) in
    let used := used_bytes kv.1 d in
    let free := i64 (quotaBytes - used) in
    mkCap (i64 (TotalQuotaBytes s + quotaBytes)) (i64 (UsedBytes s + used)) (if 0 <? free then i64 (FreeBytes s + free) else FreeBytes s)
      (OnlineWorkers s + 1) (TotalWorkers s))
    (mkCap 0 0 0 0 (Z.of_nat (length (filter (λ kv, storage_worker kv.2 = true) (map_to_list (workers d))))))
    (filter (λ kv, online_storage cfg now kv.2 = true) (map_to_list (workers d))).

Definition RequiredCapacityBytes (env : environ) (sizePlanBytes : Z) : Z :=
  let sizePlanBytes := if sizePlanBytes <? 0 then 0 else sizePlanBytes in
  i64 (sizePlanBytes * marketReplicaCount env).
Definition EnsureCapacity (cfg : Config) (now additionalBytes : Z) (d : Db) : result CapacitySnapshot :=
  let snap := NetworkCapacity cfg now d in
  if OnlineWorkers snap =? 0 then Err "insufficient network storage capacity"
  else if additionalBytes <=? 0 then Ok snap
  else if FreeBytes snap <? additionalBytes then Err "insufficient network storage capacity"
  else Ok snap.

(** Workers by free quota, most first; among equals the order of SQLite's scan is taken as [map_to_list]. *)
Definition free_quota (d : Db) (kv : string * Worker) : Z := w_quota kv.2 * 1073741824 - used_bytes kv.1 d.
Definition ranked_workers (cfg : Config) (now : Z) (d : Db) : list string :=
  (sort_stable (λ a b, free_quota d b <? free_quota d a)
     (filter (λ kv, online_storage cfg now kv.2 = true) (map_to_list (workers d)))).*1.
Definition PickStorageWorkers (cfg : Config) (now n : Z) (d : Db) : result (list string) :=
  let out := take (Z.to_nat (Z.max 1 n)) (ranked_workers cfg now d) in
  if (length out =? 0)%nat then Err "no online storage workers — register workerstorage and keep heartbeat" else Ok out.
Definition PickStorageWorker (cfg : Config) (now : Z) (d : Db) : result string :=
  match ranked_workers cfg now d with [] => Err "no storage workers online — start workerstorage first" | w :: _ => Ok w end.

(** * Orders *)

Definition OrderStatusDraft : string := "draft".
Definition OrderStatusUploading : string := "uploading".
Definition OrderStatusStored : string := "stored".
Definition OrderStatusFailed : string := "failed".
Definition OrderStatusCancelled : string := "cancelled".
Definition OrderStatusDegraded : string := "degraded".
Definition HealthOK : string := "ok".
Definition HealthDegraded : string := "degraded".
Definition HealthFailed : string := "failed".

Definition with_status (status health detail : string) (now : Z) (o : StorageOrder) : StorageOrder :=
  mkOrder (Label o) (ClientRef o) (UploadToken o) (SizePlanBytes o) (BytesUploaded o) (ChunkCount o) status (QuoteHash o) (PrepaidHMC o)
    (RetentionDays o) (PaymentID o) health detail (AlertUnix o) (CreatedUnix o) now.
Definition with_alert (now : Z) (o : StorageOrder) : StorageOrder :=
  mkOrder (Label o) (ClientRef o) (UploadToken o) (SizePlanBytes o) (BytesUploaded o) (ChunkCount o) (Status o) (QuoteHash o) (PrepaidHMC o)
    (RetentionDays o) (PaymentID o) (HealthStatus o) (HealthDetail o) now (CreatedUnix o) (UpdatedUnix o).
Definition with_counts (bytes count : Z) (o : StorageOrder) : StorageOrder :=
  mkOrder (Label o) (ClientRef o) (UploadToken o) (SizePlanBytes o) bytes count (Status o) (QuoteHash o) (PrepaidHMC o)
    (RetentionDays o) (PaymentID o) (HealthStatus o) (HealthDetail o) (AlertUnix o) (CreatedUnix o) (UpdatedUnix o).
Definition without_token (o : StorageOrder) : StorageOrder :=
  mkOrder (Label o) (ClientRef o) "" (SizePlanBytes o) (BytesUploaded o) (ChunkCount o) (Status o) (QuoteHash o) (PrepaidHMC o)
    (RetentionDays o) (PaymentID o) (HealthStatus o) (HealthDetail o) (AlertUnix o) (CreatedUnix o) (UpdatedUnix o).

(** What the file system and the storage hosts answer: whether a file can be written, and whether a
    worker's endpoint takes a chunk. *)
Record World := mkWorld { abs_ok : string → bool; can_write : path → bool; push_accepted : string → string → string → bool }.

Section market.
Context `{Crypto} `{Net} (cfg : Config) (env : environ) (wd : World).

Definition payment_free (paymentID : string) (d : Db) : bool :=
  forallb (λ kv, negb (String.eqb (PaymentID kv.2) paymentID)) (map_to_list (orders (market d))).

(** [rid], [rtoken], [rpilot]: eight, sixteen and six random bytes. *)
Definition CreateStorageOrder (now : Z) (rid rtoken rpilot : string) (label clientRef : string) (sizePlanBytes retentionDays : Z)
    (quoteHash paymentID paymentProof : string) (allowInsecurePilot : bool) : act Db (string * string) :=
  let label := trim_space label in
  let label := if String.eqb label "" then "backup" else label in
  let clientRef := trim_space clientRef in
  let sizePlanBytes := Z.max 0 sizePlanBytes in
  let paymentID := trim_space paymentID in
  let quoteHash := trim_space quoteHash in
  let paymentProof := trim_space paymentProof in
  let pilotSkip := allowInsecurePilot && PilotPaymentSkipAllowed env in
  let! paid :=
    if pilotSkip && String.eqb paymentID "" then
      let! q := alift (QuoteStorageOrder sizePlanBytes retentionDays) in
      aret ("pilot-" +:+ hex_encode rpilot, q_QuoteHash q, q)
    else
      aguard (negb (String.eqb paymentID "")) "payment_id required (pay via node wallet first)" ;!;
      let! q := alift (VerifyQuoteHash sizePlanBytes retentionDays quoteHash) in
      aguard (negb (String.eqb (MarketPaymentHMACSecret env) "")) "payment HMAC secret not configured (fail-closed)" ;!;
      alift (VerifyMarketPaymentProof env paymentID quoteHash paymentProof (TotalDebitHMC q)) ;!;
      let! d := aget in
      aguard (payment_free paymentID d) "payment_id already used" ;!;
      aret (paymentID, quoteHash, q) in
  let '(paymentID, quoteHash, q) := paid in
  let! d := aget in
  alift (EnsureCapacity cfg now (RequiredCapacityBytes env sizePlanBytes) d) ;!;
  let orderID := "ord-" +:+ hex_encode rid in
  let token := hex_encode rtoken in
  aguard (negb (bool_decide (is_Some (orders (market d) !! orderID)))) "UNIQUE constraint failed: hms_orders.order_id" ;!;
  aguard (payment_free paymentID d)
    "UNIQUE constraint failed: hms_orders.payment_id" ;!;
  amod (set_orders (insert orderID
    (mkOrder label clientRef (hashUploadToken token) sizePlanBytes 0 0 OrderStatusDraft quoteHash (TotalDebitHMC q) (q_RetentionDays q)
       paymentID HealthOK "" 0 now now))) ;!;
  aret (orderID, token).

Definition GetStorageOrder (orderID : string) (d : Db) : result StorageOrder :=
  match orders (market d) !! orderID with Some o => Ok o | None => Err "order not found" end.
Definition verifyUploadToken (orderID token : string) (d : Db) : result unit :=
  rbind (GetStorageOrder orderID d) (λ o, matchUploadToken env (UploadToken o) token).

(** * Replicas *)

Definition recordChunkReplicas (orderID : string) (chunkIndex : Z) (ws : list string) (d : Db) : Db :=
  set_order_chunks (alter (λ c, mkOChunk (oc_chunk c) (oc_worker c) (oc_size c) (oc_ct c) (Z.of_nat (length ws)) (oc_created c)) (orderID, chunkIndex))
    (set_replicas (insert (orderID, chunkIndex) ws) d).
Definition listChunkReplicaWorkers (orderID : string) (chunkIndex : Z) (d : Db) : result (list string) :=
  match default [] (replicas (market d) !! (orderID, chunkIndex)) with
  | [] => match order_chunks (market d) !! (orderID, chunkIndex) with
          | Some c => Ok [oc_worker c]
          | None => Err "sql: no rows in result set"
          end
  | ws => Ok ws
  end.

Definition AssignMarketChunk (now : Z) (chunkID workerID ct : string) (size : Z) (meta : string) : act Db unit :=
  let chunkID := trim_space chunkID in
  let workerID := trimWorkerID workerID in
  alift (ValidateChunkID chunkID) ;!;
  alift (ValidateWorkerID workerID) ;!;
  let! ep := ensureEpoch cfg now in
  let! d := aget in
  aguard (negb (workerBanned workerID (EpochID ep) d)) "worker banned for epoch" ;!;
  sql_uint size ;!;
  amod (set_chunks (λ t, match chunk_of chunkID d with
    | None => t ++ [mkChunk chunkID ct size meta workerID (EpochID ep) now]
    | Some _ => map (λ c, if String.eqb (ch_id c) chunkID then mkChunk chunkID ct size meta workerID (ch_epoch c) now else c) t
    end)).

(** * Writing a replica *)

Definition WorkerPushToken : string := first_setting env ["HMS_WORKER_PUSH_TOKEN"; "HACKME_HMS_WORKER_PUSH_TOKEN"].
Definition requireRemotePush : bool := envTruthy env "HMS_MARKET_REQUIRE_REMOTE_PUSH".
Definition pushChunkToWorkerEndpoint (workerID chunkID ciphertext : string) (d : Db) : result unit :=
  match workers d !! trimWorkerID workerID with
  | None => Err "sql: no rows in result set"
  | Some w =>
      let ep := trim_space (w_endpoint w) in
      if String.eqb ep "" then if requireRemotePush then Err "remote push required but worker %s has no endpoint_url" else Ok tt
      else rbind (ValidateWorkerEndpointURL env ep) (λ norm,
        if String.eqb WorkerPushToken "" then Err "HMS_WORKER_PUSH_TOKEN required for remote chunk push"
        else rbind (ValidateChunkID chunkID) (λ _,
          if push_accepted wd norm chunkID ciphertext then Ok tt else Err "remote push HTTP %d"))
  end.

Definition write_at (root workerID chunkID ciphertext : string) : act Db unit :=
  match filepathJoinMarket root workerID chunkID with
  | None => afail "invalid market path"
  | Some p =>
      aguard (pathAllowed (abs_ok wd) p) "invalid market path" ;!;
      aguard (can_write wd p) "write" ;!;
      amod (set_files (insert p ciphertext))
  end.
Definition writeMarketChunkFile (workerID chunkID ciphertext : string) : act Db unit :=
  let! d := aget in
  match pushChunkToWorkerEndpoint workerID chunkID ciphertext d with
  | Err e => if requireRemotePush then afail e else aret tt
  | Ok _ => aret tt
  end ;!;
  (if String.eqb (marketStorageRoot env) "" then aret tt else write_at (marketStorageRoot env) workerID chunkID ciphertext) ;!;
  write_at (marketDataRoot env) workerID chunkID ciphertext.

(** The workers a chunk could be written to. *)
Fixpoint write_replicas (chunkID ciphertext : string) (ws : list string) : act Db (list string) :=
  match ws with
  | [] => aret []
  | w :: ws => λ d,
      match writeMarketChunkFile w chunkID ciphertext d with
      | (Ok _, d) => (let! l := write_replicas chunkID ciphertext ws in aret (w :: l)) d
      | (Err _, d) => write_replicas chunkID ciphertext ws d
      end
  end.

(** [%06d] *)
Definition fmt_d06 (n : Z) : string := if n <? 1000000 then pad_digits 6 n "" else fmt_uint n.
Definition chunk_id (orderID : string) (chunkIndex : Z) : string := orderID +:+ "-c" +:+ fmt_d06 chunkIndex.

Definition closed_status (status : string) : bool :=
  let s := trim_space (to_lower status) in String.eqb s OrderStatusCancelled || String.eqb s OrderStatusFailed.

Definition order_rows (orderID : string) (d : Db) : list ((string * Z) * OrderChunk) :=
  filter (λ kv, kv.1.1 = orderID) (map_to_list (order_chunks (market d))).
Definition uploaded_bytes (orderID : string) (d : Db) : Z := foldr (λ kv acc, oc_size kv.2 + acc) 0 (order_rows orderID d).

Definition UploadOrderChunk (now : Z) (orderID uploadToken : string) (chunkIndex : Z) (ciphertext : string) : act Db (string * list string) :=
  let! d := aget in
  alift (verifyUploadToken orderID uploadToken d) ;!;
  let! o := alift (GetStorageOrder orderID d) in
  aguard (negb (closed_status (Status o))) ("order is " +:+ Status o) ;!;
  aguard ((0 <=? chunkIndex) && (chunkIndex <=? 1000000)) "invalid chunk_index" ;!;
  aguard (negb (str_len ciphertext =? 0)) "empty ciphertext" ;!;
  aguard (str_len ciphertext <=? maxMarketChunkBytes) "chunk exceeds %d bytes" ;!;
  let prevSize := from_option oc_size 0 (order_chunks (market d) !! (orderID, chunkIndex)) in
  let newUploaded := BytesUploaded o - prevSize + str_len ciphertext in
  aguard (negb ((0 <? SizePlanBytes o) && (SizePlanBytes o <? newUploaded))) "upload exceeds order size plan" ;!;
  let additional := str_len ciphertext - prevSize in
  (if 0 <? additional then alift (EnsureCapacity cfg now (RequiredCapacityBytes env additional) d) ;!; aret tt else aret tt) ;!;
  let replicaN := marketReplicaCount env in
  let! ws := alift (PickStorageWorkers cfg now replicaN d) in
  let workerID := List.hd "" ws in
  let sum := sha256 ciphertext in
  let chunkID := chunk_id orderID chunkIndex in
  let! written := write_replicas chunkID ciphertext ws in
  aguard (negb (length written =? 0)%nat) "failed to write chunk to any storage host" ;!;
  AssignMarketChunk now chunkID (List.hd "" written) sum (str_len ciphertext) "" ;!;
  amod (recordChunkReplicas orderID chunkIndex written) ;!;
  amod (set_order_chunks (insert (orderID, chunkIndex) (mkOChunk chunkID workerID (str_len ciphertext) sum (Z.of_nat (length written)) now))) ;!;
  amod (λ d, foldl (λ d w, recordReplicaHealth cfg now orderID chunkIndex w true d) d written) ;!;
  let degraded := Z.of_nat (length written) <? replicaN in
  amod (λ d, set_orders (alter (λ o,
    with_counts (uploaded_bytes orderID d) (Z.of_nat (length (order_rows orderID d)))
      (with_status OrderStatusUploading (if degraded then HealthDegraded else HealthOK)
         (if degraded then "replica shortfall %d/%d — repair will backfill when workers online" else "") now o)) orderID) d) ;!;
  aret (chunkID, written).

Definition DownloadOrderChunk (orderID uploadToken : string) (chunkIndex : Z) (d : Db) : result (string * string) :=
  rbind (verifyUploadToken orderID uploadToken d) (λ _,
  match order_chunks (market d) !! (orderID, chunkIndex) with
  | None => Err "chunk not found"
  | Some c =>
      rbind (listChunkReplicaWorkers orderID chunkIndex d) (λ ws,
      match omap (λ w, match readVerifiedMarketChunkFile env (abs_ok wd) w (oc_chunk c) d with Ok b => Some b | Err _ => None end) ws with
      | b :: _ => Ok (b, oc_chunk c)
      | [] => if existsb (λ w, is_ok (readMarketChunkFile env w (oc_chunk c) d)) ws
              then Err "chunk integrity mismatch" else Err "chunk file missing on all replicas"
      end)
  end).

(** * Repair and health *)

Definition active_status (s : string) : bool :=
  String.eqb s OrderStatusUploading || String.eqb s OrderStatusStored || String.eqb s OrderStatusDegraded.
Definition order_active (orderID : string) (d : Db) : bool :=
  match orders (market d) !! orderID with Some o => active_status (Status o) | None => false end.
Definition replica_alive (now : Z) (chunkID workerID : string) (d : Db) : bool :=
  workerOnline cfg now workerID d && replicaFileOK env (abs_ok wd) workerID chunkID d.

Definition repair_source (chunkID : string) (existing : list string) (d : Db) : option (string * string) :=
  match omap (λ w, match readVerifiedMarketChunkFile env (abs_ok wd) w chunkID d with
                   | Ok b => if str_len b =? 0 then None else Some (w, b) | Err _ => None end) existing with
  | p :: _ => Some p | [] => None
  end.
(** [for repaired := 0; repaired < need; repaired++] *)
Fixpoint repair_passes (now : Z) (need : nat) (orderID : string) (chunkIndex : Z) (chunkID srcWorker src : string) (existing : list string)
    : act Db unit :=
  match need with
  | O => aret tt
  | S need =>
      let! d := aget in
      let! candidates := alift (PickStorageWorkers cfg now (marketReplicaCount env) d) in
      match filter (λ w, w ∉ existing) candidates with
      | [] => afail "no spare online worker for repair"
      | picked :: _ => λ d,
          match writeMarketChunkFile picked chunkID src d with
          | (Err _, d) => repair_passes now need orderID chunkIndex chunkID srcWorker src existing d
          | (Ok _, d) =>
              let existing := existing ++ [picked] in
              (amod (recordChunkReplicas orderID chunkIndex existing) ;!;
               amod (recordReplicaHealth cfg now orderID chunkIndex picked true) ;!;
               amod (set_repairs (λ l, l ++ [mkRepair orderID chunkIndex chunkID srcWorker picked (str_len src) now])) ;!;
               repair_passes now need orderID chunkIndex chunkID srcWorker src existing) d
          end
      end
  end.
Definition tryRepairChunk (now : Z) (orderID : string) (chunkIndex : Z) (chunkID : string) (existing : list string) (need : Z) : act Db unit :=
  if need <=? 0 then aret tt
  else
    let! d := aget in
    match repair_source chunkID existing d with
    | None => afail "no healthy source replica for repair"
    | Some (w, src) => repair_passes now (Z.to_nat need) orderID chunkIndex chunkID w src existing
    end.

Definition check_replica (now : Z) (orderID : string) (chunkIndex : Z) (chunkID : string) (w : string) : act Db Z :=
  let! d := aget in
  let alive := replica_alive now chunkID w d in
  amod (recordReplicaHealth cfg now orderID chunkIndex w alive) ;!;
  aret (if alive then 1 else 0).
Definition repair_chunk (now : Z) (row : (string * Z) * OrderChunk) : act Db unit :=
  let '((orderID, chunkIndex), c) := row in
  let! d := aget in
  match listChunkReplicaWorkers orderID chunkIndex d with
  | Err _ => aret tt
  | Ok ws =>
      let! healthy := acount (check_replica now orderID chunkIndex (oc_chunk c)) 0 ws in
      let target := marketReplicaCount env in
      if target <=? healthy then aret tt
      else atry (tryRepairChunk now orderID chunkIndex (oc_chunk c) ws (target - healthy))
  end.
Definition repairMissingReplicas (now : Z) : act Db unit :=
  let! d := aget in
  afor (repair_chunk now) (filter (λ kv, order_active kv.1.1 d = true) (map_to_list (order_chunks (market d)))).

Definition alive_replicas (now : Z) (orderID : string) (d : Db) : Z :=
  foldr (λ kv acc,
    (match listChunkReplicaWorkers orderID kv.1.2 d with
     | Ok ws => Z.of_nat (length (filter (λ w, replica_alive now (oc_chunk kv.2) w d = true) ws))
     | Err _ => 0
     end) + acc) 0 (order_rows orderID d).
Definition refreshed (now : Z) (orderID : string) (o : StorageOrder) (d : Db) : StorageOrder :=
  let total := alive_replicas now orderID d in
  let needed := Z.of_nat (length (order_rows orderID d)) * Z.max 1 (marketReplicaCount env) in
  let '(hs, st, detail) :=
    if total =? 0 then (HealthFailed, OrderStatusFailed, "no healthy replicas — restore unavailable until repair succeeds")
    else if total <? needed then (HealthDegraded, OrderStatusDegraded, "healthy replicas %d/%d — restore may use surviving copy; repair queued")
    else (HealthOK, OrderStatusStored, "") in
  let st := if String.eqb (Status o) OrderStatusDraft then Status o else st in
  let st := if String.eqb (Status o) OrderStatusUploading && (0 <? total) then OrderStatusUploading else st in
  let st := if String.eqb (Status o) OrderStatusFailed || String.eqb (Status o) OrderStatusCancelled then Status o else st in
  with_alert now (with_status st hs detail now o).
Definition refresh_one (now : Z) (orderID : string) (d : Db) : Db :=
  if (length (order_rows orderID d) =? 0)%nat then d
  else set_orders (alter (λ o, refreshed now orderID o d) orderID) d.
Definition refreshOrderHealth (now : Z) (d : Db) : Db :=
  foldl (λ d id, refresh_one now id d) d
    (filter (λ kv, active_status (Status kv.2) = true) (map_to_list (orders (market d)))).*1.

Definition RunHealthTick (now : Z) : act Db unit :=
  repairMissingReplicas now ;!; amod (refreshOrderHealth now).

Definition CancelStorageOrder (now : Z) (orderID : string) : act Db StorageOrder :=
  let orderID := trim_space orderID in
  aguard (negb (String.eqb orderID "")) "order_id required" ;!;
  let! d := aget in
  let! o := alift (GetStorageOrder orderID d) in
  if closed_status (Status o) then aret o
  else
    amod (set_orders (alter (λ o, without_token (with_status OrderStatusCancelled (HealthStatus o) "cancelled by customer" now o)) orderID)) ;!;
    amod (refreshOrderHealth now) ;!;
    let! d := aget in
    alift (GetStorageOrder orderID d).

(** The [complete] route of an order. *)
Definition complete_order (now : Z) (orderID token : string) : act Db unit :=
  let! d := aget in
  alift (verifyUploadToken orderID token d) ;!;
  aguard (negb (length (order_rows orderID d) =? 0)%nat) "no chunks uploaded" ;!;
  amod (set_orders (alter (λ o, with_status OrderStatusStored (HealthStatus o) (HealthDetail o) now o) orderID)) ;!;
  amod (refreshOrderHealth now).

Definition restore_ok (o : StorageOrder) : bool :=
  negb (String.eqb (HealthStatus o) HealthFailed) && negb (String.eqb (Status o) OrderStatusFailed)
  && negb (String.eqb (Status o) OrderStatusCancelled).
End market.
