(* ===== verification/HmsPay.v ===== *)
(** The HMS lane: the split of a sealed epoch's budget is exact.

    Source: internal/hms/rewards.go.  [floor_share] and [winner_cut] are the integer rules behind the
    float64 computation; budgets times share counts stay below 2^52. *)
From Stdlib Require Import QArith Qpower Lqa.
From S2P Require Import Prelude Float64 GoText GoNum Json Address CoordShares HmsSeal.
#[local] Open Scope Z_scope.

(** * Exact results of float64 operations *)

Section exact.
#[local] Open Scope Q_scope.

Lemma toQ_round53_exact m j e : (0 <= m < 2 ^ 53)%Z → (0 <= j)%Z →
  toQ (round53 (m * 2 ^ j) e) == inject_Z (m * 2 ^ j) * Qpower 2 e.
Proof.
  intros Hm Hj. assert (0 < 2 ^ j)%Z by (apply Z.pow_pos_nonneg; lia).
  unfold round53. rewrite (Z.abs_eq (m * 2 ^ j)) by nia. destruct (Z.leb_spec (Z.log2 (m * 2 ^ j) - 52) 0) as [|Hk]; [done|].
  assert (0 < m)%Z as Hp by (destruct (Z.eq_dec m 0%Z) as [->|]; [rewrite Z.mul_0_l in Hk; cbn in Hk|]; lia).
  set (k := (Z.log2 (m * 2 ^ j) - 52)%Z) in *.
  assert (k <= j)%Z as Hkj.
  { unfold k. rewrite Z.log2_mul_pow2 by lia. pose proof (proj1 (Z.log2_lt_pow2 m 53 Hp)) as L. specialize (L ltac:(lia)). lia. }
  rewrite Z.sgn_pos by nia. rewrite Z.mul_1_l.
  assert (m * 2 ^ j = m * 2 ^ (j - k) * 2 ^ k)%Z as E.
  { rewrite <- Z.mul_assoc, <- Z.pow_add_r by lia. by replace (j - k + k)%Z with j by lia. }
  rewrite E, rne_exact by (apply Z.pow_pos_nonneg; lia). unfold toQ. cbn [mant expo].
  rewrite pow2_add, (pow2_Z k) by lia. rewrite !inject_Z_mult. ring.
Qed.

Lemma inject_pos z : (0 < z)%Z → 0 < inject_Z z.
Proof. intros. change 0 with (inject_Z 0). by rewrite <- Zlt_Qlt. Qed.

(** A quotient of integers that comes out even is exact. *)
Lemma f_div_exact q t : (0 < q < 2 ^ 53)%Z → (0 < t)%Z →
  toQ (f_div (F64 (q * t) 0) (F64 t 0)) == inject_Z q.
Proof.
  intros Hq Ht. unfold f_div, div_exact. cbn [mant expo]. rewrite !Z.abs_eq, !Z.sgn_pos by nia.
  set (k := Z.max 0 (55 + Z.log2 t - Z.log2 (q * t))).
  replace (q * t * 2 ^ k)%Z with (q * 2 ^ k * t)%Z by ring. rewrite Z.div_mul, Z.mod_mul by lia.
  change (0 =? 0)%Z with true. cbv iota.
  replace (1 * 1 * (2 * (q * 2 ^ k) + 0))%Z with (q * 2 ^ (k + 1))%Z by (rewrite Z.pow_add_r by lia; ring).
  rewrite toQ_round53_exact by lia. rewrite inject_Z_mult, <- (pow2_Z (k + 1)) by lia. rewrite <- Qmult_assoc, <- pow2_add.
  replace (k + 1 + (0 - 0 - k - 1))%Z with 0%Z by lia. change (Qpower 2 0) with 1. ring.
Qed.
End exact.

Lemma f_trunc_exact a z : 0 ≤ mant a → (toQ a == inject_Z z)%Q → f_trunc a = z.
Proof.
  intros Hm E. apply Z.le_antisymm.
  - apply f_trunc_le; [done|]. lra.
  - apply f_trunc_ge; [done|]. lra.
Qed.

(** * The integer rules *)

Definition winner_cut (budget : Z) : Z := 3 * budget / 4.
Definition floor_share (pool total n : Z) : Z := pool * n / total.

Lemma winner_rate : SealWinnerShareRate = F64 6755399441055744 (-53).
Proof. by vm_compute. Qed.

Lemma winner_units b : 0 ≤ b < 2 ^ 51 → f_trunc (f_mul (f_of_Z b) SealWinnerShareRate) = winner_cut b.
Proof.
  intros Hb. rewrite f_of_Z_small by lia. rewrite winner_rate. unfold f_mul. cbn [mant expo].
  replace (b * 6755399441055744) with (3 * b * 2 ^ 51) by lia.
  pose proof (toQ_round53_exact (3 * b) 51 (0 + -53) ltac:(lia) ltac:(lia)) as E.
  assert (0 ≤ mant (round53 (3 * b * 2 ^ 51) (0 + -53))) as Hm by (apply mant_round53; lia).
  assert (toQ (round53 (3 * b * 2 ^ 51) (0 + -53)) == inject_Z (3 * b) * (1 # 4))%Q as E'.
  { rewrite E. rewrite inject_Z_mult. change (Qpower 2 (0 + -53)) with (1 # 9007199254740992).
    change (inject_Z (2 ^ 51)) with (2251799813685248 # 1). lra. }
  unfold winner_cut. pose proof (Z.div_mod (3 * b) 4 ltac:(lia)). pose proof (Z.mod_pos_bound (3 * b) 4 ltac:(lia)).
  set (w := 3 * b / 4) in *.
  assert (inject_Z (4 * w) <= inject_Z (3 * b))%Q as L by (rewrite <- Zle_Qle; lia).
  assert (inject_Z (3 * b) < inject_Z (4 * (w + 1)))%Q as U by (rewrite <- Zlt_Qlt; lia).
  rewrite (inject_Z_mult 4) in L, U. rewrite inject_Z_plus in U. change (inject_Z 4) with (4 # 1)%Q in *. change (inject_Z 1) with 1%Q in *.
  apply Z.le_antisymm; [apply f_trunc_le|apply f_trunc_ge]; try done; rewrite E'; lra.
Qed.

Section share.
Variables (pool total n : Z).
Hypothesis (Ht : 0 < total) (Hp : 0 < pool) (Hn : 0 < n) (Hs : pool * n < 2 ^ 52) (Ht52 : total < 2 ^ 52).
Hypothesis (Hp52 : pool < 2 ^ 52) (Hn52 : n < 2 ^ 52).
Let a := pool * n.
Let q := floor_share pool total n.
Let raw := raw_part pool total n.

Lemma raw_eq : raw = f_div (F64 a 0) (F64 total 0).
Proof using All.
  unfold raw, raw_part. rewrite !f_of_Z_small by lia. f_equal. unfold f_mul. cbn [mant expo]. apply round53_small. nia.
Qed.
Lemma raw_mant : 0 ≤ mant raw.
Proof using All. rewrite raw_eq. apply mant_div; cbn; unfold a; nia. Qed.
Lemma q_div : q * total ≤ a < (q + 1) * total.
Proof using All.
  unfold q, floor_share. fold a. pose proof (Z.div_mod a total ltac:(lia)). pose proof (Z.mod_pos_bound a total Ht). nia.
Qed.

(** The rounded quotient lies between the same integers as the exact one. *)
Lemma raw_bounds :
  (q * total = a → (toQ raw == inject_Z q)%Q) ∧ (q * total < a → (inject_Z q < toQ raw)%Q) ∧ (toQ raw < inject_Z (q + 1))%Q.
Proof using All.
  pose proof q_div as [Hl Hu]. assert (Ha : 0 < a) by (unfold a; nia).
  pose proof (toQ_div (F64 a 0) (F64 total 0) Ha Ht) as [B1 B2]. rewrite <- raw_eq in B1, B2.
  assert (forall z, toQ (F64 z 0) == inject_Z z)%Q as T by (intros; unfold toQ; cbn; ring). rewrite !T in B1, B2.
  set (x := (inject_Z a / inject_Z total)%Q) in *. set (t := inject_Z total) in *.
  assert (0 < t)%Q as Htq by by apply inject_pos.
  assert (x * t == inject_Z a)%Q as Ex by (unfold x; field; intros E; rewrite E in Htq; lra).
  (* a < 2^52: the rounding error is below 1 / total *)
  assert (x * ulp2 * t < 1)%Q as Herr.
  { assert (inject_Z a < inject_Z (2 ^ 52))%Q by (rewrite <- Zlt_Qlt; unfold a; lia).
    change (inject_Z (2 ^ 52)) with (4503599627370496 # 1) in *. unfold ulp2. lra. }
  assert (0 < x)%Q as Hx by (unfold x; apply Qlt_shift_div_l; [done|]; rewrite Qmult_0_l; by apply inject_pos).
  split_and!.
  - intros E. rewrite raw_eq. rewrite <- E. apply f_div_exact; [|done]. nia.
  - intros Hlt. assert (inject_Z q * t + 1 <= x * t)%Q as H1.
    { rewrite Ex. unfold t. rewrite <- inject_Z_mult. change 1%Q with (inject_Z 1). rewrite <- inject_Z_plus, <- Zle_Qle. lia. }
    apply Qlt_le_trans with ((1 - ulp2) * x)%Q; [|done]. apply (Qmult_lt_r _ _ t); [done|]. lra.
  - assert (x * t + 1 <= inject_Z (q + 1) * t)%Q as H1.
    { rewrite Ex. unfold t. rewrite <- inject_Z_mult. change 1%Q with (inject_Z 1). rewrite <- inject_Z_plus, <- Zle_Qle. lia. }
    apply Qle_lt_trans with ((1 + ulp2) * x)%Q; [done|]. apply (Qmult_lt_r _ _ t); [done|]. lra.
Qed.

Lemma raw_floor : f_trunc raw = q.
Proof using All.
  pose proof raw_bounds as (B1 & B2 & B3). pose proof q_div. pose proof raw_mant.
  apply Z.le_antisymm; [apply f_trunc_le|apply f_trunc_ge]; try done.
  - rewrite inject_Z_plus in B3. exact B3.
  - destruct (decide (q * total = a)) as [E|E]; [by rewrite (B1 E); apply Qle_refl|]. apply Qlt_le_weak, B2. lia.
Qed.
Lemma q_small : 0 ≤ q < 2 ^ 52.
Proof using All. pose proof q_div. assert (0 ≤ q) by (unfold q, floor_share; apply Z.div_pos; nia). split; [done|]. unfold a in *. nia. Qed.

(** The fraction is positive exactly when the division leaves a remainder. *)
Definition positive (f : f64) : Prop := 0 < mant f.
Lemma raw_frac : positive (f_sub raw (f_of_Z q)) ↔ q * total < a.
Proof using All.
  pose proof raw_bounds as (B1 & B2 & _). pose proof q_div. pose proof q_small.
  rewrite f_of_Z_small by lia. unfold f_sub, f_neg, f_add, align. cbn [mant expo].
  set (e := Z.min (expo raw) 0).
  assert (toQ raw == inject_Z (mant raw * 2 ^ (expo raw - e)) * Qpower 2 e)%Q as E1 by (apply toQ_align; lia).
  assert (inject_Z q == inject_Z (q * 2 ^ (0 - e)) * Qpower 2 e)%Q as E2.
  { rewrite <- (toQ_align (F64 q 0) e) by (cbn; lia). unfold toQ. cbn. ring. }
  set (x := mant raw * 2 ^ (expo raw - e)) in *. set (y := q * 2 ^ (0 - e)) in *.
  replace (x + - q * 2 ^ (0 - e)) with (x - y) by (unfold y; ring).
  pose proof (pow2_pos e) as P. unfold positive. destruct (decide (q * total = a)) as [E|E].
  - specialize (B1 E). rewrite E1, E2 in B1. assert (x = y) as ->.
    { assert (inject_Z x == inject_Z y)%Q as Q1; [|exact (proj1 (inject_Z_injective _ _) Q1)].
      apply (Qmult_inj_r _ _ (Qpower 2 e)); [|done]. intros Z0. rewrite Z0 in P. lra. }
    rewrite Z.sub_diag, round53_small by done. cbn. lia.
  - assert (q * total < a) as L by lia. specialize (B2 L). rewrite E1, E2 in B2. apply Qmult_lt_r in B2; [|done]. rewrite <- Zlt_Qlt in B2.
    split; [done|intros _]. pose proof (toQ_round53 (x - y) 0 ltac:(lia)) as [R _]. pose proof (mant_round53 (x - y) 0 ltac:(lia)).
    assert (mant (round53 (x - y) e) = mant (round53 (x - y) 0)) as -> by (unfold round53; case_match; done).
    destruct (Z.eq_dec (mant (round53 (x - y) 0)) 0) as [Z0|]; [|lia]. exfalso. unfold toQ in R. rewrite Z0 in R.
    assert (1 <= inject_Z (x - y))%Q by (change 1%Q with (inject_Z 1); rewrite <- Zle_Qle; lia).
    change (Qpower 2 0) with 1%Q in R. change (inject_Z 0) with 0%Q in R. unfold ulp in R. lra.
Qed.
End share.

(** * Spreading the remainder *)

Definition pos (p : sharePart) : Prop := positive (sp_frac p).
#[local] Instance pos_dec p : Decision (pos p).
Proof. unfold pos, positive. apply _. Defined.
Definition floors (l : list sharePart) : Z := foldr (λ p acc, sp_floor p + acc) 0 l.
Definition bumped (p p' : sharePart) : Prop := p' = p ∨ pos p ∧ p' = bump p.

#[local] Instance bumped_refl : Reflexive bumped.
Proof. by left. Qed.

Lemma pos_toQ p : pos p ↔ (0 < toQ (sp_frac p))%Q.
Proof.
  unfold pos, positive, toQ. pose proof (pow2_pos (expo (sp_frac p))) as P. split; intros L.
  - apply Qmult_lt_0_compat; [by apply inject_pos|done].
  - rewrite Zlt_Qlt. change (inject_Z 0) with 0%Q. apply (Qmult_lt_r _ _ _ P). rewrite Qmult_0_l. exact L.
Qed.
Lemma pos_bump p : ¬ pos (bump p).
Proof. intros L. change (0 < mant f0) in L. by vm_compute in L. Qed.

Lemma better_le p q : better p q = true → (toQ (sp_frac q) <= toQ (sp_frac p))%Q.
Proof.
  unfold better. intros [L|L]%orb_true_iff; [apply f_ltb_spec in L; by apply Qlt_le_weak|].
  apply andb_true_iff in L as [L _]. apply f_leb_spec. unfold f_eqb in L. unfold f_leb, align in *. b2p. apply Z.leb_le.
  rewrite Z.min_comm. lia.
Qed.
Lemma not_better_le p q : better p q = false → (toQ (sp_frac p) <= toQ (sp_frac q))%Q.
Proof. unfold better. intros [L _]%orb_false_iff. by apply f_ltb_false. Qed.

Lemma best_from_max (l : list sharePart) rest i best cur : l !! best = Some cur → rest = drop i l →
  ∃ p, l !! best_from i best cur rest = Some p ∧ (toQ (sp_frac cur) <= toQ (sp_frac p))%Q ∧
       ∀ q, q ∈ rest → (toQ (sp_frac q) <= toQ (sp_frac p))%Q.
Proof.
  revert i best cur. induction rest as [|q rest IH]; intros i best cur Hb Hr; cbn.
  - exists cur. split; [done|]. split; [apply Qle_refl|]. by intros q Hq%elem_of_nil.
  - assert (Hi : l !! i = Some q) by (rewrite <- (Nat.add_0_r i), <- lookup_drop; by rewrite <- Hr).
    assert (Hr' : rest = drop (S i) l) by (rewrite <- Nat.add_1_r, <- drop_drop; by rewrite <- Hr).
    destruct (better q cur) eqn:E.
    + destruct (IH (S i) i q Hi Hr') as (p & Hp & L & M). exists p. split; [done|].
      pose proof (better_le _ _ E). split; [by eapply Qle_trans|]. intros x [->|Hx]%elem_of_cons; [done|by apply M].
    + destruct (IH (S i) best cur Hb Hr') as (p & Hp & L & M). exists p. split; [done|]. split; [done|].
      pose proof (not_better_le _ _ E). intros x [->|Hx]%elem_of_cons; [by eapply Qle_trans|by apply M].
Qed.
Lemma best_part_pos l : Exists pos l → ∃ p, l !! best_part l = Some p ∧ pos p.
Proof.
  destruct l as [|c l]; intros He; [by inversion He|]. unfold best_part.
  destruct (best_from_max (c :: l) l 1 0 c eq_refl eq_refl) as (p & Hp & L & M). exists p. split; [done|].
  apply pos_toQ. apply list.Exists_exists in He as (x & [->|Hx]%elem_of_cons & Px%pos_toQ).
  - by eapply Qlt_le_trans.
  - eapply Qlt_le_trans; [done|]. by apply M.
Qed.

Lemma alter_app {A} (f : A → A) (l1 : list A) x l2 : alter f (length l1) (l1 ++ x :: l2) = l1 ++ f x :: l2.
Proof. induction l1 as [|y l1 IH]; cbn; [done|]. by f_equal. Qed.
Lemma floors_app l1 l2 : floors (l1 ++ l2) = floors l1 + floors l2.
Proof. unfold floors. induction l1 as [|p l1 IH]; cbn in *; lia. Qed.
Lemma bumped_trans l1 l2 l3 : Forall2 bumped l1 l2 → Forall2 bumped l2 l3 → Forall2 bumped l1 l3.
Proof.
  intros H1. revert l3. induction H1 as [|x y l l' Hxy _ IH]; intros l3 H2; inversion H2 as [|? z ? ? Hyz]; subst; constructor; [|by apply IH].
  destruct Hxy as [->|[P ->]]; [done|]. destruct Hyz as [->|[Q _]]; [by right|]. by apply pos_bump in Q.
Qed.

(** As many passes as parts have a remainder give each part at most one unit. *)
Lemma spread_spec k l : (k ≤ length (filter pos l))%nat →
  Forall2 bumped l (spread k l) ∧ floors (spread k l) = floors l + Z.of_nat k.
Proof.
  revert l. induction k as [|k IH]; intros l Hk; cbn [spread].
  - split; [done|lia].
  - assert (He : Exists pos l).
    { destruct (filter pos l) as [|p l'] eqn:E; [cbn in Hk; lia|]. apply list.Exists_exists. exists p.
      assert (p ∈ filter pos l) as Hp by (rewrite E; left). apply list_elem_of_filter in Hp. naive_solver. }
    destruct (best_part_pos l He) as (p & Hp & Pp). apply list_elem_of_split_length in Hp as (l1 & l2 & El & Ej).
    rewrite Ej. rewrite El in Hk |- *. rewrite alter_app.
    rewrite list.filter_app, length_app, filter_cons_True in Hk by done. cbn in Hk.
    destruct (IH (l1 ++ bump p :: l2)) as [F1 F2].
    { rewrite list.filter_app, length_app, filter_cons_False by apply pos_bump. lia. }
    split.
    + eapply bumped_trans; [|exact F1]. apply Forall2_app; [done|]. constructor; [by right|done].
    + rewrite F2, !floors_app. cbn. lia.
Qed.

(** * Lines *)

Definition owed (l : SealPayoutLine) : Z := WinnerUnits l + ParticipationUnits l.

Lemma add_parts_other sh l m wid : wid ∉ map sp_worker l → foldl (add_part sh) m l !! wid = m !! wid.
Proof.
  revert m. induction l as [|p l IH]; intros m Hn; cbn in *; [done|]. apply not_elem_of_cons in Hn as [Hp Hl].
  rewrite IH by done. unfold add_part. by rewrite lookup_insert_ne.
Qed.
Lemma add_parts_in sh l m p : NoDup (map sp_worker l) → p ∈ l →
  foldl (add_part sh) m l !! sp_worker p =
    Some (mkLine (WorkerID (ensure (sp_worker p) m)) (WinnerUnits (ensure (sp_worker p) m)) (sp_floor p)
            (TotalUnits (ensure (sp_worker p) m)) (shares_of sh (sp_worker p))).
Proof.
  revert m. induction l as [|q l IH]; intros m Hd Hp; [by apply elem_of_nil in Hp|].
  cbn in Hd |- *. apply list.NoDup_cons in Hd as [Hq Hd]. apply elem_of_cons in Hp as [->|Hp].
  - rewrite add_parts_other by done. unfold add_part. by rewrite lookup_insert_eq.
  - rewrite IH by done. assert (sp_worker q ≠ sp_worker p) as Hne.
    { intros E. apply Hq. rewrite E. apply list_elem_of_fmap. eauto. }
    unfold ensure, add_part. by rewrite lookup_insert_ne.
Qed.
Lemma add_parts_owed sh l m : NoDup (map sp_worker l) →
  (∀ p, p ∈ l → ParticipationUnits (ensure (sp_worker p) m) = 0) →
  msum owed (foldl (add_part sh) m l) = msum owed m + floors l.
Proof.
  revert m. induction l as [|q l IH]; intros m Hd Hz; cbn in *; [lia|]. apply list.NoDup_cons in Hd as [Hq Hd].
  rewrite IH; [|done|].
  - unfold add_part. rewrite msum_insert. unfold owed at 2. cbn. specialize (Hz q ltac:(left)). unfold mval, ensure in *.
    unfold floors. destruct (m !! sp_worker q); cbn in *; unfold owed; lia.
  - intros p Hp. assert (sp_worker q ≠ sp_worker p) as Hne.
    { intros E. apply Hq. rewrite E. apply list_elem_of_fmap. eauto. }
    unfold ensure, add_part. rewrite lookup_insert_ne by done. by apply Hz; right.
Qed.

(** * The shares of an epoch *)

Definition share_ok (p : string * Z) : Prop := trim_space p.1 = p.1 ∧ p.1 ≠ "" ∧ 0 ≤ p.2.
Definition share_sum : list (string * Z) → Z := foldr (λ p acc, p.2 + acc) 0.

Lemma share_sum_nonneg l : Forall share_ok l → 0 ≤ share_sum l.
Proof. induction 1 as [|p l (_ & _ & H) _ IH]; cbn; unfold share_sum in *; lia. Qed.
Lemma share_sum_in l p : Forall share_ok l → p ∈ l → p.2 ≤ share_sum l.
Proof.
  induction 1 as [|q l (_ & _ & H) Hl IH]; [by intros ?%elem_of_nil|]. pose proof (share_sum_nonneg l Hl). unfold share_sum in *.
  intros [->|Hp]%elem_of_cons; cbn; [lia|]. specialize (IH Hp). lia.
Qed.
Section payouts.
Variables (budget : Z) (winner : string) (shares : list (string * Z)).
Hypothesis (Hok : Forall share_ok shares) (Hnd : NoDup (map fst shares)).
Hypothesis (Hb : 0 < budget) (Hw : trim_space winner ≠ "") (Hpos : 0 < share_sum shares) (Hs : budget * share_sum shares < 2 ^ 51).

Let total := share_sum shares.
Let pool := budget - winner_cut budget.

Lemma pool_bounds : 0 < budget < 2 ^ 51 ∧ 0 < total < 2 ^ 51 ∧ 0 < pool ≤ budget ∧ 0 ≤ winner_cut budget.
Proof using All.
  pose proof (Z.div_mod (3 * budget) 4 ltac:(lia)). pose proof (Z.mod_pos_bound (3 * budget) 4 ltac:(lia)).
  unfold pool, winner_cut, total. repeat split; try lia; nia.
Qed.

Lemma total_shares_sum : total_shares shares = total.
Proof using All.
  unfold total_shares. assert (G : ∀ l acc, Forall share_ok l → 0 ≤ acc → acc + share_sum l < two64 →
    foldl (λ acc p, if String.eqb (trimWorkerID p.1) "" then acc else u64 (acc + p.2)) acc l = acc + share_sum l).
  { induction l as [|p l IH]; intros acc Hl H0 H1; cbn; [lia|]. apply list.Forall_cons in Hl as [(E & Hne & Hp) Hl].
    pose proof (share_sum_nonneg l Hl). cbn in H1. fold (share_sum l) in *. unfold trimWorkerID. rewrite E. apply String.eqb_neq in Hne. rewrite Hne.
    rewrite u64_small by lia. rewrite IH by (done || lia). lia. }
  rewrite G; [lia|done|lia|]. pose proof pool_bounds. unfold total, two64 in *. lia.
Qed.

Lemma share_part_exact p : p ∈ shares → 0 < p.2 →
  sp_floor (share_part pool total p.1 p.2) = floor_share pool total p.2 ∧
  (pos (share_part pool total p.1 p.2) ↔ 0 < pool * p.2 - floor_share pool total p.2 * total).
Proof using All.
  intros Hp Hn. pose proof (share_sum_in _ _ Hok Hp) as Hle. fold total in Hle. pose proof pool_bounds as (B1 & B2 & B3 & _).
  assert (pool * p.2 < 2 ^ 52) by (unfold total in *; nia).
  assert (f_trunc (raw_part pool total p.2) = floor_share pool total p.2) as E by (apply raw_floor; lia).
  split; [exact E|]. unfold pos, share_part. cbn [sp_frac]. rewrite E, raw_frac by lia. lia.
Qed.

Definition counted : list (string * Z) := filter (λ p, 0 < p.2) shares.
Definition parts0 : list sharePart := map (λ p, share_part pool total p.1 p.2) counted.
Lemma share_parts_counted : share_parts pool total shares = parts0.
Proof using Hok.
  unfold share_parts, parts0, counted. generalize total, pool. intros t P. clear -Hok.
  induction Hok as [|p l (E & Hne & Hp) _ IH]; [done|]. rewrite filter_cons.
  cbn [omap list_omap]. unfold trimWorkerID in *. rewrite E. apply String.eqb_neq in Hne. rewrite Hne. cbn [orb].
  rewrite IH by (by apply list.Forall_cons in Hok as [_ ?]).
  destruct (Z.eqb_spec p.2 0); [by rewrite decide_False by lia|by rewrite decide_True by lia].
Qed.
Lemma counted_in p : p ∈ counted ↔ p ∈ shares ∧ 0 < p.2.
Proof using. unfold counted. rewrite list_elem_of_filter. tauto. Qed.
Lemma parts0_workers : map sp_worker parts0 = map fst counted.
Proof using. unfold parts0. rewrite map_map. done. Qed.
Lemma counted_nodup : NoDup (map fst counted).
Proof using Hnd.
  unfold counted. clear -Hnd. induction shares as [|p l IH]; [constructor|]. cbn in Hnd. apply list.NoDup_cons in Hnd as [Hp Hl].
  rewrite filter_cons. case_decide; [|by apply IH]. cbn. apply list.NoDup_cons. split; [|by apply IH].
  intros (q & Eq & Hq)%list_elem_of_fmap. apply list_elem_of_filter in Hq as [_ Hq]. apply Hp. apply list_elem_of_fmap. eauto.
Qed.

(** What the floors leave over is at most one unit for each part with a remainder. *)
Lemma floors_remainder : floors parts0 ≤ pool ∧ pool - floors parts0 ≤ Z.of_nat (length (filter pos parts0)).
Proof using All.
  pose proof pool_bounds as (_ & B2 & B3 & _).
  assert (G : ∀ l, (∀ p, p ∈ l → p ∈ shares ∧ 0 < p.2) → let ps := map (λ p, share_part pool total p.1 p.2) l in
    0 ≤ pool * share_sum l - floors ps * total ≤ (total - 1) * Z.of_nat (length (filter pos ps))).
  { induction l as [|p l IH]; intros Hl; [cbn; lia|]. destruct (Hl p ltac:(left)) as [Hin Hn]. destruct (share_part_exact p Hin Hn) as [E P].
    specialize (IH (λ q Hq, Hl q ltac:(by right))). cbv zeta in IH |- *. cbn [map]. set (ps := map _ l) in *. rewrite filter_cons.
    change (share_sum (p :: l)) with (p.2 + share_sum l). change (floors (?q :: ps)) with (sp_floor q + floors ps). rewrite E.
    set (r := pool * p.2 - floor_share pool total p.2 * total) in *.
    assert (0 ≤ r < total).
    { unfold r, floor_share. pose proof (Z.div_mod (pool * p.2) total ltac:(lia)). pose proof (Z.mod_pos_bound (pool * p.2) total ltac:(lia)). nia. }
    case_decide as D; rewrite P in D; cbn [length]; rewrite ?Nat2Z.inj_succ; unfold r in *; nia. }
  specialize (G counted (λ p, proj1 (counted_in p))). cbn in G. fold parts0 in G.
  assert (share_sum counted = total) as E.
  { unfold counted, total. clear -Hok. induction shares as [|p l IH]; [done|]. apply list.Forall_cons in Hok as [(_ & _ & Hp) Hl]. specialize (IH Hl). rewrite filter_cons. case_decide; cbn; unfold share_sum in *; cbn; lia. }
  rewrite E in G. nia.
Qed.

Definition parts1 : list sharePart := spread (Z.to_nat (pool - floors parts0)) parts0.
Definition lines0 : gmap string SealPayoutLine := foldl (add_part shares) (winner_line (trim_space winner) (winner_cut budget)) parts1.

Lemma parts1_spread : Forall2 bumped parts0 parts1 ∧ floors parts1 = pool.
Proof using All.
  destruct floors_remainder as [R1 R2]. destruct (spread_spec (Z.to_nat (pool - floors parts0)) parts0 ltac:(lia)) as [F S].
  split; [exact F|]. unfold parts1. rewrite S. lia.
Qed.
Lemma parts1_workers : map sp_worker parts1 = map fst counted.
Proof using All.
  rewrite <- parts0_workers. destruct parts1_spread as [F _]. clear -F. induction F as [|p q l l' [->|[_ ->]] _ IH]; cbn; [done| |]; by rewrite IH.
Qed.
Lemma parts1_in p' : p' ∈ parts1 → ∃ p, p ∈ counted ∧ sp_worker p' = p.1 ∧
  floor_share pool total p.2 ≤ sp_floor p' ≤ floor_share pool total p.2 + 1.
Proof using All.
  intros Hp. destruct parts1_spread as [F _]. apply list_elem_of_lookup in Hp as [i Hi].
  destruct (Forall2_lookup_r _ _ _ _ _ F Hi) as (p0 & H0 & B). apply list_elem_of_lookup_2 in H0.
  apply list_elem_of_fmap in H0 as (p & -> & Hp). exists p. split; [done|]. apply counted_in in Hp as [H1 H2].
  destruct (share_part_exact p H1 H2) as [E _]. destruct B as [->|[_ ->]]; cbn in *; rewrite E; split; (done || lia).
Qed.
Lemma lines0_owed : msum owed lines0 = budget.
Proof using All.
  unfold lines0. rewrite add_parts_owed.
  - unfold winner_line. rewrite <- insert_empty, msum_insert, msum_empty. unfold mval. rewrite lookup_empty.
    destruct parts1_spread as [_ ->]. unfold owed, pool. cbn. lia.
  - rewrite parts1_workers. apply counted_nodup.
  - intros p _. unfold ensure, winner_line. destruct (decide (sp_worker p = trim_space winner)) as [->|].
    + by rewrite lookup_singleton_eq.
    + by rewrite lookup_singleton_ne.
Qed.
Lemma shares_of_counted p : p ∈ counted → shares_of shares p.1 = p.2.
Proof using Hnd.
  intros [Hp _]%counted_in. unfold shares_of. rewrite (elem_of_list_to_map_1 shares p.1 p.2); [done|exact Hnd|by destruct p].
Qed.
Lemma shares_of_other wid : wid ∉ map fst counted → shares_of shares wid = 0.
Proof using Hok Hnd.
  intros Hn. unfold shares_of. destruct (list_to_map shares !! wid) as [n|] eqn:E; [|done]. cbn.
  apply elem_of_list_to_map_2 in E. destruct (decide (0 < n)) as [|Hle].
  - exfalso. apply Hn. apply list_elem_of_fmap. exists (wid, n). split; [done|]. by apply counted_in.
  - rewrite list.Forall_forall in Hok. destruct (Hok _ E) as (_ & _ & Hp). apply Z.nlt_ge in Hle. by apply Z.le_antisymm.
Qed.
Definition line_ok (wid : string) (l : SealPayoutLine) : Prop :=
  WorkerID l = wid ∧ WinnerUnits l = (if decide (wid = trim_space winner) then winner_cut budget else 0) ∧ SharesOK l = shares_of shares wid ∧
  floor_share pool total (shares_of shares wid) ≤ ParticipationUnits l ≤ floor_share pool total (shares_of shares wid) + 1.
Lemma lines0_ok wid l : lines0 !! wid = Some l → line_ok wid l ∧ 0 ≤ owed l.
Proof using All.
  pose proof pool_bounds as (_ & B2 & B3 & B4). assert (Hfl : ∀ n, 0 ≤ n → 0 ≤ floor_share pool total n) by (intros; apply Z.div_pos; nia).
  intros Hl. unfold lines0 in Hl. destruct (decide (wid ∈ map sp_worker parts1)) as [Hin|Hin].
  - apply list_elem_of_fmap in Hin as (p' & -> & Hp'). destruct (parts1_in p' Hp') as (p & Hp & Ew & Eb).
    rewrite add_parts_in in Hl by (done || (rewrite parts1_workers; apply counted_nodup)). injection Hl as <-.
    assert (Hs' : shares_of shares (sp_worker p') = p.2) by (rewrite Ew; by apply shares_of_counted).
    pose proof (proj2 (proj1 (counted_in p) Hp)) as Hpos'. specialize (Hfl p.2 ltac:(lia)). unfold line_ok. rewrite Hs'. cbn. unfold owed, ensure, winner_line. cbn.
    case_decide as D; [rewrite D, lookup_singleton_eq|rewrite lookup_singleton_ne by done]; cbn; repeat split; (done || lia).
  - rewrite add_parts_other in Hl by done. unfold winner_line in Hl. apply lookup_singleton_Some in Hl as [<- <-].
    rewrite parts1_workers in Hin. unfold line_ok. rewrite (shares_of_other _ Hin), decide_True by done. unfold floor_share, owed. cbn.
    rewrite Z.mul_0_r, Z.div_0_l by lia. repeat split; (done || lia).
Qed.
Lemma lines0_dom p : p ∈ counted → is_Some (lines0 !! p.1).
Proof using All.
  intros Hp. assert (p.1 ∈ map sp_worker parts1) as Hw' by (rewrite parts1_workers; by apply list_elem_of_fmap_2).
  apply list_elem_of_fmap in Hw' as (p' & -> & Hp'). unfold lines0.
  rewrite add_parts_in by (done || (rewrite parts1_workers; apply counted_nodup)). eauto.
Qed.
Lemma total_line_owed wid l : lines0 !! wid = Some l → TotalUnits (total_line l) = owed l.
Proof using All.
  intros Hl. cbn. fold (owed l). pose proof (proj2 (lines0_ok wid l Hl)). apply u64_small. split; [done|].
  assert (owed l ≤ msum owed lines0) as Hle.
  { apply (msum_lookup_le owed lines0 wid); [|done]. intros w x Hx. by apply (lines0_ok w). }
  rewrite lines0_owed in Hle. pose proof pool_bounds. unfold two64. lia.
Qed.

Lemma payouts_run : ComputeSealEpochPayouts budget winner shares = Ok (total_line <$> lines0).
Proof using All.
  pose proof pool_bounds as (B1 & B2 & B3 & B4). unfold ComputeSealEpochPayouts, trimWorkerID.
  destruct (Z.eqb_spec budget 0); [lia|]. pose proof Hw as Hw'. apply String.eqb_neq in Hw'. rewrite Hw'.
  assert ((length shares =? 0)%nat = false) as ->.
  { apply Nat.eqb_neq. intros E%nil_length_inv. assert (share_sum shares = 0) by (by rewrite E). lia. }
  rewrite total_shares_sum. destruct (Z.eqb_spec total 0); [lia|]. rewrite winner_units by lia. fold pool.
  rewrite (u64_small pool) by (unfold two64; lia). rewrite share_parts_counted.
  assert (Ea : foldl (λ acc p, u64 (acc + sp_floor p)) 0 parts0 = floors parts0).
  { destruct floors_remainder as [R _]. assert (G : ∀ l acc, Forall (λ p, 0 ≤ sp_floor p) l → 0 ≤ acc → acc + floors l < two64 →
      foldl (λ acc p, u64 (acc + sp_floor p)) acc l = acc + floors l).
    { induction l as [|p l IH]; intros acc Hl H0 H1; cbn; [lia|]. apply list.Forall_cons in Hl as [Hp Hl].
      assert (0 ≤ floors l) by (clear -Hl; induction Hl; cbn in *; unfold floors in *; lia).
      cbn in H1. fold (floors l) in *. rewrite u64_small by lia. rewrite IH by (done || lia). lia. }
    rewrite G; [lia| |lia|unfold two64; lia]. apply list.Forall_forall. intros x (p & -> & Hp)%list_elem_of_fmap.
    apply counted_in in Hp as [H1 H2]. destruct (share_part_exact p H1 H2) as [E _]. rewrite E. apply Z.div_pos; nia. }
  rewrite Ea. fold parts1. fold lines0.
  assert (msum TotalUnits (total_line <$> lines0) = budget) as ->.
  { rewrite msum_fmap. etrans; [|exact lines0_owed]. apply msum_ext. intros k v Hk. by apply (total_line_owed k). }
  rewrite u64_small by (unfold two64; lia). by rewrite Z.eqb_refl.
Qed.
End payouts.

(** C22: the budget of a sealed epoch is split exactly, when it is positive, the share counts are non-negative and not all zero, one
    per trimmed worker name, the winner is named, and budget times shares stays below 2^51 (above that the parts, computed in
    float64, may be off): the winner gets three quarters, the rest goes to the workers in proportion to their shares, each within one
    unit of its exact part, and the lines add up to the budget; within these bounds the drift the code tests for cannot happen,
    whatever order Go visits the map in. *)
Theorem seal_payouts_exact budget winner shares :
  Forall share_ok shares → NoDup (map fst shares) → 0 < budget → trim_space winner ≠ "" → 0 < share_sum shares →
  budget * share_sum shares < 2 ^ 51 →
  ∃ lines, ComputeSealEpochPayouts budget winner shares = Ok lines ∧ msum TotalUnits lines = budget ∧
    (∀ wid l, lines !! wid = Some l → line_ok budget winner shares wid l ∧ TotalUnits l = WinnerUnits l + ParticipationUnits l) ∧
    ∀ wid n, (wid, n) ∈ shares → 0 < n → is_Some (lines !! wid).
Proof.
  intros Hok Hnd Hb Hw Hpos Hs. exists (total_line <$> lines0 budget winner shares).
  split; [by apply payouts_run|]. split_and!.
  - rewrite msum_fmap. etrans; [|by apply (lines0_owed budget winner shares)]. apply msum_ext. intros k v Hk.
    by apply (total_line_owed budget winner shares Hok Hnd Hb Hw Hpos Hs k).
  - intros wid l. rewrite lookup_fmap. intros (l0 & Hl & ->)%fmap_Some.
    split; [exact (proj1 (lines0_ok budget winner shares Hok Hnd Hb Hw Hpos Hs wid l0 Hl))|].
    by apply (total_line_owed budget winner shares Hok Hnd Hb Hw Hpos Hs wid).
  - intros wid n Hin Hn. rewrite lookup_fmap. apply fmap_is_Some.
    apply (lines0_dom budget winner shares Hok Hnd Hb Hw Hpos Hs (wid, n)). by apply counted_in.
Qed.

Definition ex_shares : list (string * Z) := [("winner", 100); ("w2", 300); ("w3", 101)].
Lemma seal_payouts_exact_witness :
  ∃ lines, ComputeSealEpochPayouts 1000000 "winner" ex_shares = Ok lines ∧ msum TotalUnits lines = 1000000 ∧
    (∀ wid l, lines !! wid = Some l → line_ok 1000000 "winner" ex_shares wid l ∧ TotalUnits l = WinnerUnits l + ParticipationUnits l) ∧
    ∀ wid n, (wid, n) ∈ ex_shares → 0 < n → is_Some (lines !! wid).
Proof.
  apply (seal_payouts_exact 1000000 "winner" ex_shares).
  - repeat constructor; cbn; done.
  - by apply (bool_decide_unpack _).
  - done.
  - by vm_compute.
  - done.
  - done.
Defined.
