(* ===== verification/HmsRules.v ===== *)
(** The HMS lane: what its pure rules guarantee: manifests, targets, rate limits.

    Sources: internal/hms: manifest.go, seal.go, abuse.go. *)
From Stdlib Require Import QArith Qpower.
From S2P Require Import Prelude Float64 GoText GoNum Json Address CoordShares HmsSeal.
#[local] Open Scope Z_scope.

(** * Manifest roots *)

Section merkle.
Context `{Crypto}.

(** Two different messages among those that were hashed have one digest. *)
Definition clash (ms : list string) : Prop := ∃ x y, x ∈ ms ∧ y ∈ ms ∧ x ≠ y ∧ sha256 x = sha256 y.
Definition digest (s : string) : Prop := String.length s = 32%nat.
(** The messages SHA-256 is run on: twice for a pair, a pair of a level at a time, a level at a time. *)
Definition twice (m : string) : list string := [m; sha256 m].
Fixpoint level_msgs (level : list string) : list string :=
  match level with
  | a :: b :: r => twice (a +:+ b) ++ level_msgs r
  | [a] => twice (a +:+ a)
  | [] => []
  end.
Fixpoint merkle_msgs (fuel : nat) (level : list string) : list string :=
  match fuel with
  | O => []
  | S fuel => if (1 <? length level)%nat then level_msgs level ++ merkle_msgs fuel (next_level level) else []
  end.
Definition root_msgs (l : list string) : list string := merkle_msgs (length l) l.

Lemma clash_mono ms ms' : ms ⊆ ms' → clash ms → clash ms'.
Proof. intros Hs (x & y & Hx & Hy & R). exists x, y. auto. Qed.
Lemma sha256_inj ms x y : x ∈ ms → y ∈ ms → sha256 x = sha256 y → x = y ∨ clash ms.
Proof. intros Hx Hy E. destruct (decide (x = y)) as [|Hn]; [by left|]. right. by exists x, y. Qed.
Lemma twice_inj ms x y : twice x ⊆ ms → twice y ⊆ ms → sha256 (sha256 x) = sha256 (sha256 y) → x = y ∨ clash ms.
Proof.
  intros Hx Hy E. assert (x ∈ ms ∧ sha256 x ∈ ms ∧ y ∈ ms ∧ sha256 y ∈ ms) as (H1 & H2 & H3 & H4) by (unfold twice in *; set_solver).
  destruct (sha256_inj ms _ _ H2 H4 E) as [E1|]; [|by right]. by apply sha256_inj.
Qed.
Lemma sapp_inj_len a b c d : String.length a = String.length b → a +:+ c = b +:+ d → a = b ∧ c = d.
Proof.
  revert b. induction a as [|x a IH]; intros [|y b] L E; try done. cbn in L, E.
  injection E as -> E. destruct (IH b ltac:(lia) E) as [-> ->]. done.
Qed.
Lemma pairHash_inj ms a b c d : digest a → digest c → twice (a +:+ b) ⊆ ms → twice (c +:+ d) ⊆ ms →
  pairHash a b = pairHash c d → (a = c ∧ b = d) ∨ clash ms.
Proof.
  intros Ha Hc H1 H2 E. destruct (twice_inj ms _ _ H1 H2 E) as [E2|]; [|by right]. left. apply sapp_inj_len in E2; [done|congruence].
Qed.
Lemma pairHash_digest a b : digest (pairHash a b).
Proof. apply sha256_length. Qed.

(** Two elements at a time. *)
Lemma pairs_ind (P : list string → Prop) : P [] → (∀ a, P [a]) → (∀ a b l, P l → P (a :: b :: l)) → ∀ l, P l.
Proof.
  intros H0 H1 H2. fix IH 1. intros [|a [|b l]]; [exact H0|apply H1|apply H2, IH].
Qed.
Lemma next_level_length l : (length (next_level l) = Nat.div2 (S (length l)))%nat.
Proof. induction l as [| |a b l IH] using pairs_ind; cbn; [done|done|]. rewrite IH. done. Qed.
Lemma next_level_digests l : Forall digest (next_level l).
Proof. induction l as [| |a b l IH] using pairs_ind; cbn; repeat constructor; auto using pairHash_digest. Qed.
Lemma next_level_inj ms l l' : length l = length l' → Forall digest l → Forall digest l' → level_msgs l ⊆ ms → level_msgs l' ⊆ ms →
  next_level l = next_level l' → l = l' ∨ clash ms.
Proof.
  revert l'. induction l as [|a|a b l IH] using pairs_ind; intros l' L F F' M M' E.
  - destruct l'; [by left|done].
  - destruct l' as [|a' [|]]; try done. cbn [next_level level_msgs] in *. injection E as E. apply list.Forall_cons in F as [Fa _].
    apply list.Forall_cons in F' as [Fa' _]. destruct (pairHash_inj ms _ _ _ _ Fa Fa' M M' E) as [[-> _]|]; [by left|by right].
  - destruct l' as [|a' [|b' l']]; try done. cbn [next_level level_msgs length] in *. injection E as E1 E2.
    apply list_subseteq_app_iff_l in M as [M1 M2]. apply list_subseteq_app_iff_l in M' as [M1' M2'].
    apply list.Forall_cons in F as [Fa [_ F]%list.Forall_cons]. apply list.Forall_cons in F' as [Fa' [_ F']%list.Forall_cons].
    destruct (pairHash_inj ms _ _ _ _ Fa Fa' M1 M1' E1) as [[-> ->]|]; [|by right].
    destruct (IH l' ltac:(lia) F F' M2 M2' E2) as [->|]; [by left|by right].
Qed.

Lemma div2_shrinks n : (1 < n)%nat → (1 ≤ Nat.div2 (S n) < n)%nat.
Proof. intros Hn. rewrite !Nat.div2_div. pose proof (Nat.div_mod (S n) 2). pose proof (Nat.mod_upper_bound (S n) 2). lia. Qed.
(** More fuel than leaves changes nothing. *)
Lemma merkle_fuel l f g : (length l ≤ f)%nat → (length l ≤ g)%nat → merkle f l = merkle g l.
Proof.
  revert l g. induction f as [|f IH]; intros l g Hf Hg.
  - destruct l; [|cbn in Hf; lia]. by destruct g.
  - cbn [merkle]. destruct (1 <? length l)%nat eqn:E.
    + apply Nat.ltb_lt in E. destruct g as [|g]; [lia|]. cbn [merkle]. rewrite (proj2 (Nat.ltb_lt _ _) E).
      pose proof (div2_shrinks _ E). apply IH; rewrite next_level_length; lia.
    + destruct g as [|g]; [done|]. cbn [merkle]. by rewrite E.
Qed.
Lemma merkle_single f l : (1 ≤ length l ≤ f)%nat → length (merkle f l) = 1%nat.
Proof.
  revert l. induction f as [|f IH]; intros l Hl; [lia|]. cbn [merkle]. destruct (1 <? length l)%nat eqn:E.
  - apply Nat.ltb_lt in E. pose proof (div2_shrinks _ E). apply IH. rewrite next_level_length. lia.
  - apply Nat.ltb_ge in E. lia.
Qed.
Lemma merkle_inj ms f l l' : length l = length l' → Forall digest l → Forall digest l' → merkle_msgs f l ⊆ ms → merkle_msgs f l' ⊆ ms →
  merkle f l = merkle f l' → l = l' ∨ clash ms.
Proof.
  revert l l'. induction f as [|f IH]; intros l l' L F F' M M' E; cbn [merkle merkle_msgs] in *; [by left|]. rewrite <- L in E, M'.
  destruct (1 <? length l)%nat; [|by left]. apply list_subseteq_app_iff_l in M as [M1 M2]. apply list_subseteq_app_iff_l in M' as [M1' M2'].
  destruct (IH (next_level l) (next_level l')) as [E'|]; [by rewrite !next_level_length, L|apply next_level_digests..|done|done|done| |by right].
  by apply next_level_inj.
Qed.

(** C24: a manifest root commits to the leaves of a known number: two lists of as many leaves with one
    root are equal, or the messages hashed for the two roots hold two different ones with one digest.
    The number has to be known: repeating the last of an odd number of leaves does not change the root. *)
Theorem MerkleRoot_binds l l' : length l = length l' → Forall digest l → Forall digest l' → MerkleRoot l = MerkleRoot l' →
  (l = l' ∨ clash (root_msgs l ++ root_msgs l')) ∧ ∀ m x, Nat.Even (length m) → m ≠ [] → MerkleRoot (m ++ [x]) = MerkleRoot (m ++ [x; x]).
Proof.
  intros L F F' E. split.
  - destruct l as [|a l]; destruct l' as [|a' l']; try done; [by left|]. unfold MerkleRoot in E. rewrite <- L in E.
    pose proof (merkle_single (length (a :: l)) (a :: l) ltac:(cbn; lia)) as S1.
    pose proof (merkle_single (length (a :: l)) (a' :: l') ltac:(rewrite <- L; cbn; lia)) as S2.
    apply (merkle_inj _ (length (a :: l))); [done..|apply list_subseteq_app_l; done|apply list_subseteq_app_r; unfold root_msgs; by rewrite L|].
    destruct (merkle _ (a :: l)) as [|x [|]]; [done| |done]. destruct (merkle _ (a' :: l')) as [|y [|]]; [done| |done]. cbn in E. by subst.
  - intros m x He Hne. assert (Hn : next_level (m ++ [x]) = next_level (m ++ [x; x])).
    { clear Hne. induction m as [| |a b m IH] using pairs_ind; [done| |].
      - destruct He as [k Hk]. cbn in Hk. lia.
      - cbn. rewrite IH; [done|]. destruct He as [[|k] Hk]; [done|]. exists k. cbn in Hk. lia. }
    unfold MerkleRoot. destruct m as [|a m]; [done|]. assert (1 ≤ length m)%nat by (destruct He; cbn in *; lia).
    cbn [app]. f_equal. cbn [length merkle]. rewrite !length_app. cbn [length].
    replace (1 <? S (length m + 1))%nat with true by (symmetry; apply Nat.ltb_lt; lia).
    replace (1 <? S (length m + 2))%nat with true by (symmetry; apply Nat.ltb_lt; lia).
    cbn [app] in Hn. rewrite Hn. apply merkle_fuel; rewrite <- Hn, next_level_length; cbn [length]; rewrite length_app; cbn [length];
      rewrite Nat.div2_div; apply Nat.Div0.div_le_upper_bound; lia.
Qed.
End merkle.

(** * Byte values *)

Lemma be_acc_shift acc s : be_acc acc s = acc * 256 ^ str_len s + be_value s.
Proof.
  unfold be_value, str_len. revert acc. induction s as [|a s IH]; intros acc; cbn [be_acc String.length]; [rewrite Z.pow_0_r; lia|].
  rewrite IH, (IH (256 * 0 + _)), Nat2Z.inj_succ, Z.pow_succ_r by lia. ring.
Qed.
Lemma be_value_app a b : be_value (a +:+ b) = be_value a * 256 ^ str_len b + be_value b.
Proof.
  rewrite <- be_acc_shift. unfold be_value. generalize 0. induction a as [|x a IH]; intros acc; cbn; [done|apply IH].
Qed.
Lemma ascii_range a : 0 ≤ Z.of_nat (nat_of_ascii a) < 256.
Proof. pose proof (nat_ascii_bounded a). lia. Qed.
Lemma be_value_range s : 0 ≤ be_value s < 256 ^ str_len s.
Proof.
  unfold str_len. induction s as [|a s IH]; [cbn; lia|]. unfold be_value in *. cbn [be_acc String.length]. rewrite be_acc_shift.
  unfold str_len, be_value. rewrite Nat2Z.inj_succ, Z.pow_succ_r by lia. pose proof (ascii_range a). nia.
Qed.
Lemma be_value_fixed n z acc : 0 ≤ z < 256 ^ Z.of_nat n → be_value (be_fixed n z acc) = z * 256 ^ str_len acc + be_value acc.
Proof.
  revert z acc. induction n as [|n IH]; intros z acc Hz; cbn [be_fixed].
  - change (256 ^ Z.of_nat 0) with 1 in Hz. replace z with 0 by lia. done.
  - rewrite Nat2Z.inj_succ, Z.pow_succ_r in Hz by lia. pose proof (Z.div_mod z 256 ltac:(lia)). pose proof (Z.mod_pos_bound z 256 ltac:(lia)).
    rewrite IH by (split; [apply Z.div_pos; lia|apply Z.div_lt_upper_bound; lia]).
    unfold be_value at 1. cbn [be_acc]. rewrite be_acc_shift. rewrite nat_ascii_embedding by lia. unfold str_len. cbn [String.length].
    rewrite Nat2Z.inj_succ, Z.pow_succ_r by lia. rewrite Z2Nat.id by lia. nia.
Qed.
Lemma be_fixed_length n z acc : String.length (be_fixed n z acc) = (n + String.length acc)%nat.
Proof. revert z acc. induction n as [|n IH]; intros; cbn [be_fixed]; [done|]. rewrite IH. cbn. lia. Qed.

Lemma bit_len_spec z : 0 < z → 2 ^ (bit_len z - 1) ≤ z < 2 ^ bit_len z ∧ 0 < bit_len z.
Proof.
  intros Hz. unfold bit_len. destruct (Z.eqb_spec z 0); [lia|]. rewrite Z.abs_eq by lia. pose proof (Z.log2_spec z Hz). pose proof (Z.log2_nonneg z).
  replace (Z.log2 z + 1 - 1) with (Z.log2 z) by lia. rewrite Z.add_1_r. lia.
Qed.
Lemma pow256 n : 0 ≤ n → 256 ^ n = 2 ^ (8 * n).
Proof. intros. change 256 with (2 ^ 8). by rewrite <- Z.pow_mul_r by lia. Qed.
(** [Bytes] is the shortest big-endian form. *)
Lemma big_bytes_spec z : 0 ≤ z → be_value (big_bytes z) = z ∧ (0 < z → 256 ^ (str_len (big_bytes z) - 1) ≤ z) ∧
  (bit_len z ≤ 256 → (String.length (big_bytes z) ≤ 32)%nat).
Proof.
  intros Hz. unfold big_bytes. unfold str_len. rewrite Z.abs_eq, be_fixed_length by lia. cbn [String.length]. rewrite Nat.add_0_r.
  set (n := (bit_len z + 7) / 8). assert (0 ≤ bit_len z) by (unfold bit_len; case_match; [lia|]; pose proof (Z.log2_nonneg (Z.abs z)); lia).
  pose proof (Z.div_mod (bit_len z + 7) 8 ltac:(lia)). pose proof (Z.mod_pos_bound (bit_len z + 7) 8 ltac:(lia)). fold n in H0.
  rewrite Z2Nat.id by lia. split_and!.
  - rewrite be_value_fixed; [change (str_len "") with 0; change (be_value "") with 0; rewrite Z.pow_0_r; lia|]. rewrite Z2Nat.id by lia. split; [done|]. destruct (decide (z = 0)) as [->|].
    + apply Z.pow_pos_nonneg; lia.
    + destruct (bit_len_spec z ltac:(lia)) as [[_ U] _]. rewrite pow256 by lia. eapply Z.lt_le_trans; [exact U|]. apply Z.pow_le_mono_r; lia.
  - intros Hp. destruct (bit_len_spec z Hp) as [[L _] B]. rewrite pow256 by lia. etrans; [|exact L]. apply Z.pow_le_mono_r; lia.
  - intros. lia.
Qed.

Lemma str_take_app n s : ∃ r, s = str_take n s +:+ r ∧ String.length (str_take n s) = Nat.min n (String.length s).
Proof.
  revert s. induction n as [|n IH]; intros s; [exists s; by destruct s|]. destruct s as [|a s]; [by exists ""|].
  destruct (IH s) as (r & E & L). exists r. cbn [str_take String.length]. rewrite scons_app, L. split; [congruence|done].
Qed.
Lemma str_take_all s r : str_take (String.length s) (s +:+ r) = s.
Proof. induction s as [|a s IH]; [by destruct r|]. rewrite scons_app. cbn [str_take String.length]. by rewrite IH. Qed.

(** * Targets *)

Lemma seal_adjusted_range cur ratio : bit_len (seal_adjusted cur ratio) ≤ 256.
Proof. unfold seal_adjusted. case_match; b2p; [by vm_compute|lia]. Qed.

(** The new target is the adjusted value written over the end of the old one. *)
Lemma RetargetSeal_value old a d clamp : digest old → 0 < a → 0 < d →
  let adj := seal_adjusted (be_value old) (seal_ratio a d clamp) in
  0 ≤ adj → ∃ hi lo, old = hi +:+ lo ∧ str_len lo = str_len (big_bytes adj) ∧
  be_value (RetargetSeal old a d clamp) = be_value hi * 256 ^ str_len (big_bytes adj) + adj.
Proof.
  intros Ho Ha Hd adj Hadj. destruct (big_bytes_spec adj Hadj) as (Ev & _ & El). specialize (El (seal_adjusted_range _ _)).
  destruct (str_take_app (32 - String.length (big_bytes adj)) old) as (lo & Eo & Lo). unfold digest in Ho. rewrite Ho in Lo.
  exists (str_take (32 - String.length (big_bytes adj)) old), lo. split; [done|]. split.
  { unfold str_len. rewrite Eo in Ho at 1. rewrite string_length_app, Lo in Ho. lia. }
  unfold RetargetSeal. destruct (Z.leb_spec d 0), (Z.leb_spec a 0); try lia. unfold str_len at 1. rewrite Ho. cbn [orb negb].
  change (Z.of_nat 32 =? 32) with true. cbn [negb]. unfold copy_to. rewrite <- Ho at 2. rewrite str_take_all. fold adj.
  by rewrite be_value_app, Ev.
Qed.

(** a retarget writes the adjusted value over the old bytes without clearing them.  The result is the
    adjusted value when that has as many bytes as the old target or more; but a target that once reached
    [256^k] never falls below it, however fast seals come, so the difficulty has a ceiling; and a seal
    found six times too fast can raise the target. *)
Theorem target_never_loses_a_byte old a d clamp k : digest old → 0 < a → 0 < d → 0 ≤ k →
  let adj := seal_adjusted (be_value old) (seal_ratio a d clamp) in 0 ≤ adj →
  (be_value old < 256 ^ str_len (big_bytes adj) → be_value (RetargetSeal old a d clamp) = adj) ∧
  (256 ^ k ≤ be_value old → 256 ^ k ≤ be_value (RetargetSeal old a d clamp)) ∧
  ∃ old', digest old' ∧ be_value old' < be_value (RetargetSeal old' 100 600 (f_of_Z 4)).
Proof.
  intros Ho Ha Hd Hk adj Hadj. destruct (RetargetSeal_value old a d clamp Ho Ha Hd Hadj) as (hi & lo & Eo & Ll & ->). fold adj in Ll |- *.
  destruct (big_bytes_spec adj Hadj) as (_ & Hmin & _). set (m := str_len (big_bytes adj)) in *.
  pose proof (be_value_app hi lo) as Ev. rewrite <- Eo, Ll in Ev. pose proof (be_value_range lo) as Rl. rewrite Ll in Rl.
  pose proof (be_value_range hi) as [Rh _]. assert (0 ≤ m) by (unfold m, str_len; lia).
  assert (0 < 256 ^ m) by (apply Z.pow_pos_nonneg; lia). split_and!.
  - intros L. destruct (Z.eq_dec (be_value hi) 0) as [->|Hh]; [lia|exfalso].
    assert (1 * 256 ^ m ≤ be_value hi * 256 ^ m) by (apply Z.mul_le_mono_nonneg_r; lia). lia.
  - intros L. destruct (Z.eq_dec (be_value hi) 0) as [E0|Hh].
    + rewrite E0 in *. assert (256 ^ k < 256 ^ m) as Lt by lia. apply Z.pow_lt_mono_r_iff in Lt; [|lia..].
      assert (256 ^ k ≤ 256 ^ (m - 1)) by (apply Z.pow_le_mono_r; lia). assert (adj ≠ 0); [|lia].
      intros Ez. assert (m = 0); [|lia]. unfold m. by rewrite Ez.
    + destruct (Z.le_gt_cases m k) as [Lm|Lm].
      * assert (256 ^ k = 256 ^ (k - m) * 256 ^ m) as E by (rewrite <- Z.pow_add_r by lia; f_equal; lia). rewrite E in *.
        assert (256 ^ (k - m) < be_value hi + 1); nia.
      * assert (256 ^ k ≤ 256 ^ m) by (apply Z.pow_le_mono_r; lia). nia.
  - exists (zeros 2 +:+ byte1 1 +:+ zeros 29). split; [done|]. by vm_compute.
Qed.
Lemma target_never_loses_a_byte_witness :
  let old := zeros 2 +:+ byte1 1 +:+ zeros 29 in
  let adj := seal_adjusted (be_value old) (seal_ratio 1 600 (f_of_Z 4)) in
  (be_value old < 256 ^ str_len (big_bytes adj) → be_value (RetargetSeal old 1 600 (f_of_Z 4)) = adj) ∧
  (256 ^ 29 ≤ be_value old → 256 ^ 29 ≤ be_value (RetargetSeal old 1 600 (f_of_Z 4))) ∧
  ∃ old', digest old' ∧ be_value old' < be_value (RetargetSeal old' 100 600 (f_of_Z 4)).
Proof.
  apply (target_never_loses_a_byte (zeros 2 +:+ byte1 1 +:+ zeros 29) 1 600 (f_of_Z 4) 29); [reflexivity|lia|lia|lia|].
  by vm_compute.
Defined.

#[local] Existing Instance toy_crypto.
(** Leaves that the toy digest, which keeps 32 bytes, does not tell apart. *)
Definition ex_leaves (k : Z) : list string := map (λ n, sha256 (fmt_int n)) [1; 2; k].
Lemma MerkleRoot_binds_witness :
  (ex_leaves 3 = ex_leaves 4 ∨ clash (root_msgs (ex_leaves 3) ++ root_msgs (ex_leaves 4))) ∧
  ∀ m x, Nat.Even (length m) → m ≠ [] → MerkleRoot (m ++ [x]) = MerkleRoot (m ++ [x; x]).
Proof.
  apply (MerkleRoot_binds (ex_leaves 3) (ex_leaves 4)); [reflexivity| | |reflexivity]; repeat constructor.
Defined.
