(* ===== verification/HmsSteps.v ===== *)
(** The HMS lane over time: every operation is a path of the moves that can change its history.

    Sources: internal/hms: coordinator.go, settlement.go, warm.go, market.go, market_replication.go,
    market_health.go.

    A history is what the lane must not rewrite: the epochs with their manifests and seals, the chunks a
    manifest covers, the key of each worker, the payouts.  [move] lists the ways it can change at a time;
    [quiet] says it does not change. *)
From S2P Require Import Prelude Float64 GoText GoNum Json Address CoordShares GoSort HmsSeal HmsBase HmsLane HmsStore.

(** * Changes that leave the history alone *)

Definition keys_kept (d d' : Db) : Prop :=
  ∀ id w, workers d !! id = Some w → ∃ w', workers d' !! id = Some w' ∧ w_pub w' = w_pub w.
#[global] Instance keys_kept_preorder : PreOrder keys_kept.
Proof.
  split; [intros d id w Hw; by exists w|]. intros d1 d2 d3 H1 H2 id w Hw.
  destruct (H1 id w Hw) as (w1 & E1 & P1). destruct (H2 id w1 E1) as (w2 & E2 & P2). exists w2. by rewrite P2.
Qed.

Record quiet (d d' : Db) : Prop := mkQuiet {
  q_epochs : epochs (lane d') = epochs (lane d);
  q_chunks : chunks d' = chunks d;
  q_payouts : payouts (lane d') = payouts (lane d);
  q_orders : dom (orders (market d')) = dom (orders (market d));
  q_keys : keys_kept d d';
}.
#[global] Instance quiet_preorder : PreOrder quiet.
Proof.
  split; [intros d; by split|]. intros d1 d2 d3 [A1 B1 C1 D1 E1] [A2 B2 C2 D2 E2]. split; [congruence..|by etrans].
Qed.

Create HintDb hms.
#[export] Hint Extern 0 (quiet ?d ?d) => reflexivity : hms.
Ltac still := intros; split; [reflexivity..|by intros k w Hk; exists w].

Lemma quiet_challenges f d : quiet d (set_challenges f d). Proof. still. Qed.
Lemma quiet_nonces f d : quiet d (set_nonces f d). Proof. still. Qed.
Lemma quiet_shares f d : quiet d (set_shares f d). Proof. still. Qed.
Lemma quiet_warm f d : quiet d (set_warm f d). Proof. still. Qed.
Lemma quiet_peers f d : quiet d (set_peers f d). Proof. still. Qed.
Lemma quiet_order_chunks f d : quiet d (set_order_chunks f d). Proof. still. Qed.
Lemma quiet_replicas f d : quiet d (set_replicas f d). Proof. still. Qed.
Lemma quiet_health f d : quiet d (set_health f d). Proof. still. Qed.
Lemma quiet_repairs f d : quiet d (set_repairs f d). Proof. still. Qed.
Lemma quiet_files f d : quiet d (set_files f d). Proof. still. Qed.
Lemma quiet_orders_alter f id d : quiet d (set_orders (alter f id) d).
Proof. split; [done|done|done|apply dom_alter_L|by intros k w Hk; exists w]. Qed.
Lemma keys_alter f id d : (∀ w, w_pub (f w) = w_pub w) → keys_kept d (on_worker id f d).
Proof.
  intros Hf k w Hw. unfold on_worker. cbn. destruct (decide (id = k)) as [->|].
  - rewrite lookup_alter_eq, Hw. cbn. eauto.
  - rewrite lookup_alter_ne by done. eauto.
Qed.
Lemma quiet_worker f id d : (∀ w, w_pub (f w) = w_pub w) → quiet d (on_worker id f d).
Proof. intros Hf. split; [done..|by apply keys_alter]. Qed.
Lemma quiet_new_worker id w d : workers d !! id = None → quiet d (set_workers (insert id w) d).
Proof. intros Hn. split; [done..|]. intros k v Hk. cbn. rewrite lookup_insert_ne by congruence. eauto. Qed.
Lemma quiet_strike cfg w ep d : quiet d (addStrike cfg w ep d).
Proof. by apply quiet_worker. Qed.
Lemma quiet_replica_health cfg now o i w b d : quiet d (recordReplicaHealth cfg now o i w b d).
Proof. apply quiet_health. Qed.
Lemma quiet_proof_failure cfg now w c d : quiet d (recordStorageProofFailure cfg now w c d).
Proof. unfold recordStorageProofFailure. case_match; [|done]. case_match. apply quiet_health. Qed.
#[export] Hint Resolve quiet_challenges quiet_nonces quiet_shares quiet_warm quiet_peers quiet_order_chunks quiet_replicas quiet_health
  quiet_repairs quiet_files quiet_orders_alter quiet_strike quiet_replica_health quiet_proof_failure : hms.
#[export] Hint Extern 1 (quiet _ (on_worker _ _ _)) => apply quiet_worker; intros; reflexivity : hms.
Lemma quiet_chunk_replicas o i ws d : quiet d (recordChunkReplicas o i ws d).
Proof. unfold recordChunkReplicas. etrans; [|apply quiet_order_chunks]. auto with hms. Qed.
Lemma quiet_refresh_one `{Crypto} cfg env wd now o d : quiet d (refresh_one cfg env wd now o d).
Proof. unfold refresh_one. case_match; auto with hms. Qed.
Lemma quiet_refresh `{Crypto} cfg env wd now d : quiet d (refreshOrderHealth cfg env wd now d).
Proof. unfold refreshOrderHealth. apply along_foldl; [apply _|]. intros. apply quiet_refresh_one. Qed.
#[export] Hint Resolve quiet_chunk_replicas quiet_refresh : hms.

Ltac calm := along_with ltac:(auto with hms).

(** * Moves *)

Section moves.
Context `{Crypto} `{Net} (cfg : Config) (env : environ) (wd : World).

Hypothesis (Hdur : 0 ≤ EpochDuration cfg).

Definition last_id (d : Db) : Z := match epochs (lane d) with e :: _ => EpochID e | [] => 0 end.
(** The head epoch of a state. *)
Definition current (d : Db) (e : Epoch) : Prop := ∃ l, epochs (lane d) = e :: l.
Definition market_id (d : Db) (id : string) : Prop := ∃ o i, is_Some (orders (market d) !! o) ∧ id = trim_space (chunk_id o i).
Definition put_chunk (now : Z) (id ct : string) (size : Z) (meta w : string) (ep : Z) (d : Db) : Db :=
  set_chunks (λ t, match chunk_of id d with
    | None => t ++ [mkChunk id ct size meta w ep now]
    | Some _ => map (λ c, if String.eqb (ch_id c) id then mkChunk id ct size meta w (ch_epoch c) now else c) t
    end) d.

Inductive move (t : Z) : Db → Db → Prop :=
  | mv_quiet d d' : quiet d d' → move t d d'
  | mv_epoch d e : (epochs (lane d) = [] ∨ ∃ h, current d h ∧ Sealed h = true ∧ SealEndUnix h ≤ t) →
      EpochID e = last_id d + 1 → ManifestRoot e = "" → Sealed e = false → PayoutsFinalized e = false →
      move t d (set_epochs (cons e) d)
  | mv_manifest d e (f : Epoch → Epoch) : current d e → FreezeUnix e ≤ t → no_manifest e = true →
      (∀ x, f x = with_manifest (buildManifest (EpochID e) d) x ∨ f x = with_enabled false (with_manifest (buildManifest (EpochID e) d) x)) →
      move t d (on_epoch (EpochID e) f d)
  | mv_enable d e : current d e → move t d (on_epoch (EpochID e) (with_enabled true) d)
  | mv_seal d e p target : current d e → FreezeUnix e ≤ t < SealEndUnix e → Sealed e = false → no_manifest e = false →
      HashBelowTarget (SealHash (EpochID e) (copy_to 32 (ManifestRoot e)) (PoolID cfg) (z_nonce p)) (SealTarget e) = true →
      move t d (on_epoch (EpochID e) (λ x, if Sealed x then x else sealed_by p t target x) d)
  | mv_finalize d e budget lines : e ∈ epochs (lane d) → Sealed e = true → PayoutsFinalized e = false →
      move t d (foldl (λ d l, insert_payout t (EpochID e) l d) (on_epoch (EpochID e) (finalize_epoch budget) d) lines)
  | mv_chunk d e c : current d e → t < FreezeUnix e → ch_epoch c = EpochID e → move t d (set_chunks (λ l, l ++ [c]) d)
  | mv_market d id ct size meta w ep : market_id d id → move t d (put_chunk t id ct size meta w ep d)
  | mv_order d id o : (∃ rid, id = "ord-" +:+ hex_encode rid) → move t d (set_orders (insert id o) d).

Definition moves (t : Z) : relation Db := rtc (move t).
#[global] Instance moves_preorder t : PreOrder (moves t).
Proof. split; [intros d; apply rtc_refl|intros d1 d2 d3; apply rtc_trans]. Qed.
Lemma moves_one t d d' : move t d d' → moves t d d'.
Proof. apply rtc_once. Qed.
Lemma moves_quiet t d d' : quiet d d' → moves t d d'.
Proof. intros Hq. by apply moves_one, mv_quiet. Qed.
Lemma along_quiet {A} t (m : act Db A) : along quiet m → along (moves t) m.
Proof. intros Hm d. apply moves_quiet, Hm. Qed.

(** * Every operation is a path of moves *)

Lemma start_moves t d : (epochs (lane d) = [] ∨ ∃ h, current d h ∧ Sealed h = true ∧ SealEndUnix h ≤ t) →
  moves t d (after (startNextEpoch cfg t) d).
Proof. intros Hc. apply moves_one. unfold startNextEpoch, after. cbn. by apply mv_epoch. Qed.

Lemma ensure_ok t d : ∃ e d', ensureEpoch cfg t d = (Ok e, d') ∧ moves t d d' ∧ current d' e ∧
  market d' = market d ∧ workers d' = workers d ∧ chunks d' = chunks d ∧ (epochs (lane d) ≠ [] → d' = d).
Proof.
  unfold ensureEpoch, abind, aget. destruct (epochs (lane d)) as [|e l] eqn:E.
  - pose proof (start_moves t d (or_introl E)) as M. unfold after in M. destruct (startNextEpoch cfg t d) as [r d'] eqn:Es.
    unfold startNextEpoch in Es. cbn in Es. injection Es as <- <-. eexists _, _. split; [reflexivity|]. split; [exact M|].
    repeat split; try done. by eexists.
  - exists e, d. split; [reflexivity|]. split; [done|]. repeat split; try done. by exists l.
Qed.
(** The rest of an operation that starts with the current epoch. *)
Lemma with_epoch {A} t (k : Epoch → act Db A) : (∀ e d, current d e → moves t d (after (k e) d)) → along (moves t) (abind (ensureEpoch cfg t) k).
Proof.
  intros Hk d. destruct (ensure_ok t d) as (e & d' & E & M & C & _). unfold after, abind. rewrite E. etrans; [exact M|]. by apply Hk.
Qed.
(** A guard in the middle of an operation. *)
Lemma after_guard (R : relation Db) `{!PreOrder R} {A} b e (k : act Db A) d : (b = true → R d (after k d)) → R d (after (aguard b e ;!; k) d).
Proof. intros Hk. destruct b; [by apply Hk|]. cbn. reflexivity. Qed.
Lemma after_assoc {A B C} (m : act Db A) (f : A → act Db B) (g : B → act Db C) d :
  after (abind (abind m f) g) d = after (abind m (λ x, abind (f x) g)) d.
Proof. unfold after, abind. by destruct (m d) as [[]]. Qed.
Lemma after_get {A} (k : Db → act Db A) d : after (abind aget k) d = after (k d) d.
Proof. done. Qed.
Lemma after_lift (R : relation Db) `{!PreOrder R} {A B} (r : result A) (k : A → act Db B) d :
  (∀ a, r = Ok a → R d (after (k a) d)) → R d (after (abind (alift r) k) d).
Proof. intros Hk. destruct r as [a|]; [by apply Hk|]. unfold after, abind, alift. cbn. reflexivity. Qed.
Lemma after_mod {A} f (k : act Db A) d : after (amod f ;!; k) d = after k (f d).
Proof. done. Qed.

(** A part that keeps the history, then the rest. *)
Lemma after_quiet {A B} t (m : act Db A) (k : A → act Db B) d : along quiet m →
  (∀ a d', quiet d d' → moves t d' (after (k a) d')) → moves t d (after (abind m k) d).
Proof.
  intros Hm Hk. specialize (Hm d). unfold after, abind in *. destruct (m d) as [[a|e] d']; cbn in *; [|by apply moves_quiet].
  etrans; [by apply moves_quiet|]. by apply Hk.
Qed.

Lemma tick_moves t : along (moves t) (tickEpoch cfg t).
Proof using Hdur.
  apply with_epoch. intros e d C. destruct ((FreezeUnix e <=? t) && no_manifest e) eqn:E1.
  - b2p. rewrite after_get. apply moves_one. apply (mv_manifest t d e); try done. by right.
  - destruct ((SealEndUnix e <=? t) && negb (Sealed e)) eqn:E2; [done|].
    destruct (Sealed e) eqn:Es; cbn [andb negb] in E2 |- *; rewrite ?andb_true_r, ?andb_false_r in *.
    + destruct (SealEndUnix e <=? t) eqn:Et; [|done]. b2p. etrans; [apply moves_one; by apply (mv_enable t d e)|].
      destruct C as [l El]. apply (start_moves t (on_epoch (EpochID e) (with_enabled true) d)). right. exists (with_enabled true e).
      split; [|done]. exists (map (λ x, if EpochID x =? EpochID e then with_enabled true x else x) l).
      cbn. rewrite El. cbn. by rewrite Z.eqb_refl.
    + destruct (SealEndUnix e + EpochDuration cfg <=? t) eqn:Et; [|done]. b2p. lia.
Qed.

(** ** Registration, chunks, challenges: the history does not change, or grows by a chunk *)

Lemma register_storage_quiet t w p q u : along quiet (RegisterStorageWorkerEndpoint cfg env t w p q u).
Proof.
  intros d. unfold RegisterStorageWorkerEndpoint. do 3 (apply (after_lift (quiet)); intros ? _). apply (after_lift (quiet)); intros ep _.
  rewrite after_get. destruct (workers d !! trimWorkerID w) as [x|] eqn:E.
  - do 2 (apply (after_guard (quiet)); intros _). by apply quiet_worker.
  - by apply quiet_new_worker.
Qed.
Lemma register_seal_quiet t w p : along quiet (RegisterSealWorker t w p).
Proof.
  intros d. unfold RegisterSealWorker. do 2 (apply (after_lift (quiet)); intros ? _). rewrite after_get.
  destruct (workers d !! trimWorkerID w) as [x|] eqn:E.
  - apply (after_guard (quiet)); intros _. by apply quiet_worker.
  - by apply quiet_new_worker.
Qed.
Lemma assign_moves t c w ct sz me : along (moves t) (AssignChunk cfg t c w ct sz me).
Proof.
  intros d. unfold AssignChunk, assign_check. rewrite after_assoc. apply with_epoch. clear d. intros e d C.
  rewrite after_assoc. apply (after_guard (moves t)); intros Hf. rewrite after_assoc, after_get, after_assoc.
  apply (after_guard (moves t)); intros _. change (moves t d (after (assign_insert t c w ct sz me e) d)). unfold assign_insert.
  rewrite after_get. unfold sql_uint. apply (after_guard (moves t)); intros _. case_match; [done|]. b2p. apply moves_one. by apply (mv_chunk t d e).
Qed.
Lemma issue_moves t rnd ob w : along (moves t) (IssueChallenge cfg env (abs_ok wd) t rnd ob w).
Proof.
  apply with_epoch. intros e d _. apply moves_quiet.
  apply (after_guard quiet); intros _. rewrite after_get. apply (after_guard quiet); intros _. case_match; [|done]. cbv zeta.
  match goal with |- quiet ?d (after ?m ?d) => assert (along quiet m) as Q; [calm|apply Q] end.
Qed.
Lemma fail_quiet t w c ep id : along quiet (markStorageChallengeFailed cfg t w c ep id).
Proof. unfold markStorageChallengeFailed. calm. Qed.
#[local] Hint Resolve fail_quiet : hms.
Lemma proof_quiet t p pub sig pr : along quiet (SubmitStorageProof cfg env (abs_ok wd) t p pub sig pr).
Proof. unfold SubmitStorageProof. calm. Qed.

(** ** Seals, shares, payouts *)

Lemma on_epoch_quiet_parts id f d : market (on_epoch id f d) = market d ∧ chunks (on_epoch id f d) = chunks d ∧ workers (on_epoch id f d) = workers d.
Proof. done. Qed.
Lemma manifest_moves t e d : current d e → FreezeUnix e ≤ t → moves t d (after (manifest_of e) d).
Proof.
  intros C Hf. unfold manifest_of. destruct (no_manifest e) eqn:E; [|done]. rewrite after_get, after_mod. apply moves_one.
  apply (mv_manifest t d e); try done. by left.
Qed.
Lemma seal_work_moves t : along (moves t) (SealWork cfg t).
Proof.
  apply with_epoch. intros e d C. apply (after_guard (moves t)); intros Hf. apply (after_guard (moves t)); intros _. b2p.
  pose proof (manifest_moves t e d C Hf) as M. unfold after, abind in *. by destruct (manifest_of e d) as [[]].
Qed.
Lemma stratum_work_moves t : along (moves t) (StratumWork cfg t).
Proof.
  apply with_epoch. intros e d C. destruct ((FreezeUnix e <=? t) && (t <? SealEndUnix e) && negb (Sealed e)) eqn:E; [|done]. b2p.
  pose proof (manifest_moves t e d C ltac:(done)) as M. unfold after, abind in *. by destruct (manifest_of e d) as [[]].
Qed.
Lemma seal_core_moves t p : along (moves t) (submitSealCore cfg t p).
Proof.
  apply with_epoch. intros e d C. apply (after_guard (moves t)); intros Hw. apply (after_guard (moves t)); intros Hs. apply (after_guard (moves t)); intros Hm.
  apply (after_guard (moves t)); intros _. cbv zeta. apply (after_guard (moves t)); intros Hh. apply (after_guard (moves t)); intros _.
  rewrite after_get. apply (after_guard (moves t)); intros _. rewrite !after_mod. b2p.
  etrans; [apply moves_quiet, (quiet_nonces (insert (EpochID e, z_nonce p) (z_worker p)))|]. cbn [z_worker z_nonce z_epoch].
  etrans; [apply moves_one; apply (mv_seal t _ e (mkSealSubmit (z_worker p) (EpochID e) (z_nonce p))
             (RetargetSeal (SealTarget e) (Z.max 1 (t - FreezeUnix e)) (DesiredSealSec cfg) (SealRetargetClamp cfg))); done|].
  apply moves_quiet. unfold after, amod. cbn. apply quiet_worker. done.
Qed.
Lemma seal_moves t p pub sig : along (moves t) (SubmitSeal cfg env t p pub sig).
Proof.
  unfold SubmitSeal. cbv zeta. apply along_bind; [apply _| |intros _; apply seal_core_moves]. apply along_quiet. calm.
Qed.
Lemma stratum_seal_moves t p b : along (moves t) (SubmitSealFromStratum cfg env t p b).
Proof. unfold SubmitSealFromStratum. case_match; [apply seal_core_moves|]. apply along_fail, _. Qed.

Lemma add_shares_quiet k a b d : quiet d (add_shares k a b d).
Proof. apply quiet_shares. Qed.
#[local] Hint Resolve add_shares_quiet : hms.
Lemma record_share_quiet ep w b : along quiet (RecordSealShare ep w b).
Proof. unfold RecordSealShare. calm. Qed.
Lemma flush_one_quiet ep p : along quiet (flush_one ep p).
Proof. unfold flush_one, sql_uint. calm. Qed.
Lemma flush_quiet ep : along quiet (FlushStratumShares ep).
Proof. unfold FlushStratumShares. case_match; [apply along_ret, _|]. apply along_bind; [apply _|apply along_get, _|]. intros d. apply along_for; [apply _|]. intros. apply flush_one_quiet. Qed.
Lemma finalize_moves t ep : along (moves t) (FinalizeEpochSealPayouts t ep).
Proof.
  intros d. unfold FinalizeEpochSealPayouts. rewrite after_get. destruct (List.find _ _) as [e|] eqn:Ef; [|done].
  apply find_some in Ef as [Hin Eid]. apply Z.eqb_eq in Eid. apply list_elem_of_In in Hin.
  apply (after_guard (moves t)); intros Hs. destruct (PayoutsFinalized e) eqn:Hfin; [done|].
  apply after_quiet; [apply flush_quiet|]. intros _ d1 Q. rewrite after_get. apply (after_lift (moves t)); intros lines _.
  apply (after_guard (moves t)); intros _. rewrite !after_mod. apply moves_one. subst ep. unfold after, aret. cbn [snd].
  apply mv_finalize; [|done|done]. by rewrite (q_epochs _ _ Q).
Qed.

(** ** Warm work *)

Lemma ensure_worker_quiet t w : along quiet (EnsureStratumWorker t w).
Proof.
  intros d. unfold EnsureStratumWorker. cbv zeta. destruct (String.eqb (trimWorkerID w) ""); [done|]. split; [done..|].
  intros id x Hx. cbn. destruct (workers d !! trimWorkerID w) as [y|] eqn:E.
  - destruct (decide (trimWorkerID w = id)) as [<-|]; [|rewrite lookup_insert_ne by done; eauto].
    rewrite lookup_insert_eq. rewrite E in Hx. injection Hx as <-. eauto.
  - rewrite lookup_insert_ne by congruence. eauto.
Qed.
Lemma accrue_quiet t w u b : along quiet (addWarmAccrual t w u b).
Proof. unfold addWarmAccrual, sql_uint. cbv zeta. calm. Qed.
#[local] Hint Resolve ensure_worker_quiet accrue_quiet : hms.
Lemma warm_share_quiet t w s n : along quiet (SubmitWarmShare cfg t w s n).
Proof. unfold SubmitWarmShare, RecordWarmShare. cbv zeta. calm. Qed.
Lemma refresh_peers_quiet t d : quiet d (refresh_peers t d).
Proof. apply quiet_peers. Qed.
#[local] Hint Resolve refresh_peers_quiet : hms.
Lemma warm_tick_quiet t el : along quiet (tickWarmTimeAccrual t el).
Proof. unfold tickWarmTimeAccrual. calm. Qed.

(** ** The market *)

Lemma create_moves t rid rtok rpil lab ref sz days qh pid proof b :
  along (moves t) (CreateStorageOrder cfg env t rid rtok rpil lab ref sz days qh pid proof b).
Proof.
  intros d. unfold CreateStorageOrder. cbv zeta. apply after_quiet; [calm|]. intros [[pid' qh'] q] d' _. rewrite after_get.
  apply (after_lift (moves t)); intros cap _. apply (after_guard (moves t)); intros _. apply (after_guard (moves t)); intros _.
  rewrite after_mod. apply moves_one. apply (mv_order t d'). by exists rid.
Qed.

Lemma write_at_quiet root w c ct : along quiet (write_at wd root w c ct).
Proof. unfold write_at. calm. Qed.
#[local] Hint Resolve write_at_quiet : hms.
Lemma write_file_quiet w c ct : along quiet (writeMarketChunkFile env wd w c ct).
Proof. unfold writeMarketChunkFile. calm. Qed.
Lemma write_replicas_quiet c ct ws : along quiet (write_replicas env wd c ct ws).
Proof.
  induction ws as [|w ws IH]; intros d; [done|]. unfold after. cbn [write_replicas]. pose proof (write_file_quiet w c ct d) as Q. unfold after in Q.
  destruct (writeMarketChunkFile env wd w c ct d) as [[u|e] d1]; cbn [snd] in Q.
  - etrans; [exact Q|]. specialize (IH d1). unfold after, abind in *. by destruct (write_replicas env wd c ct ws d1) as [[]].
  - etrans; [exact Q|]. apply IH.
Qed.

Lemma assign_market_moves t o i w ct sz me d : is_Some (orders (market d) !! o) →
  moves t d (after (AssignMarketChunk cfg t (chunk_id o i) w ct sz me) d).
Proof.
  intros Ho. unfold AssignMarketChunk. cbv zeta. apply (after_lift (moves t)); intros _ _. apply (after_lift (moves t)); intros _ _.
  destruct (ensure_ok t d) as (e & d' & E & M & C & Em & _). unfold after, abind at 1. rewrite E. etrans; [exact M|].
  change ((?k ?x).2) with (after k x). rewrite after_get. apply (after_guard (moves t)); intros _. unfold sql_uint. apply (after_guard (moves t)); intros _.
  apply moves_one. apply (mv_market t d'). exists o, i. by rewrite Em.
Qed.

Lemma quiet_all_healthy t o i ws d : quiet d (foldl (λ d w, recordReplicaHealth cfg t o i w true d) d ws).
Proof. apply along_foldl; [apply _|]. intros. apply quiet_replica_health. Qed.
Lemma upload_moves t o tok i ct : along (moves t) (UploadOrderChunk cfg env wd t o tok i ct).
Proof.
  intros d. unfold UploadOrderChunk. cbv zeta. rewrite after_get. apply (after_lift (moves t)); intros _ _.
  apply (after_lift (moves t)); intros ord Eo. do 5 (apply (after_guard (moves t)); intros _). apply after_quiet; [calm|]. intros _ d1 Q1.
  apply (after_lift (moves t)); intros ws _. apply after_quiet; [apply write_replicas_quiet|]. intros written d2 Q2.
  apply (after_guard (moves t)); intros _.
  assert (is_Some (orders (market d2) !! o)) as Ho.
  { apply elem_of_dom. rewrite (q_orders _ _ Q2), (q_orders _ _ Q1). apply elem_of_dom. unfold GetStorageOrder in Eo. destruct (_ !! o); [eauto|done]. }
  pose proof (assign_market_moves t o i (List.hd "" written) (sha256 ct) (str_len ct) "" d2 Ho) as M. unfold after, abind at 1. unfold after in M.
  destruct (AssignMarketChunk _ _ _ _ _ _ _ d2) as [[u|e] d3]; cbn [snd] in M |- *; [|exact M]. etrans; [exact M|]. apply moves_quiet.
  change ((?k ?x).2) with (after k x). rewrite !after_mod. etrans; [apply quiet_chunk_replicas|]. etrans; [apply quiet_order_chunks|].
  etrans; [apply quiet_all_healthy|]. apply quiet_orders_alter.
Qed.

Lemma repair_passes_quiet t n o i c sw src ex : along quiet (repair_passes cfg env wd t n o i c sw src ex).
Proof.
  revert ex. induction n as [|n IH]; intros ex; cbn [repair_passes]; [by intros d|]. apply along_bind; [apply _|apply along_get; apply _|intros d0].
  apply along_bind; [apply _|apply along_lift; apply _|intros cs]. case_match; [by intros d|]. intros d. unfold after.
  pose proof (write_file_quiet s c src d) as Q. unfold after in Q. destruct (writeMarketChunkFile env wd s c src d) as [[u|e] d1]; cbn [snd] in Q.
  - etrans; [exact Q|]. change ((?k ?x).2) with (after k x). rewrite !after_mod. etrans; [apply quiet_chunk_replicas|].
    etrans; [apply quiet_replica_health|]. etrans; [apply quiet_repairs|]. apply IH.
  - etrans; [exact Q|]. apply IH.
Qed.
#[local] Hint Resolve repair_passes_quiet : hms.
Lemma try_repair_quiet t o i c ex n : along quiet (tryRepairChunk cfg env wd t o i c ex n).
Proof. unfold tryRepairChunk. calm. Qed.
Lemma check_replica_quiet t o i c w : along quiet (check_replica cfg env wd t o i c w).
Proof. unfold check_replica. cbv zeta. calm. Qed.
#[local] Hint Resolve try_repair_quiet check_replica_quiet : hms.
Lemma repair_chunk_quiet t row : along quiet (repair_chunk cfg env wd t row).
Proof. destruct row as [[o i] c]. unfold repair_chunk. cbv zeta. calm. Qed.
#[local] Hint Resolve repair_chunk_quiet : hms.
Lemma health_tick_quiet t : along quiet (RunHealthTick cfg env wd t).
Proof. unfold RunHealthTick, repairMissingReplicas. calm. Qed.
Lemma cancel_quiet t o : along quiet (CancelStorageOrder cfg env wd t o).
Proof. unfold CancelStorageOrder. cbv zeta. calm. Qed.
Lemma complete_quiet t o tok : along quiet (complete_order cfg env wd t o tok).
Proof. unfold complete_order. calm. Qed.
End moves.

(** * Histories *)

(** One request, tick or connection event; the environment and the outside world may change between
    two of them, and files may change under the coordinator. *)
Inductive Op :=
  | OpTick | OpRegisterStorage (w p : string) (quota : Z) (url : string) | OpRegisterSeal (w p : string)
  | OpAssign (c w ct : string) (size : Z) (meta : string) | OpChallenge (rnd : nat) (ob : Z) (w : string)
  | OpProof (p : StorageSubmitPayload) (pub sig proof : string) | OpSealWork | OpStratumWork
  | OpSeal (p : SealSubmitPayload) (pub sig : string) | OpStratumSeal (p : SealSubmitPayload) (hmac : bool)
  | OpRecordShare (epoch : Z) (w : string) (ok : bool) | OpFinalize (epoch : Z)
  | OpWarmShare (w : string) (slot nonce : Z) | OpWarmTick (elapsed : f64) | OpStratumWorker (w : string)
  | OpPeers (f : gmap string Peer → gmap string Peer) | OpFiles (f : gmap path string → gmap path string)
  | OpCreate (rid rtok rpilot label ref : string) (size days : Z) (hash pid proof : string) (pilot : bool)
  | OpUpload (o tok : string) (i : Z) (ct : string) | OpHealth | OpCancel (o : string) | OpComplete (o tok : string).

Section histories.
Context `{Crypto} `{Net} (cfg : Config).

Definition run_op (op : Op) (env : environ) (wd : World) (t : Z) (d : Db) : Db :=
  match op with
  | OpTick => after (tickEpoch cfg t) d
  | OpRegisterStorage w p q u => after (RegisterStorageWorkerEndpoint cfg env t w p q u) d
  | OpRegisterSeal w p => after (RegisterSealWorker t w p) d
  | OpAssign c w ct sz me => after (AssignChunk cfg t c w ct sz me) d
  | OpChallenge rnd ob w => after (IssueChallenge cfg env (abs_ok wd) t rnd ob w) d
  | OpProof p pub sig pr => after (SubmitStorageProof cfg env (abs_ok wd) t p pub sig pr) d
  | OpSealWork => after (SealWork cfg t) d
  | OpStratumWork => after (StratumWork cfg t) d
  | OpSeal p pub sig => after (SubmitSeal cfg env t p pub sig) d
  | OpStratumSeal p b => after (SubmitSealFromStratum cfg env t p b) d
  | OpRecordShare ep w b => after (RecordSealShare ep w b) d
  | OpFinalize ep => after (FinalizeEpochSealPayouts t ep) d
  | OpWarmShare w s n => after (SubmitWarmShare cfg t w s n) d
  | OpWarmTick el => after (tickWarmTimeAccrual t el) d
  | OpStratumWorker w => after (EnsureStratumWorker t w) d
  | OpPeers f => set_peers f d
  | OpFiles f => set_files f d
  | OpCreate a b c l r s n h p q pil => after (CreateStorageOrder cfg env t a b c l r s n h p q pil) d
  | OpUpload o tok i ct => after (UploadOrderChunk cfg env wd t o tok i ct) d
  | OpHealth => after (RunHealthTick cfg env wd t) d
  | OpCancel o => after (CancelStorageOrder cfg env wd t o) d
  | OpComplete o tok => after (complete_order cfg env wd t o tok) d
  end.

Lemma ops_are_moves op env wd t d : 0 ≤ EpochDuration cfg → moves cfg t d (run_op op env wd t d).
Proof.
  intros Hd. destruct op; cbn [run_op].
  - by apply tick_moves.
  - by apply moves_quiet, register_storage_quiet.
  - by apply moves_quiet, register_seal_quiet.
  - apply assign_moves.
  - apply issue_moves.
  - by apply moves_quiet, proof_quiet.
  - apply seal_work_moves.
  - apply stratum_work_moves.
  - apply seal_moves.
  - apply stratum_seal_moves.
  - by apply moves_quiet, record_share_quiet.
  - apply finalize_moves.
  - by apply moves_quiet, warm_share_quiet.
  - by apply moves_quiet, warm_tick_quiet.
  - by apply moves_quiet, ensure_worker_quiet.
  - apply moves_quiet, quiet_peers.
  - apply moves_quiet, quiet_files.
  - apply create_moves.
  - apply upload_moves.
  - by apply moves_quiet, health_tick_quiet.
  - by apply moves_quiet, cancel_quiet.
  - by apply moves_quiet, complete_quiet.
Qed.

(** Times and states a sequence of operations leads to. *)
Inductive from (t0 : Z) (d0 : Db) : Z → Db → Prop :=
  | from_start : from t0 d0 t0 d0
  | from_op t t' d op env wd : from t0 d0 t d → t ≤ t' → from t0 d0 t' (run_op op env wd t' d).
Definition reachable (t : Z) (d : Db) : Prop := ∃ t0, from t0 empty_db t d.

(** What every move keeps, every operation keeps. *)
Lemma from_ind_moves (P : Z → Db → Prop) t0 d0 t d : 0 ≤ EpochDuration cfg →
  (∀ t t' d, t ≤ t' → P t d → P t' d) → (∀ t d d', P t d → move cfg t d d' → P t d') →
  P t0 d0 → from t0 d0 t d → P t d.
Proof.
  intros Hd Hm Hs Hstart. induction 1 as [|t t' d op env wd _ IH Ht]; [done|].
  pose proof (ops_are_moves op env wd t' d Hd) as M. apply (Hm _ _ _ Ht) in IH. revert IH.
  induction M as [|x y z Hxy _ IHm]; [done|]. intros Hx. apply IHm. by eapply Hs.
Qed.
End histories.
