(* ===== verification/HmsProps.v ===== *)
(** What the HMS lane guarantees, and where it does not do what it means to.

    Sources: internal/hms: coordinator.go, market.go, market_health.go. *)
From Stdlib Require Import Sorted.
From S2P Require Import Prelude Float64 GoText GoNum Json Address CoordShares GoSort HmsSeal HmsBase HmsLane HmsStore HmsRules HmsSteps.

(** * Names of market chunks *)

Lemma all_chars_digits_plain s : all_chars is_digit s = true → all_chars plain s = true.
Proof.
  apply all_chars_imp. apply ascii_forall_imp. by vm_compute.
Qed.
Lemma pad_digits_digits k n acc : all_chars is_digit acc = true → all_chars is_digit (pad_digits k n acc) = true.
Proof.
  revert n acc. induction k as [|k IH]; intros n acc Ha; cbn [pad_digits]; [done|]. apply IH. cbn. rewrite Ha, andb_true_r.
  apply digit_value. apply Z.mod_pos_bound. lia.
Qed.
Lemma fmt_d06_plain n : all_chars plain (fmt_d06 n) = true.
Proof.
  apply all_chars_digits_plain. unfold fmt_d06. destruct (Z.ltb_spec n 1000000); [by apply pad_digits_digits|].
  apply fmt_uint_digits. lia.
Qed.
Lemma hex_encode_plain s : all_chars plain (hex_encode s) = true.
Proof. apply (hex_decode_plain _ s), hex_decode_encode. Qed.
(** Ids of orders as [CreateStorageOrder] makes them. *)
Definition order_id (o : string) : Prop := ∃ rid, o = "ord-" +:+ hex_encode rid.
Lemma chunk_id_trim o i : order_id o → trim_space (chunk_id o i) = chunk_id o i.
Proof.
  intros [rid ->]. apply trim_space_plain. unfold chunk_id. rewrite !all_chars_app, hex_encode_plain, fmt_d06_plain. done.
Qed.
Lemma market_not_in_manifest ep c d : (∀ o, is_Some (orders (market d) !! o) → order_id o) → market_id d (ch_id c) → in_manifest ep c = false.
Proof.
  intros Ho (o & i & Hs & E). specialize (Ho o Hs). rewrite (chunk_id_trim o i Ho) in E. destruct Ho as [rid ->].
  unfold in_manifest. rewrite E. unfold chunk_id. rewrite sapp_assoc. cbn. apply andb_false_r.
Qed.

(** * Epochs keep what they have *)

Lemma foldl_payout_parts t ep lines d :
  let d' := foldl (λ d l, insert_payout t ep l d) d lines in
  epochs (lane d') = epochs (lane d) ∧ chunks d' = chunks d ∧ orders (market d') = orders (market d) ∧ workers d' = workers d ∧
  payouts (lane d) ⊆ payouts (lane d').
Proof.
  revert d. induction lines as [|l lines IH]; intros d; [done|]. cbn [foldl]. destruct (IH (insert_payout t ep l d)) as (E & C & O & W & P).
  cbv zeta. rewrite E, C, O, W. repeat split; try done. etrans; [|exact P]. cbn. destruct (payouts (lane d) !! _) eqn:Ep; [done|]. by apply insert_subseteq.
Qed.

(** What an epoch never takes back. *)
Record epoch_kept (e e' : Epoch) : Prop := mkKept {
  k_id : EpochID e' = EpochID e; k_freeze : FreezeUnix e' = FreezeUnix e; k_end : SealEndUnix e' = SealEndUnix e;
  k_root : no_manifest e = false → ManifestRoot e' = ManifestRoot e;
  k_seal : Sealed e = true → Sealed e' = true ∧ SealNonce e' = SealNonce e ∧ SealWorkerID e' = SealWorkerID e ∧ SealFoundUnix e' = SealFoundUnix e;
  k_final : PayoutsFinalized e = true → PayoutsFinalized e' = true ∧ SealBudgetUnits e' = SealBudgetUnits e;
}.
#[global] Instance epoch_kept_preorder : PreOrder epoch_kept.
Proof.
  split; [intros e; by split|]. intros e1 e2 e3 [A1 B1 C1 D1 E1 F1] [A2 B2 C2 D2 E2 F2]. split; [congruence..| | |].
  - intros Hn. assert (no_manifest e2 = false) by (unfold no_manifest in *; by rewrite D1). by rewrite D2, D1.
  - intros Hs. destruct (E1 Hs) as (Q1 & ? & ? & ?). destruct (E2 Q1) as (Q2 & ? & ? & ?). repeat split; congruence.
  - intros Hf. destruct (F1 Hf) as [Q1 E]. destruct (F2 Q1) as [Q2 E']. split; [done|congruence].
Qed.
Definition extends (d d' : Db) : Prop :=
  (∀ e, e ∈ epochs (lane d) → ∃ e', e' ∈ epochs (lane d') ∧ epoch_kept e e') ∧ keys_kept d d' ∧ payouts (lane d) ⊆ payouts (lane d').
#[global] Instance extends_preorder : PreOrder extends.
Proof.
  split; [intros d; split; [intros e He; by exists e|done]|]. intros d1 d2 d3 (A1 & B1 & C1) (A2 & B2 & C2).
  split; [|split; by etrans]. intros e He. destruct (A1 e He) as (e' & He' & K1). destruct (A2 e' He') as (e'' & He'' & K2).
  exists e''. split; [done|by etrans].
Qed.

Section invariant.
Context `{Crypto} `{Net} (cfg : Config).

Record lane_inv (t : Z) (d : Db) : Prop := mkInv {
  i_ids : StronglySorted (λ a b, EpochID b < EpochID a) (epochs (lane d));
  i_root : ∀ e, e ∈ epochs (lane d) → ManifestRoot e ≠ "" → FreezeUnix e ≤ t ∧ ManifestRoot e = buildManifest (EpochID e) d;
  i_orders : ∀ o, is_Some (orders (market d) !! o) → order_id o;
}.

Lemma sorted_inj l a b : StronglySorted (λ a b, EpochID b < EpochID a) l → a ∈ l → b ∈ l → EpochID a = EpochID b → a = b.
Proof.
  induction 1 as [|x l _ IH Hx]; [by intros ?%elem_of_nil|]. rewrite list.Forall_forall in Hx.
  intros [->|Ha]%elem_of_cons [->|Hb]%elem_of_cons E; [done| | |by apply IH].
  - specialize (Hx b Hb). lia.
  - specialize (Hx a Ha). lia.
Qed.
Lemma sorted_map l f id : (∀ x, EpochID (f x) = EpochID x) → StronglySorted (λ a b, EpochID b < EpochID a) l →
  StronglySorted (λ a b, EpochID b < EpochID a) (map (λ e, if EpochID e =? id then f e else e) l).
Proof.
  intros Hf. assert (G : ∀ x, EpochID (if EpochID x =? id then f x else x) = EpochID x) by (intros x; case_match; [apply Hf|done]).
  induction 1 as [|x l _ IH Hx]; [constructor|]. cbn. constructor; [done|]. rewrite list.Forall_forall in *.
  intros y (z & -> & Hz)%list_elem_of_fmap. rewrite !G. by apply Hx.
Qed.
Lemma on_epoch_elem id f e' d : e' ∈ epochs (lane (on_epoch id f d)) →
  ∃ e, e ∈ epochs (lane d) ∧ e' = if EpochID e =? id then f e else e.
Proof. intros (e & -> & He)%list_elem_of_fmap. eauto. Qed.
Lemma current_elem d e : current d e → e ∈ epochs (lane d).
Proof. intros [l ->]. left. Qed.

(** An edit of one epoch that keeps its id, its freeze and its root. *)
Lemma inv_on_epoch t id f d : (∀ x, EpochID (f x) = EpochID x ∧ FreezeUnix (f x) = FreezeUnix x ∧ ManifestRoot (f x) = ManifestRoot x) →
  lane_inv t d → lane_inv t (on_epoch id f d).
Proof.
  intros Hf [I1 I2 I3]. split; [apply sorted_map; [apply Hf|done]| |done].
  intros e' (e & He & ->)%on_epoch_elem. unfold buildManifest. cbn [chunks on_epoch set_epochs set_lane]. intros Hn. specialize (I2 e He).
  case_match; [|by apply I2]. destruct (Hf e) as (E1 & E2 & E3). rewrite E1, E2, E3 in *. by apply I2.
Qed.
Lemma inv_parts t d d' : epochs (lane d') = epochs (lane d) → chunks d' = chunks d →
  (∀ o, is_Some (orders (market d') !! o) → order_id o) → lane_inv t d → lane_inv t d'.
Proof. intros E C O [I1 I2 I3]. split; [by rewrite E| |done]. unfold buildManifest. rewrite E, C. done. Qed.

Lemma filter_map_outside (P : Chunk → Prop) `{∀ x, Decision (P x)} g l : (∀ c, c ∈ l → g c = c ∨ ¬ P c ∧ ¬ P (g c)) →
  filter P (map g l) = filter P l.
Proof.
  induction l as [|c l IH]; intros Hg; [done|]. cbn [map]. rewrite !filter_cons. rewrite IH by (intros; apply Hg; by right).
  destruct (Hg c ltac:(left)) as [->|[N1 N2]]; [done|]. by rewrite !decide_False by done.
Qed.
Lemma market_manifest ep id ct sz me w ee now d : (∀ o, is_Some (orders (market d) !! o) → order_id o) → market_id d id →
  buildManifest ep (put_chunk now id ct sz me w ee d) = buildManifest ep d.
Proof.
  intros Ho Hm. unfold buildManifest. f_equal. f_equal. assert (G : ∀ c, ch_id c = id → in_manifest ep c = false).
  { intros c <-. by apply (market_not_in_manifest ep c d). }
  cbn. case_match.
  - apply filter_map_outside. intros x _. destruct (String.eqb_spec (ch_id x) id) as [E|]; [right|by left].
    rewrite (G x E), G by done. done.
  - rewrite list.filter_app, filter_cons, decide_False by (by rewrite G). by rewrite app_nil_r.
Qed.

Lemma inv_start t : lane_inv t empty_db.
Proof. split; [constructor|by intros e ?%elem_of_nil|]. intros o [x Hx]. cbn in Hx. by rewrite lookup_empty in Hx. Qed.
Lemma inv_later t t' d : t ≤ t' → lane_inv t d → lane_inv t' d.
Proof. intros Ht [I1 I2 I3]. split; [done| |done]. intros e He Hn. destruct (I2 e He Hn). split; [lia|done]. Qed.

Lemma inv_move t d d' : lane_inv t d → move cfg t d d' → lane_inv t d'.
Proof.
  intros I M. pose proof I as [I1 I2 I3]. destruct M as [d d' Q|d e _ Eid Em _ _|d e f C Hf Hm Hfx|d e C|d e p tg C _ _ _ _|d e b ls _ _ _|d e c C Hf Ec|d id ct sz me w ee Hm|d id o Ho].
  - eapply (inv_parts t d); [apply Q..| |done]. intros o. rewrite <- elem_of_dom, (q_orders _ _ Q), elem_of_dom. apply I3.
  - split; [|intros e' [->|He']%elem_of_cons Hn; [done|by apply I2]|done]. cbn. constructor; [done|]. unfold last_id in Eid.
    destruct (epochs (lane d)) as [|h l]; [constructor|]. apply StronglySorted_inv in I1 as [_ Hh]. constructor; [lia|].
    eapply Forall_impl; [|exact Hh]. cbn. intros; lia.
  - assert (G : ∀ x, EpochID (f x) = EpochID x ∧ FreezeUnix (f x) = FreezeUnix x ∧ ManifestRoot (f x) = buildManifest (EpochID e) d)
      by (intros x; by destruct (Hfx x) as [->| ->]).
    split; [apply sorted_map; [apply G|done]| |done]. intros e' (x & Hx & ->)%on_epoch_elem Hn. case_match; [|by apply I2]. b2p.
    destruct (G x) as (E1 & E2 & E3). rewrite E1, E2, E3. assert (x = e) as -> by (eapply sorted_inj; eauto using current_elem). done.
  - by apply inv_on_epoch.
  - apply inv_on_epoch; [|done]. intros x. by destruct (Sealed x) eqn:?.
  - destruct (foldl_payout_parts t (EpochID e) ls (on_epoch (EpochID e) (finalize_epoch b) d)) as (E & Ch & O & _).
    eapply inv_parts; [exact E|exact Ch| |by apply inv_on_epoch]. rewrite O. done.
  - split; [done| |done]. intros x Hx Hn. destruct (I2 x Hx Hn) as [Hfx Er]. split; [done|]. rewrite Er. unfold buildManifest. f_equal. f_equal.
    cbn. rewrite list.filter_app, filter_cons, decide_False; [by rewrite app_nil_r|].
    unfold in_manifest. intros [Ei%Z.eqb_eq _]%andb_true_iff.
    assert (x = e) as -> by (eapply sorted_inj; [exact I1|done|by apply current_elem|congruence]). lia.
  - split; [done| |done]. intros x Hx Hn. rewrite market_manifest by done. by apply I2.
  - eapply (inv_parts t d); [done..| |done]. intros k Hk. cbn in Hk. destruct (decide (k = id)) as [->|]; [done|].
    rewrite lookup_insert_ne in Hk by done. by apply I3.
Qed.

(** ** Moves extend the history *)

Lemma extends_on_epoch t id f d : lane_inv t d → (∀ e, e ∈ epochs (lane d) → EpochID e = id → epoch_kept e (f e)) → extends d (on_epoch id f d).
Proof.
  intros I Hf. split; [|split; [by intros k w Hk; exists w|done]]. intros e He. exists (if EpochID e =? id then f e else e). split; [by apply (list_elem_of_fmap_2 (λ x, if EpochID x =? id then f x else x))|].
  case_match; b2p; [by apply Hf|done].
Qed.
Lemma extends_same d d' : epochs (lane d') = epochs (lane d) → workers d' = workers d → payouts (lane d') = payouts (lane d) → extends d d'.
Proof.
  intros E W P. split; [rewrite E; intros e He; by exists e|split; [|by rewrite P]]. intros k w Hk. exists w. by rewrite W.
Qed.
Lemma kept_same e e' : EpochID e' = EpochID e → FreezeUnix e' = FreezeUnix e → SealEndUnix e' = SealEndUnix e → ManifestRoot e' = ManifestRoot e →
  Sealed e' = Sealed e → SealNonce e' = SealNonce e → SealWorkerID e' = SealWorkerID e → SealFoundUnix e' = SealFoundUnix e →
  PayoutsFinalized e' = PayoutsFinalized e → SealBudgetUnits e' = SealBudgetUnits e → epoch_kept e e'.
Proof. intros. split; intros; repeat split; congruence. Qed.

Lemma move_extends t d d' : lane_inv t d → move cfg t d d' → extends d d'.
Proof.
  intros I M. pose proof I as [I1 I2 I3]. destruct M as [d d' Q|d e _ Eid Em _ _|d e f C Hf Hm Hfx|d e C|d e p tg C _ Hs _ _|d e b ls Hin Hs Hfin|d e c C Hf Ec|d id ct sz me w ee Hm|d id o Ho].
  - split; [|split; [apply Q|by rewrite (q_payouts _ _ Q)]]. rewrite (q_epochs _ _ Q). intros e He. by exists e.
  - split; [|split; [by intros k w Hk; exists w|done]]. intros x Hx. exists x. split; [by right|done].
  - apply (extends_on_epoch t); [done|]. intros x Hx Ex. assert (x = e) as -> by (eapply sorted_inj; eauto using current_elem).
    destruct (Hfx e) as [->| ->]; split; try done; intros; congruence.
  - apply (extends_on_epoch t); [done|]. intros x _ _. by apply kept_same.
  - apply (extends_on_epoch t); [done|]. intros x Hx Ex. assert (x = e) as -> by (eapply sorted_inj; eauto using current_elem).
    rewrite Hs. split; try done. intros; congruence.
  - etrans; [apply (extends_on_epoch t (EpochID e) (finalize_epoch b)); [done|]|].
    + intros x Hx Ex. assert (x = e) as -> by (eapply sorted_inj; eauto). split; try done. intros; congruence.
    + destruct (foldl_payout_parts t (EpochID e) ls (on_epoch (EpochID e) (finalize_epoch b) d)) as (E & Ch & O & W & P).
      split; [|split; [|done]]; [rewrite E; intros x Hx; by exists x|]. intros k v Hk. exists v. by rewrite W.
  - apply extends_same; done.
  - apply extends_same; done.
  - apply extends_same; done.
Qed.

(** ** Of every history *)

Hypothesis (Hdur : 0 ≤ EpochDuration cfg).
Lemma reachable_inv t d : reachable cfg t d → lane_inv t d.
Proof using Hdur.
  intros [t0 Hf]. revert Hf. apply (from_ind_moves cfg (λ t d, lane_inv t d)); eauto using inv_later, inv_move, inv_start.
Qed.
Lemma from_extends t0 d0 t d : lane_inv t0 d0 → from cfg t0 d0 t d → extends d0 d.
Proof using Hdur.
  intros I Hf. cut (lane_inv t d ∧ extends d0 d); [tauto|]. revert Hf.
  apply (from_ind_moves cfg (λ t d, lane_inv t d ∧ extends d0 d)); [done| | |done].
  - intros s s' x Hs [I' E]. split; [by eapply inv_later|done].
  - intros s x x' [I' E] M. split; [by eapply inv_move|]. etrans; [exact E|]. by eapply move_extends.
Qed.

(** C8: let a coordinator have served requests, ticks and Stratum connections since its database was empty, in any
    sequence but one at a time, with epochs of no negative length and on a clock that never went back (the code holds no lock around [AssignChunk]:
    [assign_race] in HmsToy is what happens when a tick runs between its check and its insert). Then a manifest root commits to the chunks it stands for: it was taken no earlier than
    the freeze of its epoch and equals the root of all chunks that now belong to the epoch, so no chunk
    was added, changed or dropped after a root was given to the sealers.  And nothing that follows takes
    history back: roots, seals with their nonce and winner, finished payouts and the keys of workers. *)
Theorem lane_history t d : reachable cfg t d →
  (∀ e, e ∈ epochs (lane d) → ManifestRoot e ≠ "" → FreezeUnix e ≤ t ∧ ManifestRoot e = buildManifest (EpochID e) d) ∧
  ∀ t' d', from cfg t d t' d' → extends d d'.
Proof using Hdur.
  intros Hr. apply reachable_inv in Hr as I. split; [apply I|]. intros t' d'. by apply from_extends.
Qed.
End invariant.

(** * An epoch nobody seals *)

Section lost.
Context `{Crypto} `{Net} (cfg : Config) (Hdur : 0 ≤ EpochDuration cfg).

Record lost (e : Epoch) (n : nat) (t : Z) (d : Db) : Prop := mkLost {
  lo_epoch : ∃ e', current d e' ∧ EpochID e' = EpochID e ∧ Sealed e' = false ∧ FreezeUnix e' ≤ t ∧ SealEndUnix e' ≤ t;
  lo_length : length (epochs (lane d)) = n;
}.
Lemma lost_edit e n t id f d : (∀ x, EpochID (f x) = EpochID x ∧ FreezeUnix (f x) = FreezeUnix x ∧ SealEndUnix (f x) = SealEndUnix x ∧ Sealed (f x) = Sealed x) →
  lost e n t d → lost e n t (on_epoch id f d).
Proof using.
  intros Hf [(x & [l El] & Ex & Sx & Fx & Nx) L]. split; [|cbn; by rewrite length_map].
  exists (if EpochID x =? id then f x else x). split; [exists (map (λ e, if EpochID e =? id then f e else e) l); cbn; by rewrite El|].
  destruct (Hf x) as (E1 & E2 & E3 & E4). case_match; [by rewrite E1, E2, E3, E4|done].
Qed.
Lemma lost_same e n t d d' : epochs (lane d') = epochs (lane d) → lost e n t d → lost e n t d'.
Proof using. intros E [(x & C & R) L]. split; [|by rewrite E]. exists x. unfold current in *. by rewrite E. Qed.
Lemma lost_move e n t d d' : lost e n t d → move cfg t d d' → lost e n t d'.
Proof using.
  intros Lo M. destruct M as [d d' Q|d h Hs _ _ _ _|d h f C Hf Hm Hfx|d h C|d h p tg C Hw Hs _ _|d h b ls Hin Hs Hfin|d h c C Hf Ec|d id ct sz me w ee Hm|d id o Ho].
  - eapply lost_same; [apply Q|done].
  - destruct Lo as [(x & [l El] & _ & Sx & _) _]. destruct Hs as [Hn|(y & [l' El'] & Sy & _)]; congruence.
  - apply lost_edit; [|done]. intros x. by destruct (Hfx x) as [->| ->].
  - by apply lost_edit.
  - destruct Lo as [(x & [l El] & _ & _ & _ & Nx) _]. destruct C as [l' El']. rewrite El in El'. injection El' as <- _. lia.
  - destruct (foldl_payout_parts t (EpochID h) ls (on_epoch (EpochID h) (finalize_epoch b) d)) as (E & _).
    eapply lost_same; [exact E|]. by apply lost_edit.
  - by apply (lost_same e n t d).
  - by apply (lost_same e n t d).
  - by apply (lost_same e n t d).
Qed.

(** C39: an epoch that is not sealed inside its window is the last one.  [tickEpoch] returns before the
    branch that would start the next epoch after an unsealed one, so whatever happens afterwards, no epoch
    follows; and the lane is dead: seals, chunks and challenges are refused for ever, with them every
    later payout. *)
Theorem unsealed_epoch_is_last t d e t' d' : current d e → Sealed e = false → FreezeUnix e ≤ t → SealEndUnix e ≤ t → from cfg t d t' d' →
  (∃ e', current d' e' ∧ EpochID e' = EpochID e ∧ Sealed e' = false) ∧ length (epochs (lane d')) = length (epochs (lane d)) ∧
  (∀ p, answer (submitSealCore cfg t' p) d' = Err "outside seal window") ∧
  (∀ c w ct sz me, answer (AssignChunk cfg t' c w ct sz me) d' = Err "epoch frozen: no new chunks") ∧
  ∀ env ok rnd ob w, answer (IssueChallenge cfg env ok t' rnd ob w) d' = Err "challenges only during ingest phase".
Proof using Hdur.
  intros C Hs Hf He Hfrom. assert (Lo : lost e (length (epochs (lane d))) t' d').
  { revert Hfrom. apply (from_ind_moves cfg (lost e (length (epochs (lane d))))); [done| |apply lost_move|].
    - intros s s' x Hle [(y & ? & ? & ? & ? & ?) L]. split; [|done]. exists y. repeat split; (done || lia).
    - split; [|done]. by exists e. }
  destruct Lo as [(x & [l El] & Ex & Sx & Fx & Nx) L]. split; [exists x; split; [by exists l|done]|]. split; [done|].
  assert (E : ensureEpoch cfg t' d' = (Ok x, d')) by (unfold ensureEpoch, abind, aget; by rewrite El).
  split_and!; intros; unfold answer; [unfold submitSealCore|unfold AssignChunk, assign_check; unfold abind at 1|unfold IssueChallenge]; unfold abind at 1; rewrite E; cbn [fst].
  - destruct (Z.ltb_spec t' (SealEndUnix x)); [lia|]. by rewrite andb_false_r.
  - destruct (Z.ltb_spec t' (FreezeUnix x)); [lia|]. done.
  - destruct (Z.ltb_spec t' (FreezeUnix x)); [lia|]. done.
Qed.
End lost.

(** * A challenge answered by another worker *)

Section foreign.
Context `{Crypto} `{Net} (cfg : Config) (env : environ) (ok : string → bool).

(** What [ProofBinding] hashes, twice. *)
Definition binding_msg (ep : Z) (w c : string) (off : Z) (ct : string) : string :=
  be64 ep +:+ w +:+ c +:+ be64 off +:+ digest_or_hash ct.
Definition binding_msgs (ep : Z) (w w' c : string) (off : Z) (ct : string) : list string :=
  twice (binding_msg ep w c off ct) ++ twice (binding_msg ep w' c off ct).
Lemma binding_inj ep w w' c off ct : ProofBinding ep w c off ct = ProofBinding ep w' c off ct → w = w' ∨ clash (binding_msgs ep w w' c off ct).
Proof.
  intros E. destruct (twice_inj (binding_msgs ep w w' c off ct) (binding_msg ep w c off ct) (binding_msg ep w' c off ct)) as [E2|];
    [apply list_subseteq_app_l; done|apply list_subseteq_app_r; done|exact E| |by right]. left.
  unfold binding_msg in E2. apply sapp_inj_l in E2. assert (String.length w = String.length w') as L.
  { apply (f_equal String.length) in E2. rewrite !string_length_app in E2. lia. }
  by apply sapp_inj_len in E2 as [-> _].
Qed.

(** C40: any registered worker can fail the challenge of another.  The answer is checked against the key of
    the worker it names, the challenge is looked up by its id alone, and the worker it was issued to is
    not compared: the binding then differs and the challenge is marked answered and failed, so its owner
    loses the storage payout of the epoch.  A worker id with trailing spaces passes the key check and names
    no row, so that the attacker does not even get the strike. *)
Theorem foreign_answer_fails_challenge t p pub sig proof d reg c ch sector :
  registeredPubkey (s_worker p) d = Ok reg → (String.eqb (trim_space pub) "" || equal_fold (trim_space pub) reg) = true →
  VerifyStorageSubmit p reg sig = Ok tt → challenges (lane d) !! s_challenge p = Some c → c_answered c = false → t ≤ c_expires c →
  hex_decode (trim_space (s_proof p)) = Some sector → str_len sector = 32 → chunk_of (c_chunk c) d = Some ch →
  c_expected c = ProofBinding (c_epoch c) (c_worker c) (c_chunk c) (c_offset c) (ch_ct ch) → s_worker p ≠ c_worker c →
  clash (binding_msgs (c_epoch c) (c_worker c) (s_worker p) (c_chunk c) (c_offset c) (ch_ct ch)) ∨
  answer (SubmitStorageProof cfg env ok t p pub sig proof) d = Err "challenge binding mismatch" ∧
  let d' := after (SubmitStorageProof cfg env ok t p pub sig proof) d in
  WorkerEpochStorageEligible (c_worker c) (c_epoch c) d' = false ∧
  (workers d !! s_worker p = None → workers d' = workers d).
Proof.
  intros Hreg Hpub Hsig Hc Ha Ht Hp Hl Hch He Hne.
  destruct (decide (c_expected c = ProofBinding (c_epoch c) (s_worker p) (c_chunk c) (c_offset c) (ch_ct ch))) as [E|E].
  { rewrite He in E. destruct (binding_inj _ _ _ _ _ _ E) as [Ew|]; [congruence|by left]. }
  right. assert (R : SubmitStorageProof cfg env ok t p pub sig proof d = (Err "challenge binding mismatch",
    recordStorageProofFailure cfg t (s_worker p) (c_chunk c)
      (set_challenges (alter (answered false) (s_challenge p)) (addStrike cfg (s_worker p) (c_epoch c) d)))).
  { unfold SubmitStorageProof, abind at 1, aget. unfold abind at 1, alift at 1. rewrite Hreg. cbv zeta. rewrite Hpub. unfold abind at 1. cbn [aguard aret].
    unfold abind at 1, alift. rewrite Hsig, Hc, Ha. cbn [negb]. unfold abind at 1. cbn [aguard aret].
    destruct (Z.ltb_spec (c_expires c) t); [lia|]. rewrite Hp, Hl, Z.eqb_refl, Hch. apply String.eqb_neq in E. rewrite E. cbn [negb].
    done. }
  unfold answer, after. rewrite R. cbn [fst snd]. split; [done|]. split.
  - apply andb_false_intro2. apply not_true_iff_false. rewrite forallb_forall. intros Hall.
    specialize (Hall (s_challenge p, answered false c)). cbn in Hall. rewrite String.eqb_refl, Z.eqb_refl in Hall. cbn in Hall.
    cut (false = true); [done|]. apply Hall. apply list_elem_of_In, elem_of_map_to_list.
    unfold recordStorageProofFailure. repeat case_match; cbn; by rewrite lookup_alter_eq, Hc.
  - intros Hn. unfold recordStorageProofFailure. repeat case_match; cbn; apply alter_id; intros; congruence.
Qed.
End foreign.
