(* ===== verification/HmsFiles.v ===== *)
(** The HMS storage market: what is uploaded can be downloaded, and an order that failed stays failed.

    Sources: internal/hms: market.go, market_replication.go, market_health.go. *)
From S2P Require Import Prelude Float64 GoText GoNum Json Address CoordShares GoSort HmsSeal HmsBase HmsLane HmsStore HmsRules HmsSteps HmsProps.

(** * Writing files *)

Record only_files (d d' : Db) : Prop := mkOnly {
  of_chunks : chunks d' = chunks d; of_lane : lane d' = lane d; of_orders : orders (market d') = orders (market d);
  of_ochunks : order_chunks (market d') = order_chunks (market d); of_replicas : replicas (market d') = replicas (market d);
}.
#[global] Instance only_files_preorder : PreOrder only_files.
Proof. split; [by intros d|]. intros d1 d2 d3 [] []. split; congruence. Qed.

Section files.
Context `{HC : Crypto} `{HN : Net} (cfg : Config) (env : environ) (wd : World).

(** Every copy of the replica is there and may be read. *)
Definition stored (w c ct : string) (d : Db) : Prop :=
  market_paths env w c ≠ [] ∧ ∀ p, p ∈ market_paths env w c → pathAllowed (abs_ok wd) p = true ∧ files (market d) !! p = Some ct.
Definition grows (ct : string) (d d' : Db) : Prop :=
  only_files d d' ∧ ∀ p, files (market d) !! p = Some ct → files (market d') !! p = Some ct.
#[local] Instance grows_preorder ct : PreOrder (grows ct).
Proof. split; [by intros d|]. intros d1 d2 d3 [A B] [C D]. split; [by etrans|eauto]. Qed.
Lemma stored_grows w c ct d d' : grows ct d d' → stored w c ct d → stored w c ct d'.
Proof. intros [_ G] [Hn Hs]. split; [done|]. intros p Hp. destruct (Hs p Hp). eauto. Qed.
Lemma stored_verified w c ct d : stored w c ct d → first_verified (abs_ok wd) (sha256 ct) false (market_paths env w c) d = Ok ct.
Proof.
  intros [Hn Hs]. destruct (market_paths env w c) as [|p ps]; [done|]. cbn. destruct (Hs p ltac:(left)) as [-> ->]. cbn. by rewrite String.eqb_refl.
Qed.

Lemma write_at_grows root w c ct : along (grows ct) (write_at wd root w c ct).
Proof.
  unfold write_at. along_with ltac:(idtac). intros d. split; [done|]. intros q Hq. cbn. destruct (decide (q = p)) as [->|].
  - by rewrite lookup_insert_eq.
  - by rewrite lookup_insert_ne.
Qed.
Lemma write_at_ok root w c ct d u d' : write_at wd root w c ct d = (Ok u, d') →
  ∃ p, filepathJoinMarket root w c = Some p ∧ pathAllowed (abs_ok wd) p = true ∧ files (market d') !! p = Some ct.
Proof.
  unfold write_at. destruct (filepathJoinMarket root w c) as [p|] eqn:E; intros R; run_ok. exists p. split; [done|]. split; [done|].
  cbn. by rewrite lookup_insert_eq.
Qed.
Lemma write_file_grows w c ct : along (grows ct) (writeMarketChunkFile env wd w c ct).
Proof. unfold writeMarketChunkFile. along_with ltac:(apply write_at_grows). Qed.
Lemma write_file_ok w c ct d u d' : writeMarketChunkFile env wd w c ct d = (Ok u, d') → stored w c ct d'.
Proof.
  unfold writeMarketChunkFile. intros R. run_ok. clear E0.
  apply write_at_ok in R as Hw. destruct Hw as (p & Ep & Ap & Fp). apply (along_at (grows ct)) in R as [_ G]; [|apply write_at_grows].
  unfold stored, market_paths. destruct (String.eqb_spec (marketStorageRoot env) "") as [Er|Er].
  - assert (filepathJoinMarket (marketStorageRoot env) w c = None) as -> by (rewrite Er; done). rewrite Ep. cbn. split; [done|].
    by intros q ->%list_elem_of_singleton.
  - apply write_at_ok in E1 as (p1 & Ep1 & Ap1 & Fp1). rewrite Ep1, Ep. cbn. split; [done|].
    intros q [->|[->|[]%elem_of_nil]%elem_of_cons]%elem_of_cons; auto.
Qed.
Lemma write_replicas_grows c ct ws : along (grows ct) (write_replicas env wd c ct ws).
Proof.
  induction ws as [|w ws IH]; intros d; [done|]. unfold after. cbn [write_replicas]. pose proof (write_file_grows w c ct d) as Q. unfold after in Q.
  destruct (writeMarketChunkFile env wd w c ct d) as [[u|e] d1]; cbn [snd] in Q.
  - etrans; [exact Q|]. specialize (IH d1). unfold after, abind in *. by destruct (write_replicas env wd c ct ws d1) as [[]].
  - etrans; [exact Q|]. apply IH.
Qed.
Lemma write_replicas_ok c ct ws d l d' : write_replicas env wd c ct ws d = (Ok l, d') → ∀ w, w ∈ l → stored w c ct d'.
Proof.
  revert d l d'. induction ws as [|w ws IH]; intros d l d' R; cbn [write_replicas] in R.
  - injection R as <- <-. by intros w ?%elem_of_nil.
  - destruct (writeMarketChunkFile env wd w c ct d) as [[u|e] d1] eqn:E; [|by eapply IH].
    run_ok. intros v [->|Hv]%elem_of_cons; [|by eapply IH]. apply write_file_ok in E.
    eapply stored_grows; [|exact E]. by eapply (along_at (grows ct)); [apply write_replicas_grows|].
Qed.

(** * Upload, then download *)

Lemma chunk_of_put t id ct sz me w ep d : ∃ c, chunk_of id (put_chunk t id ct sz me w ep d) = Some c ∧ ch_ct c = ct.
Proof.
  unfold put_chunk, chunk_of. cbn. destruct (List.find _ (chunks d)) as [c0|] eqn:E.
  - revert E. induction (chunks d) as [|c l IH]; [done|]. cbn. destruct (String.eqb_spec (ch_id c) id) as [Ec|Ec]; cbn.
    + intros _. rewrite String.eqb_refl. eauto.
    + apply String.eqb_neq in Ec. rewrite Ec. apply IH.
  - revert E. induction (chunks d) as [|c l IH]; cbn.
    + intros _. rewrite String.eqb_refl. eauto.
    + destruct (ch_id c =? id)%string; [done|]. apply IH.
Qed.
Lemma assign_market_ok t c w ct sz me d u d' : trim_space c = c → AssignMarketChunk cfg t c w ct sz me d = (Ok u, d') →
  market d' = market d ∧ ∃ x, chunk_of c d' = Some x ∧ ch_ct x = ct.
Proof using HC cfg.
  intros Hc R. unfold AssignMarketChunk in R. cbv zeta in R. run_ok. destruct (ensure_ok cfg t d) as (e & d1 & E' & _ & _ & Em & _).
  match goal with E : ensureEpoch _ _ _ = _ |- _ => rewrite E in E'; injection E' as -> -> end. unfold sql_uint in *. run_ok.
  rewrite Hc in *. split; [done|]. apply (chunk_of_put t c ct sz me).
Qed.
Lemma all_healthy_parts t o i ws d : let d' := foldl (λ d w, recordReplicaHealth cfg t o i w true d) d ws in
  only_files d d' ∧ files (market d') = files (market d).
Proof.
  revert d. induction ws as [|w ws IH]; intros d; [done|]. cbn [foldl]. destruct (IH (recordReplicaHealth cfg t o i w true d)) as [O F].
  split; [|exact F]. etrans; [|exact O]. done.
Qed.

Lemma download_stored o tok i ct ws d ord oc c : orders (market d) !! o = Some ord → matchUploadToken env (UploadToken ord) tok = Ok tt →
  order_chunks (market d) !! (o, i) = Some oc → replicas (market d) !! (o, i) = Some ws → ws ≠ [] →
  chunk_of (oc_chunk oc) d = Some c → ch_ct c = sha256 ct → (∀ w, w ∈ ws → stored w (oc_chunk oc) ct d) →
  DownloadOrderChunk env wd o tok i d = Ok (ct, oc_chunk oc).
Proof.
  intros Ho Ht Hoc Hr Hn Hc Hct Hst.
  assert (V : ∀ w, w ∈ ws → readVerifiedMarketChunkFile env (abs_ok wd) w (oc_chunk oc) d = Ok ct).
  { intros w Hw. unfold readVerifiedMarketChunkFile. rewrite Hc, Hct. unfold str_len. rewrite sha256_length. cbn. by apply stored_verified, Hst. }
  unfold DownloadOrderChunk, verifyUploadToken, GetStorageOrder, listChunkReplicaWorkers.
  rewrite Ho. cbn [rbind]. rewrite Ht, Hoc, Hr. destruct ws as [|w ws]; [done|]. cbn. by rewrite (V w) by left.
Qed.

(** C23: round trip: after a successful upload, whatever part of the replicas could be written, the same
    token downloads exactly the uploaded bytes. *)
Theorem upload_download t o tok i ct d id ws d' : order_id o →
  UploadOrderChunk cfg env wd t o tok i ct d = (Ok (id, ws), d') → DownloadOrderChunk env wd o tok i d' = Ok (ct, id).
Proof.
  intros Ho R. pose proof (chunk_id_trim o i Ho) as Ht. unfold UploadOrderChunk in R. cbv zeta in R. run_ok. simplify_eq.
  assert (m7 = d) as -> by (destruct (0 <? _) in E7; run_ok; done).
  pose proof (write_replicas_ok _ _ _ _ _ _ E9) as Hst. apply (along_at (grows ct)) in E9 as [O1 _]; [|apply write_replicas_grows].
  apply assign_market_ok in E11 as (Em & c & Ec & Ect); [|done].
  set (oc := mkOChunk _ _ _ _ _ _). set (d1 := set_order_chunks _ _). destruct (all_healthy_parts t o i x9 d1) as [O2 F2]. set (d2 := foldl _ d1 x9) in *.
  unfold verifyUploadToken in E0. rewrite E1 in E0. cbn [rbind] in E0. unfold GetStorageOrder in E1.
  destruct (orders (market d) !! o) as [ord|] eqn:Eo; simplify_eq.
  eapply (download_stored o tok i ct x9 _ _ oc c).
  - cbn. rewrite lookup_alter_eq, (of_orders _ _ O2). cbn. rewrite Em, (of_orders _ _ O1), Eo. reflexivity.
  - by destruct x0.
  - cbn. rewrite (of_ochunks _ _ O2). cbn. by rewrite lookup_insert_eq.
  - cbn. rewrite (of_replicas _ _ O2). cbn. by rewrite lookup_insert_eq.
  - by destruct x9.
  - unfold chunk_of. cbn [chunks set_orders set_market]. rewrite (of_chunks _ _ O2). exact Ec.
  - done.
  - intros w Hw. specialize (Hst w Hw). destruct Hst as [Hn Hs]. split; [done|]. intros p Hp. destruct (Hs p Hp) as [Ha Hf]. split; [done|].
    cbn. rewrite F2. cbn. rewrite Em. exact Hf.
Qed.
End files.

(** * An order that failed is not repaired *)

Definition of_order (o : string) (r : Repair) : Prop := rp_order r = o.
#[local] Instance of_order_dec o r : Decision (of_order o r). Proof. unfold of_order. apply _. Defined.
Record spared (o : string) (d d' : Db) : Prop := mkSpared {
  sp_order : orders (market d') !! o = orders (market d) !! o;
  sp_replicas : ∀ i, replicas (market d') !! (o, i) = replicas (market d) !! (o, i);
  sp_repairs : filter (of_order o) (repairs (market d')) = filter (of_order o) (repairs (market d));
}.
#[global] Instance spared_preorder o : PreOrder (spared o).
Proof. split; [by intros d|]. intros d1 d2 d3 [A1 B1 C1] [A2 B2 C2]. split; [congruence| |congruence]. intros i. by rewrite B2. Qed.

Section failed.
Context `{HC : Crypto} `{HN : Net} (cfg : Config) (env : environ) (wd : World) (o : string).

Lemma spared_files f d : spared o d (set_files f d). Proof. done. Qed.
Lemma spared_health t o' i w b d : spared o d (recordReplicaHealth cfg t o' i w b d). Proof. done. Qed.
Lemma spared_replicas o' i ws d : o' ≠ o → spared o d (recordChunkReplicas o' i ws d).
Proof. intros Hne. split; [done| |done]. intros j. cbn. by rewrite lookup_insert_ne by congruence. Qed.
Lemma spared_repairs o' i c a b sz t d : o' ≠ o → spared o d (set_repairs (λ l, l ++ [mkRepair o' i c a b sz t]) d).
Proof. intros Hne. split; [done..|]. cbn. rewrite list.filter_app, filter_cons, decide_False by done. by rewrite app_nil_r. Qed.
#[local] Hint Resolve spared_files spared_health spared_replicas spared_repairs : hms.

Lemma write_file_spared w c ct : along (spared o) (writeMarketChunkFile env wd w c ct).
Proof. unfold writeMarketChunkFile, write_at. along_with ltac:(auto with hms). Qed.
Lemma repair_passes_spared t n o' i c sw src ex : o' ≠ o → along (spared o) (repair_passes cfg env wd t n o' i c sw src ex).
Proof.
  intros Hne. revert ex. induction n as [|n IH]; intros ex; cbn [repair_passes]; [by intros d|]. apply along_bind; [apply _|apply along_get; apply _|intros d0].
  apply along_bind; [apply _|apply along_lift; apply _|intros cs]. case_match; [by intros d|]. intros d. unfold after.
  pose proof (write_file_spared s c src d) as Q. unfold after in Q. destruct (writeMarketChunkFile env wd s c src d) as [[u|e] d1]; cbn [snd] in Q.
  - etrans; [exact Q|]. match goal with |- spared o ?d (?m ?d).2 => assert (along (spared o) m) as K; [|apply K] end. along_with ltac:(auto with hms).
  - etrans; [exact Q|]. apply IH.
Qed.
Lemma repair_chunk_spared t row : row.1.1 ≠ o → along (spared o) (repair_chunk cfg env wd t row).
Proof.
  destruct row as [[o' i] c]. cbn [fst]. intros Hne. unfold repair_chunk, tryRepairChunk, check_replica. cbv zeta.
  along_with ltac:(auto using repair_passes_spared with hms).
Qed.
Lemma refresh_spared t d ids : o ∉ ids → spared o d (foldl (λ d id, refresh_one cfg env wd t id d) d ids).
Proof.
  revert d. induction ids as [|x ids IH]; intros d Hn; [done|]. cbn [foldl]. etrans; [|apply IH; set_solver].
  unfold refresh_one. case_match; [done|]. split; [|done..]. cbn. rewrite lookup_alter_ne; [done|set_solver].
Qed.

Lemma repairs_spared t d : order_active o d = false → spared o d (after (repairMissingReplicas cfg env wd t) d).
Proof.
  intros Ha. unfold after, repairMissingReplicas, abind, aget. match goal with |- spared o ?d (?m ?d).2 => assert (along (spared o) m) as K; [|apply K] end.
  apply along_for_in; [apply _|]. intros row [Hr _]%list_elem_of_filter. apply repair_chunk_spared. intros <-. congruence.
Qed.
Lemma refresh_failed t ord d : orders (market d) !! o = Some ord → active_status (Status ord) = false → spared o d (refreshOrderHealth cfg env wd t d).
Proof.
  intros Ho Ha. apply refresh_spared. intros ([k x] & -> & [Hx Hin]%list_elem_of_filter)%list_elem_of_fmap. apply elem_of_map_to_list in Hin.
  cbn in *. congruence.
Qed.
(** an order whose chunks were all unreachable at one health tick is given up for good.  Its status
    then reads failed, its detail says that a restore is unavailable until repair succeeds, but the
    ticks repair and refresh active orders only: whatever replicas come back, a tick changes nothing of
    the order, its replica lists and its repairs, and uploads for it are refused. *)
Theorem failed_order_stays_failed t ord d : orders (market d) !! o = Some ord → Status ord = OrderStatusFailed →
  let d' := after (RunHealthTick cfg env wd t) d in
  spared o d d' ∧ ∀ tok i ct s d'', UploadOrderChunk cfg env wd t o tok i ct d' ≠ (Ok s, d'').
Proof.
  intros Ho Hs. cbv zeta. assert (spared o d (after (RunHealthTick cfg env wd t) d)) as Sp.
  { pose proof (repairs_spared t d ltac:(unfold order_active; by rewrite Ho, Hs)) as Q.
    unfold after, RunHealthTick, abind in *. destruct (repairMissingReplicas cfg env wd t d) as [[u|e] d1]; [|exact Q].
    cbn [snd] in Q. etrans; [exact Q|]. cbn [snd amod]. apply (refresh_failed t ord); [by rewrite (sp_order _ _ _ Q)|by rewrite Hs]. }
  split; [done|]. intros tok i ct s d'' R. unfold UploadOrderChunk in R. cbv zeta in R. run_ok.
  unfold GetStorageOrder in *. rewrite (sp_order _ _ _ Sp), Ho in *. simplify_eq. rewrite Hs in *. done.
Qed.
End failed.
