(* ===== verification/HmsToy.v ===== *)
(** The HMS lane on concrete inputs: a coordinator with two storage workers, an order and a challenge.

    Sources: internal/hms. *)
From S2P Require Import Prelude Float64 GoText GoNum Json Address CoordShares GoSort HmsSeal HmsBase HmsLane HmsStore HmsRules HmsSteps HmsProps HmsFiles.

#[local] Existing Instance toy_crypto.
(** No endpoint of a worker parses; the driver keeps a nil byte slice as an empty blob. *)
#[local] Instance toy_net : Net := {| url_parse := λ _, None; parse_ip := λ _, None; lookup_ip := λ _, None; nil_is_null := false |}.

Definition toy_env : environ := λ k,
  if String.eqb k "HMS_MARKET_SKIP_PAYMENT" || String.eqb k "HMS_COORDINATOR_ALLOW_INSECURE" then "1" else "".
Definition toy_world : World := mkWorld (λ _, true) (λ _, true) (λ _ _ _, false).
(** Epochs freeze after 50 s and can be sealed for 40 s. *)
Definition toy_config : Config := mkConfig "p" 100 50 40 1 100 3 900 300 30 3 (str_take 32 (zeros 2 +:+ byte1 255 +:+ zeros 29)) 600 (f_of_Z 4).

Fixpoint run_ops (l : list (Z * Op)) (d : Db) : Db :=
  match l with [] => d | (t, op) :: l => run_ops l (run_op toy_config op toy_env toy_world t d) end.
Fixpoint last_time (t : Z) (l : list (Z * Op)) : Z := match l with [] => t | (t', _) :: l => last_time t' l end.
Fixpoint ordered (t : Z) (l : list (Z * Op)) : bool := match l with [] => true | (t', _) :: l => (t <=? t') && ordered t' l end.
Lemma from_ops t0 d0 t d l : from toy_config t0 d0 t d → ordered t l = true → from toy_config t0 d0 (last_time t l) (run_ops l d).
Proof.
  revert t d. induction l as [|[t' op] l IH]; intros t d Hf Ho; cbn [ordered run_ops last_time] in *; [done|]. b2p.
  apply IH; [|done]. by apply (from_op toy_config t0 d0 t t').
Qed.

Definition w1_key : string := toy_key "a".
Definition w2_key : string := toy_key "b".
(** Two workers register, a chunk is assigned to the first, which is challenged; then the epoch freezes. *)
Definition ops_ingest : list (Z * Op) :=
  [(1000, OpTick); (1001, OpRegisterStorage "w1" w1_key 50 ""); (1002, OpRegisterStorage "w2" w2_key 60 "");
   (1003, OpAssign "c1" "w1" (zeros 32) 64 "meta"); (1004, OpChallenge 0 7 "w1")].
Definition db_ingest : Db := Eval vm_compute in run_ops ops_ingest empty_db.
Definition db_frozen : Db := Eval vm_compute in run_ops [(1050, OpTick)] db_ingest.

(** * The lane *)

Lemma ingest_frozen : run_ops (ops_ingest ++ [(1050, OpTick)]) empty_db = db_frozen.
Proof. vm_compute. reflexivity. Qed.
(** The second worker seals the epoch, and the next one starts. *)
Definition seal_op : Op := OpSeal (mkSealSubmit "w2" 1 5) "" (w2_key +:+ w2_key).
Definition db_next : Db := Eval vm_compute in run_ops [(1060, seal_op); (1090, OpTick)] db_frozen.
Lemma db_next_epochs : map (λ e, (EpochID e, Sealed e, SealWorkerID e)) (epochs (lane db_next)) = [(2, false, ""); (1, true, "w2")].
Proof. reflexivity. Qed.

Lemma lane_history_witness : reachable toy_config 1050 db_frozen ∧
  (∀ e, e ∈ epochs (lane db_frozen) → ManifestRoot e ≠ "" → FreezeUnix e ≤ 1050 ∧ ManifestRoot e = buildManifest (EpochID e) db_frozen) ∧
  extends db_frozen db_next.
Proof.
  assert (Hr : reachable toy_config 1050 db_frozen).
  { exists 1000. rewrite <- ingest_frozen. apply (from_ops 1000 empty_db 1000 empty_db (ops_ingest ++ [(1050, OpTick)])); [apply from_start|reflexivity]. }
  split; [exact Hr|]. pose proof (lane_history toy_config ltac:(cbn; lia) 1050 db_frozen Hr) as [H1 H2]. split; [exact H1|].
  apply (H2 1090). apply (from_ops 1050 db_frozen 1050 db_frozen [(1060, seal_op); (1090, OpTick)]); [apply from_start|reflexivity].
Defined.

(** ** An assignment interleaved with a tick *)

(** A digest of all of the message, for the roots to differ. *)
Fixpoint mix (m : string) (acc : Z) : Z :=
  match m with EmptyString => acc | String c m => mix m ((acc * 257 + Z.of_nat (nat_of_ascii c)) mod (2 ^ 61 - 1)) end.
Definition mixed (m : string) : string := str_prefix 32 (fmt_int (mix m 1) +:+ zeros 32).
Lemma mixed_length m : String.length (mixed m) = 32%nat.
Proof. unfold mixed. rewrite str_prefix_length, string_length_app. change (String.length (zeros 32)) with 32%nat. lia. Qed.
Definition mix_crypto : Crypto := {| sha256 := mixed; ed25519_verify := λ _ _ _, true; sha256_length := mixed_length |}.

(** Between the check and the insert of an assignment nothing is locked.  The check passes a second before the freeze, the
    tick at the freeze takes the root, the insert follows: the chunk is in the epoch and under no root. *)
Definition db_ticked : Db := @run_op mix_crypto _ toy_config OpTick toy_env toy_world 1050 db_ingest.
Definition db_raced : Db :=
  match answer (assign_check toy_config 1049 "w2") db_ingest with
  | Ok ep => after (assign_insert 1049 "c2" "w2" (zeros 32) 64 "meta" ep) db_ticked
  | Err _ => db_ticked
  end.
Lemma assign_race :
  is_ok (answer (assign_check toy_config 1049 "w2") db_ingest) = true ∧
  (∃ c, chunk_of "c2" db_raced = Some c ∧ ch_epoch c = 1) ∧
  ∃ e, current db_raced e ∧ EpochID e = 1 ∧
    ManifestRoot e = @buildManifest mix_crypto 1 db_ticked ∧ ManifestRoot e ≠ @buildManifest mix_crypto 1 db_raced.
Proof.
  split; [vm_compute; reflexivity|]. split; [eexists; split; vm_compute; reflexivity|].
  eexists. split; [eexists; vm_compute; reflexivity|]. split; [reflexivity|]. split; [vm_compute; reflexivity|].
  vm_compute. discriminate.
Qed.

(** Nobody seals; the coordinator ticks on. *)
Definition ops_late : list (Z * Op) := [(1090, OpTick); (1200, OpTick); (9999, OpTick)].
Definition db_late : Db := Eval vm_compute in run_ops ops_late db_frozen.
Lemma frozen_current : ∃ e, current db_frozen e ∧ Sealed e = false ∧ FreezeUnix e = 1050 ∧ SealEndUnix e = 1090 ∧ EpochID e = 1.
Proof. eexists. split; [eexists; reflexivity|]. repeat split. Defined.
Lemma unsealed_epoch_is_last_witness :
  (∃ e', current db_late e' ∧ EpochID e' = 1 ∧ Sealed e' = false) ∧ length (epochs (lane db_late)) = 1%nat ∧
  (∀ p, answer (submitSealCore toy_config 9999 p) db_late = Err "outside seal window") ∧
  (∀ c w ct sz me, answer (AssignChunk toy_config 9999 c w ct sz me) db_late = Err "epoch frozen: no new chunks") ∧
  ∀ env ok rnd ob w, answer (IssueChallenge toy_config env ok 9999 rnd ob w) db_late = Err "challenges only during ingest phase".
Proof.
  destruct frozen_current as (e & C & Hs & Hf & He & Ei). rewrite <- Ei.
  apply (unsealed_epoch_is_last toy_config ltac:(cbn; lia) 1090 db_frozen e 9999 db_late C Hs); [lia|lia|].
  apply (from_ops 1090 db_frozen 1090 db_frozen ops_late); [apply from_start|reflexivity].
Defined.

(** The second worker answers the challenge of the first, under a name with a space at its end. *)
Definition toy_answer : StorageSubmitPayload := mkStorageSubmit "w2 " "1-w1-0000000000000007" 1 (repeat_char 64 "c").
Definition toy_challenge : Challenge := mkChal 1 "w1" "c1" 7 (ProofBinding 1 "w1" "c1" 7 (zeros 32)) "" 1904 false false.
Definition db_failed : Db := Eval vm_compute in run_op toy_config (OpProof toy_answer "" (w2_key +:+ w2_key) "") toy_env toy_world 1010 db_ingest.
Lemma foreign_answer_fails_challenge_witness :
  (clash (binding_msgs 1 "w1" "w2 " "c1" 7 (zeros 32)) ∨
   answer (SubmitStorageProof toy_config toy_env (λ _, true) 1010 toy_answer "" (w2_key +:+ w2_key) "") db_ingest = Err "challenge binding mismatch" ∧
   WorkerEpochStorageEligible "w1" 1 db_failed = false ∧ (workers db_ingest !! "w2 " = None → workers db_failed = workers db_ingest)) ∧
  WorkerEpochStorageEligible "w1" 1 db_ingest = true ∧ WorkerEpochStorageEligible "w2" 1 db_failed = true.
Proof.
  split; [|split; vm_compute; reflexivity].
  exact (foreign_answer_fails_challenge toy_config toy_env (λ _, true) 1010 toy_answer "" (w2_key +:+ w2_key) "" db_ingest w2_key
    toy_challenge (mkChunk "c1" (zeros 32) 64 "meta" "w1" 1 1003) _ ltac:(vm_compute; reflexivity) ltac:(vm_compute; reflexivity)
    ltac:(vm_compute; reflexivity) ltac:(vm_compute; reflexivity) ltac:(vm_compute; reflexivity) ltac:(vm_compute; discriminate)
    ltac:(vm_compute; reflexivity) ltac:(vm_compute; reflexivity) ltac:(vm_compute; reflexivity) ltac:(vm_compute; reflexivity)
    ltac:(discriminate)).
Defined.

(** * The market *)

Definition ops_market : list (Z * Op) :=
  firstn 3 ops_ingest ++ [(1005, OpCreate "rid" "token" "pilot" "" "" 100 30 "" "" "" true)].
Definition db_market : Db := Eval vm_compute in run_ops ops_market empty_db.
Definition toy_order : string := "ord-" +:+ hex_encode "rid".
Definition upload_toy (d : Db) := UploadOrderChunk toy_config toy_env toy_world 1006 toy_order (hex_encode "token") 3 "hello" d.
Definition db_uploaded : Db := Eval vm_compute in after (upload_toy) db_market.
Lemma upload_download_witness :
  upload_toy db_market = (Ok (chunk_id toy_order 3, ["w2"; "w1"]), db_uploaded) ∧
  DownloadOrderChunk toy_env toy_world toy_order (hex_encode "token") 3 db_uploaded = Ok ("hello", chunk_id toy_order 3).
Proof.
  assert (E : upload_toy db_market = (Ok (chunk_id toy_order 3, ["w2"; "w1"]), db_uploaded)) by (vm_compute; reflexivity).
  split; [exact E|]. apply (upload_download toy_config toy_env toy_world 1006 toy_order (hex_encode "token") 3 "hello" db_market _ ["w2"; "w1"] db_uploaded); [by exists "rid"|exact E].
Defined.

(** Both copies are lost, found missing by a tick, and back. *)
Definition db_gone : Db := Eval vm_compute in run_ops [(1007, OpFiles (λ _, ∅)); (1040, OpHealth)] db_uploaded.
Definition db_back : Db := set_files (λ _, files (market db_uploaded)) db_gone.
Lemma failed_order_stays_failed_witness :
  (∃ ord, orders (market db_back) !! toy_order = Some ord ∧ Status ord = "failed") ∧
  let d' := after (RunHealthTick toy_config toy_env toy_world 1070) db_back in
  (spared toy_order db_back d' ∧ ∀ tok i ct s d'', UploadOrderChunk toy_config toy_env toy_world 1070 toy_order tok i ct d' ≠ (Ok s, d'')) ∧
  DownloadOrderChunk toy_env toy_world toy_order (hex_encode "token") 3 db_back = Ok ("hello", chunk_id toy_order 3).
Proof.
  assert (H : ∃ ord, orders (market db_back) !! toy_order = Some ord ∧ Status ord = "failed") by (eexists; split; vm_compute; reflexivity).
  split; [exact H|]. destruct H as (ord & Ho & Hs). split; [|vm_compute; reflexivity].
  apply (failed_order_stays_failed toy_config toy_env toy_world toy_order 1070 ord db_back Ho Hs).
Defined.
